(* ===== verification/_CoqProject ===== *)
-Q . S2P
Prelude.v
Block.v
Partition.v
Cache.v
FatDevice.v
Mount.v
ExFatDevice.v
Path.v
FileSystem.v
MemFs.v
Vfs.v
VfsContext.v
Chronoline.v
Frames.v
PageTable.v
Handles.v
Scheduler.v
LinuxMemory.v
Slab.v
Rings.v
Terminal.v
Shell.v
LineEditor.v
Net.v
Dhcp.v
Wifi.v
Xhci.v
Aes.v
Wpa.v
Surface.v
WindowManager.v
Compositor.v
Editor.v
Loader.v
Iova.v
Iommu.v
UserMemory.v
Keyboard.v
LinuxFiles.v
Tasks.v
ProcessTable.v
