(* ===== verification/Prelude.v ===== *)
(** * Fullerene: a verification development

    Fullerene is an operating system kernel in Rust with its file systems, memory
    management, process management, shell, network stack, drivers and desktop.  This library
    translates the parts of it whose behaviour is decided by their own logic into
    executable definitions and proves what makes them correct.  Every file names the
    sources it models; definitions keep the names of the code, with a prefix where Rust
    distinguishes methods by their type ([mem_read], [ctx_read], [fat_read]).

    ** Conventions

    Machine integers are [Z] values in the range of their type; operations that can leave
    the range are written out: wrapping, saturating and checked operations as in the code,
    and plain additions that can overflow as a panic, since the development profile enables
    overflow checks (and debug assertions).  A fallible operation returns [result]: [Ok], [Err], or [Panic] for an aborting
    panic (an index out of range, [unwrap] of [None], arithmetic overflow).  State is passed
    explicitly; an operation on [&mut self] returns its result and the new state, on error
    paths too.  Loops whose recursion is not structural take fuel, and running out of fuel
    is [Panic], so that every theorem that excludes [Panic] also shows termination; the
    fuel a function uses is computed from its input where a bound is known, and is
    otherwise quantified in the theorem ("for all fuel from some bound on").

    Code that is not part of the repository, and the boundaries between components, are
    type classes: [BlockDevice] with [LawfulDevice] (media), [FileSystem] (mounted file
    systems), [TimerHeap] (the binary heap of the standard library), [FrameAllocator] and
    [PageTableHelper] (memory), [Terminal] and [TermInput] (consoles), [NetDevice] (network
    cards), [DriverContext] (DMA memory), [KernelMap] (pages of the kernel's table), [Mapper]
    with [LawfulMapper] (single pages in the third-party page-table library).  Theorems about a
    client are proved against the class; concrete instances discharge the laws and feed the witnesses.

    ** Files

    - [Prelude]: outcomes, machine integers, slices, counted loops, tactics, hints.
    - [Block] (genome/src/block.rs, fs.rs): the device trait, its laws, a memory disk.
    - [Partition] (genome/src/fat/partition.rs): the master boot record and partition devices.
    - [Cache] (genome/src/fat/cache.rs): the sector cache, shown transparent over any lawful
      fault-free device, with the effect of device errors.
    - [FatDevice] (genome/src/fat/block_device.rs), [ExFatDevice] (genome/src/fat/exfat.rs,
      the device part): byte streams over sectors.
    - [Mount] (genome/src/fat/mod.rs): the stack of partition, cache and driver.
    - [Path], [FileSystem], [MemFs], [Vfs] (genome/src/vfs.rs): paths, the file system trait,
      the in-memory file system and the mount table.
    - [VfsContext] (fullerene-kernel/src/contexts/vfs.rs): descriptors over the mount table.
    - [Chronoline] (chronoline/src/lib.rs, solvent/src/event_loop.rs): timers and their firing.
    - [Frames] (petroleum/src/page_table/allocator): the bitmap frame allocator.
    - [PageTable] (petroleum/src/page_table/types.rs and raw/): page tables in memory.
    - [Handles] (fullerene-kernel/src/syscall/types.rs, process.rs): signed handles,
      descriptor tables and the cleanup of a process.
    - [Scheduler] (fullerene-kernel/src/scheduler_context.rs, process.rs and the calls that
      end or await a process): process states and round-robin scheduling.
    - [LinuxMemory] (fullerene-kernel/src/linux/memory.rs): mmap, munmap, mprotect, brk.
    - [Slab] (fullerene-kernel/src/slab.rs, memory_management/manager.rs): pools of equal-sized
      objects whose free lists live in their own memory.
    - [Rings] (fullerene-kernel/src/klog.rs, resonance/src/tracing.rs): the kernel log and the
      trace buffer.
    - [Terminal] (nozzle/src/terminal_buffer.rs): the cell grid, escape sequences, scrollback.
    - [Shell] (carrier/src, solvent/src/terminal.rs): pipelines and their dispatch.
    - [LineEditor] (nozzle/src/line_editor.rs): editing, history and completion.
    - [Net] (bonder/src/ethernet.rs, ipv4.rs, udp.rs, logger.rs): frames and checksums.
    - [Dhcp] (bonder/src/dhcp.rs), [Wifi] (bonder/src/wifi.rs): the DHCP client and 802.11 frames.
    - [Xhci] (nitrogen/src/usb/xhci/ring.rs, nitrogen/src/usb/dma.rs): the rings shared with
      the USB controller.
    - [Aes], [Wpa] (bonder/src/wpa.rs): AES-128 key unwrapping against the standard, the hashes,
      and the four-way handshake of the WPA client.
    - [Surface] (lattice/src/surface.rs, scene.rs): pixel buffers and dirty rectangles.
    - [WindowManager] (lattice/src/window.rs, wm.rs): windows, focus, dragging and tiling.
    - [Compositor] (lattice/src/compositor.rs): drawing a scene within its dirty rectangles.
    - [Loader] (fullerene-kernel/src/loader.rs): the segments of a program in its page table.
    - [Editor] (lattice/src/editor.rs): the text editor; it shares the UTF-8 model of [Rings].
    - [Iova], [Iommu] (nitrogen/src/iommu/mod.rs, table.rs): device addresses, and the tables
      through which devices reach memory.
    - [UserMemory] (petroleum/src/common/memory.rs, fullerene-kernel/src/user_memory.rs): the
      validation of user addresses and the copies from and to user memory.
    - [Keyboard] (nitrogen/src/ps2/keyboard.rs): scancodes, modifiers, repetition, input buffers.
    - [LinuxFiles] (fullerene-kernel/src/linux/fs.rs, with the descriptor table, error numbers
      and dispatch of linux/runtime.rs): the file calls over [VfsContext],
      [UserMemory] and [Keyboard].
    - [Tasks] (fullerene-kernel/src/task.rs): futures driven by processes, interleaved with
      wakes and with the other processes of [Scheduler].
    - [ProcessTable] (petroleum/src/page_table/process/table.rs): the page tables of processes
      as the processor walks them: mapping, splitting, cloning, releasing.

    ** What the theorems show

    - Storage: reads and writes through partition, cache and byte stream deliver and change
      exactly the bytes they should, at any alignment, and nothing outside the partition;
      the cache is indistinguishable from the device; errors are reported, and where an
      error corrupts the cache that is stated.
    - Files: path normalisation, the tree invariant of the in-memory file system, routing by
      the longest mount point, and the validity of all open descriptors are invariants of
      every sequence of operations; writes are read back.
    - Memory: the frame allocator manages exactly the conventional memory and is first fit;
      mapping and unmapping change exactly the translations of the page, for hierarchies of
      any shape; splitting a large page and cloning a table keep every translation; the Linux
      memory calls are all or nothing; objects of the slab allocator stay disjoint whatever
      their holders write, and a reap releases every page without objects.
    - Processes: forged and stale handles are rejected; exactly the scheduled process runs;
      every ready process is scheduled within one round; termination wakes whoever waits;
      the loader refuses segments outside the image or user space, and a loaded process sees
      the bytes of its segments and no others, when both frame allocators it uses are there
      (as the code stands, one of them never is); a wake that finds its task blocked is
      followed by a poll, and one that comes before the task has blocked is lost.
    - User memory and file calls: a range is admitted exactly when every byte of it may be
      accessed, which the processor's own walk confirms; string copies need no page
      behind the one with the terminator; no sequence of file calls with any arguments changes memory
      the program may not write or breaks the descriptors; what a program saves it can load;
      what is typed is the line it reads from standard input.
    - Devices behind the IOMMU reach exactly the memory of live mappings, over any sequence
      of mappings and releases, and a failed mapping leaves no trace but the one stated.
    - Time: a tick fires the due timers once each and terminates.
    - Logs, terminal and shell: the rings hold the latest part of an unbounded log; the
      terminal never leaves its invariant; the line editor refines a line split at the
      cursor together with what the screen shows; pipelines are parsed and composed.
    - Network and devices: datagrams carry checksums receivers accept; DHCP ends bound to the
      acknowledged lease; beacon parsing is memory safe and recovers the network; the rings
      of the USB controller are bounded queues over any interleaving.
    - Keys: decryption inverts AES-128 as the standard defines it and unwrapping inverts the
      wrapping of RFC 3394; client and access point agree on the keys of a handshake; whatever
      frames arrive the client does not panic and keys come only from authenticated messages.
      SHA-1 is checked on vectors; no cryptographic hardness is assumed or shown.
    - Desktop: fills and blits change exactly the clipped pixels; identifiers and focus are
      invariants of all window operations, none of which panics within stated sizes; tiling is
      without overlap and is undone exactly; redrawing only what the window manager marks
      shows the new windows (untitled ones, outside tiling and maximising); the text editor
      refines one flat text split at the cursor, and keeps the cursor's row visible.

    Theorems that state a departure of the code from its documentation or purpose are kept
    beside the component they concern; their comments say what goes wrong.

    ** Not modelled

    Hardware registers, interrupt entry, context switches in assembly, TLB and cache
    maintenance, locks (every operation is taken as atomic under its lock), title bars, text,
    menus, the taskbar and the event handling of the desktop, the boot loader, the exFAT and
    FAT32 directory logic (the latter in a third-party library), the native system calls, signals
    and time, the creation of processes, and the registers of the IOMMU and other devices.

    ** Bounds and fuel

    Reading a file to its end to find its size, in the file calls, takes a fuel that is quantified
    in the theorems; the padding bytes of directory entries, which the code leaves undefined, and
    the growth of the kernel heap during a copy are parameters. *)

From Stdlib Require Export ZArith Lia List Bool.
From stdpp Require Export base list gmap strings.
Export ListNotations.
#[global] Open Scope Z_scope.

(** ** Outcomes of fallible Rust code

    [Ok]/[Err] are Rust's [Result]; [Panic] is an aborting panic (an index or
    slice out of range, [unwrap] of [None], a failed [assert!]). *)
Inductive result (E A : Type) : Type :=
| Ok (a : A)
| Err (e : E)
| Panic.
Arguments Ok {E A} _.
Arguments Err {E A} _.
Arguments Panic {E A}.

#[export] Instance result_eq_dec {E A} `{EqDecision E, EqDecision A} : EqDecision (result E A).
Proof. solve_decision. Defined.

Declare Scope rust_scope.
Delimit Scope rust_scope with rust.
#[global] Open Scope rust_scope.

(** The [?] operator. *)
Notation "'let?' x ':=' e 'in' k" :=
  (match e with Ok x => k | Err er => Err er | Panic => Panic end)
  (at level 10, x pattern, e at level 200, k at level 200) : rust_scope.

(** [Option::ok_or]. *)
Definition ok_or {E A : Type} (o : option A) (e : E) : result E A :=
  match o with Some a => Ok a | None => Err e end.

Definition is_ok {E A : Type} (r : result E A) : bool :=
  match r with Ok _ => true | _ => false end.

Definition map_err {E F A : Type} (f : E -> F) (r : result E A) : result F A :=
  match r with Ok a => Ok a | Err e => Err (f e) | Panic => Panic end.

(** ** Machine integers

    [u8], [u16], [u32], [u64], [usize] (64-bit) and [i64] values are [Z]s
    within their range; the operations whose result can leave the range are
    spelled out here. *)
Definition u8_max : Z := 2 ^ 8 - 1.
Definition u16_max : Z := 2 ^ 16 - 1.
Definition u32_max : Z := 2 ^ 32 - 1.
Definition u64_max : Z := 2 ^ 64 - 1.

Definition u64_range (x : Z) : Prop := 0 <= x <= u64_max.
Definition u32_range (x : Z) : Prop := 0 <= x <= u32_max.

(** [u64::checked_add] (and [usize::checked_add]). *)
Definition u64_checked_add (a b : Z) : option Z :=
  if a + b <=? u64_max then Some (a + b) else None.

(** [u64::checked_mul] (and [usize::checked_mul]). *)
Definition u64_checked_mul (a b : Z) : option Z :=
  if a * b <=? u64_max then Some (a * b) else None.

(** [u64::checked_sub]. *)
Definition u64_checked_sub (a b : Z) : option Z :=
  if b <=? a then Some (a - b) else None.

(** [u64::checked_add_signed]. *)
Definition u64_checked_add_signed (a b : Z) : option Z :=
  if (0 <=? a + b) && (a + b <=? u64_max) then Some (a + b) else None.

(** [u64::saturating_add], [saturating_sub], [saturating_mul] and
    [saturating_add_signed]. *)
Definition u64_saturating_add (a b : Z) : Z := Z.min (a + b) u64_max.
Definition u64_saturating_sub (a b : Z) : Z := Z.max (a - b) 0.
Definition u64_saturating_mul (a b : Z) : Z := Z.min (a * b) u64_max.
Definition u64_saturating_add_signed (a b : Z) : Z :=
  Z.max 0 (Z.min (a + b) u64_max).

(** [u32::wrapping_add], [u8::wrapping_add] and [u64::wrapping_add]/[wrapping_mul]. *)
Definition u32_wrapping_add (a b : Z) : Z := (a + b) mod 2 ^ 32.
Definition u8_wrapping_add (a b : Z) : Z := (a + b) mod 2 ^ 8.
Definition u64_wrapping_add (a b : Z) : Z := (a + b) mod 2 ^ 64.
Definition u64_wrapping_mul (a b : Z) : Z := (a * b) mod 2 ^ 64.

(** ** Slices: lists indexed by [Z]

    [&buf[off..off+len]] is [zslice buf off len], the buffer after
    [buf[off..off+len].copy_from_slice(data)] is [zsplice buf off data]. *)
Section Slices.
Context {A : Type}.

Definition zlen (l : list A) : Z := Z.of_nat (length l).

Definition zslice (l : list A) (off len : Z) : list A :=
  take (Z.to_nat len) (drop (Z.to_nat off) l).

Definition zsplice (l : list A) (off : Z) (data : list A) : list A :=
  take (Z.to_nat off) l ++ data ++ drop (Z.to_nat off + length data)%nat l.

(** [buf[off..off + len].copy_from_slice(data)]: the range must lie in [buf]
    and have the length of [data], or the code panics. *)
Definition copy_from_slice (buf : list A) (off len : Z) (data : list A) : option (list A) :=
  if (0 <=? off) && (0 <=? len) && (off + len <=? zlen buf) && (zlen data =? len)
  then Some (zsplice buf off data) else None.

(** [znth d l i] reads [l[i]], with [d] outside the list. *)
Definition znth (d : A) (l : list A) (i : Z) : A := nth (Z.to_nat i) l d.

(** [Iterator::position]. *)
Fixpoint position (f : A -> bool) (l : list A) : option nat :=
  match l with
  | [] => None
  | x :: l' => if f x then Some 0%nat else S <$> position f l'
  end.

Lemma zlen_nonneg (l : list A) : 0 <= zlen l.
Proof. unfold zlen. lia. Qed.

Lemma zlen_nil : zlen (@nil A) = 0.
Proof. reflexivity. Qed.

Lemma zlen_cons (x : A) (l : list A) : zlen (x :: l) = 1 + zlen l.
Proof. unfold zlen. simpl. lia. Qed.

Lemma zlen_app (l1 l2 : list A) : zlen (l1 ++ l2) = zlen l1 + zlen l2.
Proof. unfold zlen. rewrite length_app. lia. Qed.

Lemma zlen_replicate n (x : A) : zlen (replicate n x) = Z.of_nat n.
Proof. unfold zlen. by rewrite length_replicate. Qed.

Lemma zlen_insert (l : list A) i x : zlen (<[i := x]> l) = zlen l.
Proof. unfold zlen. by rewrite length_insert. Qed.

Lemma zlen_zslice (l : list A) off len :
  0 <= off -> 0 <= len -> off + len <= zlen l -> zlen (zslice l off len) = len.
Proof. unfold zlen, zslice. intros. rewrite length_take, length_drop. lia. Qed.

Lemma zlen_zsplice (l : list A) off data :
  0 <= off -> off + zlen data <= zlen l -> zlen (zsplice l off data) = zlen l.
Proof.
  unfold zlen, zsplice. intros.
  rewrite !length_app, length_take, length_drop. lia.
Qed.

Lemma znth_ext d (l1 l2 : list A) :
  zlen l1 = zlen l2 ->
  (forall i, 0 <= i < zlen l1 -> znth d l1 i = znth d l2 i) -> l1 = l2.
Proof.
  unfold zlen, znth. intros Hl H.
  apply (nth_ext _ _ d d); [lia|]. intros n Hn.
  specialize (H (Z.of_nat n)). rewrite Nat2Z.id in H. apply H. lia.
Qed.

Lemma znth_zslice d (l : list A) off len i :
  0 <= off -> 0 <= i < len -> off + len <= zlen l ->
  znth d (zslice l off len) i = znth d l (off + i).
Proof.
  unfold znth, zslice, zlen. intros.
  rewrite !nth_lookup, lookup_take_lt by lia. rewrite lookup_drop.
  do 2 f_equal. lia.
Qed.

Lemma znth_zsplice d (l : list A) off data i :
  0 <= off -> 0 <= i -> off + zlen data <= zlen l ->
  znth d (zsplice l off data) i =
  if (off <=? i) && (i <? off + zlen data) then znth d data (i - off) else znth d l i.
Proof.
  unfold znth, zsplice, zlen. intros Ho Hi Hl. rewrite !nth_lookup.
  assert (length (take (Z.to_nat off) l) = Z.to_nat off) as Ht
    by (rewrite length_take; lia).
  destruct (Z.leb_spec off i); simpl.
  - rewrite lookup_app_r by lia. rewrite Ht.
    destruct (Z.ltb_spec i (off + Z.of_nat (length data))).
    + rewrite lookup_app_l by lia. do 2 f_equal. lia.
    + rewrite lookup_app_r by lia. rewrite lookup_drop. do 2 f_equal. lia.
  - rewrite lookup_app_l by lia. rewrite lookup_take_lt by lia. done.
Qed.

Lemma znth_app d (l1 l2 : list A) i :
  0 <= i ->
  znth d (l1 ++ l2) i = if i <? zlen l1 then znth d l1 i else znth d l2 (i - zlen l1).
Proof.
  unfold znth, zlen. intros. rewrite !nth_lookup.
  destruct (Z.ltb_spec i (Z.of_nat (length l1))).
  - by rewrite lookup_app_l by lia.
  - rewrite lookup_app_r by lia. do 2 f_equal. lia.
Qed.

Lemma zslice_full (l : list A) n : zlen l <= n -> zslice l 0 n = l.
Proof.
  unfold zlen, zslice. intros. rewrite drop_0. apply take_ge. lia.
Qed.

Lemma copy_from_slice_Some (buf : list A) off len data :
  0 <= off -> 0 <= len -> off + len <= zlen buf -> zlen data = len ->
  copy_from_slice buf off len data = Some (zsplice buf off data).
Proof.
  intros. unfold copy_from_slice.
  rewrite (proj2 (Z.leb_le 0 off)), (proj2 (Z.leb_le 0 len)),
    (proj2 (Z.leb_le (off + len) _)), (proj2 (Z.eqb_eq _ _)) by lia.
  done.
Qed.

Lemma copy_from_slice_inv (buf : list A) off len data buf' :
  copy_from_slice buf off len data = Some buf' ->
  0 <= off /\ 0 <= len /\ off + len <= zlen buf /\ zlen data = len
  /\ buf' = zsplice buf off data.
Proof.
  unfold copy_from_slice. destruct (_ && _) eqn:E; [|done]. injection 1 as <-.
  rewrite !andb_true_iff, !Z.leb_le, Z.eqb_eq in E. tauto.
Qed.

Lemma position_Some (f : A -> bool) l n :
  position f l = Some n ->
  exists x, l !! n = Some x /\ f x = true
  /\ forall m y, (m < n)%nat -> l !! m = Some y -> f y = false.
Proof.
  revert n. induction l as [|x l IH]; intros n; simpl; [done|].
  destruct (f x) eqn:Ex.
  - intros [= <-]. exists x. repeat split; auto. intros. lia.
  - destruct (position f l) as [k|] eqn:Ek; simpl; [|done]. intros [= <-].
    destruct (IH k eq_refl) as (y & ? & ? & Hmin). exists y. repeat split; auto.
    intros [|m] z Hm; simpl; [congruence|]. apply Hmin. lia.
Qed.

Lemma position_None (f : A -> bool) l :
  position f l = None -> forall n x, l !! n = Some x -> f x = false.
Proof.
  induction l as [|y l IH]; simpl; [done|].
  destruct (f y) eqn:Ey; [done|].
  destruct (position f l) eqn:El; [done|]. intros _ [|n] x; simpl.
  - congruence.
  - by apply IH.
Qed.

Lemma position_complete (f : A -> bool) l n x :
  l !! n = Some x -> f x = true -> exists m, position f l = Some m.
Proof.
  intros Hl Hf. destruct (position f l) eqn:E; eauto.
  pose proof (position_None _ _ E _ _ Hl). congruence.
Qed.
End Slices.

(** ** Automation *)
Create HintDb fullerene.
#[export] Hint Resolve zlen_nonneg : fullerene.
Create Rewrite HintDb fullerene.
#[export] Hint Rewrite @zlen_app @zlen_nil @zlen_replicate @zlen_insert : fullerene.

(** Turn boolean comparisons in the context into propositions. *)
Ltac bool_to_prop :=
  repeat match goal with
  | H : _ && _ = true |- _ => apply andb_true_iff in H as [? ?]
  | H : _ || _ = false |- _ => apply orb_false_iff in H as [? ?]
  | H : negb _ = true |- _ => apply negb_true_iff in H
  | H : negb _ = false |- _ => apply negb_false_iff in H
  | H : (_ <=? _) = true |- _ => apply Z.leb_le in H
  | H : (_ <=? _) = false |- _ => apply Z.leb_gt in H
  | H : (_ <? _) = true |- _ => apply Z.ltb_lt in H
  | H : (_ <? _) = false |- _ => apply Z.ltb_ge in H
  | H : (_ =? _) = true |- _ => apply Z.eqb_eq in H
  | H : (_ =? _) = false |- _ => apply Z.eqb_neq in H
  end.

(** Case analysis on the scrutinee of a [match]/[if] of the goal or of a
    hypothesis, remembering the equation. *)
Ltac split_match :=
  match goal with
  | |- context [match ?x with _ => _ end] => destruct x eqn:?
  end.
Ltac split_match_in H :=
  match type of H with
  | context [match ?x with _ => _ end] => destruct x eqn:?
  end.

Lemma u64_checked_add_Some a b c :
  u64_checked_add a b = Some c -> c = a + b /\ a + b <= u64_max.
Proof. unfold u64_checked_add. destruct (Z.leb_spec (a + b) u64_max); naive_solver. Qed.

Lemma u64_checked_add_None a b :
  u64_checked_add a b = None -> u64_max < a + b.
Proof. unfold u64_checked_add. destruct (Z.leb_spec (a + b) u64_max); naive_solver. Qed.

Lemma u64_checked_mul_Some a b c :
  u64_checked_mul a b = Some c -> c = a * b /\ a * b <= u64_max.
Proof. unfold u64_checked_mul. destruct (Z.leb_spec (a * b) u64_max); naive_solver. Qed.

Lemma u64_checked_add_fit a b :
  a + b <= u64_max -> u64_checked_add a b = Some (a + b).
Proof. unfold u64_checked_add. destruct (Z.leb_spec (a + b) u64_max); [done|lia]. Qed.

Lemma u64_checked_mul_fit a b :
  a * b <= u64_max -> u64_checked_mul a b = Some (a * b).
Proof. unfold u64_checked_mul. destruct (Z.leb_spec (a * b) u64_max); [done|lia]. Qed.

(** ** Filtering lists *)
Lemma filter_all {A} (P : A -> Prop) `{forall x, Decision (P x)} l : Forall P l -> filter P l = l.
Proof.
  induction 1 as [|x l Hx _ IH]; [done|]. by rewrite filter_cons_True, IH by done.
Qed.

Lemma filter_none {A} (P : A -> Prop) `{forall x, Decision (P x)} l :
  Forall (fun x => ~ P x) l -> filter P l = [].
Proof.
  induction 1 as [|x l Hx _ IH]; [done|]. by rewrite filter_cons_False, IH by done.
Qed.

(** ** Counted loops: [for i in lo..lo + n { s = f(i, s)? }] *)
Fixpoint for_range {E S : Type} (n : nat) (i : Z) (f : Z -> S -> result E S) (s : S) : result E S :=
  match n with
  | O => Ok s
  | S n => let? s' := f i s in for_range n (i + 1) f s'
  end.

(** [for i in lo..hi], empty when [hi <= lo]. *)
Definition for_loop {E S : Type} (lo hi : Z) (f : Z -> S -> result E S) (s : S) : result E S :=
  for_range (Z.to_nat (hi - lo)) lo f s.

(** Loop invariants: when every iteration succeeds and preserves [P], so does the loop. *)
Lemma for_range_ind {E S : Type} (P : Z -> S -> Prop) (f : Z -> S -> result E S) n :
  forall i s, P i s ->
  (forall j s, i <= j < i + Z.of_nat n -> P j s -> exists s', f j s = Ok s' /\ P (j + 1) s') ->
  exists s', for_range n i f s = Ok s' /\ P (i + Z.of_nat n) s'.
Proof.
  induction n as [|n IH]; intros i s HP Hf; cbn [for_range].
  - exists s. split; [done|]. by replace (i + Z.of_nat 0) with i by lia.
  - destruct (Hf i s) as (s1 & -> & H1); [lia|done|].
    destruct (IH (i + 1) s1 H1) as (s2 & E2 & H2); [intros j s' Hj; apply Hf; lia|].
    exists s2. split; [done|]. by replace (i + Z.of_nat (Datatypes.S n)) with (i + 1 + Z.of_nat n) by lia.
Qed.

Lemma for_loop_ind {E S : Type} (P : Z -> S -> Prop) (f : Z -> S -> result E S) lo hi s :
  lo <= hi -> P lo s ->
  (forall j s, lo <= j < hi -> P j s -> exists s', f j s = Ok s' /\ P (j + 1) s') ->
  exists s', for_loop lo hi f s = Ok s' /\ P hi s'.
Proof.
  intros Hle HP Hf. unfold for_loop.
  destruct (for_range_ind P f (Z.to_nat (hi - lo)) lo s HP) as (s' & E1 & H1).
  - intros j s0 Hj. apply Hf. lia.
  - exists s'. split; [done|]. by replace hi with (lo + Z.of_nat (Z.to_nat (hi - lo))) by lia.
Qed.
