(* ===== verification/Block.v ===== *)
(** * Block devices (genome/src/block.rs, genome/src/fs.rs)

    The [BlockDevice] trait as a class of operations, the laws a lawful
    implementation obeys ([LawfulDevice], the interface the partition, the
    sector cache and the FAT/exFAT adapters are proved against and which the
    partition and the cache discharge in turn), and a RAM disk with faulty
    sectors that inhabits the interface. *)

From S2P Require Import Prelude.

(** [FsError] of genome/src/fs.rs. *)
Inductive FsError : Type :=
| FileNotFound
| FileExists
| PermissionDenied
| InvalidFileDescriptor
| InvalidSeek
| DiskFull
| NotADirectory
| DirectoryNotEmpty
| IsADirectory
| InvalidPath
| NotSupported
| InvalidInput
| UnexpectedEof
| Io.

#[export] Instance FsError_eq_dec : EqDecision FsError.
Proof. solve_decision. Defined.

(** [BlockError] of genome/src/block.rs. *)
Inductive BlockError : Type :=
| Device
| BufferTooSmall (required provided : Z)
| LbaOverflow
| SectorNotFound.

#[export] Instance BlockError_eq_dec : EqDecision BlockError.
Proof. solve_decision. Defined.

(** [impl From<BlockError> for FsError]. *)
Definition FsError_from (error : BlockError) : FsError :=
  match error with
  | BufferTooSmall _ _ | LbaOverflow => InvalidInput
  | SectorNotFound => FileNotFound
  | Device => Io
  end.

(** [SeekFrom] of genome/src/io.rs (the stream libraries' own has the same cases). *)
Inductive SeekFrom : Type :=
| SeekStart (offset : Z)
| SeekEnd (offset : Z)
| SeekCurrent (offset : Z).

(** The trait [BlockDevice]. A read takes the caller's buffer and returns it as
    the device leaves it, on success and on error alike; both calls return the
    device's next state. *)
Class BlockDevice (D : Type) : Type := {
  read_sectors : D -> Z -> Z -> list Z -> result BlockError unit * list Z * D;
  write_sectors : D -> Z -> Z -> list Z -> result BlockError unit * D;
  sector_size : D -> Z;
  total_sectors : D -> Z
}.

(** Size of the medium in bytes. *)
Definition media_bytes {D} `{BlockDevice D} (d : D) : Z :=
  total_sectors d * sector_size d.

(** ** The laws

    [disk d p] is the byte at media position [p]. A request is in range when it
    lies on the medium and its buffer holds it. In-range requests never panic;
    a read leaves the medium alone and, when it succeeds, delivers the medium's
    bytes; a write changes at most the sectors of the request, and all of them
    when it succeeds. A fault-free device ([healthy]) succeeds in range. *)
Section Laws.
Context {D : Type} `{BlockDevice D}.

Definition in_range (d : D) (lba count : Z) (buf : list Z) : Prop :=
  0 <= lba /\ 0 <= count <= u16_max /\ lba + count <= total_sectors d
  /\ count * sector_size d <= zlen buf.

Definition same_geometry (d d' : D) : Prop :=
  sector_size d' = sector_size d /\ total_sectors d' = total_sectors d.

(** [p] is a byte of the sectors [lba .. lba + count). *)
Definition in_sectors (d : D) (lba count p : Z) : bool :=
  (lba * sector_size d <=? p) && (p <? (lba + count) * sector_size d).
End Laws.

Class LawfulDevice (D : Type) `{BlockDevice D} : Type := {
  dev_inv : D -> Prop;
  healthy : D -> Prop;
  disk : D -> Z -> Z;
  law_geometry : forall d, dev_inv d ->
    0 < sector_size d <= u32_max /\ 0 <= total_sectors d <= u64_max;
  law_read : forall d lba count buf r buf' d',
    dev_inv d -> in_range d lba count buf ->
    read_sectors d lba count buf = (r, buf', d') ->
    r <> Panic /\ dev_inv d' /\ same_geometry d d'
    /\ (forall p, 0 <= p < media_bytes d -> disk d' p = disk d p)
    /\ zlen buf' = zlen buf
    /\ (r = Ok tt -> forall k, 0 <= k < zlen buf ->
        znth 0 buf' k =
        if k <? count * sector_size d then disk d (lba * sector_size d + k)
        else znth 0 buf k)
    /\ (healthy d -> r = Ok tt /\ healthy d');
  law_write : forall d lba count buf r d',
    dev_inv d -> in_range d lba count buf ->
    write_sectors d lba count buf = (r, d') ->
    r <> Panic /\ dev_inv d' /\ same_geometry d d'
    /\ (forall p, 0 <= p < media_bytes d -> in_sectors d lba count p = false ->
        disk d' p = disk d p)
    /\ (r = Ok tt -> forall p, 0 <= p < media_bytes d ->
        in_sectors d lba count p = true ->
        disk d' p = znth 0 buf (p - lba * sector_size d))
    /\ (healthy d -> r = Ok tt /\ healthy d')
}.

(** ** Derived views of the laws *)
Section Derived.
Context {D : Type} `{LawfulDevice D}.
Implicit Types d : D.

(** [d'] is [d] after operations that leave the medium's bytes alone. *)
Definition keeps d d' : Prop :=
  dev_inv d' /\ same_geometry d d'
  /\ (forall x, 0 <= x < media_bytes d -> disk d' x = disk d x)
  /\ (healthy d -> healthy d').

Lemma keeps_refl d : dev_inv d -> keeps d d.
Proof. intros. unfold keeps, same_geometry. by split_and!. Qed.

Lemma keeps_trans d1 d2 d3 : keeps d1 d2 -> keeps d2 d3 -> keeps d1 d3.
Proof.
  intros (? & [Hs1 Ht1] & Hd1 & Hh1) (? & [Hs2 Ht2] & Hd2 & Hh2).
  unfold keeps, same_geometry. split_and!; auto; try congruence.
  intros x Hx. rewrite Hd2; [by apply Hd1|]. unfold media_bytes in *. by rewrite Hs1, Ht1.
Qed.

(** Reading one sector into a sector-sized buffer. *)
Lemma read_one d lba buf r buf' d' :
  dev_inv d -> 0 <= lba < total_sectors d -> zlen buf = sector_size d ->
  read_sectors d lba 1 buf = (r, buf', d') ->
  r <> Panic /\ keeps d d' /\ zlen buf' = sector_size d
  /\ (r = Ok tt -> forall k, 0 <= k < sector_size d ->
      znth 0 buf' k = disk d (lba * sector_size d + k))
  /\ (healthy d -> r = Ok tt).
Proof.
  intros Hi Hl Hb E.
  assert (in_range d lba 1 buf) as Hr by (unfold in_range, u16_max; lia).
  destruct (law_read _ _ _ _ _ _ _ Hi Hr E) as (Hnp & Hi' & Hg & Hd & Hlen & Hok & Hh).
  unfold keeps. split_and!; try done; try lia; try (intros; by apply Hh).
  intros Hr0 k Hk. rewrite (Hok Hr0) by lia. by rewrite (proj2 (Z.ltb_lt _ _)) by lia.
Qed.

(** Writing one sector from a sector-sized buffer. *)
Lemma write_one d lba buf r d' :
  dev_inv d -> 0 <= lba < total_sectors d -> zlen buf = sector_size d ->
  write_sectors d lba 1 buf = (r, d') ->
  r <> Panic /\ dev_inv d' /\ same_geometry d d'
  /\ (forall x, 0 <= x < media_bytes d -> in_sectors d lba 1 x = false ->
      disk d' x = disk d x)
  /\ (r = Ok tt -> forall k, 0 <= k < sector_size d ->
      disk d' (lba * sector_size d + k) = znth 0 buf k)
  /\ (healthy d -> r = Ok tt /\ healthy d').
Proof.
  intros Hi Hl Hb E.
  assert (in_range d lba 1 buf) as Hr by (unfold in_range, u16_max; lia).
  destruct (law_write _ _ _ _ _ _ Hi Hr E) as (Hnp & Hi' & Hg & Hout & Hin & Hh).
  destruct (law_geometry _ Hi) as [Hs _].
  split_and!; try done. intros Hr0 k Hk. rewrite (Hin Hr0); [f_equal; lia| |].
  - unfold media_bytes. nia.
  - unfold in_sectors. apply andb_true_iff. rewrite Z.leb_le, Z.ltb_lt. lia.
Qed.
End Derived.

(** ** Traces of requests *)
Inductive request : Type :=
| ReadReq (lba count : Z) (buf : list Z)
| WriteReq (lba count : Z) (buf : list Z).

(** Run requests in order; record each outcome and the buffer it leaves. *)
Fixpoint run_requests {D} `{BlockDevice D} (d : D) (reqs : list request)
  : list (result BlockError unit * list Z) :=
  match reqs with
  | [] => []
  | ReadReq lba count buf :: rest =>
      let '(r, buf', d') := read_sectors d lba count buf in
      (r, buf') :: run_requests d' rest
  | WriteReq lba count buf :: rest =>
      let '(r, d') := write_sectors d lba count buf in
      (r, buf) :: run_requests d' rest
  end.

Definition request_in_range {D} `{BlockDevice D} (d : D) (q : request) : Prop :=
  match q with
  | ReadReq lba count buf | WriteReq lba count buf => in_range d lba count buf
  end.

(** Two fault-free devices of the same geometry and contents. *)
Definition same_medium {D1 D2} `{LawfulDevice D1} `{LawfulDevice D2} (d1 : D1) (d2 : D2) : Prop :=
  dev_inv d1 /\ dev_inv d2 /\ healthy d1 /\ healthy d2
  /\ sector_size d1 = sector_size d2 /\ total_sectors d1 = total_sectors d2
  /\ forall x, 0 <= x < media_bytes d1 -> disk d1 x = disk d2 x.

Section Traces.
Context {D1 D2 : Type} `{LawfulDevice D1} `{LawfulDevice D2}.

Lemma same_medium_read (d1 : D1) (d2 : D2) lba count buf :
  same_medium d1 d2 -> in_range d1 lba count buf ->
  exists buf' d1' d2', read_sectors d1 lba count buf = (Ok tt, buf', d1')
  /\ read_sectors d2 lba count buf = (Ok tt, buf', d2') /\ same_medium d1' d2'
  /\ same_geometry d1 d1'.
Proof.
  intros (Hi1 & Hi2 & Hh1 & Hh2 & Hs & Ht & Hdk) Hr1.
  assert (in_range d2 lba count buf) as Hr2 by (unfold in_range in *; rewrite <- Hs, <- Ht; done).
  destruct (read_sectors d1 lba count buf) as [[r1 b1] d1'] eqn:E1.
  destruct (read_sectors d2 lba count buf) as [[r2 b2] d2'] eqn:E2.
  destruct (law_read _ _ _ _ _ _ _ Hi1 Hr1 E1) as (_ & Hi1' & [Hg1 Hg1'] & Hd1 & Hl1 & Hc1 & He1).
  destruct (law_read _ _ _ _ _ _ _ Hi2 Hr2 E2) as (_ & Hi2' & [Hg2 Hg2'] & Hd2 & Hl2 & Hc2 & He2).
  destruct (He1 Hh1) as [-> Hh1']. destruct (He2 Hh2) as [-> Hh2'].
  unfold media_bytes in *. rewrite <- Ht, <- Hs in *.
  exists b1, d1', d2'. split_and!; try done; try congruence.
  - f_equal. f_equal. apply (znth_ext 0); [congruence|]. rewrite Hl2. intros k Hk.
    rewrite Hc1, Hc2 by done. destruct (Z.ltb_spec k (count * sector_size d1)); [|done].
    symmetry. apply Hdk. destruct Hr1 as (? & ? & ? & _).
    destruct (law_geometry _ Hi1). nia.
  - unfold same_medium, media_bytes. rewrite Hg1, Hg1'.
    split_and!; try done; try congruence.
    intros x Hx. rewrite Hd1, Hd2 by done. by apply Hdk.
Qed.

Lemma same_medium_write (d1 : D1) (d2 : D2) lba count buf :
  same_medium d1 d2 -> in_range d1 lba count buf ->
  exists d1' d2', write_sectors d1 lba count buf = (Ok tt, d1')
  /\ write_sectors d2 lba count buf = (Ok tt, d2') /\ same_medium d1' d2'
  /\ same_geometry d1 d1'.
Proof.
  intros (Hi1 & Hi2 & Hh1 & Hh2 & Hs & Ht & Hdk) Hr1.
  assert (in_range d2 lba count buf) as Hr2 by (unfold in_range in *; rewrite <- Hs, <- Ht; done).
  destruct (write_sectors d1 lba count buf) as [r1 d1'] eqn:E1.
  destruct (write_sectors d2 lba count buf) as [r2 d2'] eqn:E2.
  destruct (law_write _ _ _ _ _ _ Hi1 Hr1 E1) as (_ & Hi1' & [Hg1 Hg1'] & Ho1 & Hn1 & He1).
  destruct (law_write _ _ _ _ _ _ Hi2 Hr2 E2) as (_ & Hi2' & [Hg2 Hg2'] & Ho2 & Hn2 & He2).
  destruct (He1 Hh1) as [-> Hh1']. destruct (He2 Hh2) as [-> Hh2'].
  unfold media_bytes, in_sectors in *. rewrite <- Ht, <- Hs in *.
  exists d1', d2'. split_and!; try done; try congruence.
  unfold same_medium, media_bytes. rewrite Hg1, Hg1'.
  split_and!; try done; try congruence. intros x Hx.
  destruct ((lba * sector_size d1 <=? x) && (x <? (lba + count) * sector_size d1)) eqn:Ein.
  - by rewrite Hn1, Hn2.
  - rewrite Ho1, Ho2 by done. by apply Hdk.
Qed.

(** Such devices cannot be told apart by in-range requests. *)
Lemma same_medium_traces reqs : forall (d1 : D1) (d2 : D2),
  same_medium d1 d2 -> Forall (request_in_range d1) reqs ->
  run_requests d1 reqs = run_requests d2 reqs.
Proof.
  induction reqs as [|q reqs IH]; intros d1 d2 Hsm Hf; [done|].
  inversion_clear Hf as [|? ? Hq Hrest].
  assert (forall d1', same_geometry d1 d1' -> Forall (request_in_range d1') reqs) as Hmono.
  { intros d1' [Hg1 Hg2]. eapply Forall_impl; [exact Hrest|].
    intros [l k b|l k b]; simpl; unfold in_range; by rewrite Hg1, Hg2. }
  destruct q as [lba count buf|lba count buf]; simpl.
  - destruct (same_medium_read _ _ _ _ _ Hsm Hq) as (b & d1' & d2' & -> & -> & Hsm' & Hg).
    f_equal. apply IH; auto.
  - destruct (same_medium_write _ _ _ _ _ Hsm Hq) as (d1' & d2' & -> & -> & Hsm' & Hg).
    f_equal. apply IH; auto.
Qed.
End Traces.

(** ** A RAM disk with faulty sectors

    Reading a request that touches a sector of [rd_bad] spoils the buffer and
    fails; writes to it fail. With [rd_bad = []] it is fault-free. *)
Module RamDisk.

Record t : Type := mk {
  rd_sector_size : Z;
  rd_data : list Z;
  rd_bad : list Z
}.

Definition total (d : t) : Z := zlen (rd_data d) / rd_sector_size d.

Definition touches_bad (d : t) (lba count : Z) : bool :=
  existsb (fun b => (lba <=? b) && (b <? lba + count)) (rd_bad d).

Definition read (d : t) (lba count : Z) (buf : list Z) : result BlockError unit * list Z * t :=
  let len := count * rd_sector_size d in
  let start := lba * rd_sector_size d in
  if zlen (rd_data d) <? start + len then (Err LbaOverflow, buf, d)
  else if zlen buf <? len then (Err (BufferTooSmall len (zlen buf)), buf, d)
  else if touches_bad d lba count
  then (Err Device, replicate (length buf) 255, d)
  else (Ok tt, zsplice buf 0 (zslice (rd_data d) start len), d).

Definition write (d : t) (lba count : Z) (buf : list Z) : result BlockError unit * t :=
  let len := count * rd_sector_size d in
  let start := lba * rd_sector_size d in
  if zlen (rd_data d) <? start + len then (Err LbaOverflow, d)
  else if zlen buf <? len then (Err (BufferTooSmall len (zlen buf)), d)
  else if touches_bad d lba count then (Err Device, d)
  else (Ok tt, mk (rd_sector_size d) (zsplice (rd_data d) start (zslice buf 0 len)) (rd_bad d)).

Definition inv (d : t) : Prop :=
  0 < rd_sector_size d <= u32_max
  /\ exists n, zlen (rd_data d) = n * rd_sector_size d /\ 0 <= n <= u64_max.

#[global] Instance ops : BlockDevice t := {
  read_sectors := read;
  write_sectors := write;
  sector_size := rd_sector_size;
  total_sectors := total
}.

Lemma inv_total d : inv d -> zlen (rd_data d) = total d * rd_sector_size d
  /\ 0 <= total d <= u64_max.
Proof.
  intros [Hss (n & Hn & Hr)]. unfold total. rewrite Hn, Z.div_mul by lia. done.
Qed.

(** A check of [inv] that evaluates on concrete disks. *)
Lemma inv_check d n :
  (0 <? rd_sector_size d) && (rd_sector_size d <=? u32_max) && (0 <=? n) && (n <=? u64_max)
  && (zlen (rd_data d) =? n * rd_sector_size d) = true -> inv d.
Proof. intros E. bool_to_prop. split; [done|]. by exists n. Qed.

Lemma touches_none d lba count : rd_bad d = [] -> touches_bad d lba count = false.
Proof. unfold touches_bad. by intros ->. Qed.

(** The bounds of an in-range request, multiplied out to bytes. *)
Lemma range_bytes d lba count buf :
  inv d -> in_range d lba count buf ->
  0 <= lba * rd_sector_size d /\ 0 <= count * rd_sector_size d
  /\ lba * rd_sector_size d + count * rd_sector_size d <= zlen (rd_data d)
  /\ count * rd_sector_size d <= zlen buf.
Proof.
  intros Hi (? & ? & Ht & Hb). destruct (inv_total d Hi) as [Hl ?].
  destruct Hi as [Hss _]. simpl in *. rewrite Hl. nia.
Qed.

Lemma read_law d lba count buf r buf' d' :
  inv d -> in_range d lba count buf -> read d lba count buf = (r, buf', d') ->
  d' = d /\ r <> Panic /\ zlen buf' = zlen buf
  /\ (r = Ok tt -> forall k, 0 <= k < zlen buf ->
      znth 0 buf' k = if k <? count * rd_sector_size d
        then znth 0 (rd_data d) (lba * rd_sector_size d + k) else znth 0 buf k)
  /\ (rd_bad d = [] -> r = Ok tt).
Proof.
  intros Hi Hr. destruct (range_bytes _ _ _ _ Hi Hr) as (H1 & H2 & H3 & H4).
  unfold read. rewrite (proj2 (Z.ltb_ge _ _) H3), (proj2 (Z.ltb_ge _ _) H4).
  destruct (touches_bad d lba count) eqn:Eb; intros [= <- <- <-].
  - split_and!; try done.
    + rewrite zlen_replicate. done.
    + intros Hn. rewrite touches_none in Eb by done. done.
  - assert (zlen (zslice (rd_data d) (lba * rd_sector_size d) (count * rd_sector_size d))
            = count * rd_sector_size d) as Hzl by (apply zlen_zslice; lia).
    split_and!; try done.
    + rewrite zlen_zsplice; lia.
    + intros _ k Hk. rewrite znth_zsplice by lia. rewrite Hzl, Z.add_0_l, Z.sub_0_r.
      destruct (Z.leb_spec 0 k); [simpl|lia].
      destruct (Z.ltb_spec k (count * rd_sector_size d)); [|done].
      rewrite znth_zslice by lia. done.
Qed.

Lemma write_law d lba count buf r d' :
  inv d -> in_range d lba count buf -> write d lba count buf = (r, d') ->
  r <> Panic /\ zlen (rd_data d') = zlen (rd_data d)
  /\ rd_sector_size d' = rd_sector_size d /\ rd_bad d' = rd_bad d
  /\ (forall p, 0 <= p -> in_sectors d lba count p = false ->
      znth 0 (rd_data d') p = znth 0 (rd_data d) p)
  /\ (r = Ok tt -> forall p, 0 <= p -> in_sectors d lba count p = true ->
      znth 0 (rd_data d') p = znth 0 buf (p - lba * rd_sector_size d))
  /\ (rd_bad d = [] -> r = Ok tt).
Proof.
  intros Hi Hr. destruct (range_bytes _ _ _ _ Hi Hr) as (H1 & H2 & H3 & H4).
  unfold write. rewrite (proj2 (Z.ltb_ge _ _) H3), (proj2 (Z.ltb_ge _ _) H4).
  destruct (touches_bad d lba count) eqn:Eb; intros [= <- <-].
  - split_and!; try done. intros Hn. rewrite touches_none in Eb by done. done.
  - assert (zlen (zslice buf 0 (count * rd_sector_size d)) = count * rd_sector_size d)
      as Hzl by (apply zlen_zslice; lia).
    unfold in_sectors. simpl. split_and!; try done.
    + rewrite zlen_zsplice; lia.
    + intros p Hp Hout. rewrite znth_zsplice by lia. rewrite Hzl.
      rewrite Z.mul_add_distr_r in Hout. by rewrite Hout.
    + intros _ p Hp Hin. rewrite znth_zsplice by lia. rewrite Hzl.
      rewrite Z.mul_add_distr_r in Hin. rewrite Hin.
      bool_to_prop. rewrite znth_zslice by lia. f_equal; lia.
Qed.

#[global] Instance lawful : LawfulDevice t.
Proof.
  refine {| dev_inv := inv; healthy := fun d => rd_bad d = [];
            disk := fun d p => znth 0 (rd_data d) p |}.
  - intros d Hi. split; [apply Hi|apply (inv_total d Hi)].
  - intros d lba count buf r buf' d' Hi Hr E.
    destruct (read_law _ _ _ _ _ _ _ Hi Hr E) as (-> & ? & ? & ? & ?).
    split_and!; try done. intros Hh. split; auto.
  - intros d lba count buf r d' Hi Hr E.
    destruct (write_law _ _ _ _ _ _ Hi Hr E) as (? & Hl & Hs & Hb & Hout & Hin & Hok).
    assert (inv d') as Hi'.
    { destruct Hi as [? (n & ? & ?)]. split; [by rewrite Hs|].
      exists n. by rewrite Hl, Hs. }
    split_and!; try done.
    + split; [done|]. change (total d' = total d). unfold total. by rewrite Hl, Hs.
    + intros p Hp. apply Hout. lia.
    + intros Hr' p Hp. apply Hin; [done|lia].
    + intros Hh. split; [by apply Hok|congruence].
Defined.
End RamDisk.
