(* ===== verification/Partition.v ===== *)
(** * Partitions (genome/src/fat/partition.rs, genome/src/fat/block_device.rs)

    Boot-sector probing, the choice of the FAT partition of an MBR disk, and the
    [PartitionBlockDevice] adapter that rebases LBAs, with its bounds check. *)

From S2P Require Import Prelude Block.

(** [u16::from_le_bytes] and [u32::from_le_bytes]. *)
Definition u16_from_le (b0 b1 : Z) : Z := b0 + 256 * b1.
Definition u32_from_le (b0 b1 b2 b3 : Z) : Z :=
  b0 + 256 * b1 + 65536 * b2 + 16777216 * b3.

Definition MBR_SIGNATURE : Z := 0xAA55.
Definition PARTITION_FAT32 : Z := 0x0B.
Definition PARTITION_FAT32_LBA : Z := 0x0C.
Definition PARTITION_FAT16 : Z := 0x06.
Definition PARTITION_FAT16_LBA : Z := 0x0E.
Definition PARTITION_EXFAT : Z := 0x07.

Record PartitionInfo : Type := mkPartitionInfo {
  start_lba : Z;
  info_total_sectors : Z
}.

(** [read_boot_sector]: the first 512 bytes of the sector at [lba]. *)
Definition read_boot_sector {D} `{BlockDevice D} (device : D) (lba : Z)
  : result BlockError (list Z) * D :=
  let ss := sector_size device in
  if ss <? 512 then (Err (BufferTooSmall 512 ss), device)
  else
    let '(r, sector, device') :=
      read_sectors device lba 1 (replicate (Z.to_nat ss) 0) in
    match r with
    | Ok _ => if zlen sector <? 512 then (Panic, device')
              else (Ok (zslice sector 0 512), device')
    | Err e => (Err e, device')
    | Panic => (Panic, device')
    end.

(** [is_exfat]: bytes 3..11 spell "EXFAT   ". *)
Definition is_exfat (boot_sector : list Z) : bool :=
  bool_decide (zslice boot_sector 3 8 = [0x45; 0x58; 0x46; 0x41; 0x54; 0x20; 0x20; 0x20]).

Definition is_fat_type (partition_type : Z) : bool :=
  (partition_type =? PARTITION_FAT32) || (partition_type =? PARTITION_FAT32_LBA)
  || (partition_type =? PARTITION_FAT16) || (partition_type =? PARTITION_FAT16_LBA)
  || (partition_type =? PARTITION_EXFAT).

(** The fields of the MBR entry [index]. *)
Definition mbr_type (boot : list Z) (index : Z) : Z := znth 0 boot (0x1BE + index * 16 + 4).
Definition mbr_u32 (boot : list Z) (off : Z) : Z :=
  u32_from_le (znth 0 boot off) (znth 0 boot (off + 1))
    (znth 0 boot (off + 2)) (znth 0 boot (off + 3)).
Definition mbr_lba (boot : list Z) (index : Z) : Z := mbr_u32 boot (0x1BE + index * 16 + 8).
Definition mbr_count (boot : list Z) (index : Z) : Z := mbr_u32 boot (0x1BE + index * 16 + 12).

(** One iteration of the loop over the four MBR entries. *)
Definition mbr_step (boot : list Z) (best : option PartitionInfo) (index : Z)
  : option PartitionInfo :=
  let sector_count := mbr_count boot index in
  if is_fat_type (mbr_type boot index)
     && match best with
        | None => true
        | Some b => info_total_sectors b mod 2 ^ 32 <? sector_count
        end
  then Some (mkPartitionInfo (mbr_lba boot index) sector_count)
  else best.

Definition mbr_best (boot : list Z) : option PartitionInfo :=
  fold_left (mbr_step boot) [0; 1; 2; 3] None.

(** [find_fat_partition]. *)
Definition find_fat_partition {D} `{BlockDevice D} (device : D)
  : result FsError PartitionInfo * D :=
  let '(r, device') := read_boot_sector device 0 in
  match r with
  | Err e => (Err (FsError_from e), device')
  | Panic => (Panic, device')
  | Ok boot =>
      let whole := Ok (mkPartitionInfo 0 (total_sectors device')) in
      if is_exfat boot then (whole, device')
      else
        let bytes_per_sector := u16_from_le (znth 0 boot 11) (znth 0 boot 12) in
        if (bytes_per_sector =? 512) || (bytes_per_sector =? 1024)
           || (bytes_per_sector =? 2048) || (bytes_per_sector =? 4096)
        then (whole, device')
        else
          let signature := u16_from_le (znth 0 boot 0x1FE) (znth 0 boot 0x1FF) in
          if negb (signature =? MBR_SIGNATURE) then (whole, device')
          else match mbr_best boot with
               | Some info => (Ok info, device')
               | None => (Err FileNotFound, device')
               end
  end.

(** ** PartitionBlockDevice *)
Record PartitionBlockDevice (D : Type) : Type := mkPartition {
  pb_inner : D;
  pb_offset : Z;
  pb_total_sectors : Z
}.
Arguments mkPartition {D} _ _ _.
Arguments pb_inner {D} _.
Arguments pb_offset {D} _.
Arguments pb_total_sectors {D} _.

Section Partition.
Context {D : Type} `{BlockDevice D}.

Definition absolute_lba (p : PartitionBlockDevice D) (lba count : Z) : result BlockError Z :=
  let? absolute := ok_or (u64_checked_add lba (pb_offset p)) LbaOverflow in
  let? endl := ok_or (u64_checked_add lba count) LbaOverflow in
  if pb_total_sectors p <? endl then Err LbaOverflow
  else
    let? media_end := ok_or (u64_checked_add absolute count) LbaOverflow in
    if total_sectors (pb_inner p) <? media_end then Err LbaOverflow
    else Ok absolute.

Definition with_inner (p : PartitionBlockDevice D) (d : D) : PartitionBlockDevice D :=
  mkPartition d (pb_offset p) (pb_total_sectors p).

Definition partition_read_sectors (p : PartitionBlockDevice D) (lba count : Z) (buf : list Z)
  : result BlockError unit * list Z * PartitionBlockDevice D :=
  match absolute_lba p lba count with
  | Err e => (Err e, buf, p)
  | Panic => (Panic, buf, p)
  | Ok absolute =>
      let '(r, buf', d') := read_sectors (pb_inner p) absolute count buf in
      (r, buf', with_inner p d')
  end.

Definition partition_write_sectors (p : PartitionBlockDevice D) (lba count : Z) (buf : list Z)
  : result BlockError unit * PartitionBlockDevice D :=
  match absolute_lba p lba count with
  | Err e => (Err e, p)
  | Panic => (Panic, p)
  | Ok absolute =>
      let '(r, d') := write_sectors (pb_inner p) absolute count buf in
      (r, with_inner p d')
  end.

#[export] Instance partition_ops : BlockDevice (PartitionBlockDevice D) := {
  read_sectors := partition_read_sectors;
  write_sectors := partition_write_sectors;
  sector_size := fun p => sector_size (pb_inner p);
  total_sectors := pb_total_sectors
}.
End Partition.

(** ** Correctness *)
Section PartitionLaws.
Context {D : Type} `{LawfulDevice D}.
Implicit Types p : PartitionBlockDevice D.

(** The request [lba, count] stays inside the partition and the medium. *)
Definition partition_accepts p (lba count : Z) : Prop :=
  lba + pb_offset p + count <= u64_max /\ lba + count <= pb_total_sectors p
  /\ lba + pb_offset p + count <= total_sectors (pb_inner p).

Lemma absolute_lba_spec p lba count :
  0 <= lba -> 0 <= count -> 0 <= pb_offset p ->
  (partition_accepts p lba count /\ absolute_lba p lba count = Ok (lba + pb_offset p))
  \/ (~ partition_accepts p lba count /\ absolute_lba p lba count = Err LbaOverflow).
Proof.
  intros. unfold absolute_lba, partition_accepts, u64_checked_add.
  destruct (Z.leb_spec (lba + pb_offset p) u64_max); simpl; [|right; split; [lia|done]].
  destruct (Z.leb_spec (lba + count) u64_max); simpl; [|right; split; [lia|done]].
  destruct (Z.ltb_spec (pb_total_sectors p) (lba + count)); [right; split; [lia|done]|].
  destruct (Z.leb_spec (lba + pb_offset p + count) u64_max); simpl; [|right; split; [lia|done]].
  destruct (Z.ltb_spec (total_sectors (pb_inner p)) (lba + pb_offset p + count));
    [right|left]; (split; [lia|done]).
Qed.

(** A partition whose extent lies on its medium is a lawful device whose bytes
    are the medium's from [offset] on. *)
Definition partition_inv p : Prop :=
  dev_inv (pb_inner p) /\ 0 <= pb_offset p /\ 0 <= pb_total_sectors p
  /\ pb_offset p + pb_total_sectors p <= total_sectors (pb_inner p).

Definition partition_disk p (x : Z) : Z :=
  disk (pb_inner p) (pb_offset p * sector_size (pb_inner p) + x).

Lemma partition_in_range p lba count buf :
  partition_inv p -> in_range p lba count buf ->
  absolute_lba p lba count = Ok (lba + pb_offset p)
  /\ in_range (pb_inner p) (lba + pb_offset p) count buf.
Proof.
  intros (Hi & Ho & Ht & Hm) (? & ? & ? & ?).
  destruct (law_geometry _ Hi) as [? ?]. simpl in *.
  destruct (absolute_lba_spec p lba count) as [[_ E]|[Hn _]]; try lia.
  - split; [done|]. unfold in_range. lia.
  - exfalso. apply Hn. unfold partition_accepts. lia.
Qed.

(** Media positions of a partition, in the coordinates of the inner device. *)
Lemma partition_pos p x :
  partition_inv p -> 0 <= x < media_bytes p ->
  0 <= pb_offset p * sector_size (pb_inner p) + x < media_bytes (pb_inner p).
Proof.
  intros (Hi & Ho & Ht & Hm). destruct (law_geometry _ Hi) as [? ?].
  unfold media_bytes. simpl. nia.
Qed.

Lemma partition_in_sectors p lba count x :
  in_sectors (pb_inner p) (lba + pb_offset p) count
    (pb_offset p * sector_size (pb_inner p) + x) = in_sectors p lba count x.
Proof.
  unfold in_sectors. simpl. f_equal.
  - destruct (Z.leb_spec (lba * sector_size (pb_inner p)) x);
      destruct (Z.leb_spec ((lba + pb_offset p) * sector_size (pb_inner p))
        (pb_offset p * sector_size (pb_inner p) + x)); lia.
  - destruct (Z.ltb_spec x ((lba + count) * sector_size (pb_inner p)));
      destruct (Z.ltb_spec (pb_offset p * sector_size (pb_inner p) + x)
        ((lba + pb_offset p + count) * sector_size (pb_inner p))); lia.
Qed.

#[export] Instance partition_lawful : LawfulDevice (PartitionBlockDevice D).
Proof.
  refine {| dev_inv := partition_inv; healthy := fun p => healthy (pb_inner p);
            disk := partition_disk |}.
  - intros p Hp. pose proof Hp as (Hi & ? & ? & ?).
    destruct (law_geometry _ Hi) as [? ?]. simpl. lia.
  - intros p lba count buf r buf' p' Hp Hr E.
    destruct (partition_in_range _ _ _ _ Hp Hr) as [Ea Hri].
    simpl in E. unfold partition_read_sectors in E. rewrite Ea in E.
    destruct (read_sectors (pb_inner p) _ _ _) as [[r0 buf0] d0] eqn:Er.
    injection E as <- <- <-. pose proof Hp as (Hi & ? & ? & ?).
    destruct (law_read _ _ _ _ _ _ _ Hi Hri Er) as (Hnp & Hi' & [Hs Htt] & Hd & Hl & Hok & Hh).
    split_and!; simpl; try done.
    + unfold partition_inv; simpl. rewrite Htt. done.
    + intros x Hx. unfold partition_disk; simpl. rewrite Hs.
      apply Hd. by apply partition_pos.
    + intros Hr0 k Hk. rewrite (Hok Hr0 k Hk). unfold partition_disk.
      destruct (k <? _); [|done]. f_equal. lia.
  - intros p lba count buf r p' Hp Hr E.
    destruct (partition_in_range _ _ _ _ Hp Hr) as [Ea Hri].
    simpl in E. unfold partition_write_sectors in E. rewrite Ea in E.
    destruct (write_sectors (pb_inner p) _ _ _) as [r0 d0] eqn:Er.
    injection E as <- <-. pose proof Hp as (Hi & ? & ? & ?).
    destruct (law_write _ _ _ _ _ _ Hi Hri Er) as (Hnp & Hi' & [Hs Htt] & Hout & Hin & Hh).
    split_and!; simpl; try done.
    + unfold partition_inv; simpl. rewrite Htt. done.
    + intros x Hx Hns. unfold partition_disk; simpl. rewrite Hs.
      apply Hout; [by apply partition_pos|]. by rewrite partition_in_sectors.
    + intros Hr0 x Hx Hns. unfold partition_disk; simpl. rewrite Hs.
      rewrite (Hin Hr0); [f_equal; lia|by apply partition_pos|].
      by rewrite partition_in_sectors.
Defined.
End PartitionLaws.

(** ** Probing a lawful medium *)
Section Probe.
Context {D : Type} `{LawfulDevice D}.
Implicit Types d : D.

(** The first 512 bytes of the sector [lba]. *)
Definition boot_bytes d (lba : Z) : list Z :=
  map (fun k => disk d (lba * sector_size d + k)) (seqZ 0 512).

Lemma znth_boot_bytes d lba k :
  0 <= k < 512 -> znth 0 (boot_bytes d lba) k = disk d (lba * sector_size d + k).
Proof.
  intros Hk. unfold znth, boot_bytes. rewrite nth_lookup, list_lookup_fmap, lookup_seqZ_lt by lia.
  simpl. do 2 f_equal. lia.
Qed.

Lemma zlen_boot_bytes d lba : zlen (boot_bytes d lba) = 512.
Proof. unfold zlen, boot_bytes. by rewrite length_map, length_seqZ. Qed.

Lemma read_boot_sector_healthy d lba :
  dev_inv d -> healthy d -> 512 <= sector_size d -> 0 <= lba < total_sectors d ->
  exists d', read_boot_sector d lba = (Ok (boot_bytes d lba), d')
  /\ dev_inv d' /\ healthy d' /\ same_geometry d d'
  /\ forall x, 0 <= x < media_bytes d -> disk d' x = disk d x.
Proof.
  intros Hi Hh Hss Hlba. unfold read_boot_sector.
  rewrite (proj2 (Z.ltb_ge _ _)) by lia.
  set (buf := replicate (Z.to_nat (sector_size d)) 0).
  assert (zlen buf = sector_size d) as Hb by (unfold buf; rewrite zlen_replicate; lia).
  destruct (read_sectors d lba 1 buf) as [[r buf'] d'] eqn:E.
  destruct (law_read d lba 1 buf r buf' d') as (_ & Hi' & Hg & Hd & Hl & Hok & Hhe); auto.
  { unfold in_range, u16_max. lia. }
  destruct (Hhe Hh) as [-> Hh']. rewrite (proj2 (Z.ltb_ge _ _)) by lia.
  exists d'. split; [|done]. do 2 f_equal. apply (znth_ext 0).
  - rewrite zlen_boot_bytes. apply zlen_zslice; lia.
  - rewrite zlen_zslice by lia. intros k Hk.
    rewrite znth_zslice, znth_boot_bytes, Hok by (done || lia).
    rewrite (proj2 (Z.ltb_lt _ _)) by lia. f_equal; lia.
Qed.
End Probe.

(** The best of the first [n] MBR entries: the FAT entry with the most sectors,
    the lowest-numbered one among equals. *)
Definition best_of (boot : list Z) (n : Z) (best : option PartitionInfo) : Prop :=
  match best with
  | None => forall j, 0 <= j < n -> is_fat_type (mbr_type boot j) = false
  | Some info => exists i, 0 <= i < n /\ is_fat_type (mbr_type boot i) = true
      /\ info = mkPartitionInfo (mbr_lba boot i) (mbr_count boot i)
      /\ forall j, 0 <= j < n -> is_fat_type (mbr_type boot j) = true ->
         mbr_count boot j <= mbr_count boot i
         /\ (mbr_count boot j = mbr_count boot i -> i <= j)
  end.

Definition is_bytes (l : list Z) : Prop := forall k, 0 <= znth 0 l k <= 255.

Lemma is_bytes_forallb l :
  forallb (fun b => (0 <=? b) && (b <=? 255)) l = true -> is_bytes l.
Proof.
  rewrite forallb_forall. intros Hf k. unfold znth.
  destruct (nth_in_or_default (Z.to_nat k) l 0) as [Hin| ->]; [|lia].
  specialize (Hf _ Hin). bool_to_prop. lia.
Qed.

Lemma mbr_count_range boot i : is_bytes boot -> 0 <= mbr_count boot i < 2 ^ 32.
Proof.
  intros Hb. unfold mbr_count, mbr_u32, u32_from_le.
  set (o := 0x1BE + i * 16 + 12).
  pose proof (Hb o). pose proof (Hb (o + 1)). pose proof (Hb (o + 2)). pose proof (Hb (o + 3)).
  lia.
Qed.

Lemma mbr_step_best boot n best :
  is_bytes boot -> 0 <= n -> best_of boot n best -> best_of boot (n + 1) (mbr_step boot best n).
Proof.
  intros Hb Hn Hbest. unfold mbr_step.
  assert (forall j, 0 <= j < n + 1 -> j = n \/ 0 <= j < n) as Hsplit by lia.
  destruct (is_fat_type (mbr_type boot n)) eqn:Ef; simpl.
  - destruct best as [info|]; simpl in *.
    + destruct Hbest as (i & Hi & Hfi & -> & Hmax). simpl.
      pose proof (mbr_count_range boot i Hb). rewrite Z.mod_small by lia.
      destruct (Z.ltb_spec (mbr_count boot i) (mbr_count boot n)).
      * exists n. split_and!; try done; try lia.
        intros j [->|Hj]%Hsplit Hfj; [lia|]. specialize (Hmax j Hj Hfj). lia.
      * exists i. split_and!; try done; try lia.
        intros j [->|Hj]%Hsplit Hfj; [lia|]. by apply Hmax.
    + exists n. split_and!; try done; try lia.
      intros j [->|Hj]%Hsplit Hfj; [lia|]. rewrite Hbest in Hfj by lia. done.
  - destruct best as [info|]; simpl in *.
    + destruct Hbest as (i & Hi & Hfi & -> & Hmax). exists i. split_and!; try done; try lia.
      intros j [->|Hj]%Hsplit Hfj; [congruence|]. by apply Hmax.
    + intros j [->|Hj]%Hsplit; [done|]. by apply Hbest.
Qed.

Lemma mbr_best_best boot : is_bytes boot -> best_of boot 4 (mbr_best boot).
Proof.
  intros Hb. unfold mbr_best. cbn [fold_left].
  apply (mbr_step_best boot 3 _ Hb); [lia|]. apply (mbr_step_best boot 2 _ Hb); [lia|].
  apply (mbr_step_best boot 1 _ Hb); [lia|]. apply (mbr_step_best boot 0 _ Hb); [lia|].
  intros j Hj. lia.
Qed.

(** ** Properties *)

(** Partition confinement: whatever request a [PartitionBlockDevice] is given,
    in or out of bounds, succeeding or failing, it never changes a byte of the
    underlying medium outside the partition's extent, and never panics. *)
Theorem partition_write_confined {D} `{LawfulDevice D} (p p' : PartitionBlockDevice D)
    (lba count : Z) (buf : list Z) (r : result BlockError unit) :
  dev_inv (pb_inner p) -> 0 <= pb_offset p -> 0 <= lba -> 0 <= count <= u16_max ->
  count * sector_size (pb_inner p) <= zlen buf ->
  write_sectors p lba count buf = (r, p') ->
  r <> Panic
  /\ forall x, 0 <= x < media_bytes (pb_inner p) ->
     ~ (pb_offset p * sector_size (pb_inner p) <= x
        < (pb_offset p + pb_total_sectors p) * sector_size (pb_inner p)) ->
     disk (pb_inner p') x = disk (pb_inner p) x.
Proof.
  intros Hi Ho Hl Hc Hb E. simpl in E. unfold partition_write_sectors in E.
  destruct (absolute_lba_spec p lba count) as [[(? & ? & ?) Ea]|[_ Ea]]; try lia;
    rewrite Ea in E; [|by injection E as <- <-].
  destruct (write_sectors (pb_inner p) _ _ _) as [r0 d0] eqn:Er. injection E as <- <-.
  assert (in_range (pb_inner p) (lba + pb_offset p) count buf) as Hr by (unfold in_range; lia).
  destruct (law_write _ _ _ _ _ _ Hi Hr Er) as (Hnp & _ & _ & Hout & _ & _).
  split; [done|]. intros x Hx Hn. apply Hout; [done|].
  destruct (law_geometry _ Hi) as [? _].
  unfold in_sectors. apply andb_false_iff.
  destruct (Z.leb_spec ((lba + pb_offset p) * sector_size (pb_inner p)) x); [right|by left].
  apply Z.ltb_ge. nia.
Qed.

(** Boot-sector probing picks the right partition: on a fault-free medium
    with an MBR (no exFAT or BPB at LBA 0, signature 0xAA55), [find_fat_partition]
    returns the FAT/exFAT entry with the largest sector count (the first such
    entry on a tie), and reports [FileNotFound] exactly when no entry has a FAT
    type; it leaves the medium unchanged. *)
Theorem find_fat_partition_largest {D} `{LawfulDevice D} (d : D) :
  dev_inv d -> healthy d -> 512 <= sector_size d -> 1 <= total_sectors d ->
  let boot := boot_bytes d 0 in
  is_bytes boot -> is_exfat boot = false ->
  ~ In (u16_from_le (znth 0 boot 11) (znth 0 boot 12)) [512; 1024; 2048; 4096] ->
  u16_from_le (znth 0 boot 0x1FE) (znth 0 boot 0x1FF) = MBR_SIGNATURE ->
  match fst (find_fat_partition d) with
  | Ok info => best_of boot 4 (Some info)
  | Err e => e = FileNotFound /\ best_of boot 4 None
  | Panic => False
  end
  /\ forall x, 0 <= x < media_bytes d -> disk (snd (find_fat_partition d)) x = disk d x.
Proof.
  intros Hi Hh Hss Ht boot Hb Hex Hbps Hsig. unfold find_fat_partition.
  destruct (read_boot_sector_healthy d 0 Hi Hh Hss) as (d' & -> & _ & _ & _ & Hd); [lia|].
  fold boot. rewrite Hex. simpl in Hbps.
  rewrite !(proj2 (Z.eqb_neq _ _)) by (intros Heq; apply Hbps; rewrite Heq; auto).
  rewrite (proj2 (Z.eqb_eq _ _) Hsig). cbn [orb negb].
  pose proof (mbr_best_best boot Hb) as Hbest.
  destruct (mbr_best boot); cbn [fst snd]; auto.
Qed.

(** *** Witnesses *)

(** A 2048-byte RAM disk whose MBR lists a FAT16 partition of 1 sector at LBA 2
    and a FAT32 partition of 2 sectors at LBA 1, and no other FAT entry. *)
Definition mbr_example : RamDisk.t :=
  RamDisk.mk 512
    (replicate 0x1C2 0 ++ [PARTITION_FAT16; 0; 0; 0; 2; 0; 0; 0; 1; 0; 0; 0]
     ++ [0; 0; 0; 0; PARTITION_FAT32; 0; 0; 0; 1; 0; 0; 0; 2; 0; 0; 0]
     ++ replicate 32 0 ++ [0x55; 0xAA] ++ replicate 1536 7) [].

Lemma partition_write_confined_witness :
  let p := mkPartition (RamDisk.mk 4 (replicate 32 7) []) 2 3 in
  fst (write_sectors p 1 2 (replicate 8 9)) = Ok tt
  /\ forall x, 0 <= x < 32 -> ~ (8 <= x < 20) ->
     disk (pb_inner (snd (write_sectors p 1 2 (replicate 8 9)))) x = 7.
Proof.
  intros p. split; [by vm_compute|]. intros x Hx Hn.
  destruct (write_sectors p 1 2 (replicate 8 9)) as [r p'] eqn:E.
  destruct (partition_write_confined p p' 1 2 (replicate 8 9) r) as [_ Hc]; try done.
  { apply (RamDisk.inv_check _ 8). by vm_compute. }
  simpl snd. rewrite Hc; [|done|done].
  change (znth 0 (replicate 32 7) x = 7). unfold znth.
  rewrite nth_lookup, lookup_replicate_2 by lia. done.
Defined.

Lemma find_fat_partition_largest_witness :
  fst (find_fat_partition mbr_example) = Ok (mkPartitionInfo 1 2)
  /\ best_of (boot_bytes mbr_example 0) 4 (Some (mkPartitionInfo 1 2)).
Proof.
  assert (fst (find_fat_partition mbr_example) = Ok (mkPartitionInfo 1 2)) as E by by vm_compute.
  split; [done|].
  pose proof (find_fat_partition_largest mbr_example) as Hw. rewrite E in Hw.
  apply Hw.
  - apply (RamDisk.inv_check _ 4). by vm_compute.
  - done.
  - done.
  - by vm_compute.
  - apply is_bytes_forallb. by vm_compute.
  - by vm_compute.
  - vm_compute. intros Hin. repeat destruct Hin as [Hin|Hin]; done.
  - by vm_compute.
Defined.
