(* ===== verification/Cache.v ===== *)
(** * The sector cache (genome/src/fat/cache.rs)

    [BlockCache]: a fixed set of sector slots over a block device, filled on
    reads, invalidated on writes, evicted round-robin. *)

From S2P Require Import Prelude Block.

(** A slot: the LBA it caches, if any, and its sector buffer. *)
Abbreviation slot := (option Z * list Z)%type.

Record BlockCache (D : Type) : Type := mkCache {
  bc_inner : D;
  bytes_per_sector : Z;
  entries : list (option Z * list Z);
  next_victim : nat
}.
Arguments mkCache {D} _ _ _ _.
Arguments bc_inner {D} _.
Arguments bytes_per_sector {D} _.
Arguments entries {D} _.
Arguments next_victim {D} _.

Section Cache.
Context {D : Type} `{BlockDevice D}.
Implicit Types c : BlockCache D.

Definition set_inner c (d : D) : BlockCache D :=
  mkCache d (bytes_per_sector c) (entries c) (next_victim c).
Definition set_entries c (es : list slot) : BlockCache D :=
  mkCache (bc_inner c) (bytes_per_sector c) es (next_victim c).

(** [BlockCache::new]; [None] is the failed [assert!(capacity > 0)]. *)
Definition cache_new (inner : D) (capacity : nat) : option (BlockCache D) :=
  if (capacity =? 0)%nat then None
  else
    let bps := sector_size inner in
    Some (mkCache inner bps (replicate capacity (None, replicate (Z.to_nat bps) 0)) 0%nat).

Definition lookup_entry (es : list slot) (lba : Z) : option nat :=
  position (fun e => bool_decide (e.1 = Some lba)) es.

Definition cache_lookup c (lba : Z) : option nat := lookup_entry (entries c) lba.

(** [evict_slot]; [None] is the division by zero of an empty cache. *)
Definition evict_slot c : option (nat * BlockCache D) :=
  match position (fun e => bool_decide (e.1 = None)) (entries c) with
  | Some index => Some (index, c)
  | None =>
      if (length (entries c) =? 0)%nat then None
      else Some (next_victim c,
                 mkCache (bc_inner c) (bytes_per_sector c) (entries c)
                   ((next_victim c + 1) mod length (entries c))%nat)
  end.

(** Reading a missing sector through a slot's own buffer: shared tail of
    [read_sector] and [get_sector]. The slot keeps its old tag when the device
    fails. *)
Definition fill_slot c (lba : Z) : result BlockError (list Z) * BlockCache D :=
  match evict_slot c with
  | None => (Panic, c)
  | Some (index, c1) =>
      match entries c1 !! index with
      | None => (Panic, c1)
      | Some (tag, data) =>
          let '(r, data', d') := read_sectors (bc_inner c1) lba 1 data in
          match r with
          | Ok _ => (Ok data', set_entries (set_inner c1 d')
                                 (<[index := (Some lba, data')]> (entries c1)))
          | Err e => (Err e, set_entries (set_inner c1 d')
                               (<[index := (tag, data')]> (entries c1)))
          | Panic => (Panic, set_entries (set_inner c1 d')
                               (<[index := (tag, data')]> (entries c1)))
          end
      end
  end.

(** [read_sector]. *)
Definition read_sector c (lba : Z) (buf : list Z)
  : result BlockError unit * list Z * BlockCache D :=
  if zlen buf <? bytes_per_sector c
  then (Err (BufferTooSmall (bytes_per_sector c) (zlen buf)), buf, c)
  else if total_sectors (bc_inner c) <=? lba then (Err LbaOverflow, buf, c)
  else
    let '(r, c') :=
      match cache_lookup c lba with
      | Some index =>
          (match entries c !! index with Some e => Ok e.2 | None => Panic end, c)
      | None => fill_slot c lba
      end in
    match r with
    | Ok data =>
        match copy_from_slice buf 0 (bytes_per_sector c') data with
        | Some buf' => (Ok tt, buf', c')
        | None => (Panic, buf, c')
        end
    | Err e => (Err e, buf, c')
    | Panic => (Panic, buf, c')
    end.

(** [get_sector]: the borrowed slot contents. *)
Definition get_sector c (lba : Z) : result BlockError (list Z) * BlockCache D :=
  if total_sectors (bc_inner c) <=? lba then (Err LbaOverflow, c)
  else match cache_lookup c lba with
       | Some index =>
           (match entries c !! index with Some e => Ok e.2 | None => Panic end, c)
       | None => fill_slot c lba
       end.

(** [if let Some(slot) = self.lookup(lba) { self.entries[slot].0 = None; }] *)
Definition invalidate (es : list slot) (lba : Z) : list slot :=
  match lookup_entry es lba with
  | Some index => alter (fun e => (None, e.2)) index es
  | None => es
  end.

(** [write_sector]. *)
Definition write_sector c (lba : Z) (buf : list Z) : result BlockError unit * BlockCache D :=
  if total_sectors (bc_inner c) <=? lba then (Err LbaOverflow, c)
  else if zlen buf <? bytes_per_sector c
  then (Err (BufferTooSmall (bytes_per_sector c) (zlen buf)), c)
  else
    let c1 := set_entries c (invalidate (entries c) lba) in
    let '(r, d') := write_sectors (bc_inner c1) lba 1 buf in
    (r, set_inner c1 d').

(** *** The [BlockDevice] implementation *)

(** The scan [while index < count && self.lookup(lba + index).is_none()]; the
    fuel is the number of sectors left. *)
Fixpoint run_end (fuel : nat) (es : list slot) (lba count index : Z) : Z :=
  match fuel with
  | O => index
  | S fuel' =>
      if (index <? count) && bool_decide (lookup_entry es (lba + index) = None)
      then run_end fuel' es lba count (index + 1) else index
  end.

(** [for sector in first..index { ... }]: cache a run just read. *)
Fixpoint populate (n : nat) c (lba sector : Z) (buf : list Z) : option (BlockCache D) :=
  match n with
  | O => Some c
  | S n' =>
      match evict_slot c with
      | None => None
      | Some (index, c1) =>
          match entries c1 !! index with
          | None => None
          | Some (_, old) =>
              match copy_from_slice old 0 (zlen old)
                      (zslice buf (sector * bytes_per_sector c1) (bytes_per_sector c1)) with
              | None => None
              | Some data =>
                  populate n' (set_entries c1 (<[index := (Some (lba + sector), data)]> (entries c1)))
                    lba (sector + 1) buf
              end
          end
      end
  end.

(** The main loop; the fuel bounds the iterations left ([count - index]). *)
Fixpoint read_loop (fuel : nat) c (lba count index : Z) (buf : list Z)
  : result BlockError unit * list Z * BlockCache D :=
  if negb (index <? count) then (Ok tt, buf, c)
  else match fuel with
  | O => (Panic, buf, c)
  | S fuel' =>
      let bps := bytes_per_sector c in
      match cache_lookup c (lba + index) with
      | Some slot =>
          match entries c !! slot with
          | None => (Panic, buf, c)
          | Some e =>
              match copy_from_slice buf (index * bps) bps e.2 with
              | None => (Panic, buf, c)
              | Some buf' => read_loop fuel' c lba count (index + 1) buf'
              end
          end
      | None =>
          let first := index in
          let index' := run_end (Z.to_nat (count - index)) (entries c) lba count index in
          let start := first * bps in
          let endb := index' * bps in
          let '(r, part, d') :=
            read_sectors (bc_inner c) (lba + first) (index' - first)
              (zslice buf start (endb - start)) in
          let buf' := zsplice buf start part in
          match r with
          | Err e => (Err e, buf', set_inner c d')
          | Panic => (Panic, buf', set_inner c d')
          | Ok _ =>
              match populate (Z.to_nat (index' - first)) (set_inner c d') lba first buf' with
              | None => (Panic, buf', set_inner c d')
              | Some c' => read_loop fuel' c' lba count index' buf'
              end
          end
      end
  end.

Definition cache_read_sectors c (lba count : Z) (buf : list Z)
  : result BlockError unit * list Z * BlockCache D :=
  match u64_checked_mul count (bytes_per_sector c) with
  | None => (Err LbaOverflow, buf, c)
  | Some needed =>
      if zlen buf <? needed then (Err (BufferTooSmall needed (zlen buf)), buf, c)
      else match u64_checked_add lba count with
      | None => (Err LbaOverflow, buf, c)
      | Some end_lba =>
          if total_sectors (bc_inner c) <? end_lba then (Err LbaOverflow, buf, c)
          else read_loop (Z.to_nat count) c lba count 0 buf
      end
  end.

Definition cache_write_sectors c (lba count : Z) (buf : list Z)
  : result BlockError unit * BlockCache D :=
  match u64_checked_mul count (bytes_per_sector c) with
  | None => (Err LbaOverflow, c)
  | Some needed =>
      if zlen buf <? needed then (Err (BufferTooSmall needed (zlen buf)), c)
      else match u64_checked_add lba count with
      | None => (Err LbaOverflow, c)
      | Some end_lba =>
          if total_sectors (bc_inner c) <? end_lba then (Err LbaOverflow, c)
          else
            let es := fold_left invalidate (map (fun i => lba + i) (seqZ 0 count)) (entries c) in
            let '(r, d') := write_sectors (bc_inner c) lba count (zslice buf 0 needed) in
            (r, set_inner (set_entries c es) d')
      end
  end.

#[global] Instance cache_ops : BlockDevice (BlockCache D) := {
  read_sectors := cache_read_sectors;
  write_sectors := cache_write_sectors;
  sector_size := fun c => bytes_per_sector c mod 2 ^ 32;
  total_sectors := fun c => total_sectors (bc_inner c)
}.
End Cache.

(** ** Coherence

    A slot is coherent when its buffer has the sector size and, if tagged, holds
    the medium's bytes of that sector; no LBA is cached twice. *)
Definition slot_ok (bps total : Z) (dk : Z -> Z) (e : slot) : Prop :=
  zlen e.2 = bps
  /\ forall lba, e.1 = Some lba -> 0 <= lba < total
     /\ forall j, 0 <= j < bps -> znth 0 e.2 j = dk (lba * bps + j).

Definition unique_tags (es : list slot) : Prop :=
  forall n m e1 e2 lba, es !! n = Some e1 -> es !! m = Some e2 ->
    e1.1 = Some lba -> e2.1 = Some lba -> n = m.

Definition slots_ok (bps total : Z) (dk : Z -> Z) (es : list slot) : Prop :=
  (forall n e, es !! n = Some e -> slot_ok bps total dk e) /\ unique_tags es.

Lemma lookup_entry_Some es lba n :
  lookup_entry es lba = Some n -> exists e, es !! n = Some e /\ e.1 = Some lba.
Proof.
  intros (e & ? & Hb & _)%position_Some. exists e. by apply bool_decide_eq_true in Hb.
Qed.

Lemma lookup_entry_None es lba :
  lookup_entry es lba = None <-> forall n e, es !! n = Some e -> e.1 <> Some lba.
Proof.
  split.
  - intros Hn n e He. pose proof (position_None _ _ Hn n e He) as Hb.
    by apply bool_decide_eq_false in Hb.
  - intros Hn. destruct (lookup_entry es lba) as [n|] eqn:E; [|done].
    apply lookup_entry_Some in E as (e & He & Ht). by apply Hn in He.
Qed.

(** Slots keep their contents when the medium's bytes they show do not change. *)
Lemma slots_ok_ext bps total dk dk' es :
  0 <= bps ->
  (forall n e lba j, es !! n = Some e -> e.1 = Some lba -> 0 <= j < bps ->
     0 <= lba < total -> dk' (lba * bps + j) = dk (lba * bps + j)) ->
  slots_ok bps total dk es -> slots_ok bps total dk' es.
Proof.
  intros Hb Hext [Hok Hu]. split; [|done]. intros n e He.
  destruct (Hok n e He) as [Hl Hc]. split; [done|]. intros lba Ht.
  destruct (Hc lba Ht) as [Hr Hd]. split; [done|]. intros j Hj.
  rewrite Hd by done. symmetry. by eapply Hext.
Qed.

(** Tagging a slot with a sector nobody caches, and its bytes. *)
Lemma slots_ok_insert bps total dk es n lba data :
  slots_ok bps total dk es -> lookup_entry es lba = None ->
  slot_ok bps total dk (Some lba, data) ->
  slots_ok bps total dk (<[n := (Some lba, data)]> es).
Proof.
  intros [Hok Hu] Hnone Hnew. rewrite lookup_entry_None in Hnone. split.
  - intros m e He. apply list_lookup_insert_Some in He as [(-> & <- & _)|[_ He]]; eauto.
  - intros m m' e e' l He He' Ht Ht'.
    apply list_lookup_insert_Some in He as [(-> & <- & _)|[Hm He]];
      apply list_lookup_insert_Some in He' as [(-> & <- & _)|[Hm' He']]; simpl in *; try done.
    + injection Ht as <-. exfalso. by eapply Hnone.
    + injection Ht' as <-. exfalso. by eapply Hnone.
    + by eapply Hu.
Qed.

Lemma lookup_entry_insert es n lba data l :
  lookup_entry es l = None -> l <> lba ->
  lookup_entry (<[n := (Some lba, data)]> es) l = None.
Proof.
  rewrite !lookup_entry_None. intros Hn Hne m e He.
  apply list_lookup_insert_Some in He as [(-> & <- & _)|[_ He]]; [simpl; congruence|eauto].
Qed.

Lemma slots_ok_untag bps total dk es n :
  slots_ok bps total dk es -> slots_ok bps total dk (alter (fun e => (None, e.2)) n es).
Proof.
  intros [Hok Hu].
  assert (forall m e, alter (fun e : slot => (None, e.2)) n es !! m = Some e ->
    exists e0, es !! m = Some e0 /\ e.2 = e0.2 /\ (e.1 = None \/ e = e0)) as Hl.
  { intros m e He. destruct (decide (m = n)) as [->|Hmn].
    - rewrite list_lookup_alter_eq in He. destruct (es !! n) as [e0|]; [|done].
      simpl in He. injection He as <-. exists e0. naive_solver.
    - rewrite list_lookup_alter_ne in He by done. exists e. naive_solver. }
  split.
  - intros m e He. destruct (Hl m e He) as (e0 & He0 & H2 & [H1| ->]); [|eauto].
    destruct (Hok m e0 He0) as [Hz _]. split; [by rewrite H2|]. intros lba Ht. congruence.
  - intros m m' e e' lba He He' Ht Ht'.
    destruct (Hl _ _ He) as (e0 & He0 & _ & [H1| ->]); [congruence|].
    destruct (Hl _ _ He') as (e0' & He0' & _ & [H1'| ->]); [congruence|]. by eapply Hu.
Qed.

(** Invalidation drops the tag of [lba] and keeps every other one at most. *)
Lemma invalidate_spec bps total dk es lba :
  slots_ok bps total dk es ->
  slots_ok bps total dk (invalidate es lba) /\ lookup_entry (invalidate es lba) lba = None
  /\ length (invalidate es lba) = length es
  /\ forall l, lookup_entry es l = None -> lookup_entry (invalidate es lba) l = None.
Proof.
  intros Hs. unfold invalidate. destruct (lookup_entry es lba) as [n|] eqn:E; [|done].
  destruct (lookup_entry_Some _ _ _ E) as (e & He & Ht).
  assert (forall l, (lookup_entry es l = None \/ l = lba) ->
    lookup_entry (alter (fun e => (None, e.2)) n es) l = None) as Hkeep.
  { intros l Hl. rewrite lookup_entry_None. intros m e' He'.
    destruct (decide (m = n)) as [->|Hmn].
    - rewrite list_lookup_alter_eq, He in He'. simpl in He'. by injection He' as <-.
    - rewrite list_lookup_alter_ne in He' by done. destruct Hl as [Hl| ->].
      + rewrite lookup_entry_None in Hl. eauto.
      + intros Ht'. apply Hmn. by eapply (proj2 Hs). }
  split_and!.
  - by apply slots_ok_untag.
  - apply Hkeep. by right.
  - by rewrite length_alter.
  - intros l Hl. apply Hkeep. by left.
Qed.

Lemma invalidate_all bps total dk ls es :
  slots_ok bps total dk es ->
  let es' := fold_left invalidate ls es in
  slots_ok bps total dk es' /\ length es' = length es
  /\ (forall l, In l ls \/ lookup_entry es l = None -> lookup_entry es' l = None).
Proof.
  revert es. induction ls as [|l0 ls IH]; intros es Hs; simpl; [split_and!; tauto|].
  destruct (invalidate_spec _ _ _ _ l0 Hs) as (Hs1 & Hl0 & Hlen & Hkeep).
  destruct (IH _ Hs1) as (Hs2 & Hlen2 & Hk2). split_and!; [done|congruence|].
  intros l [[<-|Hin]|Hn]; apply Hk2; auto.
Qed.

Section CacheLaws.
Context {D : Type} `{LawfulDevice D}.
Implicit Types c : BlockCache D.

Definition cache_inv c : Prop :=
  dev_inv (bc_inner c) /\ bytes_per_sector c = sector_size (bc_inner c)
  /\ (next_victim c < length (entries c))%nat
  /\ slots_ok (bytes_per_sector c) (total_sectors (bc_inner c)) (disk (bc_inner c)) (entries c).

Lemma cache_new_inv (d : D) capacity :
  dev_inv d -> capacity <> 0%nat ->
  exists c, cache_new d capacity = Some c /\ cache_inv c /\ bc_inner c = d.
Proof.
  intros Hi Hc. unfold cache_new. destruct (Nat.eqb_spec capacity 0) as [|_]; [done|].
  eexists. split; [done|]. split; [|done]. destruct (law_geometry _ Hi) as [? ?].
  assert (forall n e, replicate capacity (@None Z, replicate (Z.to_nat (sector_size d)) 0) !! n
    = Some e -> e = (None, replicate (Z.to_nat (sector_size d)) 0)) as Hr.
  { intros n e He. by apply lookup_replicate in He as [-> _]. }
  split_and!; simpl; try done; [rewrite length_replicate; lia|]. split.
  - intros n e He. rewrite (Hr n e He). split; [|done]. simpl. rewrite zlen_replicate. lia.
  - intros n m e1 e2 lba He1 _ Ht. by rewrite (Hr _ _ He1) in Ht.
Qed.

Lemma evict_slot_spec c :
  cache_inv c ->
  exists n c1 e, evict_slot c = Some (n, c1) /\ entries c !! n = Some e
  /\ entries c1 = entries c /\ bc_inner c1 = bc_inner c
  /\ bytes_per_sector c1 = bytes_per_sector c /\ cache_inv c1.
Proof.
  intros Hi. pose proof Hi as (? & ? & Hv & ?). unfold evict_slot.
  destruct (position _ (entries c)) as [n|] eqn:E.
  - apply position_Some in E as (e & ? & _). exists n, c, e. done.
  - destruct (Nat.eqb_spec (length (entries c)) 0); [lia|].
    destruct (lookup_lt_is_Some_2 (entries c) (next_victim c) Hv) as [e He].
    do 2 eexists. exists e. split_and!; try done. unfold cache_inv; simpl.
    split_and!; try done. apply Nat.mod_upper_bound. lia.
Qed.

Lemma cache_inv_entries c es :
  cache_inv c -> length es = length (entries c) ->
  slots_ok (bytes_per_sector c) (total_sectors (bc_inner c)) (disk (bc_inner c)) es ->
  cache_inv (set_entries c es).
Proof. intros (? & ? & ? & _) Hl Hs. unfold cache_inv; simpl. split_and!; try done. lia. Qed.

(** The inner device may change as long as its geometry and the cached bytes
    stay. *)
Lemma cache_inv_inner c d' :
  cache_inv c -> dev_inv d' -> same_geometry (bc_inner c) d' ->
  (forall n e lba j, entries c !! n = Some e -> e.1 = Some lba ->
     0 <= j < bytes_per_sector c -> 0 <= lba < total_sectors (bc_inner c) ->
     disk d' (lba * bytes_per_sector c + j) = disk (bc_inner c) (lba * bytes_per_sector c + j)) ->
  cache_inv (set_inner c d').
Proof.
  intros (Hd & Hb & Hv & Hs) Hd' [Hg1 Hg2] Hext. unfold cache_inv; simpl.
  rewrite Hg1, Hg2. split_and!; try done.
  destruct (law_geometry _ Hd) as [? ?]. eapply slots_ok_ext; [lia|done|done].
Qed.

Lemma run_end_spec fuel es lba count index :
  index <= count -> count - index <= Z.of_nat fuel ->
  let i := run_end fuel es lba count index in
  index <= i <= count
  /\ (forall s, index <= s < i -> lookup_entry es (lba + s) = None)
  /\ (index < count -> lookup_entry es (lba + index) = None -> index < i).
Proof.
  revert index. induction fuel as [|fuel IH]; intros index Hle Hf; simpl.
  - split_and!; [lia|lia|lia|]. lia.
  - destruct (Z.ltb_spec index count); simpl; [|split_and!; lia].
    case_bool_decide as Hn; simpl; [|split_and!; lia || done].
    destruct (IH (index + 1)) as (? & Hs & _); [lia|lia|].
    split_and!; try lia. intros s Hs'.
    destruct (decide (s = index)) as [->|]; [done|]. apply Hs. lia.
Qed.

Lemma populate_spec n : forall c lba sector buf,
  cache_inv c -> 0 <= sector ->
  0 <= lba + sector -> lba + (sector + Z.of_nat n) <= total_sectors (bc_inner c) ->
  (sector + Z.of_nat n) * bytes_per_sector c <= zlen buf ->
  (forall s, sector <= s < sector + Z.of_nat n -> lookup_entry (entries c) (lba + s) = None) ->
  (forall k, sector * bytes_per_sector c <= k < (sector + Z.of_nat n) * bytes_per_sector c ->
     znth 0 buf k = disk (bc_inner c) (lba * bytes_per_sector c + k)) ->
  exists c', populate n c lba sector buf = Some c' /\ cache_inv c'
  /\ bc_inner c' = bc_inner c /\ bytes_per_sector c' = bytes_per_sector c.
Proof.
  induction n as [|n IH]; intros c lba sector buf Hi Hs Hlo Hhi Hb Hn Hk; simpl; [by eauto|].
  destruct (evict_slot_spec c Hi) as (i & c1 & [t old] & -> & He & He1 & Hin1 & Hb1 & Hi1).
  rewrite He1, He, Hb1.
  pose proof Hi as (Hd & Hbps & _ & Hok). destruct (law_geometry _ Hd) as [Hg _].
  destruct (proj1 Hok _ _ He) as [Hol _]. simpl in Hol.
  set (bps := bytes_per_sector c) in *.
  assert (zlen (zslice buf (sector * bps) bps) = bps) as Hzl by (apply zlen_zslice; nia).
  rewrite copy_from_slice_Some by lia.
  set (data := zsplice old 0 _).
  assert (slot_ok bps (total_sectors (bc_inner c)) (disk (bc_inner c)) (Some (lba + sector), data))
    as Hnew.
  { split; simpl; [unfold data; rewrite zlen_zsplice; lia|].
    intros l [= <-]. split; [lia|]. intros j Hj. unfold data.
    rewrite znth_zsplice, Hzl by lia. rewrite Z.add_0_l, Z.sub_0_r.
    rewrite (proj2 (Z.leb_le 0 j)), (proj2 (Z.ltb_lt j bps)) by lia. simpl.
    rewrite znth_zslice by nia. rewrite Hk by nia. f_equal. lia. }
  destruct (IH (set_entries c1 (<[i := (Some (lba + sector), data)]> (entries c))) lba (sector + 1) buf)
    as (c' & Hp & Hi' & Hin' & Hb'); simpl; rewrite ?Hb1, ?Hin1; fold bps; try lia.
  - apply cache_inv_entries; [done|by rewrite length_insert, He1|].
    rewrite Hb1, Hin1. apply slots_ok_insert; [done| |done]. apply Hn. lia.
  - intros s Hs'. apply lookup_entry_insert; [apply Hn; lia|lia].
  - intros k Hk'. apply Hk. split; [nia|].
    replace (sector + Z.of_nat (S n)) with (sector + 1 + Z.of_nat n) by lia. lia.
  - exists c'. simpl in Hin', Hb'. split; [exact Hp|]. split; [done|]. split; congruence.
Qed.
End CacheLaws.

(** ** The cache refines the device it caches *)
Section CacheRefinement.
Context {D : Type} `{LawfulDevice D}.
Implicit Types c : BlockCache D.

(** [c] is coherent and shows a medium of [tot] sectors of [ss] bytes with
    contents [dk]. *)
Definition shows c (ss tot : Z) (dk : Z -> Z) : Prop :=
  cache_inv c /\ bytes_per_sector c = ss /\ total_sectors (bc_inner c) = tot
  /\ forall x, 0 <= x < tot * ss -> disk (bc_inner c) x = dk x.

Lemma shows_read c ss tot dk lba count buf r buf' d' :
  shows c ss tot dk -> in_range (bc_inner c) lba count buf ->
  read_sectors (bc_inner c) lba count buf = (r, buf', d') ->
  r <> Panic /\ shows (set_inner c d') ss tot dk /\ zlen buf' = zlen buf
  /\ (r = Ok tt -> forall k, 0 <= k < zlen buf ->
      znth 0 buf' k = if k <? count * ss then dk (lba * ss + k) else znth 0 buf k)
  /\ (healthy (bc_inner c) -> r = Ok tt /\ healthy d').
Proof.
  intros (Hc & Hss & Htot & Hdk) Hr E. pose proof Hc as (Hd & Hb & _ & _).
  destruct (law_geometry _ Hd) as [? ?].
  destruct (law_read _ _ _ _ _ _ _ Hd Hr E) as (Hnp & Hd' & [Hg1 Hg2] & Hsame & Hl & Hok & Hh).
  unfold media_bytes in Hsame. rewrite <- Hb, Hss, Htot in *.
  split_and!; try done.
  - split_and!; simpl; try congruence.
    + apply cache_inv_inner; try done; [by split; congruence|].
      intros n e l j _ _ Hj Hlr. apply Hsame. rewrite Hss, Htot in *. nia.
    + intros x Hx. rewrite Hsame by done. by apply Hdk.
  - intros Hr0 k Hk. rewrite (Hok Hr0 k Hk). destruct (Z.ltb_spec k (count * ss)); [|done].
    apply Hdk. destruct Hr as (? & ? & ? & _). rewrite Htot in *. nia.
Qed.

(** A hit copies the sector's bytes. *)
Lemma shows_hit c ss tot dk lba n :
  shows c ss tot dk -> cache_lookup c lba = Some n ->
  exists e, entries c !! n = Some e /\ zlen e.2 = ss
  /\ forall j, 0 <= j < ss -> znth 0 e.2 j = dk (lba * ss + j).
Proof.
  intros (Hc & Hss & Htot & Hdk) (e & He & Ht)%lookup_entry_Some.
  pose proof Hc as (Hd & Hb & _ & [Hok _]). destruct (law_geometry _ Hd) as [? ?].
  destruct (Hok _ _ He) as [Hl Hcont]. destruct (Hcont _ Ht) as [Hr Hj].
  exists e. rewrite <- Hss. split_and!; try done. intros j Hjr. rewrite Hj by done.
  apply Hdk. rewrite <- Hss, <- Htot. nia.
Qed.

Lemma shows_populate c ss tot dk n lba sector buf :
  shows c ss tot dk -> 0 <= sector -> 0 <= lba ->
  lba + (sector + Z.of_nat n) <= tot -> (sector + Z.of_nat n) * ss <= zlen buf ->
  (forall s, sector <= s < sector + Z.of_nat n -> lookup_entry (entries c) (lba + s) = None) ->
  (forall k, sector * ss <= k < (sector + Z.of_nat n) * ss -> znth 0 buf k = dk (lba * ss + k)) ->
  exists c', populate n c lba sector buf = Some c' /\ shows c' ss tot dk
  /\ bc_inner c' = bc_inner c.
Proof.
  intros (Hc & Hss & Htot & Hdk) ? ? ? ? Hn Hk.
  pose proof Hc as (Hd & Hb & _ & _). destruct (law_geometry _ Hd) as [? ?].
  destruct (populate_spec n c lba sector buf) as (c' & Hp & Hi' & Hin & Hb'); rewrite ?Hss; try lia.
  - done.
  - done.
  - intros k Hkr. rewrite Hk by done. symmetry. apply Hdk. nia.
  - exists c'. split; [done|]. split; [|done]. unfold shows. rewrite Hin, Hb'. done.
Qed.

Lemma read_loop_spec ss tot dk lba count fuel : forall c buf index r buf' c',
  shows c ss tot dk -> 0 < ss -> 0 <= lba -> 0 <= index <= count -> count <= u16_max ->
  lba + count <= tot -> count * ss <= zlen buf -> count - index <= Z.of_nat fuel ->
  (forall k, 0 <= k < index * ss -> znth 0 buf k = dk (lba * ss + k)) ->
  read_loop fuel c lba count index buf = (r, buf', c') ->
  r <> Panic /\ shows c' ss tot dk /\ zlen buf' = zlen buf
  /\ (r = Ok tt -> forall k, 0 <= k < zlen buf ->
      znth 0 buf' k = if k <? count * ss then dk (lba * ss + k) else znth 0 buf k)
  /\ (healthy (bc_inner c) -> r = Ok tt /\ healthy (bc_inner c')).
Proof.
  induction fuel as [|fuel IH]; intros c buf index r buf' c' Hc Hss Hlba Hi Hcu Htot Hb Hf Hdone;
    simpl; destruct (Z.ltb_spec index count) as [Hlt|Hge]; simpl; try lia.
  1, 3: intros [= <- <- <-]; split_and!; try done; intros _ k Hk;
    destruct (Z.ltb_spec k (count * ss)); [|done]; apply Hdone;
    replace index with count by lia; lia.
  pose proof Hc as (_ & Hbps & _ & _). rewrite !Hbps.
  destruct (cache_lookup c (lba + index)) as [n|] eqn:El.
  - destruct (shows_hit _ _ _ _ _ _ Hc El) as (e & -> & Hel & Hej).
    rewrite copy_from_slice_Some by nia. intros E.
    apply IH in E as (Hnp & Hc' & Hl & Hok & Hh); try lia; try done.
    + rewrite zlen_zsplice in Hl, Hok by nia. split_and!; try done.
      intros Hr k Hk. rewrite (Hok Hr k Hk).
      destruct (Z.ltb_spec k (count * ss)); [done|].
      rewrite znth_zsplice by nia. rewrite Hel.
      rewrite (proj2 (Z.ltb_ge k _)), andb_false_r by nia. done.
    + rewrite zlen_zsplice; nia.
    + intros k Hk. rewrite znth_zsplice by nia. rewrite Hel.
      destruct (Z.leb_spec (index * ss) k); simpl.
      * destruct (Z.ltb_spec k (index * ss + ss)); [|nia]. rewrite Hej by lia. f_equal. lia.
      * apply Hdone. lia.
  - destruct (run_end_spec (Z.to_nat (count - index)) (entries c) lba count index)
      as (Hre & Hnone & Hprog); [lia|lia|].
    specialize (Hprog Hlt El). set (index' := run_end _ _ _ _ _) in *.
    set (sub := zslice buf (index * ss) (index' * ss - index * ss)).
    assert (zlen sub = (index' - index) * ss) as Hsub by (unfold sub; rewrite zlen_zslice; nia).
    destruct (read_sectors (bc_inner c) (lba + index) (index' - index) sub)
      as [[r0 part] d'] eqn:Er.
    assert (in_range (bc_inner c) (lba + index) (index' - index) sub) as Hir.
    { pose proof Hc as ((Hd & Hbb & _) & _ & Htt & _). unfold in_range.
      rewrite <- Hbb, Hbps, Htt. lia. }
    destruct (shows_read _ _ _ _ _ _ _ _ _ _ Hc Hir Er) as (Hnp0 & Hc0 & Hpl & Hpok & Hph).
    rewrite Hsub in Hpl, Hpok.
    assert (zlen (zsplice buf (index * ss) part) = zlen buf) as Hspl by (apply zlen_zsplice; nia).
    destruct r0 as [[]|e|]; [|intros [= <- <- <-]|done].
    + assert (forall k, 0 <= k < index' * ss ->
        znth 0 (zsplice buf (index * ss) part) k = dk (lba * ss + k)) as Hdone'.
      { intros k Hk. rewrite znth_zsplice by nia. rewrite Hpl.
        destruct (Z.leb_spec (index * ss) k); simpl.
        - destruct (Z.ltb_spec k (index * ss + (index' - index) * ss)); [|nia].
          rewrite Hpok by (done || nia). rewrite (proj2 (Z.ltb_lt _ _)) by nia. f_equal. lia.
        - apply Hdone. lia. }
      destruct (shows_populate _ _ _ _ (Z.to_nat (index' - index)) lba index
        (zsplice buf (index * ss) part) Hc0) as (c1 & -> & Hc1 & Hin1); try lia; simpl.
      { rewrite Z2Nat.id by lia. nia. }
      { intros s Hs. apply Hnone. lia. }
      { intros k Hk. apply Hdone'. rewrite Z2Nat.id in Hk by lia. nia. }
      intros E. apply IH in E as (Hnp & Hc' & Hl & Hok & Hh); try lia; try done.
      rewrite Hspl in Hl, Hok. split_and!; try done.
      * intros Hr k Hk. rewrite (Hok Hr k Hk).
        destruct (Z.ltb_spec k (count * ss)); [done|].
        rewrite znth_zsplice by nia. rewrite Hpl.
        rewrite (proj2 (Z.ltb_ge k _)), andb_false_r by nia. done.
      * intros Hhe. apply Hh. rewrite Hin1. by apply Hph.
    + split_and!; try done.
Qed.
End CacheRefinement.

Section CacheInstance.
Context {D : Type} `{LawfulDevice D}.
Implicit Types c : BlockCache D.

Lemma cache_sector_size c :
  cache_inv c -> sector_size c = bytes_per_sector c
  /\ 0 < bytes_per_sector c <= u32_max /\ 0 <= total_sectors c <= u64_max.
Proof.
  intros (Hd & Hb & _). destruct (law_geometry _ Hd) as [? ?]. simpl.
  rewrite Z.mod_small; unfold u32_max in *; lia.
Qed.

Lemma cache_shows c :
  cache_inv c -> shows c (sector_size c) (total_sectors c) (disk (bc_inner c)).
Proof. intros Hc. destruct (cache_sector_size c Hc) as [-> _]. by split_and!. Qed.

(** In-range requests pass the entry checks of both calls. *)
Lemma cache_checks c lba count buf :
  cache_inv c -> in_range c lba count buf ->
  u64_checked_mul count (bytes_per_sector c) = Some (count * bytes_per_sector c)
  /\ (zlen buf <? count * bytes_per_sector c) = false
  /\ u64_checked_add lba count = Some (lba + count)
  /\ (total_sectors (bc_inner c) <? lba + count) = false.
Proof.
  intros Hc Hr. destruct (cache_sector_size c Hc) as (Hs & ? & ?).
  destruct Hr as (? & ? & ? & Hb). rewrite Hs in Hb. simpl in *.
  unfold u64_max, u32_max, u16_max in *. split_and!.
  - apply u64_checked_mul_fit. unfold u64_max. nia.
  - apply Z.ltb_ge. lia.
  - apply u64_checked_add_fit. unfold u64_max. lia.
  - apply Z.ltb_ge. lia.
Qed.

Lemma cache_write_spec c lba count buf r c' :
  cache_inv c -> in_range c lba count buf -> cache_write_sectors c lba count buf = (r, c') ->
  r <> Panic /\ cache_inv c' /\ same_geometry c c'
  /\ (forall x, 0 <= x < media_bytes c -> in_sectors c lba count x = false ->
      disk (bc_inner c') x = disk (bc_inner c) x)
  /\ (r = Ok tt -> forall x, 0 <= x < media_bytes c -> in_sectors c lba count x = true ->
      disk (bc_inner c') x = znth 0 buf (x - lba * sector_size c))
  /\ (healthy (bc_inner c) -> r = Ok tt /\ healthy (bc_inner c')).
Proof.
  intros Hc Hr. destruct (cache_checks _ _ _ _ Hc Hr) as (E1 & E2 & E3 & E4).
  unfold cache_write_sectors. rewrite E1, E2, E3, E4.
  destruct (cache_sector_size c Hc) as (Hs & Hbr & Htr).
  pose proof Hr as (Hl & Hcnt & Ht & Hb). rewrite Hs in Hb. simpl in Ht.
  pose proof Hc as (Hd & Hbps & Hv & Hslots).
  set (bps := bytes_per_sector c) in *. set (needed := count * bps).
  assert (zlen (zslice buf 0 needed) = needed) as Hz by (apply zlen_zslice; lia).
  destruct (invalidate_all bps (total_sectors (bc_inner c)) (disk (bc_inner c))
    (map (fun i => lba + i) (seqZ 0 count)) (entries c) Hslots) as (Hes & Hlen & Hgone).
  set (es := fold_left invalidate _ _) in *.
  assert (forall l, lba <= l < lba + count -> lookup_entry es l = None) as Hinv.
  { intros l Hlr. apply Hgone. left. apply in_map_iff. exists (l - lba).
    split; [lia|]. apply list_elem_of_In, elem_of_seqZ. lia. }
  destruct (write_sectors (bc_inner c) lba count _) as [r0 d'] eqn:Ew. intros [= <- <-].
  assert (in_range (bc_inner c) lba count (zslice buf 0 needed)) as Hir.
  { unfold in_range. rewrite Hz, <- Hbps. unfold needed. lia. }
  destruct (law_write _ _ _ _ _ _ Hd Hir Ew) as (Hnp & Hd' & [Hg1 Hg2] & Hout & Hin & Hh).
  unfold in_sectors, media_bytes, same_geometry in *. rewrite <- Hbps in *. fold bps in Hout, Hin.
  split_and!; simpl; try done.
  - apply (cache_inv_inner (set_entries c es)); simpl; try done.
    + by apply cache_inv_entries.
    + split; congruence.
    + intros n e l j He Ht' Hj Hlr. apply Hout; [nia|].
      apply andb_false_iff. rewrite Z.leb_gt, Z.ltb_ge.
      destruct (decide (lba <= l < lba + count)) as [Hin'|Hout']; [|nia].
      specialize (Hinv l Hin'). rewrite lookup_entry_None in Hinv. by apply Hinv in He.
  - intros x Hx Hns. simpl in Hs. rewrite Hs in *. apply Hout; [lia|done].
  - intros Hr0 x Hx Hns. simpl in Hs. rewrite Hs in *. rewrite (Hin Hr0) by (lia || done).
    bool_to_prop. apply znth_zslice; unfold needed; nia.
Qed.

(** The interface, discharged: a coherent cache over a lawful device is itself a lawful
    device with the same medium. *)
#[export] Instance cache_lawful : LawfulDevice (BlockCache D).
Proof.
  refine {| dev_inv := cache_inv; healthy := fun c => healthy (bc_inner c);
            disk := fun c => disk (bc_inner c) |}.
  - intros c Hc. destruct (cache_sector_size c Hc) as (-> & ? & ?). done.
  - intros c lba count buf r buf' c' Hc Hr E.
    destruct (cache_checks _ _ _ _ Hc Hr) as (E1 & E2 & E3 & E4).
    simpl in E. unfold cache_read_sectors in E. rewrite E1, E2, E3, E4 in E.
    destruct (cache_sector_size c Hc) as (Hs & Hbr & Htr).
    destruct Hr as (Hl & Hcnt & Ht & Hb).
    apply (read_loop_spec (sector_size c) (total_sectors c) (disk (bc_inner c))) in E
      as (Hnp & Hc' & Hlen & Hok & Hh); try lia; [|by apply cache_shows].
    destruct Hc' as (Hi' & Hss' & Htt' & Hdk).
    destruct (cache_sector_size c' Hi') as (Hs' & _).
    split_and!; try done. split; [congruence|]. by rewrite <- Htt'.
  - intros c lba count buf r c' Hc Hr E.
    exact (cache_write_spec _ _ _ _ _ _ Hc Hr E).
Defined.
End CacheInstance.

(** ** Single-sector calls *)
Section SingleSector.
Context {D : Type} `{LawfulDevice D}.
Implicit Types c : BlockCache D.

(** Filling a slot on a miss: on success the sector's bytes are delivered and
    cached, and the cache stays coherent. *)
Lemma fill_slot_spec c lba data c' :
  cache_inv c -> 0 <= lba < total_sectors (bc_inner c) -> cache_lookup c lba = None ->
  fill_slot c lba = (Ok data, c') ->
  cache_inv c' /\ same_geometry (bc_inner c) (bc_inner c')
  /\ bytes_per_sector c' = bytes_per_sector c
  /\ (forall x, 0 <= x < media_bytes (bc_inner c) -> disk (bc_inner c') x = disk (bc_inner c) x)
  /\ slot_ok (bytes_per_sector c) (total_sectors (bc_inner c)) (disk (bc_inner c)) (Some lba, data)
  /\ exists n, entries c' !! n = Some (Some lba, data).
Proof.
  intros Hc Hl Hmiss. unfold fill_slot.
  destruct (evict_slot_spec c Hc) as (i & c1 & [t old] & -> & He & He1 & Hin1 & Hb1 & Hc1).
  rewrite He1, He, Hin1. pose proof Hc as (Hd & Hbps & _ & Hok).
  destruct (proj1 Hok _ _ He) as [Hol _]. simpl in Hol.
  destruct (law_geometry _ Hd) as [Hg _].
  destruct (read_sectors (bc_inner c) lba 1 old) as [[r data'] d'] eqn:E.
  assert (in_range (bc_inner c) lba 1 old) as Hr by (unfold in_range, u16_max; lia).
  destruct (law_read _ _ _ _ _ _ _ Hd Hr E) as (Hnp & Hd' & Hsg & Hsame & Hlen & Hcont & _).
  destruct r as [[]|e|]; intros [= <- <-]. simpl. specialize (Hcont eq_refl).
  assert (slot_ok (bytes_per_sector c) (total_sectors (bc_inner c)) (disk (bc_inner c))
    (Some lba, data')) as Hnew.
  { split; simpl; [lia|]. intros l [= <-]. split; [done|]. intros j Hj.
    rewrite Hcont by lia. rewrite (proj2 (Z.ltb_lt _ _)) by lia. by rewrite Hbps. }
  split_and!; try done.
  - apply (cache_inv_entries (set_inner c1 d')); [|by rewrite length_insert, <- He1|].
    + apply cache_inv_inner; rewrite ?Hin1; try done.
      intros n e l j _ _ Hj Hlr. apply Hsame. unfold media_bytes. rewrite Hb1, Hbps in *. nia.
    + simpl. rewrite Hb1. destruct Hsg as [Hg1 Hg2]. rewrite Hg2.
      apply (slots_ok_ext _ _ (disk (bc_inner c))); [lia| |by apply slots_ok_insert].
      intros n e l j _ _ Hj Hlr. apply Hsame. unfold media_bytes. rewrite Hbps in *. nia.
  - exists i. apply list_lookup_insert_eq. by eapply lookup_lt_Some.
Qed.

(** What both single-sector reads do after their bounds checks. *)
Lemma get_sector_spec c lba data c' :
  cache_inv c -> 0 <= lba -> get_sector c lba = (Ok data, c') ->
  lba < total_sectors (bc_inner c) /\ cache_inv c'
  /\ same_geometry (bc_inner c) (bc_inner c') /\ bytes_per_sector c' = bytes_per_sector c
  /\ (forall x, 0 <= x < media_bytes (bc_inner c) -> disk (bc_inner c') x = disk (bc_inner c) x)
  /\ slot_ok (bytes_per_sector c) (total_sectors (bc_inner c)) (disk (bc_inner c)) (Some lba, data)
  /\ exists n, entries c' !! n = Some (Some lba, data).
Proof.
  intros Hc Hl. unfold get_sector. destruct (Z.leb_spec (total_sectors (bc_inner c)) lba); [done|].
  destruct (cache_lookup c lba) as [n|] eqn:El.
  - apply lookup_entry_Some in El as ([t b] & He & Ht). simpl in Ht. subst t.
    rewrite He. intros [= <- <-]. pose proof Hc as (_ & _ & _ & [Hok _]).
    specialize (Hok _ _ He). split_and!; try done. by exists n.
  - intros E. split; [done|]. by apply fill_slot_spec.
Qed.

Lemma read_sector_get c lba buf :
  bytes_per_sector c <= zlen buf -> lba < total_sectors (bc_inner c) ->
  read_sector c lba buf =
  let '(r, c') := get_sector c lba in
  match r with
  | Ok data => match copy_from_slice buf 0 (bytes_per_sector c') data with
               | Some buf' => (Ok tt, buf', c')
               | None => (Panic, buf, c')
               end
  | Err e => (Err e, buf, c')
  | Panic => (Panic, buf, c')
  end.
Proof.
  intros Hb Hl. unfold read_sector, get_sector.
  rewrite (proj2 (Z.ltb_ge _ _)), (proj2 (Z.leb_gt _ _)) by lia. done.
Qed.

(** A sector of the medium is delivered without panicking, and always by a
    fault-free device. *)
Lemma get_sector_total c lba :
  cache_inv c -> 0 <= lba < total_sectors (bc_inner c) ->
  exists r c', get_sector c lba = (r, c') /\ r <> Panic
  /\ (healthy (bc_inner c) -> exists data, r = Ok data).
Proof.
  intros Hc Hl. unfold get_sector. rewrite (proj2 (Z.leb_gt _ _)) by lia.
  destruct (cache_lookup c lba) as [n|] eqn:El.
  { apply lookup_entry_Some in El as (e & -> & _). do 2 eexists. split; [done|split; [done|eauto]]. }
  unfold fill_slot.
  destruct (evict_slot_spec c Hc) as (i & c1 & [t old] & -> & He & He1 & Hin1 & Hb1 & Hc1).
  rewrite He1, He, Hin1. pose proof Hc as (Hd & Hbps & _ & Hok).
  destruct (proj1 Hok _ _ He) as [Hol _]. simpl in Hol.
  destruct (read_sectors (bc_inner c) lba 1 old) as [[r data'] d'] eqn:E.
  destruct (law_geometry _ Hd) as [Hg _].
  assert (in_range (bc_inner c) lba 1 old) as Hr by (unfold in_range, u16_max; lia).
  destruct (law_read _ _ _ _ _ _ _ Hd Hr E) as (Hnp & _ & _ & _ & _ & _ & Hhe).
  destruct r as [[]|e|]; [| |done]; do 2 eexists; (split; [done|split; [done|]]).
  - eauto.
  - intros Hh. by destruct (Hhe Hh).
Qed.

(** Writing one sector, on success: the sector's bytes become the buffer's, the
    rest of the medium stays, and the cache is coherent. *)
Lemma write_sector_spec c lba buf r c' :
  cache_inv c -> 0 <= lba < total_sectors (bc_inner c) -> bytes_per_sector c <= zlen buf ->
  write_sector c lba buf = (r, c') ->
  cache_inv c' /\ same_geometry (bc_inner c) (bc_inner c')
  /\ bytes_per_sector c' = bytes_per_sector c
  /\ (r = Ok tt -> forall j, 0 <= j < bytes_per_sector c ->
      disk (bc_inner c') (lba * bytes_per_sector c + j) = znth 0 buf j)
  /\ (healthy (bc_inner c) -> r = Ok tt /\ healthy (bc_inner c')).
Proof.
  intros Hc Hl Hb. unfold write_sector.
  rewrite (proj2 (Z.leb_gt _ _)), (proj2 (Z.ltb_ge _ _)) by lia.
  pose proof Hc as (Hd & Hbps & _ & Hslots). destruct (law_geometry _ Hd) as [Hg _].
  destruct (invalidate_spec _ _ _ _ lba Hslots) as (Hes & Hgone & Hlen & _). simpl.
  destruct (write_sectors (bc_inner c) lba 1 buf) as [r0 d'] eqn:Ew. intros [= <- <-].
  assert (in_range (bc_inner c) lba 1 buf) as Hr by (unfold in_range, u16_max; lia).
  destruct (law_write _ _ _ _ _ _ Hd Hr Ew) as (_ & Hd' & Hsg & Hout & Hin & Hh).
  unfold in_sectors, media_bytes in *. rewrite <- Hbps in *. split_and!; simpl; try done.
  - apply cache_inv_inner; simpl; try done; [by apply cache_inv_entries|].
    intros n e l j He Ht Hj Hlr. apply Hout; [nia|].
    apply andb_false_iff. rewrite Z.leb_gt, Z.ltb_ge.
    destruct (decide (l = lba)) as [->|]; [|nia].
    rewrite lookup_entry_None in Hgone. by apply Hgone in He.
  - intros Hr0 j Hj. rewrite (Hin Hr0); [f_equal; lia|nia|].
    apply andb_true_iff. rewrite Z.leb_le, Z.ltb_lt. lia.
Qed.
End SingleSector.

(** ** Properties *)

(** Multi-sector reads through the cache are correct: for every in-range
    request, whatever is cached, the call never panics and keeps the cache
    coherent and the medium unchanged, even when the device fails; on success
    the buffer holds exactly the medium's bytes (and its tail is untouched);
    over a fault-free device the call succeeds. *)
Theorem cache_read_sectors_correct {D} `{LawfulDevice D} (c c' : BlockCache D)
    (lba count : Z) (buf buf' : list Z) (r : result BlockError unit) :
  cache_inv c -> in_range c lba count buf ->
  read_sectors c lba count buf = (r, buf', c') ->
  r <> Panic /\ cache_inv c'
  /\ (forall x, 0 <= x < media_bytes c -> disk (bc_inner c') x = disk (bc_inner c) x)
  /\ zlen buf' = zlen buf
  /\ (r = Ok tt -> forall k, 0 <= k < zlen buf ->
      znth 0 buf' k = if k <? count * sector_size c
        then disk (bc_inner c) (lba * sector_size c + k) else znth 0 buf k)
  /\ (healthy (bc_inner c) -> r = Ok tt).
Proof.
  intros Hc Hr E.
  destruct (law_read (LawfulDevice := cache_lawful) c lba count buf r buf' c' Hc Hr E)
    as (? & ? & _ & ? & ? & ? & Hh).
  split_and!; try done. intros Hhe. by apply Hh.
Qed.

(** Multi-sector writes through the cache are correct and leave no stale
    sector: after any in-range write, successful or not, every cached sector
    agrees with the medium; only the sectors of the request change, and on
    success they hold the caller's bytes. *)
Theorem cache_write_sectors_correct {D} `{LawfulDevice D} (c c' : BlockCache D)
    (lba count : Z) (buf : list Z) (r : result BlockError unit) :
  cache_inv c -> in_range c lba count buf ->
  write_sectors c lba count buf = (r, c') ->
  r <> Panic /\ cache_inv c'
  /\ (forall x, 0 <= x < media_bytes c -> in_sectors c lba count x = false ->
      disk (bc_inner c') x = disk (bc_inner c) x)
  /\ (r = Ok tt -> forall x, 0 <= x < media_bytes c -> in_sectors c lba count x = true ->
      disk (bc_inner c') x = znth 0 buf (x - lba * sector_size c))
  /\ (healthy (bc_inner c) -> r = Ok tt).
Proof.
  intros Hc Hr E. destruct (cache_write_spec _ _ _ _ _ _ Hc Hr E) as (? & ? & _ & ? & ? & Hh).
  split_and!; try done. intros Hhe. by apply Hh.
Qed.

(** C2. The cache is transparent: any sequence of in-range reads and writes gives
    the same outcomes and the same buffers through a fresh cache of any capacity
    as on the fault-free device itself. *)
Theorem cache_transparent {D} `{LawfulDevice D} (d : D) (c : BlockCache D)
    (capacity : nat) (reqs : list request) :
  dev_inv d -> healthy d -> cache_new d capacity = Some c ->
  Forall (request_in_range d) reqs ->
  run_requests c reqs = run_requests d reqs.
Proof.
  intros Hi Hh Hnew Hreqs. destruct capacity as [|cap]; [done|].
  destruct (cache_new_inv d (S cap) Hi) as (c0 & Hnew' & Hc & Hin); [done|].
  rewrite Hnew in Hnew'. injection Hnew' as <-.
  destruct (cache_sector_size c Hc) as (Hs & _).
  assert (sector_size c = sector_size d) as Hss.
  { rewrite Hs. destruct Hc as (_ & Hb & _). by rewrite Hb, Hin. }
  apply same_medium_traces.
  - unfold same_medium, disk; simpl. rewrite Hin. simpl in Hss. split_and!; try done.
  - eapply Forall_impl; [exact Hreqs|].
    intros [l k b|l k b]; simpl; unfold in_range; simpl in *; by rewrite Hin, Hss.
Qed.

(** Single-sector read: when [read_sector] succeeds the first
    [bytes_per_sector] bytes of the buffer are the medium's sector, the rest is
    untouched and the cache is still coherent; it succeeds for every sector of a
    fault-free medium given a large enough buffer. *)
Theorem read_sector_correct {D} `{LawfulDevice D} (c : BlockCache D) (lba : Z) (buf : list Z) :
  cache_inv c -> 0 <= lba ->
  match read_sector c lba buf with
  | (Ok _, buf', c') =>
      cache_inv c' /\ zlen buf' = zlen buf
      /\ forall k, 0 <= k < zlen buf ->
         znth 0 buf' k = if k <? bytes_per_sector c
           then disk (bc_inner c) (lba * bytes_per_sector c + k) else znth 0 buf k
  | (Err _, _, _) =>
      zlen buf < bytes_per_sector c \/ total_sectors (bc_inner c) <= lba
      \/ ~ healthy (bc_inner c)
  | (Panic, _, _) => False
  end.
Proof.
  intros Hc Hl. destruct (Z.lt_ge_cases (zlen buf) (bytes_per_sector c)) as [Hb|Hb].
  { unfold read_sector. rewrite (proj2 (Z.ltb_lt _ _)) by done. by left. }
  destruct (Z.le_gt_cases (total_sectors (bc_inner c)) lba) as [Ht|Ht].
  { unfold read_sector. rewrite (proj2 (Z.ltb_ge _ _)), (proj2 (Z.leb_le _ _)) by done. auto. }
  rewrite read_sector_get by lia.
  destruct (get_sector_total c lba Hc) as (r & c' & E & Hnp & Hok); [lia|]. rewrite E.
  destruct r as [data|e|]; [|right; right; intros Hh; by destruct (Hok Hh)|done].
  destruct (get_sector_spec _ _ _ _ Hc Hl E) as (_ & Hc' & _ & Hb' & _ & [Hdl Hdc] & _).
  destruct (Hdc lba eq_refl) as [_ Hj]. simpl in Hdl, Hj.
  pose proof (zlen_nonneg data). rewrite Hb'.
  rewrite copy_from_slice_Some by lia. split_and!; [done|rewrite zlen_zsplice; lia|].
  intros k Hk. rewrite znth_zsplice by lia. rewrite Hdl, Z.add_0_l, Z.sub_0_r.
  destruct (Z.leb_spec 0 k); [simpl|lia].
  destruct (Z.ltb_spec k (bytes_per_sector c)); [|done]. by rewrite Hj by lia.
Qed.

(** A sector just read is served from memory: the second [read_sector] of the
    same LBA succeeds without touching the device or the cache. *)
Theorem read_sector_hit {D} `{LawfulDevice D} (c c1 : BlockCache D) (lba : Z)
    (buf buf1 buf2 : list Z) :
  cache_inv c -> 0 <= lba -> read_sector c lba buf = (Ok tt, buf1, c1) ->
  bytes_per_sector c <= zlen buf2 ->
  exists buf3, read_sector c1 lba buf2 = (Ok tt, buf3, c1)
  /\ zslice buf3 0 (bytes_per_sector c) = zslice buf1 0 (bytes_per_sector c).
Proof.
  intros Hc Hl Hread Hb2.
  assert (bytes_per_sector c <= zlen buf /\ lba < total_sectors (bc_inner c)) as [Hb Ht].
  { unfold read_sector in Hread.
    destruct (Z.ltb_spec (zlen buf) (bytes_per_sector c)); [done|].
    destruct (Z.leb_spec (total_sectors (bc_inner c)) lba); done. }
  rewrite read_sector_get in Hread by done.
  destruct (get_sector c lba) as [[data|e|] c'] eqn:E; try done.
  destruct (get_sector_spec _ _ _ _ Hc Hl E) as (_ & Hc' & [_ Hg] & Hb' & _ & [Hdl _] & n & Hn).
  simpl in Hdl. pose proof (zlen_nonneg data). rewrite Hb' in Hread.
  rewrite copy_from_slice_Some in Hread by lia. injection Hread as <- <-.
  assert (get_sector c' lba = (Ok data, c')) as E2.
  { unfold get_sector. rewrite Hg, (proj2 (Z.leb_gt _ _)) by lia.
    destruct (cache_lookup c' lba) as [m|] eqn:El.
    - destruct (lookup_entry_Some _ _ _ El) as (e & He & Hte).
      destruct Hc' as (_ & _ & _ & [_ Hu]).
      assert (m = n) as -> by (eapply Hu; eauto; done). by rewrite Hn.
    - unfold cache_lookup in El. rewrite lookup_entry_None in El. by apply El in Hn. }
  exists (zsplice buf2 0 data). rewrite read_sector_get by (rewrite ?Hb', ?Hg; done).
  rewrite E2, Hb', copy_from_slice_Some by lia. split; [done|].
  apply (znth_ext 0).
  - rewrite !zlen_zslice; rewrite ?zlen_zsplice; lia.
  - rewrite zlen_zslice by (rewrite ?zlen_zsplice; lia). intros k Hk.
    rewrite !znth_zslice by (rewrite ?zlen_zsplice; lia).
    rewrite !znth_zsplice by lia. rewrite Hdl.
    by rewrite (proj2 (Z.leb_le _ _)), (proj2 (Z.ltb_lt _ _)) by lia.
Qed.

(** Read-after-write: on a fault-free device, writing a sector and reading it
    back through the cache returns the bytes written, whatever was cached. *)
Theorem write_sector_read_back {D} `{LawfulDevice D} (c : BlockCache D) (lba : Z)
    (data buf : list Z) :
  cache_inv c -> healthy (bc_inner c) -> 0 <= lba < total_sectors (bc_inner c) ->
  bytes_per_sector c <= zlen data -> bytes_per_sector c <= zlen buf ->
  exists c1 buf' c2, write_sector c lba data = (Ok tt, c1)
  /\ read_sector c1 lba buf = (Ok tt, buf', c2)
  /\ forall k, 0 <= k < bytes_per_sector c -> znth 0 buf' k = znth 0 data k.
Proof.
  intros Hc Hh Hl Hd Hb. destruct (write_sector c lba data) as [r c1] eqn:Ew.
  destruct (write_sector_spec _ _ _ _ _ Hc Hl Hd Ew) as (Hc1 & [_ Ht] & Hb1 & Hw & Hhe).
  destruct (Hhe Hh) as [-> Hh1]. specialize (Hw eq_refl).
  destruct (get_sector_total c1 lba Hc1) as (r & c2 & E & _ & Hok); [lia|].
  destruct (Hok Hh1) as [bytes ->].
  destruct (get_sector_spec c1 lba _ _ Hc1 ltac:(lia) E) as (_ & _ & _ & Hb2 & _ & [Hbl Hbc] & _).
  destruct (Hbc lba eq_refl) as [_ Hj]. simpl in Hbl, Hj.
  exists c1, (zsplice buf 0 bytes), c2. split; [done|].
  rewrite read_sector_get, E by lia. pose proof (zlen_nonneg bytes).
  rewrite copy_from_slice_Some by lia. split; [done|].
  intros k Hk. rewrite znth_zsplice by lia. rewrite Hbl, Z.add_0_l, Z.sub_0_r, Hb1.
  rewrite (proj2 (Z.leb_le _ _)), (proj2 (Z.ltb_lt _ _)) by lia. simpl.
  rewrite Hj, Hb1 by lia. by apply Hw.
Qed.

(** A 4-sector medium whose sector 1 is faulty. *)
Definition faulty_disk : RamDisk.t :=
  RamDisk.mk 4 ([10; 11; 12; 13] ++ [20; 21; 22; 23] ++ [30; 31; 32; 33] ++ [40; 41; 42; 43]) [1].

(** A device error in [read_sector] poisons the cache: the failed read of
    sector 1 overwrites the buffer of the evicted slot but leaves it tagged with
    sector 0, so the next read of sector 0 succeeds with bytes that are not on
    the medium. *)
Theorem read_sector_error_poisons :
  exists c, cache_new faulty_disk 1 = Some c /\ cache_inv c
  /\ let '(r0, b0, c0) := read_sector c 0 [0; 0; 0; 0] in
     let '(r1, b1, c1) := read_sector c0 1 [0; 0; 0; 0] in
     let '(r2, b2, c2) := read_sector c1 0 [0; 0; 0; 0] in
     r0 = Ok tt /\ b0 = [10; 11; 12; 13] /\ r1 = Err Device
     /\ r2 = Ok tt /\ b2 = [255; 255; 255; 255]
     /\ map (disk (bc_inner c2)) [0; 1; 2; 3] = [10; 11; 12; 13].
Proof.
  destruct (cache_new_inv faulty_disk 1) as (c & Hn & Hi & _); [|done|].
  { by apply (RamDisk.inv_check _ 4). }
  exists c. split_and!; [done|done|]. injection Hn as <-. by vm_compute.
Qed.

(** ** Witnesses: a fault-free 4-sector medium behind a 2-slot cache *)
Definition demo_disk : RamDisk.t :=
  RamDisk.mk 4 ([10; 11; 12; 13] ++ [20; 21; 22; 23] ++ [30; 31; 32; 33] ++ [40; 41; 42; 43]) [].

Definition demo_cache : BlockCache RamDisk.t :=
  mkCache demo_disk 4 (replicate 2 (None, [0; 0; 0; 0])) 0.

Lemma demo_disk_inv : dev_inv demo_disk.
Proof. by apply (RamDisk.inv_check _ 4). Qed.

Lemma demo_cache_inv : cache_inv demo_cache.
Proof.
  destruct (cache_new_inv demo_disk 2 demo_disk_inv) as (c & Hn & Hi & _); [done|].
  by injection Hn as <-.
Qed.

Lemma demo_range lba count buf :
  (0 <=? lba) && (0 <=? count) && (lba + count <=? 4) && (count * 4 <=? zlen buf) = true ->
  in_range demo_cache lba count buf.
Proof.
  intros E. bool_to_prop. unfold in_range, u16_max.
  change (total_sectors demo_cache) with 4. change (sector_size demo_cache) with 4. lia.
Qed.

Lemma cache_read_sectors_correct_witness :
  cache_inv (read_sectors demo_cache 1 2 (replicate 9 7)).2
  /\ zlen (read_sectors demo_cache 1 2 (replicate 9 7)).1.2 = 9.
Proof.
  destruct (cache_read_sectors_correct demo_cache _ 1 2 (replicate 9 7) _ _ demo_cache_inv
    (demo_range 1 2 (replicate 9 7) eq_refl) eq_refl) as (_ & Hi & _ & Hl & _).
  split; [exact Hi|]. exact Hl.
Defined.

Lemma cache_write_sectors_correct_witness :
  cache_inv (write_sectors demo_cache 1 2 [1; 2; 3; 4; 5; 6; 7; 8]).2
  /\ (write_sectors demo_cache 1 2 [1; 2; 3; 4; 5; 6; 7; 8]).1 = Ok tt.
Proof.
  destruct (cache_write_sectors_correct demo_cache _ 1 2 [1; 2; 3; 4; 5; 6; 7; 8] _
    demo_cache_inv (demo_range 1 2 [1; 2; 3; 4; 5; 6; 7; 8] eq_refl) eq_refl)
    as (_ & Hi & _ & _ & Hh).
  split; [exact Hi|]. apply Hh. reflexivity.
Defined.

Lemma cache_transparent_witness :
  let reqs := [ReadReq 0 2 (replicate 8 0); WriteReq 1 1 [1; 2; 3; 4]; ReadReq 0 3 (replicate 12 0)] in
  run_requests demo_cache reqs = run_requests demo_disk reqs.
Proof.
  intros reqs. apply (cache_transparent demo_disk demo_cache 2 reqs demo_disk_inv);
    [reflexivity|reflexivity|].
  repeat (apply Forall_cons; split); try apply Forall_nil; try done;
    (apply demo_range; reflexivity).
Defined.

Lemma read_sector_correct_witness :
  match read_sector demo_cache 3 (replicate 5 9) with
  | (Ok _, buf', c') => cache_inv c' /\ znth 0 buf' 1 = 41 /\ znth 0 buf' 4 = 9
  | _ => False
  end.
Proof.
  pose proof (read_sector_correct demo_cache 3 (replicate 5 9) demo_cache_inv ltac:(lia)) as H.
  destruct (read_sector demo_cache 3 (replicate 5 9)) as [[[[]| |] b] c'] eqn:E; try discriminate.
  destruct H as (Hi & _ & Hk). split; [exact Hi|]. split.
  - rewrite (Hk 1) by (split; [lia|reflexivity]). reflexivity.
  - rewrite (Hk 4) by (split; [lia|reflexivity]). reflexivity.
Defined.

Lemma read_sector_hit_witness :
  exists buf3, read_sector (read_sector demo_cache 2 (replicate 4 0)).2 2 (replicate 6 0)
  = (Ok tt, buf3, (read_sector demo_cache 2 (replicate 4 0)).2).
Proof.
  destruct (read_sector_hit demo_cache (read_sector demo_cache 2 (replicate 4 0)).2 2
    (replicate 4 0) [30; 31; 32; 33] (replicate 6 0) demo_cache_inv) as (b & Hb & _);
    [lia|reflexivity|vm_compute; discriminate|].
  exists b. exact Hb.
Defined.

Lemma write_sector_read_back_witness :
  exists c1 buf' c2, write_sector demo_cache 2 [1; 2; 3; 4] = (Ok tt, c1)
  /\ read_sector c1 2 [0; 0; 0; 0] = (Ok tt, buf', c2) /\ znth 0 buf' 3 = 4.
Proof.
  destruct (write_sector_read_back demo_cache 2 [1; 2; 3; 4] [0; 0; 0; 0] demo_cache_inv)
    as (c1 & b & c2 & H1 & H2 & H3); [reflexivity|split; [lia|reflexivity]|done|done|].
  exists c1, b, c2. split; [exact H1|]. split; [exact H2|].
  rewrite (H3 3) by (split; [lia|reflexivity]). reflexivity.
Defined.
