(* ===== verification/FatDevice.v ===== *)
(** * The FAT byte stream (genome/src/fat/block_device.rs)

    [FatDevice] turns a block device into the seekable byte stream the FAT
    library reads and writes: [read] crosses sectors, [write] is a
    read-modify-write of one sector, [seek] clamps to the medium. *)

From S2P Require Import Prelude Block.

Inductive FatBlockError : Type :=
| FatDeviceError (error : BlockError)
| FatUnexpectedEof
| FatWriteZero.

Record FatDevice (D : Type) : Type := mkFat {
  fat_device : D;
  fat_pos : Z;
  fat_bps : Z;
  fat_total : Z;
  fat_scratch : list Z
}.
Arguments mkFat {D} _ _ _ _ _.
Arguments fat_device {D} _.
Arguments fat_pos {D} _.
Arguments fat_bps {D} _.
Arguments fat_total {D} _.
Arguments fat_scratch {D} _.

Section FatDevice.
Context {D : Type} `{BlockDevice D}.
Implicit Types f : FatDevice D.

Definition fat_new (device : D) : FatDevice D :=
  mkFat device 0 (sector_size device)
    (u64_saturating_mul (total_sectors device) (sector_size device))
    (replicate (Z.to_nat (sector_size device)) 0).

(** The device and the scratch sector after a transfer. *)
Definition fat_after f (d : D) (scratch : list Z) : FatDevice D :=
  mkFat d (fat_pos f) (fat_bps f) (fat_total f) scratch.
Definition fat_set_pos f (p : Z) : FatDevice D :=
  mkFat (fat_device f) p (fat_bps f) (fat_total f) (fat_scratch f).

(** The [while written < len] loop of [read]; running out of fuel is reported
    as a panic, so the theorems also show that it does not happen. *)
Fixpoint fat_read_loop (fuel : nat) f (buf : list Z) (written len : Z)
  : result FatBlockError Z * list Z * FatDevice D :=
  if written <? len then
    match fuel with
    | O => (Panic, buf, f)
    | S fuel' =>
        let current_pos := fat_pos f + written in
        let sector := current_pos / fat_bps f in
        let offset := current_pos mod fat_bps f in
        let '(r, scratch', d') := read_sectors (fat_device f) sector 1 (fat_scratch f) in
        let f1 := fat_after f d' scratch' in
        match r with
        | Err e => (Err (FatDeviceError e), buf, f1)
        | Panic => (Panic, buf, f1)
        | Ok _ =>
            let available := Z.min (fat_bps f - offset) (len - written) in
            match copy_from_slice buf written available (zslice scratch' offset available) with
            | None => (Panic, buf, f1)
            | Some buf' => fat_read_loop fuel' f1 buf' (written + available) len
            end
        end
    end
  else (Ok written, buf, f).

(** [Read::read]. Each round copies at least one byte. *)
Definition fat_read f (buf : list Z) : result FatBlockError Z * list Z * FatDevice D :=
  if fat_total f <=? fat_pos f then (Ok 0, buf, f)
  else
    let endp := Z.min (u64_saturating_add (fat_pos f) (zlen buf)) (fat_total f) in
    let len := endp - fat_pos f in
    let '(r, buf', f') := fat_read_loop (Z.to_nat len) f buf 0 len in
    match r with
    | Ok written => (Ok written, buf', fat_set_pos f' (fat_pos f' + written))
    | _ => (r, buf', f')
    end.

(** [Write::write]: at most the rest of one sector. *)
Definition fat_write f (buf : list Z) : result FatBlockError Z * FatDevice D :=
  if (zlen buf =? 0) || (fat_total f <=? fat_pos f) then (Ok 0, f)
  else
    let sector := fat_pos f / fat_bps f in
    let offset := fat_pos f mod fat_bps f in
    let remaining := fat_total f - fat_pos f in
    let write_len := Z.min (Z.min (zlen buf) remaining) (u64_saturating_sub (fat_bps f) offset) in
    if write_len =? 0 then (Ok 0, f)
    else
      let '(r, f1) :=
        if (0 <? offset) || (write_len <? fat_bps f) then
          let '(r, scratch', d') := read_sectors (fat_device f) sector 1 (fat_scratch f) in
          (map_err FatDeviceError r, fat_after f d' scratch')
        else (Ok tt, f) in
      match r with
      | Err e => (Err e, f1)
      | Panic => (Panic, f1)
      | Ok _ =>
          match copy_from_slice (fat_scratch f1) offset write_len (zslice buf 0 write_len) with
          | None => (Panic, f1)
          | Some scratch2 =>
              let '(r2, d2) := write_sectors (fat_device f1) sector 1 scratch2 in
              let f2 := fat_after f1 d2 scratch2 in
              match r2 with
              | Err e => (Err (FatDeviceError e), f2)
              | Panic => (Panic, f2)
              | Ok _ => (Ok write_len, fat_set_pos f2 (fat_pos f2 + write_len))
              end
          end
      end.

(** [Seek::seek]. *)
Definition fat_seek f (pos : SeekFrom) : Z * FatDevice D :=
  let new_pos :=
    match pos with
    | SeekStart offset => offset
    | SeekEnd offset => u64_saturating_add_signed (fat_total f) offset
    | SeekCurrent offset => u64_saturating_add_signed (fat_pos f) offset
    end in
  let p := Z.min new_pos (fat_total f) in
  (p, fat_set_pos f p).
End FatDevice.

Section FatLaws.
Context {D : Type} `{LawfulDevice D}.
Implicit Types f : FatDevice D.

(** The stream invariant: geometry copied from the device, a sector-sized
    scratch buffer, the position on the medium or at its end. *)
Definition fat_inv f : Prop :=
  dev_inv (fat_device f) /\ fat_bps f = sector_size (fat_device f)
  /\ fat_total f = media_bytes (fat_device f) /\ fat_total f <= u64_max
  /\ zlen (fat_scratch f) = fat_bps f /\ 0 <= fat_pos f <= fat_total f.

Lemma fat_new_inv (d : D) :
  dev_inv d -> media_bytes d <= u64_max -> fat_inv (fat_new d).
Proof.
  intros Hi Hm. destruct (law_geometry _ Hi) as [? ?].
  unfold fat_inv, fat_new, media_bytes, u64_saturating_mul in *. simpl.
  rewrite zlen_replicate, Z.min_l by lia. split_and!; try done; nia.
Qed.

Lemma fat_after_inv f d scratch :
  fat_inv f -> keeps (fat_device f) d -> zlen scratch = fat_bps f ->
  fat_inv (fat_after f d scratch).
Proof.
  intros (Hi & Hb & Ht & Hm & Hs & Hp) (Hi' & [Hg1 Hg2] & _) Hl.
  unfold fat_inv, media_bytes in *. simpl. rewrite Hg1, Hg2. tauto.
Qed.

(** Position, sector and offset of a byte of the medium. *)
Lemma pos_sector f p :
  fat_inv f -> 0 <= p < fat_total f ->
  0 <= p / fat_bps f < total_sectors (fat_device f)
  /\ 0 <= p mod fat_bps f < fat_bps f
  /\ p = p / fat_bps f * fat_bps f + p mod fat_bps f.
Proof.
  intros (Hi & Hb & Ht & _) Hp. destruct (law_geometry _ Hi) as [? ?]. rewrite Hb in *.
  unfold media_bytes in *. pose proof (Z.mod_pos_bound p (sector_size (fat_device f))).
  pose proof (Z.div_mod p (sector_size (fat_device f))).
  split_and!; try lia; [apply Z.div_pos; lia|apply Z.div_lt_upper_bound; lia].
Qed.

(** The bytes of [buf'] once [n] bytes from media position [p] replace the
    start of [buf]. *)
Definition filled (d : D) (p n : Z) (buf buf' : list Z) : Prop :=
  zlen buf' = zlen buf /\ forall k, 0 <= k < zlen buf ->
    znth 0 buf' k = if k <? n then disk d (p + k) else znth 0 buf k.

Lemma fat_read_loop_spec fuel : forall f (d0 : D) buf0 buf written len r buf' f',
  fat_inv f -> keeps d0 (fat_device f) ->
  0 <= written <= len -> len <= zlen buf0 -> fat_pos f + len <= fat_total f ->
  len - written <= Z.of_nat fuel -> filled d0 (fat_pos f) written buf0 buf ->
  fat_read_loop fuel f buf written len = (r, buf', f') ->
  r <> Panic /\ fat_inv f' /\ keeps d0 (fat_device f') /\ fat_pos f' = fat_pos f
  /\ zlen buf' = zlen buf0
  /\ (forall n, r = Ok n -> n = len /\ filled d0 (fat_pos f) len buf0 buf')
  /\ (healthy d0 -> exists n, r = Ok n).
Proof.
  induction fuel as [|fuel IH]; intros f d0 buf0 buf written len r buf' f' Hf Hk Hw Hl Ht Hfu Hb E;
    simpl in E; destruct (Z.ltb_spec written len) as [Hlt|Hge]; try lia.
  1, 3: injection E as <- <- <-; assert (written = len) as -> by lia; pose proof (proj1 Hb);
    split_and!; try done; [by intros n [= <-]|by eexists].
  destruct (pos_sector f (fat_pos f + written) Hf) as (Hsec & Hoff & Hpos).
  { destruct Hf as (_ & _ & _ & _ & _ & ?). lia. }
  set (sec := (fat_pos f + written) / fat_bps f) in *.
  set (off := (fat_pos f + written) mod fat_bps f) in *.
  pose proof Hf as (Hi & Hbps & Htot & Hmax & Hscr & Hp).
  destruct (read_sectors (fat_device f) sec 1 (fat_scratch f)) as [[r0 scr] d'] eqn:Er.
  destruct (read_one _ _ _ _ _ _ Hi Hsec (eq_trans Hscr Hbps) Er) as (Hnp & Hkd & Hsl & Hok & Hh).
  assert (fat_inv (fat_after f d' scr)) as Hf1 by (apply fat_after_inv; [done|done|lia]).
  pose proof (keeps_trans _ _ _ Hk Hkd) as Hk'. pose proof Hb as [Hbl Hbc].
  destruct r0 as [[]|e|]; [| |done].
  2: { injection E as <- <- <-. split_and!; try done.
       intros Hd0. destruct Hk as (_ & _ & _ & Hkh). by specialize (Hh (Hkh Hd0)). }
  set (av := Z.min (fat_bps f - off) (len - written)) in *.
  assert (zlen (zslice scr off av) = av) as Hzl by (apply zlen_zslice; lia).
  rewrite copy_from_slice_Some in E by lia.
  apply (IH _ d0 buf0) in E; try done; try (simpl; lia). simpl.
  split; [rewrite zlen_zsplice; lia|]. intros k Hkk.
  rewrite znth_zsplice by lia. rewrite Hzl, Hbc by lia.
  destruct (Z.leb_spec written k), (Z.ltb_spec k (written + av)); simpl; try (
    destruct (Z.ltb_spec k written); try lia; done).
  rewrite znth_zslice by lia. rewrite (Hok eq_refl) by lia.
  destruct Hk as (_ & [Hg1 Hg2] & Hdk & _).
  unfold media_bytes in *. rewrite Hdk; [f_equal; lia|]. nia.
Qed.

(** What [read] does, from the loop. *)
Lemma fat_read_spec f buf r buf' f' :
  fat_inv f -> fat_read f buf = (r, buf', f') ->
  let n := Z.min (zlen buf) (fat_total f - fat_pos f) in
  r <> Panic /\ fat_inv f' /\ keeps (fat_device f) (fat_device f')
  /\ (forall m, r = Ok m -> m = n /\ fat_pos f' = fat_pos f + n
      /\ filled (fat_device f) (fat_pos f) n buf buf')
  /\ (forall e, r = Err e -> fat_pos f' = fat_pos f)
  /\ (healthy (fat_device f) -> r = Ok n).
Proof.
  intros Hf E n. pose proof Hf as (Hi & Hb & Ht & Hm & Hs & Hp).
  pose proof (zlen_nonneg buf). pose proof (keeps_refl _ Hi). unfold fat_read in E.
  destruct (Z.leb_spec (fat_total f) (fat_pos f)).
  { assert (n = 0) as Hn by lia. rewrite Hn. injection E as <- <- <-.
    split_and!; try done. intros m [= <-]. split_and!; try done; [lia|].
    split; [done|]. intros k Hk. by rewrite (proj2 (Z.ltb_ge k 0)) by lia. }
  unfold u64_saturating_add in E.
  replace (Z.min (Z.min (fat_pos f + zlen buf) u64_max) (fat_total f) - fat_pos f)
    with n in E by lia.
  destruct (fat_read_loop (Z.to_nat n) f buf 0 n) as [[r0 b0] f0] eqn:El.
  apply (fat_read_loop_spec _ f (fat_device f) buf) in El
    as (Hnp & Hf0 & Hk0 & Hp0 & Hbl & Hok & Hh); try done; try lia.
  2: { split; [done|]. intros k Hk. by rewrite (proj2 (Z.ltb_ge k 0)) by lia. }
  destruct r0 as [m|e|]; injection E as <- <- <-; [| |done].
  - destruct (Hok m eq_refl) as [-> Hfill]. split_and!; try done.
    + destruct Hf0 as (? & ? & Ht0 & ? & ? & ?). unfold fat_inv. simpl. split_and!; try done.
      * lia.
      * rewrite Hp0, Ht0. destruct Hk0 as (_ & [Hg1 Hg2] & _).
        unfold media_bytes in *. rewrite Hg1, Hg2. lia.
    + intros m [= <-]. simpl. by rewrite Hp0.
  - split_and!; try done. intros Hhe. by destruct (Hh Hhe).
Qed.

(** The sector image [write] sends to the device. *)
Lemma fat_write_image f buf scr wl :
  let off := fat_pos f mod fat_bps f in
  0 <= off -> 0 <= wl <= zlen buf -> off + wl <= fat_bps f -> zlen scr = fat_bps f ->
  exists scr2, copy_from_slice scr off wl (zslice buf 0 wl) = Some scr2
  /\ zlen scr2 = fat_bps f
  /\ forall k, 0 <= k < fat_bps f -> znth 0 scr2 k =
       if (off <=? k) && (k <? off + wl) then znth 0 buf (k - off) else znth 0 scr k.
Proof.
  intros off Ho Hw Hle Hs.
  assert (zlen (zslice buf 0 wl) = wl) as Hz by (apply zlen_zslice; lia).
  rewrite copy_from_slice_Some by lia. eexists. split; [done|].
  split; [rewrite zlen_zsplice; lia|]. intros k Hk. rewrite znth_zsplice, Hz by lia.
  destruct ((off <=? k) && (k <? off + wl)) eqn:Ei; [|done]. bool_to_prop.
  by rewrite znth_zslice by lia.
Qed.

(** The number of bytes one [write] transfers. *)
Definition write_span f (buf : list Z) : Z :=
  Z.min (Z.min (zlen buf) (fat_total f - fat_pos f)) (fat_bps f - fat_pos f mod fat_bps f).

(** The medium after [wl] bytes of [buf] are stored at position [p]. *)
Definition stored (d d' : D) (p wl : Z) (buf : list Z) : Prop :=
  forall x, 0 <= x < media_bytes d ->
    disk d' x = if (p <=? x) && (x <? p + wl) then znth 0 buf (x - p) else disk d x.

(** The last step of [write]: sending a sector image that differs from the
    medium's sector only in the bytes to store. *)
Lemma fat_write_commit f (d1 : D) scr2 buf wl r2 d2 :
  let off := fat_pos f mod fat_bps f in
  let sec := fat_pos f / fat_bps f in
  fat_inv f -> fat_pos f < fat_total f -> keeps (fat_device f) d1 ->
  0 <= wl -> off + wl <= fat_bps f -> zlen scr2 = fat_bps f ->
  (forall k, 0 <= k < fat_bps f -> znth 0 scr2 k =
     if (off <=? k) && (k <? off + wl) then znth 0 buf (k - off)
     else disk (fat_device f) (sec * fat_bps f + k)) ->
  write_sectors d1 sec 1 scr2 = (r2, d2) ->
  r2 <> Panic /\ dev_inv d2 /\ same_geometry (fat_device f) d2
  /\ (r2 = Ok tt -> stored (fat_device f) d2 (fat_pos f) wl buf)
  /\ (healthy (fat_device f) -> r2 = Ok tt /\ healthy d2).
Proof.
  intros off sec Hf Hlt (Hi1 & [Hg1 Hg2] & Hd1 & Hh1) Hw Hle Hl Himg E.
  destruct (pos_sector f (fat_pos f) Hf) as (Hsec & Hoff & Hpos);
    [destruct Hf as (_ & _ & _ & _ & _ & ?); lia|]. fold sec in Hsec, Hpos. fold off in Hoff, Hpos.
  pose proof Hf as (Hi & Hb & Ht & _).
  destruct (write_one d1 sec scr2 r2 d2) as (Hnp & Hi2 & [Hg3 Hg4] & Hout & Hin & Hhe);
    try done; [by rewrite Hg2|by rewrite Hg1, <- Hb|].
  split_and!; try done; try (unfold same_geometry; split; congruence); [|intros; apply Hhe; auto].
  intros Hr x Hx. unfold in_sectors, media_bytes in *. rewrite Hg1, Hg2, <- Hb in *.
  destruct (Z.leb_spec (sec * fat_bps f) x) as [H1|H1];
    [destruct (Z.ltb_spec x ((sec + 1) * fat_bps f)) as [H2|H2]|].
  - specialize (Hin Hr (x - sec * fat_bps f)).
    replace (sec * fat_bps f + (x - sec * fat_bps f)) with x in Hin by lia.
    rewrite Hin, Himg by lia. rewrite Hpos.
    replace (sec * fat_bps f + (x - sec * fat_bps f)) with x by lia.
    replace (off <=? x - sec * fat_bps f) with (sec * fat_bps f + off <=? x)
      by (apply eq_bool_prop_intro; rewrite !Is_true_true, !Z.leb_le; lia).
    replace (x - sec * fat_bps f <? off + wl) with (x <? sec * fat_bps f + off + wl)
      by (apply eq_bool_prop_intro; rewrite !Is_true_true, !Z.ltb_lt; lia).
    destruct (_ && _); [f_equal; lia|done].
  - rewrite Hout, Hd1 by (rewrite ?andb_false_iff, ?Z.leb_gt, ?Z.ltb_ge; lia).
    by rewrite (proj2 (Z.ltb_ge x (fat_pos f + wl))), andb_false_r by lia.
  - rewrite Hout, Hd1 by (rewrite ?andb_false_iff, ?Z.leb_gt, ?Z.ltb_ge; lia).
    by rewrite (proj2 (Z.leb_gt (fat_pos f) x)) by lia.
Qed.

(** Loading the sector before a partial write. *)
Lemma fat_write_load f wl r1 f1 :
  let off := fat_pos f mod fat_bps f in
  let sec := fat_pos f / fat_bps f in
  fat_inv f -> fat_pos f < fat_total f ->
  (if (0 <? off) || (wl <? fat_bps f) then
     let '(r, scratch', d') := read_sectors (fat_device f) sec 1 (fat_scratch f) in
     (map_err FatDeviceError r, fat_after f d' scratch')
   else (Ok tt, f)) = (r1, f1) ->
  r1 <> Panic /\ keeps (fat_device f) (fat_device f1) /\ fat_inv f1
  /\ fat_pos f1 = fat_pos f /\ fat_bps f1 = fat_bps f /\ fat_total f1 = fat_total f
  /\ (r1 = Ok tt -> off = 0 /\ fat_bps f <= wl
      \/ forall k, 0 <= k < fat_bps f ->
         znth 0 (fat_scratch f1) k = disk (fat_device f) (sec * fat_bps f + k))
  /\ (healthy (fat_device f) -> r1 = Ok tt).
Proof.
  intros off sec Hf Hlt E.
  destruct (pos_sector f (fat_pos f) Hf) as (Hsec & Hoff & Hpos);
    [destruct Hf as (_ & _ & _ & _ & _ & ?); lia|].
  pose proof Hf as (Hi & Hb & Ht & Hm & Hs & Hp). pose proof (keeps_refl _ Hi).
  destruct ((0 <? off) || (wl <? fat_bps f)) eqn:Ec.
  - destruct (read_sectors _ _ _ _) as [[r scr] d'] eqn:Er. injection E as <- <-.
    destruct (read_one _ _ _ _ _ _ Hi Hsec (eq_trans Hs Hb) Er) as (Hnp & Hk & Hl & Hok & Hh).
    rewrite <- Hb in *. split_and!; try done; simpl.
    + by destruct r.
    + by apply fat_after_inv.
    + intros Hr. right. apply Hok. by destruct r as [[]| |].
    + intros Hhe. by rewrite (Hh Hhe).
  - injection E as <- <-. apply orb_false_iff in Ec as [E1 E2]. bool_to_prop.
    split_and!; try done. intros _. left. fold off in Hoff. lia.
Qed.

Lemma fat_write_spec f buf r f' :
  fat_inv f -> fat_write f buf = (r, f') ->
  r <> Panic /\ fat_inv f' /\ same_geometry (fat_device f) (fat_device f')
  /\ (forall m, r = Ok m -> m = write_span f buf /\ fat_pos f' = fat_pos f + m
      /\ stored (fat_device f) (fat_device f') (fat_pos f) m buf)
  /\ (forall e, r = Err e -> fat_pos f' = fat_pos f)
  /\ (healthy (fat_device f) -> r = Ok (write_span f buf) /\ healthy (fat_device f')).
Proof.
  intros Hf E. pose proof Hf as (Hi & Hb & Ht & Hm & Hs & Hp). pose proof (zlen_nonneg buf).
  destruct (law_geometry _ Hi) as [Hss _].
  pose proof (Z.mod_pos_bound (fat_pos f) (fat_bps f) ltac:(lia)) as Hmod.
  assert (stored (fat_device f) (fat_device f) (fat_pos f) 0 buf) as Hst0.
  { intros x Hx. destruct (Z.leb_spec (fat_pos f) x); [|done].
    by rewrite (proj2 (Z.ltb_ge x (fat_pos f + 0))) by lia. }
  unfold fat_write in E. destruct ((zlen buf =? 0) || (fat_total f <=? fat_pos f)) eqn:E0.
  { injection E as <- <-. assert (write_span f buf = 0) as Hn.
    { unfold write_span. apply orb_true_iff in E0 as [?|?]; bool_to_prop; lia. }
    rewrite Hn. split_and!; try done. intros m [= <-]. split_and!; [done|lia|done]. }
  apply orb_false_iff in E0 as [Hne Hlt]. bool_to_prop.
  unfold u64_saturating_sub in E. rewrite (Z.max_l (_ - _) 0) in E by lia. fold (write_span f buf) in E.
  assert (0 < write_span f buf) as Hpos by (unfold write_span; lia).
  rewrite (proj2 (Z.eqb_neq (write_span f buf) 0)) in E by lia.
  set (wl := write_span f buf) in *.
  assert (wl <= zlen buf /\ fat_pos f mod fat_bps f + wl <= fat_bps f /\ fat_pos f + wl <= fat_total f)
    as (Hwl1 & Hwl2 & Hwl3) by (unfold wl, write_span; lia).
  match type of E with (let '(_, _) := ?x in _) = _ => destruct x as [r1 f1] eqn:E1 end.
  destruct (fat_write_load f wl r1 f1 Hf Hlt E1) as (Hnp1 & Hk1 & Hf1 & Hp1 & Hb1 & Ht1 & Hok1 & Hh1).
  destruct r1 as [[]|e|]; [|injection E as <- <-; split_and!; try done; [apply Hk1|]|done].
  2: { intros Hhe. by specialize (Hh1 Hhe). }
  pose proof Hf1 as (Hi1 & Hbb1 & Htt1 & _ & Hs1 & _).
  destruct (fat_write_image f buf (fat_scratch f1) wl) as (scr2 & Ecp & Hl2 & Himg); try lia.
  rewrite Ecp in E.
  destruct (write_sectors (fat_device f1) _ 1 scr2) as [r2 d2] eqn:Ew.
  apply (fat_write_commit f _ _ buf wl) in Ew as (Hnp2 & Hi2 & Hg2 & Hst & Hh2); try done; try lia.
  2: { intros k Hk. rewrite Himg by done. destruct (_ && _) eqn:Ei; [done|].
       destruct (Hok1 eq_refl) as [[Ho Hfull]|Hscr]; [|by apply Hscr].
       apply andb_false_iff in Ei as [?|?]; bool_to_prop; lia. }
  assert (forall p, 0 <= p <= fat_total f -> fat_inv (fat_set_pos (fat_after f1 d2 scr2) p)) as Hinv.
  { intros p Hp'. unfold fat_inv, media_bytes in *. simpl. destruct Hg2 as [Hgs Hgt].
    rewrite Hgs, Hgt, Hb1, Ht1. split_and!; try done; lia. }
  destruct r2 as [[]|e|]; injection E as <- <-; [| |done].
  - split_and!; simpl; try done.
    + apply Hinv. lia.
    + intros m [= <-]. rewrite Hp1. split_and!; auto.
    + intros Hhe. split; [done|]. by apply Hh2.
  - split_and!; simpl; try done.
    + apply (Hinv (fat_pos f1)). lia.
    + intros Hhe. by destruct (Hh2 Hhe).
Qed.
End FatLaws.

(** Reading the FAT byte stream: [read] delivers the bytes of the medium from
    the stream position on, as many as the buffer and the medium allow, across
    any number of sectors, leaves the rest of the buffer alone and advances the
    position by that count; it never panics, a fault-free device never fails,
    and after an error the position has not moved. *)
Theorem fat_read_correct {D} `{LawfulDevice D} (f : FatDevice D) (buf : list Z) :
  fat_inv f ->
  let n := Z.min (zlen buf) (fat_total f - fat_pos f) in
  match fat_read f buf with
  | (Ok m, buf', f') =>
      m = n /\ filled (fat_device f) (fat_pos f) n buf buf'
      /\ fat_inv f' /\ keeps (fat_device f) (fat_device f') /\ fat_pos f' = fat_pos f + n
  | (Err _, _, f') =>
      ~ healthy (fat_device f) /\ fat_inv f' /\ keeps (fat_device f) (fat_device f')
      /\ fat_pos f' = fat_pos f
  | (Panic, _, _) => False
  end.
Proof.
  intros Hf n. destruct (fat_read f buf) as [[r buf'] f'] eqn:E.
  destruct (fat_read_spec _ _ _ _ _ Hf E) as (Hnp & Hf' & Hk & Hok & He & Hh).
  destruct r as [m|e|]; [|split_and!; eauto|done].
  - destruct (Hok m eq_refl) as (? & ? & ?). by split_and!.
  - intros Hhe. by specialize (Hh Hhe).
Qed.

(** C30. Writing the FAT byte stream: one [write] stores a prefix of the buffer at
    the stream position, up to the end of the sector, changes no other byte of
    the medium (the read-modify-write preserves the rest of the sector), and
    makes progress whenever there is something to write and room for it. *)
Theorem fat_write_correct {D} `{LawfulDevice D} (f : FatDevice D) (buf : list Z) :
  fat_inv f ->
  match fat_write f buf with
  | (Ok m, f') =>
      m = Z.min (Z.min (zlen buf) (fat_total f - fat_pos f)) (fat_bps f - fat_pos f mod fat_bps f)
      /\ (0 < zlen buf -> fat_pos f < fat_total f -> 0 < m)
      /\ stored (fat_device f) (fat_device f') (fat_pos f) m buf
      /\ fat_inv f' /\ fat_pos f' = fat_pos f + m
  | (Err _, f') => ~ healthy (fat_device f) /\ fat_inv f' /\ fat_pos f' = fat_pos f
  | (Panic, _) => False
  end.
Proof.
  intros Hf. destruct (fat_write f buf) as [r f'] eqn:E.
  destruct (fat_write_spec _ _ _ _ Hf E) as (Hnp & Hf' & _ & Hok & He & Hh).
  destruct r as [m|e|]; [|split_and!; eauto|done].
  - destruct (Hok m eq_refl) as (Hm & ? & ?). split_and!; try done.
    intros. rewrite Hm. pose proof Hf as (Hi & Hb & _). destruct (law_geometry _ Hi) as [? _].
    pose proof (Z.mod_pos_bound (fat_pos f) (fat_bps f)). unfold write_span. lia.
  - intros Hhe. by destruct (Hh Hhe).
Qed.

(** Write, seek back, read: on a fault-free device the bytes a [write]
    accepted are the bytes a [read] at the same position returns. *)
Theorem fat_write_seek_read {D} `{LawfulDevice D} (f : FatDevice D) (data : list Z) :
  fat_inv f -> healthy (fat_device f) ->
  exists m f1 f2 f3, fat_write f data = (Ok m, f1)
  /\ fat_seek f1 (SeekStart (fat_pos f)) = (fat_pos f, f2)
  /\ fat_read f2 (replicate (Z.to_nat m) 0) = (Ok m, zslice data 0 m, f3).
Proof.
  intros Hf Hhe. destruct (fat_write f data) as [r f1] eqn:E.
  destruct (fat_write_spec _ _ _ _ Hf E) as (_ & Hf1 & [Hg1 Hg2] & Hok & _ & Hh).
  destruct (Hh Hhe) as [-> Hh1]. set (m := write_span f data) in *.
  destruct (Hok m eq_refl) as (_ & Hp1 & Hst). pose proof (zlen_nonneg data).
  pose proof Hf as (Hi & Hb & Ht & Hm & _ & Hp). pose proof Hf1 as (Hi1 & Hb1 & Ht1 & _ & Hs1 & Hpb1).
  destruct (law_geometry _ Hi) as [? _].
  pose proof (Z.mod_pos_bound (fat_pos f) (fat_bps f) ltac:(lia)).
  assert (fat_total f1 = fat_total f) as Htt.
  { rewrite Ht1, Ht. unfold media_bytes. by rewrite Hg1, Hg2. }
  assert (0 <= m <= zlen data) as Hml by (unfold m, write_span; lia).
  assert (fat_pos f + m <= fat_total f) as Hmt by (unfold m, write_span; lia).
  assert (fat_inv (fat_set_pos f1 (fat_pos f))) as Hf2.
  { unfold fat_inv in *. simpl. split_and!; try apply Hf1; lia. }
  destruct (fat_read (fat_set_pos f1 (fat_pos f)) (replicate (Z.to_nat m) 0)) as [[r3 b3] f3] eqn:E3.
  destruct (fat_read_spec _ _ _ _ _ Hf2 E3) as (_ & _ & _ & Hok3 & _ & Hh3). simpl in Hok3, Hh3.
  specialize (Hh3 Hh1). rewrite Htt, zlen_replicate, Z2Nat.id, Z.min_l in * by lia. subst r3.
  destruct (Hok3 m eq_refl) as (_ & _ & [Hl3 Hc3]). rewrite zlen_replicate, Z2Nat.id in * by lia.
  exists m, f1, (fat_set_pos f1 (fat_pos f)), f3. split_and!; [done| |].
  - unfold fat_seek. by rewrite Htt, Z.min_l by lia.
  - rewrite E3. repeat f_equal. apply (znth_ext 0); [rewrite zlen_zslice; lia|].
    intros k Hk. rewrite Hc3, znth_zslice, (proj2 (Z.ltb_lt _ _)) by lia. rewrite Hst by lia.
    rewrite (proj2 (Z.leb_le _ _)), (proj2 (Z.ltb_lt _ _)) by lia. simpl. f_equal. lia.
Qed.

(** ** Witnesses: a stream over 4-byte sectors, positioned inside sector 1 *)
Definition demo_stream : FatDevice RamDisk.t :=
  mkFat (RamDisk.mk 4 [10; 11; 12; 13; 20; 21; 22; 23; 30; 31; 32; 33] []) 5 4 12 [0; 0; 0; 0].

Lemma demo_stream_inv : fat_inv demo_stream.
Proof.
  unfold fat_inv. split_and!; try done. by apply (RamDisk.inv_check _ 3).
Qed.

Lemma fat_read_correct_witness :
  match fat_read demo_stream (replicate 5 9) with
  | (Ok m, buf', f') => m = 5 /\ fat_pos f' = 10 /\ znth 0 buf' 4 = 31
  | _ => False
  end.
Proof.
  pose proof (fat_read_correct demo_stream (replicate 5 9) demo_stream_inv) as Hr.
  destruct (fat_read demo_stream (replicate 5 9)) as [[[m| |] b] f'] eqn:E; try discriminate.
  destruct Hr as (Hm & [_ Hk] & _ & _ & Hp). split; [exact Hm|]. split; [exact Hp|].
  rewrite (Hk 4) by (split; [lia|reflexivity]). reflexivity.
Defined.

Lemma fat_write_correct_witness :
  match fat_write demo_stream [1; 2; 3; 4; 5] with
  | (Ok m, f') => m = 3 /\ fat_pos f' = 8 /\ disk (fat_device f') 4 = 20
  | _ => False
  end.
Proof.
  pose proof (fat_write_correct demo_stream [1; 2; 3; 4; 5] demo_stream_inv) as Hw.
  destruct (fat_write demo_stream [1; 2; 3; 4; 5]) as [[m| |] f'] eqn:E; try discriminate.
  destruct Hw as (Hm & _ & Hst & _ & Hp).
  assert (m = 3) as -> by (rewrite Hm; reflexivity).
  split; [reflexivity|]. split; [exact Hp|].
  rewrite (Hst 4) by (split; [lia|reflexivity]). reflexivity.
Defined.

Lemma fat_write_seek_read_witness :
  exists m f1 f2 f3, fat_write demo_stream [1; 2; 3; 4; 5] = (Ok m, f1)
  /\ fat_seek f1 (SeekStart 5) = (5, f2)
  /\ fat_read f2 (replicate (Z.to_nat m) 0) = (Ok m, zslice [1; 2; 3; 4; 5] 0 m, f3).
Proof. exact (fat_write_seek_read demo_stream [1; 2; 3; 4; 5] demo_stream_inv eq_refl). Defined.
