(* ===== verification/Mount.v ===== *)
(** * Mounting a FAT device (genome/src/fat/mod.rs)

    [mount_device] probes a raw device and builds the stack the file systems
    run on: the raw device or a partition of it, behind a 64-slot sector cache.
    The constructors of the two file systems are arguments: what matters here
    is the device they are handed. *)

From S2P Require Import Prelude Block Partition Cache.

(** [Box<dyn BlockDevice>] as [mount_device] fills it: the whole raw device or a
    partition of it. *)
Inductive BoxedDevice (D : Type) : Type :=
| Whole (device : D)
| Part (partition : PartitionBlockDevice D).
Arguments Whole {D} _.
Arguments Part {D} _.

Section Boxed.
Context {D : Type} `{BlockDevice D}.

#[global] Instance boxed_ops : BlockDevice (BoxedDevice D) := {
  read_sectors := fun b lba count buf =>
    match b with
    | Whole d => let '(r, buf', d') := read_sectors d lba count buf in (r, buf', Whole d')
    | Part p => let '(r, buf', p') := read_sectors p lba count buf in (r, buf', Part p')
    end;
  write_sectors := fun b lba count buf =>
    match b with
    | Whole d => let '(r, d') := write_sectors d lba count buf in (r, Whole d')
    | Part p => let '(r, p') := write_sectors p lba count buf in (r, Part p')
    end;
  sector_size := fun b => match b with Whole d => sector_size d | Part p => sector_size p end;
  total_sectors := fun b => match b with Whole d => total_sectors d | Part p => total_sectors p end
}.

(** The device handed back with a mount error: the raw device while probing,
    the cached stack from the exFAT constructor. *)
Inductive ReturnedDevice : Type :=
| RawBack (device : D)
| StackBack (cache : BlockCache (BoxedDevice D)).

Variable FS : Type.
Variable exfat_new : BlockCache (BoxedDevice D) -> result (FsError * option ReturnedDevice) FS.
Variable fat_new : BlockCache (BoxedDevice D) -> result FsError FS.

(** [mount_device]. *)
Definition mount_device (device : D) : result (FsError * option ReturnedDevice) FS :=
  let '(found, device1) := find_fat_partition device in
  match found with
  | Panic => Panic
  | Err error => Err (error, Some (RawBack device1))
  | Ok info =>
      let '(probe, device2) := read_boot_sector device1 (start_lba info) in
      match probe with
      | Panic => Panic
      | Err _ => Err (InvalidInput, Some (RawBack device2))
      | Ok boot =>
          let partition :=
            if start_lba info =? 0 then Whole device2
            else Part (mkPartition device2 (start_lba info) (info_total_sectors info)) in
          match cache_new partition 64 with
          | None => Panic
          | Some cached =>
              if is_exfat boot then exfat_new cached
              else map_err (fun error => (error, None)) (fat_new cached)
          end
      end
  end.
End Boxed.
Arguments ReturnedDevice : clear implicits.

Section BoxedLaws.
Context {D : Type} `{LawfulDevice D}.

#[global] Instance boxed_lawful : LawfulDevice (BoxedDevice D).
Proof.
  refine {|
    dev_inv := fun b => match b with Whole d => dev_inv d | Part p => dev_inv p end;
    healthy := fun b => match b with Whole d => healthy d | Part p => healthy p end;
    disk := fun b => match b with Whole d => disk d | Part p => disk p end |}.
  - intros [d|p] Hi; [exact (law_geometry d Hi)|exact (law_geometry p Hi)].
  - intros [d|p] lba count buf r buf' b' Hi Hr; cbn [read_sectors boxed_ops].
    + destruct (read_sectors d lba count buf) as [[r0 buf0] d0] eqn:E. intros [= <- <- <-].
      exact (law_read _ _ _ _ _ _ _ Hi Hr E).
    + destruct (read_sectors p lba count buf) as [[r0 buf0] p0] eqn:E. intros [= <- <- <-].
      exact (law_read _ _ _ _ _ _ _ Hi Hr E).
  - intros [d|p] lba count buf r b' Hi Hr; cbn [write_sectors boxed_ops].
    + destruct (write_sectors d lba count buf) as [r0 d0] eqn:E. intros [= <- <-].
      exact (law_write _ _ _ _ _ _ Hi Hr E).
    + destruct (write_sectors p lba count buf) as [r0 p0] eqn:E. intros [= <- <-].
      exact (law_write _ _ _ _ _ _ Hi Hr E).
Defined.

(** What a stack shows of the raw device [d]: the bytes from sector [start] on. *)
Definition stack_over (d : D) (start total : Z) (c : BlockCache (BoxedDevice D)) : Prop :=
  cache_inv c /\ healthy (bc_inner c)
  /\ sector_size (bc_inner c) = sector_size d /\ total_sectors c = total
  /\ forall x, 0 <= x < total * sector_size d ->
     disk (bc_inner c) x = disk d (start * sector_size d + x).

(** The extent [mount_device] gives to a partition: one that starts at sector 0
    is not wrapped and gets the whole device. *)
Definition mounted_total (d : D) (info : PartitionInfo) : Z :=
  if start_lba info =? 0 then total_sectors d else info_total_sectors info.

Lemma stack_of_partition (d d2 : D) (info : PartitionInfo) :
  keeps d d2 -> healthy d -> 0 <= start_lba info -> 0 <= info_total_sectors info ->
  start_lba info + info_total_sectors info <= total_sectors d ->
  exists c, cache_new (if start_lba info =? 0 then Whole d2
                   else Part (mkPartition d2 (start_lba info) (info_total_sectors info))) 64 = Some c
  /\ stack_over d (start_lba info) (mounted_total d info) c.
Proof.
  intros (Hi & [Hs Ht] & Hd & Hh) Hhe H1 H2 H3. destruct (law_geometry _ Hi) as [Hsr _].
  set (b := if start_lba info =? 0 then _ else _).
  assert (dev_inv b) as Hb.
  { unfold b. destruct (start_lba info =? 0); [done|]. unfold dev_inv. simpl.
    unfold partition_inv. simpl. by rewrite Ht. }
  destruct (cache_new_inv b 64 Hb) as (c & Hn & Hc & Hin); [done|].
  exists c. split; [done|]. unfold stack_over, mounted_total. simpl total_sectors. rewrite Hin.
  unfold b, media_bytes in *. rewrite Hs in *. destruct (Z.eqb_spec (start_lba info) 0) as [Hz|Hz].
  - rewrite Hz. split_and!; simpl; auto.
  - split_and!; simpl; auto. intros x Hx. unfold partition_disk. simpl.
    rewrite Hs. apply Hd. nia.
Qed.

(** Probing only reads. *)
Lemma read_boot_sector_keeps (d d' : D) lba r :
  dev_inv d -> 0 <= lba < total_sectors d -> read_boot_sector d lba = (r, d') -> keeps d d'.
Proof.
  intros Hi Hl E. unfold read_boot_sector in E. destruct (law_geometry _ Hi) as [Hs _].
  destruct (Z.ltb_spec (sector_size d) 512); [injection E as <- <-; by apply keeps_refl|].
  destruct (read_sectors d lba 1 _) as [[r0 b0] d0] eqn:Er.
  apply read_one in Er as (_ & Hk & _); try done; [|rewrite zlen_replicate; lia].
  destruct r0; [destruct (_ <? _)| |]; by injection E as <- <-.
Qed.

Lemma find_fat_partition_keeps (d d' : D) r :
  dev_inv d -> 0 < total_sectors d -> find_fat_partition d = (r, d') -> keeps d d'.
Proof.
  intros Hi Ht E. unfold find_fat_partition in E.
  destruct (read_boot_sector d 0) as [r0 d0] eqn:Er.
  apply read_boot_sector_keeps in Er; [|done|lia].
  repeat split_match_in E; by injection E as <- <-.
Qed.
End BoxedLaws.

(** ** Everything outside the partition survives

    Strengthening the laws of a partition by "the raw bytes outside it are those
    of [d0]" makes the cache's own theorems carry that fact through the stack. *)
Section Confined.
Context {D : Type} `{LawfulDevice D}.

Definition outside_same (d0 : D) (start total : Z) (p : PartitionBlockDevice D) : Prop :=
  pb_offset p = start /\ pb_total_sectors p = total /\ same_geometry d0 (pb_inner p)
  /\ forall x, 0 <= x < media_bytes d0 ->
    ~ (start * sector_size d0 <= x < (start + total) * sector_size d0) ->
    disk (pb_inner p) x = disk d0 x.

Lemma outside_step d0 start total (p : PartitionBlockDevice D) (d1 : D) :
  outside_same d0 start total p -> same_geometry (pb_inner p) d1 ->
  (forall x, 0 <= x < media_bytes d0 ->
    ~ (start * sector_size d0 <= x < (start + total) * sector_size d0) ->
    disk d1 x = disk (pb_inner p) x) ->
  outside_same d0 start total (with_inner p d1).
Proof.
  intros (Ho & Ht & [Hs1 Ht1] & Hd) [Hs2 Ht2] Hsame. unfold outside_same, same_geometry. simpl.
  split_and!; try congruence. intros x Hx Hn. rewrite Hsame by done. by apply Hd.
Qed.

Lemma outside_read d0 start total (p p' : PartitionBlockDevice D) lba count buf r buf' :
  partition_inv p -> outside_same d0 start total p -> in_range p lba count buf ->
  read_sectors p lba count buf = (r, buf', p') -> outside_same d0 start total p'.
Proof.
  intros Hp Ho Hr E. destruct (partition_in_range _ _ _ _ Hp Hr) as [Ea Hri].
  simpl in E. unfold partition_read_sectors in E. rewrite Ea in E.
  destruct (read_sectors (pb_inner p) _ _ _) as [[r0 b0] d1] eqn:Er. injection E as <- <- <-.
  destruct (law_read _ _ _ _ _ _ _ (proj1 Hp) Hri Er) as (_ & _ & Hg & Hd & _).
  apply outside_step; [done..|]. destruct Ho as (_ & _ & [Hs Ht] & _).
  unfold media_bytes in *. rewrite Hs, Ht in Hd. auto.
Qed.

Lemma outside_write d0 start total (p p' : PartitionBlockDevice D) lba count buf r :
  partition_inv p -> outside_same d0 start total p -> in_range p lba count buf ->
  write_sectors p lba count buf = (r, p') -> outside_same d0 start total p'.
Proof.
  intros Hp Ho Hr E. destruct (partition_in_range _ _ _ _ Hp Hr) as [Ea Hri].
  simpl in E. unfold partition_write_sectors in E. rewrite Ea in E.
  destruct (write_sectors (pb_inner p) _ _ _) as [r0 d1] eqn:Er. injection E as <- <-.
  destruct (law_write _ _ _ _ _ _ (proj1 Hp) Hri Er) as (_ & _ & Hg & Hout & _).
  apply outside_step; [done..|]. destruct Ho as (Hst & Htot & [Hs Ht] & _).
  destruct (law_geometry _ (proj1 Hp)) as [? _]. destruct Hr as (? & ? & Hr & _). simpl in Hr.
  unfold media_bytes, in_sectors in *. rewrite Hs, Ht in *. intros x Hx Hn. apply Hout; [done|].
  apply andb_false_iff. rewrite Z.leb_gt, Z.ltb_ge. nia.
Qed.

(** The strengthened laws, for a boxed partition. *)
Definition confined_lawful (d0 : D) (start total : Z) : LawfulDevice (BoxedDevice D).
Proof.
  refine {|
    dev_inv := fun b => match b with
                        | Whole _ => False
                        | Part p => partition_inv p /\ outside_same d0 start total p
                        end;
    healthy := healthy; disk := disk |}.
  - intros [d|p]; [done|]. intros [Hp _]. exact (law_geometry (Part p) Hp).
  - intros [d|p] lba count buf r buf' b'; [done|]. intros [Hp Ho] Hr E.
    pose proof (law_read (Part p) lba count buf r buf' b' Hp Hr E) as (Hn & Hi & Hrest).
    split; [done|]. split; [|exact Hrest].
    cbn [read_sectors boxed_ops] in E.
    destruct (read_sectors p lba count buf) as [[r0 b0] p0] eqn:Er. injection E as <- <- <-.
    split; [done|]. by eapply outside_read.
  - intros [d|p] lba count buf r b'; [done|]. intros [Hp Ho] Hr E.
    pose proof (law_write (Part p) lba count buf r b' Hp Hr E) as (Hn & Hi & Hrest).
    split; [done|]. split; [|exact Hrest].
    cbn [write_sectors boxed_ops] in E.
    destruct (write_sectors p lba count buf) as [r0 p0] eqn:Er. injection E as <- <-.
    split; [done|]. by eapply outside_write.
Defined.
End Confined.

(** The device after a sequence of requests. *)
Fixpoint run_state {D} `{BlockDevice D} (d : D) (reqs : list request) : D :=
  match reqs with
  | [] => d
  | ReadReq lba count buf :: rest => run_state (read_sectors d lba count buf).2 rest
  | WriteReq lba count buf :: rest => run_state (write_sectors d lba count buf).2 rest
  end.

(** Well-typed requests: an unsigned LBA and a 16-bit count. *)
Definition request_typed (q : request) : Prop :=
  match q with
  | ReadReq lba count _ | WriteReq lba count _ => 0 <= lba /\ 0 <= count <= u16_max
  end.

(** The cache is coherent after any requests, in range or not: an out-of-range
    request is refused before it reaches the device. *)
Lemma cache_run_inv {D} `{LawfulDevice D} reqs : forall c : BlockCache D,
  cache_inv c -> Forall request_typed reqs -> cache_inv (run_state c reqs).
Proof.
  induction reqs as [|q reqs IH]; intros c Hc Hf; [done|].
  inversion_clear Hf as [|? ? Hq Hrest].
  assert (forall lba count buf, 0 <= lba -> 0 <= count <= u16_max ->
    in_range c lba count buf \/ ((read_sectors c lba count buf).2 = c
                                 /\ (write_sectors c lba count buf).2 = c)) as Hcase.
  { intros lba count buf Hl Hn. destruct (cache_sector_size c Hc) as (Hs & _ & _).
    simpl. unfold cache_read_sectors, cache_write_sectors.
    destruct (u64_checked_mul count (bytes_per_sector c)) as [m|] eqn:Em; [|by right].
    apply u64_checked_mul_Some in Em as [-> _].
    destruct (Z.ltb_spec (zlen buf) (count * bytes_per_sector c)); [by right|].
    destruct (u64_checked_add lba count) as [m|] eqn:Ea; [|by right].
    apply u64_checked_add_Some in Ea as [-> _].
    destruct (Z.ltb_spec (total_sectors (bc_inner c)) (lba + count)); [by right|].
    left. unfold in_range. rewrite Hs. simpl. lia. }
  destruct q as [lba count buf|lba count buf]; simpl; apply IH; try done;
    destruct Hq as [Hl Hn]; destruct (Hcase lba count buf Hl Hn) as [Hr|[E1 E2]].
  - destruct (cache_read_sectors c lba count buf) as [[r b] c'] eqn:E.
    by destruct (law_read (LawfulDevice := cache_lawful) c lba count buf r b c' Hc Hr E) as (_ & ? & _).
  - simpl in E1. by rewrite E1.
  - destruct (cache_write_sectors c lba count buf) as [r c'] eqn:E.
    by destruct (law_write (LawfulDevice := cache_lawful) c lba count buf r c' Hc Hr E) as (_ & ? & _).
  - simpl in E2. by rewrite E2.
Qed.

(** Mounting builds the right stack: on a fault-free disk whose selected
    partition lies on the medium, [mount_device] hands the exFAT or the FAT
    constructor (by the partition's own boot sector) a coherent cached device
    that shows exactly the partition's sectors. *)
Theorem mount_device_stack {D} `{LawfulDevice D} (FS : Type)
    (exfat_new : BlockCache (BoxedDevice D) -> result (FsError * option (ReturnedDevice D)) FS)
    (fat_new : BlockCache (BoxedDevice D) -> result FsError FS)
    (d d1 : D) (info : PartitionInfo) :
  dev_inv d -> healthy d -> find_fat_partition d = (Ok info, d1) ->
  0 <= start_lba info -> 0 < info_total_sectors info ->
  start_lba info + info_total_sectors info <= total_sectors d ->
  exists c, stack_over d (start_lba info) (mounted_total d info) c
  /\ mount_device FS exfat_new fat_new d =
     if is_exfat (boot_bytes d (start_lba info)) then exfat_new c
     else map_err (fun error => (error, None)) (fat_new c).
Proof.
  intros Hi Hh Hfind H1 H2 H3.
  assert (0 < total_sectors d) as Htp by lia.
  pose proof (find_fat_partition_keeps d d1 _ Hi Htp Hfind) as Hk1.
  assert (512 <= sector_size d) as Hss.
  { unfold find_fat_partition, read_boot_sector in Hfind.
    destruct (Z.ltb_spec (sector_size d) 512); [done|lia]. }
  pose proof Hk1 as (Hi1 & [Hs1 Ht1] & Hd1 & Hh1).
  destruct (read_boot_sector_healthy d1 (start_lba info) Hi1 (Hh1 Hh)) as (d2 & Er & _); [lia|lia|].
  assert (0 <= start_lba info < total_sectors d1) as Hlr by lia.
  pose proof (read_boot_sector_keeps d1 d2 _ _ Hi1 Hlr Er) as Hk2.
  destruct (stack_of_partition d d2 info (keeps_trans _ _ _ Hk1 Hk2) Hh) as (c & Hn & Hc); try lia.
  exists c. split; [done|]. unfold mount_device. rewrite Hfind, Er, Hn.
  replace (boot_bytes d1 (start_lba info)) with (boot_bytes d (start_lba info)); [done|].
  unfold boot_bytes. rewrite Hs1. apply map_ext_in. intros k Hk. symmetry. apply Hd1.
  apply list_elem_of_In, elem_of_seqZ in Hk. unfold media_bytes. nia.
Qed.


(** ** Witnesses *)

Lemma mount_device_stack_witness :
  exists c, stack_over mbr_example 1 2 c
  /\ mount_device (BlockCache (BoxedDevice RamDisk.t)) Ok Ok mbr_example = Ok c.
Proof.
  destruct (mount_device_stack (BlockCache (BoxedDevice RamDisk.t)) Ok Ok mbr_example
    mbr_example (mkPartitionInfo 1 2)) as (c & Hc & Hm).
  - apply (RamDisk.inv_check _ 4). vm_compute. reflexivity.
  - reflexivity.
  - vm_compute. reflexivity.
  - simpl. lia.
  - simpl. lia.
  - vm_compute. discriminate.
  - exists c. split; [exact Hc|]. rewrite Hm. destruct (is_exfat _); reflexivity.
Defined.

