(* ===== verification/ExFatDevice.v ===== *)
(** * The exFAT byte stream (genome/src/fat/exfat.rs, [ExFatDevice])

    [ExFatDevice] adapts a 512-byte-sector block device to the stream the exFAT
    library uses. Several adapters share one device and one write-through
    metadata cache ([Arc<Mutex<..>>] in the code): the shared part is the store
    [ExShared] threaded through every call, an adapter itself is only a position
    and a size. *)

From S2P Require Import Prelude Block FatDevice.

Definition SECTOR_SIZE : Z := 512.
Definition ROOT_SCAN_SECTORS : Z := 256.
Definition METADATA_CACHE_SECTORS : Z := ROOT_SCAN_SECTORS + 16.
Definition MAX_CONTIGUOUS_IO_SECTORS : Z := 8.

(** The kinds of the library's I/O error the code distinguishes. *)
Inductive ErrorKind : Type :=
| KInvalidInput
| KNotFound
| KAlreadyExists
| KPermissionDenied
| KOutOfMemory
| KWriteZero
| KOther.

(** The store shared by the adapters of a volume: the device and the metadata
    cache ([BTreeMap<u32, [u8; 512]>]). *)
Record ExShared (D : Type) : Type := mkShared {
  ex_inner : D;
  ex_cache : gmap Z (list Z)
}.
Arguments mkShared {D} _ _.
Arguments ex_inner {D} _.
Arguments ex_cache {D} _.

Record ExFatDevice : Type := mkExFat {
  ex_position : Z;
  ex_size : Z
}.

(** [ExFatDevice::block_error]. *)
Definition block_error (error : BlockError) : ErrorKind :=
  match error with
  | BufferTooSmall _ _ | LbaOverflow => KInvalidInput
  | SectorNotFound => KNotFound
  | Device => KOther
  end.

(** [ExFatDevice::lba]. *)
Definition ex_lba (position : Z) : result ErrorKind Z :=
  if position / SECTOR_SIZE <=? u32_max then Ok (position / SECTOR_SIZE) else Err KInvalidInput.

Section ExFatDevice.
Context {D : Type} `{BlockDevice D}.
Implicit Types s : ExShared D.

(** [read_cached]: the buffer is the caller's slice, returned as it is left. *)
Definition read_cached s (lba count : Z) (buf : list Z)
  : result ErrorKind unit * list Z * ExShared D :=
  let expected_len := count * SECTOR_SIZE in
  if zlen buf <? expected_len then (Err KInvalidInput, buf, s)
  else
    match (if count =? 1 then ex_cache s !! lba else None) with
    | Some sector =>
        match copy_from_slice buf 0 SECTOR_SIZE sector with
        | Some buf' => (Ok tt, buf', s)
        | None => (Panic, buf, s)
        end
    | None =>
        let '(r, data, d') := read_sectors (ex_inner s) lba count (zslice buf 0 expected_len) in
        let buf' := zsplice buf 0 data in
        let s1 := mkShared d' (ex_cache s) in
        match r with
        | Err e => (Err (block_error e), buf', s1)
        | Panic => (Panic, buf', s1)
        | Ok _ =>
            if (count =? 1) && (Z.of_nat (size (ex_cache s)) <? METADATA_CACHE_SECTORS)
            then (Ok tt, buf', mkShared d' (<[lba := zslice buf' 0 SECTOR_SIZE]> (ex_cache s)))
            else (Ok tt, buf', s1)
        end
    end.

(** One iteration of the write-through loop: refresh the cached copy of sector
    [lba + index], if there is one. *)
Definition refresh (lba : Z) (buf : list Z) (cache : gmap Z (list Z)) (index : Z)
  : gmap Z (list Z) :=
  if lba + index <=? u32_max then
    match cache !! (lba + index) with
    | Some _ => <[lba + index := zslice buf (index * SECTOR_SIZE) SECTOR_SIZE]> cache
    | None => cache
    end
  else cache.

(** [write_cached]. *)
Definition write_cached s (lba count : Z) (buf : list Z)
  : result ErrorKind unit * ExShared D :=
  let expected_len := count * SECTOR_SIZE in
  if zlen buf <? expected_len then (Err KInvalidInput, s)
  else
    let data := zslice buf 0 expected_len in
    let '(r, d') := write_sectors (ex_inner s) lba count data in
    match r with
    | Err e => (Err (block_error e), mkShared d' (ex_cache s))
    | Panic => (Panic, mkShared d' (ex_cache s))
    | Ok _ => (Ok tt, mkShared d' (fold_left (refresh lba data) (seqZ 0 count) (ex_cache s)))
    end.

(** The number of sectors one aligned transfer moves. *)
Definition io_sectors (remaining : Z) : Z :=
  Z.min (Z.min (remaining / SECTOR_SIZE) MAX_CONTIGUOUS_IO_SECTORS) u16_max.

(** The [while done < len] loop of [read]; [sector] is the bounce buffer.
    Running out of fuel would show as a panic. *)
Fixpoint ex_read_loop (fuel : nat) s (pos : Z) (sector buf : list Z) (done len : Z)
  : result ErrorKind Z * list Z * ExShared D :=
  if done <? len then
    match fuel with
    | O => (Panic, buf, s)
    | S fuel' =>
        let position := pos + done in
        let offset := position mod SECTOR_SIZE in
        let remaining := len - done in
        if (offset =? 0) && (SECTOR_SIZE <=? remaining) then
          let count := io_sectors remaining in
          let bytes := count * SECTOR_SIZE in
          match ex_lba position with
          | Err e => (Err e, buf, s)
          | Panic => (Panic, buf, s)
          | Ok lba =>
              let '(r, slice, s1) := read_cached s lba count (zslice buf done bytes) in
              let buf1 := zsplice buf done slice in
              match r with
              | Err e => (Err e, buf1, s1)
              | Panic => (Panic, buf1, s1)
              | Ok _ => ex_read_loop fuel' s1 pos sector buf1 (done + bytes) len
              end
          end
        else
          match ex_lba position with
          | Err e => (Err e, buf, s)
          | Panic => (Panic, buf, s)
          | Ok lba =>
              let '(r, sector1, s1) := read_cached s lba 1 sector in
              match r with
              | Err e => (Err e, buf, s1)
              | Panic => (Panic, buf, s1)
              | Ok _ =>
                  let bytes := Z.min (SECTOR_SIZE - offset) remaining in
                  match copy_from_slice buf done bytes (zslice sector1 offset bytes) with
                  | None => (Panic, buf, s1)
                  | Some buf1 => ex_read_loop fuel' s1 pos sector1 buf1 (done + bytes) len
                  end
              end
          end
    end
  else (Ok done, buf, s).

Definition zero_sector : list Z := replicate (Z.to_nat SECTOR_SIZE) 0.

(** [Read::read]. *)
Definition ex_read s (a : ExFatDevice) (buf : list Z)
  : result ErrorKind Z * list Z * ExShared D * ExFatDevice :=
  let len := Z.min (u64_saturating_sub (ex_size a) (ex_position a)) (zlen buf) in
  let '(r, buf', s') := ex_read_loop (Z.to_nat len) s (ex_position a) zero_sector buf 0 len in
  match r with
  | Ok done => (Ok done, buf', s', mkExFat (ex_position a + done) (ex_size a))
  | _ => (r, buf', s', a)
  end.

(** The loop of [write]. *)
Fixpoint ex_write_loop (fuel : nat) s (pos : Z) (sector buf : list Z) (done len : Z)
  : result ErrorKind Z * ExShared D :=
  if done <? len then
    match fuel with
    | O => (Panic, s)
    | S fuel' =>
        let position := pos + done in
        let offset := position mod SECTOR_SIZE in
        let remaining := len - done in
        match ex_lba position with
        | Err e => (Err e, s)
        | Panic => (Panic, s)
        | Ok lba =>
            if (offset =? 0) && (SECTOR_SIZE <=? remaining) then
              let count := io_sectors remaining in
              let bytes := count * SECTOR_SIZE in
              let '(r, s1) := write_cached s lba count (zslice buf done bytes) in
              match r with
              | Err e => (Err e, s1)
              | Panic => (Panic, s1)
              | Ok _ => ex_write_loop fuel' s1 pos sector buf (done + bytes) len
              end
            else
              let '(r, sector1, s1) := read_cached s lba 1 sector in
              match r with
              | Err e => (Err e, s1)
              | Panic => (Panic, s1)
              | Ok _ =>
                  let bytes := Z.min (SECTOR_SIZE - offset) remaining in
                  match copy_from_slice sector1 offset bytes (zslice buf done bytes) with
                  | None => (Panic, s1)
                  | Some sector2 =>
                      let '(r2, s2) := write_cached s1 lba 1 sector2 in
                      match r2 with
                      | Err e => (Err e, s2)
                      | Panic => (Panic, s2)
                      | Ok _ => ex_write_loop fuel' s2 pos sector2 buf (done + bytes) len
                      end
                  end
              end
        end
    end
  else (Ok done, s).

(** [Write::write]. *)
Definition ex_write s (a : ExFatDevice) (buf : list Z)
  : result ErrorKind Z * ExShared D * ExFatDevice :=
  let len := Z.min (u64_saturating_sub (ex_size a) (ex_position a)) (zlen buf) in
  let '(r, s') := ex_write_loop (Z.to_nat len) s (ex_position a) zero_sector buf 0 len in
  match r with
  | Ok done => (Ok done, s', mkExFat (ex_position a + done) (ex_size a))
  | _ => (r, s', a)
  end.
End ExFatDevice.

(** [Seek::seek]. *)
Definition ex_seek (a : ExFatDevice) (position : SeekFrom) : result ErrorKind Z * ExFatDevice :=
  let target :=
    match position with
    | SeekStart offset => offset
    | SeekEnd offset => ex_size a + offset
    | SeekCurrent offset => ex_position a + offset
    end in
  if (0 <=? target) && (target <=? ex_size a)
  then (Ok target, mkExFat target (ex_size a))
  else (Err KInvalidInput, a).

(** ** Coherence of the shared store *)
Section ExFatLaws.
Context {D : Type} `{LawfulDevice D}.
Implicit Types s : ExShared D.

(** A 512-byte medium, and every cached sector equal to the medium's. *)
Definition ex_coherent s : Prop :=
  dev_inv (ex_inner s) /\ sector_size (ex_inner s) = SECTOR_SIZE
  /\ Z.of_nat (size (ex_cache s)) <= METADATA_CACHE_SECTORS
  /\ forall l data, ex_cache s !! l = Some data -> zlen data = SECTOR_SIZE
     /\ 0 <= l < total_sectors (ex_inner s) /\ l <= u32_max
     /\ forall j, 0 <= j < SECTOR_SIZE ->
        znth 0 data j = disk (ex_inner s) (l * SECTOR_SIZE + j).

(** The position of an adapter on its medium. *)
Definition ex_placed s (a : ExFatDevice) : Prop :=
  ex_size a = media_bytes (ex_inner s) /\ 0 <= ex_position a <= ex_size a.

Lemma ex_coherent_keeps s d' :
  ex_coherent s -> keeps (ex_inner s) d' -> ex_coherent (mkShared d' (ex_cache s)).
Proof.
  intros (Hi & Hs & Hn & Hc) (Hi' & [Hg1 Hg2] & Hd & _).
  split_and!; simpl; try done; [congruence|].
  intros l data Hl. destruct (Hc l data Hl) as (Hz & Hr & Hu & Hj). rewrite Hg2. split_and!; try lia.
  intros j Hjr. rewrite Hd; [by apply Hj|]. unfold media_bytes, SECTOR_SIZE in *. rewrite Hs. nia.
Qed.

Lemma read_cached_spec s lba count buf r buf' s' :
  ex_coherent s -> 0 <= lba <= u32_max -> 1 <= count <= u16_max ->
  lba + count <= total_sectors (ex_inner s) -> count * SECTOR_SIZE <= zlen buf ->
  read_cached s lba count buf = (r, buf', s') ->
  r <> Panic /\ ex_coherent s' /\ keeps (ex_inner s) (ex_inner s') /\ zlen buf' = zlen buf
  /\ (r = Ok tt -> filled (ex_inner s) (lba * SECTOR_SIZE) (count * SECTOR_SIZE) buf buf')
  /\ (healthy (ex_inner s) -> r = Ok tt).
Proof.
  intros Hs Hl Hc Ht Hb. pose proof Hs as (Hi & Hss & Hn & Hco). pose proof (keeps_refl _ Hi) as Hrefl.
  unfold read_cached. rewrite (proj2 (Z.ltb_ge _ _)) by lia.
  assert (0 < SECTOR_SIZE) as Hpos by (unfold SECTOR_SIZE; lia).
  destruct (if count =? 1 then ex_cache s !! lba else None) as [sector|] eqn:Ehit.
  { destruct (Z.eqb_spec count 1) as [->|]; [|done]. destruct (Hco _ _ Ehit) as (Hz & _ & _ & Hj).
    rewrite copy_from_slice_Some by lia. intros [= <- <- <-].
    split_and!; try done; [rewrite zlen_zsplice; lia|].
    intros _. split; [rewrite zlen_zsplice; lia|]. intros k Hk. rewrite znth_zsplice by lia.
    rewrite Hz, Z.add_0_l, Z.sub_0_r, Z.mul_1_l, (proj2 (Z.leb_le 0 k)) by lia. simpl.
    destruct (Z.ltb_spec k SECTOR_SIZE); [by apply Hj; lia|done]. }
  set (expl := count * SECTOR_SIZE) in *.
  assert (zlen (zslice buf 0 expl) = expl) as Hzl by (apply zlen_zslice; nia).
  destruct (read_sectors (ex_inner s) lba count (zslice buf 0 expl)) as [[r0 data] d'] eqn:E.
  assert (in_range (ex_inner s) lba count (zslice buf 0 expl)) as Hr.
  { unfold in_range. rewrite Hzl, Hss. lia. }
  destruct (law_read _ _ _ _ _ _ _ Hi Hr E) as (Hnp & Hi' & Hg & Hd & Hlen & Hok & Hh).
  rewrite Hzl in Hlen, Hok.
  assert (keeps (ex_inner s) d') as Hk by (unfold keeps; split_and!; try done; apply Hh).
  pose proof (ex_coherent_keeps _ _ Hs Hk) as Hs1.
  assert (zlen (zsplice buf 0 data) = zlen buf) as Hbl by (rewrite zlen_zsplice; lia).
  assert (r0 = Ok tt -> filled (ex_inner s) (lba * SECTOR_SIZE) expl buf (zsplice buf 0 data)) as Hf.
  { intros Hr0. split; [done|]. intros k Hkk. rewrite znth_zsplice by lia.
    rewrite Hlen, Z.add_0_l, Z.sub_0_r, (proj2 (Z.leb_le 0 k)) by lia. simpl.
    destruct (Z.ltb_spec k expl); [|done]. rewrite (Hok Hr0), Hss by lia. fold expl.
    by rewrite (proj2 (Z.ltb_lt _ _)) by lia. }
  destruct r0 as [[]|e|]; [| |done].
  2: { intros [= <- <- <-]. split_and!; try done. intros Hhe. by destruct (Hh Hhe). }
  destruct ((count =? 1) && _) eqn:Ec; intros [= <- <- <-]; split_and!; try done; try (intros _; exact (Hf eq_refl)); simpl.
  bool_to_prop. subst count. destruct Hs1 as (? & ? & _ & Hco1). split_and!; simpl; try done.
  { rewrite map_size_insert. destruct (ex_cache s !! lba); simpl; lia. }
  intros l dat. rewrite lookup_insert_Some. intros [[<- <-]|[_ Hl']]; [|by apply Hco1].
  destruct (Hf eq_refl) as [_ Hfk]. destruct Hg as [_ Hg2]. rewrite Hg2.
  split_and!; try lia; [apply zlen_zslice; lia|]. intros j Hj.
  rewrite znth_zslice, Hfk by lia. rewrite (proj2 (Z.ltb_lt _ _)) by lia.
  rewrite Z.add_0_l, Hd; [done|]. unfold media_bytes. rewrite Hss. nia.
Qed.

(** The write-through loop refreshes exactly the cached sectors of the request. *)
Lemma refresh_all lba data cache n l :
  0 <= lba -> 0 <= n ->
  fold_left (refresh lba data) (seqZ 0 n) cache !! l =
  match cache !! l with
  | Some old => Some (if (lba <=? l) && (l <? lba + n) && (l <=? u32_max)
                      then zslice data ((l - lba) * SECTOR_SIZE) SECTOR_SIZE else old)
  | None => None
  end.
Proof.
  intros Hl Hn. pattern n. apply natlike_ind; [| |done].
  - simpl. rewrite andb_false_intro1; [by destruct (cache !! l)|].
    destruct (Z.leb_spec lba l); [|done]. apply Z.ltb_ge. lia.
  - clear n Hn. intros n Hn IH. rewrite <- Z.add_1_r, seqZ_app, fold_left_app by lia.
    simpl. rewrite !Z.add_0_l. set (c1 := fold_left _ _ _) in *.
    assert ((lba <=? l) && (l <? lba + (n + 1)) = ((lba <=? l) && (l <? lba + n)) || (l =? lba + n))
      as ->.
    { destruct (Z.leb_spec lba l), (Z.ltb_spec l (lba + (n + 1))), (Z.ltb_spec l (lba + n)),
        (Z.eqb_spec l (lba + n)); simpl; lia || done. }
    unfold refresh. destruct (Z.eqb_spec l (lba + n)) as [->|Hne].
    + rewrite orb_true_r. simpl. replace (lba + n - lba) with n by lia.
      destruct (Z.leb_spec (lba + n) u32_max).
      * destruct (c1 !! (lba + n)) eqn:Ec.
        -- rewrite lookup_insert_eq. by destruct (cache !! (lba + n)).
        -- rewrite Ec. by destruct (cache !! (lba + n)).
      * rewrite IH. destruct (cache !! (lba + n)); [|done]. by rewrite andb_false_r.
    + rewrite orb_false_r, <- IH. destruct (Z.leb_spec (lba + n) u32_max); [|done].
      destruct (c1 !! (lba + n)); [|done]. by rewrite lookup_insert_ne by done.
Qed.

(** The refresh loop adds no entry. *)
Lemma refresh_size lba data cache l :
  size (fold_left (refresh lba data) l cache) = size cache.
Proof.
  revert cache. induction l as [|i l IH]; intros cache; simpl; [done|]. rewrite IH.
  unfold refresh. destruct (_ <=? _); [|done].
  destruct (cache !! (lba + i)) eqn:E; [|done].
  rewrite map_size_insert, E. done.
Qed.

(** A successful write-through stores the buffer and keeps the store coherent. *)
Lemma write_cached_spec s lba count buf r s' :
  ex_coherent s -> 0 <= lba -> 0 <= count <= u16_max ->
  lba + count <= total_sectors (ex_inner s) -> count * SECTOR_SIZE <= zlen buf ->
  write_cached s lba count buf = (r, s') ->
  r <> Panic /\ same_geometry (ex_inner s) (ex_inner s')
  /\ (r = Ok tt -> ex_coherent s'
      /\ stored (ex_inner s) (ex_inner s') (lba * SECTOR_SIZE) (count * SECTOR_SIZE) buf)
  /\ (healthy (ex_inner s) -> r = Ok tt /\ healthy (ex_inner s')).
Proof.
  intros Hs Hl Hc Ht Hb. pose proof Hs as (Hi & Hss & Hn & Hco).
  assert (0 < SECTOR_SIZE) as Hpos by (unfold SECTOR_SIZE; lia).
  unfold write_cached. rewrite (proj2 (Z.ltb_ge _ _)) by lia.
  set (expl := count * SECTOR_SIZE) in *.
  assert (zlen (zslice buf 0 expl) = expl) as Hzl by (apply zlen_zslice; nia).
  destruct (write_sectors (ex_inner s) lba count (zslice buf 0 expl)) as [r0 d'] eqn:E.
  assert (in_range (ex_inner s) lba count (zslice buf 0 expl)) as Hr.
  { unfold in_range. rewrite Hzl, Hss. lia. }
  destruct (law_write _ _ _ _ _ _ Hi Hr E) as (Hnp & Hi' & Hg & Hout & Hin & Hh).
  destruct r0 as [[]|e|]; intros [= <- <-]; split_and!; simpl; try done.
  2, 3: intros Hhe; by destruct (Hh Hhe).
  intros _. specialize (Hin eq_refl). unfold in_sectors, media_bytes in *. rewrite Hss in *.
  assert (stored (ex_inner s) d' (lba * SECTOR_SIZE) expl buf) as Hst.
  { intros x Hx. unfold media_bytes in Hx. rewrite Hss in Hx.
    replace (lba * SECTOR_SIZE + expl) with ((lba + count) * SECTOR_SIZE) by lia.
    destruct (_ && _) eqn:Ei.
    - rewrite Hin by done. bool_to_prop. rewrite znth_zslice by lia. f_equal; lia.
    - by apply Hout. }
  split; [|done]. destruct Hg as [Hg1 Hg2]. split_and!; simpl; try done; [congruence| |].
  { by rewrite refresh_size. }
  intros l data. rewrite refresh_all by lia. destruct (ex_cache s !! l) as [old|] eqn:El; [|done].
  intros [= <-]. destruct (Hco _ _ El) as (Hz & Hlr & Hu & Hj). rewrite Hg2.
  destruct ((lba <=? l) && (l <? lba + count)) eqn:Ei; simpl; cycle 1.
  - split_and!; try lia. intros j Hjr. rewrite Hj by done. symmetry. apply Hout; [nia|].
    apply andb_false_iff. rewrite Z.leb_gt, Z.ltb_ge.
    apply andb_false_iff in Ei as [?|?]; bool_to_prop; nia.
  - bool_to_prop. rewrite (proj2 (Z.leb_le _ _)) by lia.
    split_and!; try lia; [apply zlen_zslice; nia|]. intros j Hjr.
    rewrite znth_zslice by nia. rewrite Hin; [f_equal; nia|nia|].
    apply andb_true_iff. rewrite Z.leb_le, Z.ltb_lt. nia.
Qed.

(** Appending [n] bytes of the medium to a buffer filled up to [done]. *)
Lemma filled_extend (d : D) pos done n buf0 buf slice :
  0 <= done -> done + n <= zlen buf0 -> zlen slice = n -> filled d pos done buf0 buf ->
  (forall k, 0 <= k < n -> znth 0 slice k = disk d (pos + done + k)) ->
  filled d pos (done + n) buf0 (zsplice buf done slice).
Proof.
  intros Hd Hn Hl [Hbl Hbk] Hs. pose proof (zlen_nonneg slice).
  split; [rewrite zlen_zsplice; lia|]. intros k Hk. rewrite znth_zsplice by lia. rewrite Hl, Hbk by lia.
  destruct (Z.leb_spec done k), (Z.ltb_spec k (done + n)); simpl;
    try (destruct (Z.ltb_spec k done); lia || done).
  rewrite Hs by lia. f_equal; lia.
Qed.

(** Sectors whose numbers fit the 32-bit LBAs of the adapter. *)
Definition ex_addressable (d : D) : Prop := total_sectors d <= u32_max + 1.

(** Sector arithmetic of one round at byte [p] of the medium. *)
Lemma ex_round (d : D) p :
  sector_size d = SECTOR_SIZE -> 0 <= p < media_bytes d ->
  let lba := p / SECTOR_SIZE in let offset := p mod SECTOR_SIZE in
  0 <= lba < total_sectors d /\ 0 <= offset < SECTOR_SIZE /\ p = lba * SECTOR_SIZE + offset
  /\ (ex_lba p = Ok lba /\ lba <= u32_max
     \/ ex_lba p = Err KInvalidInput /\ ~ ex_addressable d).
Proof.
  intros Hss Hp lba offset. unfold media_bytes, ex_lba, ex_addressable in *. rewrite Hss in Hp.
  pose proof (Z.mod_pos_bound p SECTOR_SIZE ltac:(done)).
  pose proof (Z.div_mod p SECTOR_SIZE ltac:(done)).
  assert (0 <= lba < total_sectors d).
  { split; [apply Z.div_pos; unfold SECTOR_SIZE in *; lia|].
    apply Z.div_lt_upper_bound; unfold SECTOR_SIZE in *; lia. }
  split_and!; try (unfold lba, offset; lia).
  fold lba. destruct (Z.leb_spec lba u32_max); [by left|right; split; [done|lia]].
Qed.

Lemma io_sectors_spec remaining :
  SECTOR_SIZE <= remaining ->
  1 <= io_sectors remaining <= 8 /\ io_sectors remaining * SECTOR_SIZE <= remaining.
Proof.
  unfold io_sectors, MAX_CONTIGUOUS_IO_SECTORS, u16_max. intros Hr.
  pose proof (Z.mul_div_le remaining SECTOR_SIZE ltac:(done)).
  assert (1 <= remaining / SECTOR_SIZE) by (apply Z.div_le_lower_bound; [done|lia]).
  unfold SECTOR_SIZE in *. lia.
Qed.

Lemma ex_read_loop_spec fuel : forall s (d0 : D) pos sector buf0 buf done len r buf' s',
  ex_coherent s -> keeps d0 (ex_inner s) -> zlen sector = SECTOR_SIZE ->
  0 <= pos -> 0 <= done <= len -> len <= zlen buf0 -> pos + len <= media_bytes d0 ->
  len - done <= Z.of_nat fuel -> filled d0 pos done buf0 buf ->
  ex_read_loop fuel s pos sector buf done len = (r, buf', s') ->
  r <> Panic /\ ex_coherent s' /\ keeps d0 (ex_inner s')
  /\ (forall n, r = Ok n -> n = len /\ filled d0 pos len buf0 buf')
  /\ (healthy d0 -> ex_addressable d0 -> exists n, r = Ok n).
Proof.
  induction fuel as [|fuel IH];
    intros s d0 pos sector buf0 buf done len r buf' s' Hs Hk Hsec Hp Hdn Hl Hm Hfu Hf E;
    simpl in E; destruct (Z.ltb_spec done len) as [Hlt|Hge]; try lia.
  1, 3: injection E as <- <- <-; assert (done = len) as -> by lia;
    split_and!; try (by eexists); try done; by intros n [= <-].
  pose proof Hs as (Hi & Hss & _). pose proof Hk as (_ & [Hg1 Hg2] & Hdk & Hkh).
  assert (media_bytes (ex_inner s) = media_bytes d0) as Hmb by (unfold media_bytes; by rewrite Hg1, Hg2).
  destruct (ex_round (ex_inner s) (pos + done) Hss) as (Hlr & Hor & Hpe & Hlba); [lia|].
  set (off := (pos + done) mod SECTOR_SIZE) in *. set (l := (pos + done) / SECTOR_SIZE) in *.
  assert (total_sectors (ex_inner s) * SECTOR_SIZE = media_bytes d0) as Htm.
  { rewrite <- Hmb. unfold media_bytes. by rewrite Hss. }
  destruct Hlba as [[El Hl32]|[El Hna]]; rewrite El in E.
  2: { destruct (_ && _); injection E as <- <- <-; split_and!; try done; intros _ Had;
       exfalso; apply Hna; unfold ex_addressable in *; lia. }
  destruct Hf as [Hbl Hbk]. destruct ((off =? 0) && (SECTOR_SIZE <=? len - done)) eqn:Eal.
  - bool_to_prop. destruct (io_sectors_spec (len - done)) as [Hio Hiob]; [done|].
    set (cnt := io_sectors (len - done)) in *.
    destruct (read_cached s l cnt (zslice buf done (cnt * SECTOR_SIZE))) as [[r0 sl] s1] eqn:Er.
    assert (zlen (zslice buf done (cnt * SECTOR_SIZE)) = cnt * SECTOR_SIZE) as Hzl
      by (apply zlen_zslice; unfold SECTOR_SIZE in *; lia).
    apply read_cached_spec in Er as (Hnp & Hs1 & Hk1 & Hsl & Hok & Hh); try done;
      try (unfold u16_max, SECTOR_SIZE in *; lia).
    pose proof (keeps_trans _ _ _ Hk Hk1) as Hk'.
    destruct r0 as [[]|e|]; [| |done].
    2: { injection E as <- <- <-. split_and!; try done. intros Hd0 _. by specialize (Hh (Hkh Hd0)). }
    apply (IH _ d0 _ _ buf0) in E; try done; try (unfold SECTOR_SIZE in *; lia).
    apply filled_extend; try (split; done); try lia. intros k Hkk.
    destruct (Hok eq_refl) as [_ Hfk]. rewrite Hfk, (proj2 (Z.ltb_lt _ _)) by lia.
    rewrite Hdk by lia. f_equal. lia.
  - destruct (read_cached s l 1 sector) as [[r0 sec1] s1] eqn:Er.
    apply read_cached_spec in Er as (Hnp & Hs1 & Hk1 & Hsl & Hok & Hh); try done;
      try (unfold u16_max, SECTOR_SIZE in *; lia).
    pose proof (keeps_trans _ _ _ Hk Hk1) as Hk'.
    destruct r0 as [[]|e|]; [| |done].
    2: { injection E as <- <- <-. split_and!; try done. intros Hd0 _. by specialize (Hh (Hkh Hd0)). }
    set (n := Z.min (SECTOR_SIZE - off) (len - done)) in *.
    assert (zlen (zslice sec1 off n) = n) as Hzl by (apply zlen_zslice; lia).
    rewrite copy_from_slice_Some in E by lia.
    apply (IH _ d0 _ _ buf0) in E; try done; try lia.
    apply filled_extend; try (split; done); try lia. intros k Hkk.
    rewrite znth_zslice by lia. destruct (Hok eq_refl) as [_ Hfk].
    rewrite Hfk, (proj2 (Z.ltb_lt _ _)) by lia. rewrite Hdk by lia. f_equal. lia.
Qed.

(** Storing the next [n] bytes of [buf] after the first [done]. *)
Lemma stored_extend (d0 d1 d2 : D) pos done n buf slice :
  same_geometry d0 d1 -> 0 <= done -> 0 <= n ->
  stored d0 d1 pos done buf -> stored d1 d2 (pos + done) n slice ->
  (forall k, 0 <= k < n -> znth 0 slice k = znth 0 buf (done + k)) ->
  stored d0 d2 pos (done + n) buf.
Proof.
  intros [Hg1 Hg2] Hd Hn H01 H12 Hs x Hx. rewrite H12.
  2: { unfold media_bytes in *. by rewrite Hg1, Hg2. }
  rewrite H01 by done.
  destruct (Z.leb_spec (pos + done) x), (Z.ltb_spec x (pos + done + n)), (Z.leb_spec pos x),
    (Z.ltb_spec x (pos + done)), (Z.ltb_spec x (pos + (done + n))); simpl; try lia; try done.
  rewrite Hs by lia. f_equal; lia.
Qed.

(** A read-modify-write of [n] bytes inside one sector. *)
Lemma rmw_stored (d d1 d2 : D) l off n sec sec1 data :
  keeps d d1 -> 0 <= off -> 0 <= n -> off + n <= SECTOR_SIZE -> zlen data = n ->
  zlen sec = SECTOR_SIZE -> filled d (l * SECTOR_SIZE) SECTOR_SIZE sec sec1 ->
  stored d1 d2 (l * SECTOR_SIZE) SECTOR_SIZE (zsplice sec1 off data) ->
  stored d d2 (l * SECTOR_SIZE + off) n data.
Proof.
  intros (_ & [Hg1 Hg2] & Hk & _) Ho Hn Hle Hl Hzs [Hsl Hf] Hst x Hx.
  rewrite Hst by (unfold media_bytes in *; by rewrite Hg1, Hg2).
  destruct (Z.leb_spec (l * SECTOR_SIZE) x), (Z.ltb_spec x (l * SECTOR_SIZE + SECTOR_SIZE)); simpl;
    [| |rewrite (proj2 (Z.leb_gt _ x)) by lia; by apply Hk..].
  - rewrite znth_zsplice, Hl by lia.
    destruct (Z.leb_spec off (x - l * SECTOR_SIZE)), (Z.leb_spec (l * SECTOR_SIZE + off) x),
      (Z.ltb_spec (x - l * SECTOR_SIZE) (off + n)), (Z.ltb_spec x (l * SECTOR_SIZE + off + n));
      simpl; try lia; try (f_equal; lia);
      (rewrite Hf, (proj2 (Z.ltb_lt _ _)) by lia; f_equal; lia).
  - rewrite (proj2 (Z.ltb_ge x (l * SECTOR_SIZE + off + n))), andb_false_r by lia. by apply Hk.
Qed.

Lemma ex_write_loop_spec fuel : forall s (d0 : D) pos sector buf done len r s',
  ex_coherent s -> same_geometry d0 (ex_inner s) -> (healthy d0 -> healthy (ex_inner s)) ->
  zlen sector = SECTOR_SIZE -> 0 <= pos -> 0 <= done <= len -> len <= zlen buf ->
  pos + len <= media_bytes d0 -> len - done <= Z.of_nat fuel ->
  stored d0 (ex_inner s) pos done buf ->
  ex_write_loop fuel s pos sector buf done len = (r, s') ->
  r <> Panic /\ same_geometry d0 (ex_inner s')
  /\ (forall n, r = Ok n -> n = len /\ ex_coherent s' /\ stored d0 (ex_inner s') pos len buf)
  /\ (healthy d0 -> ex_addressable d0 -> healthy (ex_inner s') /\ exists n, r = Ok n).
Proof.
  induction fuel as [|fuel IH];
    intros s d0 pos sector buf done len r s' Hs Hg Hhd Hsec Hp Hdn Hl Hm Hfu Hst E;
    simpl in E; destruct (Z.ltb_spec done len) as [Hlt|Hge]; try lia.
  1, 3: injection E as <- <-; assert (done = len) as -> by lia;
    (split; [done|]); (split; [done|]); (split; [by intros n [= <-]|]);
    intros Hh0 _; split; [by apply Hhd|by eexists].
  pose proof Hs as (Hi & Hss & _). pose proof Hg as [Hg1 Hg2].
  assert (media_bytes (ex_inner s) = media_bytes d0) as Hmb by (unfold media_bytes; by rewrite Hg1, Hg2).
  destruct (ex_round (ex_inner s) (pos + done) Hss) as (Hlr & Hor & Hpe & Hlba); [lia|].
  set (off := (pos + done) mod SECTOR_SIZE) in *. set (l := (pos + done) / SECTOR_SIZE) in *.
  assert (total_sectors (ex_inner s) * SECTOR_SIZE = media_bytes d0) as Htm.
  { rewrite <- Hmb. unfold media_bytes. by rewrite Hss. }
  destruct Hlba as [[El Hl32]|[El Hna]]; rewrite El in E.
  2: { injection E as <- <-. split_and!; try done. intros _ Had. exfalso. apply Hna.
       unfold ex_addressable in *. lia. }
  assert (healthy d0 -> ex_addressable d0 -> healthy (ex_inner s)) as Hhd' by auto.
  destruct ((off =? 0) && (SECTOR_SIZE <=? len - done)) eqn:Eal.
  - bool_to_prop. destruct (io_sectors_spec (len - done)) as [Hio Hiob]; [done|].
    set (cnt := io_sectors (len - done)) in *.
    assert (zlen (zslice buf done (cnt * SECTOR_SIZE)) = cnt * SECTOR_SIZE) as Hzl
      by (apply zlen_zslice; unfold SECTOR_SIZE in *; lia).
    destruct (write_cached s l cnt (zslice buf done (cnt * SECTOR_SIZE))) as [r0 s1] eqn:Er.
    apply write_cached_spec in Er as (Hnp & [Hg3 Hg4] & Hok & Hh); try done;
      try (unfold u16_max, SECTOR_SIZE in *; lia).
    assert (same_geometry d0 (ex_inner s1)) as Hg' by (split; congruence).
    destruct r0 as [[]|e|]; [| |done].
    2: { injection E as <- <-. split_and!; try done. intros Ha Hb. by destruct (Hh (Hhd Ha)). }
    destruct (Hok eq_refl) as [Hs1 Hst1].
    apply (IH _ d0) in E; try done; try (unfold SECTOR_SIZE in *; lia).
    { intros Ha. by destruct (Hh (Hhd Ha)). }
    apply (stored_extend d0 (ex_inner s) _ pos done _ buf (zslice buf done (cnt * SECTOR_SIZE)));
      try done; try (unfold SECTOR_SIZE in *; lia).
    { replace (pos + done) with (l * SECTOR_SIZE) by lia. exact Hst1. }
    intros k Hkk. rewrite znth_zslice by lia. done.
  - destruct (read_cached s l 1 sector) as [[r0 sec1] s1] eqn:Er.
    apply read_cached_spec in Er as (Hnp & Hs1 & Hk1 & Hsl & Hok & Hh); try done;
      try (unfold u16_max, SECTOR_SIZE in *; lia).
    pose proof Hk1 as (_ & [Hg3 Hg4] & _ & Hh1).
    destruct r0 as [[]|e|]; [| |done].
    2: { injection E as <- <-. split_and!; try done; [split; congruence|].
         intros Ha Hb. by specialize (Hh (Hhd Ha)). }
    set (n := Z.min (SECTOR_SIZE - off) (len - done)) in *.
    assert (zlen (zslice buf done n) = n) as Hzl by (apply zlen_zslice; lia).
    rewrite copy_from_slice_Some in E by lia.
    destruct (write_cached s1 l 1 (zsplice sec1 off (zslice buf done n))) as [r2 s2] eqn:Ew.
    assert (zlen (zsplice sec1 off (zslice buf done n)) = SECTOR_SIZE) as Hz2
      by (rewrite zlen_zsplice; lia).
    apply write_cached_spec in Ew as (Hnp2 & [Hg5 Hg6] & Hok2 & Hh2); try done;
      try (unfold u16_max, SECTOR_SIZE in *; lia).
    assert (same_geometry d0 (ex_inner s2)) as Hg' by (split; congruence).
    destruct r2 as [[]|e|]; [| |done].
    2: { injection E as <- <-. split_and!; try done. intros Ha Hb. by destruct (Hh2 (Hh1 (Hhd Ha))). }
    destruct (Hok2 eq_refl) as [Hs2 Hst2]. rewrite Z.mul_1_l in *.
    apply (IH _ d0) in E; try done; try lia.
    { intros Ha. by destruct (Hh2 (Hh1 (Hhd Ha))). }
    apply (stored_extend d0 (ex_inner s) _ pos done _ buf (zslice buf done n)); try done; try lia.
    { rewrite Hpe. apply (rmw_stored _ (ex_inner s1) _ l off n sector sec1); try done; try lia.
      exact (Hok eq_refl). }
    intros k Hkk. rewrite znth_zslice by lia. done.
Qed.
End ExFatLaws.

(** The exFAT stream reads the medium through its metadata cache: whatever is
    cached, [read] delivers the medium's bytes from the position on, as many as
    asked and available; it never panics, keeps the shared cache coherent for
    every adapter, and fails only on a faulty medium or beyond 32-bit LBAs. *)
Theorem ex_read_correct {D} `{LawfulDevice D} (s : ExShared D) (a : ExFatDevice) (buf : list Z) :
  ex_coherent s -> ex_placed s a ->
  let n := Z.min (ex_size a - ex_position a) (zlen buf) in
  match ex_read s a buf with
  | (Ok m, buf', s', a') =>
      m = n /\ filled (ex_inner s) (ex_position a) n buf buf' /\ ex_coherent s'
      /\ keeps (ex_inner s) (ex_inner s') /\ ex_placed s' a' /\ ex_position a' = ex_position a + n
  | (Err _, _, s', a') =>
      a' = a /\ ex_coherent s' /\ keeps (ex_inner s) (ex_inner s')
      /\ ~ (healthy (ex_inner s) /\ ex_addressable (ex_inner s))
  | (Panic, _, _, _) => False
  end.
Proof.
  intros Hs [Hsz Hp] n. pose proof (zlen_nonneg buf). unfold ex_read, u64_saturating_sub.
  rewrite (Z.max_l _ 0) by lia. fold n.
  destruct (ex_read_loop _ _ _ _ _ _ _) as [[r b] s'] eqn:E.
  apply (ex_read_loop_spec _ s (ex_inner s) _ _ buf) in E as (Hnp & Hs' & Hk & Hok & Hh); try done;
    try lia; [|apply keeps_refl, Hs|].
  2: { split; [done|]. intros k Hk. by rewrite (proj2 (Z.ltb_ge k 0)) by lia. }
  destruct r as [m|e|]; [| |done].
  - destruct (Hok m eq_refl) as [-> Hf]. split_and!; try done. pose proof Hk as (_ & [Hg1 Hg2] & _).
    unfold ex_placed, media_bytes in *. simpl. rewrite Hg1, Hg2. split; [done|lia].
  - split_and!; try done. intros [Ha Hb]. by destruct (Hh Ha Hb).
Qed.

(** The exFAT stream writes through: a successful [write] stores exactly the
    requested bytes at the position, wherever the sectors are cached, leaves
    every other byte of the medium alone and every cached sector equal to the
    medium, so other adapters of the volume read the new bytes; it succeeds in
    full on a fault-free medium with 32-bit LBAs. *)
Theorem ex_write_correct {D} `{LawfulDevice D} (s : ExShared D) (a : ExFatDevice) (buf : list Z) :
  ex_coherent s -> ex_placed s a ->
  let n := Z.min (ex_size a - ex_position a) (zlen buf) in
  match ex_write s a buf with
  | (Ok m, s', a') =>
      m = n /\ stored (ex_inner s) (ex_inner s') (ex_position a) n buf /\ ex_coherent s'
      /\ ex_placed s' a' /\ ex_position a' = ex_position a + n
  | (Err _, s', a') => a' = a /\ ~ (healthy (ex_inner s) /\ ex_addressable (ex_inner s))
  | (Panic, _, _) => False
  end.
Proof.
  intros Hs [Hsz Hp] n. pose proof (zlen_nonneg buf). unfold ex_write, u64_saturating_sub.
  rewrite (Z.max_l _ 0) by lia. fold n.
  destruct (ex_write_loop _ _ _ _ _ _ _) as [r s'] eqn:E.
  apply (ex_write_loop_spec _ s (ex_inner s)) in E as (Hnp & [Hg1 Hg2] & Hok & Hh); try done; try lia.
  2: { intros x Hx. destruct (Z.leb_spec (ex_position a) x); [|done].
       by rewrite (proj2 (Z.ltb_ge x _)) by lia. }
  destruct r as [m|e|]; [| |done].
  - destruct (Hok m eq_refl) as (-> & Hs' & Hst). split_and!; try done.
    unfold ex_placed, media_bytes in *. simpl. rewrite Hg1, Hg2. split; [done|lia].
  - split_and!; try done. intros [Ha Hb]. by destruct (Hh Ha Hb) as [_ [? ?]].
Qed.

(** ** Witnesses: two 512-byte sectors, the first one cached *)
Definition demo_volume : ExShared RamDisk.t :=
  mkShared (RamDisk.mk 512 (replicate 512 1 ++ replicate 512 2) []) {[ 0 := replicate 512 1 ]}.

Lemma demo_volume_coherent : ex_coherent demo_volume.
Proof.
  split_and!; [by apply (RamDisk.inv_check _ 2)|done|done|].
  intros l data. cbn [ex_cache demo_volume]. rewrite lookup_singleton_Some. intros [<- <-].
  split_and!; try done. intros j Hj. unfold SECTOR_SIZE in *.
  change (znth 0 (replicate 512 1) j = znth 0 (replicate 512 1 ++ replicate 512 2) (0 * 512 + j)).
  rewrite Z.mul_0_l, Z.add_0_l, znth_app by lia. rewrite zlen_replicate.
  by rewrite (proj2 (Z.ltb_lt _ _)) by lia.
Qed.

Lemma ex_read_correct_witness :
  match ex_read demo_volume (mkExFat 510 1024) (replicate 4 0) with
  | (Ok m, _, s', a') => m = 4 /\ ex_coherent s' /\ ex_position a' = 514
  | _ => False
  end.
Proof.
  pose proof (ex_read_correct demo_volume (mkExFat 510 1024) (replicate 4 0) demo_volume_coherent)
    as Hr.
  destruct (ex_read demo_volume (mkExFat 510 1024) (replicate 4 0)) as [[[[m| |] b] s'] a'] eqn:E;
    try discriminate.
  - destruct Hr as (Hm & _ & Hs & _ & _ & Hp); [split; [reflexivity|simpl; lia]|].
    split; [exact Hm|]. split; [exact Hs|exact Hp].
Defined.

Lemma ex_write_correct_witness :
  match ex_write demo_volume (mkExFat 510 1024) [7; 8; 9] with
  | (Ok m, s', a') => m = 3 /\ ex_coherent s' /\ disk (ex_inner s') 512 = 9
  | _ => False
  end.
Proof.
  pose proof (ex_write_correct demo_volume (mkExFat 510 1024) [7; 8; 9] demo_volume_coherent) as Hw.
  destruct (ex_write demo_volume (mkExFat 510 1024) [7; 8; 9]) as [[[m| |] s'] a'] eqn:E.
  - destruct Hw as (Hm & Hst & Hs & _); [split; [reflexivity|simpl; lia]|].
    split; [exact Hm|]. split; [exact Hs|].
    rewrite (Hst 512) by (split; [lia|reflexivity]). reflexivity.
  - vm_compute in E. discriminate.
  - vm_compute in E. discriminate.
Defined.
