(* ===== verification/Path.v ===== *)
(** * Paths (genome/src/vfs.rs, path utilities)

    Paths are byte strings ([list ascii]). [normalize_path] and
    [relative_to_mount] are related to lists of path components: a normalized
    path is the printed form of a list of proper components, and a mount point
    covers a path exactly when its components are a prefix of the path's. *)

From Stdlib Require Import Ascii.
From S2P Require Import Prelude.

Abbreviation path := (list ascii).

Definition slash : ascii := "/"%char.

(** String literals as paths. *)
Definition P (s : string) : path := String.list_ascii_of_string s.

Definition starts_with_slash (s : path) : bool :=
  match s with c :: _ => bool_decide (c = slash) | [] => false end.

(** [str::split('/')]: always at least one piece. *)
Fixpoint split_slash (s : path) : list path :=
  match s with
  | [] => [[]]
  | c :: s' =>
      if decide (c = slash) then [] :: split_slash s'
      else match split_slash s' with
           | h :: t => (c :: h) :: t
           | [] => [[c]]
           end
  end.

(** Components separated by single slashes. *)
Fixpoint join_slash (cs : list path) : path :=
  match cs with
  | [] => []
  | [c] => c
  | c :: cs' => c ++ slash :: join_slash cs'
  end.

(** [str::strip_prefix]. *)
Fixpoint strip_prefix (pre s : path) : option path :=
  match pre, s with
  | [], _ => Some s
  | a :: pre', b :: s' => if decide (a = b) then strip_prefix pre' s' else None
  | _ :: _, [] => None
  end.

(** One component of the loop of [normalize_path]. *)
Definition normalize_step (components : list path) (comp : path) : list path :=
  if decide (comp = [] \/ comp = P ".") then components
  else if decide (comp = P "..") then removelast components
  else components ++ [comp].

Definition normalize_components (s : path) : list path :=
  fold_left normalize_step (split_slash s) [].

(** [normalize_path]. *)
Definition normalize_path (s : path) : path :=
  match normalize_components s with
  | [] => P "/"
  | components => slash :: join_slash components
  end.

(** [relative_to_mount]. *)
Definition relative_to_mount (s mount_point : path) : option path :=
  if negb (starts_with_slash s) then None
  else if decide (mount_point = P "/") then strip_prefix (P "/") s
  else if decide (s = mount_point) then Some []
  else strip_prefix mount_point s ≫= strip_prefix (P "/").

(** ** Splitting and joining *)
Definition no_slash (c : path) : Prop := slash ∉ c.

(** A proper component: what [normalize_path] keeps. *)
Definition good_comp (c : path) : Prop :=
  c <> [] /\ c <> P "." /\ c <> P ".." /\ no_slash c.

(** The absolute path with the given components. *)
Definition print_path (cs : list path) : path := slash :: join_slash cs.

Lemma split_slash_nonempty s : split_slash s <> [].
Proof. destruct s as [|c s]; simpl; [done|]. repeat case_decide; [done|]. by destruct (split_slash s). Qed.

Lemma split_slash_no_slash s : Forall no_slash (split_slash s).
Proof.
  unfold no_slash. induction s as [|c s IH]; simpl.
  - constructor; [apply not_elem_of_nil|done].
  - case_decide as Hc; [constructor; [apply not_elem_of_nil|done]|].
    destruct (split_slash s) as [|h t].
    + constructor; [|done]. rewrite list_elem_of_singleton. congruence.
    + apply Forall_cons in IH as [Hh Ht]. constructor; [|done].
      rewrite elem_of_cons. intros [?|?]; [congruence|done].
Qed.

Lemma split_slash_app s1 s2 :
  split_slash (s1 ++ slash :: s2) = split_slash s1 ++ split_slash s2.
Proof.
  induction s1 as [|c s1 IH]; simpl; [done|].
  rewrite IH. case_decide; [done|].
  destruct (split_slash s1) as [|h t] eqn:E; [|done]. by destruct (split_slash_nonempty s1).
Qed.

Lemma split_slash_single c : no_slash c -> split_slash c = [c].
Proof.
  unfold no_slash. induction c as [|a c IH]; simpl; [done|]. intros Hn.
  rewrite decide_False by set_solver. rewrite IH by set_solver. done.
Qed.

Lemma join_slash_cons c cs : cs <> [] -> join_slash (c :: cs) = c ++ slash :: join_slash cs.
Proof. by destruct cs. Qed.

Lemma split_join cs : cs <> [] -> Forall no_slash cs -> split_slash (join_slash cs) = cs.
Proof.
  intros Hne Hf. induction Hf as [|c cs Hc Hcs IH]; [done|].
  destruct (decide (cs = [])) as [->|Hn]; [by apply split_slash_single|].
  rewrite join_slash_cons, split_slash_app, split_slash_single, IH by done. done.
Qed.

Lemma join_split s : join_slash (split_slash s) = s.
Proof.
  induction s as [|c s IH]; simpl; [done|].
  pose proof (split_slash_nonempty s) as Hn. case_decide as Hc.
  - rewrite join_slash_cons, IH by done. by rewrite Hc.
  - destruct (split_slash s) as [|h t] eqn:E; [done|].
    destruct (decide (t = [])) as [->|Ht]; [by simpl in *; rewrite <- IH|].
    rewrite join_slash_cons in * by done. simpl. by rewrite IH.
Qed.

Lemma join_app cs ds :
  cs <> [] -> ds <> [] -> join_slash (cs ++ ds) = join_slash cs ++ slash :: join_slash ds.
Proof.
  intros Hc Hd. induction cs as [|c cs IH]; [done|].
  destruct (decide (cs = [])) as [->|Hn]; [simpl; by destruct ds|].
  rewrite <- app_comm_cons, !join_slash_cons by (try done; by destruct cs).
  by rewrite IH, <- app_assoc.
Qed.

Lemma strip_prefix_Some pre s t : strip_prefix pre s = Some t <-> s = pre ++ t.
Proof.
  revert s. induction pre as [|a pre IH]; intros s; simpl; [split; congruence|].
  destruct s as [|b s]; [done|]. case_decide as Hab.
  - rewrite IH. split; congruence.
  - split; congruence.
Qed.

Lemma good_no_slash cs : Forall good_comp cs -> Forall no_slash cs.
Proof. intros Hf. eapply Forall_impl; [exact Hf|]. intros c (_ & _ & _ & Hn). exact Hn. Qed.

(** Components of a printed path. *)
Lemma split_print cs : cs <> [] -> Forall good_comp cs -> split_slash (print_path cs) = [] :: cs.
Proof.
  intros Hn Hf. unfold print_path. simpl.
  by rewrite split_join by (done || by apply good_no_slash).
Qed.

Lemma print_path_inj cs ds :
  Forall good_comp cs -> Forall good_comp ds -> print_path cs = print_path ds -> cs = ds.
Proof.
  intros Hc Hd [= E].
  destruct cs as [|c cs], ds as [|d ds]; try done.
  - rewrite <- (split_join (d :: ds)) in Hd |- * by (done || by apply good_no_slash).
    rewrite <- E in *. simpl in Hd. inversion_clear Hd as [|? ? Hg _]. by destruct Hg.
  - rewrite <- (split_join (c :: cs)) in Hc |- * by (done || by apply good_no_slash).
    rewrite E in *. simpl in Hc. inversion_clear Hc as [|? ? Hg _]. by destruct Hg.
  - rewrite <- (split_join (c :: cs)), <- (split_join (d :: ds)) by (done || by apply good_no_slash).
    by rewrite E.
Qed.

(** ** Normalization *)
Lemma Forall_removelast {A} (Q : A -> Prop) l : Forall Q l -> Forall Q (removelast l).
Proof.
  induction 1 as [|x l Hx Hl IH]; simpl; [done|]. destruct l; [done|]. by constructor.
Qed.

Lemma normalize_steps_good comps acc :
  Forall no_slash comps -> Forall good_comp acc ->
  Forall good_comp (fold_left normalize_step comps acc).
Proof.
  intros Hf. revert acc. induction Hf as [|c comps Hc Hf IH]; intros acc Ha; simpl; [done|].
  apply IH. unfold normalize_step. repeat case_decide; [done|by apply Forall_removelast|].
  apply Forall_app. split; [done|]. constructor; [|done]. unfold good_comp. naive_solver.
Qed.

Lemma normalize_components_good s : Forall good_comp (normalize_components s).
Proof. apply normalize_steps_good; [apply split_slash_no_slash|done]. Qed.

Lemma normalize_path_print s : normalize_path s = print_path (normalize_components s).
Proof. unfold normalize_path, print_path. by destruct (normalize_components s). Qed.

Lemma normalize_steps_id comps acc :
  Forall good_comp comps -> fold_left normalize_step comps acc = acc ++ comps.
Proof.
  intros Hf. revert acc. induction Hf as [|c comps (H1 & H2 & H3 & _) Hf IH]; intros acc; simpl;
    [by rewrite app_nil_r|].
  rewrite IH. unfold normalize_step.
  rewrite (decide_False (P := c = [] \/ _)) by tauto. rewrite decide_False by done.
  by rewrite <- app_assoc.
Qed.

Lemma normalize_components_print cs :
  Forall good_comp cs -> normalize_components (print_path cs) = cs.
Proof.
  intros Hf. unfold normalize_components. destruct cs as [|c cs]; [done|].
  rewrite split_print by done.
  change (fold_left normalize_step (c :: cs) [] = c :: cs). by rewrite normalize_steps_id.
Qed.

(** A path in normal form. *)
Definition normal (s : path) : Prop := exists cs, Forall good_comp cs /\ s = print_path cs.

Lemma normalize_path_normal s : normal (normalize_path s).
Proof. exists (normalize_components s). split; [apply normalize_components_good|apply normalize_path_print]. Qed.

Lemma normalize_path_fixed s : normal s -> normalize_path s = s.
Proof. intros (cs & Hc & ->). by rewrite normalize_path_print, normalize_components_print. Qed.

(** ** Mount coverage *)
Lemma relative_to_mount_prefix cs ms rest :
  Forall good_comp cs -> Forall good_comp ms ->
  relative_to_mount (print_path cs) (print_path ms) = Some rest <->
  exists rs, cs = ms ++ rs /\ rest = join_slash rs.
Proof.
  intros Hc Hm. unfold relative_to_mount. cbn [starts_with_slash print_path].
  rewrite bool_decide_true by done. cbn [negb].
  case_decide as Hroot; [|case_decide as Heq].
  - assert (ms = []) as -> by (apply print_path_inj; [done..|]; exact Hroot).
    rewrite strip_prefix_Some. split.
    + intros [= <-]. by exists cs.
    + by intros (rs & -> & ->).
  - apply print_path_inj in Heq as ->; [|done..]. split.
    + intros [= <-]. exists []. by rewrite app_nil_r.
    + intros (rs & E & ->). rewrite <- (app_nil_r ms) in E at 1. apply app_inv_head in E as <-. done.
  - assert (ms <> []) as Hmn by (by intros ->). rewrite bind_Some. split.
    + intros (t & Ht & Hr). apply strip_prefix_Some in Ht, Hr. subst t.
      unfold print_path in Ht. injection Ht as Ht. exists (split_slash rest).
      rewrite join_split. split; [|done].
      destruct (decide (cs = [])) as [->|Hcn].
      { destruct ms as [|m ms]; [done|]. apply (f_equal length) in Ht. rewrite length_app in Ht.
        simpl in Ht. lia. }
      rewrite <- (split_join cs) by (done || by apply good_no_slash). rewrite Ht.
      rewrite split_slash_app, split_join by (done || by apply good_no_slash). done.
    + intros (rs & -> & ->). destruct (decide (rs = [])) as [->|Hrn].
      { by rewrite app_nil_r in Heq. }
      exists (slash :: join_slash rs). rewrite !strip_prefix_Some. split; [|done].
      unfold print_path. by rewrite join_app.
Qed.


(** Mount coverage is by whole components: a mount point covers a path exactly
    when its components are a prefix of the path's, and then the remaining path
    is the remaining components joined ([/mnt2] is not below [/mnt]). *)
Theorem relative_to_mount_correct (s mount_point rest : path) :
  relative_to_mount (normalize_path s) (normalize_path mount_point) = Some rest <->
  exists rs, normalize_components s = normalize_components mount_point ++ rs
  /\ rest = join_slash rs.
Proof.
  rewrite !normalize_path_print. apply relative_to_mount_prefix; apply normalize_components_good.
Qed.
