(* ===== verification/FileSystem.v ===== *)
(** * File systems and the in-memory file system (genome/src/vfs.rs)

    The [FileSystem] trait as a class, and [MemFileSystem]: an inode table and a
    descriptor table, with path lookup through symbolic links. *)

From S2P Require Import Prelude Block Path.

Inductive InodeType : Type := File | Directory | Symlink.

#[global] Instance InodeType_eq_dec : EqDecision InodeType.
Proof. solve_decision. Defined.

Record FileDescriptor : Type := mkFd {
  fd_fd : Z;
  fd_ino : Z;
  fd_offset : Z;
  fd_flags : Z
}.

Record VNode : Type := mkVNode {
  vn_name : path;
  vn_size : Z;
  vn_is_dir : bool
}.

Record FileSystemCapabilities : Type := mkCaps {
  cap_read_only : bool;
  cap_mkdir : bool;
  cap_unlink : bool;
  cap_symlink : bool;
  cap_large_file : bool
}.

Definition conservative : FileSystemCapabilities := mkCaps true false false false false.

(** The trait [FileSystem]; every call takes [&mut self]. *)
Class FileSystem (F : Type) : Type := {
  fs_capabilities : F -> FileSystemCapabilities;
  fs_open : F -> path -> Z -> option FileDescriptor * F;
  fs_read : F -> Z -> list Z -> result FsError Z * list Z * F;
  fs_write : F -> Z -> list Z -> result FsError Z * F;
  fs_close : F -> Z -> result FsError unit * F;
  fs_seek : F -> Z -> Z -> result FsError unit * F;
  fs_position : F -> Z -> result FsError Z * F;
  fs_size : F -> Z -> result FsError Z * F;
  fs_create : F -> path -> InodeType -> option Z * F;
  fs_mkdir : F -> path -> result FsError unit * F;
  fs_unlink : F -> path -> result FsError unit * F;
  fs_readdir : F -> path -> result FsError (list VNode) * F;
  fs_exists : F -> path -> bool * F
}.

(** ** MemFileSystem *)
Record Inode : Type := mkInode {
  ino_name : path;
  ino_kind : InodeType;
  ino_data : list Z;
  ino_children : list Z;
  ino_parent : Z;
  ino_target : option path;
  ino_size : Z
}.

(** [Inode::new]. *)
Definition inode_new (name : path) (kind : InodeType) (parent : Z) : Inode :=
  mkInode name kind [] [] parent None 0.

Definition set_children (i : Inode) (cs : list Z) : Inode :=
  mkInode (ino_name i) (ino_kind i) (ino_data i) cs (ino_parent i) (ino_target i) (ino_size i).
Definition set_data (i : Inode) (data : list Z) : Inode :=
  mkInode (ino_name i) (ino_kind i) data (ino_children i) (ino_parent i) (ino_target i) (zlen data).

Record MemFileSystem : Type := mkMem {
  inodes : gmap Z Inode;
  next_ino : Z;
  fds : gmap Z FileDescriptor;
  next_fd : Z
}.

Definition mem_new : MemFileSystem :=
  mkMem {[ 1 := inode_new [] Directory 0 ]} 2 ∅ 0.

Definition MAX_SYMLINK_DEPTH : nat := 8.

Section MemFs.
Implicit Types m : gmap Z Inode.

(** [lookup_child]: the first child with the name. *)
Definition lookup_child m (parent_ino : Z) (name : path) : option Z :=
  match m !! parent_ino with
  | None => None
  | Some parent =>
      find (fun c => match m !! c with
                     | Some i => bool_decide (ino_name i = name)
                     | None => false
                     end) (ino_children parent)
  end.

(** One component of the walk, before symbolic links are followed. *)
Definition walk_step m (current : Z) (comp : path) : option Z :=
  if decide (comp = P ".") then Some current
  else if decide (comp = P "..") then
    match m !! current with
    | None => None
    | Some i => Some (if ino_parent i =? 0 then 1 else ino_parent i)
    end
  else lookup_child m current comp.

(** The target of a link followed by the components still to walk. *)
Definition link_path (target : path) (trailing : list path) : path :=
  fold_left (fun acc t => acc ++ slash :: t) trailing target.

(** The loop over the components; [resolve] follows a symbolic link. *)
Fixpoint walk m (resolve : path -> Z -> option Z) (components : list path) (current : Z)
  : option Z :=
  match components with
  | [] => Some current
  | comp :: trailing =>
      match walk_step m current comp with
      | None => None
      | Some next =>
          match m !! next with
          | None => None
          | Some i =>
              match ino_target i with
              | Some target =>
                  resolve (link_path target trailing)
                    (if starts_with_slash target then 1 else current)
              | None => walk m resolve trailing next
              end
          end
      end
  end.

Definition components (s : path) : list path :=
  List.filter (fun c => bool_decide (c <> [])) (split_slash s).

(** [lookup_from]; the fuel counts the symbolic links still allowed, so fuel 0 is
    [depth > MAX_SYMLINK_DEPTH]. *)
Fixpoint lookup_from (fuel : nat) m (s : path) (start_ino : Z) : option Z :=
  match fuel with
  | O => None
  | S fuel' =>
      if decide (s = []) then Some start_ino
      else walk m (lookup_from fuel' m) (components s)
             (if starts_with_slash s then 1 else start_ino)
  end.

(** [lookup]. *)
Definition mem_lookup m (s : path) : option Z := lookup_from (S MAX_SYMLINK_DEPTH) m s 1.

(** [str::trim_end_matches('/')]. *)
Definition trim_end (s : path) : path :=
  rev ((fix go (r : path) : path :=
          match r with
          | c :: r' => if decide (c = slash) then go r' else r
          | [] => []
          end) (rev s)).

(** [str::rfind('/')] as the split around the last slash. *)
Fixpoint rsplit_slash (s : path) : option (path * path) :=
  match s with
  | [] => None
  | c :: s' =>
      match rsplit_slash s' with
      | Some (before, after) => Some (c :: before, after)
      | None => if decide (c = slash) then Some ([], s') else None
      end
  end.

(** [lookup_parent]. *)
Definition lookup_parent m (s0 : path) : option (Z * path) :=
  let s := trim_end s0 in
  if decide (s = []) then None
  else match rsplit_slash s with
       | Some (before, name) =>
           let parent_path := if decide (before = []) then P "/" else before in
           match mem_lookup m parent_path with
           | None => None
           | Some parent_ino => Some (parent_ino, name)
           end
       | None => Some (1, s)
       end.
End MemFs.

Section MemOps.
Implicit Types f : MemFileSystem.

Definition with_inodes f m : MemFileSystem := mkMem m (next_ino f) (fds f) (next_fd f).
Definition with_fds f t : MemFileSystem := mkMem (inodes f) (next_ino f) t (next_fd f).
Definition set_offset (d : FileDescriptor) (o : Z) : FileDescriptor :=
  mkFd (fd_fd d) (fd_ino d) o (fd_flags d).

(** [open]. *)
Definition mem_open f (s : path) (flags : Z) : option FileDescriptor * MemFileSystem :=
  match mem_lookup (inodes f) s with
  | None => (None, f)
  | Some ino =>
      let fd := next_fd f in
      let desc := mkFd fd ino 0 flags in
      (Some desc, mkMem (inodes f) (next_ino f) (<[fd := desc]> (fds f)) (fd + 1))
  end.

(** [read]: [usize] is 64-bit, so [usize::try_from(offset)] cannot fail. *)
Definition mem_read f (fd : Z) (buf : list Z) : result FsError Z * list Z * MemFileSystem :=
  match fds f !! fd with
  | None => (Err InvalidFileDescriptor, buf, f)
  | Some desc =>
      match inodes f !! fd_ino desc with
      | None => (Err FileNotFound, buf, f)
      | Some ino =>
          if negb (bool_decide (ino_kind ino = File)) then (Err IsADirectory, buf, f)
          else
            let offset := fd_offset desc in
            if zlen (ino_data ino) <=? offset then (Ok 0, buf, f)
            else
              let data := zslice (ino_data ino) offset (zlen (ino_data ino) - offset) in
              let n := Z.min (zlen data) (zlen buf) in
              match copy_from_slice buf 0 n (zslice data 0 n) with
              | None => (Panic, buf, f)
              | Some buf' =>
                  match u64_checked_add (fd_offset desc) n with
                  | None => (Err InvalidSeek, buf', f)
                  | Some o => (Ok n, buf', with_fds f (<[fd := set_offset desc o]> (fds f)))
                  end
              end
      end
  end.

(** [Vec::resize(new_len, 0)] when it grows. *)
Definition resize (data : list Z) (new_len : Z) : list Z :=
  data ++ replicate (Z.to_nat (new_len - zlen data)) 0.

(** [write]. *)
Definition mem_write f (fd : Z) (data : list Z) : result FsError Z * MemFileSystem :=
  match fds f !! fd with
  | None => (Err InvalidFileDescriptor, f)
  | Some desc =>
      match inodes f !! fd_ino desc with
      | None => (Err FileNotFound, f)
      | Some ino =>
          if negb (bool_decide (ino_kind ino = File)) then (Err IsADirectory, f)
          else
            let off := fd_offset desc in
            match u64_checked_add off (zlen data) with
            | None => (Err InvalidInput, f)
            | Some new_len =>
                let grown := if zlen (ino_data ino) <? new_len
                             then resize (ino_data ino) new_len else ino_data ino in
                match copy_from_slice grown off (zlen data) data with
                | None => (Panic, f)
                | Some bytes =>
                    let f1 := with_inodes f (<[fd_ino desc := set_data ino bytes]> (inodes f)) in
                    match u64_checked_add (fd_offset desc) (zlen data) with
                    | None => (Err InvalidSeek, f1)
                    | Some o => (Ok (zlen data), with_fds f1 (<[fd := set_offset desc o]> (fds f1)))
                    end
                end
            end
      end
  end.

(** [close], [seek], [position], [size]. *)
Definition mem_close f (fd : Z) : result FsError unit * MemFileSystem :=
  match fds f !! fd with
  | None => (Err InvalidFileDescriptor, f)
  | Some _ => (Ok tt, with_fds f (delete fd (fds f)))
  end.

Definition mem_seek f (fd pos : Z) : result FsError unit * MemFileSystem :=
  match fds f !! fd with
  | None => (Err InvalidFileDescriptor, f)
  | Some desc => (Ok tt, with_fds f (<[fd := set_offset desc pos]> (fds f)))
  end.

Definition mem_position f (fd : Z) : result FsError Z * MemFileSystem :=
  (match fds f !! fd with
   | None => Err InvalidFileDescriptor
   | Some desc => Ok (fd_offset desc)
   end, f).

Definition mem_size f (fd : Z) : result FsError Z * MemFileSystem :=
  (match fds f !! fd with
   | None => Err InvalidFileDescriptor
   | Some desc => match inodes f !! fd_ino desc with
                  | None => Err FileNotFound
                  | Some ino => Ok (ino_size ino)
                  end
   end, f).

(** [create]. *)
Definition mem_create f (s : path) (kind : InodeType) : option Z * MemFileSystem :=
  match mem_lookup (inodes f) s with
  | Some _ => (None, f)
  | None =>
      match lookup_parent (inodes f) s with
      | None => (None, f)
      | Some (parent_ino, name) =>
          match inodes f !! parent_ino with
          | None => (None, f)
          | Some parent =>
              if negb (bool_decide (ino_kind parent = Directory)) then (None, f)
              else
                let ino := next_ino f in
                let m1 := <[ino := inode_new name kind parent_ino]> (inodes f) in
                let m2 := match m1 !! parent_ino with
                          | Some p => <[parent_ino := set_children p (ino_children p ++ [ino])]> m1
                          | None => m1
                          end in
                (Some ino, mkMem m2 (ino + 1) (fds f) (next_fd f))
          end
      end
  end.

(** [mkdir]. *)
Definition mem_mkdir f (s : path) : result FsError unit * MemFileSystem :=
  if decide (s = P "/") then (Ok tt, f)
  else match lookup_parent (inodes f) s with
       | None => (Err InvalidPath, f)
       | Some _ =>
           let '(r, f') := mem_create f s Directory in
           (match r with Some _ => Ok tt | None => Err PermissionDenied end, f')
       end.

(** [unlink]. *)
Definition mem_unlink f (s : path) : result FsError unit * MemFileSystem :=
  match lookup_parent (inodes f) s with
  | None => (Err FileNotFound, f)
  | Some (parent_ino, name) =>
      match lookup_child (inodes f) parent_ino name with
      | None => (Err FileNotFound, f)
      | Some child_ino =>
          match inodes f !! child_ino with
          | None => (Err FileNotFound, f)
          | Some child =>
              if bool_decide (ino_kind child = Directory) && negb (bool_decide (ino_children child = []))
              then (Err DirectoryNotEmpty, f)
              else
                let m1 := match inodes f !! parent_ino with
                          | Some p => <[parent_ino := set_children p
                                (List.filter (fun c => negb (c =? child_ino)) (ino_children p))]> (inodes f)
                          | None => inodes f
                          end in
                (Ok tt, with_inodes f (delete child_ino m1))
          end
      end
  end.

(** [readdir]. *)
Definition mem_readdir f (s : path) : result FsError (list VNode) * MemFileSystem :=
  (match mem_lookup (inodes f) s with
   | None => Err FileNotFound
   | Some ino =>
       match inodes f !! ino with
       | None => Err FileNotFound
       | Some inode =>
           if negb (bool_decide (ino_kind inode = Directory)) then Err NotADirectory
           else Ok (omap (fun c => (fun child => mkVNode (ino_name child) (ino_size child)
                                      (bool_decide (ino_kind child = Directory)))
                                   <$> inodes f !! c) (ino_children inode))
       end
   end, f).

(** [exists]. *)
Definition mem_exists f (s : path) : bool * MemFileSystem :=
  (match mem_lookup (inodes f) s with Some _ => true | None => false end, f).
End MemOps.

#[global] Instance mem_fs : FileSystem MemFileSystem := {
  fs_capabilities := fun _ => mkCaps false true true true true;
  fs_open := mem_open;
  fs_read := mem_read;
  fs_write := mem_write;
  fs_close := mem_close;
  fs_seek := mem_seek;
  fs_position := mem_position;
  fs_size := mem_size;
  fs_create := mem_create;
  fs_mkdir := mem_mkdir;
  fs_unlink := mem_unlink;
  fs_readdir := mem_readdir;
  fs_exists := mem_exists
}.
