(* ===== verification/MemFs.v ===== *)
(** * Correctness of the in-memory file system (genome/src/vfs.rs)

    The tree invariant of the inode table and the descriptor invariant, their
    preservation by every operation, and the round trips: create and look up,
    unlink and look up, write, seek and read. *)

From S2P Require Import Prelude Block Path FileSystem.

(** ** Paths and components *)
Lemma components_app a b : components (a ++ slash :: b) = components a ++ components b.
Proof. unfold components. by rewrite split_slash_app, List.filter_app. Qed.

Lemma components_nil : components [] = [].
Proof. done. Qed.

Lemma components_single c : no_slash c -> c <> [] -> components c = [c].
Proof.
  intros Hs Hn. unfold components. rewrite split_slash_single by done. simpl.
  by rewrite bool_decide_true.
Qed.

Lemma rev_trim_spec (r : path) :
  exists n, r = replicate n slash
    ++ (fix go (r : path) : path :=
          match r with
          | c :: r' => if decide (c = slash) then go r' else r
          | [] => []
          end) r
  /\ forall c r', (fix go (r : path) : path :=
          match r with
          | c :: r' => if decide (c = slash) then go r' else r
          | [] => []
          end) r = c :: r' -> c <> slash.
Proof.
  induction r as [|c r (n & IH1 & IH2)].
  - exists 0%nat. done.
  - case_decide as Hc.
    + exists (S n). simpl. split; [by f_equal|done].
    + exists 0%nat. split; [done|]. by intros c' r' [= <- <-].
Qed.

Lemma trim_end_spec s :
  exists n, s = trim_end s ++ replicate n slash
  /\ forall a, trim_end s <> a ++ [slash].
Proof.
  unfold trim_end. destruct (rev_trim_spec (rev s)) as (n & E & Hhd).
  set (t := (fix go (r : path) : path := _) (rev s)) in *.
  exists n. split.
  - rewrite <- (rev_involutive s) at 1. rewrite E, rev_app_distr. f_equal.
    clear. induction n as [|n IH]; [done|]. simpl. rewrite IH.
    clear. induction n as [|n IH]; [done|]. simpl. by rewrite IH.
  - intros a Ha. apply (f_equal (rev (A := _))) in Ha. rewrite rev_involutive, rev_app_distr in Ha.
    simpl in Ha. by apply (Hhd _ _ Ha).
Qed.

Lemma components_trim s : components s = components (trim_end s).
Proof.
  destruct (trim_end_spec s) as (n & E & _). rewrite E at 1. clear E. generalize (trim_end s) as t. clear s.
  induction n as [|n IH]; intros t; simpl; [by rewrite app_nil_r|].
  rewrite components_app. specialize (IH []). simpl in IH.
  by rewrite IH, components_nil, app_nil_r.
Qed.

Lemma rsplit_Some s before after :
  rsplit_slash s = Some (before, after) -> s = before ++ slash :: after /\ no_slash after.
Proof.
  revert before after. induction s as [|c s IH]; intros before after; simpl; [done|].
  destruct (rsplit_slash s) as [[b a]|] eqn:E.
  - intros [= <- <-]. destruct (IH b a eq_refl) as [-> ?]. done.
  - case_decide; [|done]. intros [= <- <-]. split; [by subst|].
    clear IH H. unfold no_slash. induction s as [|d s IH]; [apply not_elem_of_nil|].
    simpl in E. destruct (rsplit_slash s) as [[? ?]|]; [done|]. case_decide; [done|].
    rewrite elem_of_cons. intros [?|?]; [congruence|by apply IH].
Qed.

Lemma rsplit_None s : rsplit_slash s = None -> no_slash s.
Proof.
  unfold no_slash. induction s as [|d s IH]; simpl; [intros; apply not_elem_of_nil|].
  destruct (rsplit_slash s) as [[? ?]|]; [done|]. case_decide; [done|]. intros _.
  rewrite elem_of_cons. intros [?|?]; [congruence|by apply IH].
Qed.

(** ** Walking without symbolic links *)
Section Walk.
Implicit Types m : gmap Z Inode.

Definition no_links m : Prop := forall k i, m !! k = Some i -> ino_target i = None.

(** The walk of the components, with no link to follow. *)
Fixpoint walk0 m (cs : list path) (cur : Z) : option Z :=
  match cs with
  | [] => Some cur
  | c :: cs' =>
      match walk_step m cur c with
      | Some next => if decide (is_Some (m !! next)) then walk0 m cs' next else None
      | None => None
      end
  end.

Lemma walk_no_links m r cs cur : no_links m -> walk m r cs cur = walk0 m cs cur.
Proof.
  intros Hn. revert cur. induction cs as [|c cs IH]; intros cur; simpl; [done|].
  destruct (walk_step m cur c) as [next|]; [|done].
  destruct (m !! next) as [i|] eqn:E; [|done]. rewrite (Hn _ _ E), decide_True by done. apply IH.
Qed.

Lemma mem_lookup_walk m s : no_links m -> mem_lookup m s = walk0 m (components s) 1.
Proof.
  intros Hn. unfold mem_lookup. cbn [lookup_from]. case_decide as Hs; [by subst|].
  rewrite walk_no_links by done. by destruct (starts_with_slash s).
Qed.

Lemma walk0_app m cs ds cur :
  walk0 m (cs ++ ds) cur = match walk0 m cs cur with Some x => walk0 m ds x | None => None end.
Proof.
  revert cur. induction cs as [|c cs IH]; intros cur; simpl; [done|].
  destruct (walk_step m cur c); [|done]. case_decide; [apply IH|done].
Qed.

(** What [lookup_parent] finds. *)
Lemma lookup_parent_spec m s parent name :
  no_links m -> lookup_parent m s = Some (parent, name) ->
  exists cs, components s = cs ++ [name] /\ no_slash name /\ name <> [] /\ walk0 m cs 1 = Some parent.
Proof.
  intros Hn. unfold lookup_parent. destruct (trim_end_spec s) as (_ & _ & Hend).
  rewrite components_trim. case_decide as Ht; [done|].
  destruct (rsplit_slash (trim_end s)) as [[before after]|] eqn:Er.
  - apply rsplit_Some in Er as [Es Hs].
    set (pp := if decide (before = []) then P "/" else before).
    destruct (mem_lookup m pp) as [x|] eqn:El; [|done]. intros [= -> ->].
    assert (name <> []) as Hne by (intros ->; by apply (Hend before)).
    exists (components before). rewrite Es, components_app, (components_single name) by done.
    split_and!; try done. rewrite mem_lookup_walk in El by done.
    rewrite <- El. unfold pp. case_decide; [by subst|done].
  - intros [= <- <-]. exists []. apply rsplit_None in Er. split_and!; try done.
    by rewrite components_single.
Qed.
End Walk.

(** ** The invariant *)
Definition name_of (m : gmap Z Inode) (c : Z) : option path := ino_name <$> m !! c.

Definition inode_ok (m : gmap Z Inode) (next k : Z) (i : Inode) : Prop :=
  1 <= k < next /\ ino_target i = None /\ ino_size i = zlen (ino_data i)
  /\ (ino_kind i <> Directory -> ino_children i = []) /\ NoDup (ino_children i)
  /\ (forall c, c ∈ ino_children i -> c <> 1 /\ exists j, m !! c = Some j /\ ino_parent j = k)
  /\ (forall c1 c2, c1 ∈ ino_children i -> c2 ∈ ino_children i ->
      name_of m c1 = name_of m c2 -> c1 = c2)
  /\ (k <> 1 -> good_comp (ino_name i)
      /\ exists p, m !! ino_parent i = Some p /\ ino_kind p = Directory /\ k ∈ ino_children p).

Definition mem_tree (m : gmap Z Inode) (next : Z) : Prop :=
  (exists root, m !! 1 = Some root /\ ino_kind root = Directory /\ ino_parent root = 0)
  /\ forall k i, m !! k = Some i -> inode_ok m next k i.

Definition fd_ok (f : MemFileSystem) (fd : Z) (d : FileDescriptor) : Prop :=
  fd_fd d = fd /\ 0 <= fd < next_fd f /\ 0 <= fd_offset d <= u64_max /\ 1 <= fd_ino d < next_ino f.

Definition mem_inv (f : MemFileSystem) : Prop :=
  mem_tree (inodes f) (next_ino f) /\ 0 <= next_fd f
  /\ forall fd d, fds f !! fd = Some d -> fd_ok f fd d.

Lemma mem_tree_no_links m next : mem_tree m next -> no_links m.
Proof. intros [_ Ht] k i Hk. by destruct (Ht k i Hk) as (_ & ? & _). Qed.

Lemma lookup_child_Some m next p name c :
  mem_tree m next -> lookup_child m p name = Some c ->
  exists pi ci, m !! p = Some pi /\ c ∈ ino_children pi /\ m !! c = Some ci /\ ino_name ci = name.
Proof.
  intros Ht. unfold lookup_child. destruct (m !! p) as [pi|] eqn:Ep; [|done]. intros Hf.
  apply find_some in Hf as [Hin Hc]. apply list_elem_of_In in Hin.
  destruct (m !! c) as [ci|] eqn:Ec; [|done]. apply bool_decide_eq_true in Hc.
  by exists pi, ci.
Qed.

(** Names are unique in a directory, so the first child with a name is the only one. *)
Lemma lookup_child_unique m next p pi c ci :
  mem_tree m next -> m !! p = Some pi -> c ∈ ino_children pi -> m !! c = Some ci ->
  lookup_child m p (ino_name ci) = Some c.
Proof.
  intros Ht Hp Hc Hci. pose proof (proj2 Ht _ _ Hp) as (_ & _ & _ & _ & _ & _ & Hu & _).
  destruct (lookup_child m p (ino_name ci)) as [c'|] eqn:E.
  - destruct (lookup_child_Some _ _ _ _ _ Ht E) as (pi' & ci' & Hp' & Hc' & Hci' & Hn).
    rewrite Hp in Hp'. injection Hp' as <-. f_equal. apply Hu; try done.
    unfold name_of. rewrite Hci, Hci'. simpl. by rewrite Hn.
  - unfold lookup_child in E. rewrite Hp in E.
    eapply find_none in E; [|by apply list_elem_of_In]. rewrite Hci in E.
    by apply bool_decide_eq_false in E.
Qed.

Lemma lookup_child_None m p pi name :
  m !! p = Some pi -> lookup_child m p name = None ->
  forall c, c ∈ ino_children pi -> name_of m c <> Some name.
Proof.
  intros Hp. unfold lookup_child. rewrite Hp. intros Hf c Hc Hn.
  eapply find_none in Hf; [|by apply list_elem_of_In].
  unfold name_of in Hn. destruct (m !! c) as [ci|]; [|done].
  apply bool_decide_eq_false in Hf. apply Hf. by injection Hn.
Qed.

(** A walk stays inside the table. *)
Lemma walk0_in_table m next cs cur x :
  mem_tree m next -> is_Some (m !! cur) -> walk0 m cs cur = Some x -> is_Some (m !! x).
Proof.
  intros Ht. revert cur. induction cs as [|c cs IH]; intros cur Hcur; simpl; [by intros [= <-]|].
  destruct (walk_step m cur c) as [n|]; [|done]. case_decide as Hd; [|done]. by apply IH.
Qed.

(** The special components always lead somewhere. *)
Lemma walk_step_special m next cur c :
  mem_tree m next -> is_Some (m !! cur) -> c = P "." \/ c = P ".." ->
  exists x, walk_step m cur c = Some x /\ is_Some (m !! x).
Proof.
  intros [(root & Hr & _ & Hpar) Ht] [i Hi] Hc. unfold walk_step.
  case_decide; [by exists cur|]. destruct Hc as [->| ->]; [done|].
  rewrite decide_True by done. rewrite Hi. eexists. split; [done|].
  case_match eqn:E; [by rewrite Hr|]. bool_to_prop.
  destruct (Ht _ _ Hi) as (_ & _ & _ & _ & _ & _ & _ & Hup).
  destruct (decide (cur = 1)) as [->|Hne].
  { exfalso. rewrite Hr in Hi. by injection Hi as <-. }
  destruct (Hup Hne) as (_ & p & -> & _). by eexists.
Qed.

(** ** Creating *)

(** The inode table after adding the inode [ino] to the directory [p]. *)
Definition add_child (m : gmap Z Inode) (p : Z) (pi : Inode) (ino : Z) (name : path)
    (kind : InodeType) : gmap Z Inode :=
  <[p := set_children pi (ino_children pi ++ [ino])]> (<[ino := inode_new name kind p]> m).

Lemma mem_create_spec f s kind r f' :
  mem_inv f -> mem_create f s kind = (r, f') ->
  (r = None /\ f' = f)
  \/ exists p pi name cs, r = Some (next_ino f) /\ components s = cs ++ [name] /\ good_comp name
     /\ walk0 (inodes f) cs 1 = Some p /\ inodes f !! p = Some pi /\ ino_kind pi = Directory
     /\ lookup_child (inodes f) p name = None
     /\ f' = mkMem (add_child (inodes f) p pi (next_ino f) name kind) (next_ino f + 1) (fds f) (next_fd f).
Proof.
  intros (Ht & _). pose proof (mem_tree_no_links _ _ Ht) as Hnl. unfold mem_create.
  rewrite mem_lookup_walk by done.
  destruct (walk0 (inodes f) (components s) 1) as [x|] eqn:El; [intros [= <- <-]; by left|].
  destruct (lookup_parent (inodes f) s) as [[p name]|] eqn:Ep; [|intros [= <- <-]; by left].
  destruct (inodes f !! p) as [pi|] eqn:Epi; [|intros [= <- <-]; by left].
  destruct (bool_decide (ino_kind pi = Directory)) eqn:Ek; [|intros [= <- <-]; by left].
  apply bool_decide_eq_true in Ek. simpl. intros [= <- <-]. right.
  destruct (lookup_parent_spec _ _ _ _ Hnl Ep) as (cs & Hcs & Hns & Hne & Hw).
  assert (is_Some (inodes f !! p)) as Hps by (rewrite Epi; by eexists).
  rewrite Hcs, walk0_app, Hw in El. simpl in El.
  assert (good_comp name) as Hg.
  { unfold good_comp. split_and!; try done; intros ->.
    - destruct (walk_step_special _ _ p (P ".") Ht Hps) as (y & Hy & Hys); [by left|].
      rewrite Hy in El. by rewrite decide_True in El.
    - destruct (walk_step_special _ _ p (P "..") Ht Hps) as (y & Hy & Hys); [by right|].
      rewrite Hy in El. by rewrite decide_True in El. }
  exists p, pi, name, cs. split_and!; try done.
  - destruct Hg as (_ & Hd & Hdd & _). unfold walk_step in El. rewrite !decide_False in El by done.
    destruct (lookup_child (inodes f) p name) as [c|] eqn:Ec; [|done].
    destruct (lookup_child_Some _ _ _ _ _ Ht Ec) as (_ & ci & _ & _ & Hci & _).
    rewrite decide_True in El by (rewrite Hci; by eexists). done.
  - destruct (proj2 Ht _ _ Epi) as (Hlt & _). unfold add_child.
    rewrite lookup_insert_ne by lia. by rewrite Epi.
Qed.

Lemma add_child_lookup m p pi ino name kind k i :
  m !! p = Some pi -> m !! ino = None ->
  add_child m p pi ino name kind !! k = Some i <->
  (k = p /\ i = set_children pi (ino_children pi ++ [ino]))
  \/ (k = ino /\ i = inode_new name kind p)
  \/ (k <> p /\ k <> ino /\ m !! k = Some i).
Proof.
  intros Hp Hi. assert (p <> ino) by congruence. unfold add_child.
  rewrite !lookup_insert_Some. clear -H. naive_solver.
Qed.

Lemma add_child_name m p pi ino name kind c :
  m !! p = Some pi -> m !! ino = None ->
  name_of (add_child m p pi ino name kind) c = if decide (c = ino) then Some name else name_of m c.
Proof.
  intros Hp Hi. assert (p <> ino) by congruence. unfold name_of, add_child. case_decide as Hc.
  - subst. by rewrite lookup_insert_ne, lookup_insert_eq.
  - destruct (decide (c = p)) as [->|].
    + by rewrite lookup_insert_eq, Hp.
    + by rewrite !lookup_insert_ne.
Qed.

Lemma mem_tree_fresh m next : mem_tree m next -> m !! next = None.
Proof.
  intros [_ Ht]. destruct (m !! next) as [i|] eqn:E; [|done].
  destruct (Ht _ _ E) as (? & _). lia.
Qed.

(** Adding a fresh name to a directory keeps the table a tree. *)
Lemma add_child_tree m next p pi name kind :
  mem_tree m next -> m !! p = Some pi -> ino_kind pi = Directory -> good_comp name ->
  lookup_child m p name = None -> mem_tree (add_child m p pi next name kind) (next + 1).
Proof.
  intros Ht Hp Hk Hg Hnew. pose proof (mem_tree_fresh _ _ Ht) as Hf.
  pose proof Ht as [(root & Hr & Hrk & Hrp) Hall]. pose proof (Hall _ _ Hp) as Hpok.
  assert (p <> next) as Hpn by congruence.
  assert (forall k i, add_child m p pi next name kind !! k = Some i -> k <> next ->
    exists j, m !! k = Some j /\ ino_parent i = ino_parent j /\ ino_kind i = ino_kind j
    /\ ino_name i = ino_name j /\ (forall c, c ∈ ino_children j -> c ∈ ino_children i)) as Hold.
  { intros k i Hki Hkn. apply add_child_lookup in Hki as [[-> ->]|[[-> ->]|(? & ? & Hm)]]; try done.
    - exists pi. split_and!; try done. intros c Hc. simpl. set_solver.
    - by exists i. }
  assert (forall k j, m !! k = Some j -> exists i, add_child m p pi next name kind !! k = Some i
    /\ ino_parent i = ino_parent j /\ ino_kind i = ino_kind j
    /\ (forall c, c ∈ ino_children j -> c ∈ ino_children i)) as Hnew2.
  { intros k j Hkj. assert (k <> next) by congruence. destruct (decide (k = p)) as [->|].
    - exists (set_children pi (ino_children pi ++ [next])). rewrite Hp in Hkj. injection Hkj as <-.
      split_and!; try done; [apply add_child_lookup; auto|]. intros c Hc. simpl. set_solver.
    - exists j. split_and!; try done. apply add_child_lookup; auto. }
  split.
  { destruct (Hnew2 _ _ Hr) as (i & Hi & Hpar & Hkind & _). exists i. split_and!; congruence. }
  intros k i Hki.
  assert (forall j, k <> 1 -> m !! k = Some j -> ino_parent i = ino_parent j -> ino_name i = ino_name j ->
    good_comp (ino_name i) /\ exists q, add_child m p pi next name kind !! ino_parent i = Some q
      /\ ino_kind q = Directory /\ k ∈ ino_children q) as Hup.
  { intros j Hk1 Hkj Hpar Hnm. destruct (Hall _ _ Hkj) as (_ & _ & _ & _ & _ & _ & _ & Hu).
    destruct (Hu Hk1) as (Hgn & q & Hq & Hqk & Hqc). rewrite Hnm, Hpar. split; [done|].
    destruct (Hnew2 _ _ Hq) as (q' & Hq' & _ & Hqk' & Hqc'). exists q'. split_and!; auto. congruence. }
  apply add_child_lookup in Hki as [[-> ->]|[[-> ->]|(Hkp & Hkn & Hm)]]; try done.
  - destruct Hpok as (Hlt & Htg & Hsz & Hch & Hnd & Hcs & Hun & _). unfold inode_ok. simpl.
    split_and!; try done; try lia.
    + apply NoDup_app. split_and!; [done| |apply NoDup_singleton].
      intros c Hc ->%list_elem_of_singleton. destruct (Hcs _ Hc) as (_ & j & Hj & _). congruence.
    + intros c [Hc| ->%list_elem_of_singleton]%elem_of_app.
      * destruct (Hcs _ Hc) as (? & j & Hj & Hjp). split; [done|].
        destruct (Hnew2 _ _ Hj) as (i & Hi & Hip & _). exists i. split; [done|congruence].
      * destruct (Hall _ _ Hr) as (? & _). split; [lia|].
        exists (inode_new name kind p). split; [|done]. apply add_child_lookup; auto.
    + intros c1 c2 H1 H2. rewrite !add_child_name by done.
      pose proof (lookup_child_None _ _ _ _ Hp Hnew) as Hnn.
      apply elem_of_app in H1 as [H1|H1%list_elem_of_singleton];
        apply elem_of_app in H2 as [H2|H2%list_elem_of_singleton]; subst;
        repeat case_decide; subst; try done; intros E;
        first [by destruct (Hnn _ H1 E)|by destruct (Hnn _ H2 (eq_sym E))|by apply Hun].
    + intros Hk1. apply (Hup pi); done.
  - unfold inode_ok. simpl. destruct Hpok as (? & _). split_and!; try done; try lia.
    + by apply NoDup_nil_2.
    + intros c Hc. by apply not_elem_of_nil in Hc.
    + intros c1 c2 Hc. by apply not_elem_of_nil in Hc.
    + intros _. split; [done|]. eexists. split; [apply add_child_lookup; auto|]. split; [done|].
      simpl. set_solver.
  - destruct (Hall _ _ Hm) as (Hlt & Htg & Hsz & Hch & Hnd & Hcs & Hun & _). unfold inode_ok.
    split_and!; try done; try lia.
    + intros c Hc. destruct (Hcs _ Hc) as (? & j & Hj & Hjp). split; [done|].
      destruct (Hnew2 _ _ Hj) as (j' & Hj' & Hjp' & _). exists j'. split; [done|congruence].
    + intros c1 c2 H1 H2. rewrite !add_child_name by done.
      destruct (Hcs _ H1) as (_ & j1 & Hj1 & _). destruct (Hcs _ H2) as (_ & j2 & Hj2 & _).
      rewrite !decide_False by congruence. by apply Hun.
    + intros Hk1. by apply (Hup i).
Qed.

(** Adding an inode disturbs no successful walk. *)
Lemma add_child_step m next p pi name kind cur c x :
  mem_tree m next -> m !! p = Some pi -> walk_step m cur c = Some x -> is_Some (m !! x) ->
  walk_step (add_child m p pi next name kind) cur c = Some x.
Proof.
  intros Ht Hp Hw Hx. pose proof (mem_tree_fresh _ _ Ht) as Hf. unfold walk_step in *.
  case_decide; [done|]. case_decide.
  - destruct (m !! cur) as [i|] eqn:Ei; [|done].
    assert (exists j, add_child m p pi next name kind !! cur = Some j /\ ino_parent j = ino_parent i)
      as (j & -> & ->); [|done].
    assert (cur <> next) by congruence. destruct (decide (cur = p)) as [->|].
    + eexists. split; [apply add_child_lookup; auto|]. simpl. congruence.
    + exists i. split; [|done]. apply add_child_lookup; auto.
  - unfold lookup_child in *. destruct (m !! cur) as [i|] eqn:Ei; [|done].
    pose proof (proj2 Ht _ _ Ei) as (_ & _ & _ & _ & _ & Hcs & _ & _).
    assert (forall l l', (forall y, y ∈ l -> y ∈ ino_children i) ->
      find (fun y => match m !! y with Some iy => bool_decide (ino_name iy = c) | None => false end) l = Some x ->
      find (fun y => match add_child m p pi next name kind !! y with
                     | Some iy => bool_decide (ino_name iy = c) | None => false end) (l ++ l') = Some x) as Hfind.
    { induction l as [|y l IH]; intros l' Hl; [done|]. simpl.
      destruct (Hcs y) as (_ & iy & Hiy & _); [apply Hl; set_solver|]. rewrite Hiy.
      assert (name_of (add_child m p pi next name kind) y = Some (ino_name iy)) as Hn.
      { rewrite add_child_name by done. rewrite decide_False by congruence. unfold name_of. by rewrite Hiy. }
      unfold name_of in Hn. destruct (add_child m p pi next name kind !! y) as [iy'|]; [|done].
      injection Hn as ->. case_bool_decide; [done|]. apply IH. intros z Hz. apply Hl. set_solver. }
    assert (cur <> next) by congruence.
    destruct (decide (cur = p)) as [->|].
    + rewrite (proj2 (add_child_lookup m p pi next name kind p _ Hp Hf) (or_introl (conj eq_refl eq_refl))).
      rewrite Hp in Ei. injection Ei as <-. simpl. by apply Hfind.
    + rewrite (proj2 (add_child_lookup m p pi next name kind cur i Hp Hf)) by auto.
      rewrite <- (app_nil_r (ino_children i)). by apply Hfind.
Qed.

Lemma add_child_walk m next p pi name kind cs cur x :
  mem_tree m next -> m !! p = Some pi -> walk0 m cs cur = Some x ->
  walk0 (add_child m p pi next name kind) cs cur = Some x.
Proof.
  intros Ht Hp. revert cur. induction cs as [|c cs IH]; intros cur; simpl; [done|].
  destruct (walk_step m cur c) as [y|] eqn:Ey; [|done]. case_decide as Hy; [|done]. intros Hw.
  rewrite (add_child_step _ _ _ _ _ _ _ _ _ Ht Hp Ey Hy).
  rewrite decide_True; [by apply IH|]. destruct Hy as [i Hi].
  pose proof (mem_tree_fresh _ _ Ht) as Hf. assert (y <> next) by congruence.
  destruct (decide (y = p)) as [->|].
  - eexists. apply add_child_lookup; auto.
  - exists i. apply add_child_lookup; auto.
Qed.

(** ** Unlinking *)
Definition remove_child (m : gmap Z Inode) (p : Z) (pi : Inode) (child : Z) : gmap Z Inode :=
  delete child (<[p := set_children pi
    (List.filter (fun c => negb (c =? child)) (ino_children pi))]> m).

Lemma mem_unlink_spec f s r f' :
  mem_inv f -> mem_unlink f s = (r, f') ->
  (r <> Ok tt /\ r <> Panic /\ f' = f)
  \/ exists p pi name cs child ci, r = Ok tt /\ components s = cs ++ [name]
     /\ walk0 (inodes f) cs 1 = Some p /\ inodes f !! p = Some pi
     /\ lookup_child (inodes f) p name = Some child /\ inodes f !! child = Some ci
     /\ ino_name ci = name /\ child ∈ ino_children pi /\ ino_children ci = []
     /\ f' = with_inodes f (remove_child (inodes f) p pi child).
Proof.
  intros (Ht & _). pose proof (mem_tree_no_links _ _ Ht) as Hnl. unfold mem_unlink.
  destruct (lookup_parent (inodes f) s) as [[p name]|] eqn:Ep; [|intros [= <- <-]; by left].
  destruct (lookup_child (inodes f) p name) as [child|] eqn:Ec; [|intros [= <- <-]; by left].
  destruct (lookup_child_Some _ _ _ _ _ Ht Ec) as (pi & ci & Hp & Hin & Hci & Hn).
  rewrite Hci, Hp.
  destruct (bool_decide (ino_kind ci = Directory) && negb (bool_decide (ino_children ci = []))) eqn:Eb;
    intros [= <- <-]; [by left|right].
  destruct (lookup_parent_spec _ _ _ _ Hnl Ep) as (cs & Hcs & _ & _ & Hw).
  exists p, pi, name, cs, child, ci. split_and!; try done.
  destruct (proj2 Ht _ _ Hci) as (_ & _ & _ & Hnd & _). apply andb_false_iff in Eb as [Eb|Eb].
  - apply bool_decide_eq_false in Eb. auto.
  - apply negb_false_iff, bool_decide_eq_true in Eb. done.
Qed.

Lemma elem_of_remove (l : list Z) child c :
  c ∈ List.filter (fun x => negb (x =? child)) l <-> c ∈ l /\ c <> child.
Proof.
  rewrite !list_elem_of_In, filter_In, negb_true_iff, Z.eqb_neq. done.
Qed.

Lemma remove_child_lookup m p pi child k i :
  m !! p = Some pi -> p <> child ->
  remove_child m p pi child !! k = Some i <->
  k <> child /\ ((k = p /\ i = set_children pi (List.filter (fun c => negb (c =? child)) (ino_children pi)))
                 \/ (k <> p /\ m !! k = Some i)).
Proof.
  intros Hp Hne. unfold remove_child. rewrite lookup_delete_Some, lookup_insert_Some.
  clear -Hne. naive_solver.
Qed.

Lemma remove_child_name m p pi child c :
  m !! p = Some pi -> p <> child -> c <> child -> name_of (remove_child m p pi child) c = name_of m c.
Proof.
  intros Hp Hne Hc. unfold name_of, remove_child. rewrite lookup_delete_ne by done.
  destruct (decide (c = p)) as [->|]; [by rewrite lookup_insert_eq, Hp|by rewrite lookup_insert_ne].
Qed.

(** Removing a leaf keeps the table a tree. *)
Lemma remove_child_tree m next p pi child ci :
  mem_tree m next -> m !! p = Some pi -> child ∈ ino_children pi -> m !! child = Some ci ->
  ino_children ci = [] -> mem_tree (remove_child m p pi child) next.
Proof.
  intros Ht Hp Hin Hci Hleaf. pose proof Ht as [(root & Hr & Hrk & Hrp) Hall].
  destruct (Hall _ _ Hp) as (Hlt & Htg & Hsz & Hch & Hnd & Hcs & Hun & Hup).
  destruct (Hcs _ Hin) as (Hc1 & ci' & Hci' & Hcp). rewrite Hci in Hci'. injection Hci' as <-.
  assert (p <> child) as Hpc.
  { intros ->. rewrite Hp in Hci. injection Hci as ->. rewrite Hleaf in Hin. by apply not_elem_of_nil in Hin. }
  assert (forall k i, m !! k = Some i -> k <> child -> exists i',
    remove_child m p pi child !! k = Some i' /\ ino_parent i' = ino_parent i /\ ino_kind i' = ino_kind i
    /\ (forall c, c <> child -> c ∈ ino_children i -> c ∈ ino_children i')) as Hkeep.
  { intros k i Hk Hkc. destruct (decide (k = p)) as [->|].
    - rewrite Hp in Hk. injection Hk as <-. eexists. split; [apply remove_child_lookup; auto|].
      split_and!; try done. intros c Hcc Hcin. simpl. by apply elem_of_remove.
    - exists i. split; [apply remove_child_lookup; auto|]. auto. }
  split.
  { destruct (Hkeep _ _ Hr) as (i & Hi & Hpar & Hkind & _); [done|]. exists i. split_and!; congruence. }
  intros k i Hki. apply remove_child_lookup in Hki as [Hkc [[-> ->]|[Hkp Hm]]]; try done.
  - unfold inode_ok. simpl. split_and!; try done; try lia.
    + intros Hk. by rewrite (Hch Hk).
    + by apply NoDup_ListNoDup, List.NoDup_filter, NoDup_ListNoDup.
    + intros c [Hcin Hcc]%elem_of_remove. destruct (Hcs _ Hcin) as (? & j & Hj & Hjp). split; [done|].
      destruct (Hkeep _ _ Hj Hcc) as (j' & Hj' & Hjp' & _). exists j'. split; [done|congruence].
    + intros c1 c2 [H1 H1c]%elem_of_remove [H2 H2c]%elem_of_remove.
      rewrite !remove_child_name by done. by apply Hun.
    + intros Hk1. destruct (Hup Hk1) as (Hg & q & Hq & Hqk & Hqc). split; [done|].
      assert (ino_parent pi <> child) as Hnc.
      { intros Heq. rewrite Heq, Hci in Hq. injection Hq as <-. rewrite Hleaf in Hqc. by apply not_elem_of_nil in Hqc. }
      destruct (Hkeep _ _ Hq Hnc) as (q' & Hq' & _ & Hqk' & Hqc'). exists q'. split_and!; auto. congruence.
  - destruct (Hall _ _ Hm) as (Hlt' & Htg' & Hsz' & Hch' & Hnd' & Hcs' & Hun' & Hup').
    assert (child ∉ ino_children i) as Hni.
    { intros Hci2. destruct (Hcs' _ Hci2) as (_ & j & Hj & Hjp). congruence. }
    unfold inode_ok. split_and!; try done; try lia.
    + intros c Hc. destruct (Hcs' _ Hc) as (? & j & Hj & Hjp). split; [done|].
      assert (c <> child) as Hcc by (by intros ->).
      destruct (Hkeep _ _ Hj Hcc) as (j' & Hj' & Hjp' & _). exists j'. split; [done|congruence].
    + intros c1 c2 H1 H2. rewrite !remove_child_name by (done || by intros ->). by apply Hun'.
    + intros Hk1. destruct (Hup' Hk1) as (Hg & q & Hq & Hqk & Hqc). split; [done|].
      assert (ino_parent i <> child) as Hnc.
      { intros Heq. rewrite Heq, Hci in Hq. injection Hq as <-. rewrite Hleaf in Hqc. by apply not_elem_of_nil in Hqc. }
      destruct (Hkeep _ _ Hq Hnc) as (q' & Hq' & _ & Hqk' & Hqc'). exists q'. split_and!; auto. congruence.
Qed.

(** A walk that still succeeds after the removal led to the same place before. *)
Lemma remove_child_step m next p pi child cur c x :
  mem_tree m next -> m !! p = Some pi -> p <> child ->
  walk_step (remove_child m p pi child) cur c = Some x -> walk_step m cur c = Some x.
Proof.
  intros Ht Hp Hne. unfold walk_step. case_decide; [done|]. case_decide.
  - destruct (remove_child m p pi child !! cur) as [i|] eqn:Ei; [|done].
    apply remove_child_lookup in Ei as [_ [[-> ->]|[_ ->]]]; try done. by rewrite Hp.
  - unfold lookup_child at 1. destruct (remove_child m p pi child !! cur) as [i|] eqn:Ei; [|done].
    intros [Hin Hnm]%find_some. apply list_elem_of_In in Hin.
    destruct (remove_child m p pi child !! x) as [ix|] eqn:Ex; [|done].
    apply bool_decide_eq_true in Hnm. subst c.
    assert (x <> child) as Hxc by (apply remove_child_lookup in Ex; tauto).
    assert (exists jx, m !! x = Some jx /\ ino_name jx = ino_name ix) as (jx & Hjx & <-).
    { apply remove_child_lookup in Ex as [_ [[-> ->]|[_ Hm]]]; try done; eauto. }
    apply remove_child_lookup in Ei as [_ [[-> ->]|[_ Hm]]]; try done.
    + simpl in Hin. apply elem_of_remove in Hin as [Hin _]. by eapply lookup_child_unique.
    + by eapply lookup_child_unique.
Qed.

Lemma remove_child_walk m next p pi child cs cur x :
  mem_tree m next -> m !! p = Some pi -> p <> child ->
  walk0 (remove_child m p pi child) cs cur = Some x -> walk0 m cs cur = Some x.
Proof.
  intros Ht Hp Hne. revert cur. induction cs as [|c cs IH]; intros cur; simpl; [done|].
  destruct (walk_step (remove_child m p pi child) cur c) as [y|] eqn:Ey; [|done].
  case_decide as Hy; [|done]. intros Hw. rewrite (remove_child_step _ _ _ _ _ _ _ _ Ht Hp Hne Ey).
  rewrite decide_True; [by apply IH|]. destruct Hy as [i Hi].
  apply remove_child_lookup in Hi as [_ [[-> _]|[_ ?]]]; try done; by eexists.
Qed.

(** ** File contents *)

(** The bytes of a file after writing [data] at [off]: a gap is filled with zeros. *)
Definition written (old new : list Z) (off : Z) (data : list Z) : Prop :=
  zlen new = Z.max (zlen old) (off + zlen data)
  /\ forall k, 0 <= k < zlen new ->
     znth 0 new k = if (off <=? k) && (k <? off + zlen data) then znth 0 data (k - off)
                    else if k <? zlen old then znth 0 old k else 0.

Lemma resize_spec old n :
  zlen old <= n ->
  zlen (resize old n) = n
  /\ forall k, 0 <= k < n -> znth 0 (resize old n) k = if k <? zlen old then znth 0 old k else 0.
Proof.
  intros Hn. pose proof (zlen_nonneg old). unfold resize. split.
  - rewrite zlen_app, zlen_replicate. lia.
  - intros k Hk. rewrite znth_app by lia. destruct (Z.ltb_spec k (zlen old)); [done|].
    unfold znth. by rewrite nth_lookup, lookup_replicate_2 by lia.
Qed.

Lemma mem_write_spec f fd data d i :
  mem_inv f -> fds f !! fd = Some d -> inodes f !! fd_ino d = Some i -> ino_kind i = File ->
  fd_offset d + zlen data <= u64_max ->
  exists bytes, written (ino_data i) bytes (fd_offset d) data
  /\ mem_write f fd data =
     (Ok (zlen data),
      mkMem (<[fd_ino d := set_data i bytes]> (inodes f)) (next_ino f)
        (<[fd := set_offset d (fd_offset d + zlen data)]> (fds f)) (next_fd f)).
Proof.
  intros (_ & _ & Hfd) Hd Hi Hk Hfit. destruct (Hfd _ _ Hd) as (_ & _ & Hoff & _).
  pose proof (zlen_nonneg data). pose proof (zlen_nonneg (ino_data i)).
  unfold mem_write. rewrite Hd, Hi, bool_decide_true by done. simpl.
  rewrite u64_checked_add_fit by done.
  set (grown := if zlen (ino_data i) <? fd_offset d + zlen data then _ else _).
  assert (zlen grown = Z.max (zlen (ino_data i)) (fd_offset d + zlen data)
    /\ forall k, 0 <= k < zlen grown ->
       znth 0 grown k = if k <? zlen (ino_data i) then znth 0 (ino_data i) k else 0) as [Hgl Hgk].
  { unfold grown. destruct (Z.ltb_spec (zlen (ino_data i)) (fd_offset d + zlen data)).
    - destruct (resize_spec (ino_data i) (fd_offset d + zlen data)) as [Hl Hk']; [lia|].
      rewrite Hl. split; [lia|done].
    - split; [lia|]. intros k Hkk. by rewrite (proj2 (Z.ltb_lt _ _)) by lia. }
  rewrite copy_from_slice_Some by lia. eexists. split; [|done].
  split; [rewrite zlen_zsplice; lia|]. rewrite zlen_zsplice by lia. intros k Hkk.
  rewrite znth_zsplice by lia. destruct (_ && _); [done|]. by apply Hgk.
Qed.

(** Replacing the contents of a file keeps the table a tree. *)
Lemma set_data_tree m next k i bytes :
  mem_tree m next -> m !! k = Some i -> mem_tree (<[k := set_data i bytes]> m) next.
Proof.
  intros [(root & Hr & Hrk & Hrp) Hall] Hk.
  assert (forall x y, <[k := set_data i bytes]> m !! x = Some y -> exists z, m !! x = Some z
    /\ ino_name y = ino_name z /\ ino_kind y = ino_kind z /\ ino_children y = ino_children z
    /\ ino_parent y = ino_parent z /\ ino_target y = ino_target z
    /\ (y = z \/ ino_size y = zlen (ino_data y))) as Hback.
  { intros x y [[<- <-]|[_ Hx]]%lookup_insert_Some; [exists i|exists y]; split_and!; auto. }
  assert (forall x z, m !! x = Some z -> exists y, <[k := set_data i bytes]> m !! x = Some y
    /\ ino_kind y = ino_kind z /\ ino_children y = ino_children z /\ ino_parent y = ino_parent z) as Hfwd.
  { intros x z Hx. destruct (decide (x = k)) as [->|].
    - rewrite Hk in Hx. injection Hx as <-. eexists. rewrite lookup_insert_eq. split_and!; try done.
    - exists z. rewrite lookup_insert_ne by done. done. }
  assert (forall x, name_of (<[k := set_data i bytes]> m) x = name_of m x) as Hnm.
  { intros x. unfold name_of. destruct (decide (x = k)) as [->|].
    - by rewrite lookup_insert_eq, Hk.
    - by rewrite lookup_insert_ne. }
  split.
  { destruct (Hfwd _ _ Hr) as (y & Hy & ? & _ & ?). exists y. split_and!; congruence. }
  intros x y Hxy. destruct (Hback _ _ Hxy) as (z & Hz & E1 & E2 & E3 & E4 & E5 & E6).
  destruct (Hall _ _ Hz) as (Hlt & Htg & Hsz & Hch & Hnd & Hcs & Hun & Hup).
  unfold inode_ok. rewrite E1, E2, E3, E4, E5. split_and!; try done; try lia.
  - destruct E6 as [->|E6]; [done|congruence].
  - intros c Hc. destruct (Hcs _ Hc) as (? & j & Hj & ?). split; [done|].
    destruct (Hfwd _ _ Hj) as (j' & Hj' & _ & _ & ?). exists j'. split; [done|congruence].
  - intros c1 c2. rewrite !Hnm. apply Hun.
  - intros Hx1. destruct (Hup Hx1) as (Hg & q & Hq & Hqk & Hqc). split; [done|].
    destruct (Hfwd _ _ Hq) as (q' & Hq' & ? & Hqc' & _). exists q'. rewrite Hqc'. split_and!; congruence.
Qed.

(** ** The operations as steps *)
Inductive mem_op : Type :=
| OpOpen (s : path) (flags : Z)
| OpRead (fd : Z) (buf : list Z)
| OpWrite (fd : Z) (data : list Z)
| OpClose (fd : Z)
| OpSeek (fd pos : Z)
| OpCreate (s : path) (kind : InodeType)
| OpMkdir (s : path)
| OpUnlink (s : path).

Definition mem_step (f : MemFileSystem) (op : mem_op) : MemFileSystem :=
  match op with
  | OpOpen s flags => (mem_open f s flags).2
  | OpRead fd buf => (mem_read f fd buf).2
  | OpWrite fd data => (mem_write f fd data).2
  | OpClose fd => (mem_close f fd).2
  | OpSeek fd pos => (mem_seek f fd pos).2
  | OpCreate s kind => (mem_create f s kind).2
  | OpMkdir s => (mem_mkdir f s).2
  | OpUnlink s => (mem_unlink f s).2
  end.

(** A seek position is a [u64]. *)
Definition op_typed (op : mem_op) : Prop :=
  match op with OpSeek _ pos => 0 <= pos <= u64_max | _ => True end.

Lemma mem_inv_fds f t :
  mem_inv f -> (forall fd d, t !! fd = Some d -> fd_ok f fd d) -> mem_inv (with_fds f t).
Proof. intros (Ht & Hn & _) H. split; [done|]. split; [done|]. exact H. Qed.

Lemma mem_inv_offset f fd d o :
  mem_inv f -> fds f !! fd = Some d -> 0 <= o <= u64_max ->
  mem_inv (with_fds f (<[fd := set_offset d o]> (fds f))).
Proof.
  intros Hf Hd Ho. apply mem_inv_fds; [done|]. intros fd' d' [[<- <-]|[_ Hd']]%lookup_insert_Some.
  - destruct Hf as (_ & _ & Hfd). destruct (Hfd _ _ Hd) as (? & ? & ? & ?). done.
  - by apply Hf.
Qed.

Lemma mem_inv_create f s kind : mem_inv f -> mem_inv (mem_create f s kind).2.
Proof.
  intros Hf. destruct (mem_create f s kind) as [r f'] eqn:E. simpl.
  destruct (mem_create_spec _ _ _ _ _ Hf E)
    as [[_ ->]|(p & pi & name & cs & _ & _ & Hg & Hw & Hp & Hk & Hc & ->)]; [done|].
  destruct Hf as (Ht & Hn & Hfd). split_and!; simpl; [by apply add_child_tree|done|].
  intros fd d Hd. destruct (Hfd _ _ Hd) as (? & ? & ? & ?). unfold fd_ok. simpl. split_and!; try done; lia.
Qed.

Lemma mem_inv_write f fd data : mem_inv f -> mem_inv (mem_write f fd data).2.
Proof.
  intros Hf. pose proof (zlen_nonneg data) as Hz. unfold mem_write.
  destruct (fds f !! fd) as [d|] eqn:Hd; [|done].
  destruct (inodes f !! fd_ino d) as [i|] eqn:Hi; [|done].
  destruct (bool_decide (ino_kind i = File)); [|done]. simpl.
  destruct (u64_checked_add (fd_offset d) (zlen data)) as [nl|] eqn:Ea; [|done].
  apply u64_checked_add_Some in Ea as [-> Hle].
  destruct (copy_from_slice _ _ _ _) as [bytes|]; [|done]. simpl.
  assert (mem_inv (with_inodes f (<[fd_ino d := set_data i bytes]> (inodes f)))) as Hf1.
  { destruct Hf as (Ht & Hn & Hfd). split; [by apply set_data_tree|]. split; [done|]. exact Hfd. }
  apply (mem_inv_offset _ fd d _ Hf1 Hd). pose proof Hf as (_ & _ & Hfd).
  destruct (Hfd _ _ Hd) as (_ & _ & ? & _). lia.
Qed.

Lemma mem_inv_read f fd buf : mem_inv f -> mem_inv (mem_read f fd buf).2.
Proof.
  intros Hf. unfold mem_read. destruct (fds f !! fd) as [d|] eqn:Hd; [|done].
  destruct (inodes f !! fd_ino d) as [i|] eqn:Hi; [|done].
  destruct (bool_decide (ino_kind i = File)); [|done]. simpl.
  destruct (Z.leb_spec (zlen (ino_data i)) (fd_offset d)); [done|].
  pose proof Hf as (_ & _ & Hfd). destruct (Hfd _ _ Hd) as (_ & _ & Ho & _).
  destruct (copy_from_slice _ _ _ _) as [b|] eqn:Ec; [|done].
  apply copy_from_slice_inv in Ec as (_ & ? & _).
  destruct (u64_checked_add _ _) as [o|] eqn:Ea; [|done]. apply u64_checked_add_Some in Ea as [-> ?].
  apply (mem_inv_offset _ fd d); [done..|lia].
Qed.

Lemma mem_inv_unlink f s : mem_inv f -> mem_inv (mem_unlink f s).2.
Proof.
  intros Hf. destruct (mem_unlink f s) as [r f'] eqn:E. simpl.
  destruct (mem_unlink_spec _ _ _ _ Hf E)
    as [(_ & _ & ->)|(p & pi & name & cs & child & ci & _ & _ & _ & Hp & _ & Hci & _ & Hin & Hleaf & ->)]; [done|].
  destruct Hf as (Ht & Hn & Hfd). split; [by eapply remove_child_tree|]. split; [done|]. exact Hfd.
Qed.

Lemma mem_inv_step f op : mem_inv f -> op_typed op -> mem_inv (mem_step f op).
Proof.
  intros Hf Hop. destruct op as [s flags|fd buf|fd data|fd|fd pos|s kind|s|s]; simpl.
  - unfold mem_open. destruct (mem_lookup (inodes f) s) as [ino|] eqn:El; [|done].
    pose proof Hf as (Ht & Hn & Hfd). rewrite mem_lookup_walk in El by by eapply mem_tree_no_links.
    assert (is_Some (inodes f !! 1)) as Hroot by (destruct Ht as [(r & -> & _) _]; by eexists).
    destruct (walk0_in_table _ _ _ _ _ Ht Hroot El) as [i Hi].
    destruct (proj2 Ht _ _ Hi) as (Hlt & _).
    split_and!; simpl; [done|lia|]. intros fd d [[<- <-]|[_ Hd]]%lookup_insert_Some; unfold fd_ok; simpl.
    + unfold u64_max. lia.
    + destruct (Hfd _ _ Hd) as (? & ? & ? & ?). split_and!; try done; lia.
  - by apply mem_inv_read.
  - by apply mem_inv_write.
  - unfold mem_close. destruct (fds f !! fd) eqn:Hd; [|done]. apply mem_inv_fds; [done|].
    intros fd' d' [_ Hd']%lookup_delete_Some. by apply Hf.
  - unfold mem_seek. destruct (fds f !! fd) eqn:Hd; [|done]. by apply mem_inv_offset.
  - by apply mem_inv_create.
  - unfold mem_mkdir. case_decide; [done|]. destruct (lookup_parent (inodes f) s); [|done].
    pose proof (mem_inv_create f s Directory Hf). by destruct (mem_create f s Directory).
  - by apply mem_inv_unlink.
Qed.

Lemma mem_new_inv : mem_inv mem_new.
Proof.
  split_and!; [split| |]; simpl; try done.
  - eexists. rewrite lookup_singleton_eq. done.
  - intros k i [<- <-]%lookup_singleton_Some. unfold inode_ok. simpl. split_and!; try done; try lia.
    + by apply NoDup_nil_2.
    + intros c Hc. by apply not_elem_of_nil in Hc.
    + intros c1 c2 Hc. by apply not_elem_of_nil in Hc.
Qed.

Lemma mem_inv_steps ops f :
  mem_inv f -> Forall op_typed ops -> mem_inv (fold_left mem_step ops f).
Proof.
  revert f. induction ops as [|op ops IH]; intros f Hf Hops; simpl; [done|].
  apply Forall_cons in Hops as [Hop Hops]. apply IH; [by apply mem_inv_step|done].
Qed.


(** What is created is found: when [create] succeeds the path, which named
    nothing before, names the new inode, of the requested kind and empty, and
    every path that named something still names the same thing. *)
Theorem mem_create_lookup (f f' : MemFileSystem) (s : path) (kind : InodeType) (ino : Z) :
  mem_inv f -> mem_create f s kind = (Some ino, f') ->
  mem_lookup (inodes f) s = None /\ mem_lookup (inodes f') s = Some ino
  /\ (exists name parent, inodes f' !! ino = Some (inode_new name kind parent))
  /\ forall t x, mem_lookup (inodes f) t = Some x -> mem_lookup (inodes f') t = Some x.
Proof.
  intros Hf E. pose proof (mem_inv_create f s kind Hf) as Hf'. rewrite E in Hf'. simpl in Hf'.
  assert (mem_lookup (inodes f) s = None) as Hnone.
  { unfold mem_create in E. by destruct (mem_lookup (inodes f) s). }
  destruct (mem_create_spec _ _ _ _ _ Hf E)
    as [[? _]|(p & pi & name & cs & [= ->] & Hcs & Hg & Hw & Hp & Hk & Hc & ->)]; [done|].
  pose proof Hf as (Ht & _). pose proof Hf' as (Ht' & _). simpl in *.
  pose proof (mem_tree_no_links _ _ Ht) as Hnl. pose proof (mem_tree_no_links _ _ Ht') as Hnl'.
  pose proof (mem_tree_fresh _ _ Ht) as Hfr.
  assert (add_child (inodes f) p pi (next_ino f) name kind !! next_ino f = Some (inode_new name kind p))
    as Hnew by (apply add_child_lookup; auto).
  split_and!; [done| |by exists name, p|].
  - rewrite mem_lookup_walk, Hcs, walk0_app by done.
    rewrite (add_child_walk _ _ _ _ _ _ _ _ _ Ht Hp Hw). simpl.
    destruct Hg as (_ & Hd & Hdd & _). unfold walk_step. rewrite !decide_False by done.
    assert (add_child (inodes f) p pi (next_ino f) name kind !! p
      = Some (set_children pi (ino_children pi ++ [next_ino f]))) as Hpn
      by (apply add_child_lookup; auto).
    assert (lookup_child (add_child (inodes f) p pi (next_ino f) name kind) p name
      = Some (next_ino f)) as ->.
    { apply (lookup_child_unique _ _ p _ (next_ino f) (inode_new name kind p) Ht' Hpn); [|done].
      simpl. set_solver. }
    by rewrite decide_True by (rewrite Hnew; by eexists).
  - intros t x. rewrite !mem_lookup_walk by done. by apply add_child_walk.
Qed.

(** What is unlinked is gone: when [unlink] succeeds its path names nothing
    any more, the inode is removed, only a leaf is ever removed, and no path
    names anything it did not name before. *)
Theorem mem_unlink_lookup (f f' : MemFileSystem) (s : path) :
  mem_inv f -> mem_unlink f s = (Ok tt, f') ->
  mem_lookup (inodes f') s = None
  /\ (exists child ci, mem_lookup (inodes f) s = Some child /\ inodes f !! child = Some ci
      /\ ino_children ci = [] /\ inodes f' !! child = None)
  /\ forall t x, mem_lookup (inodes f') t = Some x -> mem_lookup (inodes f) t = Some x.
Proof.
  intros Hf E. pose proof (mem_inv_unlink f s Hf) as Hf'. rewrite E in Hf'. simpl in Hf'.
  destruct (mem_unlink_spec _ _ _ _ Hf E) as
    [[? _]|(p & pi & name & cs & child & ci & _ & Hcs & Hw & Hp & Hlc & Hci & Hnm & Hin & Hleaf & ->)]; [done|].
  pose proof Hf as (Ht & _). pose proof Hf' as (Ht' & _). simpl in *.
  pose proof (mem_tree_no_links _ _ Ht) as Hnl. pose proof (mem_tree_no_links _ _ Ht') as Hnl'.
  assert (p <> child) as Hpc.
  { intros ->. rewrite Hp in Hci. injection Hci as ->. rewrite Hleaf in Hin. by apply not_elem_of_nil in Hin. }
  assert (remove_child (inodes f) p pi child !! child = None) as Hgone by (apply lookup_delete_eq).
  destruct (proj2 Ht _ _ Hp) as (_ & _ & _ & _ & _ & Hcs' & _). destruct (Hcs' _ Hin) as (Hc1 & _).
  destruct (proj2 Ht _ _ Hci) as (_ & _ & _ & _ & _ & _ & _ & Hup). destruct (Hup Hc1) as ((_ & Hd & Hdd & _) & _).
  rewrite Hnm in Hd, Hdd. split_and!.
  - rewrite mem_lookup_walk, Hcs, walk0_app by done.
    destruct (walk0 (remove_child (inodes f) p pi child) cs 1) as [q|] eqn:Eq; [|done].
    apply (remove_child_walk _ _ _ _ _ _ _ _ Ht Hp Hpc) in Eq. rewrite Hw in Eq. injection Eq as <-. simpl.
    destruct (walk_step (remove_child (inodes f) p pi child) p name) as [x|] eqn:Ex; [|done].
    apply (remove_child_step _ _ _ _ _ _ _ _ Ht Hp Hpc) in Ex.
    unfold walk_step in Ex. rewrite !decide_False in Ex by done. rewrite Hlc in Ex. injection Ex as <-.
    rewrite decide_False; [done|]. rewrite Hgone. by intros [? ?].
  - exists child, ci. split_and!; try done. rewrite mem_lookup_walk, Hcs, walk0_app, Hw by done. simpl.
    unfold walk_step. rewrite !decide_False by done. rewrite Hlc.
    by rewrite decide_True by (rewrite Hci; by eexists).
  - intros t x. rewrite !mem_lookup_walk by done. by apply (remove_child_walk _ (next_ino f)).
Qed.

(** Write, seek back, read: the bytes written through a descriptor at its
    offset are the bytes read back from that offset; writing past the end fills
    the gap with zeros and leaves the rest of the file and all other files alone. *)
Theorem mem_write_seek_read (f : MemFileSystem) (fd : Z) (d : FileDescriptor) (i : Inode)
    (data buf : list Z) :
  mem_inv f -> fds f !! fd = Some d -> inodes f !! fd_ino d = Some i -> ino_kind i = File ->
  fd_offset d + zlen data <= u64_max -> zlen buf = zlen data ->
  exists f1 f2 f3 i', mem_write f fd data = (Ok (zlen data), f1)
  /\ inodes f1 !! fd_ino d = Some i' /\ written (ino_data i) (ino_data i') (fd_offset d) data
  /\ (forall k, k <> fd_ino d -> inodes f1 !! k = inodes f !! k)
  /\ mem_seek f1 fd (fd_offset d) = (Ok tt, f2)
  /\ mem_read f2 fd buf = (Ok (zlen data), data, f3).
Proof.
  intros Hf Hd Hi Hk Hfit Hb. pose proof Hf as (_ & _ & Hfd). destruct (Hfd _ _ Hd) as (_ & _ & Ho & _).
  destruct (mem_write_spec _ _ _ _ _ Hf Hd Hi Hk Hfit) as (bytes & Hw & E).
  pose proof Hw as [Hwl Hwk]. pose proof (zlen_nonneg data). pose proof (zlen_nonneg (ino_data i)).
  set (f1 := mkMem _ _ _ _) in E.
  set (f2 := with_fds f1 (<[fd := set_offset (set_offset d (fd_offset d + zlen data)) (fd_offset d)]> (fds f1))).
  assert (exists f3, mem_read f2 fd buf = (Ok (zlen data), data, f3)) as [f3 H3].
  2: { exists f1, f2, f3, (set_data i bytes). split_and!; try done; [apply lookup_insert_eq| |].
       - intros k Hkk. by apply lookup_insert_ne.
       - unfold mem_seek, f1. cbn [fds]. by rewrite lookup_insert_eq. }
  unfold mem_read, f2, f1. cbn [fds with_fds inodes]. rewrite lookup_insert_eq.
  cbn [set_offset fd_ino fd_offset]. rewrite lookup_insert_eq. cbn [set_data ino_kind ino_data].
  rewrite bool_decide_true by done. cbn [negb].
  destruct (Z.leb_spec (zlen bytes) (fd_offset d)) as [Hge|Hlt].
  - assert (zlen data = 0) as Hz by lia. assert (data = []) as -> by (by destruct data).
    assert (buf = []) as -> by (by destruct buf). by eexists.
  - assert (zlen (zslice bytes (fd_offset d) (zlen bytes - fd_offset d)) = zlen bytes - fd_offset d) as Hzl
      by (apply zlen_zslice; lia).
    rewrite Hzl, Hb, Z.min_r by lia.
    rewrite copy_from_slice_Some by (try apply zlen_zslice; lia).
    rewrite u64_checked_add_fit by lia.
    set (sl := zslice (zslice bytes (fd_offset d) (zlen bytes - fd_offset d)) 0 (zlen data)).
    assert (zlen sl = zlen data) as Hz2 by (apply zlen_zslice; lia).
    replace (zsplice buf 0 sl) with data; [by eexists|]. symmetry.
    apply (znth_ext 0); [rewrite zlen_zsplice; lia|]. rewrite zlen_zsplice by lia. intros k Hkk.
    rewrite znth_zsplice by lia. rewrite Hz2, (proj2 (Z.leb_le 0 k)), (proj2 (Z.ltb_lt k _)) by lia.
    cbn [andb]. unfold sl. rewrite !znth_zslice by lia. rewrite Hwk by lia.
    rewrite (proj2 (Z.leb_le _ _)), (proj2 (Z.ltb_lt _ _)) by lia. cbn [andb]. f_equal. lia.
Qed.

(** ** Witnesses *)
Definition demo_ops : list mem_op :=
  [OpMkdir (P "/a"); OpCreate (P "/a/b") File; OpOpen (P "/a/b") 0; OpWrite 0 [1; 2]; OpSeek 0 5].
Definition demo_fs : MemFileSystem := fold_left mem_step demo_ops mem_new.

Lemma demo_ops_typed : Forall op_typed demo_ops.
Proof. by repeat (apply Forall_cons; split); try apply Forall_nil. Qed.

Lemma demo_fs_inv : mem_inv demo_fs.
Proof. apply mem_inv_steps; [apply mem_new_inv|apply demo_ops_typed]. Qed.


Lemma mem_create_lookup_witness :
  mem_lookup (inodes (mem_create demo_fs (P "/a/./c/") Directory).2) (P "/a/./c/") = Some 4.
Proof.
  destruct (mem_create_lookup demo_fs (mem_create demo_fs (P "/a/./c/") Directory).2
    (P "/a/./c/") Directory 4 demo_fs_inv) as (_ & Hl & _).
  - vm_compute. reflexivity.
  - exact Hl.
Defined.

Lemma mem_unlink_lookup_witness :
  mem_lookup (inodes (mem_unlink demo_fs (P "/a/../a/b")).2) (P "/a/../a/b") = None.
Proof.
  destruct (mem_unlink_lookup demo_fs (mem_unlink demo_fs (P "/a/../a/b")).2 (P "/a/../a/b")
    demo_fs_inv) as (Hl & _).
  - vm_compute. reflexivity.
  - exact Hl.
Defined.

Lemma mem_write_seek_read_witness :
  exists f1 f2 f3 i', mem_write demo_fs 0 [7; 8; 9] = (Ok 3, f1)
  /\ inodes f1 !! 3 = Some i' /\ written [1; 2] (ino_data i') 5 [7; 8; 9]
  /\ mem_seek f1 0 5 = (Ok tt, f2) /\ mem_read f2 0 [0; 0; 0] = (Ok 3, [7; 8; 9], f3).
Proof.
  destruct (mem_write_seek_read demo_fs 0 (mkFd 0 3 5 0) (set_data (inode_new (P "b") File 2) [1; 2])
    [7; 8; 9] [0; 0; 0] demo_fs_inv) as (f1 & f2 & f3 & i' & H1 & H2 & H3 & _ & H5 & H6).
  - vm_compute. reflexivity.
  - vm_compute. reflexivity.
  - reflexivity.
  - vm_compute. discriminate.
  - reflexivity.
  - exists f1, f2, f3, i'. split; [exact H1|]. split; [exact H2|]. split; [exact H3|].
    split; [exact H5|exact H6].
Defined.
