(* ===== verification/Vfs.v ===== *)
(** * The VFS dispatcher (genome/src/vfs.rs, [Vfs] and [VfsFile])

    A table of mounted file systems and a working directory: paths are resolved
    against the working directory, routed to the mount with the longest mount
    point covering them, and handed on relative to it. *)

From S2P Require Import Prelude Block Path FileSystem.

Record MountEntry (F : Type) : Type := mkMount {
  mount_point : path;
  me_fs : F
}.
Arguments mkMount {F} _ _.
Arguments mount_point {F} _.
Arguments me_fs {F} _.

Record Vfs (F : Type) : Type := mkVfs {
  mounts : list (MountEntry F);
  wd : path
}.
Arguments mkVfs {F} _ _.
Arguments mounts {F} _.
Arguments wd {F} _.

Section Vfs.
Context {F : Type} `{FileSystem F}.
Implicit Types v : Vfs F.

Definition vfs_new (root_fs : F) : Vfs F := mkVfs [mkMount (P "/") root_fs] (P "/").

Definition ends_with_slash (s : path) : bool := starts_with_slash (rev s).

(** [resolve_path]. *)
Definition resolve_path v (s : path) : path :=
  if starts_with_slash s then normalize_path s
  else if decide (s = []) then wd v
  else normalize_path ((if ends_with_slash (wd v) then wd v else wd v ++ [slash]) ++ s).

(** [filter(..).max_by_key(..)]: the last of the longest covering mount points. *)
Fixpoint longest_mount (s : path) (ms : list (MountEntry F)) (index : nat)
    (best : option (nat * Z)) : option (nat * Z) :=
  match ms with
  | [] => best
  | e :: ms' =>
      let best' :=
        match relative_to_mount s (mount_point e) with
        | None => best
        | Some _ =>
            match best with
            | Some (_, len) => if zlen (mount_point e) <? len then best
                               else Some (index, zlen (mount_point e))
            | None => Some (index, zlen (mount_point e))
            end
        end in
      longest_mount s ms' (S index) best'
  end.

(** [find_fs_index_for_absolute_path]. *)
Definition find_fs_index_for_absolute_path v (s : path) : option nat :=
  if negb (starts_with_slash s) then None else fst <$> longest_mount s (mounts v) 0 None.

(** [find_fs]: the mount index stands for the borrowed file system. *)
Definition find_fs v (absolute_path : path) : option (nat * path) :=
  if negb (starts_with_slash absolute_path) then None
  else
    match find_fs_index_for_absolute_path v absolute_path with
    | None => None
    | Some index =>
        match mounts v !! index with
        | None => None
        | Some e => match relative_to_mount absolute_path (mount_point e) with
                    | None => None
                    | Some remaining => Some (index, remaining)
                    end
        end
    end.

(** [find_fs_for_path], [find_fs_index], [mounted_fs_index]. *)
Definition find_fs_for_path v (s : path) : option (nat * path) :=
  let absolute := resolve_path v s in
  match find_fs_index_for_absolute_path v absolute with
  | None => None
  | Some index =>
      match mounts v !! index with
      | None => None
      | Some e => match relative_to_mount absolute (mount_point e) with
                  | None => None
                  | Some remaining => Some (index, remaining)
                  end
      end
  end.

Definition find_fs_index v (s : path) : option nat :=
  find_fs_index_for_absolute_path v (resolve_path v s).

Definition mounted_fs_index v (mp : path) : option nat :=
  position (fun e => bool_decide (mount_point e = normalize_path mp)) (mounts v).

(** Replace the file system of one mount. *)
Definition set_fs v (index : nat) (f : F) : Vfs F :=
  mkVfs (alter (fun e => mkMount (mount_point e) f) index (mounts v)) (wd v).

(** [resolve_and_find], [with_fs] and [with_fs_result]. *)
Definition resolve_and_find v (s : path) : option (nat * path) := find_fs v (resolve_path v s).

Definition with_fs {A} v (s : path) (op : F -> path -> option A * F) : option A * Vfs F :=
  match resolve_and_find v s with
  | None => (None, v)
  | Some (index, p) =>
      match mounts v !! index with
      | None => (None, v)
      | Some e => let '(r, f') := op (me_fs e) p in (r, set_fs v index f')
      end
  end.

Definition with_fs_result {A} v (s : path) (op : F -> path -> result FsError A * F)
  : result FsError A * Vfs F :=
  match resolve_and_find v s with
  | None => (Err FileNotFound, v)
  | Some (index, p) =>
      match mounts v !! index with
      | None => (Err FileNotFound, v)
      | Some e => let '(r, f') := op (me_fs e) p in (r, set_fs v index f')
      end
  end.

(** The path operations. *)
Definition vfs_open v (s : path) (flags : Z) : option FileDescriptor * Vfs F :=
  with_fs v s (fun f p => fs_open f p flags).
Definition vfs_create v (s : path) : option Z * Vfs F := with_fs v s (fun f p => fs_create f p File).
Definition vfs_mkdir v (s : path) : result FsError unit * Vfs F := with_fs_result v s fs_mkdir.
Definition vfs_unlink v (s : path) : result FsError unit * Vfs F := with_fs_result v s fs_unlink.
Definition vfs_readdir v (s : path) : result FsError (list VNode) * Vfs F :=
  with_fs_result v s fs_readdir.
Definition vfs_exists v (s : path) : bool * Vfs F :=
  match resolve_and_find v s with
  | None => (false, v)
  | Some (index, p) =>
      match mounts v !! index with
      | None => (false, v)
      | Some e => let '(r, f') := fs_exists (me_fs e) p in (r, set_fs v index f')
      end
  end.

(** [self.mounts.get_mut(mount_idx).ok_or(InvalidFileDescriptor)?.fs]. *)
Definition at_mount {A} v (mount_idx : nat) (op : F -> result FsError A * F)
  : result FsError A * Vfs F :=
  match mounts v !! mount_idx with
  | None => (Err InvalidFileDescriptor, v)
  | Some e => let '(r, f') := op (me_fs e) in (r, set_fs v mount_idx f')
  end.

(** The descriptor operations. *)
Definition vfs_read_at v (mount_idx : nat) (fd : Z) (buf : list Z)
  : result FsError Z * list Z * Vfs F :=
  match mounts v !! mount_idx with
  | None => (Err InvalidFileDescriptor, buf, v)
  | Some e => let '(r, buf', f') := fs_read (me_fs e) fd buf in (r, buf', set_fs v mount_idx f')
  end.
Definition vfs_write_at v (mount_idx : nat) (fd : Z) (data : list Z) : result FsError Z * Vfs F :=
  at_mount v mount_idx (fun f => fs_write f fd data).
Definition vfs_close_at v (mount_idx : nat) (fd : Z) : result FsError unit * Vfs F :=
  at_mount v mount_idx (fun f => fs_close f fd).
Definition vfs_seek_at v (mount_idx : nat) (fd pos : Z) : result FsError unit * Vfs F :=
  at_mount v mount_idx (fun f => fs_seek f fd pos).
Definition vfs_position_at v (mount_idx : nat) (fd : Z) : result FsError Z * Vfs F :=
  at_mount v mount_idx (fun f => fs_position f fd).
Definition vfs_size_at v (mount_idx : nat) (fd : Z) : result FsError Z * Vfs F :=
  at_mount v mount_idx (fun f => fs_size f fd).

(** [change_directory]. *)
Definition change_directory v (s : path) : result FsError unit * Vfs F :=
  let resolved := resolve_path v s in
  match find_fs v resolved with
  | None => (Err FileNotFound, v)
  | Some (index, remaining) =>
      match mounts v !! index with
      | None => (Err FileNotFound, v)
      | Some e =>
          let '(r, f') := fs_readdir (me_fs e) remaining in
          let v1 := set_fs v index f' in
          match r with
          | Ok _ => (Ok tt, mkVfs (mounts v1) resolved)
          | Err er => (Err er, v1)
          | Panic => (Panic, v1)
          end
      end
  end.

(** Mounting over an existing mount point replaces its file system; otherwise
    the mount is appended. *)
Definition insert_mount (ms : list (MountEntry F)) (mp : path) (f : F) : list (MountEntry F) :=
  match position (fun e => bool_decide (mount_point e = mp)) ms with
  | Some index => alter (fun e => mkMount (mount_point e) f) index ms
  | None => ms ++ [mkMount mp f]
  end.

(** [mount]. *)
Definition vfs_mount v (mount_pt : path) (f : F) : result FsError unit * Vfs F :=
  let mp := normalize_path mount_pt in
  let '(checked, v1) :=
    if decide (mp = P "/") then (Ok tt, v)
    else match find_fs v mp with
         | None => (Err FileNotFound, v)
         | Some (index, remaining) =>
             match mounts v !! index with
             | None => (Err FileNotFound, v)
             | Some e =>
                 let '(r, f') := fs_readdir (me_fs e) remaining in
                 (match r with
                  | Ok _ => Ok tt
                  | Err er => Err (if decide (er = NotADirectory) then NotADirectory else FileNotFound)
                  | Panic => Panic
                  end, set_fs v index f')
             end
         end in
  match checked with
  | Ok _ => (Ok tt, mkVfs (insert_mount (mounts v1) mp f) (wd v1))
  | Err er => (Err er, v1)
  | Panic => (Panic, v1)
  end.

(** [unmount]. *)
Definition vfs_unmount v (mount_pt : path) : result FsError bool * Vfs F :=
  let mp := normalize_path mount_pt in
  if decide (mp = P "/") then (Err InvalidInput, v)
  else
    let ms := List.filter (fun e => negb (bool_decide (mount_point e = mp))) (mounts v) in
    (Ok (length ms <? length (mounts v))%nat, mkVfs ms (wd v)).

(** ** VfsFile *)
Record VfsFile : Type := mkVfsFile {
  vf_mount_index : nat;
  vf_fd : Z;
  vf_position : Z
}.

(** [open_reader]. *)
Definition open_reader v (s : path) : result FsError VfsFile * Vfs F :=
  match find_fs_index v s with
  | None => (Err FileNotFound, v)
  | Some mount_index =>
      let '(r, v') := vfs_open v s 0 in
      match r with
      | None => (Err FileNotFound, v')
      | Some descriptor => (Ok (mkVfsFile mount_index (fd_fd descriptor) (fd_offset descriptor)), v')
      end
  end.

(** [Read for VfsFile]. *)
Definition vfile_read v (file : VfsFile) (buf : list Z)
  : result FsError Z * list Z * VfsFile * Vfs F :=
  let '(r, buf', v') := vfs_read_at v (vf_mount_index file) (vf_fd file) buf in
  match r with
  | Ok n =>
      match u64_checked_add (vf_position file) n with
      | Some p => (Ok n, buf', mkVfsFile (vf_mount_index file) (vf_fd file) p, v')
      | None => (Err InvalidSeek, buf', file, v')
      end
  | _ => (r, buf', file, v')
  end.

(** [FileReader::len]. *)
Definition vfile_len v (file : VfsFile) : result FsError Z * Vfs F :=
  vfs_size_at v (vf_mount_index file) (vf_fd file).

(** [Seek for VfsFile]. *)
Definition vfile_seek v (file : VfsFile) (position : SeekFrom)
  : result FsError Z * VfsFile * Vfs F :=
  let '(target, v1) :=
    match position with
    | SeekStart offset => (Ok offset, v)
    | SeekCurrent offset =>
        (ok_or (u64_checked_add_signed (vf_position file) offset) InvalidSeek, v)
    | SeekEnd offset =>
        let '(l, v1) := vfile_len v file in
        (let? len := l in ok_or (u64_checked_add_signed len offset) InvalidSeek, v1)
    end in
  match target with
  | Ok absolute =>
      let '(r, v2) := vfs_seek_at v1 (vf_mount_index file) (vf_fd file) absolute in
      match r with
      | Ok _ => (Ok absolute, mkVfsFile (vf_mount_index file) (vf_fd file) absolute, v2)
      | Err er => (Err er, file, v2)
      | Panic => (Panic, file, v2)
      end
  | Err er => (Err er, file, v1)
  | Panic => (Panic, file, v1)
  end.

(** [Drop for VfsFile]. *)
Definition vfile_drop v (file : VfsFile) : Vfs F :=
  (vfs_close_at v (vf_mount_index file) (vf_fd file)).2.
End Vfs.

(** ** Routing *)
Section Routing.
Context {F : Type} `{FileSystem F}.
Implicit Types v : Vfs F.

Lemma longest_mount_spec s ms : forall k (best : option (nat * Z)),
  match longest_mount (F := F) s ms k best with
  | None => best = None /\ forall e, e ∈ ms -> relative_to_mount s (mount_point e) = None
  | Some (i, len) =>
      (best = Some (i, len)
       \/ exists n e, i = (k + n)%nat /\ ms !! n = Some e /\ len = zlen (mount_point e)
          /\ is_Some (relative_to_mount s (mount_point e)))
      /\ (forall j l, best = Some (j, l) -> l <= len)
      /\ forall e, e ∈ ms -> is_Some (relative_to_mount s (mount_point e)) ->
         zlen (mount_point e) <= len
  end.
Proof.
  induction ms as [|e ms IH]; intros k best; simpl.
  - destruct best as [[i len]|].
    + split_and!; [by left|by intros j l [= <- <-]; lia|].
      intros e He. by apply not_elem_of_nil in He.
    + split; [done|]. intros e He. by apply not_elem_of_nil in He.
  - match goal with |- context [longest_mount s ms (S k) ?b] => set (best' := b) end.
    assert (is_Some (relative_to_mount s (mount_point e)) ->
      exists j l, best' = Some (j, l) /\ zlen (mount_point e) <= l) as Hb'.
    { unfold best'. intros [x ->]. destruct best as [[j l]|]; [|by eexists _, _].
      destruct (Z.ltb_spec (zlen (mount_point e)) l); eexists _, _; (split; [done|lia]). }
    specialize (IH (S k) best').
    destruct (longest_mount s ms (S k) best') as [[i len]|].
    + destruct IH as (Hsrc & Hge & Hall). split_and!.
      * destruct Hsrc as [Hbest|(n & e' & -> & Hn & Hl & Hc)].
        2: { right. exists (S n), e'. split_and!; try done. lia. }
        unfold best' in Hbest. destruct (relative_to_mount s (mount_point e)) as [x|] eqn:Ex; [|by left].
        destruct best as [[j l]|].
        -- destruct (Z.ltb_spec (zlen (mount_point e)) l); [by left|].
           injection Hbest as <- <-. right. exists 0%nat, e. (split; [lia|]); (split; [done|]); (split; [done|]); by rewrite Ex.
        -- injection Hbest as <- <-. right. exists 0%nat, e. (split; [lia|]); (split; [done|]); (split; [done|]); by rewrite Ex.
      * intros j l ->. unfold best' in Hge. destruct (relative_to_mount s (mount_point e)); [|by eapply Hge].
        destruct (Z.ltb_spec (zlen (mount_point e)) l); [by eapply Hge|].
        specialize (Hge _ _ eq_refl). lia.
      * intros e' [->|He']%elem_of_cons Hc; [|by apply Hall].
        destruct (Hb' Hc) as (j & l & Hbl & Hle). specialize (Hge _ _ Hbl). lia.
    + destruct IH as [Hb Hnone]. unfold best' in Hb.
      destruct (relative_to_mount s (mount_point e)) eqn:Ex.
      { destruct best as [[j q]|]; [destruct (_ <? _)|]; done. }
      split; [done|]. intros e' [->|He']%elem_of_cons; [done|by apply Hnone].
Qed.

(** The dispatcher's invariant: the root file system stays mounted first, mount
    points are normal and distinct, the working directory is normal. *)
Definition vfs_inv v : Prop :=
  (exists e, mounts v !! 0%nat = Some e /\ mount_point e = P "/")
  /\ Forall (fun e => normal (mount_point e)) (mounts v)
  /\ NoDup (map mount_point (mounts v)) /\ normal (wd v).

(** The components of a normal path. *)
Abbreviation comps := normalize_components.

Lemma normal_print s : normal s -> Forall good_comp (comps s) /\ s = print_path (comps s).
Proof. intros (cs & Hg & ->). by rewrite normalize_components_print. Qed.

Lemma resolve_path_normal v s : vfs_inv v -> normal (resolve_path v s).
Proof.
  intros (_ & _ & _ & Hw). unfold resolve_path.
  destruct (starts_with_slash s); [apply normalize_path_normal|].
  case_decide; [done|apply normalize_path_normal].
Qed.

Lemma covers_prefix s mp rest :
  normal s -> normal mp ->
  relative_to_mount s mp = Some rest <-> exists rs, comps s = comps mp ++ rs /\ rest = join_slash rs.
Proof.
  intros Hs Hm. destruct (normal_print _ Hs) as [Hgs Es], (normal_print _ Hm) as [Hgm Em].
  rewrite Es at 1. rewrite Em at 1. by apply relative_to_mount_prefix.
Qed.

(** Among prefixes of one path, the longer string has more components. *)
Lemma prefix_length cs n m :
  Forall good_comp cs -> (n < m)%nat -> (m <= length cs)%nat ->
  zlen (print_path (take n cs)) < zlen (print_path (take m cs)).
Proof.
  intros Hg Hnm Hm.
  assert (take m cs = take n cs ++ take (m - n) (drop n cs)) as ->.
  { rewrite <- (take_drop n (take m cs)) at 1. rewrite take_take, Nat.min_l by lia.
    f_equal. by rewrite skipn_firstn_comm. }
  set (ds := take (m - n) (drop n cs)).
  assert (ds <> []) as Hd.
  { intros Hd. apply (f_equal length) in Hd. unfold ds in Hd. rewrite length_take, length_drop in Hd.
    simpl in Hd. lia. }
  assert (Forall good_comp ds) as Hgd by (by apply Forall_take, Forall_drop).
  destruct ds as [|d ds]; [done|]. apply Forall_cons in Hgd as [(Hdn & _) _].
  assert (1 <= zlen (join_slash (d :: ds))) as Hpos.
  { destruct d as [|a d]; [done|]. destruct ds; simpl; rewrite zlen_cons; unfold zlen; lia. }
  unfold print_path. destruct (decide (take n cs = [])) as [->|Hn].
  - simpl app. simpl join_slash at 1. rewrite !zlen_cons, zlen_nil. lia.
  - rewrite join_app by done. rewrite !zlen_cons, zlen_app, zlen_cons. lia.
Qed.

(** The routing specification: mount [i] covers the components [cs] with [rs]
    left over, and no other mount covers more of them. *)
Definition routes v (cs : list path) (i : nat) (rs : list path) : Prop :=
  exists e, mounts v !! i = Some e /\ cs = comps (mount_point e) ++ rs
  /\ forall j e' rs', mounts v !! j = Some e' -> cs = comps (mount_point e') ++ rs' ->
     (length rs <= length rs')%nat /\ (length rs = length rs' -> j = i).

Lemma routes_unique v cs i rs j rs' : routes v cs i rs -> routes v cs j rs' -> i = j /\ rs = rs'.
Proof.
  intros (e & He & Hc & Hmax) (e' & He' & Hc' & Hmax').
  destruct (Hmax _ _ _ He' Hc') as [H1 H1']. destruct (Hmax' _ _ _ He Hc) as [H2 H2'].
  assert (length rs = length rs') as Hl by lia. split; [symmetry; auto|].
  rewrite Hc in Hc'. apply app_inj_2 in Hc' as [_ ->]; [done|lia].
Qed.

Lemma find_fs_routes v s :
  vfs_inv v -> normal s ->
  exists i rs, find_fs v s = Some (i, join_slash rs) /\ find_fs_index_for_absolute_path v s = Some i
  /\ routes v (comps s) i rs.
Proof.
  intros ((e0 & He0 & Hroot) & Hnm & Hnd & _) Hs.
  destruct (normal_print _ Hs) as [Hgs Es].
  assert (starts_with_slash s = true) as Hsl by (rewrite Es; done).
  pose proof (longest_mount_spec s (mounts v) 0 None) as Hspec.
  assert (forall e, e ∈ mounts v -> normal (mount_point e)) as Hnme by (by apply Forall_forall).
  assert (forall j e, mounts v !! j = Some e -> e ∈ mounts v) as Hin by (intros; by eapply list_elem_of_lookup_2).
  destruct (longest_mount s (mounts v) 0 None) as [[i len]|] eqn:El.
  2: { destruct Hspec as [_ Hnone]. specialize (Hnone e0 (Hin _ _ He0)). rewrite Hroot in Hnone.
       rewrite Es in Hnone. unfold relative_to_mount in Hnone. simpl in Hnone. done. }
  destruct Hspec as ([?|(n & e & Hi & He & Hl & [rest Hrest])] & _ & Hmax); [done|].
  simpl in Hi. subst n. pose proof (Hnme e (Hin _ _ He)) as Hne.
  destruct (proj1 (covers_prefix _ _ _ Hs Hne) Hrest) as (rs & Hcs & ->).
  exists i, rs. unfold find_fs, find_fs_index_for_absolute_path. rewrite Hsl, El. simpl.
  rewrite He, Hrest. split_and!; try done. exists e. split_and!; try done.
  intros j e' rs' He' Hcs'. pose proof (Hnme e' (Hin _ _ He')) as Hne'.
  assert (is_Some (relative_to_mount s (mount_point e'))) as Hcov.
  { eexists. apply covers_prefix; [done..|]. by exists rs'. }
  specialize (Hmax e' (Hin _ _ He') Hcov). rewrite Hl in Hmax.
  destruct (normal_print _ Hne) as [_ Ee], (normal_print _ Hne') as [_ Ee'].
  assert (forall x xs, comps s = x ++ xs -> x = take (length x) (comps s)) as Htake.
  { intros x xs ->. by rewrite take_app_length. }
  rewrite Ee, Ee', (Htake _ _ Hcs), (Htake _ _ Hcs') in Hmax.
  assert (length (comps (mount_point e)) + length rs = length (comps (mount_point e')) + length rs')%nat as Hlen.
  { rewrite <- !length_app. congruence. }
  assert (length (comps (mount_point e')) <= length (comps (mount_point e)))%nat as Hle.
  { destruct (Nat.le_gt_cases (length (comps (mount_point e'))) (length (comps (mount_point e)))); [done|].
    pose proof (prefix_length (comps s) (length (comps (mount_point e))) (length (comps (mount_point e'))) Hgs) as Hpl.
    pose proof (f_equal length Hcs') as Hls. rewrite length_app in Hls.
    specialize (Hpl ltac:(lia) ltac:(lia)). lia. }
  split; [lia|]. intros Heq.
  assert (mount_point e' = mount_point e) as Hmp.
  { rewrite Ee, Ee', (Htake _ _ Hcs), (Htake _ _ Hcs'). do 2 f_equal. lia. }
  assert (map mount_point (mounts v) !! j = Some (mount_point e)) as H1 by (by rewrite list_lookup_fmap, He', <- Hmp).
  assert (map mount_point (mounts v) !! i = Some (mount_point e)) as H2 by (by rewrite list_lookup_fmap, He).
  by eapply NoDup_lookup.
Qed.

Lemma find_fs_for_path_find v s :
  vfs_inv v -> find_fs_for_path v s = find_fs v (resolve_path v s).
Proof.
  intros Hv. unfold find_fs_for_path, find_fs.
  destruct (normal_print _ (resolve_path_normal v s Hv)) as [_ E].
  assert (starts_with_slash (resolve_path v s) = true) as -> by (rewrite E; done). done.
Qed.

(** ** Preservation *)
Lemma set_fs_mounts v i f :
  map mount_point (mounts (set_fs v i f)) = map mount_point (mounts v)
  /\ wd (set_fs v i f) = wd v.
Proof.
  split; [|done]. simpl. generalize i as n. clear i. generalize (mounts v) as ms.
  induction ms as [|e ms IH]; intros [|n]; simpl; try done. f_equal. apply IH.
Qed.

(** The invariant only looks at the mount points and the working directory. *)
Lemma vfs_inv_points v :
  vfs_inv v <-> (exists r, map mount_point (mounts v) = P "/" :: r)
    /\ Forall normal (map mount_point (mounts v)) /\ NoDup (map mount_point (mounts v)) /\ normal (wd v).
Proof.
  unfold vfs_inv. rewrite Forall_fmap. unfold compose.
  assert ((exists e, mounts v !! 0%nat = Some e /\ mount_point e = P "/")
    <-> exists r, map mount_point (mounts v) = P "/" :: r) as ->; [|done].
  destruct (mounts v) as [|e ms]; simpl; split.
  - by intros (? & ? & ?).
  - by intros (? & ?).
  - intros (e' & He & Hm). injection He as ->. rewrite Hm. by eexists.
  - intros (r & Hr). injection Hr as Hr _. by exists e.
Qed.

Lemma vfs_inv_set_fs v i f : vfs_inv v -> vfs_inv (set_fs v i f).
Proof. rewrite !vfs_inv_points. by destruct (set_fs_mounts v i f) as [-> ->]. Qed.

Lemma vfs_inv_with_fs {A} v s (op : F -> path -> option A * F) :
  vfs_inv v -> vfs_inv (with_fs v s op).2.
Proof.
  intros Hv. unfold with_fs. destruct (resolve_and_find v s) as [[i p]|]; [|done].
  destruct (mounts v !! i) as [e|]; [|done]. destruct (op (me_fs e) p). by apply vfs_inv_set_fs.
Qed.

Lemma vfs_inv_with_fs_result {A} v s (op : F -> path -> result FsError A * F) :
  vfs_inv v -> vfs_inv (with_fs_result v s op).2.
Proof.
  intros Hv. unfold with_fs_result. destruct (resolve_and_find v s) as [[i p]|]; [|done].
  destruct (mounts v !! i) as [e|]; [|done]. destruct (op (me_fs e) p). by apply vfs_inv_set_fs.
Qed.

Lemma vfs_inv_at_mount {A} v i (op : F -> result FsError A * F) :
  vfs_inv v -> vfs_inv (at_mount v i op).2.
Proof.
  intros Hv. unfold at_mount. destruct (mounts v !! i) as [e|]; [|done].
  destruct (op (me_fs e)). by apply vfs_inv_set_fs.
Qed.

Lemma insert_mount_points (ms : list (MountEntry F)) mp f :
  map mount_point (insert_mount ms mp f) =
  if decide (mp ∈ map mount_point ms) then map mount_point ms else map mount_point ms ++ [mp].
Proof.
  unfold insert_mount. destruct (position _ ms) as [n|] eqn:E.
  - apply position_Some in E as (e & He & Hb & _). apply bool_decide_eq_true in Hb.
    rewrite decide_True.
    + exact (proj1 (set_fs_mounts (mkVfs ms (P "/")) n f)).
    + apply list_elem_of_fmap. exists e. split; [done|]. by eapply list_elem_of_lookup_2.
  - rewrite decide_False; [by rewrite map_app|]. intros (e & -> & He)%list_elem_of_fmap.
    apply list_elem_of_lookup_1 in He as [k Hk]. eapply position_None in E; [|exact Hk].
    by apply bool_decide_eq_false in E.
Qed.

Lemma vfs_inv_insert v mp f :
  vfs_inv v -> normal mp -> vfs_inv (mkVfs (insert_mount (mounts v) mp f) (wd v)).
Proof.
  rewrite !vfs_inv_points. intros ((r & Hr) & Hf & Hnd & Hw) Hn. simpl.
  rewrite insert_mount_points. case_decide as Hin; [by split_and!; [exists r|..]|].
  split_and!; [rewrite Hr; by eexists| | |done].
  - apply Forall_app. split; [done|]. by constructor.
  - apply NoDup_app. split_and!; [done| |apply NoDup_singleton].
    intros x Hx ->%list_elem_of_singleton. done.
Qed.

Lemma vfs_inv_mount v mp f : vfs_inv v -> vfs_inv (vfs_mount v mp f).2.
Proof.
  intros Hv. pose proof (normalize_path_normal mp) as Hn. unfold vfs_mount.
  case_decide; [by apply vfs_inv_insert|].
  destruct (find_fs v (normalize_path mp)) as [[i p]|]; [|done].
  destruct (mounts v !! i) as [e|]; [|done]. destruct (fs_readdir (me_fs e) p) as [r f'].
  pose proof (vfs_inv_set_fs v i f' Hv) as Hv'.
  destruct r; [by apply vfs_inv_insert|done|done].
Qed.

Lemma vfs_inv_unmount v mp : vfs_inv v -> vfs_inv (vfs_unmount v mp).2.
Proof.
  intros Hv. unfold vfs_unmount. case_decide as Hr; [done|].
  destruct Hv as ((e0 & He0 & Hroot) & Hf & Hnd & Hw). unfold vfs_inv. simpl. split_and!.
  - destruct (mounts v) as [|e ms]; [done|]. injection He0 as ->. exists e0. simpl.
    rewrite bool_decide_false by congruence. done.
  - apply Forall_forall. intros e He. apply list_elem_of_In, filter_In in He as [He _].
    apply list_elem_of_In in He. exact (proj1 (Forall_forall _ _) Hf e He).
  - clear -Hnd. induction (mounts v) as [|e ms IH]; simpl in *; [done|].
    apply NoDup_cons in Hnd as [Hni Hnd]. destruct (negb _); simpl; [|auto].
    apply NoDup_cons. split; [|auto]. intros (x & Hx & Hin)%list_elem_of_fmap. apply Hni.
    apply list_elem_of_fmap. exists x. split; [done|]. apply list_elem_of_In in Hin.
    apply filter_In in Hin as [Hin _]. by apply list_elem_of_In.
  - done.
Qed.
End Routing.

(** The operations of the dispatcher as steps. *)
Inductive vfs_op (F : Type) : Type :=
| VOpen (s : path) (flags : Z)
| VCreate (s : path)
| VMkdir (s : path)
| VUnlink (s : path)
| VReaddir (s : path)
| VChdir (s : path)
| VMount (mp : path) (f : F)
| VUnmount (mp : path)
| VReadAt (i : nat) (fd : Z) (buf : list Z)
| VWriteAt (i : nat) (fd : Z) (data : list Z)
| VCloseAt (i : nat) (fd : Z)
| VSeekAt (i : nat) (fd pos : Z).
Arguments VOpen {F} _ _. Arguments VCreate {F} _. Arguments VMkdir {F} _.
Arguments VUnlink {F} _. Arguments VReaddir {F} _. Arguments VChdir {F} _.
Arguments VMount {F} _ _. Arguments VUnmount {F} _. Arguments VReadAt {F} _ _ _.
Arguments VWriteAt {F} _ _ _. Arguments VCloseAt {F} _ _. Arguments VSeekAt {F} _ _ _.

Definition vfs_step {F} `{FileSystem F} (v : Vfs F) (op : vfs_op F) : Vfs F :=
  match op with
  | VOpen s flags => (vfs_open v s flags).2
  | VCreate s => (vfs_create v s).2
  | VMkdir s => (vfs_mkdir v s).2
  | VUnlink s => (vfs_unlink v s).2
  | VReaddir s => (vfs_readdir v s).2
  | VChdir s => (change_directory v s).2
  | VMount mp f => (vfs_mount v mp f).2
  | VUnmount mp => (vfs_unmount v mp).2
  | VReadAt i fd buf => (vfs_read_at v i fd buf).2
  | VWriteAt i fd data => (vfs_write_at v i fd data).2
  | VCloseAt i fd => (vfs_close_at v i fd).2
  | VSeekAt i fd pos => (vfs_seek_at v i fd pos).2
  end.

Lemma vfs_inv_step {F} `{FileSystem F} (v : Vfs F) (op : vfs_op F) : vfs_inv v -> vfs_inv (vfs_step v op).
Proof.
  intros Hv. destruct op; simpl;
    try (by apply vfs_inv_with_fs); try (by apply vfs_inv_with_fs_result);
    try (by apply vfs_inv_at_mount); try (by apply vfs_inv_mount); try (by apply vfs_inv_unmount).
  - unfold change_directory. pose proof (resolve_path_normal v s Hv) as Hn.
    destruct (find_fs v (resolve_path v s)) as [[i p]|]; [|done].
    destruct (mounts v !! i) as [e|]; [|done]. destruct (fs_readdir (me_fs e) p) as [r f'].
    pose proof (vfs_inv_set_fs v i f' Hv) as Hv'. destruct r; [|done|done].
    unfold vfs_inv in *. simpl in *. tauto.
  - unfold vfs_read_at. destruct (mounts v !! i) as [e|]; [|done].
    destruct (fs_read (me_fs e) fd buf) as [[r b] f']. by apply vfs_inv_set_fs.
Qed.

Lemma vfs_new_inv {F} `{FileSystem F} (root_fs : F) : vfs_inv (vfs_new root_fs).
Proof.
  assert (normal (P "/")) as Hn by (by exists []).
  split_and!; [by eexists|by constructor|apply NoDup_singleton|done].
Qed.

(** Mount tables with the same mount points, entry by entry. *)
Lemma lookup_points {F} (ms1 ms2 : list (MountEntry F)) :
  map mount_point ms1 = map mount_point ms2 ->
  forall j e, ms1 !! j = Some e -> exists e', ms2 !! j = Some e' /\ mount_point e' = mount_point e.
Proof.
  revert ms2. induction ms1 as [|e1 ms1 IH]; intros [|e2 ms2] Heq j e He; try done.
  injection Heq as H1 H2. destruct j as [|j]; simpl in *; [|by apply (IH ms2)].
  injection He as <-. by exists e2.
Qed.

(** The dispatcher's invariant holds in every reachable state, over any file
    systems: the root stays mounted, mount points stay normal and distinct and
    the working directory stays a normal absolute path, whatever is mounted,
    unmounted or done through it. *)
Theorem vfs_reachable_inv {F} `{FileSystem F} (root_fs : F) (ops : list (vfs_op F)) :
  vfs_inv (fold_left vfs_step ops (vfs_new root_fs)).
Proof.
  pose proof (vfs_new_inv root_fs) as Hv. revert Hv. generalize (vfs_new root_fs) as v.
  induction ops as [|op ops IH]; intros v Hv; simpl; [done|]. by apply IH, vfs_inv_step.
Qed.

(** Routing: every path, absolute or relative, is sent to the one mount whose
    mount point covers the most components of the resolved path, and the file
    system is called with the remaining components; the operation changes that
    file system and no other mount. *)
Theorem vfs_routing {F} `{FileSystem F} (v : Vfs F) (s : path) (A : Type)
    (op : F -> path -> result FsError A * F) :
  vfs_inv v ->
  exists i rs e, find_fs_for_path v s = Some (i, join_slash rs)
  /\ routes v (normalize_components (resolve_path v s)) i rs /\ mounts v !! i = Some e
  /\ with_fs_result v s op = ((op (me_fs e) (join_slash rs)).1, set_fs v i (op (me_fs e) (join_slash rs)).2)
  /\ forall j, j <> i -> mounts (set_fs v i (op (me_fs e) (join_slash rs)).2) !! j = mounts v !! j.
Proof.
  intros Hv.
  destruct (find_fs_routes v _ Hv (resolve_path_normal v s Hv)) as (i & rs & Hf & _ & Hr).
  pose proof Hr as (e & He & _). exists i, rs, e. split; [by rewrite find_fs_for_path_find|].
  split; [done|]. split; [done|]. split.
  - unfold with_fs_result, resolve_and_find. rewrite Hf, He. by destruct (op (me_fs e) (join_slash rs)).
  - intros j Hj. simpl. by apply list_lookup_alter_ne.
Qed.


(** ** Witnesses: a second file system mounted at /a of a root with /a/b *)
Definition demo_root : MemFileSystem :=
  (mem_create (mem_mkdir mem_new (P "/a")).2 (P "/a/b") File).2.
Definition demo_vfs : Vfs MemFileSystem := fold_left vfs_step [VChdir (P "a")] (vfs_new demo_root).

Lemma demo_vfs_inv : vfs_inv demo_vfs.
Proof. apply vfs_inv_step, vfs_new_inv. Qed.

Lemma vfs_routing_witness :
  exists i rs e, find_fs_for_path demo_vfs (P "b") = Some (i, join_slash rs)
  /\ mounts demo_vfs !! i = Some e
  /\ (vfs_unlink demo_vfs (P "b")).1 = (fs_unlink (me_fs e) (join_slash rs)).1.
Proof.
  destruct (vfs_routing demo_vfs (P "b") unit fs_unlink demo_vfs_inv) as (i & rs & e & H1 & _ & H3 & H4 & _).
  exists i, rs, e. split; [exact H1|]. split; [exact H3|].
  change (vfs_unlink demo_vfs (P "b")) with (with_fs_result demo_vfs (P "b") fs_unlink).
  rewrite H4. reflexivity.
Defined.

