(* ===== verification/VfsContext.v ===== *)
(** * The kernel's VFS context (fullerene-kernel/src/contexts/vfs.rs)

    [VfsContext] adds VFS-global file descriptors to the dispatcher: a handle
    table maps each descriptor to the mount that owns it and the descriptor local
    to that file system. Every method runs with the context's locks held, so a
    method is one atomic step of the model. *)

From S2P Require Import Prelude Block Path FileSystem Vfs.

Record HandleEntry : Type := mkHandle {
  he_fd : Z;
  he_mount : nat;
  he_local : Z
}.

Record HandleTable : Type := mkTable {
  ht_entries : list HandleEntry;
  ht_next_fd : Z
}.

Definition ht_new : HandleTable := mkTable [] 0.

(** [allocate_fd]: the loop tries successive numbers, wrapping at [2^32]. Among
    more candidates than entries one is free, so [length entries + 1] rounds are
    enough; the code gives up when it is back at its start. *)
Fixpoint allocate_loop (fuel : nat) (entries : list HandleEntry) (start next : Z)
  : option (option Z * Z) :=
  match fuel with
  | O => None
  | S fuel' =>
      let candidate := next in
      let next' := u32_wrapping_add next 1 in
      if forallb (fun e => negb (he_fd e =? candidate)) entries then Some (Some candidate, next')
      else if next' =? start then Some (None, next')
      else allocate_loop fuel' entries start next'
  end.

Definition allocate_fd (t : HandleTable) : option Z * HandleTable :=
  match allocate_loop (S (length (ht_entries t))) (ht_entries t) (ht_next_fd t) (ht_next_fd t) with
  | Some (r, next) => (r, mkTable (ht_entries t) next)
  | None => (None, t)
  end.

(** [insert]. *)
Definition ht_insert (t : HandleTable) (descriptor : FileDescriptor) (mount_index : nat)
  : option FileDescriptor * HandleTable :=
  let '(r, t1) := allocate_fd t in
  match r with
  | None => (None, t1)
  | Some fd =>
      (Some (mkFd fd (fd_ino descriptor) (fd_offset descriptor) (fd_flags descriptor)),
       mkTable (ht_entries t1 ++ [mkHandle fd mount_index (fd_fd descriptor)]) (ht_next_fd t1))
  end.

(** [find] and [take]. *)
Definition ht_find (t : HandleTable) (fd : Z) : option (nat * Z) :=
  match find (fun e => he_fd e =? fd) (ht_entries t) with
  | Some e => Some (he_mount e, he_local e)
  | None => None
  end.

Definition ht_take (t : HandleTable) (fd : Z) : option (nat * Z) * HandleTable :=
  match position (fun e => he_fd e =? fd) (ht_entries t) with
  | None => (None, t)
  | Some pos =>
      match ht_entries t !! pos with
      | None => (None, t)
      | Some e => (Some (he_mount e, he_local e),
                   mkTable (take pos (ht_entries t) ++ drop (S pos) (ht_entries t)) (ht_next_fd t))
      end
  end.

Record VfsContext (F : Type) : Type := mkCtx {
  cx_inner : Vfs F;
  cx_handles : HandleTable;
  cx_devices : list (path * path)
}.
Arguments mkCtx {F} _ _ _.
Arguments cx_inner {F} _.
Arguments cx_handles {F} _.
Arguments cx_devices {F} _.

Section Context.
Context {F : Type} `{FileSystem F}.
Implicit Types c : VfsContext F.

Definition with_inner c (v : Vfs F) : VfsContext F := mkCtx v (cx_handles c) (cx_devices c).
Definition with_handles c (t : HandleTable) : VfsContext F := mkCtx (cx_inner c) t (cx_devices c).

(** [VfsContext::new], over the given root file system. *)
Definition ctx_new (root_fs : F) : VfsContext F := mkCtx (vfs_new root_fs) ht_new [].

Definition ctx_change_directory c (s : path) : result FsError unit * VfsContext F :=
  let '(r, v) := change_directory (cx_inner c) s in (r, with_inner c v).

(** [mount]. *)
Definition ctx_mount c (mount_pt : path) (f : F) : result FsError unit * VfsContext F :=
  match mounted_fs_index (cx_inner c) mount_pt with
  | Some _ => (Err FileExists, c)
  | None => let '(r, v) := vfs_mount (cx_inner c) mount_pt f in (r, with_inner c v)
  end.

(** The handle table after the mount [target_idx] is gone. *)
Definition drop_mount (t : HandleTable) (target_idx : nat) : HandleTable :=
  mkTable
    (map (fun e => if (target_idx <? he_mount e)%nat
                   then mkHandle (he_fd e) (he_mount e - 1) (he_local e) else e)
         (List.filter (fun e => negb (he_mount e =? target_idx)%nat) (ht_entries t)))
    (ht_next_fd t).

(** [unmount]; the second component lists the block-device leases it returns. *)
Definition ctx_unmount c (mount_pt : path) : result FsError bool * list path * VfsContext F :=
  let mp := resolve_path (cx_inner c) mount_pt in
  match mounted_fs_index (cx_inner c) mp with
  | None => (Ok false, [], c)
  | Some target_idx =>
      let '(r, v) := vfs_unmount (cx_inner c) mp in
      match r with
      | Err e => (Err e, [], with_inner c v)
      | Panic => (Panic, [], with_inner c v)
      | Ok false => (Ok false, [], with_inner c v)
      | Ok true =>
          let returned := omap (fun '(source, p) =>
            if decide (p = mp) then strip_prefix (P "/dev/") source else None) (cx_devices c) in
          (Ok true, returned,
           mkCtx v (drop_mount (cx_handles c) target_idx)
             (List.filter (fun '(_, p) => bool_decide (p <> mp)) (cx_devices c)))
      end
  end.

(** [record_device_mount]. *)
Definition record_device_mount c (device mount_pt : path) : VfsContext F :=
  mkCtx (cx_inner c) (cx_handles c)
    (List.filter (fun '(source, p) => bool_decide (source <> device) && bool_decide (p <> mount_pt))
       (cx_devices c) ++ [(device, mount_pt)]).

(** [register_handle]: when the table is full the local descriptor is closed again. *)
Definition register_handle c (mount_index : nat) (descriptor : FileDescriptor)
  : option FileDescriptor * VfsContext F :=
  let '(r, t) := ht_insert (cx_handles c) descriptor mount_index in
  let c1 := with_handles c t in
  match r with
  | Some _ => (r, c1)
  | None => (None, with_inner c1 (vfs_close_at (cx_inner c1) mount_index (fd_fd descriptor)).2)
  end.

(** [open]. *)
Definition ctx_open c (s : path) (flags : Z) : option FileDescriptor * VfsContext F :=
  match find_fs_index (cx_inner c) s with
  | None => (None, c)
  | Some mount_index =>
      let '(r, v) := vfs_open (cx_inner c) s flags in
      match r with
      | None => (None, with_inner c v)
      | Some fd => register_handle (with_inner c v) mount_index fd
      end
  end.

(** A descriptor operation: find the handle, call its file system. *)
Definition with_handle {A} c (fd : Z) (op : Vfs F -> nat -> Z -> result FsError A * Vfs F)
  : result FsError A * VfsContext F :=
  match ht_find (cx_handles c) fd with
  | None => (Err InvalidFileDescriptor, c)
  | Some (mount_index, local_fd) =>
      let '(r, v) := op (cx_inner c) mount_index local_fd in (r, with_inner c v)
  end.

Definition ctx_read c (fd : Z) (buf : list Z) : result FsError Z * list Z * VfsContext F :=
  match ht_find (cx_handles c) fd with
  | None => (Err InvalidFileDescriptor, buf, c)
  | Some (mount_index, local_fd) =>
      let '(r, buf', v) := vfs_read_at (cx_inner c) mount_index local_fd buf in
      (r, buf', with_inner c v)
  end.
Definition ctx_write c (fd : Z) (data : list Z) : result FsError Z * VfsContext F :=
  with_handle c fd (fun v i l => vfs_write_at v i l data).
Definition ctx_seek c (fd pos : Z) : result FsError unit * VfsContext F :=
  with_handle c fd (fun v i l => vfs_seek_at v i l pos).
Definition ctx_position c (fd : Z) : result FsError Z * VfsContext F :=
  with_handle c fd vfs_position_at.
Definition ctx_size c (fd : Z) : result FsError Z * VfsContext F := with_handle c fd vfs_size_at.

(** [close]: the entry is taken out first. *)
Definition ctx_close c (fd : Z) : result FsError unit * VfsContext F :=
  let '(h, t) := ht_take (cx_handles c) fd in
  match h with
  | None => (Err InvalidFileDescriptor, with_handles c t)
  | Some (mount_index, local_fd) =>
      let '(r, v) := vfs_close_at (cx_inner c) mount_index local_fd in
      (r, with_inner (with_handles c t) v)
  end.

(** [seek_from]. *)
Definition ctx_seek_from c (fd : Z) (position : SeekFrom) : result FsError Z * VfsContext F :=
  with_handle c fd (fun v i l =>
    let '(target, v1) :=
      match position with
      | SeekStart offset => (Ok (Some offset), v)
      | SeekCurrent offset =>
          let '(r, v1) := vfs_position_at v i l in
          (let? p := r in Ok (u64_checked_add_signed p offset), v1)
      | SeekEnd offset =>
          let '(r, v1) := vfs_size_at v i l in
          (let? n := r in Ok (u64_checked_add_signed n offset), v1)
      end in
    match (let? o := target in ok_or o InvalidSeek) with
    | Ok absolute =>
        let '(r, v2) := vfs_seek_at v1 i l absolute in
        (let? _ := r in Ok absolute, v2)
    | Err e => (Err e, v1)
    | Panic => (Panic, v1)
    end).

(** [create]: open the file, creating it when it does not exist. *)
Definition ctx_create c (s : path) : result FsError FileDescriptor * VfsContext F :=
  let v := cx_inner c in
  match find_fs_index v s with
  | None => (Err FileNotFound, c)
  | Some mount_index =>
      match find_fs v (resolve_path v s) with
      | None => (Err FileNotFound, c)
      | Some (index, remaining) =>
          match mounts v !! index with
          | None => (Err FileNotFound, c)
          | Some e =>
              let '(there, f1) := fs_exists (me_fs e) remaining in
              let '(made, f2) :=
                if there then (true, f1)
                else let '(r, f2) := fs_create f1 remaining File in
                     (match r with Some _ => true | None => false end, f2) in
              if negb made then (Err PermissionDenied, with_inner c (set_fs v index f2))
              else
                let '(o, f3) := fs_open f2 remaining 0 in
                let c1 := with_inner c (set_fs v index f3) in
                match o with
                | None => (Err FileNotFound, c1)
                | Some fd =>
                    let '(r, c2) := register_handle c1 mount_index fd in
                    (ok_or r PermissionDenied, c2)
                end
          end
      end
  end.

(** [mkdir], [unlink], [readdir], [exists]. *)
Definition ctx_mkdir c (s : path) : result FsError unit * VfsContext F :=
  let '(r, v) := vfs_mkdir (cx_inner c) s in (r, with_inner c v).
Definition ctx_unlink c (s : path) : result FsError unit * VfsContext F :=
  let '(r, v) := vfs_unlink (cx_inner c) s in (r, with_inner c v).
Definition ctx_readdir c (s : path) : result FsError (list VNode) * VfsContext F :=
  let '(r, v) := vfs_readdir (cx_inner c) s in (r, with_inner c v).
Definition ctx_exists c (s : path) : bool * VfsContext F :=
  let '(r, v) := vfs_exists (cx_inner c) s in (r, with_inner c v).

(** [write_all]; each round writes at least one byte, so the length of the data
    is enough fuel. *)
Fixpoint write_all (fuel : nat) c (fd : Z) (data : list Z) : result FsError unit * VfsContext F :=
  match data with
  | [] => (Ok tt, c)
  | _ =>
      match fuel with
      | O => (Panic, c)
      | S fuel' =>
          let '(r, c1) := ctx_write c fd data in
          match r with
          | Err e => (Err e, c1)
          | Panic => (Panic, c1)
          | Ok written =>
              if written =? 0 then (Err InvalidInput, c1)
              else if zlen data <? written then (Panic, c1)
              else write_all fuel' c1 fd (zslice data written (zlen data - written))
          end
      end
  end.

(** [Result::and]. *)
Definition result_and {A} (a : result FsError A) (b : result FsError A) : result FsError A :=
  match a with Ok _ => b | _ => a end.

(** [replace_file]. *)
Definition replace_file c (s : path) (data : list Z) : result FsError unit * VfsContext F :=
  let '(there, c1) := ctx_exists c s in
  let '(r, c2) := if there then ctx_unlink c1 s else (Ok tt, c1) in
  match r with
  | Err e => (Err e, c2)
  | Panic => (Panic, c2)
  | Ok _ =>
      let '(d, c3) := ctx_create c2 s in
      match d with
      | Err e => (Err e, c3)
      | Panic => (Panic, c3)
      | Ok descriptor =>
          let '(w, c4) := write_all (length data) c3 (fd_fd descriptor) data in
          let '(cl, c5) := ctx_close c4 (fd_fd descriptor) in
          (result_and w cl, c5)
      end
  end.

(** [join_path]. *)
Definition join_path (parent name : path) : path :=
  if decide (parent = P "/") then slash :: name else trim_end parent ++ slash :: name.

(** The streaming loop of [copy_path], 4096 bytes at a time. *)
Fixpoint copy_loop (fuel : nat) c (source_fd destination_fd : Z) (buffer : list Z)
  : result FsError unit * VfsContext F :=
  match fuel with
  | O => (Panic, c)
  | S fuel' =>
      let '(r, buffer', c1) := ctx_read c source_fd buffer in
      match r with
      | Err e => (Err e, c1)
      | Panic => (Panic, c1)
      | Ok n =>
          if n =? 0 then (Ok tt, c1)
          else
            let '(w, c2) := write_all (Z.to_nat n) c1 destination_fd (zslice buffer' 0 n) in
            match w with
            | Err e => (Err e, c2)
            | Panic => (Panic, c2)
            | Ok _ => copy_loop fuel' c2 source_fd destination_fd buffer'
            end
      end
  end.

(** [copy_path] of a regular file. *)
Definition copy_file (fuel : nat) c (source destination : path) : result FsError unit * VfsContext F :=
  let '(o, c1) := ctx_open c source 0 in
  match o with
  | None => (Err FileNotFound, c1)
  | Some sd =>
      let '(there, c2) := ctx_exists c1 destination in
      let '(u, c3) := if there then ctx_unlink c2 destination else (Ok tt, c2) in
      match u with
      | Err e => (Err e, (ctx_close c3 (fd_fd sd)).2)
      | Panic => (Panic, c3)
      | Ok _ =>
          let '(d, c4) := ctx_create c3 destination in
          match d with
          | Err e => (Err e, (ctx_close c4 (fd_fd sd)).2)
          | Panic => (Panic, c4)
          | Ok dd =>
              let '(r, c5) := copy_loop fuel c4 (fd_fd sd) (fd_fd dd) (replicate 4096 0) in
              let '(r1, c6) := ctx_close c5 (fd_fd sd) in
              let '(r2, c7) := ctx_close c6 (fd_fd dd) in
              (result_and (result_and r r1) r2, c7)
          end
      end
  end.

(** [copy_path]; the fuel bounds the recursion into directories and the copy
    loop, and running out of it is the panic of a stack overflow. *)
Fixpoint copy_path (fuel : nat) c (source destination : path) (is_dir : bool)
  : result FsError unit * VfsContext F :=
  match fuel with
  | O => (Panic, c)
  | S fuel' =>
      if bool_decide (source = destination)
         || is_dir && match strip_prefix source destination with
                      | Some suffix => starts_with_slash suffix
                      | None => false
                      end
      then (Err InvalidPath, c)
      else if is_dir then
        let '(m, c1) := ctx_mkdir c destination in
        match m with
        | Err e => (Err e, c1)
        | Panic => (Panic, c1)
        | Ok _ =>
            let '(l, c2) := ctx_readdir c1 source in
            match l with
            | Err e => (Err e, c2)
            | Panic => (Panic, c2)
            | Ok entries =>
                (fix each (entries : list VNode) c : result FsError unit * VfsContext F :=
                   match entries with
                   | [] => (Ok tt, c)
                   | entry :: rest =>
                       let '(r, c') := copy_path fuel' c (join_path source (vn_name entry))
                                         (join_path destination (vn_name entry)) (vn_is_dir entry) in
                       match r with Ok _ => each rest c' | _ => (r, c') end
                   end) entries c2
            end
        end
      else copy_file fuel' c source destination
  end.

(** [remove_path]. *)
Fixpoint remove_path (fuel : nat) c (s : path) (is_dir : bool) : result FsError unit * VfsContext F :=
  match fuel with
  | O => (Panic, c)
  | S fuel' =>
      let '(r, c1) :=
        if is_dir then
          let '(l, c1) := ctx_readdir c s in
          match l with
          | Err e => (Err e, c1)
          | Panic => (Panic, c1)
          | Ok entries =>
              (fix each (entries : list VNode) c : result FsError unit * VfsContext F :=
                 match entries with
                 | [] => (Ok tt, c)
                 | entry :: rest =>
                     let '(r, c') := remove_path fuel' c (join_path s (vn_name entry)) (vn_is_dir entry) in
                     match r with Ok _ => each rest c' | _ => (r, c') end
                 end) entries c1
          end
        else (Ok tt, c) in
      match r with Ok _ => ctx_unlink c1 s | _ => (r, c1) end
  end.

(** [move_path]. *)
Definition move_path (fuel : nat) c (source destination : path) (is_dir : bool)
  : result FsError unit * VfsContext F :=
  let '(r, c1) := copy_path fuel c source destination is_dir in
  match r with Ok _ => remove_path fuel c1 source is_dir | _ => (r, c1) end.
End Context.

(** ** Descriptor allocation *)
Definition ht_fds (t : HandleTable) : list Z := map he_fd (ht_entries t).

Lemma forallb_fresh entries c :
  forallb (fun e => negb (he_fd e =? c)) entries = true <-> c ∉ map he_fd entries.
Proof.
  rewrite forallb_forall. split.
  - intros Hall (e & -> & He)%list_elem_of_fmap. specialize (Hall e).
    rewrite <- list_elem_of_In in Hall. specialize (Hall He). rewrite Z.eqb_refl in Hall. done.
  - intros Hn e He%list_elem_of_In. apply negb_true_iff, Z.eqb_neq. intros <-. apply Hn.
    apply list_elem_of_fmap. by exists e.
Qed.

(** The [j]-th candidate after [start]. *)
Definition candidate (start : Z) (j : nat) : Z := (start + Z.of_nat j) mod 2 ^ 32.

Lemma candidate_inj start i j :
  Z.of_nat i < 2 ^ 32 -> Z.of_nat j < 2 ^ 32 -> candidate start i = candidate start j -> i = j.
Proof.
  intros Hi Hj E. unfold candidate in E.
  assert ((Z.of_nat i - Z.of_nat j) mod 2 ^ 32 = 0) as Hm.
  { replace (Z.of_nat i - Z.of_nat j) with ((start + Z.of_nat i) - (start + Z.of_nat j)) by lia.
    rewrite Zminus_mod, E, Z.sub_diag. done. }
  apply Z.mod_divide in Hm as [q Hq]; [|lia]. nia.
Qed.

Lemma candidates_NoDup start n :
  Z.of_nat n <= 2 ^ 32 -> NoDup (map (candidate start) (seq 0 n)).
Proof.
  intros Hn. apply NoDup_alt. intros i j x Hi Hj.
  assert (forall k, map (candidate start) (seq 0 n) !! k = Some x -> (k < n)%nat /\ candidate start k = x) as Hk.
  { intros k Hk. rewrite list_lookup_fmap in Hk. apply fmap_Some in Hk as (y & Hy & ->).
    apply lookup_seq in Hy as [-> ?]. done. }
  destruct (Hk _ Hi) as [? E1], (Hk _ Hj) as [? E2].
  apply (candidate_inj start); [lia|lia|congruence].
Qed.

(** Pigeonhole: more than [length l] distinct candidates do not all lie in [l]. *)
Lemma candidates_exceed start n (l : list Z) :
  Z.of_nat n <= 2 ^ 32 -> (length l < n)%nat ->
  ~ (forall j, (j < n)%nat -> candidate start j ∈ l).
Proof.
  intros Hn Hl Hall.
  assert (length (map (candidate start) (seq 0 n)) <= length l)%nat as Hle.
  { apply NoDup_incl_length; [by apply NoDup_ListNoDup, candidates_NoDup|].
    intros x Hx. apply in_map_iff in Hx as (j & <- & Hj). apply in_seq in Hj.
    apply list_elem_of_In, Hall. lia. }
  rewrite length_map, length_seq in Hle. lia.
Qed.

Lemma allocate_loop_spec fuel : forall entries start j,
  0 <= start < 2 ^ 32 -> Z.of_nat (length entries) < 2 ^ 32 ->
  (j + fuel = S (length entries))%nat ->
  (forall i, (i < j)%nat -> candidate start i ∈ map he_fd entries) ->
  exists fd next, allocate_loop fuel entries start (candidate start j) = Some (Some fd, next)
  /\ fd ∉ map he_fd entries /\ 0 <= fd < 2 ^ 32 /\ 0 <= next < 2 ^ 32.
Proof.
  induction fuel as [|fuel IH]; intros entries start j Hs Hlen Hj Htried.
  { exfalso. apply (candidates_exceed start j (map he_fd entries)); [lia| |done].
    rewrite length_map. lia. }
  simpl. assert (u32_wrapping_add (candidate start j) 1 = candidate start (S j)) as ->.
  { unfold u32_wrapping_add, candidate. rewrite Zplus_mod_idemp_l. f_equal. lia. }
  destruct (forallb _ entries) eqn:Ef.
  - apply forallb_fresh in Ef. eexists _, _. split; [done|]. split; [done|].
    unfold candidate. split; apply Z.mod_pos_bound; lia.
  - assert (forall i, (i < S j)%nat -> candidate start i ∈ map he_fd entries) as Hnow.
    { intros i Hi. destruct (decide (i = j)) as [->|]; [|apply Htried; lia].
      destruct (decide (candidate start j ∈ map he_fd entries)) as [|Hn]; [done|].
      apply forallb_fresh in Hn. congruence. }
    destruct (Z.eqb_spec (candidate start (S j)) start) as [Hw|Hw]; [|apply IH; try done; lia].
    exfalso. apply (candidates_exceed start (S j) (map he_fd entries)); [lia| |done].
    assert (candidate start (S j) = candidate start 0) as E.
    { rewrite Hw. unfold candidate. rewrite Z.add_0_r, Z.mod_small by lia. done. }
    destruct (decide (Z.of_nat (S j) < 2 ^ 32)) as [Hlt|Hge].
    + apply candidate_inj in E; lia.
    + rewrite length_map. lia.
Qed.

Lemma allocate_fd_spec t :
  0 <= ht_next_fd t < 2 ^ 32 -> Z.of_nat (length (ht_entries t)) < 2 ^ 32 ->
  exists fd next, allocate_fd t = (Some fd, mkTable (ht_entries t) next)
  /\ fd ∉ ht_fds t /\ 0 <= fd < 2 ^ 32 /\ 0 <= next < 2 ^ 32.
Proof.
  intros Hn Hl.
  destruct (allocate_loop_spec (S (length (ht_entries t))) (ht_entries t) (ht_next_fd t) 0)
    as (fd & next & E & Hf & Hr & Hnr); [done|done|done|lia|].
  exists fd, next. split; [|done]. unfold allocate_fd.
  assert (candidate (ht_next_fd t) 0 = ht_next_fd t) as Hc.
  { unfold candidate. rewrite Z.add_0_r. by apply Z.mod_small. }
  rewrite Hc in E. by rewrite E.
Qed.

(** ** The context invariant *)
Section CtxInv.
Context {F : Type} `{FileSystem F}.
Implicit Types c : VfsContext F.

(** Descriptors are distinct 32-bit numbers and every handle's mount exists. *)
Definition handles_ok (t : HandleTable) (n : nat) : Prop :=
  NoDup (ht_fds t) /\ 0 <= ht_next_fd t < 2 ^ 32
  /\ forall e, e ∈ ht_entries t -> (he_mount e < n)%nat /\ 0 <= he_fd e < 2 ^ 32.

Definition ctx_inv c : Prop :=
  vfs_inv (cx_inner c) /\ handles_ok (cx_handles c) (length (mounts (cx_inner c))).

Lemma ctx_inv_inner c v :
  ctx_inv c -> vfs_inv v -> (length (mounts (cx_inner c)) <= length (mounts v))%nat ->
  ctx_inv (with_inner c v).
Proof.
  intros [_ (Hnd & Hn & He)] Hv Hle. split; [done|]. split; [done|]. split; [done|].
  intros e Hin. destruct (He e Hin). split; [simpl; lia|done].
Qed.

Lemma set_fs_length (v : Vfs F) i f : length (mounts (set_fs v i f)) = length (mounts v).
Proof. simpl. apply length_alter. Qed.

Lemma with_fs_length {A} (v : Vfs F) s (op : F -> path -> option A * F) :
  length (mounts (with_fs v s op).2) = length (mounts v).
Proof.
  unfold with_fs. destruct (resolve_and_find v s) as [[i p]|]; [|done].
  destruct (mounts v !! i) as [e|]; [|done]. destruct (op (me_fs e) p). apply set_fs_length.
Qed.

Lemma with_fs_result_length {A} (v : Vfs F) s (op : F -> path -> result FsError A * F) :
  length (mounts (with_fs_result v s op).2) = length (mounts v).
Proof.
  unfold with_fs_result. destruct (resolve_and_find v s) as [[i p]|]; [|done].
  destruct (mounts v !! i) as [e|]; [|done]. destruct (op (me_fs e) p). apply set_fs_length.
Qed.

Lemma at_mount_length {A} (v : Vfs F) i (op : F -> result FsError A * F) :
  length (mounts (at_mount v i op).2) = length (mounts v).
Proof.
  unfold at_mount. destruct (mounts v !! i) as [e|]; [|done].
  destruct (op (me_fs e)). apply set_fs_length.
Qed.

Lemma ctx_inv_path_op {A} c s (op : F -> path -> result FsError A * F) :
  ctx_inv c -> ctx_inv (with_inner c (with_fs_result (cx_inner c) s op).2).
Proof.
  intros Hc. apply ctx_inv_inner; [done|apply vfs_inv_with_fs_result, Hc|].
  by rewrite with_fs_result_length.
Qed.

Lemma ctx_inv_handle_op {A} c fd (op : F -> Z -> result FsError A * F) :
  ctx_inv c -> ctx_inv (with_handle c fd (fun v i l => at_mount v i (fun f => op f l))).2.
Proof.
  intros Hc. unfold with_handle. destruct (ht_find (cx_handles c) fd) as [[i l]|]; [|done].
  pose proof (vfs_inv_at_mount (cx_inner c) i (fun f => op f l) (proj1 Hc)) as Hv.
  pose proof (at_mount_length (cx_inner c) i (fun f => op f l)) as Hl.
  destruct (at_mount (cx_inner c) i _) as [r v]. simpl in *. apply ctx_inv_inner; [done..|lia].
Qed.

(** A registered handle gets a fresh descriptor; the others are untouched. *)
Lemma register_handle_spec c i d :
  ctx_inv c -> (i < length (mounts (cx_inner c)))%nat ->
  Z.of_nat (length (ht_entries (cx_handles c))) < 2 ^ 32 ->
  exists fd c', register_handle c i d = (Some (mkFd fd (fd_ino d) (fd_offset d) (fd_flags d)), c')
  /\ fd ∉ ht_fds (cx_handles c) /\ ctx_inv c' /\ cx_inner c' = cx_inner c
  /\ ht_entries (cx_handles c') = ht_entries (cx_handles c) ++ [mkHandle fd i (fd_fd d)].
Proof.
  intros [Hv (Hnd & Hn & He)] Hi Hlen. unfold register_handle, ht_insert.
  destruct (allocate_fd_spec (cx_handles c) Hn Hlen) as (fd & next & -> & Hf & Hr & Hnr).
  eexists fd, _. split; [done|]. split; [done|]. split; [|done].
  split; [done|]. unfold handles_ok, ht_fds in *. simpl. rewrite map_app. split; [|split; [done|]].
  - apply NoDup_app. split_and!; [done| |apply NoDup_singleton].
    intros x Hx ->%list_elem_of_singleton. done.
  - intros e [Hin| ->%list_elem_of_singleton]%elem_of_app; [by apply He|done].
Qed.

Lemma ht_find_Some t fd i l :
  ht_find t fd = Some (i, l) ->
  exists e, e ∈ ht_entries t /\ he_fd e = fd /\ he_mount e = i /\ he_local e = l.
Proof.
  unfold ht_find. destruct (find _ _) as [e|] eqn:E; [|done]. intros [= <- <-].
  apply find_some in E as [Hin Hfd]. apply Z.eqb_eq in Hfd. exists e.
  split; [by apply list_elem_of_In|done].
Qed.

Lemma ht_find_unique t e :
  NoDup (ht_fds t) -> e ∈ ht_entries t -> ht_find t (he_fd e) = Some (he_mount e, he_local e).
Proof.
  unfold ht_fds, ht_find. induction (ht_entries t) as [|x l IH]; intros Hnd Hin; [by apply not_elem_of_nil in Hin|].
  simpl in *. apply NoDup_cons in Hnd as [Hni Hnd].
  apply elem_of_cons in Hin as [->|Hin]; [by rewrite Z.eqb_refl|].
  destruct (Z.eqb_spec (he_fd x) (he_fd e)) as [E|_]; [|by apply IH].
  exfalso. apply Hni. rewrite E. apply list_elem_of_fmap. by exists e.
Qed.

Lemma ht_find_None t fd : fd ∉ ht_fds t -> ht_find t fd = None.
Proof.
  intros Hn. destruct (ht_find t fd) as [[i l]|] eqn:E; [|done].
  apply ht_find_Some in E as (e & He & <- & _). exfalso. apply Hn.
  apply list_elem_of_fmap. by exists e.
Qed.

(** Removing a mount point removes exactly its entry of the table. *)
Lemma filter_mount (ms : list (MountEntry F)) mp t :
  NoDup (map mount_point ms) -> position (fun e => bool_decide (mount_point e = mp)) ms = Some t ->
  List.filter (fun e => negb (bool_decide (mount_point e = mp))) ms = take t ms ++ drop (S t) ms.
Proof.
  revert t. induction ms as [|e ms IH]; intros t Hnd; [done|]. simpl.
  simpl in Hnd. apply NoDup_cons in Hnd as [Hni Hnd].
  destruct (bool_decide (mount_point e = mp)) eqn:Eb.
  - intros [= <-]. simpl. rewrite drop_0. apply bool_decide_eq_true in Eb.
    clear -Hni Eb. induction ms as [|x ms IH]; [done|]. simpl. simpl in Hni.
    rewrite bool_decide_false; [|intros Hx; apply Hni; rewrite Eb, Hx; set_solver].
    simpl. f_equal. apply IH. set_solver.
  - destruct (position _ ms) as [k|] eqn:Ek; [|done]. simpl. intros [= <-]. simpl.
    f_equal. by apply IH.
Qed.

(** ** Preservation *)
Lemma allocate_loop_sound fuel entries start : forall next r next',
  0 <= next < 2 ^ 32 -> allocate_loop fuel entries start next = Some (r, next') ->
  0 <= next' < 2 ^ 32 /\ forall fd, r = Some fd -> fd ∉ map he_fd entries /\ 0 <= fd < 2 ^ 32.
Proof.
  induction fuel as [|fuel IH]; intros next r next' Hn; simpl; [done|].
  assert (0 <= u32_wrapping_add next 1 < 2 ^ 32) as Hw by (apply Z.mod_pos_bound; lia).
  destruct (forallb _ entries) eqn:Ef.
  - intros [= <- <-]. split; [done|]. intros fd [= <-]. split; [by apply forallb_fresh|done].
  - destruct (_ =? start); [intros [= <- <-]; done|]. by apply IH.
Qed.

Lemma ht_insert_ok t n d i :
  handles_ok t n -> (i < n)%nat -> handles_ok (ht_insert t d i).2 n.
Proof.
  intros (Hnd & Hn & He) Hi. unfold ht_insert, allocate_fd.
  destruct (allocate_loop _ _ _ _) as [[r next]|] eqn:E; [|done].
  destruct (allocate_loop_sound _ _ _ _ _ _ Hn E) as [Hnr Hf].
  destruct r as [fd|]; [|done]. destruct (Hf fd eq_refl) as [Hni Hr].
  unfold handles_ok, ht_fds in *. simpl. rewrite map_app. split; [|split; [done|]].
  - apply NoDup_app. split_and!; [done| |apply NoDup_singleton].
    intros x Hx ->%list_elem_of_singleton. done.
  - intros e [Hin| ->%list_elem_of_singleton]%elem_of_app; [by apply He|done].
Qed.

Lemma ctx_inv_register c i d :
  ctx_inv c -> (i < length (mounts (cx_inner c)))%nat -> ctx_inv (register_handle c i d).2.
Proof.
  intros [Hv Hh] Hi. unfold register_handle. pose proof (ht_insert_ok _ _ d i Hh Hi) as Hh'.
  destruct (ht_insert (cx_handles c) d i) as [[fd|] t]; simpl in *; [done|].
  apply ctx_inv_inner; simpl; [done|by apply vfs_inv_at_mount|].
  unfold vfs_close_at. by rewrite at_mount_length.
Qed.

Lemma find_fs_index_lt (v : Vfs F) s i :
  vfs_inv v -> find_fs_index v s = Some i -> (i < length (mounts v))%nat.
Proof.
  intros Hv E. destruct (find_fs_routes v _ Hv (resolve_path_normal v s Hv)) as (j & rs & _ & Ej & Hr).
  unfold find_fs_index in E. rewrite E in Ej. injection Ej as ->. destruct Hr as (e & He & _).
  by apply lookup_lt_Some in He.
Qed.

Lemma ctx_inv_open c s flags : ctx_inv c -> ctx_inv (ctx_open c s flags).2.
Proof.
  intros Hc. unfold ctx_open. destruct (find_fs_index (cx_inner c) s) as [i|] eqn:Ei; [|done].
  apply find_fs_index_lt in Ei; [|apply Hc].
  pose proof (vfs_inv_with_fs (cx_inner c) s (fun f p => fs_open f p flags) (proj1 Hc)) as Hv.
  pose proof (with_fs_length (cx_inner c) s (fun f p => fs_open f p flags)) as Hl. unfold vfs_open.
  destruct (with_fs (cx_inner c) s _) as [r v]. simpl in *.
  assert (ctx_inv (with_inner c v)) as Hc' by (apply ctx_inv_inner; [done..|lia]).
  destruct r as [d|]; [|done]. apply ctx_inv_register; [done|simpl; lia].
Qed.

Lemma ctx_inv_create c s : ctx_inv c -> ctx_inv (ctx_create c s).2.
Proof.
  intros Hc. unfold ctx_create. destruct (find_fs_index (cx_inner c) s) as [i|] eqn:Ei; [|done].
  apply find_fs_index_lt in Ei; [|apply Hc].
  destruct (find_fs (cx_inner c) _) as [[j p]|]; [|done].
  destruct (mounts (cx_inner c) !! j) as [e|]; [|done].
  assert (forall f, ctx_inv (with_inner c (set_fs (cx_inner c) j f))) as Hset.
  { intros f. apply ctx_inv_inner; [done|apply vfs_inv_set_fs, Hc|by rewrite set_fs_length]. }
  destruct (fs_exists (me_fs e) p) as [there f1].
  destruct (if there then (true, f1) else _) as [made f2]. destruct made; cbn [negb]; [|apply Hset].
  destruct (fs_open f2 p 0) as [o f3]. destruct o as [d|]; [|apply Hset].
  pose proof (ctx_inv_register (with_inner c (set_fs (cx_inner c) j f3)) i d (Hset f3)) as Hr.
  cbn [cx_inner with_inner] in Hr. rewrite set_fs_length in Hr. specialize (Hr Ei).
  by destruct (register_handle _ i d).
Qed.

Lemma ctx_inv_close c fd : ctx_inv c -> ctx_inv (ctx_close c fd).2.
Proof.
  intros [Hv Hh].
  assert (ctx_inv (with_handles c (ht_take (cx_handles c) fd).2)) as Hc'.
  { split; [done|]. unfold ht_take. destruct (position _ _) as [pos|]; [|done].
    destruct (ht_entries (cx_handles c) !! pos) as [e|] eqn:Ee; [|done].
    destruct Hh as (Hnd & Hn & He). unfold handles_ok, ht_fds in *. simpl. split; [|split; [done|]].
    - rewrite <- (take_drop_middle _ _ _ Ee), map_app in Hnd. simpl in Hnd. rewrite map_app.
      apply NoDup_app in Hnd as (H1 & H2 & H3). apply NoDup_cons in H3 as [_ H3].
      apply NoDup_app. split_and!; [done| |done]. intros x Hx Hx'. apply (H2 x Hx). set_solver.
    - intros x [Hx|Hx]%elem_of_app; apply He; rewrite <- (take_drop_middle _ _ _ Ee); set_solver. }
  unfold ctx_close. destruct (ht_take (cx_handles c) fd) as [[[i l]|] t]; [|done]. simpl in Hc'.
  pose proof (vfs_inv_at_mount (cx_inner c) i (fun f => fs_close f l) Hv) as Hv'.
  pose proof (at_mount_length (cx_inner c) i (fun f => fs_close f l)) as Hl. unfold vfs_close_at.
  destruct (at_mount (cx_inner c) i _) as [r v]. simpl in *.
  apply ctx_inv_inner; simpl; [done..|lia].
Qed.

Lemma vfs_mount_length (v : Vfs F) mp f :
  (length (mounts v) <= length (mounts (vfs_mount v mp f).2))%nat.
Proof.
  assert (forall ms : list (MountEntry F), length ms <= length (insert_mount ms (normalize_path mp) f))%nat as Hi.
  { intros ms. unfold insert_mount. destruct (position _ ms); [rewrite length_alter; lia|].
    rewrite length_app. simpl. lia. }
  unfold vfs_mount. case_decide; [apply Hi|].
  destruct (find_fs v _) as [[i p]|]; [|simpl; lia]. destruct (mounts v !! i) as [e|]; [|simpl; lia].
  destruct (fs_readdir (me_fs e) p) as [r f'].
  rewrite <- (set_fs_length v i f'). destruct r; cbn [snd mounts]; [apply Hi|lia|lia].
Qed.

(** What [unmount] does to the mount table and the handles. *)
Lemma ctx_unmount_spec c mount_pt returned c' :
  ctx_inv c -> ctx_unmount c mount_pt = (Ok true, returned, c') ->
  let mp := resolve_path (cx_inner c) mount_pt in
  exists t, position (fun e => bool_decide (mount_point e = mp)) (mounts (cx_inner c)) = Some t
  /\ mounts (cx_inner c') = take t (mounts (cx_inner c)) ++ drop (S t) (mounts (cx_inner c))
  /\ cx_handles c' = drop_mount (cx_handles c) t /\ vfs_inv (cx_inner c').
Proof.
  intros [Hv Hh] E mp. pose proof (resolve_path_normal (cx_inner c) mount_pt Hv) as Hn. fold mp in Hn.
  unfold ctx_unmount, mounted_fs_index in E. fold mp in E. rewrite (normalize_path_fixed _ Hn) in E.
  destruct (position _ (mounts (cx_inner c))) as [t|] eqn:Ep; [|done].
  pose proof (vfs_inv_unmount (cx_inner c) mp Hv) as Hv'.
  unfold vfs_unmount in *. rewrite (normalize_path_fixed _ Hn) in *. case_decide; [done|].
  destruct (_ <? _)%nat; [|done]. injection E as <- <-. exists t. split_and!; try done. simpl.
  apply filter_mount; [apply Hv|done].
Qed.

Lemma drop_mount_find t target fd i l :
  NoDup (ht_fds t) -> ht_find t fd = Some (i, l) -> i <> target ->
  ht_find (drop_mount t target) fd = Some (if (target <? i)%nat then (i - 1)%nat else i, l).
Proof.
  unfold ht_find, ht_fds, drop_mount. simpl. intros Hnd.
  induction (ht_entries t) as [|e es IH]; simpl in *; [done|].
  apply NoDup_cons in Hnd as [Hni Hnd].
  destruct (Z.eqb_spec (he_fd e) fd) as [Efd|Efd].
  - intros [= <- <-] Hne. rewrite (proj2 (Nat.eqb_neq _ _) Hne). simpl.
    destruct (target <? he_mount e)%nat; simpl; by rewrite (proj2 (Z.eqb_eq _ _) Efd).
  - intros Hf Hne. destruct (he_mount e =? target)%nat; simpl; [by apply IH|].
    destruct (target <? he_mount e)%nat; simpl; rewrite (proj2 (Z.eqb_neq _ _) Efd); by apply IH.
Qed.

Lemma drop_mount_ok t n target :
  handles_ok t n -> (target < n)%nat -> handles_ok (drop_mount t target) (n - 1).
Proof.
  intros (Hnd & Hn & He) Ht. unfold handles_ok, drop_mount, ht_fds in *. simpl. split; [|split; [done|]].
  - rewrite map_map. erewrite map_ext with (g := he_fd); [|intros e; by destruct (_ <? _)%nat].
    clear -Hnd. induction (ht_entries t) as [|e es IH]; simpl in *; [done|].
    apply NoDup_cons in Hnd as [Hni Hnd]. destruct (negb _); simpl; [|auto].
    apply NoDup_cons. split; [|auto]. intros (x & Hx & Hin)%list_elem_of_fmap. apply Hni.
    apply list_elem_of_fmap. exists x. split; [done|]. apply list_elem_of_In in Hin.
    apply filter_In in Hin as [Hin _]. by apply list_elem_of_In.
  - intros e (x & -> & Hx)%list_elem_of_fmap. apply list_elem_of_In, filter_In in Hx as [Hx Hne].
    apply list_elem_of_In in Hx. destruct (He x Hx) as [Hm Hr]. apply negb_true_iff, Nat.eqb_neq in Hne.
    destruct (Nat.ltb_spec target (he_mount x)); simpl; (split; [lia|done]).
Qed.

Lemma ctx_inv_unmount c mp : ctx_inv c -> ctx_inv (ctx_unmount c mp).2.
Proof.
  intros Hc. destruct (ctx_unmount c mp) as [[r ret] c'] eqn:E. simpl.
  destruct (decide (r = Ok true)) as [->|Hr].
  - destruct (ctx_unmount_spec _ _ _ _ Hc E) as (t & Hp & Hm & Hh & Hv'). split; [done|].
    apply position_Some in Hp as (e & He & _). apply lookup_lt_Some in He.
    rewrite Hh, Hm, length_app, length_take, length_drop.
    replace (t `min` length (mounts (cx_inner c)) + (length (mounts (cx_inner c)) - S t))%nat
      with (length (mounts (cx_inner c)) - 1)%nat by lia.
    apply drop_mount_ok; [apply Hc|done].
  - pose proof (resolve_path_normal (cx_inner c) mp (proj1 Hc)) as Hn.
    unfold ctx_unmount, mounted_fs_index in E. rewrite (normalize_path_fixed _ Hn) in E.
    destruct (position _ _) as [t|] eqn:Ep; [|by injection E as <- <- <-].
    unfold vfs_unmount in E. rewrite (normalize_path_fixed _ Hn) in E. case_decide.
    { injection E as <- <- <-. by destruct c. }
    destruct (_ <? _)%nat eqn:El; [by injection E as <- <- <-|]. exfalso.
    rewrite (filter_mount _ _ _ (proj1 (proj2 (proj2 (proj1 Hc)))) Ep) in El.
    apply position_Some in Ep as (e & He & _). apply lookup_lt_Some in He.
    rewrite length_app, length_take, length_drop in El. apply Nat.ltb_ge in El. lia.
Qed.
End CtxInv.

(** The operations of the context as steps. *)
Inductive ctx_op (F : Type) : Type :=
| COpen (s : path) (flags : Z)
| CCreate (s : path)
| CRead (fd : Z) (buf : list Z)
| CWrite (fd : Z) (data : list Z)
| CClose (fd : Z)
| CSeek (fd pos : Z)
| CMkdir (s : path)
| CUnlink (s : path)
| CReaddir (s : path)
| CChdir (s : path)
| CMount (mp : path) (f : F)
| CUnmount (mp : path).
Arguments COpen {F} _ _. Arguments CCreate {F} _. Arguments CRead {F} _ _.
Arguments CWrite {F} _ _. Arguments CClose {F} _. Arguments CSeek {F} _ _.
Arguments CMkdir {F} _. Arguments CUnlink {F} _. Arguments CReaddir {F} _.
Arguments CChdir {F} _. Arguments CMount {F} _ _. Arguments CUnmount {F} _.

Definition ctx_step {F} `{FileSystem F} (c : VfsContext F) (op : ctx_op F) : VfsContext F :=
  match op with
  | COpen s flags => (ctx_open c s flags).2
  | CCreate s => (ctx_create c s).2
  | CRead fd buf => (ctx_read c fd buf).2
  | CWrite fd data => (ctx_write c fd data).2
  | CClose fd => (ctx_close c fd).2
  | CSeek fd pos => (ctx_seek c fd pos).2
  | CMkdir s => (ctx_mkdir c s).2
  | CUnlink s => (ctx_unlink c s).2
  | CReaddir s => (ctx_readdir c s).2
  | CChdir s => (ctx_change_directory c s).2
  | CMount mp f => (ctx_mount c mp f).2
  | CUnmount mp => (ctx_unmount c mp).2
  end.

Lemma ctx_inv_step {F} `{FileSystem F} (c : VfsContext F) (op : ctx_op F) :
  ctx_inv c -> ctx_inv (ctx_step c op).
Proof.
  intros Hc. pose proof Hc as [Hv _]. destruct op as [s flags|s|fd buf|fd data|fd|fd pos|s|s|s|s|mp f|mp]; simpl.
  - by apply ctx_inv_open.
  - by apply ctx_inv_create.
  - unfold ctx_read. destruct (ht_find (cx_handles c) fd) as [[i l]|]; [|done].
    unfold vfs_read_at. destruct (mounts (cx_inner c) !! i) as [e|]; [|by destruct c].
    destruct (fs_read (me_fs e) l buf) as [[r b] f'].
    apply ctx_inv_inner; [done|by apply vfs_inv_set_fs|by rewrite set_fs_length].
  - apply (ctx_inv_handle_op c fd (fun f l => fs_write f l data) Hc).
  - by apply ctx_inv_close.
  - apply (ctx_inv_handle_op c fd (fun f l => fs_seek f l pos) Hc).
  - pose proof (ctx_inv_path_op c s fs_mkdir Hc) as Hp. unfold ctx_mkdir, vfs_mkdir.
    by destruct (with_fs_result (cx_inner c) s fs_mkdir).
  - pose proof (ctx_inv_path_op c s fs_unlink Hc) as Hp. unfold ctx_unlink, vfs_unlink.
    by destruct (with_fs_result (cx_inner c) s fs_unlink).
  - pose proof (ctx_inv_path_op c s fs_readdir Hc) as Hp. unfold ctx_readdir, vfs_readdir.
    by destruct (with_fs_result (cx_inner c) s fs_readdir).
  - unfold ctx_change_directory. pose proof (vfs_inv_step (cx_inner c) (VChdir s) Hv) as Hv'. simpl in Hv'.
    assert (length (mounts (change_directory (cx_inner c) s).2) = length (mounts (cx_inner c))) as Hl.
    { unfold change_directory. destruct (find_fs (cx_inner c) _) as [[i p]|]; [|done].
      destruct (mounts (cx_inner c) !! i) as [e|]; [|done]. destruct (fs_readdir (me_fs e) p) as [r f'].
      destruct r; apply (set_fs_length (cx_inner c) i f'). }
    destruct (change_directory (cx_inner c) s) as [r v]. simpl in *. apply ctx_inv_inner; [done..|lia].
  - unfold ctx_mount. destruct (mounted_fs_index (cx_inner c) mp); [done|].
    pose proof (vfs_inv_mount (cx_inner c) mp f Hv) as Hv'.
    pose proof (vfs_mount_length (cx_inner c) mp f) as Hl.
    destruct (vfs_mount (cx_inner c) mp f) as [r v]. simpl in *. apply ctx_inv_inner; [done..|lia].
  - by apply ctx_inv_unmount.
Qed.

Lemma ctx_new_inv {F} `{FileSystem F} (root_fs : F) : ctx_inv (ctx_new root_fs).
Proof.
  split; [apply vfs_new_inv|]. split_and!; [by apply NoDup_nil_2|done|done|].
  intros e He. by apply not_elem_of_nil in He.
Qed.

Lemma ctx_inv_steps {F} `{FileSystem F} (ops : list (ctx_op F)) : forall c,
  ctx_inv c -> ctx_inv (fold_left ctx_step ops c).
Proof.
  induction ops as [|op ops IH]; intros c Hc; simpl; [done|]. by apply IH, ctx_inv_step.
Qed.

(** C28. In every reachable state of the VFS context, over any file systems, open
    descriptors are distinct and each one routes to a mount that exists. *)
Theorem ctx_reachable_inv {F} `{FileSystem F} (root_fs : F) (ops : list (ctx_op F)) :
  ctx_inv (fold_left ctx_step ops (ctx_new root_fs)).
Proof. apply ctx_inv_steps, ctx_new_inv. Qed.

(** Descriptor allocation terminates with a fresh number: unless all [2^32]
    descriptors are open, [allocate_fd] returns one that is not in use, also
    after the counter has wrapped around. *)
Theorem allocate_fd_fresh (t : HandleTable) :
  0 <= ht_next_fd t < 2 ^ 32 -> Z.of_nat (length (ht_entries t)) < 2 ^ 32 ->
  exists fd t', allocate_fd t = (Some fd, t') /\ fd ∉ ht_fds t /\ 0 <= fd < 2 ^ 32
  /\ ht_entries t' = ht_entries t.
Proof.
  intros Hn Hl. destruct (allocate_fd_spec t Hn Hl) as (fd & next & E & Hf & Hr & _).
  exists fd, (mkTable (ht_entries t) next). done.
Qed.

(** Unmounting keeps the other handles valid: a descriptor of the unmounted
    file system is discarded, and every other descriptor still reaches the same
    file system with the same local descriptor although mount indices shift. *)
Theorem ctx_unmount_handles {F} `{FileSystem F} (c c' : VfsContext F) (mount_pt : path)
    (returned : list path) :
  ctx_inv c -> ctx_unmount c mount_pt = (Ok true, returned, c') ->
  forall fd i l, ht_find (cx_handles c) fd = Some (i, l) ->
  exists e, mounts (cx_inner c) !! i = Some e
  /\ (mount_point e = resolve_path (cx_inner c) mount_pt -> ht_find (cx_handles c') fd = None)
  /\ (mount_point e <> resolve_path (cx_inner c) mount_pt ->
      exists i', ht_find (cx_handles c') fd = Some (i', l) /\ mounts (cx_inner c') !! i' = Some e).
Proof.
  intros Hc E fd i l Hf. pose proof Hc as [Hv (Hnd & _ & He)].
  destruct (ctx_unmount_spec _ _ _ _ Hc E) as (t & Hp & Hm & Hh & _).
  set (mp := resolve_path (cx_inner c) mount_pt) in *.
  destruct (ht_find_Some _ _ _ _ Hf) as (h & Hin & <- & <- & <-).
  destruct (lookup_lt_is_Some_2 _ _ (proj1 (He h Hin))) as [e Hme]. exists e. split; [done|].
  apply position_Some in Hp as (et & Het & Hmp & Hbefore). apply bool_decide_eq_true in Hmp.
  pose proof (proj1 (proj2 (proj2 Hv))) as Hndp.
  assert (he_mount h = t <-> mount_point e = mp) as Hiff.
  { split; [intros <-; congruence|]. intros Heq.
    apply (NoDup_lookup (map mount_point (mounts (cx_inner c))) _ _ mp Hndp);
      rewrite list_lookup_fmap; [by rewrite Hme, <- Heq|by rewrite Het, <- Hmp]. }
  split.
  - intros Heq%Hiff. rewrite Hh. apply ht_find_None. unfold ht_fds, drop_mount. simpl.
    intros (x & Hx & Hxin)%list_elem_of_fmap. apply list_elem_of_fmap in Hxin as (y & -> & Hy).
    apply list_elem_of_In, filter_In in Hy as [Hy Hne]. apply list_elem_of_In in Hy.
    assert (he_fd y = he_fd h) as Hfd by (destruct (_ <? _)%nat; simpl in Hx; congruence).
    pose proof (ht_find_unique _ _ Hnd Hy) as Hu. rewrite Hfd, Hf in Hu. injection Hu as Hmy _.
    rewrite <- Hmy, Heq, Nat.eqb_refl in Hne. done.
  - intros Hne. assert (he_mount h <> t) as Hnt by (intros ?; apply Hne; by apply Hiff).
    rewrite Hh. eexists. split; [by apply drop_mount_find|]. rewrite Hm.
    apply lookup_lt_Some in Het as Hlt.
    assert (length (take t (mounts (cx_inner c))) = t) as Hlt2 by (rewrite length_take; lia).
    destruct (Nat.ltb_spec t (he_mount h)).
    + rewrite lookup_app_r, Hlt2, lookup_drop by lia.
      by replace (S t + (he_mount h - 1 - t))%nat with (he_mount h) by lia.
    + rewrite lookup_app_l by lia. by rewrite lookup_take_lt by lia.
Qed.

(** ** Moving a file onto another spelling of its own path *)
Definition alias_ctx : VfsContext MemFileSystem :=
  (replace_file (ctx_new mem_new) (P "/a") [1; 2; 3]).2.

(** The contents of a file read through a context, at most 8 bytes. *)
Definition contents (c : VfsContext MemFileSystem) (s : path) : option (list Z) :=
  let '(o, c1) := ctx_open c s 0 in
  match o with
  | None => None
  | Some d => match ctx_read c1 (fd_fd d) (replicate 8 0) with
              | (Ok n, buf, _) => Some (zslice buf 0 n)
              | _ => None
              end
  end.

(** [move_path] compares paths as strings and can destroy its source: moving
    the file [/a] to [//a], another spelling of the same path, fails and leaves
    the file empty, although the source is meant to survive until the copy has
    succeeded. *)
Theorem move_path_alias_loses_data :
  contents alias_ctx (P "/a") = Some [1; 2; 3]
  /\ (move_path 10 alias_ctx (P "/a") (P "//a") false).1 = Err FileNotFound
  /\ contents (move_path 10 alias_ctx (P "/a") (P "//a") false).2 (P "/a") = Some [].
Proof. vm_compute. done. Qed.

(** ** Witnesses *)
Lemma allocate_fd_fresh_witness :
  exists fd t', allocate_fd (mkTable [mkHandle (2 ^ 32 - 1) 0 5; mkHandle 0 0 6] (2 ^ 32 - 1)) = (Some fd, t')
  /\ fd ∉ [2 ^ 32 - 1; 0].
Proof.
  destruct (allocate_fd_fresh (mkTable [mkHandle (2 ^ 32 - 1) 0 5; mkHandle 0 0 6] (2 ^ 32 - 1)))
    as (fd & t' & H1 & H2 & _); [simpl; lia|simpl; lia|].
  exists fd, t'. split; [exact H1|exact H2].
Defined.

Definition demo_ctx : VfsContext MemFileSystem :=
  fold_left ctx_step
    [CMkdir (P "/m"); CMkdir (P "/n"); CMount (P "/m") mem_new; CMount (P "/n") mem_new;
     CCreate (P "/m/x"); CCreate (P "/n/y")] (ctx_new mem_new).

Lemma demo_ctx_inv : ctx_inv demo_ctx.
Proof. apply ctx_inv_steps, ctx_new_inv. Qed.

Lemma ctx_unmount_handles_witness :
  exists e i', mounts (cx_inner demo_ctx) !! 2%nat = Some e
  /\ ht_find (cx_handles (ctx_unmount demo_ctx (P "/m")).2) 1 = Some (i', 0)
  /\ mounts (cx_inner (ctx_unmount demo_ctx (P "/m")).2) !! i' = Some e.
Proof.
  destruct (ctx_unmount_handles demo_ctx (ctx_unmount demo_ctx (P "/m")).2 (P "/m") []
    demo_ctx_inv ltac:(vm_compute; reflexivity) 1 2%nat 0 ltac:(vm_compute; reflexivity))
    as (e & He & _ & Hother).
  destruct Hother as (i' & H1 & H2).
  - vm_compute in He. injection He as <-. vm_compute. discriminate.
  - exists e, i'. split; [exact He|]. split; [exact H1|exact H2].
Defined.
