(* ===== verification/Chronoline.v ===== *)
(** * The timer queue (chronoline) and the loop that drains it

    [chronoline/src/lib.rs]: one-shot and repeating timers in a binary heap,
    with the fixed-rate and fixed-delay policies, and [chrono_tick] of
    [solvent/src/event_loop.rs], which fires every expired timer.  The heap is
    the standard library's [BinaryHeap]; its documented contract is the class
    [TimerHeap], so the theorems hold for every tie-breaking the heap may use,
    and [ListHeap] is a concrete instance. *)

From Stdlib Require Import Sorting.Sorted.
From S2P Require Import Prelude.

(** ** Data *)
Definition Deadline := Z.
Definition TimerId := Z.

Inductive TimerMode : Type :=
| OneShot
| Repeating (interval_ticks : Z).

Inductive TimerPolicy : Type := FixedRate | FixedDelay.

Definition TimerPolicy_default : TimerPolicy := FixedDelay.

Inductive RegisterError : Type := ZeroInterval | TimerFull.

Record Timer := mkTimer {
  tm_deadline : Deadline;
  tm_id : TimerId;
  tm_mode : TimerMode;
  tm_policy : TimerPolicy;
  tm_missed_ticks : Z;
  tm_max_catch_up : Z
}.

#[export] Instance TimerMode_eq_dec : EqDecision TimerMode.
Proof. solve_decision. Defined.
#[export] Instance TimerPolicy_eq_dec : EqDecision TimerPolicy.
Proof. solve_decision. Defined.
#[export] Instance Timer_eq_dec : EqDecision Timer.
Proof. solve_decision. Defined.

(** [Ord for Timer]: reversed, so that the greatest timer is the earliest. *)
Definition timer_cmp (self other : Timer) : comparison :=
  match tm_deadline other ?= tm_deadline self with
  | Eq => tm_id other ?= tm_id self
  | c => c
  end.

(** [deadline_after] and [Deadline::from_now] for a clock at [now]. *)
Definition deadline_after (now delta : Z) : Deadline := u64_saturating_add now delta.
Definition from_now (now delta : Z) : Deadline := u64_saturating_add now delta.

(** ** The standard library's heap *)
Class TimerHeap (H : Type) := {
  heap_new : H;
  heap_push : H -> Timer -> H;
  heap_pop : H -> option (Timer * H);
  heap_peek : H -> option Timer;
  into_vec : H -> list Timer;
  heap_from : list Timer -> H
}.

Class LawfulHeap (H : Type) `{TimerHeap H} := {
  heap_new_vec : into_vec heap_new = [];
  heap_push_vec h t : into_vec (heap_push h t) ≡ₚ t :: into_vec h;
  heap_from_vec l : into_vec (heap_from l) ≡ₚ l;
  heap_pop_None h : heap_pop h = None <-> into_vec h = [];
  heap_pop_Some h t h' : heap_pop h = Some (t, h') -> into_vec h ≡ₚ t :: into_vec h';
  heap_pop_greatest h t h' : heap_pop h = Some (t, h') ->
    forall u, u ∈ into_vec h -> timer_cmp u t <> Gt;
  heap_peek_pop h : heap_peek h = fst <$> heap_pop h
}.

(** ** The timer line *)
Record ChronoLine (H : Type) := mkChrono {
  timers : H;
  now : Z;
  next_id : Z;
  max_catch_up : Z
}.
Arguments mkChrono {H} _ _ _ _.
Arguments timers {H} _. Arguments now {H} _.
Arguments next_id {H} _. Arguments max_catch_up {H} _.

Section Ops.
Context {H : Type} `{TimerHeap H}.

Definition chrono_new : ChronoLine H := mkChrono heap_new 0 0 u64_max.

Definition set_max_catch_up (c : ChronoLine H) (limit : Z) : ChronoLine H :=
  mkChrono (timers c) (now c) (next_id c) limit.

Definition with_timers (c : ChronoLine H) (h : H) : ChronoLine H :=
  mkChrono h (now c) (next_id c) (max_catch_up c).

Definition register_with_mode_and_policy (c : ChronoLine H) (deadline : Deadline) (id : TimerId)
    (mode : TimerMode) (policy : TimerPolicy) : result RegisterError TimerId * ChronoLine H :=
  let push := (Ok id, with_timers c
    (heap_push (timers c) (mkTimer deadline id mode policy 0 (max_catch_up c)))) in
  match mode with
  | Repeating interval_ticks => if interval_ticks =? 0 then (Err ZeroInterval, c) else push
  | OneShot => push
  end.

Definition register_with_mode (c : ChronoLine H) (deadline : Deadline) (id : TimerId)
    (mode : TimerMode) : result RegisterError TimerId * ChronoLine H :=
  register_with_mode_and_policy c deadline id mode TimerPolicy_default.

Definition register (c : ChronoLine H) (deadline : Deadline) (id : TimerId) :
    result RegisterError TimerId * ChronoLine H :=
  register_with_mode c deadline id OneShot.

(** [next_id += 1] panics on overflow. *)
Definition register_auto (c : ChronoLine H) (deadline : Deadline) :
    result RegisterError TimerId * ChronoLine H :=
  match u64_checked_add (next_id c) 1 with
  | None => (Panic, c)
  | Some n => register (mkChrono (timers c) (now c) n (max_catch_up c)) deadline (next_id c)
  end.

Definition advance (c : ChronoLine H) (delta : Z) : ChronoLine H :=
  mkChrono (timers c) (u64_saturating_add (now c) delta) (next_id c) (max_catch_up c).

Definition tick (c : ChronoLine H) (n : Z) : ChronoLine H :=
  mkChrono (timers c) (Z.max (now c) n) (next_id c) (max_catch_up c).

Definition reset_now (c : ChronoLine H) (n : Z) : ChronoLine H :=
  mkChrono (timers c) n (next_id c) (max_catch_up c).

Definition has_expired (c : ChronoLine H) : bool :=
  match heap_peek (timers c) with
  | Some t => tm_deadline t <=? now c
  | None => false
  end.

(** The ticks missed by a repeating timer, and the deadline it is pushed back with. *)
Definition missed (n : Z) (t : Timer) (interval_ticks : Z) : Z :=
  u64_saturating_add (u64_saturating_sub n (tm_deadline t) / interval_ticks) 1.

Definition new_deadline (n : Z) (t : Timer) (interval_ticks : Z) : Deadline :=
  match tm_policy t with
  | FixedRate => u64_saturating_add (tm_deadline t)
                   (u64_saturating_mul interval_ticks (missed n t interval_ticks))
  | FixedDelay => u64_saturating_add n interval_ticks
  end.

(** [unwrap] of an empty heap and division by zero panic. *)
Definition pop_expired (c : ChronoLine H) : result unit (option Timer) * ChronoLine H :=
  if negb (has_expired c) then (Ok None, c) else
  match heap_pop (timers c) with
  | None => (Panic, c)
  | Some (t, h) =>
    match tm_mode t with
    | OneShot => (Ok (Some t), with_timers c h)
    | Repeating iv =>
      if iv =? 0 then (Panic, with_timers c h) else
      let fired := mkTimer (tm_deadline t) (tm_id t) (tm_mode t) (tm_policy t)
                     (Z.min (missed (now c) t iv) (tm_max_catch_up t)) (tm_max_catch_up t) in
      (Ok (Some fired),
       with_timers c (heap_push h
         (mkTimer (new_deadline (now c) t iv) (tm_id t) (tm_mode t) (tm_policy t) 0
            (tm_max_catch_up t))))
    end
  end.

Definition chrono_len (c : ChronoLine H) : nat := length (into_vec (timers c)).

Definition cancel (c : ChronoLine H) (id : TimerId) : bool * ChronoLine H :=
  let len_before := length (into_vec (timers c)) in
  let vec := filter (fun t => tm_id t <> id) (into_vec (timers c)) in
  let h := heap_from vec in
  (negb (length (into_vec h) =? len_before)%nat, with_timers c h).

Definition next_deadline (c : ChronoLine H) : option Deadline :=
  tm_deadline <$> heap_peek (timers c).

Definition chrono_clear (c : ChronoLine H) : ChronoLine H := with_timers c heap_new.

(** ** The draining loop of the desktop runtime *)
Record Runtime := mkRuntime {
  rt_chrono : ChronoLine H;
  rt_cursor_visible : bool;
  rt_term_dirty : bool;
  rt_shell_desktop : bool;   (** [shell_state == ShellState::Desktop] *)
  rt_frame_due : bool
}.

Variables CURSOR_TIMER_ID FRAME_TIMER_ID : TimerId.

Definition on_timer (rt : Runtime) (id : TimerId) : Runtime :=
  if id =? CURSOR_TIMER_ID then
    mkRuntime (rt_chrono rt) (negb (rt_cursor_visible rt)) true (rt_shell_desktop rt) (rt_frame_due rt)
  else if (id =? FRAME_TIMER_ID) && rt_shell_desktop rt then
    mkRuntime (rt_chrono rt) (rt_cursor_visible rt) (rt_term_dirty rt) (rt_shell_desktop rt) true
  else rt.

Definition set_chrono (rt : Runtime) (c : ChronoLine H) : Runtime :=
  mkRuntime c (rt_cursor_visible rt) (rt_term_dirty rt) (rt_shell_desktop rt) (rt_frame_due rt).

(** [while let Some(timer) = chrono.pop_expired()]; the fired timers are
    collected in order.  Running out of fuel is [Panic]. *)
Fixpoint fire_loop (fuel : nat) (rt : Runtime) : result unit (list Timer * Runtime) :=
  match fuel with
  | O => Panic
  | S fuel =>
    match pop_expired (rt_chrono rt) with
    | (Ok None, c) => Ok ([], set_chrono rt c)
    | (Ok (Some t), c) =>
      let? (fired, rt') := fire_loop fuel (on_timer (set_chrono rt c) (tm_id t)) in
      Ok (t :: fired, rt')
    | (Err e, _) => Err e
    | (Panic, _) => Panic
    end
  end.

Definition chrono_tick (fuel : nat) (rt : Runtime) (n : Z) : result unit (list Timer * Runtime) :=
  fire_loop fuel (set_chrono rt (tick (rt_chrono rt) n)).
End Ops.
Arguments Runtime : clear implicits.

(** ** Invariant and behaviour *)
Section Laws.
Context {H : Type} `{LawfulHeap H}.
Implicit Type c : ChronoLine H.

Definition timer_ok (t : Timer) : Prop :=
  u64_range (tm_deadline t)
  /\ match tm_mode t with OneShot => True | Repeating iv => 0 < iv <= u64_max end.

Definition chrono_inv c : Prop :=
  u64_range (now c) /\ Forall timer_ok (into_vec (timers c)).

Definition expired (n : Z) (t : Timer) : Prop := tm_deadline t <= n.
#[export] Instance expired_dec n t : Decision (expired n t).
Proof. unfold expired. apply _. Defined.

(** What is reported for a fired timer, and what is pushed back. *)
Definition reported (n : Z) (t : Timer) : Timer :=
  match tm_mode t with
  | OneShot => t
  | Repeating iv => mkTimer (tm_deadline t) (tm_id t) (tm_mode t) (tm_policy t)
                      (Z.min (missed n t iv) (tm_max_catch_up t)) (tm_max_catch_up t)
  end.
Definition pushed_back (n : Z) (t : Timer) : list Timer :=
  match tm_mode t with
  | OneShot => []
  | Repeating iv => [mkTimer (new_deadline n t iv) (tm_id t) (tm_mode t) (tm_policy t) 0
                       (tm_max_catch_up t)]
  end.

Lemma has_expired_spec c :
  has_expired c = true <-> exists t, t ∈ into_vec (timers c) /\ expired (now c) t.
Proof.
  unfold has_expired, expired. rewrite heap_peek_pop.
  destruct (heap_pop (timers c)) as [[t h]|] eqn:E; simpl.
  - pose proof (heap_pop_Some _ _ _ E) as Hp. pose proof (heap_pop_greatest _ _ _ E) as Hg.
    rewrite Z.leb_le. split.
    + intros Hd. exists t. rewrite Hp. split; [left|done].
    + intros (u & Hu & Hd). specialize (Hg u Hu). unfold timer_cmp in Hg.
      destruct (Z.compare_spec (tm_deadline t) (tm_deadline u)); [lia|lia|done].
  - apply heap_pop_None in E. rewrite E. split; [done|]. intros (u & Hu & _).
    by apply not_elem_of_nil in Hu.
Qed.

(** A pushed-back timer is strictly in the future, unless time itself has
    saturated. *)
Lemma new_deadline_future n t iv :
  0 <= n < u64_max -> u64_range (tm_deadline t) -> 0 < iv <= u64_max -> expired n t ->
  n < new_deadline n t iv <= u64_max.
Proof.
  unfold u64_range, expired, new_deadline, missed, u64_saturating_add, u64_saturating_mul,
    u64_saturating_sub.
  intros Hn Hd Hi He. destruct (tm_policy t); [|lia].
  rewrite Z.max_l by lia.
  pose proof (Z.div_mod (n - tm_deadline t) iv ltac:(lia)) as Hdm.
  pose proof (Z.mod_pos_bound (n - tm_deadline t) iv ltac:(lia)).
  assert (0 <= (n - tm_deadline t) / iv <= n - tm_deadline t).
  { split; [apply Z.div_pos; lia|]. apply Z.div_le_upper_bound; nia. }
  rewrite (Z.min_l (_ / iv + 1)) by lia. nia.
Qed.

Lemma pushed_back_ok n t :
  0 <= n < u64_max -> timer_ok t -> expired n t ->
  Forall timer_ok (pushed_back n t) /\ Forall (fun u => ~ expired n u) (pushed_back n t).
Proof.
  intros Hn [Hd Hm] He. unfold pushed_back. destruct (tm_mode t) as [|iv]; [done|].
  pose proof (new_deadline_future n t iv Hn Hd Hm He).
  split; (apply Forall_cons; split; [|done]).
  - split; simpl; [unfold u64_range; lia|done].
  - unfold expired. simpl. lia.
Qed.

Lemma pop_expired_none c : has_expired c = false -> pop_expired c = (Ok None, c).
Proof. unfold pop_expired. by intros ->. Qed.

Lemma pop_expired_some c :
  chrono_inv c -> has_expired c = true ->
  exists t h, heap_pop (timers c) = Some (t, h) /\ expired (now c) t
  /\ exists h', pop_expired c = (Ok (Some (reported (now c) t)), with_timers c h')
  /\ into_vec h' ≡ₚ pushed_back (now c) t ++ into_vec h.
Proof.
  intros [Hn Hok] He. unfold pop_expired. rewrite He. simpl.
  unfold has_expired in He. rewrite heap_peek_pop in He.
  destruct (heap_pop (timers c)) as [[t h]|] eqn:E; [|done]. simpl in He. apply Z.leb_le in He.
  exists t, h. split; [done|]. split; [done|].
  rewrite (heap_pop_Some _ _ _ E), Forall_cons in Hok. destruct Hok as [[_ Hm] _].
  unfold reported, pushed_back. destruct (tm_mode t) as [|iv] eqn:Em.
  - by exists h.
  - rewrite (proj2 (Z.eqb_neq iv 0)) by lia.
    eexists. split; [done|]. by rewrite heap_push_vec.
Qed.

Lemma greatest_first t u : timer_cmp u t <> Gt -> tm_deadline t <= tm_deadline u.
Proof.
  unfold timer_cmp. destruct (Z.compare_spec (tm_deadline t) (tm_deadline u)); [lia|lia|done].
Qed.

Lemma cmp_reported n u t : timer_cmp (reported n u) (reported n t) = timer_cmp u t.
Proof. unfold reported. by destruct (tm_mode u), (tm_mode t). Qed.

(** [earlier a b]: [a] fires no later than [b] in the heap's order. *)
Definition earlier (a b : Timer) : Prop := timer_cmp b a <> Gt.

Variables CURSOR FRAME : TimerId.

Lemma on_timer_chrono (rt : Runtime H) id :
  rt_chrono (on_timer CURSOR FRAME rt id) = rt_chrono rt.
Proof. unfold on_timer. by repeat case_match. Qed.

Lemma on_timer_set_chrono (rt : Runtime H) c id :
  on_timer CURSOR FRAME (set_chrono rt c) id = set_chrono (on_timer CURSOR FRAME rt id) c.
Proof. unfold on_timer, set_chrono. simpl. by repeat case_match. Qed.

Lemma foldl_on_timer_chrono ids : forall (rt : Runtime H) c c',
  set_chrono (foldl (on_timer CURSOR FRAME) (set_chrono rt c) ids) c'
  = set_chrono (foldl (on_timer CURSOR FRAME) rt ids) c'.
Proof.
  induction ids as [|i ids IH]; intros rt c c'; simpl; [by destruct rt|].
  rewrite on_timer_set_chrono. apply IH.
Qed.

(** The loop with one unit of fuel per expired timer and one for the last test. *)
Lemma fire_loop_spec n : forall fuel (rt : Runtime H) (c := rt_chrono rt),
  n = now c -> chrono_inv c -> n < u64_max ->
  (length (filter (expired n) (into_vec (timers c))) < fuel)%nat ->
  exists fired rt', fire_loop CURSOR FRAME fuel rt = Ok (fired, rt')
  /\ (exists src, fired = map (reported n) src
       /\ src ≡ₚ filter (expired n) (into_vec (timers c))
       /\ StronglySorted earlier fired
       /\ into_vec (timers (rt_chrono rt')) ≡ₚ
            filter (fun t => ~ expired n t) (into_vec (timers c)) ++ (src ≫= pushed_back n))
  /\ now (rt_chrono rt') = n /\ chrono_inv (rt_chrono rt')
  /\ rt' = set_chrono (foldl (on_timer CURSOR FRAME) rt (map tm_id fired)) (rt_chrono rt').
Proof.
  induction fuel as [|fuel IH]; intros rt c -> Hinv Hn Hf; [lia|]. simpl. fold c.
  destruct (has_expired c) eqn:He.
  - destruct (pop_expired_some c Hinv He) as (t & h & Hp & Hexp & h' & -> & Hh').
    pose proof (heap_pop_Some _ _ _ Hp) as Hperm.
    pose proof (heap_pop_greatest _ _ _ Hp) as Hg.
    pose proof Hinv as [Hr Hok]. rewrite Hperm, Forall_cons in Hok. destruct Hok as [Hok1 Hok2].
    destruct (pushed_back_ok (now c) t) as [Hpb1 Hpb2]; [unfold u64_range in Hr; lia|done..|].
    set (rt1 := on_timer CURSOR FRAME (set_chrono rt (with_timers c h')) (tm_id (reported (now c) t))).
    assert (rt_chrono rt1 = with_timers c h') as Hc1 by apply on_timer_chrono.
    assert (filter (expired (now c)) (into_vec h') ≡ₚ filter (expired (now c)) (into_vec h)) as Hfh.
    { rewrite Hh', filter_app. by rewrite (filter_none _ (pushed_back (now c) t)). }
    destruct (IH rt1) as (fired & rt' & Eq & (src & Hfi & Hsrc & Hsort & Hrest) & Hnow & Hinv' & Hrt').
    + by rewrite Hc1.
    + rewrite Hc1. split; [done|]. simpl. rewrite Hh'. by apply Forall_app.
    + done.
    + rewrite Hc1. simpl. rewrite Hfh. rewrite Hperm, filter_cons_True in Hf by done. simpl in Hf. lia.
    + rewrite Hc1 in Hsrc, Hrest. simpl in Hsrc, Hrest. rewrite Hfh in Hsrc.
      rewrite Eq. eexists _, _. split; [done|]. split; [|split; [done|split; [done|]]].
      * exists (t :: src). split; [by rewrite Hfi|].
        split; [by rewrite Hsrc, Hperm, filter_cons_True by done|].
        split.
        -- constructor; [done|]. rewrite Hfi. apply Forall_map, Forall_forall. intros u Hu.
           unfold earlier. rewrite cmp_reported. apply Hg. rewrite Hperm. right.
           rewrite Hsrc in Hu. by apply list_elem_of_filter in Hu as [_ ?].
        -- rewrite Hrest, Hh', filter_app, Hperm, filter_cons_False by tauto.
           rewrite (filter_all _ (pushed_back (now c) t)) by done.
           simpl. rewrite !app_assoc. apply Permutation_app_tail, Permutation_app_comm.
      * rewrite Hrt'. simpl. unfold rt1. rewrite on_timer_set_chrono. apply foldl_on_timer_chrono.
  - rewrite pop_expired_none by done. eexists _, _. split; [done|].
    assert (Forall (fun t => ~ expired (now c) t) (into_vec (timers c))) as Hnone.
    { apply Forall_forall. intros t Ht Hexp.
      assert (has_expired c = true) by (apply has_expired_spec; eauto). congruence. }
    split; [|split_and!; [done|done|by destruct rt]].
    exists []. split; [done|]. rewrite (filter_none (expired (now c))) by done.
    split; [done|]. split; [constructor|]. simpl. rewrite app_nil_r.
    by rewrite filter_all.
Qed.

Lemma tick_inv c n : chrono_inv c -> u64_range n -> chrono_inv (tick c n).
Proof. intros [Hr Hok] Hn. split; [|done]. unfold u64_range in *. simpl. lia. Qed.

(** C33. A clock tick fires every due timer exactly once and terminates: with one
    step per expired timer the loop of [chrono_tick] returns; the timers
    reported are exactly those whose deadline had passed, earliest first; the
    remaining queue is the timers not yet due plus the repeating timers pushed
    back; and nothing left in it is due. *)
Theorem chrono_tick_fires (rt : Runtime H) (n : Z) (fuel : nat)
    (c := tick (rt_chrono rt) n) :
  chrono_inv (rt_chrono rt) -> u64_range n -> now c < u64_max -> (chrono_len c < fuel)%nat ->
  exists fired rt', chrono_tick CURSOR FRAME fuel rt n = Ok (fired, rt')
  /\ (exists src, fired = map (reported (now c)) src
       /\ src ≡ₚ filter (expired (now c)) (into_vec (timers c))
       /\ StronglySorted earlier fired
       /\ into_vec (timers (rt_chrono rt')) ≡ₚ
            filter (fun t => ~ expired (now c) t) (into_vec (timers c))
            ++ (src ≫= pushed_back (now c)))
  /\ has_expired (rt_chrono rt') = false /\ chrono_inv (rt_chrono rt')
  /\ rt' = set_chrono (foldl (on_timer CURSOR FRAME) rt (map tm_id fired)) (rt_chrono rt').
Proof.
  intros Hinv Hr Hn Hfuel. pose proof (tick_inv _ n Hinv Hr) as Hinv'.
  destruct (fire_loop_spec (now c) fuel (set_chrono rt c) eq_refl Hinv' Hn)
    as (fired & rt' & E & (src & Hf & Hsrc & Hsort & Hrest) & Hnow & Hi & Hrt').
  { eapply Nat.le_lt_trans; [apply length_filter|exact Hfuel]. }
  exists fired, rt'. split; [exact E|]. split; [by exists src|].
  split; [|split; [done|by rewrite Hrt', foldl_on_timer_chrono]].
  apply not_true_iff_false. rewrite has_expired_spec, Hnow. intros (t & Ht & He).
  rewrite Hrest in Ht. apply elem_of_app in Ht as [[? _]%list_elem_of_filter|Ht]; [done|].
  apply list_elem_of_bind in Ht as (u & Hu & Husrc).
  rewrite Hsrc in Husrc. apply list_elem_of_filter in Husrc as [Hue Hu'].
  destruct Hinv' as [Hr' Hok]. rewrite Forall_forall in Hok.
  destruct (pushed_back_ok (now c) u) as [_ Hfut]; [split; [apply Hr'|exact Hn]|by apply Hok|done|].
  rewrite Forall_forall in Hfut. by apply (Hfut t).
Qed.

(** A fixed-rate timer keeps its phase: when the arithmetic does not saturate,
    the deadline it is pushed back with is the first multiple of the interval
    after its old deadline that is still in the future, and the number of
    missed ticks counts the multiples that have passed. *)
Theorem fixed_rate_phase (n : Z) (t : Timer) (iv : Z) :
  tm_policy t = FixedRate -> u64_range (tm_deadline t) -> 0 < iv -> expired n t ->
  n + iv <= u64_max ->
  exists k, missed n t iv = k /\ 1 <= k
  /\ new_deadline n t iv = tm_deadline t + k * iv
  /\ tm_deadline t + (k - 1) * iv <= n < tm_deadline t + k * iv.
Proof.
  unfold u64_range, expired, new_deadline, missed, u64_saturating_add, u64_saturating_mul,
    u64_saturating_sub. intros -> Hd Hi He Hs. rewrite Z.max_l by lia.
  pose proof (Z.div_mod (n - tm_deadline t) iv ltac:(lia)) as Hdm.
  pose proof (Z.mod_pos_bound (n - tm_deadline t) iv ltac:(lia)).
  assert (0 <= (n - tm_deadline t) / iv <= n - tm_deadline t).
  { split; [apply Z.div_pos; lia|]. apply Z.div_le_upper_bound; nia. }
  set (q := (n - tm_deadline t) / iv) in *. exists (q + 1).
  rewrite (Z.min_l (q + 1)) by lia.
  rewrite (Z.min_l (iv * (q + 1))) by nia. rewrite Z.min_l by nia.
  split; [done|]. split; [lia|]. split; [f_equal; apply Z.mul_comm|]. nia.
Qed.

Lemma cancel_vec c id :
  into_vec (timers (cancel c id).2) ≡ₚ filter (fun t => tm_id t <> id) (into_vec (timers c)).
Proof. simpl. apply heap_from_vec. Qed.

(** Cancelling removes exactly the timers with the given id, and reports
    whether there was one. *)
Theorem cancel_correct c (id : TimerId) (t : Timer) :
  (t ∈ into_vec (timers (cancel c id).2) <-> t ∈ into_vec (timers c) /\ tm_id t <> id)
  /\ ((cancel c id).1 = true <-> exists u, u ∈ into_vec (timers c) /\ tm_id u = id).
Proof.
  split.
  - rewrite cancel_vec, list_elem_of_filter. tauto.
  - unfold cancel. simpl. rewrite heap_from_vec, negb_true_iff, Nat.eqb_neq. split.
    + intros Hl. destruct (decide (Exists (fun u => tm_id u = id) (into_vec (timers c)))) as [Hx|Hx].
      * apply Exists_exists in Hx as (u & Hu & Hid). by exists u.
      * destruct Hl. rewrite filter_all; [done|]. by apply not_Exists_Forall in Hx; [|apply _].
    + intros (u & Hu & Hid) Hl.
      pose proof (length_filter_lt (fun t => tm_id t <> id) (into_vec (timers c)) u Hu ltac:(tauto)). lia.
Qed.

Lemma register_inv c d id mode policy :
  chrono_inv c -> u64_range d ->
  match mode with OneShot => True | Repeating iv => u64_range iv end ->
  chrono_inv (register_with_mode_and_policy c d id mode policy).2.
Proof.
  intros [Hr Hok] Hd Hm. unfold register_with_mode_and_policy.
  assert (match mode with OneShot => True | Repeating iv => 0 < iv <= u64_max end ->
    chrono_inv (with_timers c (heap_push (timers c) (mkTimer d id mode policy 0 (max_catch_up c))))) as Hpush.
  { intros Hm'. split; [done|]. simpl. rewrite heap_push_vec. by apply Forall_cons. }
  destruct mode as [|iv]; [by apply Hpush|]. destruct (Z.eqb_spec iv 0); [done|].
  apply Hpush. unfold u64_range in Hm. lia.
Qed.
End Laws.

(** ** A concrete heap: a list from which [pop] selects the greatest timer *)
Record ListHeap := mkListHeap { heap_list : list Timer }.

Fixpoint select (t : Timer) (l : list Timer) : Timer * list Timer :=
  match l with
  | [] => (t, [])
  | u :: l' => match timer_cmp u t with
               | Gt => let '(m, r) := select u l' in (m, t :: r)
               | _ => let '(m, r) := select t l' in (m, u :: r)
               end
  end.

#[export] Instance list_heap : TimerHeap ListHeap := {
  heap_new := mkListHeap [];
  heap_push h t := mkListHeap (t :: heap_list h);
  heap_pop h := match heap_list h with
                | [] => None
                | t :: l => let '(m, r) := select t l in Some (m, mkListHeap r)
                end;
  heap_peek h := match heap_list h with
                 | [] => None
                 | t :: l => Some (select t l).1
                 end;
  into_vec h := heap_list h;
  heap_from l := mkListHeap l
}.

Lemma timer_cmp_le u t : timer_cmp u t <> Gt <->
  tm_deadline t < tm_deadline u \/ (tm_deadline t = tm_deadline u /\ tm_id t <= tm_id u).
Proof.
  unfold timer_cmp. destruct (Z.compare_spec (tm_deadline t) (tm_deadline u));
    [destruct (Z.compare_spec (tm_id t) (tm_id u))|..]; split; intros; try done; lia.
Qed.

Lemma select_spec l : forall t m r, select t l = (m, r) ->
  t :: l ≡ₚ m :: r /\ forall u, u ∈ t :: l -> timer_cmp u m <> Gt.
Proof.
  induction l as [|u l IH]; intros t m r; simpl.
  - intros [= <- <-]. split; [done|]. intros u ->%list_elem_of_singleton. apply timer_cmp_le. lia.
  - destruct (timer_cmp u t) eqn:Ec.
    3: { destruct (select u l) as [m' r'] eqn:Es. intros [= <- <-].
         destruct (IH _ _ _ Es) as [Hp Hg]. split; [rewrite Hp; apply Permutation_swap|].
         intros v [->|Hv]%elem_of_cons; [|by apply Hg].
         specialize (Hg u ltac:(left)). rewrite timer_cmp_le in *.
         assert (~ timer_cmp u t <> Gt) as Hnot by (rewrite Ec; tauto). rewrite timer_cmp_le in Hnot. lia. }
    all: destruct (select t l) as [m' r'] eqn:Es; intros [= <- <-];
      destruct (IH _ _ _ Es) as [Hp Hg]; split;
      [rewrite (Permutation_swap u t), Hp; apply Permutation_swap|];
      assert (timer_cmp u t <> Gt) as Hle by (rewrite Ec; done);
      intros v [->|[->|Hv]%elem_of_cons]%elem_of_cons;
        [apply Hg; left| |apply Hg; by right];
      specialize (Hg t ltac:(left)); rewrite timer_cmp_le in *; lia.
Qed.

#[export] Instance list_heap_lawful : LawfulHeap ListHeap.
Proof.
  split; simpl.
  - done.
  - done.
  - done.
  - intros [[|t l]]; simpl; [done|]. by destruct (select t l).
  - intros [[|t l]] m h'; simpl; [done|]. destruct (select t l) as [m' r] eqn:E. intros [= <- <-].
    by destruct (select_spec _ _ _ _ E).
  - intros [[|t l]] m h'; simpl; [done|]. destruct (select t l) as [m' r] eqn:E. intros [= <- <-].
    by destruct (select_spec _ _ _ _ E).
  - intros [[|t l]]; simpl; [done|]. by destruct (select t l).
Qed.

(** ** Witnesses *)
Definition demo_chrono : ChronoLine ListHeap :=
  let c := chrono_new in
  let c := (register_with_mode_and_policy c 10 1 (Repeating 4) FixedRate).2 in
  let c := (register_with_mode c 5 2 (Repeating 3)).2 in
  (register c 100 3).2.

Lemma demo_chrono_inv : chrono_inv demo_chrono.
Proof.
  split; [split; vm_compute; discriminate|]. vm_compute into_vec.
  repeat (apply Forall_cons; split; [split; [split; vm_compute; discriminate|]; simpl; try done; unfold u64_max; lia|]).
  done.
Qed.

Lemma chrono_tick_fires_witness :
  exists fired rt', chrono_tick 1 2 10 (mkRuntime demo_chrono true false true false) 20 = Ok (fired, rt')
  /\ has_expired (rt_chrono rt') = false.
Proof.
  destruct (chrono_tick_fires 1 2 (mkRuntime demo_chrono true false true false) 20 10 demo_chrono_inv)
    as (fired & rt' & E & _ & He & _).
  - split; vm_compute; discriminate.
  - vm_compute. reflexivity.
  - vm_compute. lia.
  - exists fired, rt'. split; [exact E|exact He].
Defined.

Lemma fixed_rate_phase_witness :
  exists k, missed 20 (mkTimer 10 1 (Repeating 4) FixedRate 0 100) 4 = k /\ 1 <= k.
Proof.
  destruct (fixed_rate_phase 20 (mkTimer 10 1 (Repeating 4) FixedRate 0 100) 4) as (k & H1 & H2 & _);
    [reflexivity|split; vm_compute; discriminate|lia|unfold expired; simpl; lia|unfold u64_max; lia|].
  exists k. split; [exact H1|exact H2].
Defined.
