(* ===== verification/Frames.v ===== *)
(** * The physical frame allocator

    [petroleum/src/page_table/allocator/bitmap.rs] and [traits.rs]: one bit per
    4 KiB frame in a vector of 64-bit words.  [used] is the abstract state, the
    set of frames in use; the theorems say what each operation does to it. *)

From S2P Require Import Prelude.

Inductive AllocError : Type := OutOfMemory | InvalidAlignment | NotInitialized.
Inductive SystemError : Type := FrameAllocationFailed.

(** ** State

    [bm_capacity] is the capacity of the vector [bitmap]. *)
Record BitmapFrameAllocator := mkBitmap {
  bitmap : list Z;
  bm_capacity : Z;
  total_frames : Z
}.

Definition set_bitmap (b : BitmapFrameAllocator) (l : list Z) : BitmapFrameAllocator :=
  mkBitmap l (bm_capacity b) (total_frames b).

(** [Vec::with_capacity(n)] reserves at least [n] elements; [slack] is the excess. *)
Definition bitmap_new (slack total : Z) : BitmapFrameAllocator :=
  mkBitmap [] ((total + 63) / 64 + slack) total.

(** [resize(capacity, x)] of a vector that is still empty. *)
Definition resize_to_capacity (b : BitmapFrameAllocator) (x : Z) : BitmapFrameAllocator :=
  set_bitmap b (take (Z.to_nat (bm_capacity b))
    (bitmap b ++ replicate (Z.to_nat (bm_capacity b) - length (bitmap b)) x)).

(** Indexing [bitmap[idx]] out of range panics. *)
Definition set_frame_used (frame : Z) (used : bool) (b : BitmapFrameAllocator) :
    result SystemError BitmapFrameAllocator :=
  if total_frames b <=? frame then Ok b else
  let idx := frame / 64 in
  let bit := frame mod 64 in
  match bitmap b !! Z.to_nat idx with
  | None => Panic
  | Some w =>
    let w' := if used then Z.lor w (Z.shiftl 1 bit)
              else Z.land w (Z.lxor u64_max (Z.shiftl 1 bit)) in
    Ok (set_bitmap b (<[Z.to_nat idx := w']> (bitmap b)))
  end.

Definition is_frame_available (b : BitmapFrameAllocator) (frame : Z) : result SystemError bool :=
  if total_frames b <=? frame then Ok false else
  match bitmap b !! Z.to_nat (frame / 64) with
  | None => Panic
  | Some w => Ok (Z.land w (Z.shiftl 1 (frame mod 64)) =? 0)
  end.

Definition set_frame_range (start end_ : Z) (used : bool) (b : BitmapFrameAllocator) :
    result SystemError BitmapFrameAllocator :=
  for_loop start end_ (fun i => set_frame_used i used) b.

Definition bitmap_init (b : BitmapFrameAllocator) (initial_used_frames : Z) :
    result SystemError BitmapFrameAllocator :=
  for_loop 0 initial_used_frames (fun i => set_frame_used i true) (resize_to_capacity b 0).

(** ** Building from the firmware memory map *)
Record MemoryDescriptor := mkDesc {
  md_type : Z;
  md_physical_start : Z;
  md_page_count : Z
}.

Definition EfiConventionalMemory : Z := 7.

(** [start + count * 4096] on [u64]; overflow panics. *)
Definition desc_end (d : MemoryDescriptor) : option Z :=
  match u64_checked_mul (md_page_count d) 4096 with
  | None => None
  | Some n => u64_checked_add (md_physical_start d) n
  end.

Fixpoint max_phys (acc : Z) (map : list MemoryDescriptor) : option Z :=
  match map with
  | [] => Some acc
  | d :: map => match desc_end d with
                | None => None
                | Some e => max_phys (if acc <? e then e else acc) map
                end
  end.

Definition add_descriptor (d : MemoryDescriptor) (b : BitmapFrameAllocator) :
    result SystemError BitmapFrameAllocator :=
  if md_type d =? EfiConventionalMemory then
    match desc_end d with
    | None => Panic
    | Some e => set_frame_range (md_physical_start d / 4096) (e / 4096) false b
    end
  else Ok b.

Fixpoint add_descriptors (map : list MemoryDescriptor) (b : BitmapFrameAllocator) :
    result SystemError BitmapFrameAllocator :=
  match map with
  | [] => Ok b
  | d :: map => let? b' := add_descriptor d b in add_descriptors map b'
  end.

Definition init_with_memory_map (slack : Z) (map : list MemoryDescriptor) :
    result SystemError BitmapFrameAllocator :=
  match max_phys 0 map with
  | None => Panic
  | Some m =>
    match u64_checked_add m 4095 with
    | None => Panic
    | Some x => add_descriptors map (resize_to_capacity (bitmap_new slack (x / 4096)) u64_max)
    end
  end.

(** ** Allocation of one frame

    The nested loops [for i in 0..len], [for j in 0..64] with their early
    returns: [Hit] is the frame found, [Past] the return at the end of memory,
    [Next] falling through. *)
Inductive scan := Hit (frame : Z) | Past | Next.

Fixpoint scan_bits (total i w : Z) (n : nat) (j : Z) : scan :=
  match n with
  | O => Next
  | S n =>
    let frame_idx := i * 64 + j in
    if frame_idx =? 0 then scan_bits total i w n (j + 1)
    else if total <=? frame_idx then Past
    else if Z.land w (Z.shiftl 1 j) =? 0 then Hit frame_idx
    else scan_bits total i w n (j + 1)
  end.

Fixpoint scan_words (total i : Z) (words : list Z) : scan :=
  match words with
  | [] => Next
  | w :: words =>
    if w =? u64_max then scan_words total (i + 1) words
    else match scan_bits total i w 64 0 with
         | Next => scan_words total (i + 1) words
         | r => r
         end
  end.

(** [PhysFrame { start_address }]; the multiplication panics on overflow. *)
Definition allocate (b : BitmapFrameAllocator) : result AllocError Z * BitmapFrameAllocator :=
  match scan_words (total_frames b) 0 (bitmap b) with
  | Hit f =>
    match set_frame_used f true b, u64_checked_mul f 4096 with
    | Ok b', Some addr => (Ok addr, b')
    | _, _ => (Panic, b)
    end
  | _ => (Err OutOfMemory, b)
  end.

Definition deallocate (b : BitmapFrameAllocator) (start_address : Z) : result SystemError BitmapFrameAllocator :=
  let frame_idx := start_address / 4096 in
  if frame_idx <? total_frames b then set_frame_used frame_idx false b else Ok b.

Definition is_initialized (b : BitmapFrameAllocator) : bool :=
  match bitmap b with [] => false | _ => true end.

(** [PhysAddr::new] panics on an address of more than 52 bits. *)
Definition phys_addr_new (a : Z) : option Z := if a <? 2 ^ 52 then Some a else None.

Definition allocate_frame (b : BitmapFrameAllocator) : result unit (option Z) * BitmapFrameAllocator :=
  match scan_words (total_frames b) 0 (bitmap b) with
  | Hit f =>
    match set_frame_used f true b, u64_checked_mul f 4096 ≫= phys_addr_new with
    | Ok b', Some addr => (Ok (Some addr), b')
    | _, _ => (Panic, b)
    end
  | _ => (Ok None, b)
  end.

(** [allocate_frame_low] for a page-table root at [cr3_addr]. *)
Fixpoint scan_low (b : BitmapFrameAllocator) (l4_frame_idx : Z) (n : nat) (i : Z) : result SystemError (option Z) :=
  match n with
  | O => Ok None
  | S n =>
    if i =? l4_frame_idx then scan_low b l4_frame_idx n (i + 1)
    else match bitmap b !! Z.to_nat (i / 64) with
         | None => Panic
         | Some w => if Z.land w (Z.shiftl 1 (i mod 64)) =? 0 then Ok (Some i)
                     else scan_low b l4_frame_idx n (i + 1)
         end
  end.

Definition allocate_frame_low (b : BitmapFrameAllocator) (cr3_addr : Z) :
    result SystemError (option Z) * BitmapFrameAllocator :=
  match scan_low b (cr3_addr / 4096) (Z.to_nat (Z.min 256 (total_frames b) - 1)) 1 with
  | Ok (Some f) => match set_frame_used f true b with
                   | Ok b' => (Ok (Some (f * 4096)), b')
                   | _ => (Panic, b)
                   end
  | Ok None => (Ok None, b)
  | _ => (Panic, b)
  end.

(** ** Contiguous allocation *)
Definition LOW_MEM_SKIP_FRAMES : Z := 16 * 1024 * 1024 / 4096.

(** The search: the frame at which a run of [pages] free frames starts. *)
Fixpoint scan_run (b : BitmapFrameAllocator) (pages : Z) (n : nat) (i count start : Z) :
    result SystemError (Z * Z) :=
  match n with
  | O => Err FrameAllocationFailed
  | S n =>
    let? free := is_frame_available b i in
    if negb free then scan_run b pages n (i + 1) 0 (i + 1)
    else if count + 1 =? pages then Ok (start, i)
    else scan_run b pages n (i + 1) (count + 1) start
  end.

Definition allocate_contiguous_frames (b : BitmapFrameAllocator) (pages : Z) :
    result SystemError Z * BitmapFrameAllocator :=
  match scan_run b pages (Z.to_nat (total_frames b - LOW_MEM_SKIP_FRAMES))
          LOW_MEM_SKIP_FRAMES 0 LOW_MEM_SKIP_FRAMES with
  | Ok (start, i) =>
    match set_frame_range start (i + 1) true b, u64_checked_mul start 4096 with
    | Ok b', Some addr => (Ok addr, b')
    | _, _ => (Panic, b)
    end
  | Err e => (Err e, b)
  | Panic => (Panic, b)
  end.

Definition free_contiguous_frames (b : BitmapFrameAllocator) (start_phys pages : Z) :
    result SystemError BitmapFrameAllocator :=
  set_frame_range (start_phys / 4096) (start_phys / 4096 + pages) false b.

Definition reserve_frames (b : BitmapFrameAllocator) (start_phys pages : Z) :
    result SystemError BitmapFrameAllocator :=
  set_frame_range (start_phys / 4096) (start_phys / 4096 + pages) true b.

Definition release_frames (b : BitmapFrameAllocator) (start_phys pages : Z) :
    result SystemError BitmapFrameAllocator :=
  set_frame_range (start_phys / 4096) (start_phys / 4096 + pages) false b.

Definition available_frames (b : BitmapFrameAllocator) : result SystemError Z :=
  for_loop 0 (total_frames b)
    (fun i count => let? free := is_frame_available b i in Ok (if (free : bool) then count + 1 else count)) 0.

(** The default [FrameAllocator::allocate_contiguous], which [BitmapFrameAllocator]
    does not override: [count] single allocations. *)
Fixpoint allocate_more (n : nat) (b : BitmapFrameAllocator) : result AllocError unit * BitmapFrameAllocator :=
  match n with
  | O => (Ok tt, b)
  | S n => match allocate b with
           | (Ok _, b') => allocate_more n b'
           | (Err e, b') => (Err e, b')
           | (Panic, b') => (Panic, b')
           end
  end.

Definition allocate_contiguous (b : BitmapFrameAllocator) (count : Z) :
    result AllocError Z * BitmapFrameAllocator :=
  if count =? 0 then (Err InvalidAlignment, b) else
  match allocate b with
  | (Ok first, b1) =>
    match allocate_more (Z.to_nat (count - 1)) b1 with
    | (Ok _, b2) => (Ok first, b2)
    | (Err e, b2) => (Err e, b2)
    | (Panic, b2) => (Panic, b2)
    end
  | r => r
  end.

(** ** The abstract state: which frames are in use *)
Definition used (b : BitmapFrameAllocator) (i : Z) : bool :=
  Z.testbit (znth 0 (bitmap b) (i / 64)) (i mod 64).

Definition bm_inv (b : BitmapFrameAllocator) : Prop :=
  0 <= total_frames b /\ total_frames b * 4096 <= 2 ^ 52
  /\ total_frames b <= 64 * zlen (bitmap b)
  /\ Forall u64_range (bitmap b).

Definition free (b : BitmapFrameAllocator) (i : Z) : Prop :=
  0 <= i < total_frames b /\ used b i = false.

(** *** Bits of words *)
Lemma bit_clear w j : 0 <= j -> (Z.land w (Z.shiftl 1 j) =? 0) = negb (Z.testbit w j).
Proof.
  intros Hj. rewrite Z.shiftl_1_l.
  destruct (Z.testbit w j) eqn:Hb; simpl.
  - apply Z.eqb_neq. intros H0. apply (f_equal (fun x => Z.testbit x j)) in H0.
    rewrite Z.land_spec, Hb, Z.pow2_bits_true, Z.bits_0 in H0 by lia. done.
  - apply Z.eqb_eq. apply Z.bits_inj'. intros k Hk. rewrite Z.land_spec, Z.bits_0.
    destruct (Z.eq_dec k j) as [->|Hn]; [by rewrite Hb|].
    rewrite Z.pow2_bits_false by lia. apply andb_false_r.
Qed.

Lemma u64_max_bits j : 0 <= j < 64 -> Z.testbit u64_max j = true.
Proof. intros Hj. change u64_max with (Z.ones 64). by apply Z.ones_spec_low. Qed.

Lemma set_bit w j k : 0 <= j -> 0 <= k ->
  Z.testbit (Z.lor w (Z.shiftl 1 j)) k = if k =? j then true else Z.testbit w k.
Proof.
  intros Hj Hk. rewrite Z.lor_spec, Z.shiftl_1_l. destruct (Z.eqb_spec k j) as [->|Hn].
  - rewrite Z.pow2_bits_true by lia. apply orb_true_r.
  - rewrite Z.pow2_bits_false by lia. apply orb_false_r.
Qed.

Lemma clear_bit w j k : 0 <= j < 64 -> 0 <= k < 64 ->
  Z.testbit (Z.land w (Z.lxor u64_max (Z.shiftl 1 j))) k = if k =? j then false else Z.testbit w k.
Proof.
  intros Hj Hk. rewrite Z.land_spec, Z.lxor_spec, Z.shiftl_1_l, u64_max_bits by lia.
  destruct (Z.eqb_spec k j) as [->|Hn].
  - rewrite Z.pow2_bits_true by lia. simpl. apply andb_false_r.
  - rewrite Z.pow2_bits_false by lia. simpl. apply andb_true_r.
Qed.

(** A value whose bits at 64 and above are clear is a [u64]. *)
Lemma u64_range_bits w : 0 <= w -> (forall k, 64 <= k -> Z.testbit w k = false) -> u64_range w.
Proof.
  intros H0 Hb. split; [done|]. destruct (Z.eq_dec w 0) as [->|Hn]; [unfold u64_max; lia|].
  assert (Z.log2 w < 64).
  { destruct (Z.lt_ge_cases (Z.log2 w) 64); [done|]. pose proof (Hb _ H) as Hc.
    rewrite Z.bit_log2 in Hc by lia. done. }
  pose proof (Z.log2_lt_pow2 w 64 ltac:(lia)). unfold u64_max. lia.
Qed.

Lemma u64_high_bits w k : u64_range w -> 64 <= k -> Z.testbit w k = false.
Proof.
  intros [H0 H1] Hk. destruct (Z.eq_dec w 0) as [->|Hn]; [apply Z.bits_0|].
  apply Z.bits_above_log2; [done|].
  assert (Z.log2 w < 64); [|lia]. apply Z.log2_lt_pow2; unfold u64_max in H1; lia.
Qed.

Lemma word_update_range w j (u : bool) : 0 <= j < 64 -> u64_range w ->
  u64_range (if u then Z.lor w (Z.shiftl 1 j) else Z.land w (Z.lxor u64_max (Z.shiftl 1 j))).
Proof.
  intros Hj Hw. pose proof Hw as [H0 _]. destruct u; apply u64_range_bits.
  - apply Z.lor_nonneg. split; [done|]. apply Z.shiftl_nonneg. lia.
  - intros k Hk. rewrite set_bit by lia. rewrite (proj2 (Z.eqb_neq k j)) by lia. by apply u64_high_bits.
  - apply Z.land_nonneg. by left.
  - intros k Hk. by rewrite Z.land_spec, u64_high_bits by done.
Qed.

(** *** Single-frame updates *)
Lemma div_mod_64 i j : i / 64 = j / 64 -> i mod 64 = j mod 64 -> i = j.
Proof. intros. pose proof (Z.div_mod i 64). pose proof (Z.div_mod j 64). lia. Qed.

Lemma set_frame_used_spec b frame u :
  bm_inv b -> 0 <= frame ->
  exists b', set_frame_used frame u b = Ok b' /\ bm_inv b' /\ total_frames b' = total_frames b
  /\ zlen (bitmap b') = zlen (bitmap b)
  /\ forall i, 0 <= i -> used b' i = if (i =? frame) && (frame <? total_frames b) then u else used b i.
Proof.
  intros (Ht & Hm & Hl & Hw) Hf. unfold set_frame_used.
  destruct (Z.leb_spec (total_frames b) frame).
  { exists b. split_and!; try done. intros i Hi.
    by rewrite (proj2 (Z.ltb_ge frame (total_frames b))), andb_false_r by lia. }
  pose proof (Z.mod_pos_bound frame 64 ltac:(lia)).
  pose proof (Z.div_mod frame 64 ltac:(lia)).
  assert (0 <= frame / 64) by (apply Z.div_pos; lia).
  destruct (lookup_lt_is_Some_2 (bitmap b) (Z.to_nat (frame / 64))) as [w Ew]; [unfold zlen in Hl; lia|].
  rewrite Ew. eexists. split; [done|]. simpl.
  set (w' := if u then _ else _).
  assert (zlen (<[Z.to_nat (frame / 64) := w']> (bitmap b)) = zlen (bitmap b)) as Hlen by apply zlen_insert.
  split; [|split; [done|split; [done|]]].
  { split; [done|]. split; [done|]. simpl. rewrite Hlen. split; [done|].
    apply Forall_insert; [done|]. apply word_update_range; [done|].
    by eapply Forall_lookup in Ew. }
  intros i Hi. rewrite (proj2 (Z.ltb_lt frame (total_frames b))), andb_true_r by lia.
  unfold used, znth. simpl. rewrite !nth_lookup.
  pose proof (Z.mod_pos_bound i 64 ltac:(lia)).
  assert (0 <= i / 64) by (apply Z.div_pos; lia).
  destruct (Z.eq_dec (i / 64) (frame / 64)) as [Hd|Hd].
  - rewrite Hd, Ew, list_lookup_insert_eq by (by eapply lookup_lt_Some). simpl.
    assert ((i =? frame) = (i mod 64 =? frame mod 64)) as ->.
    { destruct (Z.eqb_spec (i mod 64) (frame mod 64)) as [Hx|Hx].
      - apply Z.eqb_eq. by apply div_mod_64.
      - apply Z.eqb_neq. congruence. }
    unfold w'. destruct u; [by rewrite set_bit by lia|by rewrite clear_bit by lia].
  - rewrite list_lookup_insert_ne by lia. rewrite (proj2 (Z.eqb_neq i frame)) by congruence. done.
Qed.

Lemma is_frame_available_spec b i :
  bm_inv b -> 0 <= i -> is_frame_available b i = Ok (negb (used b i) && (i <? total_frames b)).
Proof.
  intros (Ht & Hm & Hl & Hw) Hi. unfold is_frame_available.
  destruct (Z.leb_spec (total_frames b) i).
  { by rewrite (proj2 (Z.ltb_ge i _)), andb_false_r by lia. }
  rewrite (proj2 (Z.ltb_lt i _)), andb_true_r by lia.
  pose proof (Z.mod_pos_bound i 64 ltac:(lia)). pose proof (Z.div_mod i 64 ltac:(lia)).
  assert (0 <= i / 64) by (apply Z.div_pos; lia).
  destruct (lookup_lt_is_Some_2 (bitmap b) (Z.to_nat (i / 64))) as [w Ew]; [unfold zlen in Hl; lia|].
  rewrite Ew, bit_clear by lia. unfold used, znth. by rewrite nth_lookup, Ew.
Qed.

(** A range update changes exactly the frames of the range. *)
Lemma set_frame_range_spec b lo hi u :
  bm_inv b -> 0 <= lo ->
  exists b', set_frame_range lo hi u b = Ok b' /\ bm_inv b' /\ total_frames b' = total_frames b
  /\ zlen (bitmap b') = zlen (bitmap b)
  /\ forall i, 0 <= i ->
       used b' i = if (lo <=? i) && (i <? hi) && (i <? total_frames b) then u else used b i.
Proof.
  intros Hb Hlo. unfold set_frame_range. destruct (Z.le_gt_cases lo hi) as [Hle|Hgt].
  2: { unfold for_loop. replace (Z.to_nat (hi - lo)) with 0%nat by lia. simpl. exists b.
       split_and!; try done; try apply Hb. intros i Hi.
       destruct (Z.leb_spec lo i), (Z.ltb_spec i hi); simpl; try done; lia. }
  apply (for_loop_ind (fun k b' => bm_inv b' /\ total_frames b' = total_frames b
    /\ zlen (bitmap b') = zlen (bitmap b) /\ forall i, 0 <= i ->
       used b' i = if (lo <=? i) && (i <? k) && (i <? total_frames b) then u else used b i)); [done| |].
  - split_and!; try done; try apply Hb. intros i Hi.
    destruct (Z.leb_spec lo i), (Z.ltb_spec i lo); simpl; try done; lia.
  - intros k b1 Hk (Hb1 & Ht1 & Hz1 & Hu1).
    destruct (set_frame_used_spec b1 k u Hb1 ltac:(lia)) as (b2 & E & Hb2 & Ht2 & Hz2 & Hu2).
    exists b2. split; [done|]. split; [done|]. split; [congruence|]. split; [congruence|].
    intros i Hi. rewrite Hu2, Hu1, Ht1 by done.
    destruct (Z.eqb_spec i k) as [->|Hn]; simpl.
    + rewrite (proj2 (Z.leb_le lo k)), (proj2 (Z.ltb_lt k (k + 1))), (proj2 (Z.ltb_ge k k)) by lia.
      by destruct (k <? total_frames b).
    + replace (i <? k + 1) with (i <? k); [done|].
      destruct (Z.ltb_spec i k), (Z.ltb_spec i (k + 1)); try done; lia.
Qed.

Lemma resize_inv slack total x :
  0 <= total -> total * 4096 <= 2 ^ 52 -> 0 <= slack -> u64_range x ->
  bm_inv (resize_to_capacity (bitmap_new slack total) x)
  /\ (forall i, 0 <= i < total ->
       used (resize_to_capacity (bitmap_new slack total) x) i = Z.testbit x (i mod 64)).
Proof.
  intros Ht Hm Hs Hx. unfold resize_to_capacity, bitmap_new. simpl.
  set (cap := (total + 63) / 64 + slack). rewrite Nat.sub_0_r.
  rewrite take_ge by (rewrite length_replicate; lia).
  assert (total <= 64 * ((total + 63) / 64)).
  { pose proof (Z.div_mod (total + 63) 64 ltac:(lia)).
    pose proof (Z.mod_pos_bound (total + 63) 64 ltac:(lia)). lia. }
  assert (zlen (replicate (Z.to_nat cap) x) = cap) as Hlen by (rewrite zlen_replicate; lia).
  split.
  - split; [done|]. split; [done|]. simpl. rewrite Hlen. split; [lia|].
    by apply Forall_replicate.
  - intros i Hi. unfold used, znth. simpl. rewrite nth_lookup, lookup_replicate_2; [done|].
    pose proof (Z.div_mod i 64 ltac:(lia)). pose proof (Z.mod_pos_bound i 64 ltac:(lia)).
    assert (0 <= i / 64) by (apply Z.div_pos; lia). lia.
Qed.

(** *** The search for a free frame *)
Definition scan_ok (total lo hi : Z) (u : Z -> bool) (r : scan) : Prop :=
  match r with
  | Hit f => lo <= f < hi /\ 0 < f < total /\ u f = false
             /\ forall g, lo <= g < f -> 0 < g -> u g = true
  | Past => forall g, lo <= g < total -> 0 < g -> u g = true
  | Next => forall g, lo <= g < hi -> 0 < g -> u g = true
  end.

Lemma scan_ok_step total lo hi u r :
  0 <= lo -> (lo = 0 \/ u lo = true) -> scan_ok total (lo + 1) hi u r -> scan_ok total lo hi u r.
Proof.
  intros H0 Hu. assert (forall g, lo <= g -> 0 < g -> g = lo -> u g = true) as Hlo.
  { intros g _ Hg ->. destruct Hu; [lia|done]. }
  destruct r; simpl.
  - intros (Hr & Hf & Hfree & Hg). split_and!; try done; try lia. intros g Hgr Hg0.
    destruct (Z.eq_dec g lo); [by apply Hlo; lia|apply Hg; lia].
  - intros Hg g Hgr Hg0. destruct (Z.eq_dec g lo); [by apply Hlo; lia|apply Hg; lia].
  - intros Hg g Hgr Hg0. destruct (Z.eq_dec g lo); [by apply Hlo; lia|apply Hg; lia].
Qed.

Lemma scan_bits_spec total i w u : 0 <= i ->
  (forall k, 0 <= k < 64 -> u (i * 64 + k) = Z.testbit w k) ->
  forall n j, 0 <= j -> j + Z.of_nat n = 64 ->
  scan_ok total (i * 64 + j) (i * 64 + 64) u (scan_bits total i w n j).
Proof.
  intros Hi Hu. induction n as [|n IH]; intros j Hj Hn; cbn [scan_bits].
  - intros g Hg. lia.
  - specialize (IH (j + 1) ltac:(lia) ltac:(lia)).
    replace (i * 64 + (j + 1)) with (i * 64 + j + 1) in IH by lia.
    destruct (Z.eqb_spec (i * 64 + j) 0) as [E0|E0].
    { apply scan_ok_step; [lia|by left|done]. }
    destruct (Z.leb_spec total (i * 64 + j)); [intros g Hg; lia|].
    rewrite bit_clear, <- Hu by lia. destruct (u (i * 64 + j)) eqn:Eu; simpl.
    + apply scan_ok_step; [lia|by right|done].
    + split_and!; try lia; done.
Qed.

Lemma scan_ok_join total lo mid hi u r :
  lo <= mid <= hi -> (forall g, lo <= g < mid -> 0 < g -> u g = true) ->
  scan_ok total mid hi u r -> scan_ok total lo hi u r.
Proof.
  intros Hm Hlow. destruct r; simpl.
  - intros (Hr & Hf & Hfree & Hg). split_and!; try done; try lia. intros g Hgr Hg0.
    destruct (Z.lt_ge_cases g mid); [apply Hlow; lia|apply Hg; lia].
  - intros Hg g Hgr Hg0. destruct (Z.lt_ge_cases g mid); [apply Hlow; lia|apply Hg; lia].
  - intros Hg g Hgr Hg0. destruct (Z.lt_ge_cases g mid); [apply Hlow; lia|apply Hg; lia].
Qed.

Lemma scan_words_spec total u words : forall i, 0 <= i ->
  (forall n w k, words !! n = Some w -> 0 <= k < 64 -> u ((i + Z.of_nat n) * 64 + k) = Z.testbit w k) ->
  scan_ok total (i * 64) ((i + zlen words) * 64) u (scan_words total i words).
Proof.
  induction words as [|w words IH]; intros i Hi Hu; cbn [scan_words].
  - intros g Hg. unfold zlen in Hg. simpl in Hg. lia.
  - rewrite zlen_cons. replace (i + (1 + zlen words)) with (i + 1 + zlen words) by lia.
    pose proof (zlen_nonneg words).
    assert (forall k, 0 <= k < 64 -> u (i * 64 + k) = Z.testbit w k) as Hw.
    { intros k Hk. rewrite <- (Hu 0%nat w k) by done. f_equal. lia. }
    specialize (IH (i + 1) ltac:(lia)).
    assert (scan_ok total ((i + 1) * 64) ((i + 1 + zlen words) * 64) u (scan_words total (i + 1) words)) as IH'.
    { apply IH. intros n w' k Hn Hk. rewrite <- (Hu (S n) w' k) by done. f_equal. lia. }
    destruct (Z.eqb_spec w u64_max) as [->|Hne].
    + apply (scan_ok_join _ _ ((i + 1) * 64)); [lia| |done]. intros g Hg _.
      replace g with (i * 64 + (g - i * 64)) by lia. rewrite Hw by lia. apply u64_max_bits. lia.
    + pose proof (scan_bits_spec total i w u Hi Hw 64 0 ltac:(lia) eq_refl) as Hb.
      rewrite Z.add_0_r in Hb.
      destruct (scan_bits total i w 64 0).
      * destruct Hb as (? & ? & ? & ?). split_and!; try done; lia.
      * done.
      * apply (scan_ok_join _ _ ((i + 1) * 64)); [lia| |done]. intros g Hg. apply Hb. lia.
Qed.

Lemma scan_words_used b : bm_inv b ->
  scan_ok (total_frames b) 0 (zlen (bitmap b) * 64) (used b) (scan_words (total_frames b) 0 (bitmap b)).
Proof.
  intros Hb. apply (scan_words_spec _ _ (bitmap b) 0); [lia|]. intros n w k Hn Hk. unfold used, znth.
  rewrite Z.add_0_l, Z.div_add_l, (Z.div_small k 64), Z.add_0_r by lia.
  rewrite (Z.add_comm _ k), Z.mod_add, Z.mod_small by lia.
  by rewrite nth_lookup, Nat2Z.id, Hn.
Qed.

(** What an allocation of one frame does, [Hit] or not. *)
Lemma allocate_spec b : bm_inv b ->
  (exists f b', allocate b = (Ok (f * 4096), b') /\ bm_inv b' /\ total_frames b' = total_frames b
     /\ allocate_frame b = (Ok (Some (f * 4096)), b')
     /\ 0 < f /\ free b f /\ (forall g, 0 < g < f -> ~ free b g)
     /\ set_frame_used f true b = Ok b'
     /\ forall i, 0 <= i -> used b' i = (i =? f) || used b i)
  \/ (allocate b = (Err OutOfMemory, b) /\ allocate_frame b = (Ok None, b)
      /\ forall g, 0 < g -> ~ free b g).
Proof.
  intros Hb. pose proof (scan_words_used b Hb) as Hs. unfold allocate, allocate_frame.
  pose proof Hb as (Ht & Hm & Hl & _).
  assert (2 ^ 52 <= u64_max) by (unfold u64_max; lia).
  destruct (scan_words _ 0 _) as [f| |]; simpl in Hs.
  - left. destruct Hs as (Hr & Hf & Hfree & Hmin).
    destruct (set_frame_used_spec b f true Hb ltac:(lia)) as (b' & E & Hb' & Ht' & _ & Hu).
    exists f, b'. rewrite E, u64_checked_mul_fit by lia. simpl.
    unfold phys_addr_new. rewrite (proj2 (Z.ltb_lt (f * 4096) (2 ^ 52))) by lia. simpl.
    assert (free b f) by (split; [lia|done]).
    split_and!; try done; try lia.
    + intros g Hg [_ Hgf]. rewrite Hmin in Hgf by lia. done.
    + intros i Hi. rewrite Hu by done. rewrite (proj2 (Z.ltb_lt f _)), andb_true_r by lia.
      by destruct (i =? f).
  - right. split_and!; try done. intros g Hg [Hr Hgf]. rewrite Hs in Hgf by lia. done.
  - right. split_and!; try done. intros g Hg [Hr Hgf]. rewrite Hs in Hgf by lia. done.
Qed.

(** Allocating a frame: on success the frame is the lowest free one other than
    frame 0, it was free, exactly it becomes used, and both allocator interfaces
    agree; failure means that no frame but frame 0 is free, and changes
    nothing.  No branch panics. *)
Theorem allocate_correct (b : BitmapFrameAllocator) :
  bm_inv b ->
  match allocate b with
  | (Ok addr, b') =>
      exists f, addr = f * 4096 /\ allocate_frame b = (Ok (Some addr), b')
      /\ 0 < f /\ free b f /\ (forall g, 0 < g < f -> ~ free b g)
      /\ bm_inv b' /\ forall i, 0 <= i -> free b' i <-> free b i /\ i <> f
  | (Err e, b') => e = OutOfMemory /\ b' = b /\ forall g, 0 < g -> ~ free b g
  | (Panic, _) => False
  end.
Proof.
  intros Hb. destruct (allocate_spec b Hb)
    as [(f & b' & -> & Hb' & Ht & Ef & H0 & Hf & Hmin & _ & Hu)|(-> & Ef & Hnone)]; [|done].
  exists f. split_and!; try done. intros i Hi. unfold free. rewrite Hu, Ht by done.
  destruct (Z.eqb_spec i f); simpl; [split; [intros [_ ?]; done|intros [_ ?]; done]|tauto].
Qed.

(** Freeing the frame just allocated restores the set of frames in use. *)
Theorem allocate_deallocate (b b' : BitmapFrameAllocator) (addr : Z) :
  bm_inv b -> allocate b = (Ok addr, b') ->
  exists b'', deallocate b' addr = Ok b'' /\ bm_inv b''
  /\ forall i, 0 <= i -> used b'' i = used b i.
Proof.
  intros Hb E. destruct (allocate_spec b Hb)
    as [(f & b1 & E1 & Hb1 & Ht & _ & H0 & [Hr Hf] & _ & _ & Hu)|(E1 & _)]; [|congruence].
  rewrite E in E1. injection E1 as -> <-. unfold deallocate. rewrite Z.div_mul, Ht by lia.
  rewrite (proj2 (Z.ltb_lt f _)) by lia.
  destruct (set_frame_used_spec b' f false Hb1 ltac:(lia)) as (b2 & -> & Hb2 & _ & _ & Hu2).
  exists b2. split; [done|]. split; [done|]. intros i Hi. rewrite Hu2, Hu, Ht by done.
  rewrite (proj2 (Z.ltb_lt f _)), andb_true_r by lia.
  destruct (Z.eqb_spec i f) as [->|]; simpl; [done|done].
Qed.

(** *** Contiguous runs *)
Definition free_run (b : BitmapFrameAllocator) (s pages : Z) : Prop :=
  forall g, s <= g < s + pages -> free b g.

(** The state of the search before frame [i]: a run of [count] free frames ends
    at [i], preceded by a frame that is not free, and no run of [pages] frames
    lies below [i]. *)
Definition run_state (b : BitmapFrameAllocator) (pages i count start : Z) : Prop :=
  LOW_MEM_SKIP_FRAMES <= start /\ start + count = i /\ 0 <= count < pages
  /\ free_run b start count
  /\ (start = LOW_MEM_SKIP_FRAMES \/ ~ free b (start - 1))
  /\ forall s, LOW_MEM_SKIP_FRAMES <= s -> s + pages <= i -> ~ free_run b s pages.

Lemma free_dec b i : bm_inv b -> 0 <= i ->
  (is_frame_available b i = Ok true /\ free b i) \/ (is_frame_available b i = Ok false /\ ~ free b i).
Proof.
  intros Hb Hi. rewrite is_frame_available_spec by done. unfold free.
  destruct (used b i), (Z.ltb_spec i (total_frames b)); simpl;
    first [left; split; [done|split; [lia|done]]|right; split; [done|intros [? ?]; first [done|lia]]].
Qed.

Lemma scan_run_spec b pages : bm_inv b -> forall n i count start,
  run_state b pages i count start ->
  match scan_run b pages n i count start with
  | Ok (s, e) => LOW_MEM_SKIP_FRAMES <= s /\ s + pages = e + 1 /\ e < i + Z.of_nat n /\ free_run b s pages
                 /\ forall s', LOW_MEM_SKIP_FRAMES <= s' < s -> ~ free_run b s' pages
  | Err e => e = FrameAllocationFailed
             /\ forall s, LOW_MEM_SKIP_FRAMES <= s -> s + pages <= i + Z.of_nat n -> ~ free_run b s pages
  | Panic => False
  end.
Proof.
  intros Hb. assert (0 < LOW_MEM_SKIP_FRAMES) as Hlow by (vm_compute; done).
  induction n as [|n IH]; intros i count start (Hs & Hi & Hc & Hrun & Hprev & Hnone); cbn [scan_run].
  - split; [done|]. intros s Hs0 Hs1. apply Hnone; lia.
  - replace (i + Z.of_nat (S n)) with (i + 1 + Z.of_nat n) by lia.
    destruct (free_dec b i Hb ltac:(lia)) as [[-> Hf]|[-> Hf]]; simpl.
    + assert (free_run b start (count + 1)) as Hrun'.
      { intros g Hg. destruct (Z.eq_dec g i) as [->|]; [done|apply Hrun; lia]. }
      destruct (Z.eqb_spec (count + 1) pages) as [Hp|Hp].
      * split; [done|]. split; [lia|]. split; [lia|]. split; [by rewrite <- Hp|].
        intros s' Hs' Hr. destruct (Z.le_gt_cases (s' + pages) i); [by apply (Hnone s'); [lia|..]|].
        destruct Hprev as [->|Hprev]; [lia|]. apply Hprev, Hr. lia.
      * apply IH. repeat (split; [done||lia|]). intros s Hs0 Hs1 Hr.
        destruct (Z.le_gt_cases (s + pages) i); [by apply (Hnone s)|].
        destruct Hprev as [->|Hprev]; [lia|]. apply Hprev, Hr. lia.
    + apply IH. split; [lia|]. split; [lia|]. split; [lia|]. split; [intros g Hg; lia|].
      split; [right; by replace (i + 1 - 1) with i by lia|]. intros s Hs0 Hs1 Hr.
      destruct (Z.le_gt_cases (s + pages) i); [by apply (Hnone s)|]. apply Hf, Hr. lia.
Qed.

(** Contiguous allocation is first-fit and complete: it returns the lowest run
    of the requested number of free frames above 16 MiB and marks exactly that
    run as used, and it fails only if there is no such run. *)
Theorem allocate_contiguous_frames_correct (b : BitmapFrameAllocator) (pages : Z) :
  bm_inv b -> 0 < pages ->
  match allocate_contiguous_frames b pages with
  | (Ok addr, b') =>
      exists s, addr = s * 4096 /\ LOW_MEM_SKIP_FRAMES <= s /\ free_run b s pages
      /\ (forall s', LOW_MEM_SKIP_FRAMES <= s' < s -> ~ free_run b s' pages)
      /\ bm_inv b' /\ forall i, 0 <= i -> free b' i <-> free b i /\ ~ s <= i < s + pages
  | (Err _, b') => b' = b /\ forall s, LOW_MEM_SKIP_FRAMES <= s -> ~ free_run b s pages
  | (Panic, _) => False
  end.
Proof.
  intros Hb Hp. assert (0 < LOW_MEM_SKIP_FRAMES) as Hlow by (vm_compute; done).
  unfold allocate_contiguous_frames.
  set (n := Z.to_nat (total_frames b - LOW_MEM_SKIP_FRAMES)).
  pose proof (scan_run_spec b pages Hb n LOW_MEM_SKIP_FRAMES 0 LOW_MEM_SKIP_FRAMES) as Hs.
  assert (run_state b pages LOW_MEM_SKIP_FRAMES 0 LOW_MEM_SKIP_FRAMES) as Hst.
  { split; [lia|]. split; [lia|]. split; [lia|]. split; [intros g Hg; lia|].
    split; [by left|]. intros s Hs0 Hs1. lia. }
  specialize (Hs Hst).
  destruct (scan_run b pages n _ 0 _) as [[s e]|er|]; [| |done].
  - destruct Hs as (Hs0 & He & Hn & Hrun & Hfirst). pose proof Hb as (Ht & Hm & _).
    destruct (set_frame_range_spec b s (e + 1) true Hb ltac:(lia)) as (b' & -> & Hb' & Ht' & _ & Hu).
    assert (free b s) as [Hsr _] by (apply Hrun; lia).
    rewrite u64_checked_mul_fit by (unfold u64_max; lia).
    exists s. repeat (split; [done|]). intros i Hi. unfold free. rewrite Hu, Ht' by done.
    destruct (Z.leb_spec s i), (Z.ltb_spec i (e + 1)), (Z.ltb_spec i (total_frames b)); simpl;
      split; intros; try tauto; try lia.
    all: split; [tauto|lia].
  - destruct Hs as [-> Hnone]. split; [done|]. intros s Hs0 Hr.
    assert (free b (s + pages - 1)) as [Hg _] by (apply Hr; lia).
    apply (Hnone s); [done|unfold n; lia|done].
Qed.

(** ** The memory map *)
Definition desc_ok (d : MemoryDescriptor) : Prop :=
  0 <= md_physical_start d /\ 0 <= md_page_count d
  /\ md_physical_start d + md_page_count d * 4096 <= 2 ^ 52.

(** Frame [f] lies in a region the firmware reports as conventional memory. *)
Definition conventional (map : list MemoryDescriptor) (f : Z) : Prop :=
  Exists (fun d => md_type d = EfiConventionalMemory
    /\ md_physical_start d / 4096 <= f < (md_physical_start d + md_page_count d * 4096) / 4096) map.

Lemma desc_end_ok d : desc_ok d -> desc_end d = Some (md_physical_start d + md_page_count d * 4096).
Proof.
  intros (H0 & H1 & H2). unfold desc_end. assert (2 ^ 52 <= u64_max) by (unfold u64_max; lia).
  rewrite u64_checked_mul_fit by lia. by rewrite u64_checked_add_fit by lia.
Qed.

Lemma max_phys_spec map : forall acc, 0 <= acc <= 2 ^ 52 -> Forall desc_ok map ->
  exists m, max_phys acc map = Some m /\ acc <= m <= 2 ^ 52
  /\ Forall (fun d => md_physical_start d + md_page_count d * 4096 <= m) map.
Proof.
  induction map as [|d map IH]; intros acc Ha Hok; cbn [max_phys].
  - exists acc. split; [done|]. split; [lia|constructor].
  - apply Forall_cons in Hok as [Hd Hok]. rewrite desc_end_ok by done.
    destruct Hd as (H0 & H1 & H2).
    destruct (Z.ltb_spec acc (md_physical_start d + md_page_count d * 4096)) as [Hlt|Hge].
    + destruct (IH (md_physical_start d + md_page_count d * 4096) ltac:(lia) Hok) as (m & -> & Hm & Hall).
      exists m. split; [done|]. split; [lia|]. constructor; [lia|done].
    + destruct (IH acc Ha Hok) as (m & -> & Hm & Hall).
      exists m. split; [done|]. split; [lia|]. constructor; [lia|done].
Qed.

Lemma add_descriptors_spec map : forall b, bm_inv b -> Forall desc_ok map ->
  exists b', add_descriptors map b = Ok b' /\ bm_inv b' /\ total_frames b' = total_frames b
  /\ forall i, 0 <= i -> free b' i <-> free b i \/ (i < total_frames b /\ conventional map i).
Proof.
  induction map as [|d map IH]; intros b Hb Hok; cbn [add_descriptors].
  - exists b. split_and!; try done; try apply Hb. intros i Hi. unfold conventional.
    rewrite Exists_nil. tauto.
  - apply Forall_cons in Hok as [Hd Hok].
    assert (exists b1, add_descriptor d b = Ok b1 /\ bm_inv b1 /\ total_frames b1 = total_frames b
      /\ forall i, 0 <= i -> free b1 i <-> free b i \/ (i < total_frames b
           /\ md_type d = EfiConventionalMemory
           /\ md_physical_start d / 4096 <= i < (md_physical_start d + md_page_count d * 4096) / 4096))
      as (b1 & -> & Hb1 & Ht1 & Hu1).
    { unfold add_descriptor. destruct (Z.eqb_spec (md_type d) EfiConventionalMemory) as [Ety|Ety].
      - rewrite desc_end_ok by done. destruct Hd as (H0 & H1 & H2).
        destruct (set_frame_range_spec b (md_physical_start d / 4096)
          ((md_physical_start d + md_page_count d * 4096) / 4096) false Hb
          ltac:(apply Z.div_pos; lia)) as (b1 & -> & Hb1 & Ht1 & _ & Hu1).
        exists b1. split_and!; try done. intros i Hi. unfold free. rewrite Hu1, Ht1 by done.
        destruct (Z.leb_spec (md_physical_start d / 4096) i),
          (Z.ltb_spec i ((md_physical_start d + md_page_count d * 4096) / 4096)),
          (Z.ltb_spec i (total_frames b)); simpl; split; intros; try tauto; try lia.
        all: destruct (used b i); try tauto; lia.
      - exists b. split_and!; try done; try apply Hb. intros i Hi. tauto. }
    destruct (IH b1 Hb1 Hok) as (b2 & -> & Hb2 & Ht2 & Hu2).
    exists b2. split_and!; try done; [congruence|]. intros i Hi.
    rewrite Hu2, Hu1, Ht1 by done. unfold conventional. rewrite Exists_cons. tauto.
Qed.

(** The allocator built from the firmware memory map manages exactly the
    conventional memory: a frame is free iff it lies in a region reported as
    conventional, whatever the order and overlap of the descriptors. *)
Theorem init_with_memory_map_correct (slack : Z) (map : list MemoryDescriptor) :
  0 <= slack -> Forall desc_ok map ->
  exists b, init_with_memory_map slack map = Ok b /\ bm_inv b
  /\ forall f, 0 <= f -> free b f <-> conventional map f.
Proof.
  intros Hs Hok. unfold init_with_memory_map.
  destruct (max_phys_spec map 0 ltac:(lia) Hok) as (m & -> & Hm & Hall).
  rewrite u64_checked_add_fit by (unfold u64_max; lia).
  assert (0 <= (m + 4095) / 4096) by (apply Z.div_pos; lia).
  assert ((m + 4095) / 4096 <= 2 ^ 40).
  { apply Z.lt_succ_r, Z.div_lt_upper_bound; lia. }
  destruct (resize_inv slack ((m + 4095) / 4096) u64_max) as [Hinv Hused]; [lia..|split; [|reflexivity]; vm_compute; discriminate|].
  destruct (add_descriptors_spec map _ Hinv Hok) as (b & -> & Hb & Ht & Hu).
  exists b. split; [done|]. split; [done|]. intros f Hf. rewrite Hu by done.
  change (total_frames (resize_to_capacity _ _)) with ((m + 4095) / 4096). split.
  - intros [[Hr Hfree]|[_ Hc]]; [|done]. change (total_frames _) with ((m + 4095) / 4096) in Hr.
    rewrite Hused, u64_max_bits in Hfree; [done|apply Z.mod_pos_bound; lia|done].
  - intros Hc. right. split; [|done]. apply Exists_exists in Hc as (d & Hd & _ & Hr).
    rewrite Forall_forall in Hall. specialize (Hall d Hd). simpl in Hall.
    apply (Z.lt_le_trans _ ((md_physical_start d + md_page_count d * 4096) / 4096)); [lia|].
    apply Z.div_le_mono; lia.
Qed.

(** ** The default contiguous allocation

    Frames 1 and 3 are free, frame 2 is in use. *)
Definition fragmented : BitmapFrameAllocator := mkBitmap [5] 1 4.

(** The trait's default [allocate_contiguous], which the bitmap allocator
    inherits, is not contiguous: with frames 1 and 3 free and frame 2 in use, a
    request for two contiguous frames succeeds and returns frame 1. *)
Theorem allocate_contiguous_not_contiguous :
  free fragmented 1 /\ used fragmented 2 = true
  /\ (allocate_contiguous fragmented 2).1 = Ok 4096.
Proof. vm_compute. repeat split; discriminate. Qed.

(** ** Witnesses *)
Definition demo_bitmap : BitmapFrameAllocator :=
  mkBitmap (u64_max :: 13 :: replicate 80 0) 82 5000.

Lemma demo_bitmap_inv : bm_inv demo_bitmap.
Proof.
  split; [vm_compute; discriminate|]. split; [vm_compute; discriminate|].
  split; [vm_compute; discriminate|].
  apply Forall_cons. split; [split; vm_compute; discriminate|].
  apply Forall_cons. split; [split; vm_compute; discriminate|].
  apply Forall_replicate. split; vm_compute; discriminate.
Qed.

Lemma allocate_correct_witness :
  exists f, 65 * 4096 = f * 4096 /\ 0 < f /\ free demo_bitmap f.
Proof.
  pose proof (allocate_correct demo_bitmap demo_bitmap_inv) as Hc.
  destruct (allocate demo_bitmap) as [[a|e|] b'] eqn:E.
  - destruct Hc as (f & Ha & _ & H0 & Hf & _). exists f.
    assert (a = 65 * 4096) as <- by (vm_compute in E; injection E as <- _; reflexivity).
    split; [exact Ha|split; [exact H0|exact Hf]].
  - exfalso. vm_compute in E. discriminate.
  - destruct Hc.
Defined.

Lemma allocate_deallocate_witness :
  exists b'', deallocate (allocate demo_bitmap).2 (65 * 4096) = Ok b'' /\ bm_inv b''.
Proof.
  destruct (allocate_deallocate demo_bitmap (allocate demo_bitmap).2 (65 * 4096) demo_bitmap_inv)
    as (b'' & H1 & H2 & _); [vm_compute; reflexivity|].
  exists b''. split; [exact H1|exact H2].
Defined.

Lemma allocate_contiguous_frames_correct_witness :
  bm_inv demo_bitmap /\ 0 < 3 /\
  match allocate_contiguous_frames demo_bitmap 3 with (Panic, _) => False | _ => True end.
Proof.
  split; [exact demo_bitmap_inv|]. split; [lia|].
  pose proof (allocate_contiguous_frames_correct demo_bitmap 3 demo_bitmap_inv ltac:(lia)) as Hc.
  destruct (allocate_contiguous_frames demo_bitmap 3) as [[a|e|] b']; [exact I|exact I|exact Hc].
Defined.

Definition demo_map : list MemoryDescriptor :=
  [mkDesc 0 0 16; mkDesc 7 (16 * 4096) 240; mkDesc 4 (256 * 4096) 10; mkDesc 7 (200 * 4096) 300].

Lemma init_with_memory_map_correct_witness :
  exists b, init_with_memory_map 0 demo_map = Ok b /\ bm_inv b.
Proof.
  destruct (init_with_memory_map_correct 0 demo_map) as (b & H1 & H2 & _).
  - lia.
  - repeat (apply Forall_cons; split; [repeat split; vm_compute; discriminate|]). apply Forall_nil. exact I.
  - exists b. split; [exact H1|exact H2].
Defined.
