(* ===== verification/PageTable.v ===== *)
(** * Page tables: entries, the walker, mapping and translation

    [petroleum/src/page_table/types.rs] (addresses, entries, alignment) and the
    [raw] layer: [walker.rs], [mapper.rs], [translate.rs], [huge.rs] and the
    queries of [utils.rs].  Physical memory is a map from the addresses of
    8-byte words to their values; tables are reached by dereferencing the
    physical addresses stored in entries, as the code does, so aliasing between
    tables and stale contents of frames are part of the model. *)

From S2P Require Import Prelude Frames.

(** ** Constants and addresses *)
Definition SIZE_4K : Z := 4096.
Definition SIZE_2M : Z := 512 * SIZE_4K.
Definition SIZE_1G : Z := 512 * SIZE_2M.
Definition ENTRIES_PER_TABLE : Z := 512.

(** [addr as i64]. *)
Definition as_i64 (a : Z) : Z := if a <? 2 ^ 63 then a else a - 2 ^ 64.

Definition canonical_new (addr : Z) : option Z :=
  let sign := Z.shiftr (as_i64 addr) 47 in
  if (sign =? 0) || (sign =? -1) then Some addr else None.

Definition try_add (self offset : Z) : option Z :=
  match u64_checked_add self offset with Some a => canonical_new a | None => None end.

Definition try_sub (self offset : Z) : option Z :=
  match u64_checked_sub self offset with Some a => canonical_new a | None => None end.

(** [!x] on [u64]. *)
Definition u64_not (x : Z) : Z := Z.lxor u64_max x.

Definition align_down (val align : Z) : Z := Z.land val (u64_not (align - 1)).
(** [val + align - 1] panics on overflow. *)
Definition align_up (val align : Z) : option Z :=
  if val + align <=? u64_max + 1 then Some (Z.land (val + align - 1) (u64_not (align - 1))) else None.
Definition is_aligned (val align : Z) : bool := Z.land val (align - 1) =? 0.

Definition best_page_size (virt phys size : Z) : Z :=
  if (SIZE_1G <=? size) && is_aligned virt SIZE_1G && is_aligned phys SIZE_1G then SIZE_1G
  else if (SIZE_2M <=? size) && is_aligned virt SIZE_2M && is_aligned phys SIZE_2M then SIZE_2M
  else SIZE_4K.

(** [index(level)], for the levels 1 to 4 its assertion admits. *)
Definition index (virt level : Z) : Z := Z.land (Z.shiftr virt (12 + (level - 1) * 9)) 511.
Definition page_offset_4k (virt : Z) : Z := Z.land virt 4095.

(** ** Entries *)
Definition PRESENT : Z := 1.
Definition WRITABLE : Z := 2.
Definition USER_ACCESSIBLE : Z := 4.
Definition HUGE_PAGE : Z := 128.
Definition ADDR_MASK : Z := 0x000FFFFFFFFFF000.

Definition new_with_frame (start_address flags : Z) : Z := Z.lor start_address flags.
Definition is_unused (e : Z) : bool := e =? 0.
Definition is_present (e : Z) : bool := negb (Z.land e PRESENT =? 0).
Definition is_huge (e : Z) : bool := negb (Z.land e HUGE_PAGE =? 0).
Definition pte_addr (e : Z) : Z := Z.land e ADDR_MASK.
Definition pte_flags (e : Z) : Z := Z.land e (u64_not ADDR_MASK).
Definition set_flags (e flags : Z) : Z := Z.lor (Z.land e ADDR_MASK) flags.

(** [PhysFrame::from_start_address]. *)
Definition from_start_address (addr : Z) : option Z :=
  if addr mod SIZE_4K =? 0 then Some addr else None.

(** ** Memory *)
Abbreviation Mem := (gmap Z Z).
Definition read_word (m : Mem) (a : Z) : Z := default 0 (m !! a).
Definition entry_address (table idx : Z) : Z := table + 8 * idx.

(** ** Frame allocators, as the walker sees them *)
Class FrameAllocator (A : Type) := {
  fa_allocate : A -> result AllocError Z * A;
  fa_deallocate : A -> Z -> result SystemError A
}.

#[export] Instance bitmap_frame_allocator : FrameAllocator BitmapFrameAllocator := {
  fa_allocate := allocate;
  fa_deallocate := deallocate
}.

(** [WalkerAdapter::alloc_zeroed]: [allocate().ok()], the frame's contents untouched. *)
Definition alloc_zeroed {A} `{FrameAllocator A} (a : A) : result unit (option Z) * A :=
  match fa_allocate a with
  | (Ok f, a') => (Ok (Some f), a')
  | (Err _, a') => (Ok None, a')
  | (Panic, a') => (Panic, a')
  end.

(** ** The walker *)
Inductive WalkError : Type :=
| HugePageConflict (level : Z)
| WalkOutOfMemory
| InvalidEntry (level : Z).

(** [(target_level + 1..=4).rev()]. *)
Definition levels (target_level : Z) : list Z := filter (fun l => target_level < l) [4; 3; 2; 1].

Fixpoint create_levels {A} `{FrameAllocator A} (ls : list Z) (virt : Z) (m : Mem) (table : Z) (a : A) :
    result WalkError Z * Mem * A :=
  match ls with
  | [] => (Ok table, m, a)
  | level :: ls =>
    let ea := entry_address table (index virt level) in
    let e := read_word m ea in
    if is_unused e then
      match alloc_zeroed a with
      | (Ok (Some frame_addr), a') =>
        let e' := new_with_frame frame_addr (Z.lor PRESENT (Z.lor WRITABLE USER_ACCESSIBLE)) in
        create_levels ls virt (<[ea := e']> m) (pte_addr e') a'
      | (Ok None, a') => (Err WalkOutOfMemory, m, a')
      | (_, a') => (Panic, m, a')
      end
    else if is_huge e then (Err (HugePageConflict level), m, a)
    else create_levels ls virt m (pte_addr e) a
  end.

(** The result is the address of the entry at the target level. *)
Definition walk_or_create {A} `{FrameAllocator A} (m : Mem) (root virt : Z) (a : A) (target_level : Z) :
    result WalkError Z * Mem * A :=
  if (1 <=? target_level) && (target_level <=? 3) then
    match create_levels (levels target_level) virt m root a with
    | (Ok table, m', a') => (Ok (entry_address table (index virt target_level)), m', a')
    | r => r
    end
  else (Panic, m, a).

Fixpoint walk_levels (ls : list Z) (virt : Z) (m : Mem) (table : Z) : result WalkError Z :=
  match ls with
  | [] => Ok table
  | level :: ls =>
    let e := read_word m (entry_address table (index virt level)) in
    if is_unused e then Err WalkOutOfMemory
    else if is_huge e then Err (HugePageConflict level)
    else walk_levels ls virt m (pte_addr e)
  end.

(** [walk_to_table]; [walk] and [walk_read] return the entry's address in it. *)
Definition walk_to_table (m : Mem) (root virt target_level : Z) : result WalkError Z :=
  if (1 <=? target_level) && (target_level <=? 3) then walk_levels (levels target_level) virt m root
  else Panic.

Definition walk (m : Mem) (root virt target_level : Z) : result WalkError Z :=
  let? table := walk_to_table m root virt target_level in
  Ok (entry_address table (index virt target_level)).

Definition walk_read (m : Mem) (root virt target_level : Z) : result WalkError Z :=
  let? ea := walk m root virt target_level in Ok (read_word m ea).

(** ** Mapping *)
Section Mapper.
Context {A : Type} `{FrameAllocator A}.

(** The common shape of [map_page], [map_huge_2m] and [map_huge_1g]. *)
Definition map_entry (m : Mem) (root virt : Z) (a : A) (level entry : Z) : result WalkError unit * Mem * A :=
  match walk_or_create m root virt a level with
  | (Ok ea, m', a') => (Ok tt, <[ea := entry]> m', a')
  | (Err e, m', a') => (Err e, m', a')
  | (Panic, m', a') => (Panic, m', a')
  end.

Definition map_page (m : Mem) (root virt frame flags : Z) (a : A) : result WalkError unit * Mem * A :=
  map_entry m root virt a 1 (new_with_frame frame flags).

Definition map_huge_2m (m : Mem) (root virt phys flags : Z) (a : A) : result WalkError unit * Mem * A :=
  map_entry m root virt a 2 (Z.lor (Z.lor phys flags) HUGE_PAGE).

Definition map_huge_1g (m : Mem) (root virt phys flags : Z) (a : A) : result WalkError unit * Mem * A :=
  map_entry m root virt a 3 (Z.lor (Z.lor phys flags) HUGE_PAGE).

(** The [expect] on the entry's alignment panics. *)
Definition unmap_page (m : Mem) (root virt : Z) (a : A) : result WalkError (option Z) * Mem * A :=
  match walk m root virt 1 with
  | Ok ea =>
    let e := read_word m ea in
    if negb (is_present e) then (Ok None, m, a) else
    match from_start_address (pte_addr e) with
    | None => (Panic, m, a)
    | Some frame =>
      match fa_deallocate a frame with
      | Ok a' => (Ok (Some frame), <[ea := 0]> m, a')
      | _ => (Panic, m, a)
      end
    end
  | Err er => (Err er, m, a)
  | Panic => (Panic, m, a)
  end.

Fixpoint unmap_pages (n : nat) (m : Mem) (root addr : Z) (a : A) (unmapped : Z) :
    result WalkError Z * Mem * A :=
  match n with
  | O => (Ok unmapped, m, a)
  | S n =>
    match unmap_page m root addr a with
    | (Ok r, m', a') =>
      let unmapped := match r with Some _ => unmapped + 1 | None => unmapped end in
      match u64_checked_add addr SIZE_4K with
      | None => (Panic, m', a')
      | Some addr => unmap_pages n m' root addr a' unmapped
      end
    | (Err e, m', a') => (Err e, m', a')
    | (Panic, m', a') => (Panic, m', a')
    end
  end.

Definition unmap_range (m : Mem) (root virt size : Z) (a : A) : result WalkError Z * Mem * A :=
  unmap_pages (Z.to_nat (size / SIZE_4K)) m root virt a 0.

(** ** Huge pages *)
Inductive HugeError : Type :=
| VirtNotAligned (addr required : Z)
| PhysNotAligned (addr required : Z)
| Conflict (level : Z)
| HugeOutOfMemory.

Definition HugeError_from (e : WalkError) : HugeError :=
  match e with
  | WalkOutOfMemory => HugeOutOfMemory
  | HugePageConflict level => Conflict level
  | InvalidEntry level => Conflict level
  end.

Definition map_2m_checked (m : Mem) (root virt phys flags : Z) (a : A) : result HugeError unit * Mem * A :=
  if negb (is_aligned virt SIZE_2M) then (Err (VirtNotAligned virt SIZE_2M), m, a)
  else if negb (phys mod SIZE_2M =? 0) then (Err (PhysNotAligned phys SIZE_2M), m, a)
  else let '(r, m', a') := map_huge_2m m root virt phys flags a in (map_err HugeError_from r, m', a').

Definition map_1g_checked (m : Mem) (root virt phys flags : Z) (a : A) : result HugeError unit * Mem * A :=
  if negb (is_aligned virt SIZE_1G) then (Err (VirtNotAligned virt SIZE_1G), m, a)
  else if negb (phys mod SIZE_1G =? 0) then (Err (PhysNotAligned phys SIZE_1G), m, a)
  else let '(r, m', a') := map_huge_1g m root virt phys flags a in (map_err HugeError_from r, m', a').

Definition map_auto (m : Mem) (root virt phys flags : Z) (a : A) : result HugeError Z * Mem * A :=
  let page_size := best_page_size virt phys u64_max in
  if page_size =? SIZE_1G then
    let '(r, m', a') := map_1g_checked m root virt phys flags a in ((let? _ := r in Ok SIZE_1G), m', a')
  else if page_size =? SIZE_2M then
    let '(r, m', a') := map_2m_checked m root virt phys flags a in ((let? _ := r in Ok SIZE_2M), m', a')
  else
    match from_start_address phys with
    | None => (Err (PhysNotAligned phys SIZE_4K), m, a)
    | Some frame =>
      let '(r, m', a') := map_page m root virt frame flags a in
      ((let? _ := map_err HugeError_from r in Ok SIZE_4K), m', a')
    end.

Definition check_huge_conflict (m : Mem) (root virt level : Z) : result HugeError unit :=
  let? e := map_err HugeError_from (walk_read m root virt level) in
  if is_present e then Err (Conflict level) else Ok tt.
End Mapper.

(** ** Translation *)
Definition translate (m : Mem) (root virt : Z) : result WalkError Z :=
  let? e := walk_read m root virt 1 in
  if negb (is_present e) then Err WalkOutOfMemory else Ok (pte_addr e + page_offset_4k virt).

Definition translate_frame (m : Mem) (root virt : Z) : result WalkError (Z * Z) :=
  let? e := walk_read m root virt 1 in
  if negb (is_present e) then Err WalkOutOfMemory else
  match from_start_address (pte_addr e) with
  | None => Panic
  | Some frame => Ok (frame, page_offset_4k virt)
  end.

Definition is_mapped (m : Mem) (root virt : Z) : bool :=
  match walk_read m root virt 1 with Ok e => is_present e | _ => false end.

Definition count_mapped (m : Mem) (root virt size : Z) : result WalkError Z :=
  if size + SIZE_4K <=? u64_max + 1 then
    let? s := for_loop 0 ((size + SIZE_4K - 1) / SIZE_4K) (fun _ s =>
      let '(count, addr) := s in
      match u64_checked_add addr SIZE_4K with
      | None => Panic
      | Some addr' => Ok ((if is_mapped m root addr then count + 1 else count), addr')
      end) (0, virt) in
    Ok (fst s)
  else Panic.

(** ** Entries: an address and flags in one word *)
Definition frame_ok (f : Z) : Prop := 0 <= f < 2 ^ 52 /\ f mod 4096 = 0.
Definition flags_ok (flags : Z) : Prop := 0 <= flags /\ Z.land flags ADDR_MASK = 0.

Lemma addr_mask_bits k : 0 <= k -> Z.testbit ADDR_MASK k = (12 <=? k) && (k <? 52).
Proof.
  intros Hk. change ADDR_MASK with (Z.shiftl (Z.ones 40) 12).
  destruct (Z.leb_spec 12 k); simpl.
  - rewrite Z.shiftl_spec by lia. destruct (Z.ltb_spec k 52).
    + apply Z.ones_spec_low. lia.
    + apply Z.ones_spec_high. lia.
  - rewrite Z.shiftl_spec_low; [done|lia].
Qed.

Lemma frame_masked f : frame_ok f -> Z.land f ADDR_MASK = f.
Proof.
  intros [Hr Hm]. apply Z.bits_inj'. intros k Hk. rewrite Z.land_spec, addr_mask_bits by done.
  destruct (Z.leb_spec 12 k); simpl.
  - destruct (Z.ltb_spec k 52); [apply andb_true_r|].
    rewrite andb_false_r. symmetry. destruct (Z.eq_dec f 0) as [->|]; [apply Z.bits_0|].
    apply Z.bits_above_log2; [lia|]. assert (Z.log2 f < 52) by (apply Z.log2_lt_pow2; lia). lia.
  - rewrite andb_false_r. symmetry. change 4096 with (2 ^ 12) in Hm.
    rewrite <- (Z.mod_pow2_bits_low f 12 k) by lia. by rewrite Hm, Z.bits_0.
Qed.

Lemma pte_addr_new f flags : frame_ok f -> flags_ok flags -> pte_addr (new_with_frame f flags) = f.
Proof.
  intros Hf [_ Hg]. unfold pte_addr, new_with_frame.
  by rewrite Z.land_lor_distr_l, frame_masked, Hg, Z.lor_0_r.
Qed.

(** A flag below the address field is unaffected by the address. *)
Lemma land_low_flag f k : frame_ok f -> 0 <= k < 12 -> Z.land f (2 ^ k) = 0.
Proof.
  intros [Hr Hm] Hk. apply Z.bits_inj'. intros j Hj. rewrite Z.land_spec, Z.bits_0.
  destruct (Z.eq_dec j k) as [->|].
  - change 4096 with (2 ^ 12) in Hm. rewrite <- (Z.mod_pow2_bits_low f 12 k) by lia.
    by rewrite Hm, Z.bits_0.
  - rewrite (Z.pow2_bits_false k j) by lia. apply andb_false_r.
Qed.

Lemma is_present_new f flags : frame_ok f -> is_present (new_with_frame f flags) = is_present flags.
Proof.
  intros Hf. unfold is_present, new_with_frame. rewrite Z.land_lor_distr_l.
  by rewrite (land_low_flag f 0 Hf ltac:(lia) : Z.land f PRESENT = 0).
Qed.

Definition TABLE_FLAGS : Z := Z.lor PRESENT (Z.lor WRITABLE USER_ACCESSIBLE).

Lemma table_entry f : frame_ok f ->
  is_unused (new_with_frame f TABLE_FLAGS) = false
  /\ is_huge (new_with_frame f TABLE_FLAGS) = false
  /\ pte_addr (new_with_frame f TABLE_FLAGS) = f.
Proof.
  intros Hf. split; [|split].
  - assert (is_present (new_with_frame f TABLE_FLAGS) = true) as Hp by (by rewrite is_present_new).
    unfold is_unused. apply Z.eqb_neq. intros E. by rewrite E in Hp.
  - unfold is_huge, new_with_frame. rewrite Z.land_lor_distr_l.
    by rewrite (land_low_flag f 7 Hf ltac:(lia) : Z.land f HUGE_PAGE = 0).
  - apply pte_addr_new; [done|]. by split.
Qed.

Lemma pte_addr_ok e : 0 <= e -> frame_ok (pte_addr e).
Proof.
  intros He. unfold pte_addr. split.
  - assert (0 <= Z.land e ADDR_MASK) by (apply Z.land_nonneg; by left). split; [done|].
    destruct (Z.eq_dec (Z.land e ADDR_MASK) 0) as [->|]; [lia|].
    apply Z.log2_lt_pow2; [lia|].
    destruct (Z.lt_ge_cases (Z.log2 (Z.land e ADDR_MASK)) 52) as [|Hge]; [done|].
    pose proof (Z.bit_log2 (Z.land e ADDR_MASK) ltac:(lia)) as Hb.
    rewrite Z.land_spec, addr_mask_bits in Hb by lia.
    rewrite (proj2 (Z.ltb_ge _ 52)), !andb_false_r in Hb by lia. done.
  - change 4096 with (2 ^ 12). apply Z.bits_inj'. intros k Hk. rewrite Z.bits_0.
    destruct (Z.lt_ge_cases k 12).
    + rewrite Z.mod_pow2_bits_low, Z.land_spec, addr_mask_bits by lia.
      rewrite (proj2 (Z.leb_gt 12 k)) by lia. apply andb_false_r.
    + apply Z.mod_pow2_bits_high. lia.
Qed.

Lemma index_range v l : 0 <= index v l < 512.
Proof.
  unfold index. change 511 with (Z.ones 9). rewrite Z.land_ones by lia.
  apply Z.mod_pos_bound. lia.
Qed.

(** Addresses of one page. *)
Lemma index_page v v' l : v / 4096 = v' / 4096 -> 1 <= l -> index v l = index v' l.
Proof.
  intros E Hl. unfold index. rewrite <- !Z.shiftr_shiftr by lia.
  rewrite !(Z.shiftr_div_pow2 _ 12) by lia. change (2 ^ 12) with 4096. by rewrite E.
Qed.

Lemma align_page a : 0 <= a <= u64_max -> align_down a 4096 = 4096 * (a / 4096).
Proof.
  intros Ha. unfold align_down, u64_not. change (4096 - 1) with (Z.ones 12).
  replace (Z.lxor u64_max (Z.ones 12)) with (Z.ldiff (Z.ones 64) (Z.ones 12)) by reflexivity.
  replace (Z.land a (Z.ldiff (Z.ones 64) (Z.ones 12))) with (Z.ldiff (Z.land a (Z.ones 64)) (Z.ones 12)).
  - rewrite Z.land_ones, Z.mod_small by (unfold u64_max in Ha; lia).
    rewrite Z.ldiff_ones_r, Z.shiftr_div_pow2, Z.shiftl_mul_pow2 by lia. change (2 ^ 12) with 4096. lia.
  - apply Z.bits_inj'. intros k Hk. rewrite Z.ldiff_spec, !Z.land_spec, Z.ldiff_spec. by rewrite andb_assoc.
Qed.

(** Canonical addresses of 64 bits. *)
Lemma canonical_iff a : 0 <= a <= u64_max ->
  canonical_new a = if (a <? 2 ^ 47) || (2 ^ 64 - 2 ^ 47 <=? a) then Some a else None.
Proof.
  intros Ha. unfold canonical_new, as_i64. rewrite !Z.shiftr_div_pow2 by lia. unfold u64_max in Ha.
  assert (forall b : bool, (b = true <-> a < 2 ^ 47 \/ 2 ^ 64 - 2 ^ 47 <= a) ->
    b = (a <? 2 ^ 47) || (2 ^ 64 - 2 ^ 47 <=? a)) as Hb.
  { intros b Hb. apply eq_true_iff_eq. by rewrite Hb, orb_true_iff, Z.ltb_lt, Z.leb_le. }
  rewrite (Hb ((_ =? 0) || _)); [done|]. rewrite orb_true_iff, !Z.eqb_eq.
  destruct (Z.ltb_spec a (2 ^ 63)).
  - pose proof (Z.div_mod a (2 ^ 47) ltac:(lia)). pose proof (Z.mod_pos_bound a (2 ^ 47) ltac:(lia)). lia.
  - pose proof (Z.div_mod (a - 2 ^ 64) (2 ^ 47) ltac:(lia)).
    pose proof (Z.mod_pos_bound (a - 2 ^ 64) (2 ^ 47) ltac:(lia)). lia.
Qed.

(** Entries of 4 KiB-aligned tables have distinct addresses. *)
Lemma entry_address_inj t1 t2 i1 i2 :
  t1 mod 4096 = 0 -> t2 mod 4096 = 0 -> 0 <= i1 < 512 -> 0 <= i2 < 512 ->
  entry_address t1 i1 = entry_address t2 i2 -> t1 = t2 /\ i1 = i2.
Proof.
  unfold entry_address. intros H1 H2 Hi1 Hi2 E.
  pose proof (Z.div_mod t1 4096 ltac:(lia)). pose proof (Z.div_mod t2 4096 ltac:(lia)). lia.
Qed.

(** ** Walks as paths

    A path is the list of (level, index) pairs a walk follows; [reach] is the
    table at its end. *)
Definition pt_path := list (Z * Z).

Definition step (m : Mem) (r : result WalkError Z) (x : Z * Z) : result WalkError Z :=
  let? table := r in
  let e := read_word m (entry_address table x.2) in
  if is_unused e then Err WalkOutOfMemory
  else if is_huge e then Err (HugePageConflict x.1)
  else Ok (pte_addr e).

Definition reach (m : Mem) (root : Z) (p : pt_path) : result WalkError Z := foldl (step m) (Ok root) p.

Definition path_of (virt : Z) (ls : list Z) : pt_path := map (fun l => (l, index virt l)) ls.

Lemma foldl_step_err m e p : foldl (step m) (Err e) p = Err e.
Proof. by induction p. Qed.

Lemma walk_levels_reach ls v m : forall t, walk_levels ls v m t = reach m t (path_of v ls).
Proof.
  unfold reach. induction ls as [|l ls IH]; intros t; simpl; [done|].
  destruct (is_unused _); [by rewrite foldl_step_err|].
  destruct (is_huge _); [by rewrite foldl_step_err|]. apply IH.
Qed.

Lemma reach_snoc m root p x : reach m root (p ++ [x]) = step m (reach m root p) x.
Proof. unfold reach. by rewrite foldl_app. Qed.

(** Valid paths: at most three steps, from level 4 downwards. *)
Definition valid_path (p : pt_path) : Prop :=
  map fst p `prefix_of` [4; 3; 2] /\ Forall (fun x => 0 <= x.2 < 512) p.

Lemma valid_app p q : valid_path (p ++ q) -> valid_path p.
Proof.
  intros [Hp Hi]. split; [|by apply Forall_app in Hi as [? _]].
  etransitivity; [|exact Hp]. rewrite map_app. by apply prefix_app_r.
Qed.

Lemma valid_level p x y : valid_path (p ++ [x]) -> valid_path (p ++ [y]) -> x.2 = y.2 -> x = y.
Proof.
  intros [[k1 H1] _] [[k2 H2] _] Heq. rewrite map_app in H1, H2. simpl in H1, H2.
  assert (x.1 = y.1).
  { rewrite H1, <- !app_assoc in H2. apply app_inv_head in H2. simpl in H2. congruence. }
  destruct x, y; simpl in *; congruence.
Qed.

Lemma path_of_valid v ls : ls `prefix_of` [4; 3; 2] -> valid_path (path_of v ls).
Proof.
  intros H. unfold path_of. split.
  - rewrite map_map. simpl. by rewrite map_id.
  - apply Forall_map, Forall_forall. intros l _. apply index_range.
Qed.

(** ** The invariant of a hierarchy *)
Section Inv.
Context {A : Type} `{FrameAllocator A}.

(** What the walker relies on of an allocator: in the states [fok], [avail a f]
    says that [a] may hand out frame [f]; an allocation hands out one such frame. *)
Class LawfulFrames (fok : A -> Prop) (avail : A -> Z -> Prop) := {
  fa_step (a : A) : fok a -> match fa_allocate a with
    | (Ok f, a') => fok a' /\ avail a f /\ forall g, avail a' g <-> avail a g /\ g <> f
    | (Err _, a') => a' = a /\ forall g, ~ avail a g
    | (Panic, _) => False
    end;
  fa_avail (a : A) f : avail a f -> frame_ok f;
  fa_free (a : A) f : fok a -> frame_ok f -> exists a', fa_deallocate a f = Ok a' /\ fok a'
}.

Context (fok : A -> Prop) (avail : A -> Z -> Prop) `{!LawfulFrames fok avail}.

(** Entries are words; different valid paths reach different tables (no
    aliasing), tables are frames the allocator does not hold, and the frames it
    holds are zeroed. *)
Record pt_inv (m : Mem) (root : Z) (a : A) : Prop := {
  pt_words : forall x, 0 <= read_word m x;
  pt_root : root mod 4096 = 0;
  pt_tree : forall p1 p2 t, valid_path p1 -> valid_path p2 ->
              reach m root p1 = Ok t -> reach m root p2 = Ok t -> p1 = p2;
  pt_held : forall p t, valid_path p -> reach m root p = Ok t -> ~ avail a t;
  pt_zero : forall f i, avail a f -> 0 <= i < 512 -> read_word m (entry_address f i) = 0
}.

Lemma reach_aligned m root a p t :
  pt_inv m root a -> reach m root p = Ok t -> t mod 4096 = 0.
Proof.
  intros Hm. destruct p as [|x p _] using rev_ind; [intros [= <-]; by apply Hm|].
  rewrite reach_snoc. unfold step. destruct (reach m root p); [|done..].
  repeat case_match; intros [= <-]. apply pte_addr_ok, Hm.
Qed.

Lemma read_insert m ea w x : read_word (<[ea := w]> m) x = if x =? ea then w else read_word m x.
Proof.
  unfold read_word. destruct (Z.eqb_spec x ea) as [->|]; [by rewrite lookup_insert_eq|].
  by rewrite lookup_insert_ne.
Qed.

(** Writing the entry at the end of path [q = p ++ [(l, i)]] leaves every walk that
    does not go through it unchanged. *)
Lemma write_elsewhere m root a p l i t w p' :
  pt_inv m root a -> valid_path p -> 0 <= i < 512 -> reach m root p = Ok t ->
  (forall y, y.2 = i -> valid_path (p ++ [y]) -> y.1 = l) ->
  valid_path p' -> ~ p ++ [(l, i)] `prefix_of` p' ->
  reach (<[entry_address t i := w]> m) root p' = reach m root p'.
Proof.
  intros Hm Hp Hi Ht Hl. induction p' as [|x p' IH] using rev_ind; intros Hv Hn; [done|].
  assert (valid_path p') as Hv' by (by eapply valid_app).
  rewrite !reach_snoc, IH; [|done|intros [k Hk]; apply Hn; exists (k ++ [x]); by rewrite Hk, <- app_assoc].
  unfold step. destruct (reach m root p') as [t'|e|] eqn:Et; [|done..].
  rewrite read_insert. destruct (Z.eqb_spec (entry_address t' x.2) (entry_address t i)) as [E|]; [|done].
  exfalso. apply Hn.
  destruct Hv as [Hv1 Hv2]. pose proof Hv2 as Hx. apply Forall_app in Hx as [_ Hx%Forall_cons]. destruct Hx as [Hx _].
  destruct (entry_address_inj _ _ _ _ (reach_aligned _ _ _ _ _ Hm Et) (reach_aligned _ _ _ _ _ Hm Ht) Hx Hi E) as [-> Hxi].
  assert (p' = p) as -> by (by eapply (pt_tree _ _ _ Hm)).
  exists []. rewrite app_nil_r. f_equal. f_equal. destruct x as [xl xi]. simpl in *. subst xi.
  f_equal. by rewrite <- (Hl (xl, i)).
Qed.

Lemma link_elsewhere m root a p l i t w p' :
  pt_inv m root a -> valid_path (p ++ [(l, i)]) -> reach m root p = Ok t ->
  valid_path p' -> ~ p ++ [(l, i)] `prefix_of` p' ->
  reach (<[entry_address t i := w]> m) root p' = reach m root p'.
Proof.
  intros Hm Hv Ht. pose proof Hv as [_ Hi]. apply Forall_app in Hi as [_ Hi%Forall_cons]. destruct Hi as [Hi _].
  apply (write_elsewhere _ _ a); [done|by eapply valid_app|done|done|].
  intros y Hy Hvy. by rewrite (valid_level p y (l, i)).
Qed.

Lemma link_below m root a p l i t f : 
  pt_inv m root a -> valid_path (p ++ [(l, i)]) -> reach m root p = Ok t ->
  frame_ok f -> avail a f ->
  forall s, reach (<[entry_address t i := new_with_frame f TABLE_FLAGS]> m) root ((p ++ [(l, i)]) ++ s)
  = match s with [] => Ok f | (_, j) :: _ => if (0 <=? j) && (j <? 512) then Err WalkOutOfMemory
      else reach (<[entry_address t i := new_with_frame f TABLE_FLAGS]> m) f s end.
Proof.
  intros Hm Hv Ht Hf Hav s. pose proof Hv as [_ Hi]. apply Forall_app in Hi as [_ Hi%Forall_cons].
  destruct Hi as [Hi _]. simpl in Hi.
  assert (valid_path p) as Hvp by (by eapply valid_app).
  destruct (table_entry f Hf) as (Hu & Hh & Ha).
  set (m' := <[_ := _]> m).
  assert (reach m' root (p ++ [(l, i)]) = Ok f) as Hq.
  { rewrite reach_snoc. unfold m'.
    rewrite (link_elsewhere _ _ a p l i t _ p) by (done || (intros [k Hk%(f_equal length)]; rewrite !length_app in Hk; simpl in Hk; lia)).
    rewrite Ht. unfold step. simpl. by rewrite read_insert, Z.eqb_refl, Hu, Hh, Ha. }
  unfold reach. rewrite foldl_app. fold (reach m' root (p ++ [(l, i)])). rewrite Hq.
  destruct s as [|[k j] s]; [done|]. destruct ((0 <=? j) && (j <? 512)) eqn:Ej; [|done]. bool_to_prop.
  cbn [foldl]. unfold step at 2. simpl. unfold m'. rewrite read_insert.
  destruct (Z.eqb_spec (entry_address f j) (entry_address t i)) as [E|_].
  { exfalso. destruct (entry_address_inj f t j i) as [-> _]; try done; try lia; [apply Hf|by eapply reach_aligned|].
    by eapply (pt_held _ _ _ Hm p). }
  rewrite (pt_zero _ _ _ Hm f j) by (done || lia). simpl. apply foldl_step_err.
Qed.

(** Linking a fresh zeroed frame as a new table keeps the invariant. *)
Lemma link_inv m root a a' p l i t f :
  pt_inv m root a -> valid_path (p ++ [(l, i)]) -> reach m root p = Ok t ->
  read_word m (entry_address t i) = 0 ->
  frame_ok f -> avail a f -> (forall g, avail a' g <-> avail a g /\ g <> f) ->
  pt_inv (<[entry_address t i := new_with_frame f TABLE_FLAGS]> m) root a'.
Proof.
  intros Hm Hv Ht H0 Hf Hav Hav'. set (m' := <[_ := _]> m).
  assert (forall p' t', valid_path p' -> reach m' root p' = Ok t' ->
    (p' = p ++ [(l, i)] /\ t' = f) \/ reach m root p' = Ok t') as Hcases.
  { intros p' t' Hv' Hr. destruct (decide (p ++ [(l, i)] `prefix_of` p')) as [[s ->]|Hn].
    - left. unfold m' in Hr. rewrite (link_below _ _ a) in Hr by done.
      destruct s as [|[k j] s]; [injection Hr as <-; by rewrite app_nil_r|].
      destruct Hv' as [_ Hv']. apply Forall_app in Hv' as [_ Hj%Forall_cons]. destruct Hj as [Hj _]. simpl in Hj.
      rewrite (proj2 (Z.leb_le 0 j)), (proj2 (Z.ltb_lt j 512)) in Hr by lia. done.
    - right. by unfold m' in Hr; rewrite (link_elsewhere _ _ a p l) in Hr. }
  pose proof (pt_held _ _ _ Hm) as Hheld.
  pose proof Hv as [_ Hi]. apply Forall_app in Hi as [_ Hi%Forall_cons]. destruct Hi as [Hi _]. simpl in Hi.
  split.
  - intros x. unfold m'. rewrite read_insert. destruct (x =? _); [|apply Hm].
    apply Z.lor_nonneg. split; [apply Hf|vm_compute; discriminate].
  - apply Hm.
  - intros p1 p2 t' Hv1 Hv2 Hr1 Hr2.
    destruct (Hcases p1 t' Hv1 Hr1) as [[-> E1]|Hr1'], (Hcases p2 t' Hv2 Hr2) as [[-> E2]|Hr2']; try done.
    + subst t'. by destruct (Hheld p2 f Hv2 Hr2').
    + subst t'. by destruct (Hheld p1 f Hv1 Hr1').
    + by eapply (pt_tree _ _ _ Hm).
  - intros p' t' Hv' Hr Ha. apply Hav' in Ha as [Ha Hne].
    destruct (Hcases p' t' Hv' Hr) as [[_ ->]|Hr']; [done|]. by eapply Hheld.
  - intros g j Hg Hj. apply Hav' in Hg as [Hg _]. unfold m'. rewrite read_insert.
    destruct (Z.eqb_spec (entry_address g j) (entry_address t i)) as [E|_]; [|by apply Hm].
    exfalso. destruct (entry_address_inj g t j i) as [-> _]; try done.
    + by apply (fa_avail a).
    + by eapply reach_aligned.
    + by eapply (Hheld p); [eapply valid_app|..].
Qed.

(** *** Leaf entries *)
Definition leaf (m : Mem) (root virt : Z) : result WalkError Z :=
  let? t := reach m root (path_of virt [4; 3; 2]) in
  let e := read_word m (entry_address t (index virt 1)) in
  if is_present e then Ok e else Err WalkOutOfMemory.

Lemma translate_leaf m root v :
  translate m root v = (let? e := leaf m root v in Ok (pte_addr e + page_offset_4k v)).
Proof.
  unfold translate, walk_read, walk, walk_to_table, leaf. simpl (levels 1).
  change ((1 <=? 1) && (1 <=? 3)) with true. cbv iota. change (levels 1) with [4; 3; 2].
  rewrite walk_levels_reach. destruct (reach m root _) as [t|e|]; [|done..].
  simpl. by destruct (is_present _).
Qed.

Definition same_page (v v' : Z) : Prop := forall l, l ∈ [4; 3; 2; 1] -> index v l = index v' l.
#[export] Instance same_page_dec v v' : Decision (same_page v v').
Proof.
  refine (cast_if (decide (Forall (fun l => index v l = index v' l) [4; 3; 2; 1])));
    unfold same_page; by rewrite <- Forall_forall.
Defined.

Lemma path_of_full v : valid_path (path_of v [4; 3; 2]).
Proof. by apply path_of_valid. Qed.

Lemma same_page_path v v' :
  path_of v [4; 3; 2] = path_of v' [4; 3; 2] -> index v 1 = index v' 1 -> same_page v v'.
Proof.
  intros Hp H1 l Hl. injection Hp as H4 H3 H2.
  repeat (apply elem_of_cons in Hl as [->|Hl]; [done|]). by apply not_elem_of_nil in Hl.
Qed.

(** Linking a new empty table changes no leaf. *)
Lemma link_leaf m root a p l i t f v' :
  pt_inv m root a -> valid_path (p ++ [(l, i)]) -> reach m root p = Ok t ->
  read_word m (entry_address t i) = 0 -> frame_ok f -> avail a f ->
  leaf (<[entry_address t i := new_with_frame f TABLE_FLAGS]> m) root v' = leaf m root v'.
Proof.
  intros Hm Hv Ht H0 Hf Hav. set (m' := <[_ := _]> m). unfold leaf.
  pose proof (path_of_full v') as Hv'. set (p' := path_of v' [4; 3; 2]) in *.
  pose proof Hv as [_ Hi]. apply Forall_app in Hi as [_ Hi%Forall_cons]. destruct Hi as [Hi _]. simpl in Hi.
  pose proof (index_range v' 1) as Hi1.
  destruct (decide (p ++ [(l, i)] `prefix_of` p')) as [[s Hs]|Hn].
  - assert (reach m root p' = Err WalkOutOfMemory) as ->.
    { rewrite Hs. unfold reach. rewrite foldl_app. fold (reach m root (p ++ [(l, i)])).
      rewrite reach_snoc, Ht. unfold step at 2. simpl. rewrite H0. simpl. apply foldl_step_err. }
    rewrite Hs. unfold m'. rewrite (link_below _ _ a) by done. destruct s as [|[k j] s].
    + simpl. rewrite read_insert.
      destruct (Z.eqb_spec (entry_address f (index v' 1)) (entry_address t i)) as [E|_].
      * exfalso. destruct (entry_address_inj f t (index v' 1) i) as [-> _]; try done; [apply Hf|by eapply reach_aligned|].
        by eapply (pt_held _ _ _ Hm p); [eapply valid_app|..].
      * by rewrite (pt_zero _ _ _ Hm f) by done.
    + rewrite Hs in Hv'. destruct Hv' as [_ Hv']. apply Forall_app in Hv' as [_ Hj%Forall_cons]. destruct Hj as [Hj _]. simpl in Hj.
      by rewrite (proj2 (Z.leb_le 0 j)), (proj2 (Z.ltb_lt j 512)) by lia.
  - unfold m'. rewrite (link_elsewhere _ _ a p l) by done.
    destruct (reach m root p') as [t'|e|] eqn:Er; [|done..]. rewrite read_insert.
    destruct (Z.eqb_spec (entry_address t' (index v' 1)) (entry_address t i)) as [E|_]; [|done].
    exfalso. destruct (entry_address_inj t' t (index v' 1) i) as [-> _]; try done; [by eapply reach_aligned..|].
    assert (p' = p) as Hpp by (eapply (pt_tree _ _ _ Hm); [done|by eapply valid_app|done|done]).
    destruct Hv as [Hv _]. apply prefix_length in Hv. rewrite <- Hpp in Hv. simpl in Hv. lia.
Qed.

(** Creating the tables of a walk. *)
Lemma create_levels_spec v ls : forall pre m root t a,
  pt_inv m root a -> fok a -> pre ++ ls `prefix_of` [4; 3; 2] -> reach m root (path_of v pre) = Ok t ->
  match create_levels ls v m t a with
  | (r, m', a') => pt_inv m' root a' /\ fok a' /\ (forall v', leaf m' root v' = leaf m root v')
    /\ match r with
       | Ok t' => reach m' root (path_of v (pre ++ ls)) = Ok t'
       | Err e => (e = WalkOutOfMemory /\ forall g, ~ avail a' g) \/ exists l, e = HugePageConflict l
       | Panic => False
       end
  end.
Proof.
  induction ls as [|l ls IH]; intros pre m root t a Hm Hok Hpre Ht; simpl.
  { rewrite app_nil_r. done. }
  assert (pre ++ l :: ls = (pre ++ [l]) ++ ls) as Happ by (by rewrite <- app_assoc).
  assert (path_of v (pre ++ [l]) = path_of v pre ++ [(l, index v l)]) as Hpath
    by (unfold path_of; by rewrite map_app).
  rewrite Happ in *.
  assert (valid_path (path_of v pre ++ [(l, index v l)])) as Hv.
  { rewrite <- Hpath. apply path_of_valid. etransitivity; [|exact Hpre]. by apply prefix_app_r. }
  destruct (is_unused (read_word m (entry_address t (index v l)))) eqn:Eu.
  - unfold is_unused in Eu. apply Z.eqb_eq in Eu. unfold alloc_zeroed.
    pose proof (fa_step a Hok) as Hs. destruct (fa_allocate a) as [[f|er|] a'].
    + destruct Hs as (Hok' & Hav & Hav'). pose proof (fa_avail a f Hav) as Hf.
      destruct (table_entry f Hf) as (_ & _ & Ha). fold TABLE_FLAGS. rewrite Ha.
      pose proof (IH (pre ++ [l]) (<[entry_address t (index v l) := new_with_frame f TABLE_FLAGS]> m)
        root f a') as IH'.
      assert (pt_inv (<[entry_address t (index v l) := new_with_frame f TABLE_FLAGS]> m) root a') as Hm'
        by (by eapply link_inv).
      specialize (IH' Hm' Hok' Hpre).
      rewrite Hpath in IH'. 
      assert (reach (<[entry_address t (index v l) := new_with_frame f TABLE_FLAGS]> m) root
        (path_of v pre ++ [(l, index v l)]) = Ok f) as Hr.
      { rewrite <- (app_nil_r (path_of v pre ++ _)). by rewrite (link_below _ _ a). }
      specialize (IH' Hr). destruct (create_levels ls v _ f a') as [[r m2] a2].
      destruct IH' as (H1 & H2 & H3 & H4). split; [done|]. split; [done|]. split; [|done].
      intros v'. rewrite H3. by eapply link_leaf.
    + destruct Hs as [-> Hs]. split; [done|]. split; [done|]. split; [done|]. by left.
    + done.
  - destruct (is_huge (read_word m (entry_address t (index v l)))) eqn:Eh.
    + split; [done|]. split; [done|]. split; [done|]. right. by exists l.
    + apply (IH (pre ++ [l])); try done. rewrite Hpath, reach_snoc, Ht. unfold step. simpl. by rewrite Eu, Eh.
Qed.

(** Writing a leaf entry. *)
Lemma write_leaf m root a v t w :
  pt_inv m root a -> reach m root (path_of v [4; 3; 2]) = Ok t -> 0 <= w ->
  pt_inv (<[entry_address t (index v 1) := w]> m) root a
  /\ forall v', leaf (<[entry_address t (index v 1) := w]> m) root v'
       = if decide (same_page v v') then (if is_present w then Ok w else Err WalkOutOfMemory) else leaf m root v'.
Proof.
  intros Hm Ht Hw. pose proof (index_range v 1) as Hi.
  assert (forall p', valid_path p' -> reach (<[entry_address t (index v 1) := w]> m) root p' = reach m root p') as Hreach.
  { intros p' Hv'. apply (write_elsewhere _ _ a (path_of v [4; 3; 2]) 0); try done; [apply path_of_full|..].
    - intros y _ [Hy _]. apply prefix_length in Hy. rewrite length_map, length_app in Hy. simpl in Hy. lia.
    - intros Hp%prefix_length. destruct Hv' as [Hv'%prefix_length _]. rewrite length_map in Hv'.
      rewrite length_app in Hp. simpl in *. lia. }
  assert (forall p' t' j, valid_path p' -> 0 <= j < 512 -> reach m root p' = Ok t' ->
    entry_address t' j = entry_address t (index v 1) -> p' = path_of v [4; 3; 2] /\ j = index v 1) as Hea.
  { intros p' t' j Hv' Hj Hr E.
    destruct (entry_address_inj t' t j (index v 1)) as [-> ->]; try done; [by eapply reach_aligned..|].
    split; [|done]. eapply (pt_tree _ _ _ Hm); [done|apply path_of_full|done|done]. }
  split.
  - split.
    + intros x. rewrite read_insert. destruct (x =? _); [done|apply Hm].
    + apply Hm.
    + intros p1 p2 t' H1 H2. rewrite !Hreach by done. by apply Hm.
    + intros p' t' H1. rewrite Hreach by done. by apply Hm.
    + intros f j Hf Hj. rewrite read_insert.
      destruct (Z.eqb_spec (entry_address f j) (entry_address t (index v 1))) as [E|_]; [|by apply Hm].
      exfalso. destruct (entry_address_inj f t j (index v 1)) as [-> _]; try done;
        [by apply (fa_avail a)|by eapply reach_aligned|].
      by eapply (pt_held _ _ _ Hm); [apply path_of_full|..].
  - intros v'. unfold leaf at 1. rewrite Hreach by apply path_of_full.
    destruct (decide (same_page v v')) as [Hs|Hs].
    + assert (path_of v' [4; 3; 2] = path_of v [4; 3; 2]) as ->.
      { unfold path_of. simpl. by rewrite !Hs by set_solver. }
      rewrite Ht, <- (Hs 1) by set_solver. by rewrite read_insert, Z.eqb_refl.
    + unfold leaf. destruct (reach m root (path_of v' [4; 3; 2])) as [t'|e|] eqn:Er; [|done..].
      rewrite read_insert.
      destruct (Z.eqb_spec (entry_address t' (index v' 1)) (entry_address t (index v 1))) as [E|_]; [|done].
      exfalso. destruct (Hea _ _ _ (path_of_full v') (index_range v' 1) Er E) as [Hp Hj].
      apply Hs. by apply same_page_path.
Qed.

Lemma map_page_leaf m root virt frame flags a :
  pt_inv m root a -> fok a -> frame_ok frame -> flags_ok flags ->
  match map_page m root virt frame flags a with
  | (r, m', a') => pt_inv m' root a' /\ fok a'
    /\ match r with
       | Ok _ => forall v', leaf m' root v' = if decide (same_page virt v') then
           (if is_present flags then Ok (new_with_frame frame flags) else Err WalkOutOfMemory) else leaf m root v'
       | Err e => (forall v', leaf m' root v' = leaf m root v')
           /\ ((e = WalkOutOfMemory /\ forall g, ~ avail a' g) \/ exists l, e = HugePageConflict l)
       | Panic => False
       end
  end.
Proof.
  intros Hm Hok Hf Hg. unfold map_page, map_entry, walk_or_create. change ((1 <=? 1) && (1 <=? 3)) with true.
  pose proof (create_levels_spec virt [4; 3; 2] [] m root root a Hm Hok (reflexivity _) eq_refl) as Hc.
  change (levels 1) with [4; 3; 2]. cbv iota.
  destruct (create_levels [4; 3; 2] virt m root a) as [[r m'] a'].
  destruct Hc as (Hm' & Hok' & Hleaf & Hr). destruct r as [t|e|]; cbv beta iota in Hr |- *; [| |done].
  - assert (0 <= new_with_frame frame flags) as Hw
      by (apply Z.lor_nonneg; split; [apply Hf|apply Hg]).
    destruct (write_leaf m' root a' virt t (new_with_frame frame flags) Hm' Hr Hw) as [Hi Hl].
    split; [done|]. split; [done|]. intros v'. by rewrite Hl, Hleaf, is_present_new.
  - split; [done|]. split; [done|]. by split.
Qed.


(** Unmapping a mapped page returns its frame to the allocator, makes exactly
    the addresses of that page untranslatable and changes no other translation. *)
Theorem unmap_page_correct (m : Mem) (root virt phys : Z) (a : A) :
  pt_inv m root a -> fok a -> translate m root virt = Ok phys ->
  exists frame m' a', unmap_page m root virt a = (Ok (Some frame), m', a')
  /\ phys = frame + page_offset_4k virt /\ fa_deallocate a frame = Ok a' /\ fok a'
  /\ forall v', translate m' root v' =
       if decide (same_page virt v') then Err WalkOutOfMemory else translate m root v'.
Proof.
  intros Hm Hok Htr. rewrite translate_leaf in Htr. unfold leaf in Htr.
  unfold unmap_page, walk, walk_to_table. change ((1 <=? 1) && (1 <=? 3)) with true. change (levels 1) with [4; 3; 2]. cbv iota.
  rewrite walk_levels_reach. destruct (reach m root (path_of virt [4; 3; 2])) as [t|e|] eqn:Er; [|done..].
  set (e := read_word m (entry_address t (index virt 1))) in *.
  destruct (is_present e) eqn:Ep; [|done]. cbv beta iota in Htr |- *. cbn [negb]. injection Htr as <-.
  pose proof (pte_addr_ok e (pt_words _ _ _ Hm _)) as Hfo.
  assert (from_start_address (pte_addr e) = Some (pte_addr e)) as ->.
  { unfold from_start_address, SIZE_4K. by rewrite (proj2 Hfo). }
  destruct (fa_free a (pte_addr e) Hok Hfo) as (a' & Ea & Hok'). rewrite Ea.
  destruct (write_leaf m root a virt t 0 Hm Er ltac:(lia)) as [_ Hl].
  eexists _, _, _. split; [done|]. split; [done|]. split; [done|]. split; [done|].
  intros v'. rewrite !translate_leaf, Hl. by destruct (decide (same_page virt v')).
Qed.
End Inv.

(** ** The bitmap allocator as a frame source *)
Definition bitmap_avail (b : BitmapFrameAllocator) (f : Z) : Prop :=
  exists i, f = i * 4096 /\ 0 < i /\ free b i /\ bm_inv b.

#[export] Instance bitmap_lawful : LawfulFrames bm_inv bitmap_avail.
Proof.
  split.
  - intros b Hb. simpl. destruct (allocate_spec b Hb)
      as [(f & b' & -> & Hb' & Ht & _ & H0 & Hf & _ & _ & Hu)|(-> & _ & Hnone)].
    + split; [done|]. split; [by exists f|]. intros g. unfold bitmap_avail, free. split.
      * intros (i & -> & Hi & [Hr Hfr] & _). rewrite Hu in Hfr by lia.
        apply orb_false_iff in Hfr as [Hne Hfr]. apply Z.eqb_neq in Hne.
        split; [|lia]. exists i. rewrite <- Ht. done.
      * intros ((i & -> & Hi & [Hr Hfr] & _) & Hne). exists i. rewrite Hu, Ht, Hfr by lia.
        rewrite (proj2 (Z.eqb_neq i f)) by (intros ->; done). done.
    + split; [done|]. intros g (i & -> & Hi & Hfr & _). by apply (Hnone i).
  - intros b f (i & -> & Hi & [Hr _] & Hb). split.
    + destruct Hb as (_ & Hm & _). lia.
    + by rewrite Z.mod_mul by lia.
  - intros b f Hb [Hr _]. simpl. unfold deallocate.
    destruct (f / 4096 <? total_frames b); [|by exists b].
    destruct (set_frame_used_spec b (f / 4096) false Hb) as (b' & E & Hb' & _).
    + apply Z.div_pos; lia.
    + by exists b'.
Qed.

(** ** Frames are not zeroed

    The walker's [alloc_zeroed] promises a zeroed frame, but the adapter passes
    on the allocator's frame as it is.  Frame 4 backs a page whose owner stores
    one word in it; the page is unmapped and its frame reused as a page table. *)
Definition stale_root : Z := 0x100000.

Definition stale_mem : Mem :=
  let '(_, m, b) := map_page ∅ stale_root 0x400000 (4 * 4096) 7 (mkBitmap [17] 1 9) in
  let m := <[4 * 4096 + 8 := 4 * 4096 + 7]> m in
  let '(_, m, b) := unmap_page m stale_root 0x400000 b in
  let '(_, m, _) := map_page m stale_root 0x8000000000 (8 * 4096) 7 b in
  m.

(** Reused frames bring stale mappings to life: once the frame of an unmapped
    page serves as a page table, an address that was never mapped translates,
    through the word the page's owner had stored, to that page table itself,
    although the walker asks its allocator for a zeroed frame. *)
Theorem stale_frame_maps : translate stale_mem stale_root 0x8040201000 = Ok (4 * 4096).
Proof. vm_compute. reflexivity. Qed.

(** ** Witnesses *)
Lemma empty_inv {A} (avail : A -> Z -> Prop) root a :
  root mod 4096 = 0 -> ~ avail a root -> pt_inv avail ∅ root a.
Proof.
  intros Hr Ha. assert (forall p t, reach ∅ root p = Ok t -> p = [] /\ t = root) as Hp.
  { intros [|x p] t; [intros [= <-]; done|]. unfold reach. cbn [foldl].
    assert (step ∅ (Ok root) x = Err WalkOutOfMemory) as -> by (unfold step, read_word; by rewrite lookup_empty).
    by rewrite foldl_step_err. }
  split; [done|done|..].
  - intros p1 p2 t _ _ [-> _]%Hp [-> _]%Hp. done.
  - intros p t _ [_ ->]%Hp. done.
  - done.
Qed.

Definition demo_frames : BitmapFrameAllocator := mkBitmap [1] 1 9.

Lemma demo_frames_inv : bm_inv demo_frames.
Proof.
  split; [vm_compute; discriminate|]. split; [vm_compute; discriminate|].
  split; [vm_compute; discriminate|]. apply Forall_cons. split; [split; vm_compute; discriminate|done].
Qed.

Lemma demo_pt_inv : pt_inv bitmap_avail ∅ stale_root demo_frames.
Proof.
  apply empty_inv; [reflexivity|]. intros (i & Hi & _ & [[_ Ht] _] & _).
  change (total_frames demo_frames) with 9 in Ht. unfold stale_root in Hi. lia.
Qed.


(** The hierarchy in which the page at [0x400000] is mapped to frame 8. *)
Definition demo_mapped : result WalkError unit * Mem * BitmapFrameAllocator :=
  map_page ∅ stale_root 0x400000 (8 * 4096) 7 demo_frames.

Lemma demo_mapped_inv : pt_inv bitmap_avail demo_mapped.1.2 stale_root demo_mapped.2 /\ bm_inv demo_mapped.2.
Proof.
  pose proof (map_page_leaf bm_inv bitmap_avail ∅ stale_root 0x400000 (8 * 4096) 7 demo_frames
    demo_pt_inv demo_frames_inv) as Hc. fold demo_mapped in Hc.
  destruct demo_mapped as [[r m'] a']. destruct Hc as (H1 & H2 & _); [..|done].
  - split; [split; vm_compute; [discriminate|reflexivity]|reflexivity].
  - split; [vm_compute; discriminate|reflexivity].
Qed.

Lemma unmap_page_correct_witness :
  exists frame m' a', unmap_page demo_mapped.1.2 stale_root 0x400000 demo_mapped.2 = (Ok (Some frame), m', a')
  /\ 8 * 4096 = frame + page_offset_4k 0x400000.
Proof.
  destruct (unmap_page_correct bm_inv bitmap_avail demo_mapped.1.2 stale_root 0x400000 (8 * 4096) demo_mapped.2
    (proj1 demo_mapped_inv) (proj2 demo_mapped_inv)) as (frame & m' & a' & H1 & H2 & _).
  - vm_compute. reflexivity.
  - exists frame, m', a'. split; [exact H1|exact H2].
Defined.
