(* ===== verification/Handles.v ===== *)
(** * Signed handles and the per-process tables

    [fullerene-kernel/src/syscall/types.rs] (handles signed with a per-boot
    secret) and the tables of [fullerene-kernel/src/process.rs]: file
    descriptors ([FdSlotMap], [FdTable]), kernel object handles
    ([HandleTable]) and their cleanup when a process ends. *)

From S2P Require Import Prelude.

(** ** Signed handles *)
Definition READ : Z := 1.
Definition WRITE : Z := 2.
Definition SIGNAL : Z := 4.
Definition DUPLICATE : Z := 8.
Definition TRANSFER : Z := 16.

Definition init_handle_secret (seed : Z) : Z :=
  let h := u64_wrapping_add seed 0x9E3779B97F4A7C15 in
  let h := Z.lxor h (Z.shiftr h 30) in
  let h := u64_wrapping_mul h 0xBF58476D1CE4E5B9 in
  let h := Z.lxor h (Z.shiftr h 27) in
  let h := u64_wrapping_mul h 0x94D049BB133111EB in
  Z.lxor h (Z.shiftr h 31).

Definition MAC_MASK : Z := 0xFFFFFFFFFF000000.

Definition handle_mac (secret slot generation perms : Z) : Z :=
  if secret =? 0 then 0 else
  let data := Z.lor (Z.lor (Z.shiftl slot 16) (Z.shiftl generation 8)) perms in
  let h := u64_wrapping_add data secret in
  let h := Z.lxor h (Z.shiftr h 31) in
  let h := u64_wrapping_mul h 0x9E3779B97F4A7C15 in
  let h := Z.lxor h (Z.shiftr h 29) in
  let h := u64_wrapping_mul h 0xBF58476D1CE4E5B9 in
  let h := Z.lxor h (Z.shiftr h 32) in
  Z.land h MAC_MASK.

Definition Handle := Z.

Definition handle_new (secret slot generation perms : Z) : Handle :=
  Z.lor (Z.lor (Z.lor (handle_mac secret slot generation perms) (Z.shiftl slot 16)) (Z.shiftl perms 8))
    generation.

Definition h_slot (h : Handle) : Z := Z.land (Z.shiftr h 16) 255.
Definition h_generation (h : Handle) : Z := Z.land h 255.
Definition h_permissions (h : Handle) : Z := Z.land (Z.shiftr h 8) 255.

Definition is_valid (secret : Z) (h : Handle) : bool :=
  Z.land h MAC_MASK =? handle_mac secret (h_slot h) (h_generation h) (h_permissions h).

(** ** The handle table, over any type of kernel objects *)
Section Table.
Context {O : Type}.

Record HandleEntry := mkEntry { en_generation : Z; en_permissions : Z; en_object : O }.
Record HandleSlot := mkSlot { sl_generation : Z; sl_entry : option HandleEntry }.
Record HandleTable := mkHandleTable { slots : list HandleSlot }.

Definition table_new : HandleTable := mkHandleTable [].

Definition slot_free (s : HandleSlot) : bool := match sl_entry s with None => true | Some _ => false end.

(** The index of the slot, a [u16], and the table with the slot in it. *)
Definition find_free_slot (t : HandleTable) : Z * HandleTable :=
  match position slot_free (slots t) with
  | Some i => (Z.of_nat i mod 2 ^ 16, t)
  | None => (Z.of_nat (length (slots t)) mod 2 ^ 16, mkHandleTable (slots t ++ [mkSlot 0 None]))
  end.

Definition default_perms : Z := Z.lor (Z.lor (Z.lor (Z.lor READ WRITE) SIGNAL) DUPLICATE) TRANSFER.

(** The handle carries the slot index truncated to [u8]; indexing past the table panics. *)
Definition table_alloc (secret : Z) (t : HandleTable) (object : O) : result unit (Handle * HandleTable) :=
  let '(slot_idx, t) := find_free_slot t in
  match slots t !! Z.to_nat slot_idx with
  | None => Panic
  | Some s =>
    let g := u8_wrapping_add (sl_generation s) 1 in
    let s' := mkSlot g (Some (mkEntry g default_perms object)) in
    Ok (handle_new secret (slot_idx mod 2 ^ 8) g default_perms,
        mkHandleTable (<[Z.to_nat slot_idx := s']> (slots t)))
  end.

(** The entry a handle designates: [get], [get_mut] and [check_perm] look it up. *)
Definition handle_entry (secret : Z) (t : HandleTable) (h : Handle) : option HandleEntry :=
  if negb (is_valid secret h) then None else
  match slots t !! Z.to_nat (h_slot h) with
  | Some (mkSlot _ (Some e)) => if en_generation e =? h_generation h then Some e else None
  | _ => None
  end.

Definition table_get (secret : Z) (t : HandleTable) (h : Handle) : option O :=
  en_object <$> handle_entry secret t h.

Definition table_remove (secret : Z) (t : HandleTable) (h : Handle) : option O * HandleTable :=
  if negb (is_valid secret h) then (None, t) else
  match slots t !! Z.to_nat (h_slot h) with
  | Some (mkSlot g (Some e)) =>
    if en_generation e =? h_generation h
    then (Some (en_object e), mkHandleTable (<[Z.to_nat (h_slot h) := mkSlot g None]> (slots t)))
    else (None, t)
  | _ => (None, t)
  end.

Definition check_perm (secret : Z) (t : HandleTable) (h : Handle) (required : Z) : bool :=
  match handle_entry secret t h with
  | Some e => Z.land (en_permissions e) required =? required
  | None => false
  end.

(** [entries()]: the handles of the occupied slots, in slot order. *)
Definition table_entries (secret : Z) (t : HandleTable) : list (Handle * O) :=
  omap id (imap (fun i s =>
    match sl_entry s with
    | Some e => Some (handle_new secret (Z.of_nat i mod 2 ^ 8) (en_generation e) (en_permissions e), en_object e)
    | None => None
    end) (slots t)).
End Table.
Arguments HandleEntry : clear implicits.
Arguments HandleSlot : clear implicits.
Arguments HandleTable : clear implicits.

(** ** File descriptors *)
Section Fds.
Context {D : Type}.

Record FdSlotMap := mkFds { fd_slots : list (option D) }.

Definition fds_new : FdSlotMap := mkFds [None; None; None].

Definition fds_insert (m : FdSlotMap) (fd : Z) (value : D) : option D * FdSlotMap :=
  let index := Z.to_nat fd in
  let slots := if (length (fd_slots m) <=? index)%nat
               then fd_slots m ++ replicate (index + 1 - length (fd_slots m)) None
               else fd_slots m in
  (default None (slots !! index), mkFds (<[index := Some value]> slots)).

Definition fds_get (m : FdSlotMap) (fd : Z) : option D := default None (fd_slots m !! Z.to_nat fd).

Definition fds_remove (m : FdSlotMap) (fd : Z) : option D * FdSlotMap :=
  match fd_slots m !! Z.to_nat fd with
  | None => (None, m)
  | Some v => (v, mkFds (<[Z.to_nat fd := None]> (fd_slots m)))
  end.

Definition contains_key (m : FdSlotMap) (fd : Z) : bool :=
  match fd_slots m !! Z.to_nat fd with Some (Some _) => true | _ => false end.

Definition fds_clear (m : FdSlotMap) : FdSlotMap :=
  mkFds (take 3 (fd_slots m) ++ replicate (length (fd_slots m) - 3) None).

Definition is_free (s : option D) : bool := match s with None => true | Some _ => false end.

(** [index as u32] truncates. *)
Definition first_free_from (m : FdSlotMap) (start : Z) : option Z :=
  match position is_free (drop (Z.to_nat start) (fd_slots m)) with
  | Some i => Some ((start + Z.of_nat i) mod 2 ^ 32)
  | None => None
  end.

Definition fd_alloc (m : FdSlotMap) (value : D) : result unit Z * FdSlotMap :=
  let fd := match first_free_from m 3 with
            | Some fd => Some fd
            | None => if Z.of_nat (length (fd_slots m)) <=? u32_max
                      then Some (Z.of_nat (length (fd_slots m))) else None
            end in
  match fd with
  | None => (Err tt, m)
  | Some fd => (Ok fd, (fds_insert m fd value).2)
  end.
End Fds.
Arguments FdSlotMap : clear implicits.

(** ** Kernel objects and the cleanup of a process

    Events, threads and channels are shared between processes through
    reference-counted cells: an object holds the address of its cell, and the
    store maps it to the processes waiting there. *)
Inductive KernelObject : Type :=
| Event (cell : Z)
| Thread (cell : Z)
| Window (window_id pid : Z)
| Device
| Channel (cell : Z)
| Pipe (buffer : Z) (is_read_end : bool)
| TimerObj (deadline_ns : Z) (event_handle : Handle) (fired : bool).

Abbreviation Waiters := (gmap Z (list Z)).

(** The kernel state the cleanup touches: waiter lists and window visibility. *)
Record Shared := mkShared { waiters : Waiters; hidden_windows : list Z }.

Record ProcessResources (D : Type) := mkResources {
  fd_table : FdSlotMap D;
  handle_table : HandleTable KernelObject;
  subscriptions : list (Z * Z)
}.
Arguments mkResources {D} _ _ _.
Arguments fd_table {D} _. Arguments handle_table {D} _. Arguments subscriptions {D} _.

Definition resources_new {D} : ProcessResources D := mkResources fds_new table_new [].

(** [to_unblock.append(&mut inner.waiters)] leaves the cell's list empty. *)
Definition take_waiters (sh : Shared) (cell : Z) : list Z * Shared :=
  (default [] (waiters sh !! cell), mkShared (<[cell := []]> (waiters sh)) (hidden_windows sh)).

Definition release (sh : Shared) (o : KernelObject) : list Z * Shared :=
  match o with
  | Event c | Thread c | Channel c => take_waiters sh c
  | Window w _ => ([], mkShared (waiters sh) (w :: hidden_windows sh))
  | _ => ([], sh)
  end.

Fixpoint cleanup_handles (secret : Z) (hs : list Handle) (t : HandleTable KernelObject) (sh : Shared) :
    list Z * HandleTable KernelObject * Shared :=
  match hs with
  | [] => ([], t, sh)
  | h :: hs =>
    let '(o, t) := table_remove secret t h in
    let '(ws, sh) := match o with Some o => release sh o | None => ([], sh) end in
    let '(ws', t, sh) := cleanup_handles secret hs t sh in
    (ws ++ ws', t, sh)
  end.

Definition cleanup {D} (secret : Z) (r : ProcessResources D) (sh : Shared) :
    list Z * ProcessResources D * Shared :=
  let '(to_unblock, t, sh) :=
    cleanup_handles secret (map fst (table_entries secret (handle_table r))) (handle_table r) sh in
  (to_unblock, mkResources (fds_clear (fd_table r)) t (subscriptions r), sh).

(** Linear arithmetic with quotients and remainders by constants. *)
Ltac divmod_lia := Z.to_euclidean_division_equations; lia.

(** ** Handles as numbers *)
Lemma lor_add a b n : 0 <= n -> 0 <= b < 2 ^ n -> Z.lor (a * 2 ^ n) b = a * 2 ^ n + b.
Proof.
  intros Hn Hb. assert (Z.land (a * 2 ^ n) b = 0) as H0.
  { apply Z.bits_inj'. intros k Hk. rewrite Z.land_spec, Z.bits_0.
    destruct (Z.lt_ge_cases k n).
    - rewrite Z.mul_pow2_bits_low by lia. done.
    - destruct (Z.eq_dec b 0) as [->|]; [by rewrite Z.bits_0, andb_false_r|].
      rewrite (Z.bits_above_log2 b k); [apply andb_false_r|lia|].
      assert (Z.log2 b < n) by (apply Z.log2_lt_pow2; lia). lia. }
  by rewrite Z.add_nocarry_lxor, Z.lxor_lor by done.
Qed.

Lemma land_mac_mask h : 0 <= h -> Z.land h MAC_MASK = (h / 2 ^ 24 mod 2 ^ 40) * 2 ^ 24.
Proof.
  intros Hh. change MAC_MASK with (Z.shiftl (Z.ones 40) 24).
  rewrite <- (Z.shiftl_mul_pow2 _ 24), <- Z.land_ones, <- Z.shiftr_div_pow2 by lia.
  apply Z.bits_inj'. intros k Hk. rewrite Z.land_spec. destruct (Z.lt_ge_cases k 24).
  - rewrite !Z.shiftl_spec_low by lia. apply andb_false_r.
  - rewrite !Z.shiftl_spec, Z.land_spec, Z.shiftr_spec by lia. f_equal. f_equal. lia.
Qed.

Lemma handle_mac_spec secret s g p : 0 <= secret < 2 ^ 64 ->
  exists k, 0 <= k < 2 ^ 40 /\ handle_mac secret s g p = k * 2 ^ 24.
Proof.
  intros Hs. unfold handle_mac. destruct (secret =? 0); [by exists 0|].
  set (h := Z.lxor _ (Z.shiftr _ 32)).
  assert (0 <= h).
  { apply Z.lxor_nonneg. split; intros _.
    - apply Z.shiftr_nonneg, Z.mod_pos_bound. lia.
    - apply Z.mod_pos_bound. lia. }
  rewrite land_mac_mask by done. eexists. split; [apply Z.mod_pos_bound; lia|done].
Qed.

Definition byte (x : Z) : Prop := 0 <= x < 256.

Lemma handle_new_value secret s g p : 0 <= secret < 2 ^ 64 -> byte s -> byte g -> byte p ->
  exists k, 0 <= k < 2 ^ 40 /\ handle_mac secret s g p = k * 2 ^ 24
  /\ handle_new secret s g p = ((k * 256 + s) * 256 + p) * 256 + g.
Proof.
  unfold byte. intros Hsec Hs Hg Hp. destruct (handle_mac_spec secret s g p Hsec) as (k & Hk & Em).
  exists k. split; [done|]. split; [done|]. unfold handle_new. rewrite Em, !Z.shiftl_mul_pow2 by lia.
  rewrite (lor_add k (s * 2 ^ 16) 24) by lia.
  replace (k * 2 ^ 24 + s * 2 ^ 16) with ((k * 256 + s) * 2 ^ 16) by lia.
  rewrite (lor_add _ (p * 2 ^ 8) 16) by lia.
  replace ((k * 256 + s) * 2 ^ 16 + p * 2 ^ 8) with (((k * 256 + s) * 256 + p) * 2 ^ 8) by lia.
  by rewrite (lor_add _ g 8) by lia.
Qed.

Lemma handle_fields h : 0 <= h ->
  h_slot h = h / 65536 mod 256 /\ h_permissions h = h / 256 mod 256 /\ h_generation h = h mod 256.
Proof.
  intros Hh. unfold h_slot, h_permissions, h_generation. change 255 with (Z.ones 8).
  rewrite !Z.land_ones, !Z.shiftr_div_pow2 by lia. done.
Qed.

Lemma handle_new_fields secret s g p : 0 <= secret < 2 ^ 64 -> byte s -> byte g -> byte p ->
  h_slot (handle_new secret s g p) = s /\ h_generation (handle_new secret s g p) = g
  /\ h_permissions (handle_new secret s g p) = p /\ is_valid secret (handle_new secret s g p) = true
  /\ 0 <= handle_new secret s g p < 2 ^ 64.
Proof.
  intros Hsec Hs Hg Hp. destruct (handle_new_value secret s g p Hsec Hs Hg Hp) as (k & Hk & Em & E).
  unfold byte in *. assert (0 <= handle_new secret s g p < 2 ^ 64) as Hr by (rewrite E; lia).
  destruct (handle_fields _ (proj1 Hr)) as (H1 & H2 & H3).
  assert (h_slot (handle_new secret s g p) = s) as E1 by (rewrite H1, E; divmod_lia).
  assert (h_generation (handle_new secret s g p) = g) as E2 by (rewrite H3, E; divmod_lia).
  assert (h_permissions (handle_new secret s g p) = p) as E3 by (rewrite H2, E; divmod_lia).
  split_and!; try done; try apply Hr. unfold is_valid. rewrite E1, E2, E3, Em, land_mac_mask, E by lia.
  apply Z.eqb_eq. divmod_lia.
Qed.

(** A handle passes the signature check iff it is exactly the one the kernel
    would issue for its slot, generation and permissions: changing any field or
    any bit of the signature of an issued handle invalidates it unless the
    result is itself an issued value. *)
Theorem is_valid_issued (secret h : Z) : 0 <= secret < 2 ^ 64 -> 0 <= h < 2 ^ 64 ->
  is_valid secret h = true <->
  h = handle_new secret (h_slot h) (h_generation h) (h_permissions h).
Proof.
  intros Hsec Hh. destruct (handle_fields h (proj1 Hh)) as (H1 & H2 & H3).
  assert (byte (h_slot h) /\ byte (h_generation h) /\ byte (h_permissions h)) as (Hs & Hg & Hp).
  { unfold byte. rewrite H1, H2, H3. split_and!; apply Z.mod_pos_bound; lia. }
  split.
  - intros Hv. unfold is_valid in Hv. apply Z.eqb_eq in Hv.
    destruct (handle_new_value secret _ _ _ Hsec Hs Hg Hp) as (k & Hk & Em & E).
    rewrite Em, land_mac_mask in Hv by lia. rewrite E, H1, H2, H3. divmod_lia.
  - intros E. rewrite E. by apply handle_new_fields.
Qed.

(** ** The table invariant *)
Section TableLaws.
Context {O : Type} (secret : Z) (Hsec : 0 <= secret < 2 ^ 64).
Implicit Types (t : HandleTable O) (h : Handle).

Definition slot_ok (s : HandleSlot O) : Prop :=
  byte (sl_generation s) /\
  match sl_entry s with
  | Some e => en_generation e = sl_generation s /\ en_permissions e = default_perms
  | None => True
  end.
Definition table_ok t : Prop := Forall slot_ok (slots t).

(** A slot of the first 256 is free or can be added. *)
Definition has_room t : Prop :=
  (length (slots t) < 256)%nat
  \/ exists i s, (i < 256)%nat /\ slots t !! i = Some s /\ sl_entry s = None.

Lemma wrap_byte g : byte (u8_wrapping_add g 1).
Proof. unfold byte, u8_wrapping_add. apply Z.mod_pos_bound. lia. Qed.

Lemma get_entry t h o :
  table_get secret t h = Some o <->
  is_valid secret h = true /\ exists g e, slots t !! Z.to_nat (h_slot h) = Some (mkSlot g (Some e))
  /\ en_generation e = h_generation h /\ en_object e = o.
Proof.
  unfold table_get, handle_entry. destruct (is_valid secret h); cbn [negb].
  2: { split; [done|]. by intros [? _]. }
  destruct (slots t !! Z.to_nat (h_slot h)) as [[g [e|]]|].
  2,3: split; [done|]; intros (_ & g' & e & E & _); done.
  destruct (Z.eqb_spec (en_generation e) (h_generation h)) as [Hg|Hg]; cbn [fmap option_fmap option_map]; split.
  - intros [= <-]. split; [done|]. by exists g, e.
  - intros (_ & g' & e' & [= <- <-] & _ & <-). done.
  - done.
  - intros (_ & g' & e' & [= <- <-] & Hg' & _). done.
Qed.

(** What an allocation does to the slots, whatever the size of the table. *)
Lemma alloc_slots t o h t' :
  table_alloc secret t o = Ok (h, t') ->
  exists i s, slots t' = <[i := mkSlot (u8_wrapping_add (sl_generation s) 1)
                (Some (mkEntry (u8_wrapping_add (sl_generation s) 1) default_perms o))]>
                (slots (find_free_slot t).2)
  /\ slots (find_free_slot t).2 !! i = Some s
  /\ (slots (find_free_slot t).2 = slots t \/ slots (find_free_slot t).2 = slots t ++ [mkSlot 0 None]).
Proof.
  unfold table_alloc, find_free_slot. destruct (position slot_free (slots t)) as [i|].
  - simpl. destruct (slots t !! _) as [s|] eqn:Es; [|done]. intros [= <- <-]. eexists _, s.
    split; [done|]. split; [done|]. by left.
  - simpl. destruct (_ !! _) as [s|] eqn:Es; [|done]. intros [= <- <-]. eexists _, s.
    split; [done|]. split; [done|]. by right.
Qed.

Lemma alloc_spec t o : table_ok t -> has_room t ->
  exists i s base, (i < 256)%nat /\ base !! i = Some s /\ sl_entry s = None
  /\ (base = slots t \/ base = slots t ++ [mkSlot 0 None])
  /\ table_alloc secret t o = Ok (
       handle_new secret (Z.of_nat i) (u8_wrapping_add (sl_generation s) 1) default_perms,
       mkHandleTable (<[i := mkSlot (u8_wrapping_add (sl_generation s) 1)
         (Some (mkEntry (u8_wrapping_add (sl_generation s) 1) default_perms o))]> base)).
Proof.
  intros Hok Hroom. unfold table_alloc, find_free_slot.
  destruct (position slot_free (slots t)) as [i|] eqn:Ep; simpl.
  - destruct (position_Some _ _ _ Ep) as (s & Es & Hf & Hmin). apply lookup_lt_Some in Es as Hlt.
    assert (i < 256)%nat as Hi.
    { destruct Hroom as [?|(j & sj & Hj & Ej & Ee)]; [lia|].
      destruct (Nat.lt_ge_cases j i); [|lia].
      assert (slot_free sj = false) as Hc by (by eapply Hmin). unfold slot_free in Hc. by rewrite Ee in Hc. }
    rewrite !Z.mod_small by lia. rewrite Nat2Z.id, Es. exists i, s, (slots t).
    split_and!; try done; [|by left]. unfold slot_free in Hf. by destruct (sl_entry s).
  - assert (length (slots t) < 256)%nat as Hl.
    { destruct Hroom as [?|(j & sj & Hj & Ej & Ee)]; [done|].
      pose proof (position_None _ _ Ep _ _ Ej) as Hc. unfold slot_free in Hc. by rewrite Ee in Hc. }
    rewrite !Z.mod_small by lia. rewrite Nat2Z.id.
    rewrite lookup_app_r, Nat.sub_diag by lia. simpl.
    exists (length (slots t)), (mkSlot 0 None), (slots t ++ [mkSlot 0 None]).
    split_and!; try done; [|by right]. by rewrite lookup_app_r, Nat.sub_diag by lia.
Qed.

Lemma base_ok t base : table_ok t ->
  base = slots t \/ base = slots t ++ [mkSlot 0 None] -> Forall slot_ok base.
Proof.
  intros Hok [->| ->]; [done|]. apply Forall_app. split; [done|]. apply Forall_cons.
  split; [|done]. split; [unfold byte; simpl; lia|done].
Qed.

(** Allocating a handle while one of the first 256 slots is free: the new handle
    is signed, designates the new object with the default permissions, and
    every handle that was live stays live, designates the same object and
    differs from the new one. *)
Theorem alloc_get_handle t (o : O) : table_ok t -> has_room t ->
  exists h t', table_alloc secret t o = Ok (h, t') /\ table_ok t'
  /\ table_get secret t' h = Some o /\ check_perm secret t' h default_perms = true
  /\ forall h' o', table_get secret t h' = Some o' -> table_get secret t' h' = Some o' /\ h' <> h.
Proof.
  intros Hok Hroom. destruct (alloc_spec t o Hok Hroom) as (i & s & base & Hi & Es & Ee & Hbase & E).
  set (g := u8_wrapping_add (sl_generation s) 1) in *.
  eexists _, _. split; [exact E|].
  destruct (handle_new_fields secret (Z.of_nat i) g default_perms Hsec) as (F1 & F2 & _ & F4 & _);
    [unfold byte; lia|apply wrap_byte|split; vm_compute; [discriminate|reflexivity]|].
  set (h := handle_new secret (Z.of_nat i) g default_perms) in *.
  assert (handle_entry secret (mkHandleTable (<[i := mkSlot g (Some (mkEntry g default_perms o))]> base)) h
    = Some (mkEntry g default_perms o)) as He.
  { unfold handle_entry. rewrite F4, F1, Nat2Z.id. cbn [negb slots].
    rewrite list_lookup_insert_eq by (by eapply lookup_lt_Some). cbn [en_generation]. by rewrite F2, Z.eqb_refl. }
  split; [|split; [|split]].
  - apply Forall_insert; [by eapply base_ok|]. split; [apply wrap_byte|done].
  - unfold table_get. by rewrite He.
  - unfold check_perm. rewrite He. cbn [en_permissions]. by rewrite Z.land_diag, Z.eqb_refl.
  - intros h' o' Hg. apply get_entry in Hg as (Hv & g' & e & Hl & Hge & Hob).
    assert (Z.to_nat (h_slot h') <> i) as Hne.
    { intros Hx. rewrite Hx in Hl. assert (base !! i = Some (mkSlot g' (Some e))) as Hb.
      { destruct Hbase as [->| ->]; [done|]. by apply lookup_app_l_Some. }
      rewrite Es in Hb. injection Hb as ->. done. }
    split.
    + apply get_entry. split; [done|]. exists g', e. split; [|done]. simpl.
      rewrite list_lookup_insert_ne by done. destruct Hbase as [->| ->]; [done|]. by apply lookup_app_l_Some.
    + intros ->. rewrite F1, Nat2Z.id in Hne. done.
Qed.

(** *** Stale handles *)
Inductive table_op := TAlloc (o : O) | TRemove (h : Handle).

Definition table_step t (op : table_op) : HandleTable O :=
  match op with
  | TAlloc o => match table_alloc secret t o with Ok (_, t') => t' | _ => t end
  | TRemove h => (table_remove secret t h).2
  end.

Definition allocs (ops : list table_op) : Z :=
  Z.of_nat (length (filter (fun op => match op with TAlloc _ => true | TRemove _ => false end = true) ops)).

(** Slot [i] has been allocated [k] times since its generation was [g] and it was free. *)
Definition reused t (i : nat) (g k : Z) : Prop :=
  exists s, slots t !! i = Some s /\ sl_generation s = (g + k) mod 256
  /\ match sl_entry s with
     | Some e => en_generation e = (g + k) mod 256 /\ 1 <= k
     | None => True
     end.

Lemma reused_step t op i g k : byte g -> 0 <= k -> reused t i g k ->
  exists k', k <= k' <= k + allocs [op] /\ reused (table_step t op) i g k'.
Proof.
  intros Hg Hk (s & Es & Hgen & He). destruct op as [o|h]; simpl.
  - change (allocs [TAlloc o]) with 1.
    destruct (table_alloc secret t o) as [[h t']|e|] eqn:E; [|exists k; split; [lia|by exists s]..].
    destruct (alloc_slots t o h t' E) as (j & sj & Hs & Ej & Hbase).
    assert (slots (find_free_slot t).2 !! i = Some s) as Es'.
    { destruct Hbase as [->| ->]; [done|]. by apply lookup_app_l_Some. }
    destruct (decide (i = j)) as [->|Hne].
    + exists (k + 1). split; [lia|]. rewrite Ej in Es'. injection Es' as ->.
      eexists. rewrite Hs, list_lookup_insert_eq by (by eapply lookup_lt_Some). split; [done|].
      cbn [sl_generation sl_entry en_generation]. unfold u8_wrapping_add. change (2 ^ 8) with 256.
      rewrite Hgen, Z.add_mod_idemp_l, Z.add_assoc by lia. split; [done|]. split; [done|lia].
    + exists k. split; [lia|]. exists s. rewrite Hs, list_lookup_insert_ne by done. done.
  - exists k. split; [change (allocs [TRemove h]) with 0; lia|].
    unfold table_remove. destruct (is_valid secret h); [|by exists s]. cbn [negb].
    destruct (slots t !! Z.to_nat (h_slot h)) as [[g' [e|]]|] eqn:El; [|by exists s..].
    destruct (en_generation e =? h_generation h); [|by exists s]. cbn [snd].
    destruct (decide (i = Z.to_nat (h_slot h))) as [->|Hne].
    + rewrite Es in El. injection El as ->. exists (mkSlot g' None). cbn [slots].
      rewrite list_lookup_insert_eq by (by eapply lookup_lt_Some). done.
    + exists s. cbn [slots]. by rewrite list_lookup_insert_ne.
Qed.

Lemma allocs_cons op ops : allocs (op :: ops) = allocs [op] + allocs ops.
Proof. unfold allocs. rewrite !filter_cons. repeat case_decide; simpl; lia. Qed.

Lemma reused_run ops : forall t i g k, byte g -> 0 <= k -> reused t i g k ->
  exists k', k <= k' <= k + allocs ops /\ reused (foldl table_step t ops) i g k'.
Proof.
  induction ops as [|op ops IH]; intros t i g k Hg Hk Hr; simpl.
  - exists k. split; [change (allocs []) with 0; lia|done].
  - destruct (reused_step t op i g k Hg Hk Hr) as (k1 & Hk1 & Hr1).
    destruct (IH _ i g k1 Hg ltac:(lia) Hr1) as (k2 & Hk2 & Hr2).
    exists k2. rewrite (allocs_cons op ops). split; [lia|done].
Qed.

(** C34. A removed handle stays dead: through any further allocations and removals,
    as long as fewer than 256 allocations intervene (the width of the
    generation counter), looking it up fails. *)
Theorem stale_handle_rejected t (h : Handle) (o : O) (t1 : HandleTable O) (ops : list table_op) :
  table_ok t -> 0 <= h -> table_remove secret t h = (Some o, t1) -> allocs ops < 256 ->
  table_get secret (foldl table_step t1 ops) h = None.
Proof.
  intros Hok Hh Hrem Hn. unfold table_remove in Hrem.
  destruct (is_valid secret h) eqn:Ev; [|done]. cbn [negb] in Hrem.
  destruct (slots t !! Z.to_nat (h_slot h)) as [[g' [e|]]|] eqn:El; [|done..].
  destruct (Z.eqb_spec (en_generation e) (h_generation h)) as [Hge|]; [|done]. injection Hrem as _ <-.
  pose proof (Forall_lookup_1 _ _ _ _ Hok El) as [Hb [Hee _]]. cbn [sl_generation sl_entry] in *.
  assert (byte (h_generation h)) as Hbg by (rewrite <- Hge, Hee; done).
  destruct (reused_run ops (mkHandleTable (<[Z.to_nat (h_slot h) := mkSlot g' None]> (slots t)))
    (Z.to_nat (h_slot h)) (h_generation h) 0 Hbg ltac:(lia)) as (k & Hk & s & Es & Hgen & He).
  { exists (mkSlot g' None). cbn [slots]. rewrite list_lookup_insert_eq by (by eapply lookup_lt_Some).
    split; [done|]. cbn [sl_generation sl_entry]. split; [|done].
    unfold byte in Hbg. rewrite Z.add_0_r, Z.mod_small by lia. congruence. }
  apply eq_None_not_Some. intros [x Hx]. apply get_entry in Hx as (_ & gx & ex & Hl & Hgx & _).
  rewrite Es in Hl. injection Hl as ->. cbn [sl_entry] in He. destruct He as [He Hk1].
  rewrite He in Hgx. unfold byte in Hbg. divmod_lia.
Qed.
End TableLaws.

(** ** More than 256 handles *)
Fixpoint alloc_many (secret : Z) (n : nat) (t : HandleTable nat) : list Handle * HandleTable nat :=
  match n with
  | O => ([], t)
  | S n => let '(hs, t) := alloc_many secret n t in
           match table_alloc secret t n with
           | Ok (h, t) => (hs ++ [h], t)
           | _ => (hs, t)
           end
  end.

(** The handle of the 257th object of a process is the handle of the first: the
    slot index is truncated to 8 bits, both handles are the same signed value,
    and looking it up yields the first object. *)
Theorem handles_collide (secret := init_handle_secret 42) :
  let '(hs, t) := alloc_many secret 257 table_new in
  match hs !! 0%nat, hs !! 256%nat with
  | Some first, Some last => first = last /\ table_get secret t last = Some 0%nat
  | _, _ => False
  end.
Proof. vm_compute. split; reflexivity. Qed.

(** ** Descriptors *)
Section FdLaws.
Context {D : Type}.
Implicit Type m : FdSlotMap D.

Definition fds_ok m : Prop := 3 <= Z.of_nat (length (fd_slots m)) <= u32_max.

(** The lowest free descriptor from 3 on, within the table or just past it. *)
Lemma fd_alloc_spec m v : fds_ok m ->
  exists fd, fd_alloc m v = (Ok fd, (fds_insert m fd v).2) /\ 3 <= fd <= Z.of_nat (length (fd_slots m))
  /\ contains_key m fd = false /\ forall j, 3 <= j < fd -> contains_key m j = true.
Proof.
  intros [Hl Hu]. unfold fd_alloc, first_free_from.
  assert (forall j s, fd_slots m !! Z.to_nat j = Some s -> is_free s = false -> contains_key m j = true) as Hkey.
  { intros j s Hj Hs. unfold contains_key. rewrite Hj. by destruct s. }
  destruct (position is_free (drop (Z.to_nat 3) (fd_slots m))) as [i|] eqn:Ep.
  - destruct (position_Some _ _ _ Ep) as (s & Es & Hf & Hmin). rewrite lookup_drop in Es.
    apply lookup_lt_Some in Es as Hlt. rewrite Z.mod_small by (unfold u32_max in Hu; lia).
    exists (3 + Z.of_nat i). split; [done|]. split; [lia|]. split.
    + unfold contains_key. replace (Z.to_nat (3 + Z.of_nat i)) with (Z.to_nat 3 + i)%nat by lia.
      rewrite Es. by destruct s.
    + intros j Hj. destruct (lookup_lt_is_Some_2 (fd_slots m) (Z.to_nat j)) as [sj Ej]; [lia|].
      eapply Hkey; [done|]. apply (Hmin (Z.to_nat j - 3)%nat); [lia|]. rewrite lookup_drop, <- Ej. f_equal. lia.
  - rewrite (proj2 (Z.leb_le _ u32_max)) by done. eexists. split; [done|]. split; [lia|]. split.
    + unfold contains_key. rewrite Nat2Z.id, lookup_ge_None_2 by lia. done.
    + intros j Hj. destruct (lookup_lt_is_Some_2 (fd_slots m) (Z.to_nat j)) as [sj Ej]; [lia|].
      eapply Hkey; [done|]. apply (position_None _ _ Ep (Z.to_nat j - 3)%nat). rewrite lookup_drop, <- Ej. f_equal. lia.
Qed.

Lemma fds_insert_get m fd v j : 0 <= fd -> 0 <= j ->
  fds_get (fds_insert m fd v).2 j = if j =? fd then Some v else fds_get m j.
Proof.
  intros Hfd Hj. unfold fds_get, fds_insert. simpl.
  set (l := if (_ <=? _)%nat then _ else fd_slots m).
  assert (Z.to_nat fd < length l)%nat as Hlt.
  { unfold l. destruct (Nat.leb_spec (length (fd_slots m)) (Z.to_nat fd)); [|lia].
    rewrite length_app, length_replicate. lia. }
  destruct (Z.eqb_spec j fd) as [->|Hne]; [by rewrite list_lookup_insert_eq|].
  rewrite list_lookup_insert_ne by lia. unfold l.
  destruct (Nat.leb_spec (length (fd_slots m)) (Z.to_nat fd)); [|done].
  destruct (Nat.lt_ge_cases (Z.to_nat j) (length (fd_slots m))) as [Hin|Hout].
  - by rewrite lookup_app_l.
  - rewrite lookup_app_r, (lookup_ge_None_2 (fd_slots m)) by done. simpl.
    destruct (replicate (Z.to_nat fd + 1 - length (fd_slots m)) (@None D) !! (Z.to_nat j - length (fd_slots m))%nat)
      as [x|] eqn:Ex; [|done].
    by apply lookup_replicate in Ex as [-> _].
Qed.

(** Descriptor allocation returns the lowest descriptor from 3 on that is not
    in use, binds it, and changes no other descriptor. *)
Theorem fd_alloc_lowest m (v : D) : fds_ok m ->
  exists fd m', fd_alloc m v = (Ok fd, m') /\ 3 <= fd
  /\ contains_key m fd = false /\ (forall j, 3 <= j < fd -> contains_key m j = true)
  /\ forall j, 0 <= j -> fds_get m' j = if j =? fd then Some v else fds_get m j.
Proof.
  intros Hok. destruct (fd_alloc_spec m v Hok) as (fd & E & Hr & Hc & Hmin).
  exists fd, (fds_insert m fd v).2. split_and!; try done; [lia|].
  intros j Hj. apply fds_insert_get; lia.
Qed.

Lemma fds_clear_get m fd : 3 <= fd -> fds_get (fds_clear m) fd = None.
Proof.
  intros Hfd. unfold fds_get, fds_clear. simpl.
  destruct ((take 3 (fd_slots m) ++ _) !! Z.to_nat fd) as [x|] eqn:E; [|done].
  apply lookup_app_Some in E as [E|[_ E]].
  - apply lookup_lt_Some in E. rewrite length_take in E. lia.
  - by apply lookup_replicate in E as [-> _].
Qed.
End FdLaws.

(** ** Cleanup *)
Definition cell_of (o : KernelObject) : option Z :=
  match o with Event c | Thread c | Channel c => Some c | _ => None end.

(** Slot [i] of the table holds entry [e]. *)
Definition holds {O} (t : HandleTable O) (i : nat) (e : HandleEntry O) : Prop :=
  exists g, slots t !! i = Some (mkSlot g (Some e)).

Definition handle_of {O} (secret : Z) (i : nat) (e : HandleEntry O) : Handle :=
  handle_new secret (Z.of_nat i mod 2 ^ 8) (en_generation e) (en_permissions e).

Section Cleanup.
Context (secret : Z) (Hsec : 0 <= secret < 2 ^ 64).

Definition small {O} (t : HandleTable O) : Prop := table_ok t /\ (length (slots t) <= 256)%nat.

Lemma holds_valid {O} (t : HandleTable O) i e : small t -> holds t i e ->
  is_valid secret (handle_of secret i e) = true /\ Z.to_nat (h_slot (handle_of secret i e)) = i
  /\ h_generation (handle_of secret i e) = en_generation e.
Proof.
  intros [Hok Hl] [g Hg]. apply lookup_lt_Some in Hg as Hlt.
  pose proof (Forall_lookup_1 _ _ _ _ Hok Hg) as [Hb [H1 H2]]. simpl in *.
  destruct (handle_new_fields secret (Z.of_nat i mod 2 ^ 8) (en_generation e) (en_permissions e) Hsec)
    as (F1 & F2 & _ & F4 & _).
  - rewrite Z.mod_small by lia. unfold byte. lia.
  - by rewrite H1.
  - rewrite H2. split; vm_compute; [discriminate|reflexivity].
  - unfold handle_of. split_and!; [exact F4|rewrite F1, Z.mod_small; lia|exact F2].
Qed.

Lemma remove_cases {O} (t : HandleTable O) h : small t ->
  (exists e t', holds t (Z.to_nat (h_slot h)) e /\ table_remove secret t h = (Some (en_object e), t')
     /\ small t' /\ forall j e', holds t' j e' <-> holds t j e' /\ j <> Z.to_nat (h_slot h))
  \/ (table_remove secret t h = (None, t) /\ forall i e, holds t i e -> handle_of secret i e <> h).
Proof.
  intros Hs. set (i := Z.to_nat (h_slot h)).
  assert (forall r, (forall e, holds t i e -> is_valid secret h = true -> en_generation e <> h_generation h) ->
    table_remove secret t h = r -> r = (None, t) ->
    table_remove secret t h = (None, t) /\ forall i e, holds t i e -> handle_of secret i e <> h) as Hmiss.
  { intros r Hno Hr ->. split; [done|]. intros j e Hj <-.
    destruct (holds_valid t j e Hs Hj) as (Hv & Hi & Hg). unfold i in Hno. rewrite Hi in Hno.
    by apply (Hno e Hj Hv). }
  unfold table_remove in *. fold i in Hmiss |- *.
  destruct (is_valid secret h) eqn:Ev; cbn [negb] in *; [|right; by eapply Hmiss].
  destruct (slots t !! i) as [[g [e|]]|] eqn:El.
  - destruct (Z.eqb_spec (en_generation e) (h_generation h)) as [Hg|Hg].
    + left. exists e. eexists. split; [by exists g|]. split; [done|].
      apply lookup_lt_Some in El as Hlt. split.
      * destruct Hs as [Hok Hl]. split; [|cbn [slots]; rewrite length_insert; exact Hl].
        apply Forall_insert; [done|]. pose proof (Forall_lookup_1 _ _ _ _ Hok El) as [Hb _]. by split.
      * intros j e'. unfold holds. cbn [slots]. destruct (decide (j = i)) as [->|Hne].
        -- rewrite list_lookup_insert_eq by done. split; [by intros [? ?]|by intros [_ ?]].
        -- rewrite list_lookup_insert_ne by done. split; [done|by intros [? _]].
    + right. eapply Hmiss; [|done..]. intros e' [g' He'] _. congruence.
  - right. eapply Hmiss; [|done..]. intros e' [g' He'] _. congruence.
  - right. eapply Hmiss; [|done..]. intros e' [g' He'] _. congruence.
Qed.

(** Releasing an object takes the waiters of its cell and of no other. *)
Lemma release_waiters sh o ws sh' c : release sh o = (ws, sh') ->
  if decide (cell_of o = Some c) then ws = default [] (waiters sh !! c) else waiters sh' !! c = waiters sh !! c.
Proof.
  unfold release, cell_of, take_waiters. intros Er.
  destruct o; injection Er as <- <-; case_decide as Hc; try done; simplify_eq; try done;
    simpl; rewrite lookup_insert_ne; congruence.
Qed.

Lemma cleanup_handles_spec hs : forall t sh,
  small t -> (forall i e, holds t i e -> handle_of secret i e ∈ hs) ->
  match cleanup_handles secret hs t sh with
  | (ws, t', sh') => small t' /\ (forall i e, ~ holds t' i e)
    /\ forall i e c pid, holds t i e -> cell_of (en_object e) = Some c ->
         pid ∈ default [] (waiters sh !! c) -> pid ∈ ws
  end.
Proof.
  induction hs as [|h hs IH]; intros t sh Hs Hall; simpl.
  { split; [exact Hs|]. split; intros i e; [intros Hh%Hall|intros c pid Hh%Hall]; by apply not_elem_of_nil in Hh. }
  destruct (remove_cases t h Hs) as [(e & t1 & Hh & -> & Hs1 & Hh1)|[-> Hmiss]].
  - destruct (release sh (en_object e)) as [ws0 sh1] eqn:Er.
    specialize (IH t1 sh1 Hs1). destruct (cleanup_handles secret hs t1 sh1) as [[ws' t'] sh'].
    destruct IH as (Hs' & Hfree & Hw).
    + intros j e' [Hj Hne]%Hh1. apply Hall in Hj as Hin. apply elem_of_cons in Hin as [<-|Hin]; [|done].
      destruct Hne. destruct (holds_valid t j e' Hs Hj) as (_ & Hsl & _). by symmetry.
    + split; [exact Hs'|]. split; [exact Hfree|]. intros j e' c pid Hj Hc Hp. apply elem_of_app.
      pose proof (release_waiters _ _ _ _ c Er) as Hrel.
      destruct (decide (cell_of (en_object e) = Some c)) as [Hsame|Hdiff]; [left; by subst ws0|].
      right. eapply (Hw j e'); [|done|by rewrite Hrel]. apply Hh1. split; [done|]. intros ->.
      destruct Hj as [g1 E1], Hh as [g2 E2]. rewrite E1 in E2. by injection E2 as _ ->.
  - specialize (IH t sh Hs). destruct (cleanup_handles secret hs t sh) as [[ws' t'] sh'].
    apply IH. intros j e' Hj. apply Hall in Hj as Hin. apply elem_of_cons in Hin as [Heq|Hin]; [|done].
    by destruct (Hmiss j e' Hj).
Qed.

Lemma table_entries_elem {O} (t : HandleTable O) h :
  h ∈ map fst (table_entries secret t) <-> exists i e, h = handle_of secret i e /\ holds t i e.
Proof.
  unfold table_entries, holds, handle_of. rewrite list_elem_of_fmap. split.
  - intros ([h' o] & -> & Hin). apply list_elem_of_omap in Hin as ([x|] & Hx & E); [|done].
    simpl in E. injection E as ->. apply elem_of_lookup_imap in Hx as (i & s & Hf & Hl).
    destruct s as [g [e|]]; [|done]. simpl in Hf. injection Hf as -> _. exists i, e. split; [done|by exists g].
  - intros (i & e & -> & g & Hl).
    exists (handle_new secret (Z.of_nat i mod 2 ^ 8) (en_generation e) (en_permissions e), en_object e).
    split; [done|]. apply list_elem_of_omap. exists (Some (handle_new secret (Z.of_nat i mod 2 ^ 8) (en_generation e) (en_permissions e), en_object e)).
    split; [|done]. apply elem_of_lookup_imap. by exists i, (mkSlot g (Some e)).
Qed.

(** When a process ends, its cleanup leaves no handle live and no descriptor
    open from 3 on, and hands back for wake-up every process that waits on an
    event, thread or channel the process held a handle to. *)
Theorem cleanup_complete {D} (r : ProcessResources D) (sh : Shared) :
  small (handle_table r) ->
  match cleanup secret r sh with
  | (to_unblock, r', sh') =>
    (forall i e, ~ holds (handle_table r') i e)
    /\ (forall fd, 3 <= fd -> fds_get (fd_table r') fd = None)
    /\ forall i e c pid, holds (handle_table r) i e -> cell_of (en_object e) = Some c ->
         pid ∈ default [] (waiters sh !! c) -> pid ∈ to_unblock
  end.
Proof.
  intros Hs. unfold cleanup.
  pose proof (cleanup_handles_spec (map fst (table_entries secret (handle_table r))) (handle_table r) sh Hs) as Hc.
  destruct (cleanup_handles secret _ (handle_table r) sh) as [[ws t'] sh'].
  destruct Hc as (_ & Hfree & Hw).
  - intros i e Hh. apply table_entries_elem. by exists i, e.
  - split; [done|]. split; [|done]. intros fd Hfd. by apply fds_clear_get.
Qed.
End Cleanup.

(** ** Witnesses *)
Definition demo_secret : Z := init_handle_secret 42.

Lemma demo_secret_range : 0 <= demo_secret < 2 ^ 64.
Proof. split; vm_compute; [discriminate|reflexivity]. Qed.

Lemma is_valid_issued_witness :
  is_valid demo_secret 3 = true <->
  3 = handle_new demo_secret (h_slot 3) (h_generation 3) (h_permissions 3).
Proof. apply (is_valid_issued demo_secret 3 demo_secret_range). lia. Defined.

(** A table with one live handle and one slot that was freed. *)
Definition demo_table : HandleTable KernelObject :=
  mkHandleTable [mkSlot 1 (Some (mkEntry 1 default_perms (Event 7))); mkSlot 3 None].
Definition demo_handle : Handle := handle_new demo_secret 0 1 default_perms.

Lemma demo_table_ok : table_ok demo_table.
Proof.
  apply Forall_cons. split; [split; [unfold byte; simpl; lia|done]|].
  apply Forall_cons. split; [split; [unfold byte; simpl; lia|done]|done].
Qed.

Lemma alloc_get_handle_witness :
  exists h t', table_alloc demo_secret demo_table Device = Ok (h, t')
  /\ table_get demo_secret t' h = Some Device.
Proof.
  destruct (alloc_get_handle demo_secret demo_secret_range demo_table Device demo_table_ok)
    as (h & t' & H1 & _ & H2 & _); [left; simpl; lia|].
  exists h, t'. split; [exact H1|exact H2].
Defined.

Definition demo_removed : HandleTable KernelObject := (table_remove demo_secret demo_table demo_handle).2.
Definition demo_ops : list table_op := [TAlloc Device; TAlloc (Channel 9)].

Lemma demo_handle_nonneg : 0 <= demo_handle.
Proof. vm_compute. discriminate. Qed.

Lemma demo_remove : table_remove demo_secret demo_table demo_handle = (Some (Event 7), demo_removed).
Proof. vm_compute. reflexivity. Qed.

Lemma stale_handle_rejected_witness :
  table_get demo_secret (foldl (table_step demo_secret) demo_removed demo_ops) demo_handle = None.
Proof.
  exact (stale_handle_rejected demo_secret demo_secret_range demo_table demo_handle (Event 7) demo_removed demo_ops
    demo_table_ok demo_handle_nonneg demo_remove eq_refl).
Defined.

Lemma fd_alloc_lowest_witness :
  exists fd m', fd_alloc (mkFds [None; None; None; Some 30; None; Some 50]) 40 = (Ok fd, m') /\ 3 <= fd.
Proof.
  destruct (fd_alloc_lowest (mkFds [None; None; None; Some 30; None; Some 50]) 40) as (fd & m' & H1 & H2 & _).
  - split; vm_compute; discriminate.
  - exists fd, m'. split; [exact H1|exact H2].
Defined.

Lemma cleanup_complete_witness :
  match cleanup demo_secret (mkResources (mkFds [None; None; None; Some tt]) demo_table [])
          (mkShared {[7 := [21; 22]]} []) with
  | (to_unblock, _, _) => 21 ∈ to_unblock
  end.
Proof.
  pose proof (cleanup_complete demo_secret demo_secret_range
    (mkResources (mkFds [None; None; None; Some tt]) demo_table []) (mkShared {[7 := [21; 22]]} [])) as Hc.
  destruct (cleanup demo_secret _ _) as [[ws r'] sh']. destruct Hc as (_ & _ & Hw).
  - split; [exact demo_table_ok|simpl; lia].
  - apply (Hw 0%nat (mkEntry 1 default_perms (Event 7)) 7 21).
    + exists 1. reflexivity.
    + reflexivity.
    + left.
Defined.
