(* ===== verification/Scheduler.v ===== *)
(** * The process list and the scheduler

    [fullerene-kernel/src/scheduler_context.rs] (process list, round-robin
    scheduling, blocking), the process lifecycle of [process.rs]
    ([terminate_process]), the recovery path of [interrupts/exceptions.rs] and
    the two waits of [syscall/process.rs] and [linux/process.rs].  The CPU is
    the pair of its page-table root and the process whose context it runs; the
    assembly routine [switch_context] makes the new context the running one. *)

From S2P Require Import Prelude Handles.

(** ** Data *)
Definition MAX_PROCESSES : Z := 64.

Inductive ProcessState : Type := Ready | Running | Blocked | Terminated.
#[export] Instance ProcessState_eq_dec : EqDecision ProcessState.
Proof. solve_decision. Defined.

Record FileDesc := mkFileDesc { fdesc_fd : Z; fdesc_ino : Z; fdesc_offset : Z; fdesc_flags : Z }.

Record Process := mkProcess {
  pr_id : Z;
  pr_name : string;
  pr_state : ProcessState;
  pr_page_table_phys : Z;
  pr_page_table : option Z;        (** the frame of its level-4 table *)
  pr_kernel_stack : Z;
  pr_exit_code : option Z;
  pr_parent_id : option Z;
  pr_resources : ProcessResources FileDesc
}.

Definition set_state (s : ProcessState) (p : Process) : Process :=
  mkProcess (pr_id p) (pr_name p) s (pr_page_table_phys p) (pr_page_table p) (pr_kernel_stack p)
    (pr_exit_code p) (pr_parent_id p) (pr_resources p).

(** [processes], the atomics of the schedule state, and the recovery target. *)
Record SchedulerContext := mkSched {
  processes : list (Z * Process);
  next_pid : Z;
  schedule_index : Z;
  current_pid : Z;
  tick_counter : Z;
  recovery_rsp : Z;
  recovery_rip : Z
}.

Definition sched_new : SchedulerContext := mkSched [] 1 0 0 0 0 0.

Definition set_processes (c : SchedulerContext) (l : list (Z * Process)) : SchedulerContext :=
  mkSched l (next_pid c) (schedule_index c) (current_pid c) (tick_counter c) (recovery_rsp c) (recovery_rip c).

Definition set_schedule (c : SchedulerContext) (l : list (Z * Process)) (idx pid : Z) : SchedulerContext :=
  mkSched l (next_pid c) idx pid (tick_counter c) (recovery_rsp c) (recovery_rip c).

Definition set_current_pid (c : SchedulerContext) (pid : Z) : SchedulerContext :=
  set_schedule c (processes c) (schedule_index c) pid.

(** [fetch_add] returns the old value and wraps. *)
Definition advance_tick (c : SchedulerContext) : Z * SchedulerContext :=
  (tick_counter c, mkSched (processes c) (next_pid c) (schedule_index c) (current_pid c)
    (u64_wrapping_add (tick_counter c) 1) (recovery_rsp c) (recovery_rip c)).

Definition allocate_pid (c : SchedulerContext) : Z * SchedulerContext :=
  (next_pid c, mkSched (processes c) (u64_wrapping_add (next_pid c) 1) (schedule_index c) (current_pid c)
    (tick_counter c) (recovery_rsp c) (recovery_rip c)).

(** ** The process list *)
Inductive SchedError : Type := TooManyProcesses.

(** [Vec::swap_remove]: the last element takes the place of the removed one. *)
Definition swap_remove {A} (l : list A) (pos : nat) : list A :=
  match last l with
  | None => l
  | Some x => take (length l - 1) (<[pos := x]> l)
  end.

Definition same_pid (pid : Z) (x : Z * Process) : bool := x.1 =? pid.

Definition add (c : SchedulerContext) (p : Process) : result SchedError unit * SchedulerContext :=
  if MAX_PROCESSES <=? Z.of_nat (length (processes c)) then (Err TooManyProcesses, c) else
  let procs := match position (same_pid (pr_id p)) (processes c) with
               | Some pos => swap_remove (processes c) pos
               | None => processes c
               end in
  (Ok tt, set_processes c (procs ++ [(pr_id p, p)])).

(** [with_process]: the first process with the id, if any. *)
Definition find_process (c : SchedulerContext) (pid : Z) : option Process :=
  match position (same_pid pid) (processes c) with
  | Some i => snd <$> (processes c !! i)
  | None => None
  end.

Definition update_process (c : SchedulerContext) (pid : Z) (f : Process -> Process) : SchedulerContext :=
  match position (same_pid pid) (processes c) with
  | Some i => set_processes c (alter (fun x => (x.1, f x.2)) i (processes c))
  | None => c
  end.

Definition is_active (p : Process) : bool :=
  match pr_state p with Ready | Running => true | _ => false end.

Definition active_count (c : SchedulerContext) : nat := length (List.filter (fun x => is_active x.2) (processes c)).

(** [cleanup] of the scheduler: remove terminated processes. *)
Definition reap (c : SchedulerContext) : SchedulerContext :=
  set_processes c (List.filter (fun x => negb (bool_decide (pr_state x.2 = Terminated))) (processes c)).

(** ** Scheduling *)
Definition state_at (l : list (Z * Process)) (i : Z) : option ProcessState :=
  (fun x => pr_state x.2) <$> (l !! Z.to_nat i).

Definition is_idle (x : Z * Process) : bool := bool_decide (pr_name x.2 = "idle").

(** The scan [loop { next_idx = (next_idx + 1) % len; ... }]. *)
Fixpoint scan_ready (fuel : nat) (l : list (Z * Process)) (start_idx next_idx : Z) : option Z :=
  match fuel with
  | O => None
  | S fuel =>
    let next_idx := (next_idx + 1) mod Z.of_nat (length l) in
    if bool_decide (state_at l next_idx = Some Ready) then Some next_idx
    else if next_idx =? start_idx then
      match position is_idle l with
      | Some idle => Some (Z.of_nat idle)
      | None => Some next_idx
      end
    else scan_ready fuel l start_idx next_idx
  end.

Definition set_state_at (i : Z) (s : ProcessState) (l : list (Z * Process)) : list (Z * Process) :=
  alter (fun x => (x.1, set_state s x.2)) (Z.to_nat i) l.

(** Marking the new process running, and the old one ready if it was running. *)
Definition switch_states (current_idx next_idx : Z) (l : list (Z * Process)) : list (Z * Process) :=
  if current_idx =? next_idx then l else
  let l := if bool_decide (state_at l current_idx = Some Running)
           then set_state_at current_idx Ready l else l in
  set_state_at next_idx Running l.

(** The pair [(old_pid, new_pid)]; indexing out of the list panics, running out
    of fuel too. *)
Definition schedule_next (c : SchedulerContext) : result unit (option Z * Z) * SchedulerContext :=
  let list := processes c in
  match list with
  | [] => (Ok (None, 0), c)
  | _ =>
    let current_idx := Z.min (schedule_index c) (Z.of_nat (length list) - 1) in
    match scan_ready (length list) list current_idx current_idx with
    | None => (Panic, c)
    | Some next_idx =>
      match list !! Z.to_nat next_idx with
      | None => (Panic, c)
      | Some new =>
        (Ok (fst <$> (list !! Z.to_nat current_idx), new.1),
         set_schedule c (switch_states current_idx next_idx list) next_idx new.1)
      end
    end
  end.

(** ** The CPU *)
Record Cpu := mkCpu { cr3 : Z; running : option Z }.

Definition containing_frame (a : Z) : Z := a / 4096 * 4096.

(** The new context is resumed, with its page table loaded unless it has none. *)
Definition context_switch (c : SchedulerContext) (cpu : Cpu) (old_pid : option Z) (new_pid : Z) : Cpu :=
  if bool_decide (old_pid = Some new_pid) then cpu else
  match find_process c new_pid with
  | None => cpu
  | Some p =>
    let pt := pr_page_table_phys p in
    mkCpu (if pt =? 0 then cr3 cpu else containing_frame pt) (Some new_pid)
  end.

Definition reschedule (c : SchedulerContext) (cpu : Cpu) : result unit unit * SchedulerContext * Cpu :=
  match schedule_next c with
  | (Ok (Some o, n), c') => (Ok tt, c', if o =? n then cpu else context_switch c' cpu (Some o) n)
  | (Ok (None, _), c') => (Ok tt, c', cpu)
  | (_, c') => (Panic, c', cpu)
  end.

Definition block_current (c : SchedulerContext) (cpu : Cpu) : result unit unit * SchedulerContext * Cpu :=
  if current_pid c =? 0 then (Ok tt, c, cpu) else
  reschedule (update_process c (current_pid c) (set_state Blocked)) cpu.

Definition unblock (p : Process) : Process :=
  if bool_decide (pr_state p = Blocked) then set_state Ready p else p.

Definition unblock_process (c : SchedulerContext) (pid : Z) : SchedulerContext :=
  update_process c pid unblock.

Definition yield_current (c : SchedulerContext) (cpu : Cpu) : result unit unit * SchedulerContext * Cpu :=
  if current_pid c =? 0 then (Ok tt, c, cpu) else reschedule c cpu.

Definition unblock_waiting_parents (c : SchedulerContext) (child_pid : Z) : SchedulerContext :=
  match find_process c child_pid ≫= pr_parent_id with
  | None => c
  | Some parent_id =>
    match find_process c parent_id with
    | Some parent => if bool_decide (pr_state parent = Blocked) then unblock_process c parent_id else c
    | None => c
    end
  end.

Definition set_recovery (c : SchedulerContext) (rsp rip : Z) : SchedulerContext :=
  mkSched (processes c) (next_pid c) (schedule_index c) (current_pid c) (tick_counter c) rsp rip.

Definition recovery_target (c : SchedulerContext) : option (Z * Z) :=
  if negb (recovery_rsp c =? 0) && negb (recovery_rip c =? 0)
  then Some (recovery_rsp c, recovery_rip c) else None.

(** ** Termination *)
Definition KERNEL_STACK_SIZE : Z := 4096 * 64.

(** What a terminated process hands back: its kernel stack's base and its
    page-table root. *)
Record Freed := mkFreed { freed_stack : option Z; freed_root : option Z }.

Definition stack_base (p : Process) : option Z :=
  match u64_checked_sub (pr_kernel_stack p) KERNEL_STACK_SIZE with
  | Some base => if base =? 0 then None else Some base
  | None => None
  end.

Definition terminated (secret exit_code : Z) (sh : Shared) (p : Process) : list Z * Process * Shared * Freed :=
  if bool_decide (pr_name p = "idle") then ([], p, sh, mkFreed None None) else
  let '(ws, r, sh') := cleanup secret (pr_resources p) sh in
  (ws, mkProcess (pr_id p) (pr_name p) Terminated (pr_page_table_phys p) None (pr_kernel_stack p)
         (Some exit_code) (pr_parent_id p) r, sh',
   mkFreed (stack_base p) (pr_page_table p)).

Definition terminate_process (secret : Z) (c : SchedulerContext) (sh : Shared) (pid exit_code : Z) :
    result unit SchedulerContext * Shared * Freed :=
  let '(ws, c1, sh1, fr) :=
    match find_process c pid with
    | None => ([], c, sh, mkFreed None None)
    | Some p => let '(ws, p', sh', fr) := terminated secret exit_code sh p in
                (ws, update_process c pid (fun _ => p'), sh', fr)
    end in
  let c2 := foldl unblock_process c1 ws in
  let c3 := unblock_waiting_parents c2 pid in
  if current_pid c3 =? pid then
    match schedule_next c3 with
    | (Ok _, c4) => (Ok c4, sh1, fr)
    | (_, _) => (Panic, sh1, fr)
    end
  else (Ok c3, sh1, fr).

(** [terminate_and_recover] and the trampoline it returns to. *)
Definition terminate_and_recover (c : SchedulerContext) (cpu : Cpu) : result unit unit * SchedulerContext * Cpu :=
  let pid := current_pid c in
  if pid =? 0 then (Ok tt, c, cpu) else
  let kill p := mkProcess (pr_id p) (pr_name p) Terminated (pr_page_table_phys p) (pr_page_table p)
                  (pr_kernel_stack p) (Some 1) (pr_parent_id p) (pr_resources p) in
  match schedule_next (reap (update_process c pid kill)) with
  | (Ok _, c') => if current_pid c' =? 0 then (Panic, c', cpu)
                  else (Ok tt, c', context_switch c' cpu None (current_pid c'))
  | (_, c') => (Panic, c', cpu)
  end.

(** ** Waiting

    One round of [syscall_wait]'s loop: [Some r] is its return, [None] means that
    the caller blocked and will retry. *)
Inductive SyscallError : Type := NoSuchProcess.

Definition wait_round (c : SchedulerContext) (cpu : Cpu) (pid : Z) :
    result unit (option (result SyscallError Z)) * SchedulerContext * Cpu :=
  match find_process c pid with
  | None => (Ok (Some (Err NoSuchProcess)), c, cpu)
  | Some p =>
    if bool_decide (pr_state p = Terminated) then (Ok (Some (Ok (default 0 (pr_exit_code p)))), c, cpu)
    else match block_current c cpu with
         | (Ok _, c', cpu') => (Ok None, c', cpu')
         | (_, c', cpu') => (Panic, c', cpu')
         end
  end.

Definition WNOHANG : Z := 1.

(** [sys_wait4]: the returned value and the status written for the caller. *)
Definition sys_wait4 (c : SchedulerContext) (cpu : Cpu) (pid options : Z) :
    result unit (Z * option Z) * SchedulerContext * Cpu :=
  let reap_child target :=
    let exit_code := default 0 (find_process c target ≫= pr_exit_code) in
    (Ok (target, Some (Z.shiftl (Z.land exit_code 255) 8)),
     set_processes c (List.filter (fun x => negb (x.1 =? target)) (processes c)), cpu) in
  if pid <=? 0 then
    match position (fun x => bool_decide (pr_parent_id x.2 = Some (current_pid c))
                             && bool_decide (pr_state x.2 = Terminated)) (processes c) ≫=
          (fun i => processes c !! i) with
    | Some child => reap_child child.1
    | None =>
      if negb (Z.land options WNOHANG =? 0) then (Ok (0, None), c, cpu)
      else match block_current c cpu with
           | (Ok _, c', cpu') => (Ok (0, None), c', cpu')
           | (_, c', cpu') => (Panic, c', cpu')
           end
    end
  else reap_child pid.

(** ** The scan *)
Definition len (l : list (Z * Process)) : Z := Z.of_nat (length l).

Lemma mod_next x n : 0 < n -> (x mod n + 1) mod n = (x + 1) mod n.
Proof. intros. by rewrite Z.add_mod_idemp_l by lia. Qed.

(** The choice the scan from [cur] makes: the first ready process after [cur] in
    cyclic order; without one, the idle process, or [cur] if there is none. *)
Definition chosen (l : list (Z * Process)) (cur i : Z) : Prop :=
  (exists d, 1 <= d <= len l /\ i = (cur + d) mod len l /\ state_at l i = Some Ready
     /\ forall d', 1 <= d' < d -> state_at l ((cur + d') mod len l) <> Some Ready)
  \/ ((forall d, 1 <= d <= len l -> state_at l ((cur + d) mod len l) <> Some Ready)
      /\ match position is_idle l with Some k => i = Z.of_nat k | None => i = cur end).

Lemma scan_ready_spec l cur : 0 <= cur < len l ->
  forall fuel d, 0 <= d -> d + Z.of_nat fuel = len l ->
  (forall d', 1 <= d' <= d -> state_at l ((cur + d') mod len l) <> Some Ready) ->
  (1 <= Z.of_nat fuel)%Z ->
  exists i, scan_ready fuel l cur ((cur + d) mod len l) = Some i /\ chosen l cur i.
Proof.
  intros Hcur. induction fuel as [|fuel IH]; intros d Hd Hf Hnot H1; [lia|]. cbn [scan_ready].
  fold (len l). rewrite mod_next by lia. replace (cur + d + 1) with (cur + (d + 1)) by lia.
  case_bool_decide as Hr.
  - exists ((cur + (d + 1)) mod len l). split; [done|]. left. exists (d + 1).
    split_and!; try done; try lia. intros d' Hd'. apply Hnot. lia.
  - assert (forall d', 1 <= d' <= d + 1 -> state_at l ((cur + d') mod len l) <> Some Ready) as Hnot'.
    { intros d' Hd'. destruct (Z.eq_dec d' (d + 1)) as [->|]; [done|]. apply Hnot. lia. }
    destruct (Z.eqb_spec ((cur + (d + 1)) mod len l) cur) as [Heq|Hne].
    + assert (d + 1 = len l) as Hd1.
      { destruct (Z.eq_dec (d + 1) (len l)); [done|]. exfalso.
        destruct (Z.lt_ge_cases (cur + (d + 1)) (len l)).
        - rewrite Z.mod_small in Heq by lia. lia.
        - replace (cur + (d + 1)) with (cur + (d + 1) - len l + 1 * len l) in Heq by lia.
          rewrite Z.mod_add, Z.mod_small in Heq by lia. lia. }
      rewrite Hd1 in Hnot'. rewrite Heq. destruct (position is_idle l) as [k|] eqn:Ek.
      * eexists. split; [done|]. right. split; [done|]. by rewrite Ek.
      * eexists. split; [done|]. right. split; [done|]. by rewrite Ek.
    + destruct fuel as [|fuel'].
      { exfalso. apply Hne. replace (d + 1) with (len l) by lia.
        rewrite <- (Z.mul_1_l (len l)) at 1. rewrite Z.mod_add, Z.mod_small by lia. done. }
      apply IH; [lia|lia|done|lia].
Qed.

Lemma chosen_range l cur i : 0 <= cur < len l -> chosen l cur i -> 0 <= i < len l.
Proof.
  intros Hc [(d & _ & -> & _)|[_ Hi]]; [apply Z.mod_pos_bound; lia|].
  destruct (position is_idle l) as [k|] eqn:Ek; [|lia].
  destruct (position_Some _ _ _ Ek) as (x & Hx & _). apply lookup_lt_Some in Hx. unfold len. lia.
Qed.

Lemma schedule_next_nonempty c : processes c <> [] ->
  schedule_next c =
    let l := processes c in let cur := Z.min (schedule_index c) (len l - 1) in
    match scan_ready (length l) l cur cur with
    | None => (Panic, c)
    | Some i => match l !! Z.to_nat i with
                | None => (Panic, c)
                | Some new => (Ok (fst <$> (l !! Z.to_nat cur), new.1),
                               set_schedule c (switch_states cur i l) i new.1)
                end
    end.
Proof. unfold schedule_next, len. by destruct (processes c). Qed.

Lemma schedule_next_spec c : processes c <> [] -> 0 <= schedule_index c ->
  let l := processes c in let cur := Z.min (schedule_index c) (len l - 1) in
  exists i old new, l !! Z.to_nat cur = Some old /\ l !! Z.to_nat i = Some new /\ 0 <= i < len l
  /\ chosen l cur i
  /\ schedule_next c = (Ok (Some old.1, new.1), set_schedule c (switch_states cur i l) i new.1).
Proof.
  intros Hne Hidx l cur. assert (0 < len l) by (unfold len, l; destruct (processes c); [done|simpl; lia]).
  assert (0 <= cur < len l) as Hcur by lia.
  destruct (scan_ready_spec l cur Hcur (length l) 0) as (i & Es & Hch);
    [lia|unfold len; lia|lia|unfold len in *; lia|].
  rewrite Z.add_0_r, Z.mod_small in Es by lia.
  pose proof (chosen_range l cur i Hcur Hch) as Hi.
  destruct (lookup_lt_is_Some_2 l (Z.to_nat cur)) as [old Eo]; [unfold len in *; lia|].
  destruct (lookup_lt_is_Some_2 l (Z.to_nat i)) as [new En]; [unfold len in *; lia|].
  exists i, old, new. split_and!; try done; try lia.
  rewrite schedule_next_nonempty by done. cbv zeta. fold l. fold cur. by rewrite Es, En, Eo.
Qed.

Lemma state_at_set l i k s : 0 <= i -> 0 <= k ->
  state_at (set_state_at i s l) k = if k =? i then (fun _ => s) <$> state_at l k else state_at l k.
Proof.
  intros Hi Hk. unfold state_at, set_state_at. destruct (Z.eqb_spec k i) as [->|].
  - rewrite list_lookup_alter_eq. by destruct (l !! Z.to_nat i).
  - by rewrite list_lookup_alter_ne by lia.
Qed.

(** The states after a switch from [cur] to [i]. *)
Lemma switch_states_at l cur i k : 0 <= cur -> 0 <= i < len l -> 0 <= k ->
  state_at (switch_states cur i l) k =
    if cur =? i then state_at l k
    else if k =? i then Some Running
    else if (k =? cur) && bool_decide (state_at l cur = Some Running) then Some Ready
    else state_at l k.
Proof.
  intros Hc Hi Hk. unfold switch_states. destruct (Z.eqb_spec cur i) as [|Hne]; [done|].
  rewrite state_at_set by lia. destruct (Z.eqb_spec k i) as [->|].
  - assert (exists s, state_at l i = Some s) as [s Hs].
    { unfold state_at. destruct (lookup_lt_is_Some_2 l (Z.to_nat i)) as [x Ex]; [unfold len in Hi; lia|].
      rewrite Ex. eauto. }
    case_bool_decide; [rewrite state_at_set, (proj2 (Z.eqb_neq i cur)) by lia|]; by rewrite Hs.
  - case_bool_decide as Hr; [rewrite state_at_set by lia|by rewrite andb_false_r].
    rewrite andb_true_r. destruct (Z.eqb_spec k cur) as [->|]; [|done]. by rewrite Hr.
Qed.

(** Round robin: the scheduler never panics; it selects the first ready process
    after the current one in cyclic order, or the idle process when none is
    ready, makes it current, marks it running and puts a running predecessor
    back to ready. *)
Theorem schedule_next_round_robin (c : SchedulerContext) :
  processes c <> [] -> 0 <= schedule_index c ->
  let l := processes c in let cur := Z.min (schedule_index c) (len l - 1) in
  exists i old new c', schedule_next c = (Ok (Some old.1, new.1), c')
  /\ l !! Z.to_nat cur = Some old /\ l !! Z.to_nat i = Some new /\ chosen l cur i
  /\ schedule_index c' = i /\ current_pid c' = new.1
  /\ (forall k, 0 <= k -> state_at (processes c') k =
        if (cur =? i) then state_at l k
        else if (k =? i) then Some Running
        else if (k =? cur) && bool_decide (state_at l cur = Some Running) then Some Ready
        else state_at l k).
Proof.
  intros Hne Hidx l cur.
  destruct (schedule_next_spec c Hne Hidx) as (i & old & new & Eo & En & Hi & Hch & E).
  fold l cur in Eo, En, Hi, Hch, E. exists i, old, new. eexists. split; [exact E|].
  split_and!; try done. intros k Hk. cbn [processes set_schedule]. apply switch_states_at; [|done..].
  unfold cur, len, l. destruct (processes c); [done|simpl; lia].
Qed.

(** *** Fairness *)
Lemma switch_states_length cur i l : length (switch_states cur i l) = length l.
Proof. unfold switch_states, set_state_at. repeat case_match; by rewrite ?length_alter. Qed.

Lemma switch_states_pid cur i l k : fst <$> (switch_states cur i l !! k) = fst <$> (l !! k).
Proof.
  assert (forall j s l', fst <$> (set_state_at j s l' !! k) = fst <$> (l' !! k)) as Hset.
  { intros j s l'. unfold set_state_at. rewrite list_lookup_alter.
    case_decide as Hd; [subst; by destruct (l' !! Z.to_nat j)|done]. }
  unfold switch_states. repeat case_match; by rewrite ?Hset.
Qed.

Definition schedule_step (c : SchedulerContext) : SchedulerContext := (schedule_next c).2.

(** The distance from the schedule index to [j], going round. *)
Lemma fair_dist d : forall c j x, 0 <= schedule_index c < len (processes c) ->
  1 <= d <= len (processes c) -> j = (schedule_index c + d) mod len (processes c) ->
  state_at (processes c) j = Some Ready -> processes c !! Z.to_nat j = Some x ->
  exists n, (Z.of_nat n <= d)%Z /\ schedule_index (Nat.iter n schedule_step c) = j
  /\ current_pid (Nat.iter n schedule_step c) = x.1.
Proof.
  induction d as [d IH] using (well_founded_induction (Z.lt_wf 0)). intros c j x Hidx Hd Hj Hst Hx.
  set (l := processes c) in *. set (cur := schedule_index c) in *.
  assert (l <> []) as Hne by (intros E; unfold len in Hidx; rewrite E in Hidx; simpl in Hidx; lia).
  destruct (schedule_next_spec c Hne ltac:(lia)) as (i & old & new & Eo & En & Hi & Hch & E).
  fold l cur in Eo, En, Hi, Hch, E. rewrite Z.min_l in Eo, Hch, E by lia.
  assert (exists di, 1 <= di <= d /\ i = (cur + di) mod len l) as (di & Hdi & Hii).
  { destruct Hch as [(di & Hdi & -> & Hr & Hfirst)|[Hnone _]].
    - exists di. split; [|done]. split; [lia|]. destruct (Z.le_gt_cases di d); [done|].
      exfalso. apply (Hfirst d); [lia|]. by rewrite <- Hj.
    - exfalso. apply (Hnone d Hd). by rewrite <- Hj. }
  destruct (Z.eq_dec i j) as [->|Hij].
  - exists 1%nat. split; [lia|]. simpl. unfold schedule_step. rewrite E. simpl. split; [done|]. congruence.
  - assert (di < d) as Hlt.
    { destruct (Z.eq_dec di d) as [->|]; [congruence|lia]. }
    assert (len (switch_states cur i l) = len l) as Hl by (unfold len; by rewrite switch_states_length).
    assert (0 <= j < len l) as Hjr by (rewrite Hj; apply Z.mod_pos_bound; lia).
    pose proof (switch_states_pid cur i l (Z.to_nat j)) as Hpid. rewrite Hx in Hpid.
    destruct (switch_states cur i l !! Z.to_nat j) as [x'|] eqn:Ex'; [|done]. injection Hpid as Hpid.
    destruct (IH (d - di) ltac:(lia) (schedule_step c) j x') as (n & Hn & H1 & H2).
    + unfold schedule_step. rewrite E. simpl. by rewrite Hl.
    + unfold schedule_step. rewrite E. simpl. rewrite Hl. lia.
    + unfold schedule_step. rewrite E. simpl. rewrite Hl, Hii, Z.add_mod_idemp_l, Hj by lia.
      f_equal. lia.
    + unfold schedule_step. rewrite E. simpl. rewrite switch_states_at by lia.
      destruct (cur =? i); [done|]. rewrite (proj2 (Z.eqb_neq j i)) by done.
      destruct (Z.eqb_spec j cur) as [->|]; [|done]. simpl. case_bool_decide; done.
    + unfold schedule_step. rewrite E. done.
    + exists (S n). split; [lia|]. rewrite Nat.iter_succ_r. split; [done|]. congruence.
Qed.

Lemma ready_scheduled (c : SchedulerContext) (j : Z) (x : Z * Process) :
  0 <= schedule_index c < len (processes c) -> 0 <= j ->
  processes c !! Z.to_nat j = Some x -> pr_state x.2 = Ready ->
  exists n, (n <= length (processes c))%nat
  /\ schedule_index (Nat.iter n schedule_step c) = j
  /\ current_pid (Nat.iter n schedule_step c) = x.1.
Proof.
  intros Hidx Hj0 Hx Hst. set (n := len (processes c)) in *.
  assert (j < n) as Hjn by (apply lookup_lt_Some in Hx; unfold n, len; lia).
  assert (exists d, 1 <= d <= n /\ j = (schedule_index c + d) mod n) as (d & Hd & Hdj).
  { destruct (Z.lt_ge_cases (schedule_index c) j).
    - exists (j - schedule_index c). split; [lia|]. replace (schedule_index c + _) with j by lia.
      by rewrite Z.mod_small by lia.
    - exists (j - schedule_index c + n). split; [lia|].
      replace (schedule_index c + _) with (j + 1 * n) by lia. by rewrite Z.mod_add, Z.mod_small by lia. }
  destruct (fair_dist d c j x Hidx Hd Hdj) as (k & Hk & H1 & H2); [|done|].
  - unfold state_at. rewrite Hx. simpl. by rewrite Hst.
  - exists k. split; [unfold n, len in Hd; lia|done].
Qed.

(** C38. Fairness: a ready process is made current within as many scheduling
    decisions as there are processes, whatever the states of the others. *)
Theorem ready_process_scheduled (c : SchedulerContext) (j : Z) (x : Z * Process) :
  0 <= schedule_index c < len (processes c) -> 0 <= j ->
  processes c !! Z.to_nat j = Some x -> pr_state x.2 = Ready ->
  exists n, (n <= length (processes c))%nat
  /\ schedule_index (Nat.iter n schedule_step c) = j
  /\ current_pid (Nat.iter n schedule_step c) = x.1.
Proof. apply ready_scheduled. Qed.

(** ** Looking up and updating processes *)
Lemma position_same_pid q l : position (same_pid q) l = position (fun z => z =? q) (map fst l).
Proof. induction l as [|x l IH]; simpl; [done|]. unfold same_pid at 1. by rewrite IH. Qed.

Lemma alter_fst (f : Process -> Process) i (l : list (Z * Process)) :
  map fst (alter (fun x => (x.1, f x.2)) i l) = map fst l.
Proof.
  apply list_eq. intros k. change (map fst ?x) with (fst <$> x).
  rewrite !list_lookup_fmap, list_lookup_alter. case_decide as Hd; [|done].
  subst. by destruct (l !! k).
Qed.

Lemma switch_states_fst cur i l : map fst (switch_states cur i l) = map fst l.
Proof. unfold switch_states, set_state_at. repeat case_match; by rewrite ?alter_fst. Qed.

Lemma find_update c pid f q :
  find_process (update_process c pid f) q =
  if q =? pid then f <$> find_process c pid else find_process c q.
Proof.
  unfold update_process. destruct (position (same_pid pid) (processes c)) as [i|] eqn:Ei.
  - unfold find_process. cbn [processes set_processes].
    rewrite !(position_same_pid q), alter_fst, <- position_same_pid.
    destruct (Z.eqb_spec q pid) as [->|Hne].
    + rewrite Ei. rewrite list_lookup_alter_eq. by destruct (processes c !! i).
    + destruct (position (same_pid q) (processes c)) as [k|] eqn:Ek; [|done].
      rewrite list_lookup_alter_ne; [done|]. intros ->.
      destruct (position_Some _ _ _ Ei) as (x & Hx & H1 & _).
      destruct (position_Some _ _ _ Ek) as (y & Hy & H2 & _).
      rewrite Hx in Hy. injection Hy as <-. unfold same_pid in *. bool_to_prop. congruence.
  - unfold find_process at 2. destruct (Z.eqb_spec q pid) as [->|]; [|done].
    unfold find_process. by rewrite Ei.
Qed.

Definition awake (s : ProcessState) : Prop := s = Ready \/ s = Running.

Lemma find_unblock c pid q p : find_process c q = Some p ->
  find_process (unblock_process c pid) q = Some (if q =? pid then unblock p else p).
Proof.
  intros Hp. unfold unblock_process. rewrite find_update.
  destruct (Z.eqb_spec q pid) as [->|]; by rewrite Hp.
Qed.

Lemma find_unblock_all ws : forall c q p, find_process c q = Some p ->
  find_process (foldl unblock_process c ws) q = Some (if decide (q ∈ ws) then unblock p else p).
Proof.
  assert (forall p, unblock (unblock p) = unblock p) as Hidem.
  { intros p. unfold unblock. repeat case_bool_decide; done. }
  induction ws as [|w ws IH]; intros c q p Hp; cbn [foldl].
  - case_decide as Hin; [by apply not_elem_of_nil in Hin|done].
  - rewrite (IH _ q _ (find_unblock c w q p Hp)). f_equal.
    destruct (Z.eqb_spec q w) as [->|Hne].
    + destruct (decide (w ∈ w :: ws)) as [_|Hn]; [|destruct Hn; left]. by case_decide; rewrite ?Hidem.
    + assert (q ∈ w :: ws <-> q ∈ ws) as Hiff by (rewrite elem_of_cons; naive_solver).
      by destruct (decide (q ∈ ws)), (decide (q ∈ w :: ws)); try done; tauto.
Qed.

Lemma unblock_state p : pr_state (unblock p) = match pr_state p with Blocked => Ready | s => s end.
Proof. unfold unblock. case_bool_decide as H; [by rewrite H|]. by destruct (pr_state p). Qed.

Lemma set_state_same p : set_state (pr_state p) p = p.
Proof. by destruct p. Qed.

Lemma set_state_at_lookup j s l k z s0 p : l !! k = Some (z, set_state s0 p) ->
  exists s', set_state_at j s l !! k = Some (z, set_state s' p).
Proof.
  intros Hk. unfold set_state_at. rewrite list_lookup_alter. case_decide as Hd.
  - rewrite Hd, Hk. by exists s.
  - rewrite Hk. by exists s0.
Qed.

(** A scheduling decision changes only states, to ready or running, and does not
    revive a terminated process other than the idle one. *)
Lemma find_schedule c q p : 0 <= schedule_index c -> find_process c q = Some p ->
  exists s, (schedule_next c).1 <> Panic
  /\ find_process (schedule_step c) q = Some (set_state s p)
  /\ (s = pr_state p \/ awake s)
  /\ (pr_state p = Terminated -> pr_name p <> "idle"%string -> s = Terminated).
Proof.
  intros Hidx Hp. assert (processes c <> []) as Hne.
  { intros E. unfold find_process in Hp. rewrite E in Hp. done. }
  destruct (schedule_next_spec c Hne Hidx) as (i & old & new & Eo & En & Hi & Hch & E).
  set (l := processes c) in *. set (cur := Z.min (schedule_index c) (len l - 1)) in *.
  assert (0 <= cur) as Hcur by (unfold cur, len; destruct l; [done|simpl; lia]).
  unfold schedule_step. rewrite E. simpl.
  unfold find_process in Hp |- *. cbn [processes set_schedule].
  rewrite position_same_pid, switch_states_fst, <- position_same_pid. fold l in Hp.
  destruct (position (same_pid q) l) as [k|] eqn:Ek; [|done].
  destruct (l !! k) as [[z p0]|] eqn:Elk; [|done]. injection Hp as ->.
  pose proof (switch_states_at l cur i (Z.of_nat k) Hcur Hi ltac:(lia)) as Hs.
  assert (exists s, switch_states cur i l !! k = Some (z, set_state s p)) as [s Hk].
  { rewrite <- (set_state_same p) in Elk. unfold switch_states. destruct (cur =? i); [by eexists|].
    destruct (bool_decide (state_at l cur = Some Running)).
    - destruct (set_state_at_lookup cur Ready _ _ _ _ _ Elk) as [s1 H1].
      by apply (set_state_at_lookup i Running _ _ _ _ _ H1).
    - by apply (set_state_at_lookup i Running _ _ _ _ _ Elk). }
  exists s. split; [done|]. rewrite Hk. split; [done|].
  unfold state_at in Hs. rewrite Nat2Z.id, Hk, Elk in Hs. simpl in Hs.
  assert (state_at l (Z.of_nat k) = Some (pr_state p)) as Hst by (unfold state_at; by rewrite Nat2Z.id, Elk).
  unfold awake. destruct (Z.eqb_spec cur i) as [Hci|Hci]; [injection Hs as ->; auto|].
  destruct (Z.eqb_spec (Z.of_nat k) i) as [Hki|Hki].
  - injection Hs as ->. split; [auto|]. intros Ht Hni. exfalso.
    destruct Hch as [(d & _ & _ & Hr & _)|[_ Hid]].
    + rewrite <- Hki, Hst in Hr. congruence.
    + destruct (position is_idle l) as [m|] eqn:Em; [|congruence].
      destruct (position_Some _ _ _ Em) as (y & Hy & Hidle & _).
      assert (m = k) as -> by lia. rewrite Elk in Hy. injection Hy as <-.
      unfold is_idle in Hidle. by apply bool_decide_eq_true in Hidle.
  - destruct ((Z.of_nat k =? cur) && bool_decide _) eqn:Eb.
    + injection Hs as ->. split; [auto|]. intros Ht _. exfalso.
      apply andb_true_iff in Eb as [Hkc Hrun]. apply Z.eqb_eq in Hkc. apply bool_decide_eq_true in Hrun.
      unfold state_at in Hrun. rewrite <- Hkc, Nat2Z.id, Elk in Hrun. simpl in Hrun. congruence.
    + injection Hs as ->. auto.
Qed.

(** ** Termination *)
Lemma schedule_index_update c pid f : schedule_index (update_process c pid f) = schedule_index c.
Proof. unfold update_process. by case_match. Qed.
Lemma current_pid_update c pid f : current_pid (update_process c pid f) = current_pid c.
Proof. unfold update_process. by case_match. Qed.

Lemma unblock_all_index ws : forall c, schedule_index (foldl unblock_process c ws) = schedule_index c.
Proof.
  induction ws as [|w ws IH]; intros c; cbn [foldl]; [done|]. rewrite IH. apply schedule_index_update.
Qed.

Lemma find_unblock_parents c child q p : find_process c q = Some p ->
  exists p', find_process (unblock_waiting_parents c child) q = Some p'
  /\ (p' = p \/ p' = unblock p)
  /\ (forall ch, find_process c child = Some ch -> pr_parent_id ch = Some q -> p' = unblock p).
Proof.
  intros Hp. unfold unblock_waiting_parents.
  destruct (find_process c child) as [ch|] eqn:Ec; simpl; [|exists p; naive_solver].
  destruct (pr_parent_id ch) as [par|] eqn:Epar; [|exists p; naive_solver].
  destruct (decide (par = q)) as [->|Hne].
  - rewrite Hp. case_bool_decide as Hb.
    + rewrite (find_unblock c q q p Hp), Z.eqb_refl. exists (unblock p). naive_solver.
    + exists p. split; [done|]. split; [by left|]. intros _ _ _. unfold unblock. by case_bool_decide.
  - exists p. split; [|split; [by left|intros ch' [= <-]; congruence]].
    destruct (find_process c par); [|done]. case_bool_decide; [|done].
    rewrite (find_unblock c par q p Hp). by rewrite (proj2 (Z.eqb_neq q par)) by congruence.
Qed.

Lemma unblock_parents_index c child : schedule_index (unblock_waiting_parents c child) = schedule_index c.
Proof. unfold unblock_waiting_parents. repeat case_match; try done. apply schedule_index_update. Qed.

(** Terminating a process: it ends terminated with its exit code and without a
    page table, its kernel stack and page-table root are handed back, and its
    parent, if blocked, and every process waiting on one of its objects are
    ready or running afterwards.  The idle process is excluded, and nothing
    panics. *)
Theorem terminate_process_correct (secret : Z) (c : SchedulerContext) (sh : Shared) (pid code : Z) (p : Process) :
  find_process c pid = Some p -> pr_name p <> "idle"%string -> 0 <= schedule_index c ->
  exists c' sh' p', terminate_process secret c sh pid code =
    (Ok c', sh', mkFreed (stack_base p) (pr_page_table p))
  /\ find_process c' pid = Some p' /\ pr_state p' = Terminated /\ pr_exit_code p' = Some code
  /\ pr_page_table p' = None
  /\ forall q pp, q <> pid -> find_process c q = Some pp -> pr_state pp = Blocked ->
       pr_parent_id p = Some q \/ q ∈ (cleanup secret (pr_resources p) sh).1.1 ->
       exists pp', find_process c' q = Some pp' /\ awake (pr_state pp').
Proof.
  intros Hp Hname Hidx. unfold terminate_process. rewrite Hp. unfold terminated.
  rewrite bool_decide_eq_false_2 by done.
  destruct (cleanup secret (pr_resources p) sh) as [[ws r] sh1]. cbn [fst].
  set (p1 := mkProcess _ _ Terminated _ _ _ _ _ _).
  set (c1 := update_process c pid (fun _ => p1)).
  assert (find_process c1 pid = Some p1) as Hp1 by (unfold c1; by rewrite find_update, Z.eqb_refl, Hp).
  assert (unblock p1 = p1) as Hu1 by done.
  set (c2 := foldl unblock_process c1 ws).
  assert (find_process c2 pid = Some p1) as Hp2.
  { unfold c2. rewrite (find_unblock_all ws c1 pid p1 Hp1). case_decide; by rewrite ?Hu1. }
  set (c3 := unblock_waiting_parents c2 pid).
  assert (find_process c3 pid = Some p1) as Hp3.
  { destruct (find_unblock_parents c2 pid pid p1 Hp2) as (p' & H1 & H2 & _). unfold c3.
    rewrite H1. by destruct H2 as [->| ->]. }
  assert (schedule_index c3 = schedule_index c) as Hi3.
  { unfold c3. rewrite unblock_parents_index. unfold c2. rewrite unblock_all_index. apply schedule_index_update. }
  assert (forall q pp, q <> pid -> find_process c q = Some pp -> pr_state pp = Blocked ->
    pr_parent_id p = Some q \/ q ∈ ws -> exists pp', find_process c3 q = Some pp' /\ pr_state pp' = Ready) as Hwake.
  { intros q pp Hq Hpp Hb Hor.
    assert (find_process c1 q = Some pp) as Hq1
      by (unfold c1; by rewrite find_update, (proj2 (Z.eqb_neq q pid))).
    pose proof (find_unblock_all ws c1 q pp Hq1) as Hq2. fold c2 in Hq2.
    destruct (find_unblock_parents c2 pid q _ Hq2) as (pp' & H1 & H2 & H3). exists pp'. split; [done|].
    assert (pr_state (unblock pp) = Ready) as Hr by (by rewrite unblock_state, Hb).
    assert (unblock (unblock pp) = unblock pp) as Hidem by (unfold unblock; repeat case_bool_decide; done).
    destruct (decide (q ∈ ws)) as [Hin|Hnin].
    - destruct H2 as [->| ->]; by rewrite ?Hidem.
    - destruct Hor as [Hpar|]; [|done]. by rewrite (H3 p1 Hp2 Hpar). }
  assert (0 <= schedule_index c3) as Hidx3 by lia.
  destruct (current_pid c3 =? pid).
  - destruct (find_schedule c3 pid p1 Hidx3 Hp3) as (s & Hnp & Hf & _ & Hterm).
    specialize (Hterm eq_refl Hname). subst s. unfold schedule_step in Hf.
    destruct (schedule_next c3) as [[r4|[]|] c4] eqn:E4; [| |done].
    + exists c4, sh1, (set_state Terminated p1). split_and!; try done.
      intros q pp Hq Hpp Hb Hor. destruct (Hwake q pp Hq Hpp Hb Hor) as (pp' & H1 & H2).
      destruct (find_schedule c3 q pp' Hidx3 H1) as (s & _ & Hf' & Hs & _).
      unfold schedule_step in Hf'. rewrite E4 in Hf'. exists (set_state s pp'). split; [done|].
      cbn [pr_state set_state]. destruct Hs as [->|]; [left; done|done].
    + exfalso. assert (processes c3 <> []) as Hne
        by (intros Enil; unfold find_process in Hp3; rewrite Enil in Hp3; done).
      destruct (schedule_next_spec c3 Hne Hidx3) as (? & ? & ? & _ & _ & _ & _ & E5).
      rewrite E4 in E5. done.
  - exists c3, sh1, p1. split_and!; try done.
    intros q pp Hq Hpp Hb Hor. destruct (Hwake q pp Hq Hpp Hb Hor) as (pp' & H1 & H2).
    exists pp'. split; [done|]. by left.
Qed.

(** [syscall_exit]: the CPU is not switched, the call returns to its caller. *)
Definition syscall_exit (secret : Z) (c : SchedulerContext) (sh : Shared) (cpu : Cpu) (exit_code : Z) :
    result unit (result SyscallError Z) * SchedulerContext * Cpu :=
  if current_pid c =? 0 then (Ok (Err NoSuchProcess), c, cpu) else
  match terminate_process secret c sh (current_pid c) exit_code with
  | (Ok c', _, _) => (Ok (Ok 0), c', cpu)
  | (_, _, _) => (Panic, c, cpu)
  end.

(** ** At most one process is running

    The operations of the kernel on a process list that only grows; [spawn] is
    the allocation of a pid and the insertion of a ready process with it, as in
    [create_process]. *)
Inductive sched_op : Type :=
| SSpawn (p : Process)
| SSchedule
| SBlock
| SUnblock (pid : Z)
| STerminate (pid code : Z).

Definition spawn (c : SchedulerContext) (p : Process) : SchedulerContext :=
  let '(pid, c) := allocate_pid c in
  (add c (mkProcess pid (pr_name p) Ready (pr_page_table_phys p) (pr_page_table p) (pr_kernel_stack p)
            None (pr_parent_id p) (pr_resources p))).2.

Definition sched_step (secret : Z) (s : SchedulerContext * Shared) (op : sched_op) : SchedulerContext * Shared :=
  let '(c, sh) := s in
  match op with
  | SSpawn p => (spawn c p, sh)
  | SSchedule => (schedule_step c, sh)
  | SBlock => if current_pid c =? 0 then (c, sh)
              else (schedule_step (update_process c (current_pid c) (set_state Blocked)), sh)
  | SUnblock pid => (unblock_process c pid, sh)
  | STerminate pid code => match terminate_process secret c sh pid code with
                           | (Ok c', sh', _) => (c', sh')
                           | (_, sh', _) => (c, sh')
                           end
  end.

Record sched_inv (c : SchedulerContext) : Prop := {
  si_pids : NoDup (map fst (processes c));
  si_fresh : Forall (fun x => x.1 < next_pid c) (processes c);
  si_index : 0 <= schedule_index c < len (processes c);
  si_current : fst <$> (processes c !! Z.to_nat (schedule_index c)) = Some (current_pid c);
  si_running : forall k, 0 <= k -> state_at (processes c) k = Some Running -> k = schedule_index c
}.

(** Updates that keep the pids and make nothing running. *)
Lemma inv_keep c l : sched_inv c -> map fst l = map fst (processes c) ->
  (forall k, 0 <= k -> state_at l k = Some Running -> state_at (processes c) k = Some Running) ->
  sched_inv (set_processes c l).
Proof.
  intros [H1 H2 H3 H4 H5] Hf Hr.
  assert (len l = len (processes c)) as Hl.
  { unfold len. rewrite <- (length_map fst l), Hf. by rewrite length_map. }
  split; cbn [processes set_processes schedule_index current_pid next_pid].
  - by rewrite Hf.
  - rewrite <- (Forall_map fst (fun z => z < next_pid c)) in *. by rewrite Hf.
  - lia.
  - rewrite <- list_lookup_fmap in *. change (fst <$> l) with (map fst l).
    change (fst <$> processes c) with (map fst (processes c)) in H4. by rewrite Hf.
  - intros k Hk Hs. apply H5; [done|]. by apply Hr.
Qed.

Lemma inv_update c pid f : sched_inv c ->
  (forall p, find_process c pid = Some p -> pr_state (f p) = Running -> pr_state p = Running) ->
  sched_inv (update_process c pid f).
Proof.
  intros Hc Hf. unfold update_process, find_process in *. destruct (position _ _) as [i|]; [|done].
  apply inv_keep; [done|apply alter_fst|]. intros k Hk. unfold state_at. rewrite list_lookup_alter.
  case_decide as Hd; [|done]. rewrite <- Hd. destruct (processes c !! i) as [x|]; [|done]. simpl.
  intros [= Hs]. f_equal. by apply (Hf x.2 eq_refl).
Qed.

Lemma inv_unblock c pid : sched_inv c -> sched_inv (unblock_process c pid).
Proof.
  intros Hc. apply inv_update; [done|]. intros p _. rewrite unblock_state. by destruct (pr_state p).
Qed.

Lemma inv_unblock_all ws : forall c, sched_inv c -> sched_inv (foldl unblock_process c ws).
Proof. induction ws as [|w ws IH]; intros c Hc; cbn [foldl]; [done|]. by apply IH, inv_unblock. Qed.

Lemma inv_nonempty c : sched_inv c -> processes c <> [].
Proof. intros [_ _ H3 _ _] E. unfold len in H3. rewrite E in H3. simpl in H3. lia. Qed.

Lemma inv_schedule c : sched_inv c -> sched_inv (schedule_step c) /\ (schedule_next c).1 <> Panic.
Proof.
  intros Hc. pose proof Hc as [H1 H2 H3 H4 H5].
  destruct (schedule_next_spec c (inv_nonempty c Hc) (proj1 H3)) as (i & old & new & Eo & En & Hi & _ & E).
  set (l := processes c) in *. rewrite Z.min_l in E by lia. unfold schedule_step. rewrite E.
  split; [|done]. simpl.
  assert (len (switch_states (schedule_index c) i l) = len l) as Hl by (unfold len; by rewrite switch_states_length).
  split; cbn [processes set_schedule schedule_index current_pid next_pid].
  - by rewrite switch_states_fst.
  - rewrite <- (Forall_map fst (fun z => z < next_pid c)) in *. by rewrite switch_states_fst.
  - lia.
  - by rewrite switch_states_pid, En.
  - intros k Hk. rewrite switch_states_at by lia.
    destruct (Z.eqb_spec (schedule_index c) i) as [Heq|Hne].
    + intros Hs. rewrite <- Heq. by apply H5.
    + destruct (Z.eqb_spec k i) as [|Hki]; [done|].
      destruct (Z.eqb_spec k (schedule_index c)) as [->|Hkc]; simpl.
      * case_bool_decide as Hr; [done|]. intros Hs. done.
      * intros Hs. by destruct Hkc; apply H5.
Qed.

Lemma inv_spawn c p : sched_inv c -> 0 <= next_pid c < u64_max -> sched_inv (spawn c p).
Proof.
  intros Hc Hn. pose proof Hc as [H1 H2 H3 H4 H5]. unfold spawn, allocate_pid.
  set (c0 := mkSched _ _ _ _ _ _ _).
  assert (u64_wrapping_add (next_pid c) 1 = next_pid c + 1) as Hw.
  { unfold u64_wrapping_add. rewrite Z.mod_small; [done|unfold u64_max in Hn; lia]. }
  assert (sched_inv c0) as Hc0.
  { split; try done. cbn [processes next_pid c0]. rewrite Hw. eapply Forall_impl; [exact H2|]. simpl. lia. }
  unfold add. cbn [pr_id processes c0]. destruct (MAX_PROCESSES <=? _); [done|].
  assert (position (same_pid (next_pid c)) (processes c) = None) as ->.
  { destruct (position _ _) as [k|] eqn:Ek; [|done]. exfalso.
    destruct (position_Some _ _ _ Ek) as (x & Hx & Hs & _). unfold same_pid in Hs. apply Z.eqb_eq in Hs.
    pose proof (Forall_lookup_1 _ _ _ _ H2 Hx) as Hlt. simpl in Hlt. lia. }
  cbn [snd]. set (q := mkProcess _ _ _ _ _ _ _ _ _).
  assert (len (processes c ++ [(next_pid c, q)]) = len (processes c) + 1) as Hl
    by (unfold len; rewrite length_app; simpl; lia).
  split; cbn [processes set_processes schedule_index current_pid next_pid c0].
  - rewrite map_app. apply NoDup_app. split; [done|]. split; [|apply NoDup_singleton].
    intros z Hz ->%list_elem_of_singleton. apply list_elem_of_fmap in Hz as (x & Hx & Hin).
    rewrite Forall_forall in H2. specialize (H2 x Hin). simpl in *. lia.
  - rewrite Hw. apply Forall_app. split; [eapply Forall_impl; [exact H2|]; simpl; lia|].
    apply Forall_cons. split; [simpl; lia|done].
  - lia.
  - rewrite lookup_app_l by (unfold len in H3; lia). done.
  - intros k Hk. unfold state_at. destruct (Nat.lt_ge_cases (Z.to_nat k) (length (processes c))) as [Hlt|Hge].
    + rewrite lookup_app_l by done. apply H5. done.
    + rewrite lookup_app_r by done. destruct (Z.to_nat k - length (processes c))%nat as [|m]; simpl; done.
Qed.

Lemma inv_terminate secret c sh pid code : sched_inv c ->
  match terminate_process secret c sh pid code with
  | (Ok c', _, _) => sched_inv c'
  | _ => True
  end.
Proof.
  intros Hc. unfold terminate_process.
  assert (forall c1, sched_inv c1 -> forall ws, sched_inv (unblock_waiting_parents (foldl unblock_process c1 ws) pid)) as Hrest.
  { intros c1 H1 ws. apply (inv_unblock_all ws) in H1. unfold unblock_waiting_parents.
    repeat case_match; try done. by apply inv_unblock. }
  assert (forall c3 (sh' : Shared) (fr : Freed), sched_inv c3 ->
    match (if current_pid c3 =? pid then
             match schedule_next c3 with (Ok _, c4) => (Ok c4, sh', fr) | (_, _) => (Panic, sh', fr) end
           else (Ok c3, sh', fr) : result unit SchedulerContext * Shared * Freed) with
    | (Ok c', _, _) => sched_inv c' | _ => True end) as Hend.
  { intros c3 sh' fr H3. destruct (current_pid c3 =? pid); [|done].
    pose proof (inv_schedule c3 H3) as [H4 _]. unfold schedule_step in H4.
    by destruct (schedule_next c3) as [[]]. }
  destruct (find_process c pid) as [p|] eqn:Ef; [|apply Hend, (Hrest c Hc [])].
  unfold terminated. case_bool_decide.
  - apply Hend, (Hrest _). apply inv_update; [done|]. intros p0. congruence.
  - destruct (cleanup secret (pr_resources p) sh) as [[ws r] sh1]. apply Hend, Hrest.
    apply inv_update; [done|]. done.
Qed.

Lemma next_pid_step secret s op : 0 <= next_pid s.1 < u64_max ->
  next_pid (sched_step secret s op).1 <= next_pid s.1 + 1 /\ next_pid s.1 <= next_pid (sched_step secret s op).1.
Proof.
  assert (forall c, next_pid (schedule_step c) = next_pid c) as Hs.
  { intros c. unfold schedule_step, schedule_next. by repeat case_match. }
  assert (forall c q f, next_pid (update_process c q f) = next_pid c) as Hu.
  { intros c q f. unfold update_process. by case_match. }
  assert (forall ws c, next_pid (foldl unblock_process c ws) = next_pid c) as Hub.
  { induction ws as [|w ws IH]; intros c; cbn [foldl]; [done|]. rewrite IH. apply Hu. }
  destruct s as [c sh]. intros Hn. destruct op as [p| | |q|q code]; simpl in *.
  - assert (u64_wrapping_add (next_pid c) 1 = next_pid c + 1) as Hw.
    { unfold u64_wrapping_add. rewrite Z.mod_small; [done|unfold u64_max in Hn; lia]. }
    unfold spawn, allocate_pid, add. case_match; simpl; rewrite Hw; lia.
  - rewrite Hs. lia.
  - case_match; simpl; rewrite ?Hs, ?Hu; lia.
  - unfold unblock_process. rewrite Hu. lia.
  - assert (forall c1, next_pid c1 = next_pid c -> forall ws, next_pid (unblock_waiting_parents (foldl unblock_process c1 ws) q) = next_pid c) as Hrest.
    { intros c1 H1 ws. unfold unblock_waiting_parents. repeat case_match; unfold unblock_process at 1;
        rewrite ?Hu, Hub; done. }
    unfold terminate_process.
    destruct (match find_process c q with None => _ | Some _ => _ end) as [[[ws c1] sh1] fr] eqn:E1.
    assert (next_pid c1 = next_pid c) as H1.
    { destruct (find_process c q) as [p|]; [|by injection E1 as _ <- _ _].
      destruct (terminated secret code sh p) as [[[ws' p'] sh'] fr']. injection E1 as _ <- _ _. apply Hu. }
    pose proof (Hrest c1 H1 ws) as H3. pose proof (Hs (unblock_waiting_parents (foldl unblock_process c1 ws) q)) as H4.
    unfold schedule_step in H4. destruct (_ =? q); [|simpl; lia].
    destruct (schedule_next _) as [[]]; simpl in *; lia.
Qed.

Lemma inv_step secret s op : sched_inv s.1 -> 0 <= next_pid s.1 < u64_max -> sched_inv (sched_step secret s op).1.
Proof.
  destruct s as [c sh]. intros Hc Hn. destruct op as [p| | |q|q code]; simpl in *.
  - by apply inv_spawn.
  - by apply inv_schedule.
  - case_match; [done|]. simpl. apply inv_schedule. by apply inv_update.
  - by apply inv_unblock.
  - pose proof (inv_terminate secret c sh q code Hc) as Ht.
    by destruct (terminate_process secret c sh q code) as [[[] ] ].
Qed.

Lemma inv_run secret ops : forall s, sched_inv s.1 ->
  0 <= next_pid s.1 -> next_pid s.1 + Z.of_nat (length ops) <= u64_max ->
  sched_inv (foldl (sched_step secret) s ops).1.
Proof.
  induction ops as [|op ops IH]; intros s Hs H0 Hn; cbn [foldl]; [done|]. cbn [length] in Hn.
  pose proof (next_pid_step secret s op ltac:(lia)) as Hstep. apply IH; [apply inv_step; [done|lia]|lia..].
Qed.

(** The state [process::init] sets up: the idle process, running. *)
Definition idle_process : Process := mkProcess 1 "idle" Running 0 None 0 None None resources_new.
Definition sched_init : SchedulerContext :=
  let '(pid, c) := allocate_pid sched_new in
  set_current_pid (add c idle_process).2 pid.

(** C35. In every state the kernel reaches from its initial one by spawning,
    scheduling, blocking, unblocking and terminating processes, pids are
    distinct, the current pid is that of the process at the schedule index, and
    no other process is marked running. *)
Theorem one_running_process (secret : Z) (sh : Shared) (ops : list sched_op) :
  Z.of_nat (length ops) <= u64_max - 2 ->
  sched_inv (foldl (sched_step secret) (sched_init, sh) ops).1.
Proof.
  intros Hn. apply inv_run; [|vm_compute; discriminate|change (next_pid (sched_init, sh).1) with 2; lia].
  split.
  - apply NoDup_singleton.
  - apply Forall_cons. split; [reflexivity|done].
  - split; vm_compute; [discriminate|reflexivity].
  - reflexivity.
  - intros k Hk. unfold state_at. destruct (Z.to_nat k) as [|m] eqn:Ek; [|done]. intros _.
    change (schedule_index (sched_init, sh).1) with 0. lia.
Qed.

(** ** Three defects, on small systems

    Idle (1), a parent (2) and its child (3). *)
Definition demo_process (pid : Z) (name : string) (s : ProcessState) (parent : option Z) : Z * Process :=
  (pid, mkProcess pid name s 0 None 0 None parent resources_new).

Definition no_shared : Shared := mkShared ∅ [].

Definition exit_sched : SchedulerContext :=
  mkSched [demo_process 1 "idle" Ready None; demo_process 2 "app" Running None] 3 1 2 0 0 0.

(** The [exit] system call returns to the process that called it: the process is
    terminated and another one is current, but the CPU has not been switched. *)
Theorem exit_returns_to_dead_process :
  let '(r, c', cpu') := syscall_exit 0 exit_sched no_shared (mkCpu 0 (Some 2)) 7 in
  r = Ok (Ok 0) /\ pr_state <$> find_process c' 2 = Some Terminated
  /\ current_pid c' = 1 /\ running cpu' = Some 2.
Proof. vm_compute. done. Qed.

Definition fault_sched : SchedulerContext :=
  mkSched [demo_process 1 "idle" Ready None; demo_process 2 "sh" Blocked None;
           demo_process 3 "child" Running (Some 2)] 4 2 3 0 0 0.

(** A process killed by a CPU exception vanishes without waking the parent that
    waits for it; the parent stays blocked, while [terminate_process] wakes it. *)
Theorem fault_leaves_parent_blocked :
  let '(_, c1, _) := terminate_and_recover fault_sched (mkCpu 0 (Some 3)) in
  let '(r2, _, _) := terminate_process 0 fault_sched no_shared 3 1 in
  find_process c1 3 = None /\ pr_state <$> find_process c1 2 = Some Blocked
  /\ match r2 with Ok c2 => pr_state <$> find_process c2 2 = Some Ready | _ => False end.
Proof. vm_compute. done. Qed.

Definition wait_sched : SchedulerContext :=
  mkSched [demo_process 1 "idle" Ready None; demo_process 2 "sh" Running None;
           demo_process 3 "child" Ready (Some 2)] 4 1 2 0 0 0.

(** [wait4] with an explicit pid does not wait: it reports a child that is still
    ready to run as exited and drops it from the process list. *)
Theorem wait4_drops_live_child :
  let '(r, c', _) := sys_wait4 wait_sched (mkCpu 0 (Some 2)) 3 0 in
  r = Ok (3, Some 0) /\ pr_state <$> find_process wait_sched 3 = Some Ready
  /\ find_process c' 3 = None.
Proof. vm_compute. done. Qed.

(** ** Witnesses *)
Lemma schedule_next_round_robin_witness :
  exists i old new c', schedule_next wait_sched = (Ok (Some (old : Z * Process).1, (new : Z * Process).1), c')
  /\ schedule_index c' = i.
Proof.
  destruct (schedule_next_round_robin wait_sched) as (i & old & new & c' & H1 & _ & _ & _ & H2 & _).
  - discriminate.
  - vm_compute. discriminate.
  - exists i, old, new, c'. split; [exact H1|exact H2].
Defined.

Lemma ready_process_scheduled_witness :
  exists n, (n <= 3)%nat /\ current_pid (Nat.iter n schedule_step wait_sched) = 3.
Proof.
  destruct (ready_process_scheduled wait_sched 2 (demo_process 3 "child" Ready (Some 2))) as (n & H1 & _ & H2).
  - split; vm_compute; [discriminate|reflexivity].
  - lia.
  - reflexivity.
  - reflexivity.
  - exists n. split; [exact H1|exact H2].
Defined.

Lemma terminate_process_correct_witness :
  exists c' sh' p', terminate_process 0 fault_sched no_shared 3 9 =
    (Ok c', sh', mkFreed None None) /\ find_process c' 3 = Some p' /\ pr_state p' = Terminated.
Proof.
  destruct (terminate_process_correct 0 fault_sched no_shared 3 9 (demo_process 3 "child" Running (Some 2)).2)
    as (c' & sh' & p' & H1 & H2 & H3 & _).
  - reflexivity.
  - discriminate.
  - vm_compute. discriminate.
  - exists c', sh', p'. split; [exact H1|split; [exact H2|exact H3]].
Defined.

Lemma one_running_process_witness :
  sched_inv (foldl (sched_step 0) (sched_init, no_shared)
    [SSpawn idle_process; SSchedule; SBlock; SUnblock 2; STerminate 2 5]).1.
Proof.
  exact (one_running_process 0 no_shared [SSpawn idle_process; SSchedule; SBlock; SUnblock 2; STerminate 2 5]
    ltac:(vm_compute; discriminate)).
Defined.
