(* ===== verification/LinuxMemory.v ===== *)
(** * Memory system calls of the Linux compatibility layer

    [fullerene-kernel/src/linux/memory.rs]: validation of user ranges, the search
    for a free region, [mmap], [munmap], [mprotect] and [brk], over the page-table
    operations of the trait [PageTableHelper]
    ([petroleum/src/page_table/types.rs]) and the bitmap frame allocator.  The
    class [LawfulHelper] states what the system calls rely on of a page table. *)

From S2P Require Import Prelude Frames PageTable.

(** ** Constants *)
Definition PAGE_SIZE : Z := 4096.
Definition PAGE_MASK : Z := PAGE_SIZE - 1.
Definition MAX_LINUX_MEMORY : Z := 128 * 1024 * 1024.
Definition USER_ADDRESS_LIMIT : Z := 0x0000800000000000.
Definition DEFAULT_MMAP_BASE : Z := 0x0000000100000000.
Definition VDSO_SIZE : Z := PAGE_SIZE.
Definition VDSO_USER_BASE : Z := 0x700000000000.
Definition ENOMEM : Z := 12.
Definition EINVAL : Z := 22.
Definition ENOSYS : Z := 38.
Definition PROT_READ : Z := 1.
Definition PROT_WRITE : Z := 2.
Definition PROT_EXEC : Z := 4.
Definition MAP_SHARED : Z := 1.
Definition MAP_PRIVATE : Z := 2.
Definition MAP_FIXED : Z := 16.
Definition MAP_ANONYMOUS : Z := 32.
Definition NO_EXECUTE : Z := 2 ^ 63.

(** [(e as i64).wrapping_neg() as u64]. *)
Definition errno_code (e : Z) : Z := (- e) mod 2 ^ 64.

(** [args[i] as i32]. *)
Definition as_i32 (x : Z) : Z :=
  let y := x mod 2 ^ 32 in if y <? 2 ^ 31 then y else y - 2 ^ 32.

(** ** State *)
Record LinuxMmapRegion := mkRegion { rg_addr : Z; rg_size : Z; rg_prot : Z; rg_flags : Z }.

Record LinuxRuntime := mkRuntime {
  program_break : Z;
  initial_break : Z;
  mmap_regions : list LinuxMmapRegion
}.

Definition set_regions (rt : LinuxRuntime) (l : list LinuxMmapRegion) : LinuxRuntime :=
  mkRuntime (program_break rt) (initial_break rt) l.

(** ** Ranges *)
Definition page_down (a : Z) : Z := Z.land a (u64_not PAGE_MASK).

(** [VirtAddr::try_new] accepts canonical addresses. *)
Definition try_new (a : Z) : option Z := canonical_new a.
Definition is_user_address (a : Z) : bool := a <? 0x0000800000000000.

Definition checked_page_range (addr length : Z) (require_aligned_addr : bool) : result Z (Z * Z) :=
  if (length =? 0) || (MAX_LINUX_MEMORY <? length) then Err EINVAL else
  if require_aligned_addr && negb (Z.land addr PAGE_MASK =? 0) then Err EINVAL else
  let start := if require_aligned_addr then addr else page_down addr in
  match u64_checked_add addr (length - 1) with
  | None => Err EINVAL
  | Some last =>
    match u64_checked_add last PAGE_MASK with
    | None => Err EINVAL
    | Some x =>
      let end_ := page_down x in
      match u64_checked_sub end_ start with
      | None => Err EINVAL
      | Some size =>
        if (size =? 0) || (MAX_LINUX_MEMORY <? size) || (USER_ADDRESS_LIMIT <? end_) then Err EINVAL else
        match try_new start, try_new (end_ - 1) with
        | Some start_va, Some end_va =>
          if negb (is_user_address start_va) || negb (is_user_address end_va) then Err EINVAL
          else Ok (start, size)
        | _, _ => Err EINVAL
        end
      end
    end
  end.

Definition ranges_overlap (left_addr left_size right_addr right_size : Z) : bool :=
  match u64_checked_add left_addr left_size, u64_checked_add right_addr right_size with
  | Some left_end, Some right_end => (left_addr <? right_end) && (right_addr <? left_end)
  | _, _ => true
  end.

Definition region_overlaps (addr size : Z) (r : LinuxMmapRegion) : bool :=
  ranges_overlap (rg_addr r) (rg_size r) addr size.

Definition tracked_range_overlaps (rt : LinuxRuntime) (addr size : Z) : bool :=
  existsb (region_overlaps addr size) (mmap_regions rt).

Definition overlaps_reserved_user_mapping (addr size : Z) : bool :=
  ranges_overlap addr size VDSO_USER_BASE VDSO_SIZE.

Definition track_region (rt : LinuxRuntime) (addr size prot flags : Z) : LinuxRuntime :=
  set_regions rt (mmap_regions rt ++ [mkRegion addr size prot flags]).

Definition remove_region (rt : LinuxRuntime) (addr size : Z) : bool * LinuxRuntime :=
  match position (fun r => (rg_addr r =? addr) && (rg_size r =? size)) (mmap_regions rt) with
  | Some pos => (true, set_regions rt (delete pos (mmap_regions rt)))
  | None => (false, rt)
  end.

(** ** Page tables, as the system calls use them

    A [SystemResult] is an option, or a boolean where it carries no value: the
    system calls test for success and drop the error. *)
Class PageTableHelper (P : Type) := {
  pth_map_page : P -> Z -> Z -> Z -> BitmapFrameAllocator -> bool * P * BitmapFrameAllocator;
  pth_unmap_page : P -> Z -> option Z * P;
  pth_translate : P -> Z -> option Z;
  pth_set_flags : P -> Z -> Z -> bool * P;
  pth_get_flags : P -> Z -> option Z
}.

(** The memory manager: its page table and the global frame allocator. *)
Record Manager (P : Type) := mkManager {
  mg_pt : P;
  mg_frames : BitmapFrameAllocator;
  mg_initialized : bool
}.
Arguments mkManager {P} _ _ _.
Arguments mg_pt {P} _. Arguments mg_frames {P} _. Arguments mg_initialized {P} _.

Section Calls.
Context {P : Type} `{PageTableHelper P}.
Implicit Type mgr : Manager P.

Definition set_pt mgr (p : P) : Manager P := mkManager p (mg_frames mgr) (mg_initialized mgr).

Definition free_frame (b : BitmapFrameAllocator) (addr : Z) : result unit BitmapFrameAllocator :=
  if addr / 4096 <? total_frames b then
    match set_frame_used (addr / 4096) false b with Ok b' => Ok b' | _ => Panic end
  else Ok b.

(** A page that is not mapped is ignored; its frame is freed otherwise. *)
Definition safe_unmap_page mgr (virtual_addr : Z) : result unit unit * Manager P :=
  if negb (mg_initialized mgr) then (Err tt, mgr) else
  match pth_unmap_page (mg_pt mgr) virtual_addr with
  | (Some frame, p) =>
    match free_frame (mg_frames mgr) frame with
    | Ok b => (Ok tt, mkManager p b (mg_initialized mgr))
    | _ => (Panic, set_pt mgr p)
    end
  | (None, p) => (Ok tt, set_pt mgr p)
  end.

(** [(0..pages).any(..)] over the pages of a range. *)
Definition page_of (addr : Z) (index : nat) : option Z := u64_checked_add addr (Z.of_nat index * PAGE_SIZE).

Definition range_is_mapped mgr (addr size : Z) : bool :=
  existsb (fun index => match page_of addr index with
                        | None => true
                        | Some page => bool_decide (is_Some (pth_translate (mg_pt mgr) page))
                        end) (seq 0 (Z.to_nat (size / PAGE_SIZE))).

Definition range_is_owned_user_memory mgr (addr size : Z) : bool :=
  forallb (fun index => match page_of addr index with
                        | None => false
                        | Some page => match pth_get_flags (mg_pt mgr) page with
                                       | Some flags => negb (Z.land flags USER_ACCESSIBLE =? 0)
                                       | None => false
                                       end
                        end) (seq 0 (Z.to_nat (size / PAGE_SIZE))).

(** [(x + PAGE_MASK) & !PAGE_MASK]; the addition panics on overflow. *)
Definition page_up (x : Z) : option Z := page_down <$> u64_checked_add x PAGE_MASK.

(** The greatest end of the regions that overlap the candidate. *)
Definition overlap_end (rt : LinuxRuntime) (candidate size : Z) : Z :=
  default USER_ADDRESS_LIMIT
    (foldr (fun e acc => Some (match acc with None => e | Some a => Z.max e a end)) None
      (omap (fun r => u64_checked_add (rg_addr r) (rg_size r))
         (List.filter (region_overlaps candidate size) (mmap_regions rt)))).

(** The search loop; running out of fuel is [Panic]. *)
Fixpoint find_free_loop (fuel : nat) (rt : LinuxRuntime) mgr (size candidate : Z) : result unit Z :=
  match fuel with
  | O => Panic
  | S fuel =>
    match u64_checked_add candidate size with
    | None => Ok 0
    | Some e =>
      if USER_ADDRESS_LIMIT <? e then Ok 0
      else if tracked_range_overlaps rt candidate size then
        match page_up (overlap_end rt candidate size) with
        | None => Panic
        | Some c => find_free_loop fuel rt mgr size c
        end
      else if range_is_mapped mgr candidate size then
        find_free_loop fuel rt mgr size (u64_saturating_add candidate PAGE_SIZE)
      else Ok candidate
    end
  end.

Definition find_free_anon_region (fuel : nat) (rt : LinuxRuntime) mgr (size start : Z) : result unit Z :=
  match page_up start with
  | None => Panic
  | Some candidate => find_free_loop fuel rt mgr size candidate
  end.

(** ** mmap *)
Fixpoint rollback mgr (mapped : list Z) : Manager P :=
  match mapped with
  | [] => mgr
  | page :: mapped => rollback (safe_unmap_page mgr page).2 mapped
  end.

(** The pages from index [i] on; [mapped] are those mapped so far, in order. *)
Fixpoint map_pages (n : nat) (i addr page_flags : Z) mgr (mapped : list Z) : result Z unit * Manager P :=
  match n with
  | O => (Ok tt, mgr)
  | S n =>
    let page := addr + i * PAGE_SIZE in
    match allocate_frame (mg_frames mgr) with
    | (Ok None, b) => (Err ENOMEM, rollback (mkManager (mg_pt mgr) b (mg_initialized mgr)) mapped)
    | (Ok (Some frame), b) =>
      match pth_map_page (mg_pt mgr) page frame page_flags b with
      | (true, p, b) => map_pages n (i + 1) addr page_flags (mkManager p b (mg_initialized mgr)) (mapped ++ [page])
      | (false, p, b) =>
        match free_frame b frame with
        | Ok b => (Err ENOMEM, rollback (mkManager p b (mg_initialized mgr)) mapped)
        | _ => (Panic, mgr)
        end
      end
    | (_, b) => (Panic, mgr)
    end
  end.

Definition mmap_flags (prot : Z) : Z :=
  let f := Z.lor (Z.lor PRESENT USER_ACCESSIBLE) NO_EXECUTE in
  let f := if negb (Z.land prot PROT_WRITE =? 0) then Z.lor f WRITABLE else f in
  if negb (Z.land prot PROT_EXEC =? 0) then Z.ldiff f NO_EXECUTE else f.

(** The arguments are [args[0]], [args[1]], [args[2]], [args[3]] and [args[5]];
    [mgr] is [None] before the memory manager exists. *)
Definition sys_mmap (fuel : nat) (rt : LinuxRuntime) (mgr : option (Manager P))
    (addr_hint length arg2 arg3 offset : Z) : result unit Z * LinuxRuntime * option (Manager P) :=
  let prot := as_i32 arg2 in
  let flags := as_i32 arg3 in
  let fail e := (Ok (errno_code e), rt, mgr) in
  if negb (Z.land prot (Z.lnot (Z.lor (Z.lor PROT_READ PROT_WRITE) PROT_EXEC)) =? 0) then fail EINVAL else
  let kind := Z.land flags (Z.lor MAP_PRIVATE MAP_SHARED) in
  if (kind =? 0) || (kind =? Z.lor MAP_PRIVATE MAP_SHARED) then fail EINVAL else
  if negb (Z.land flags MAP_FIXED =? 0) then fail EINVAL else
  if length =? 0 then fail EINVAL else
  if Z.land flags MAP_ANONYMOUS =? 0 then fail ENOSYS else
  if negb (offset =? 0) then fail EINVAL else
  match checked_page_range 0 length false with
  | Err e => fail e
  | Panic => (Panic, rt, mgr)
  | Ok (_, aligned_len) =>
    match mgr with
    | None => fail ENOMEM
    | Some m =>
      match (if addr_hint =? 0 then Ok DEFAULT_MMAP_BASE
             else let? (a, _) := checked_page_range addr_hint aligned_len false in Ok a) with
      | Err e => fail e
      | Panic => (Panic, rt, mgr)
      | Ok hint =>
        match find_free_anon_region fuel rt m aligned_len hint with
        | Ok addr =>
          if addr =? 0 then fail ENOMEM else
          match map_pages (Z.to_nat (aligned_len / PAGE_SIZE)) 0 addr (mmap_flags prot) m [] with
          | (Ok _, m') => (Ok addr, track_region rt addr aligned_len prot flags, Some m')
          | (Err e, m') => (Ok (errno_code e), rt, Some m')
          | (Panic, m') => (Panic, rt, Some m')
          end
        | _ => (Panic, rt, mgr)
        end
      end
    end
  end.

(** ** munmap *)
Fixpoint unmap_loop (n : nat) (i addr : Z) mgr : result Z unit * Manager P :=
  match n with
  | O => (Ok tt, mgr)
  | S n =>
    match safe_unmap_page mgr (addr + i * PAGE_SIZE) with
    | (Ok _, mgr) => unmap_loop n (i + 1) addr mgr
    | (Err _, mgr) => (Err EINVAL, mgr)
    | (Panic, mgr) => (Panic, mgr)
    end
  end.

Definition sys_munmap (rt : LinuxRuntime) (mgr : option (Manager P)) (addr length : Z) :
    result unit Z * LinuxRuntime * option (Manager P) :=
  let fail e := (Ok (errno_code e), rt, mgr) in
  match checked_page_range addr length true with
  | Err e => fail e
  | Panic => (Panic, rt, mgr)
  | Ok (aligned_addr, aligned_len) =>
    if overlaps_reserved_user_mapping aligned_addr aligned_len then fail EINVAL else
    match mgr with
    | None => fail ENOMEM
    | Some m =>
      if negb (range_is_owned_user_memory m aligned_addr aligned_len) then fail EINVAL else
      match unmap_loop (Z.to_nat (aligned_len / PAGE_SIZE)) 0 aligned_addr m with
      | (Ok _, m') => (Ok 0, (remove_region rt aligned_addr aligned_len).2, Some m')
      | (Err e, m') => (Ok (errno_code e), rt, Some m')
      | (Panic, m') => (Panic, rt, Some m')
      end
    end
  end.

(** ** mprotect *)
Definition mprotect_flags (prot : Z) : Z :=
  if prot =? 0 then USER_ACCESSIBLE else
  let f := Z.lor USER_ACCESSIBLE PRESENT in
  let f := if negb (Z.land prot PROT_WRITE =? 0) then Z.lor f WRITABLE else f in
  if Z.land prot PROT_EXEC =? 0 then Z.lor f NO_EXECUTE else f.

Fixpoint original_flags (n : nat) (i addr : Z) mgr : option (list (Z * Z)) :=
  match n with
  | O => Some []
  | S n =>
    match pth_get_flags (mg_pt mgr) (addr + i * PAGE_SIZE) with
    | Some flags => cons (addr + i * PAGE_SIZE, flags) <$> original_flags n (i + 1) addr mgr
    | None => None
    end
  end.

Fixpoint restore_flags (p : P) (l : list (Z * Z)) : P :=
  match l with
  | [] => p
  | (page, flags) :: l => restore_flags (pth_set_flags p page flags).2 l
  end.

(** [done] are the pages changed so far, with their flags before. *)
Fixpoint protect_loop (p : P) (page_flags : Z) (done todo : list (Z * Z)) : result Z unit * P :=
  match todo with
  | [] => (Ok tt, p)
  | (page, flags) :: todo =>
    match pth_set_flags p page page_flags with
    | (true, p) => protect_loop p page_flags (done ++ [(page, flags)]) todo
    | (false, p) => (Err ENOMEM, restore_flags p done)
    end
  end.

Definition set_region_prot (rt : LinuxRuntime) (addr size prot : Z) : LinuxRuntime :=
  match position (fun r => (rg_addr r =? addr) && (rg_size r =? size)) (mmap_regions rt) with
  | Some pos => set_regions rt (alter (fun r => mkRegion (rg_addr r) (rg_size r) prot (rg_flags r)) pos (mmap_regions rt))
  | None => rt
  end.

Definition sys_mprotect (rt : LinuxRuntime) (mgr : option (Manager P)) (addr length arg2 : Z) :
    result unit Z * LinuxRuntime * option (Manager P) :=
  let prot := as_i32 arg2 in
  let fail e := (Ok (errno_code e), rt, mgr) in
  if negb (Z.land prot (Z.lnot (Z.lor (Z.lor PROT_READ PROT_WRITE) PROT_EXEC)) =? 0) then fail EINVAL else
  match checked_page_range addr length false with
  | Err e => fail e
  | Panic => (Panic, rt, mgr)
  | Ok (aligned_addr, aligned_len) =>
    if overlaps_reserved_user_mapping aligned_addr aligned_len then fail EINVAL else
    match mgr with
    | None => fail ENOMEM
    | Some m =>
      if negb (range_is_owned_user_memory m aligned_addr aligned_len) then fail EINVAL else
      match original_flags (Z.to_nat (aligned_len / PAGE_SIZE)) 0 aligned_addr m with
      | None => fail EINVAL
      | Some orig =>
        match protect_loop (mg_pt m) (mprotect_flags prot) [] orig with
        | (Ok _, p) => (Ok 0, set_region_prot rt aligned_addr aligned_len prot, Some (set_pt m p))
        | (Err e, p) => (Ok (errno_code e), rt, Some (set_pt m p))
        | (Panic, p) => (Panic, rt, Some (set_pt m p))
        end
      end
    end
  end.

(** ** brk *)
(** Rolling back the first [n] pages of the growth. *)
Fixpoint brk_rollback (only_mapped : bool) (n : nat) (j start_page : Z) mgr : Manager P :=
  match n with
  | O => mgr
  | S n =>
    let page := start_page + j * PAGE_SIZE in
    let mgr := if only_mapped && negb (bool_decide (is_Some (pth_translate (mg_pt mgr) page))) then mgr
               else (safe_unmap_page mgr page).2 in
    brk_rollback only_mapped n (j + 1) start_page mgr
  end.

Fixpoint brk_grow (n : nat) (i start_page : Z) mgr : result unit bool * Manager P :=
  match n with
  | O => (Ok true, mgr)
  | S n =>
    match allocate_frame (mg_frames mgr) with
    | (Ok None, b) =>
      (Ok false, brk_rollback true (Z.to_nat i) 0 start_page (mkManager (mg_pt mgr) b (mg_initialized mgr)))
    | (Ok (Some frame), b) =>
      match pth_map_page (mg_pt mgr) (start_page + i * PAGE_SIZE) frame
              (Z.lor (Z.lor PRESENT WRITABLE) USER_ACCESSIBLE) b with
      | (true, p, b) => brk_grow n (i + 1) start_page (mkManager p b (mg_initialized mgr))
      | (false, p, b) =>
        match free_frame b frame with
        | Ok b => (Ok false, brk_rollback false (Z.to_nat i) 0 start_page (mkManager p b (mg_initialized mgr)))
        | _ => (Panic, mgr)
        end
      end
    | (_, b) => (Panic, mgr)
    end
  end.

(** [(x + align - 1) & !(align - 1)]; here [x + align] is what can overflow. *)
Definition brk_page_up (x : Z) : option Z :=
  (fun y => page_down (y - 1)) <$> u64_checked_add x PAGE_SIZE.

Definition sys_brk (rt : LinuxRuntime) (mgr : option (Manager P)) (new_brk : Z) :
    result unit Z * LinuxRuntime * option (Manager P) :=
  if new_brk =? 0 then (Ok (program_break rt), rt, mgr) else
  if (new_brk <? initial_break rt) || (USER_ADDRESS_LIMIT <=? new_brk)
     || (MAX_LINUX_MEMORY <? new_brk - initial_break rt) then (Ok (program_break rt), rt, mgr) else
  let old_brk := program_break rt in
  let moved := mkRuntime new_brk (initial_break rt) (mmap_regions rt) in
  if old_brk <? new_brk then
    match brk_page_up old_brk, brk_page_up new_brk with
    | Some start_page, Some end_page =>
      if start_page <? end_page then
        match mgr with
        | None => (Ok old_brk, rt, mgr)
        | Some m =>
          let growth := end_page - start_page in
          if tracked_range_overlaps rt start_page growth || range_is_mapped m start_page growth
          then (Ok old_brk, rt, mgr) else
          match brk_grow (Z.to_nat (growth / PAGE_SIZE)) 0 start_page m with
          | (Ok true, m') => (Ok new_brk, moved, Some m')
          | (Ok false, m') => (Ok old_brk, rt, Some m')
          | (_, m') => (Panic, rt, Some m')
          end
        end
      else (Ok new_brk, moved, mgr)
    | _, _ => (Panic, rt, mgr)
    end
  else (Ok new_brk, moved, mgr).

Definition sys_mremap (rt : LinuxRuntime) : Z := errno_code ENOSYS.
Definition sys_madvise (rt : LinuxRuntime) : Z := 0.
End Calls.

(** ** Page arithmetic *)
Ltac page_lia := Z.to_euclidean_division_equations; lia.

Lemma page_down_spec a : u64_range a -> page_down a = a - a mod 4096.
Proof.
  intros [H0 H1]. unfold page_down.
  assert (Z.land a (u64_not PAGE_MASK) = Z.ldiff a (Z.ones 12)) as ->.
  { apply Z.bits_inj'. intros k Hk.
    rewrite Z.land_spec, Z.ldiff_spec. unfold u64_not. rewrite Z.lxor_spec.
    change PAGE_MASK with (Z.ones 12). change u64_max with (Z.ones 64).
    destruct (Z.lt_ge_cases k 64).
    - by rewrite (Z.ones_spec_low 64 k) by lia.
    - assert (Z.testbit a k = false) as ->; [|done].
      destruct (Z.eq_dec a 0) as [->|]; [apply Z.bits_0|].
      apply Z.bits_above_log2; [done|].
      apply Z.lt_le_trans with 64; [|done].
      apply Z.log2_lt_pow2; unfold u64_max in H1; lia. }
  rewrite Z.ldiff_ones_r, Z.shiftr_div_pow2, Z.shiftl_mul_pow2 by lia.
  change (2 ^ 12) with 4096. page_lia.
Qed.

Lemma page_mask_spec a : Z.land a PAGE_MASK = a mod 4096.
Proof. change PAGE_MASK with (Z.ones 12). by rewrite Z.land_ones by lia. Qed.

Lemma page_up_spec x : 0 <= x -> x + 4095 <= u64_max ->
  exists c, page_up x = Some c /\ x <= c < x + 4096 /\ c mod 4096 = 0.
Proof.
  intros H0 H1. unfold page_up. rewrite u64_checked_add_fit by (unfold PAGE_MASK, PAGE_SIZE; lia).
  cbn. rewrite page_down_spec by (unfold u64_range, PAGE_MASK, PAGE_SIZE; lia).
  eexists. split; [done|]. unfold PAGE_MASK, PAGE_SIZE. page_lia.
Qed.

Lemma canonical_user a : 0 <= a < USER_ADDRESS_LIMIT -> try_new a = Some a /\ is_user_address a = true.
Proof.
  unfold USER_ADDRESS_LIMIT. intros Ha. unfold try_new, canonical_new, as_i64, is_user_address.
  rewrite (proj2 (Z.ltb_lt a (2 ^ 63))) by lia.
  rewrite Z.shiftr_div_pow2, Z.div_small by lia. split; [done|]. apply Z.ltb_lt. lia.
Qed.

(** The start and the size of the pages [checked_page_range] computes. *)
Definition range_start (addr : Z) : Z := addr - addr mod 4096.
Definition range_size (addr length : Z) : Z :=
  let x := addr + length - 1 + 4095 in x - x mod 4096 - range_start addr.

Lemma checked_page_range_correct_aux (addr length : Z) (aligned : bool) :
  u64_range addr -> u64_range length ->
  match checked_page_range addr length aligned with
  | Ok (start, size) =>
      0 < length <= MAX_LINUX_MEMORY /\ (aligned = true -> addr mod 4096 = 0)
      /\ start = range_start addr /\ size = range_size addr length
      /\ start mod 4096 = 0 /\ size mod 4096 = 0 /\ 0 < size <= MAX_LINUX_MEMORY
      /\ start <= addr /\ start + size <= USER_ADDRESS_LIMIT
      /\ (addr + length <= start + size <-> (addr + length - 1) mod 4096 <> 0)
  | Err e =>
      e = EINVAL
      /\ (length = 0 \/ MAX_LINUX_MEMORY < length \/ (aligned = true /\ addr mod 4096 <> 0)
          \/ range_size addr length = 0 \/ MAX_LINUX_MEMORY < range_size addr length
          \/ USER_ADDRESS_LIMIT < range_start addr + range_size addr length)
  | Panic => False
  end.
Proof.
  intros Ha Hl. unfold checked_page_range. rewrite page_mask_spec.
  assert (Hm : MAX_LINUX_MEMORY = 134217728) by done.
  assert (Hu : USER_ADDRESS_LIMIT = 2 ^ 47) by done.
  assert (Hp : PAGE_MASK = 4095) by done. unfold u64_range in *.
  destruct (Z.eqb_spec length 0); [by cbn; auto|].
  destruct (Z.ltb_spec MAX_LINUX_MEMORY length); [by cbn; auto 6|]. cbn [orb].
  destruct (aligned && negb (addr mod 4096 =? 0)) eqn:Eal.
  { apply andb_true_iff in Eal as [-> Eal]. apply negb_true_iff, Z.eqb_neq in Eal. split; [done|]. auto 6. }
  assert (Hst : (if aligned then addr else page_down addr) = range_start addr).
  { unfold range_start. destruct aligned; [|by apply page_down_spec].
    apply negb_false_iff, Z.eqb_eq in Eal. lia. }
  assert (Hal : aligned = true -> addr mod 4096 = 0).
  { intros ->. by apply negb_false_iff, Z.eqb_eq in Eal. }
  rewrite Hst. clear Hst Eal. cbv zeta. rewrite Hp.
  assert (Hbig : u64_max < addr + (length - 1) + 4095 ->
    USER_ADDRESS_LIMIT < range_start addr + range_size addr length).
  { unfold range_size. rewrite Hu. unfold u64_max. intros. page_lia. }
  destruct (u64_checked_add addr (length - 1)) as [last|] eqn:E1.
  2:{ apply u64_checked_add_None in E1. split; [done|]. do 5 right. apply Hbig. lia. }
  apply u64_checked_add_Some in E1 as [-> _].
  destruct (u64_checked_add _ 4095) as [x|] eqn:E2.
  2:{ apply u64_checked_add_None in E2. split; [done|]. do 5 right. by apply Hbig. }
  apply u64_checked_add_Some in E2 as [-> E2].
  rewrite page_down_spec by (unfold u64_range; lia).
  assert (Hend : addr + (length - 1) + 4095 - (addr + (length - 1) + 4095) mod 4096
    = range_start addr + range_size addr length).
  { unfold range_size. replace (addr + length - 1 + 4095) with (addr + (length - 1) + 4095); lia. }
  rewrite Hend. clear Hbig.
  assert (Hfacts : 0 <= range_start addr <= addr /\ range_start addr mod 4096 = 0
    /\ 0 <= range_size addr length /\ range_size addr length mod 4096 = 0
    /\ (addr + length <= range_start addr + range_size addr length <-> (addr + length - 1) mod 4096 <> 0)).
  { unfold range_size, range_start. clear Hend Hal. page_lia. }
  destruct Hfacts as (F1 & F2 & F3 & F4 & F5). clear Hend.
  generalize dependent (range_size addr length). generalize dependent (range_start addr).
  intros st F1 F2 sz F3 F4 F5. unfold u64_checked_sub.
  rewrite (proj2 (Z.leb_le _ _)) by lia. replace (st + sz - st) with sz by lia.
  destruct (Z.eqb_spec sz 0); [by cbn; auto 6|].
  destruct (Z.ltb_spec MAX_LINUX_MEMORY sz); [by cbn; auto 7|].
  destruct (Z.ltb_spec USER_ADDRESS_LIMIT (st + sz)); [by cbn; auto 8|]. cbn [orb].
  destruct (canonical_user st) as [-> ->]; [lia|].
  destruct (canonical_user (st + sz - 1)) as [-> ->]; [lia|]. cbn.
  split_and!; try done; lia.
Qed.

(** Validation of a user range: it succeeds exactly for a length of at most
    128 MiB, an aligned address where one is required, and a non-empty page range of
    at most 128 MiB below the user limit; it then returns the whole pages from the
    page of the address on, and the range they form contains the last byte of the
    request unless that byte is the first of a page. *)
Theorem checked_page_range_correct (addr length : Z) (aligned : bool) :
  u64_range addr -> u64_range length ->
  match checked_page_range addr length aligned with
  | Ok (start, size) =>
      0 < length <= MAX_LINUX_MEMORY /\ (aligned = true -> addr mod 4096 = 0)
      /\ start = range_start addr /\ size = range_size addr length
      /\ start mod 4096 = 0 /\ size mod 4096 = 0 /\ 0 < size <= MAX_LINUX_MEMORY
      /\ start <= addr /\ start + size <= USER_ADDRESS_LIMIT
      /\ (addr + length <= start + size <-> (addr + length - 1) mod 4096 <> 0)
  | Err e =>
      e = EINVAL
      /\ (length = 0 \/ MAX_LINUX_MEMORY < length \/ (aligned = true /\ addr mod 4096 <> 0)
          \/ range_size addr length = 0 \/ MAX_LINUX_MEMORY < range_size addr length
          \/ USER_ADDRESS_LIMIT < range_start addr + range_size addr length)
  | Panic => False
  end.
Proof. exact (checked_page_range_correct_aux addr length aligned). Qed.

Lemma checked_page_range_correct_witness :
  u64_range 0x1234 /\ u64_range 1 /\ checked_page_range 0x1234 1 false = Ok (0x1000, 4096)
  /\ 0x1234 + 1 <= 0x1000 + 4096.
Proof.
  assert (u64_range 0x1234) by (unfold u64_range, u64_max; lia).
  assert (u64_range 1) by (unfold u64_range, u64_max; lia).
  pose proof (checked_page_range_correct 0x1234 1 false ltac:(done) ltac:(done)) as H'.
  change (checked_page_range 0x1234 1 false) with (@Ok Z _ (0x1000, 4096)) in H'.
  split; [done|]. split; [done|]. split; [reflexivity|].
  destruct H' as (_ & _ & _ & _ & _ & _ & _ & _ & _ & H'). apply H'. vm_compute. discriminate.
Defined.

(** The rounding loses a page when the request ends one byte into it: a one-byte
    mapping is refused, and a request of one page and one byte gets one page. *)
Theorem checked_page_range_loses_last_page :
  checked_page_range 0 1 false = Err EINVAL
  /\ checked_page_range 0 4097 false = Ok (0, 4096)
  /\ checked_page_range 0x1000 4097 true = Ok (0x1000, 4096).
Proof. vm_compute. auto. Qed.

(** ** The search for a free region *)
Definition region_ok (r : LinuxMmapRegion) : Prop :=
  0 <= rg_addr r /\ 0 < rg_size r /\ rg_addr r + rg_size r <= USER_ADDRESS_LIMIT.

Definition rt_ok (rt : LinuxRuntime) : Prop := Forall region_ok (mmap_regions rt).

Lemma limit_small : USER_ADDRESS_LIMIT + MAX_LINUX_MEMORY + 4096 <= u64_max.
Proof. vm_compute. discriminate. Qed.

Lemma region_overlaps_spec r c size : region_ok r -> 0 <= c -> c + size <= u64_max ->
  region_overlaps c size r = true <-> rg_addr r < c + size /\ c < rg_addr r + rg_size r.
Proof.
  intros (H0 & H1 & H2) Hc Hs. pose proof limit_small. unfold region_overlaps, ranges_overlap.
  assert (0 < MAX_LINUX_MEMORY) by done.
  rewrite !u64_checked_add_fit by lia. rewrite andb_true_iff, !Z.ltb_lt. done.
Qed.

Lemma max_fold_spec (l : list Z) :
  match foldr (fun e acc => Some (match acc with None => e | Some a => Z.max e a end)) None l with
  | None => l = []
  | Some m => m ∈ l /\ forall e, e ∈ l -> e <= m
  end.
Proof.
  induction l as [|e l IH]; [done|]. cbn. destruct (foldr _ None l) as [a|].
  - destruct IH as [Ha Hmax]. split.
    + destruct (Z.max_spec e a) as [[_ ->]|[_ ->]]; set_solver.
    + intros e' He. apply elem_of_cons in He as [->|He]; [lia|]. specialize (Hmax e' He). lia.
  - subst l. split; [set_solver|]. intros e' ?. assert (e' = e) by set_solver. lia.
Qed.

(** The jump past the overlapping regions: to the end of one of them. *)
Lemma overlap_end_spec rt c size :
  rt_ok rt -> 0 <= c -> c + size <= u64_max -> tracked_range_overlaps rt c size = true ->
  exists r, r ∈ mmap_regions rt /\ region_ok r /\ overlap_end rt c size = rg_addr r + rg_size r
  /\ rg_addr r < c + size /\ c < rg_addr r + rg_size r.
Proof.
  intros Hrt Hc Hs Ht. unfold overlap_end.
  set (l := omap _ _). pose proof (max_fold_spec l) as Hm.
  destruct (foldr _ None l) as [m|]; cbn.
  - destruct Hm as [Hm _]. apply list_elem_of_omap in Hm as (r & Hr & He).
    apply list_elem_of_In, filter_In in Hr as [Hr Ho]. apply list_elem_of_In in Hr.
    assert (Hok : region_ok r) by (by eapply Forall_forall in Hrt).
    apply u64_checked_add_Some in He as [-> _]. apply region_overlaps_spec in Ho; [|done..].
    exists r. naive_solver.
  - exfalso. apply existsb_exists in Ht as (r & Hr & Ho).
    assert (Hok : region_ok r) by (apply list_elem_of_In in Hr; by eapply Forall_forall in Hrt).
    assert (rg_addr r + rg_size r ∈ l) as Hin; [|rewrite Hm in Hin; set_solver].
    apply list_elem_of_omap. exists r. split.
    + apply list_elem_of_In, filter_In. done.
    + apply u64_checked_add_fit. destruct Hok as (_ & _ & ?). pose proof limit_small.
      assert (0 < MAX_LINUX_MEMORY) by done. lia.
Qed.

Section Search.
Context {P : Type} `{PageTableHelper P}.
Implicit Type mgr : Manager P.

(** An aligned address at which [size] bytes are below the user limit, overlap no
    tracked region and contain no mapped page. *)
Definition fits (rt : LinuxRuntime) mgr (size c : Z) : Prop :=
  c mod 4096 = 0 /\ c + size <= USER_ADDRESS_LIMIT
  /\ tracked_range_overlaps rt c size = false /\ range_is_mapped mgr c size = false.

Definition first_fit (rt : LinuxRuntime) mgr (size start : Z) (r : result unit Z) : Prop :=
  match r with
  | Ok c => (c = 0 /\ forall c', start <= c' -> ~ fits rt mgr size c')
            \/ (start <= c /\ fits rt mgr size c /\ forall c', start <= c' < c -> ~ fits rt mgr size c')
  | _ => False
  end.

(** Candidates that do not fit can be skipped. *)
Lemma first_fit_skip rt mgr size a b r :
  a <= b -> (forall c', a <= c' < b -> ~ fits rt mgr size c') ->
  first_fit rt mgr size b r -> first_fit rt mgr size a r.
Proof.
  intros Hab Hskip. destruct r as [c| |]; [|done..].
  intros [[-> Hn]|(Hb & Hf & Hn)]; [left|right]; split_and!; try done; try lia.
  - intros c' Hc'. destruct (Z.lt_ge_cases c' b); [apply Hskip; lia|by apply Hn].
  - intros c' Hc'. destruct (Z.lt_ge_cases c' b); [apply Hskip; lia|apply Hn; lia].
Qed.

Lemma find_free_loop_spec rt mgr size : rt_ok rt -> 0 < size <= MAX_LINUX_MEMORY ->
  forall c, 0 <= c <= USER_ADDRESS_LIMIT -> c mod 4096 = 0 ->
  exists n, forall fuel, (n <= fuel)%nat -> first_fit rt mgr size c (find_free_loop fuel rt mgr size c).
Proof.
  intros Hrt Hs c Hc. remember (Z.to_nat (USER_ADDRESS_LIMIT - c)) as k eqn:Ek.
  revert c Hc Ek. induction k as [k IH] using lt_wf_ind. intros c Hc Ek Hal.
  pose proof limit_small. assert (Hlal : USER_ADDRESS_LIMIT mod 4096 = 0) by done.
  assert (Hstep : forall b, c < b <= USER_ADDRESS_LIMIT -> b mod 4096 = 0 ->
    exists n, forall fuel, (n <= fuel)%nat -> first_fit rt mgr size b (find_free_loop fuel rt mgr size b)).
  { intros b Hb Hb'. apply (IH (Z.to_nat (USER_ADDRESS_LIMIT - b))); [lia|lia|done|done]. }
  assert (Hunf : forall fuel, find_free_loop (S fuel) rt mgr size c =
    if USER_ADDRESS_LIMIT <? c + size then Ok 0
    else if tracked_range_overlaps rt c size then
      match page_up (overlap_end rt c size) with
      | None => Panic | Some c => find_free_loop fuel rt mgr size c end
    else if range_is_mapped mgr c size then
      find_free_loop fuel rt mgr size (u64_saturating_add c PAGE_SIZE)
    else Ok c).
  { intros. cbn [find_free_loop]. by rewrite u64_checked_add_fit by lia. }
  destruct (Z.ltb_spec USER_ADDRESS_LIMIT (c + size)) as [Hl|Hl].
  { exists 1%nat. intros [|fuel] Hf; [lia|]. rewrite Hunf. left. split; [done|].
    intros c' Hc' (_ & Hx & _). lia. }
  destruct (tracked_range_overlaps rt c size) eqn:Et.
  - destruct (overlap_end_spec rt c size) as (r & Hr & (R0 & R1 & R2) & Eo & O1 & O2); [done|lia..|done|].
    destruct (page_up_spec (overlap_end rt c size)) as (b & Eb & Hb & Hbal); [lia..|].
    rewrite Eo in Hb. destruct (Hstep b) as [n Hn]; [page_lia|done|].
    exists (S n). intros [|fuel] Hf; [lia|]. rewrite Hunf, Eb.
    apply first_fit_skip with b; [lia| |apply Hn; lia].
    intros c' Hc' (Hal' & Hlim & Hno & _).
    (* an aligned address below [b] is below the end of [r], so the window overlaps it *)
    assert (c' < rg_addr r + rg_size r) by page_lia.
    assert (tracked_range_overlaps rt c' size = true) as Hyes; [|congruence].
    apply existsb_exists. exists r. split; [by apply list_elem_of_In|].
    apply region_overlaps_spec; [done|lia..].
  - destruct (range_is_mapped mgr c size) eqn:Em.
    + destruct (Hstep (c + 4096)) as [n Hn]; [page_lia|page_lia|].
      exists (S n). intros [|fuel] Hf; [lia|]. rewrite Hunf.
      unfold u64_saturating_add. change PAGE_SIZE with 4096. rewrite Z.min_l by lia.
      apply first_fit_skip with (c + 4096); [lia| |apply Hn; lia].
      intros c' Hc' (Hal' & _ & _ & Hm). assert (c' = c) as -> by page_lia. congruence.
    + exists 1%nat. intros [|fuel] Hf; [lia|]. rewrite Hunf. right.
      split; [lia|]. split; [done|]. intros c' Hc'. lia.
Qed.

Lemma first_fit_total (rt : LinuxRuntime) mgr (size start : Z) :
  rt_ok rt -> 0 < size <= MAX_LINUX_MEMORY -> 0 <= start <= USER_ADDRESS_LIMIT ->
  exists n, forall fuel, (n <= fuel)%nat ->
    first_fit rt mgr size start (find_free_anon_region fuel rt mgr size start).
Proof.
  intros Hrt Hs Hst. pose proof limit_small. assert (Hlal : USER_ADDRESS_LIMIT mod 4096 = 0) by done.
  assert (0 < MAX_LINUX_MEMORY) by done.
  destruct (page_up_spec start) as (c & Ec & Hc & Hal); [lia..|].
  destruct (find_free_loop_spec rt mgr size Hrt Hs c) as [n Hn]; [page_lia|done|].
  exists n. intros fuel Hf. unfold find_free_anon_region. rewrite Ec.
  apply first_fit_skip with c; [lia| |by apply Hn].
  intros c' Hc' (Hal' & _). page_lia.
Qed.

End Search.

(** ** What the system calls rely on of a page table

    [pages] is the table's contents: the frame and the flags of each 4 KiB page that
    has an entry.  As in [ProcessPageTable] over the x86_64 mapper, an entry without
    [PRESENT] still translates, is reported with empty flags and cannot be unmapped;
    [map_page] may take frames for intermediate tables and never releases one.  The laws
    are for page-aligned frames and entries that are present and not huge, others make the
    mapper panic or read as unused; [pt_ok] includes that the table is initialised and the
    active one, which [get_page_flags] reads, and that no user page lies in a huge page. *)
Definition has_flag (flags f : Z) : bool := negb (Z.land flags f =? 0).

Class LawfulHelper (P : Type) `{PageTableHelper P} := {
  pages : P -> gmap Z (Z * Z);
  pt_ok : P -> Prop;
  pages_frame : forall p v f fl, pt_ok p -> pages p !! v = Some (f, fl) -> 0 <= f;
  map_page_law : forall p v f fl b,
    pt_ok p -> bm_inv b -> 0 <= v < USER_ADDRESS_LIMIT -> v mod 4096 = 0 -> 0 <= f -> f mod 4096 = 0 ->
    has_flag fl PRESENT = true -> has_flag fl HUGE_PAGE = false -> pages p !! v = None ->
    let '(ok, p', b') := pth_map_page p v f fl b in
    pt_ok p' /\ bm_inv b' /\ (forall i, free b' i -> free b i)
    /\ pages p' = if ok : bool then <[v := (f, fl)]> (pages p) else pages p;
  unmap_page_law : forall p v, pt_ok p -> 0 <= v < USER_ADDRESS_LIMIT -> v mod 4096 = 0 ->
    let '(r, p') := pth_unmap_page p v in
    pt_ok p' /\
    match pages p !! v with
    | Some (f, fl) => if has_flag fl PRESENT then r = Some f /\ pages p' = delete v (pages p)
                      else r = None /\ pages p' = pages p
    | None => r = None /\ pages p' = pages p
    end;
  translate_law : forall p v, pt_ok p -> 0 <= v < USER_ADDRESS_LIMIT -> v mod 4096 = 0 ->
    is_Some (pth_translate p v) <-> is_Some (pages p !! v);
  get_flags_law : forall p v, pt_ok p -> 0 <= v < USER_ADDRESS_LIMIT -> v mod 4096 = 0 ->
    pth_get_flags p v = Some (match pages p !! v with
                              | Some (_, fl) => if has_flag fl PRESENT then fl else 0
                              | None => 0 end)
}.

(** The pages of a range. *)
Definition range_pages (addr : Z) (n : nat) : list Z := (fun k => addr + Z.of_nat k * 4096) <$> seq 0 n.

Lemma elem_of_range_pages addr n v :
  v ∈ range_pages addr n <-> exists k, (k < n)%nat /\ v = addr + Z.of_nat k * 4096.
Proof.
  unfold range_pages. rewrite list_elem_of_fmap. setoid_rewrite elem_of_seq.
  split; [intros (k & -> & Hk)|intros (k & Hk & ->)]; exists k; split; try done; lia.
Qed.

Lemma range_pages_S addr n : range_pages addr (S n) = range_pages addr n ++ [addr + Z.of_nat n * 4096].
Proof. unfold range_pages. by rewrite seq_S, fmap_app. Qed.

Lemma NoDup_range_pages addr n : NoDup (range_pages addr n).
Proof. apply NoDup_fmap_2_strong; [intros; lia|apply NoDup_seq]. Qed.

Lemma free_frame_spec b f : bm_inv b -> 0 <= f ->
  exists b', free_frame b f = Ok b' /\ bm_inv b'.
Proof.
  intros Hb Hf. unfold free_frame. destruct (f / 4096 <? total_frames b); [|eauto].
  destruct (set_frame_used_spec b (f / 4096) false Hb) as (b' & -> & Hb' & _); [by apply Z.div_pos|].
  eauto.
Qed.

Section MapTheorems.
Context {P : Type} `{LawfulHelper P}.
Implicit Type mgr : Manager P.

Definition mgr_ok mgr : Prop := pt_ok (mg_pt mgr) /\ bm_inv (mg_frames mgr) /\ mg_initialized mgr = true.
Definition mgr_pages mgr : gmap Z (Z * Z) := pages (mg_pt mgr).

Definition user_page (v : Z) : Prop := 0 <= v < USER_ADDRESS_LIMIT /\ v mod 4096 = 0.

Lemma safe_unmap_page_spec mgr v : mgr_ok mgr -> user_page v ->
  exists mgr', safe_unmap_page mgr v = (Ok tt, mgr') /\ mgr_ok mgr'
  /\ mgr_pages mgr' = match mgr_pages mgr !! v with
                      | Some (_, fl) => if has_flag fl PRESENT then delete v (mgr_pages mgr) else mgr_pages mgr
                      | None => mgr_pages mgr
                      end.
Proof.
  intros (Hp & Hb & Hi) [Hv Hal]. unfold safe_unmap_page, mgr_pages. rewrite Hi. cbn [negb].
  pose proof (unmap_page_law (mg_pt mgr) v Hp Hv Hal) as Hu.
  destruct (pth_unmap_page (mg_pt mgr) v) as [r p']. destruct Hu as [Hp' Hu].
  destruct (pages (mg_pt mgr) !! v) as [[f fl]|] eqn:Ev.
  - destruct (has_flag fl PRESENT).
    + destruct Hu as [-> Hu].
      destruct (free_frame_spec (mg_frames mgr) f) as (b' & -> & Hb'); [done|exact (pages_frame _ _ _ _ Hp Ev)|].
      eexists. split; [done|]. done.
    + destruct Hu as [-> Hu]. eexists. split; [done|]. done.
  - destruct Hu as [-> Hu]. eexists. split; [done|]. done.
Qed.

(** The pages of [l] have been mapped, present, on top of [m0]. *)
Definition mapped_over (m0 : gmap Z (Z * Z)) (fl : Z) mgr (l : list Z) : Prop :=
  mgr_ok mgr /\ NoDup l
  /\ (forall v, v ∉ l -> mgr_pages mgr !! v = m0 !! v)
  /\ (forall v, v ∈ l -> user_page v /\ m0 !! v = None /\ exists f, mgr_pages mgr !! v = Some (f, fl)).

Lemma rollback_spec m0 fl l : has_flag fl PRESENT = true -> forall mgr,
  mapped_over m0 fl mgr l -> mgr_ok (rollback mgr l) /\ mgr_pages (rollback mgr l) = m0.
Proof.
  intros Hfl. induction l as [|v l IH]; intros mgr (Hok & Hnd & Hout & Hin); cbn [rollback].
  { split; [done|]. apply map_eq. intros v. apply Hout. set_solver. }
  apply NoDup_cons in Hnd as [Hv Hnd].
  destruct (Hin v) as (Hu & Hnone & f & Hf); [set_solver|].
  destruct (safe_unmap_page_spec mgr v Hok Hu) as (mgr' & -> & Hok' & Hp'). cbn [snd].
  rewrite Hf, Hfl in Hp'. apply IH. split; [done|]. split; [done|]. rewrite Hp'. split.
  - intros w Hw. destruct (decide (w = v)) as [->|Hne]; [by rewrite lookup_delete_eq|].
    rewrite lookup_delete_ne by done. apply Hout. set_solver.
  - intros w Hw. assert (w <> v) by set_solver. rewrite lookup_delete_ne by done.
    apply Hin. set_solver.
Qed.

(** The frames of the pages of [l] were free in [b0], are used now and are distinct. *)
Definition fresh_frames (b0 : BitmapFrameAllocator) mgr (l : list Z) : Prop :=
  (forall i, free (mg_frames mgr) i -> free b0 i)
  /\ (forall v f fl, v ∈ l -> mgr_pages mgr !! v = Some (f, fl) ->
       exists k, f = k * 4096 /\ free b0 k /\ ~ free (mg_frames mgr) k)
  /\ (forall v w f fl fl', v ∈ l -> w ∈ l -> mgr_pages mgr !! v = Some (f, fl) ->
       mgr_pages mgr !! w = Some (f, fl') -> v = w).

(** Mapping one more page into a frame that was free. *)
Lemma fresh_frames_step b0 mgr mgr' l v k fl :
  fresh_frames b0 mgr l -> v ∉ l -> free (mg_frames mgr) k ->
  mgr_pages mgr' = <[v := (k * 4096, fl)]> (mgr_pages mgr) ->
  (forall i, free (mg_frames mgr') i -> free (mg_frames mgr) i /\ i <> k) ->
  fresh_frames b0 mgr' (l ++ [v]).
Proof.
  intros (F1 & F2 & F3) Hv Hk Hp Hfr. unfold fresh_frames. rewrite Hp.
  assert (Hold : forall w, w ∈ l -> <[v := (k * 4096, fl)]> (mgr_pages mgr) !! w = mgr_pages mgr !! w).
  { intros w Hw. apply lookup_insert_ne. set_solver. }
  assert (Hdiff : forall w fl', w ∈ l -> mgr_pages mgr !! w = Some (k * 4096, fl') -> False).
  { intros w fl' Hw Ew. destruct (F2 w _ _ Hw Ew) as (k' & Ek & _ & Hnf).
    assert (k' = k) as -> by lia. done. }
  split; [|split].
  - intros i Hi. by apply F1, Hfr.
  - intros w f fl' [Hw| ->%list_elem_of_singleton]%elem_of_app Ew.
    + rewrite Hold in Ew by done. destruct (F2 _ _ _ Hw Ew) as (k' & -> & Hf0 & Hnf).
      exists k'. split_and!; try done. intros Hf'. by apply Hnf, Hfr.
    + rewrite lookup_insert_eq in Ew. injection Ew as <- <-. exists k. split; [done|].
      split; [by apply F1|]. intros Hf'. by apply Hfr in Hf' as [_ ?].
  - intros w w' f fl1 fl2 [Hw| ->%list_elem_of_singleton]%elem_of_app
      [Hw'| ->%list_elem_of_singleton]%elem_of_app Ew Ew'; [| | |done].
    + rewrite !Hold in Ew, Ew' by done. by eapply F3.
    + rewrite Hold in Ew by done. rewrite lookup_insert_eq in Ew'. injection Ew' as <- <-. by edestruct Hdiff.
    + rewrite Hold in Ew' by done. rewrite lookup_insert_eq in Ew. injection Ew as <- <-. by edestruct Hdiff.
Qed.

Lemma mapped_over_step m0 fl mgr mgr' l v f :
  mapped_over m0 fl mgr l -> mgr_ok mgr' -> v ∉ l -> user_page v -> m0 !! v = None ->
  mgr_pages mgr' = <[v := (f, fl)]> (mgr_pages mgr) -> mapped_over m0 fl mgr' (l ++ [v]).
Proof.
  intros (Hok & Hnd & Hout & Hin) Hok' Hv Hu Hnone Hp. split; [done|]. rewrite Hp. split_and!.
  - apply NoDup_app. split_and!; [done|set_solver|apply NoDup_singleton].
  - intros w Hw. rewrite lookup_insert_ne by set_solver. apply Hout. set_solver.
  - intros w [Hw| ->%list_elem_of_singleton]%elem_of_app.
    + rewrite lookup_insert_ne by set_solver. by apply Hin.
    + rewrite lookup_insert_eq. eauto.
Qed.

(** The mapping loop: it maps every page, or undoes what it mapped. *)
Lemma map_pages_spec m0 b0 fl addr : has_flag fl PRESENT = true -> has_flag fl HUGE_PAGE = false -> forall n k mgr,
  mapped_over m0 fl mgr (range_pages addr k) -> fresh_frames b0 mgr (range_pages addr k) ->
  (forall v, v ∈ range_pages addr (k + n) -> user_page v /\ m0 !! v = None) ->
  match map_pages n (Z.of_nat k) addr fl mgr (range_pages addr k) with
  | (Ok _, mgr') => mapped_over m0 fl mgr' (range_pages addr (k + n))
                    /\ fresh_frames b0 mgr' (range_pages addr (k + n))
  | (Err e, mgr') => e = ENOMEM /\ mgr_ok mgr' /\ mgr_pages mgr' = m0
  | (Panic, _) => False
  end.
Proof.
  intros Hfl Hhuge. induction n as [|n IH]; intros k mgr Hm Hf Hpg.
  { cbn [map_pages]. by rewrite Nat.add_0_r. }
  cbn [map_pages]. cbv zeta. change PAGE_SIZE with 4096. set (v := addr + Z.of_nat k * 4096).
  pose proof Hm as ((Hp & Hb & Hi) & Hnd & Hout & Hin).
  assert (Hv : v ∈ range_pages addr (k + S n)) by (apply elem_of_range_pages; exists k; split; [lia|done]).
  assert (Hvn : v ∉ range_pages addr k).
  { intros (j & Hj & Ej)%elem_of_range_pages. unfold v in Ej. lia. }
  destruct (Hpg v Hv) as [[Hvr Hval] Hnone].
  destruct (allocate_spec _ Hb) as [(f & b1 & _ & Hb1 & Ht & -> & Hf0 & Hfree & _ & _ & Hused)|(_ & -> & _)].
  2:{ split; [done|]. apply (rollback_spec m0 fl); [done|]. by destruct mgr. }
  pose proof (map_page_law (mg_pt mgr) v (f * 4096) fl b1 Hp Hb1 Hvr Hval ltac:(lia) (Z_mod_mult _ _) Hfl Hhuge) as Hlaw.
  rewrite Hout in Hlaw by done. specialize (Hlaw Hnone).
  destruct (pth_map_page _ _ _ _ _) as [[ok p'] b2]. destruct Hlaw as (Hp' & Hb2 & Hsub & Hpages).
  destruct ok.
  - set (mgr' := mkManager p' b2 (mg_initialized mgr)).
    assert (mgr_pages mgr' = <[v := (f * 4096, fl)]> (mgr_pages mgr)) as Hpm by exact Hpages.
    assert (Hm' : mapped_over m0 fl mgr' (range_pages addr k ++ [v])).
    { by apply (mapped_over_step m0 fl mgr mgr' _ v (f * 4096)). }
    assert (Hf' : fresh_frames b0 mgr' (range_pages addr k ++ [v])).
    { apply (fresh_frames_step b0 mgr mgr' _ v f fl); [done..|]. intros i Hfi.
      apply Hsub in Hfi as [Hir Hui]. rewrite Hused in Hui by lia.
      apply orb_false_iff in Hui as [Hne Hui]. apply Z.eqb_neq in Hne.
      split; [|done]. split; [by rewrite <- Ht|done]. }
    unfold v in Hm', Hf'. rewrite <- range_pages_S in Hm', Hf'.
    specialize (IH (S k) mgr' Hm' Hf').
    replace (S k + n)%nat with (k + S n)%nat in IH by lia. specialize (IH Hpg).
    rewrite range_pages_S in IH. replace (Z.of_nat (S k)) with (Z.of_nat k + 1) in IH by lia. exact IH.
  - destruct (free_frame_spec b2 (f * 4096)) as (b3 & -> & Hb3); [done|lia|].
    split; [done|]. apply (rollback_spec m0 fl); [done|].
    split; [done|]. unfold mgr_pages in *. cbn. rewrite Hpages. done.
Qed.

Lemma existsb_false {A} (f : A -> bool) l : existsb f l = false -> forall x, x ∈ l -> f x = false.
Proof.
  intros He x Hx. destruct (f x) eqn:Ef; [|done].
  assert (existsb f l = true); [|congruence]. apply existsb_exists. exists x. by apply list_elem_of_In in Hx.
Qed.

Lemma range_page_user c size k : c mod 4096 = 0 -> 0 <= c -> 0 < size -> c + size <= USER_ADDRESS_LIMIT ->
  (k < Z.to_nat (size / 4096))%nat ->
  user_page (c + Z.of_nat k * 4096) /\ page_of c k = Some (c + Z.of_nat k * 4096).
Proof.
  intros Hal Hc Hs Hl Hk. pose proof limit_small. assert (0 < MAX_LINUX_MEMORY) by done.
  assert (Hk' : Z.of_nat k * 4096 + 4096 <= size) by page_lia.
  unfold page_of. change PAGE_SIZE with 4096. rewrite u64_checked_add_fit by lia.
  split; [|done]. split; [lia|page_lia].
Qed.

(** A range that fits has only unmapped pages. *)
Lemma fits_unmapped rt mgr size c : mgr_ok mgr -> fits rt mgr size c -> 0 <= c -> 0 < size ->
  forall v, v ∈ range_pages c (Z.to_nat (size / 4096)) -> user_page v /\ mgr_pages mgr !! v = None.
Proof.
  intros (Hp & _) (Hal & Hl & _ & Hm) Hc Hs v (k & Hk & ->)%elem_of_range_pages.
  destruct (range_page_user c size k) as [Hu Epg]; [done..|]. split; [done|].
  assert (Hk' : k ∈ seq 0 (Z.to_nat (size / PAGE_SIZE))) by (apply elem_of_seq; change PAGE_SIZE with 4096; lia).
  pose proof (existsb_false _ _ Hm k Hk') as Hf. cbv beta in Hf. rewrite Epg in Hf.
  apply bool_decide_eq_false in Hf. destruct Hu as [Hur Hua].
  unfold mgr_pages. apply eq_None_not_Some. intros Hx. apply Hf. by apply translate_law.
Qed.

Lemma mmap_flags_present prot : has_flag (mmap_flags prot) PRESENT = true.
Proof.
  unfold mmap_flags. by destruct (negb (Z.land prot PROT_WRITE =? 0)), (negb (Z.land prot PROT_EXEC =? 0)).
Qed.

Lemma mmap_flags_small prot : has_flag (mmap_flags prot) HUGE_PAGE = false.
Proof.
  unfold mmap_flags. by destruct (negb (Z.land prot PROT_WRITE =? 0)), (negb (Z.land prot PROT_EXEC =? 0)).
Qed.

(** The state after an [mmap] that failed with [e]. *)
Definition unchanged (rt rt' : LinuxRuntime) mgr mgr' : Prop :=
  rt' = rt /\ mgr_ok mgr' /\ mgr_pages mgr' = mgr_pages mgr.

(** The state after an [mmap] that mapped [size] bytes at [addr]. *)
Definition mmap_done (rt rt' : LinuxRuntime) mgr mgr' (addr size prot flags : Z) : Prop :=
  let l := range_pages addr (Z.to_nat (size / 4096)) in
  0 < addr /\ fits rt mgr size addr
  /\ rt' = track_region rt addr size prot flags /\ rt_ok rt'
  /\ mapped_over (mgr_pages mgr) (mmap_flags prot) mgr' l
  /\ fresh_frames (mg_frames mgr) mgr' l.

Lemma range_small hint len s z : u64_range hint -> u64_range len ->
  checked_page_range hint len false = Ok (s, z) ->
  s = range_start hint /\ z = range_size hint len /\ 0 <= s /\ s <= USER_ADDRESS_LIMIT
  /\ 0 < z <= MAX_LINUX_MEMORY.
Proof.
  intros Hh Hl E. pose proof (checked_page_range_correct_aux hint len false Hh Hl) as Hc. rewrite E in Hc.
  unfold u64_range in Hh. assert (0 <= range_start hint) by (unfold range_start; page_lia).
  destruct Hc as (_ & _ & -> & -> & _ & _ & ? & _ & ? & _). lia.
Qed.


(** ** munmap *)
Lemma unmap_loop_spec addr : forall n k mgr, mgr_ok mgr ->
  (forall j, (k <= j < k + n)%nat -> user_page (addr + Z.of_nat j * 4096)
     /\ exists f fl, mgr_pages mgr !! (addr + Z.of_nat j * 4096) = Some (f, fl) /\ has_flag fl PRESENT = true) ->
  exists mgr', unmap_loop n (Z.of_nat k) addr mgr = (Ok tt, mgr') /\ mgr_ok mgr'
  /\ forall v, mgr_pages mgr' !! v =
       if decide (v ∈ (fun j => addr + Z.of_nat j * 4096) <$> seq k n) then None else mgr_pages mgr !! v.
Proof.
  induction n as [|n IH]; intros k mgr Hok Hpg; cbn [unmap_loop].
  { exists mgr. split; [done|]. split; [done|]. intros v. rewrite decide_False; [done|]. set_solver. }
  change PAGE_SIZE with 4096.
  destruct (Hpg k) as (Hu & f & fl & Ef & Hfl); [lia|].
  destruct (safe_unmap_page_spec mgr _ Hok Hu) as (mgr1 & -> & Hok1 & Hp1). rewrite Ef, Hfl in Hp1.
  replace (Z.of_nat k + 1) with (Z.of_nat (S k)) by lia.
  destruct (IH (S k) mgr1 Hok1) as (mgr' & -> & Hok' & Hp').
  { intros j Hj. destruct (Hpg j) as (Hu' & Hex); [lia|]. split; [done|].
    rewrite Hp1, lookup_delete_ne by lia. done. }
  exists mgr'. split; [done|]. split; [done|]. intros v. rewrite Hp', Hp1. cbn [seq].
  rewrite fmap_cons. destruct (decide (v = addr + Z.of_nat k * 4096)) as [->|Hne].
  - rewrite lookup_delete_eq, (decide_True (P := _ ∈ _ :: _)) by set_solver. by destruct (decide _).
  - rewrite lookup_delete_ne by done. apply decide_ext. set_solver.
Qed.

Lemma owned_pages mgr addr size : mgr_ok mgr -> addr mod 4096 = 0 -> 0 <= addr -> 0 < size ->
  addr + size <= USER_ADDRESS_LIMIT -> range_is_owned_user_memory mgr addr size = true ->
  forall k, (k < Z.to_nat (size / 4096))%nat ->
  user_page (addr + Z.of_nat k * 4096)
  /\ exists f fl, mgr_pages mgr !! (addr + Z.of_nat k * 4096) = Some (f, fl)
     /\ has_flag fl PRESENT = true /\ has_flag fl USER_ACCESSIBLE = true.
Proof.
  intros (Hp & _) Hal Ha Hs Hl Ho k Hk.
  destruct (range_page_user addr size k) as [Hu Epg]; [done..|]. split; [done|].
  unfold range_is_owned_user_memory in Ho. rewrite forallb_forall in Ho.
  specialize (Ho k). rewrite Epg in Ho. destruct Hu as [Hur Hua].
  rewrite get_flags_law in Ho by done. unfold mgr_pages.
  assert (Hin : In k (seq 0 (Z.to_nat (size / PAGE_SIZE)))) by (apply in_seq; change PAGE_SIZE with 4096; lia).
  specialize (Ho Hin). destruct (pages (mg_pt mgr) !! _) as [[f fl]|]; [|done].
  destruct (has_flag fl PRESENT) eqn:Efl; [|done]. exists f, fl. done.
Qed.


(** ** brk *)
Definition brk_flags : Z := Z.lor (Z.lor PRESENT WRITABLE) USER_ACCESSIBLE.

Lemma brk_rollback_spec m0 only start : forall n k mgr,
  mapped_over m0 brk_flags mgr ((fun j => start + Z.of_nat j * 4096) <$> seq k n) ->
  mgr_ok (brk_rollback only n (Z.of_nat k) start mgr)
  /\ mgr_pages (brk_rollback only n (Z.of_nat k) start mgr) = m0.
Proof.
  induction n as [|n IH]; intros k mgr Hm; cbn [brk_rollback].
  { by apply (rollback_spec m0 brk_flags []). }
  cbn [seq] in Hm. rewrite fmap_cons in Hm. destruct Hm as (Hok & Hnd & Hout & Hin).
  apply NoDup_cons in Hnd as [Hv Hnd]. change PAGE_SIZE with 4096. cbv zeta.
  set (v := start + Z.of_nat k * 4096) in *.
  destruct (Hin v) as ([Hvr Hva] & Hnone & f & Hf); [set_solver|].
  assert (bool_decide (is_Some (pth_translate (mg_pt mgr) v)) = true) as ->.
  { apply bool_decide_eq_true. apply translate_law; [apply Hok|done..|]. unfold mgr_pages in Hf. by rewrite Hf. }
  rewrite andb_false_r.
  destruct (safe_unmap_page_spec mgr v Hok) as (mgr' & -> & Hok' & Hp'); [done|]. cbn [snd].
  rewrite Hf in Hp'. change (has_flag brk_flags PRESENT) with true in Hp'.
  replace (Z.of_nat k + 1) with (Z.of_nat (S k)) by lia. apply IH.
  split; [done|]. split; [done|]. rewrite Hp'. split.
  - intros w Hw. destruct (decide (w = v)) as [->|Hne]; [by rewrite lookup_delete_eq|].
    rewrite lookup_delete_ne by done. apply Hout. set_solver.
  - intros w Hw. assert (w <> v) by (intros ->; done). rewrite lookup_delete_ne by done.
    apply Hin. set_solver.
Qed.

Lemma brk_grow_spec m0 b0 start : forall n k mgr,
  mapped_over m0 brk_flags mgr (range_pages start k) -> fresh_frames b0 mgr (range_pages start k) ->
  (forall v, v ∈ range_pages start (k + n) -> user_page v /\ m0 !! v = None) ->
  match brk_grow n (Z.of_nat k) start mgr with
  | (Ok true, mgr') => mapped_over m0 brk_flags mgr' (range_pages start (k + n))
                       /\ fresh_frames b0 mgr' (range_pages start (k + n))
  | (Ok false, mgr') => mgr_ok mgr' /\ mgr_pages mgr' = m0
  | _ => False
  end.
Proof.
  induction n as [|n IH]; intros k mgr Hm Hf Hpg.
  { cbn [brk_grow]. by rewrite Nat.add_0_r. }
  cbn [brk_grow]. change PAGE_SIZE with 4096.
  change (Z.lor (Z.lor PRESENT WRITABLE) USER_ACCESSIBLE) with brk_flags.
  set (v := start + Z.of_nat k * 4096).
  pose proof Hm as ((Hp & Hb & Hi) & Hnd & Hout & Hin).
  assert (Hv : v ∈ range_pages start (k + S n)) by (apply elem_of_range_pages; exists k; split; [lia|done]).
  assert (Hvn : v ∉ range_pages start k).
  { intros (j & Hj & Ej)%elem_of_range_pages. unfold v in Ej. lia. }
  destruct (Hpg v Hv) as [[Hvr Hval] Hnone]. rewrite Nat2Z.id.
  destruct (allocate_spec _ Hb) as [(f & b1 & _ & Hb1 & Ht & -> & Hf0 & Hfree & _ & _ & Hused)|(_ & -> & _)].
  2:{ apply (brk_rollback_spec m0 true start k 0). by destruct mgr. }
  pose proof (map_page_law (mg_pt mgr) v (f * 4096) brk_flags b1 Hp Hb1 Hvr Hval ltac:(lia) (Z_mod_mult _ _) eq_refl eq_refl) as Hlaw.
  rewrite Hout in Hlaw by done. specialize (Hlaw Hnone).
  destruct (pth_map_page _ _ _ _ _) as [[ok p'] b2]. destruct Hlaw as (Hp' & Hb2 & Hsub & Hpages).
  destruct ok.
  - set (mgr' := mkManager p' b2 (mg_initialized mgr)).
    assert (Hm' : mapped_over m0 brk_flags mgr' (range_pages start k ++ [v])).
    { by apply (mapped_over_step m0 brk_flags mgr mgr' _ v (f * 4096)). }
    assert (Hf' : fresh_frames b0 mgr' (range_pages start k ++ [v])).
    { apply (fresh_frames_step b0 mgr mgr' _ v f brk_flags); [done..|]. intros i Hfi.
      apply Hsub in Hfi as [Hir Hui]. rewrite Hused in Hui by lia.
      apply orb_false_iff in Hui as [Hne Hui]. apply Z.eqb_neq in Hne.
      split; [|done]. split; [by rewrite <- Ht|done]. }
    unfold v in Hm', Hf'. rewrite <- range_pages_S in Hm', Hf'.
    specialize (IH (S k) mgr' Hm' Hf').
    replace (S k + n)%nat with (k + S n)%nat in IH by lia. specialize (IH Hpg).
    replace (Z.of_nat (S k)) with (Z.of_nat k + 1) in IH by lia. exact IH.
  - destruct (free_frame_spec b2 (f * 4096)) as (b3 & -> & Hb3); [done|lia|].
    apply (brk_rollback_spec m0 false start k 0).
    split; [done|]. unfold mgr_pages in *. cbn. rewrite Hpages. done.
Qed.

Definition page_ceil (x : Z) : Z := let y := x + 4095 in y - y mod 4096.

Lemma brk_page_up_spec x : 0 <= x < USER_ADDRESS_LIMIT -> brk_page_up x = Some (page_ceil x).
Proof.
  intros Hx. pose proof limit_small. assert (0 < MAX_LINUX_MEMORY) by done.
  unfold brk_page_up. change PAGE_SIZE with 4096. rewrite u64_checked_add_fit by lia. cbn.
  rewrite page_down_spec by (unfold u64_range; lia). unfold page_ceil. f_equal.
  by replace (x + 4096 - 1) with (x + 4095) by lia.
Qed.

(** [brk] terminates without a panic.  It returns the old break and leaves the
    runtime and the contents of the page table as they were, or it returns the
    requested break, which is then the break and lies within 128 MiB of the initial
    one: exactly the whole pages between the two breaks have been mapped, writable and
    user accessible, to pairwise distinct frames that were free; a break that is
    lowered maps and unmaps nothing. *)
Theorem sys_brk_correct (rt : LinuxRuntime) mgr (new_brk : Z) :
  rt_ok rt -> mgr_ok mgr -> 0 <= initial_break rt <= program_break rt ->
  program_break rt < USER_ADDRESS_LIMIT -> u64_range new_brk ->
  let start := page_ceil (program_break rt) in
  let l := range_pages start (Z.to_nat ((page_ceil new_brk - start) / 4096)) in
  match sys_brk rt (Some mgr) new_brk with
  | (Ok r, rt', Some mgr') =>
      (r = program_break rt /\ unchanged rt rt' mgr mgr')
      \/ (r = new_brk /\ initial_break rt <= new_brk < USER_ADDRESS_LIMIT
          /\ new_brk - initial_break rt <= MAX_LINUX_MEMORY
          /\ rt' = mkRuntime new_brk (initial_break rt) (mmap_regions rt)
          /\ mapped_over (mgr_pages mgr) brk_flags mgr' l /\ fresh_frames (mg_frames mgr) mgr' l)
  | _ => False
  end.
Proof.
  intros Hrt Hok Hib Hpb Hn. cbv zeta. unfold sys_brk. cbv zeta.
  destruct (Z.eqb_spec new_brk 0); [by left|].
  destruct (Z.ltb_spec new_brk (initial_break rt)); [by left|].
  destruct (Z.leb_spec USER_ADDRESS_LIMIT new_brk); [by left|].
  destruct (Z.ltb_spec MAX_LINUX_MEMORY (new_brk - initial_break rt)); [by left|]. cbn [orb].
  assert (Hnil : forall st, mapped_over (mgr_pages mgr) brk_flags mgr (range_pages st 0)
    /\ fresh_frames (mg_frames mgr) mgr (range_pages st 0)).
  { intros st. cbn. split.
    - split; [done|]. split; [constructor|]. split; [done|set_solver].
    - split; [done|]. split; set_solver. }
  assert (Hskip : page_ceil new_brk <= page_ceil (program_break rt) ->
    mapped_over (mgr_pages mgr) brk_flags mgr (range_pages (page_ceil (program_break rt))
      (Z.to_nat ((page_ceil new_brk - page_ceil (program_break rt)) / 4096)))
    /\ fresh_frames (mg_frames mgr) mgr (range_pages (page_ceil (program_break rt))
      (Z.to_nat ((page_ceil new_brk - page_ceil (program_break rt)) / 4096)))).
  { intros Hle. replace (Z.to_nat _) with 0%nat by page_lia. apply Hnil. }
  destruct (Z.ltb_spec (program_break rt) new_brk).
  2:{ right. split_and!; try done; apply Hskip; unfold page_ceil; page_lia. }
  rewrite !brk_page_up_spec by lia.
  destruct (Z.ltb_spec (page_ceil (program_break rt)) (page_ceil new_brk)) as [Hlt|Hge].
  2:{ right. split_and!; try done; by apply Hskip. }
  assert (Hst : page_ceil (program_break rt) mod 4096 = 0 /\ 0 <= page_ceil (program_break rt)).
  { unfold page_ceil. page_lia. }
  assert (Hend : page_ceil new_brk <= USER_ADDRESS_LIMIT).
  { unfold page_ceil. assert (USER_ADDRESS_LIMIT mod 4096 = 0) by done. page_lia. }
  set (st := page_ceil (program_break rt)) in *. set (g := page_ceil new_brk - st) in *.
  destruct (tracked_range_overlaps rt st g) eqn:Et; [by left|].
  destruct (range_is_mapped mgr st g) eqn:Em; [by left|]. cbn [orb].
  destruct (Hnil st) as [Hm0 Hf0].
  pose proof (brk_grow_spec (mgr_pages mgr) (mg_frames mgr) st (Z.to_nat (g / 4096)) 0 mgr Hm0 Hf0) as Hg.
  unshelve epose proof (Hg _) as Hres.
  { apply (fits_unmapped rt); [done| |lia|lia]. split; [lia|]. split; [lia|done]. }
  change PAGE_SIZE with 4096. cbn [Nat.add] in Hres. change (Z.of_nat 0) with 0 in Hres.
  destruct (brk_grow _ 0 st mgr) as [[[]|e|] mgr']; [|by left|done..].
  right. split_and!; try done; apply Hres.
Qed.
End MapTheorems.

(** ** A concrete page table

    A map from pages to frames and flags; mapping a page that has an entry succeeds
    and changes nothing, as in [ProcessPageTable::map_page]. *)
Abbreviation FlatTable := (gmap Z (Z * Z)).

Instance FlatTable_helper : PageTableHelper FlatTable := {|
  pth_map_page p v f fl b :=
    match p !! v with Some _ => (true, p, b) | None => (true, <[v := (f, fl)]> p, b) end;
  pth_unmap_page p v :=
    match p !! v with
    | Some (f, fl) => if has_flag fl PRESENT then (Some f, delete v p) else (None, p)
    | None => (None, p)
    end;
  pth_translate p v := fst <$> p !! v;
  pth_set_flags p v fl :=
    match p !! v with Some (f, _) => (true, <[v := (f, fl)]> p) | None => (false, p) end;
  pth_get_flags p v :=
    Some (match p !! v with Some (_, fl) => if has_flag fl PRESENT then fl else 0 | None => 0 end)
|}.

Definition flat_ok (p : FlatTable) : Prop := forall v f fl, p !! v = Some (f, fl) -> 0 <= f.

Lemma flat_ok_insert (p : FlatTable) v f fl : flat_ok p -> 0 <= f -> flat_ok (<[v := (f, fl)]> p).
Proof. intros Hp Hf w f' fl' [[_ [= <- _]]|[_ Hw]]%lookup_insert_Some; [done|by eapply Hp]. Qed.

#[refine] Instance FlatTable_lawful : LawfulHelper FlatTable := {| pages p := p; pt_ok := flat_ok |}.
Proof.
  - intros p v f fl Hp Hv. by eapply Hp.
  - intros p v f fl b Hp Hb _ _ Hf _ _ _ Hv. cbn. rewrite Hv. split_and!; try done. by apply flat_ok_insert.
  - intros p v Hp _ _. cbn. destruct (p !! v) as [[f fl]|]; [|done].
    destruct (has_flag fl PRESENT); [|done]. split; [|done].
    intros w f' fl' [_ Hw]%lookup_delete_Some. by eapply Hp.
  - intros p v _ _ _. cbn. by rewrite fmap_is_Some.
  - done.
Defined.

Definition demo_mgr : Manager FlatTable := mkManager (∅ : FlatTable) demo_bitmap true.
Definition demo_rt : LinuxRuntime := mkRuntime 0x500000 0x500000 [mkRegion DEFAULT_MMAP_BASE 8192 3 34].

Lemma demo_mgr_ok : mgr_ok demo_mgr.
Proof. split; [|split; [exact demo_bitmap_inv|done]]. intros v f fl Hv.
  change ((∅ : gmap Z (Z * Z)) !! v = Some (f, fl)) in Hv. by rewrite lookup_empty in Hv.
Qed.

Lemma demo_rt_ok : rt_ok demo_rt.
Proof. apply Forall_singleton. split; [|split]; vm_compute; [discriminate|reflexivity|discriminate]. Qed.

Lemma u64_demo x : 0 <= x < 2 ^ 48 -> u64_range x.
Proof. unfold u64_range, u64_max. lia. Qed.



(** The state after mapping two pages. *)
Definition mapped_state := sys_mmap 3 demo_rt (Some demo_mgr) 0 8192 3 34 0.
Definition mapped_mgr : Manager FlatTable := default demo_mgr mapped_state.2.

Lemma mapped_mgr_ok : mgr_ok mapped_mgr.
Proof.
  pose proof (map_pages_spec (mgr_pages demo_mgr) demo_bitmap (mmap_flags 3) (DEFAULT_MMAP_BASE + 8192)
    (mmap_flags_present _) (mmap_flags_small _) 2 0 demo_mgr) as Hm.
  unshelve epose proof (Hm _ _ _) as Hr; clear Hm.
  - split; [exact demo_mgr_ok|]. split; [constructor|]. split; [done|set_solver].
  - split; [done|]. split; set_solver.
  - intros v (k & Hk & ->)%elem_of_range_pages. split; [|exact (lookup_empty (M := gmap Z) (A := Z * Z) _)].
    unfold user_page, DEFAULT_MMAP_BASE, USER_ADDRESS_LIMIT. cbn in Hk. page_lia.
  - assert (mapped_mgr = (map_pages 2 0 (DEFAULT_MMAP_BASE + 8192) (mmap_flags 3) demo_mgr []).2) as ->
      by (vm_compute; reflexivity).
    change (range_pages _ 0) with (@nil Z) in Hr. change (Z.of_nat 0) with 0 in Hr.
    destruct (map_pages _ _ _ _ _ _) as [[u|e|] m']; [apply Hr|apply Hr|done].
Qed.


Lemma sys_brk_correct_witness :
  (sys_brk demo_rt (Some demo_mgr) 0x502000).1.1 = Ok 0x502000
  /\ is_ok (sys_brk demo_rt (Some demo_mgr) 0x502000).1.1 = true.
Proof.
  split; [vm_compute; reflexivity|].
  pose proof (sys_brk_correct demo_rt demo_mgr 0x502000 demo_rt_ok demo_mgr_ok
    ltac:(cbn; lia) ltac:(reflexivity) (u64_demo 0x502000 ltac:(lia))) as Hc. cbv zeta in Hc.
  destruct (sys_brk demo_rt (Some demo_mgr) 0x502000) as [[[r|e|] rt'] m'];
    [reflexivity|destruct Hc|destruct Hc].
Defined.

(** A break that was raised by two pages and lowered again cannot be raised again:
    lowering keeps the pages, and raising refuses a range with a mapped page. *)
Theorem brk_cannot_regrow :
  let '(r1, rt1, m1) := sys_brk demo_rt (Some demo_mgr) 0x502000 in
  let '(r2, rt2, m2) := sys_brk rt1 m1 0x500000 in
  let '(r3, rt3, m3) := sys_brk rt2 m2 0x502000 in
  r1 = Ok 0x502000 /\ r2 = Ok 0x500000 /\ r3 = Ok 0x500000.
Proof. vm_compute. auto. Qed.

(** After [mprotect] with PROT_NONE the pages can neither be made accessible again nor
    be unmapped: their entries are not present, so their flags read as empty. *)
Theorem prot_none_is_irreversible :
  let a := DEFAULT_MMAP_BASE + 8192 in
  let '(r1, rt1, m1) := sys_mprotect demo_rt (Some mapped_mgr) a 8192 0 in
  r1 = Ok 0
  /\ (sys_mprotect rt1 m1 a 8192 3).1.1 = Ok (errno_code EINVAL)
  /\ (sys_munmap rt1 m1 a 8192).1.1 = Ok (errno_code EINVAL).
Proof. vm_compute. auto. Qed.
