(* ===== verification/Slab.v ===== *)
(** * The slab allocator

    [fullerene-kernel/src/slab.rs]: pools of equal-sized objects in 4 KiB pages whose free
    slots are linked through the memory of the slots themselves, over the memory manager
    ([memory_management/manager.rs]) and the bitmap frame allocator.  The mapping of a page
    in the kernel's table ([map_page_4k_l1]) is an interface with its laws; unmapping is
    [PageTableHelper]'s.  Clients write to the objects they hold, and the objects are shown
    to stay disjoint whatever they write.

    Memory is read and written in aligned words: the allocator itself only accesses the
    first word of a slot. *)

From S2P Require Import Prelude Frames PageTable LinuxMemory.

(** ** Memory and its manager *)

(** Words of memory, by their address. *)
Abbreviation Memory := (gmap Z Z).
Definition load (m : Memory) (a : Z) : Z := default 0 (m !! a).

(** [map_page_4k_l1] in the current table: success, the table and the frame allocator,
    from which it takes frames for intermediate tables. *)
Class KernelMap (P : Type) := {
  map_page_4k_l1 : P -> Z -> Z -> BitmapFrameAllocator -> bool * P * BitmapFrameAllocator
}.

(** [mapped p v] is the frame of the 4 KiB page at [v], through a huge page or not.  An
    entry inside a huge page cannot be unmapped; mapping releases no frame.  [table_ok] is
    the table's own invariant: initialised, its levels not aliased. *)
Class LawfulKernelMap (P : Type) `{PageTableHelper P, KernelMap P} := {
  mapped : P -> Z -> option Z;
  table_ok : P -> Prop;
  map_4k_law p v f b : table_ok p -> bm_inv b -> v mod 4096 = 0 -> f mod 4096 = 0 ->
    let '(ok, p', b') := map_page_4k_l1 p v f b in
    table_ok p' /\ bm_inv b' /\ total_frames b' = total_frames b
    /\ (forall i, 0 <= i -> used b i = true -> used b' i = true)
    /\ (ok = true -> mapped p' v = Some f)
    /\ (forall w, w mod 4096 = 0 -> w <> v -> mapped p' w = mapped p w);
  unmap_4k_law p v : table_ok p -> v mod 4096 = 0 ->
    let '(r, p') := pth_unmap_page p v in
    table_ok p' /\ (forall f, r = Some f -> mapped p v = Some f)
    /\ (forall w, w mod 4096 = 0 -> w <> v -> mapped p' w = mapped p w)
}.

Definition NUM_CACHES : nat := 9.
Definition CACHE_SIZES : list Z := [16; 32; 64; 128; 256; 512; 1024; 2048; 4096].
(** [usize::MAX], the end of a free list. *)
Definition NONE : Z := u64_max.

Record SlabPage := mkPage { sp_phys : Z; sp_virt : Z; sp_free_head : Z; sp_allocated : Z }.
Record SlabCache := mkCache { sc_obj_size : Z; sc_pages : list SlabPage; sc_partial_hint : Z }.

Definition slab_cache_new (obj_size : Z) : SlabCache := mkCache obj_size [] 0.
Definition new_caches : list SlabCache := slab_cache_new <$> CACHE_SIZES.

Fixpoint class_loop (size : Z) (i : nat) (sizes : list Z) : nat :=
  match sizes with
  | [] => (NUM_CACHES - 1)%nat
  | s :: sizes => if size <=? s then i else class_loop size (S i) sizes
  end.
Definition size_to_class (size : Z) : nat := class_loop size 0 CACHE_SIZES.

(** The loop that links the free slots: slot [i] and the [n - 1] after it. *)
Fixpoint build_loop (n : nat) (i capacity virt obj_size : Z) (m : Memory) : Memory :=
  match n with
  | O => m
  | S n =>
    build_loop n (i + 1) capacity virt obj_size
      (<[virt + i * obj_size := if i + 1 <? capacity then (i + 1) * obj_size else NONE]> m)
  end.

Section Slab.
Context {P : Type} `{PageTableHelper P, KernelMap P}.
(** [PHYSICAL_MEMORY_OFFSET]. *)
Variable offset : Z.

(** The memory, the memory manager ([None] before its initialisation) and [SLABS]. *)
Record Slabs := mkSlabs { sl_mem : Memory; sl_mgr : option (Manager P); sl_caches : option (list SlabCache) }.

(** Plain addition: [None] is an overflow panic. *)
Definition physical_to_virtual (physical_addr : Z) : option Z := u64_checked_add physical_addr offset.

Definition mm_allocate_frame (mgr : Manager P) : result unit (option Z * Manager P) :=
  if negb (mg_initialized mgr) then Ok (None, mgr) else
  match allocate_frame (mg_frames mgr) with
  | (Ok r, b) => Ok (r, mkManager (mg_pt mgr) b (mg_initialized mgr))
  | _ => Panic
  end.

Definition mm_free_frame (mgr : Manager P) (frame_addr : Z) : result unit (Manager P) :=
  if negb (mg_initialized mgr) then Ok mgr else
  let? b := free_frame (mg_frames mgr) frame_addr in
  Ok (mkManager (mg_pt mgr) b (mg_initialized mgr)).

(** [VirtAddr::new] and [PhysAddr::new] panic on addresses that are not canonical. *)
Definition safe_map_page (mgr : Manager P) (virtual_addr physical_addr : Z) : result unit (bool * Manager P) :=
  if negb (mg_initialized mgr) then Ok (false, mgr) else
  match canonical_new virtual_addr, phys_addr_new physical_addr with
  | Some virt, Some phys =>
    let '(ok, p, b) := map_page_4k_l1 (mg_pt mgr) virt phys (mg_frames mgr) in
    Ok (ok, mkManager p b (mg_initialized mgr))
  | _, _ => Panic
  end.

Definition page_new (obj_size : Z) (m : Memory) (o : option (Manager P)) :
    result unit (option SlabPage * Memory * option (Manager P)) :=
  match o with
  | None => Ok (None, m, None)
  | Some mgr =>
    let? (r, mgr) := mm_allocate_frame mgr in
    match r with
    | None => Ok (None, m, Some mgr)
    | Some phys =>
      match physical_to_virtual phys with
      | None => Panic
      | Some virt =>
        let? (ok, mgr) := safe_map_page mgr virt phys in
        if negb ok then
          let? mgr := mm_free_frame mgr phys in Ok (None, m, Some mgr)
        else
          let capacity := 4096 / obj_size in
          Ok (Some (mkPage phys virt 0 0), build_loop (Z.to_nat capacity) 0 capacity virt obj_size m, Some mgr)
      end
    end
  end.

Definition page_alloc (p : SlabPage) (m : Memory) : option Z * SlabPage :=
  if sp_free_head p =? NONE then (None, p) else
  let offset := sp_free_head p in
  (Some (sp_virt p + offset),
   mkPage (sp_phys p) (sp_virt p) (load m (sp_virt p + offset)) (sp_allocated p + 1)).

(** The debug assertions and the subtractions panic. *)
Definition page_free (p : SlabPage) (addr : Z) (m : Memory) : result unit (SlabPage * Memory) :=
  let offset := addr - sp_virt p in
  if (offset <? 0) || (4096 <=? offset) || (sp_allocated p <=? 0) then Panic else
  Ok (mkPage (sp_phys p) (sp_virt p) offset (sp_allocated p - 1), <[sp_virt p + offset := sp_free_head p]> m).

Definition page_is_empty (p : SlabPage) : bool := sp_allocated p =? 0.

(** [Drop for SlabPage]: unmapping the page frees its frame, which is then freed again. *)
Definition page_drop (p : SlabPage) (o : option (Manager P)) : result unit (option (Manager P)) :=
  match o with
  | None => Ok None
  | Some mgr =>
    match safe_unmap_page mgr (sp_virt p) with
    | (Panic, _) => Panic
    | (_, mgr) => let? mgr := mm_free_frame mgr (sp_phys p) in Ok (Some mgr)
    end
  end.

(** The first of the [n] pages from [i] on with a free slot. *)
Fixpoint find_partial (pages : list SlabPage) (i n : nat) : option nat :=
  match n with
  | O => None
  | S n =>
    match pages !! i with
    | Some p => if sp_free_head p =? NONE then find_partial pages (S i) n else Some i
    | None => None
    end
  end.

Definition alloc_from (c : SlabCache) (i : nat) (m : Memory) : option Z * SlabCache :=
  match sc_pages c !! i with
  | Some p =>
    let '(r, p) := page_alloc p m in
    (r, mkCache (sc_obj_size c) (<[i := p]> (sc_pages c)) (Z.of_nat i))
  | None => (None, c)
  end.

Definition cache_alloc (c : SlabCache) (m : Memory) (o : option (Manager P)) :
    result unit (option Z * SlabCache * Memory * option (Manager P)) :=
  let len := length (sc_pages c) in
  let start := Nat.min (Z.to_nat (sc_partial_hint c)) len in
  match find_partial (sc_pages c) start (len - start) with
  | Some i => let '(r, c) := alloc_from c i m in Ok (r, c, m, o)
  | None =>
    match find_partial (sc_pages c) 0 start with
    | Some i => let '(r, c) := alloc_from c i m in Ok (r, c, m, o)
    | None =>
      let? (r, m, o) := page_new (sc_obj_size c) m o in
      match r with
      | None => Ok (None, c, m, o)
      | Some page =>
        let '(addr, page) := page_alloc page m in
        let pages := sc_pages c ++ [page] in
        Ok (addr, mkCache (sc_obj_size c) pages (Z.of_nat (length pages) - 1), m, o)
      end
    end
  end.

Definition cache_free (c : SlabCache) (addr : Z) (m : Memory) : result unit (SlabCache * Memory) :=
  let page_start := Z.ldiff addr 4095 in
  match position (fun p => sp_virt p =? page_start) (sc_pages c) with
  | Some i =>
    match sc_pages c !! i with
    | Some p =>
      let? (p, m) := page_free p addr m in
      Ok (mkCache (sc_obj_size c) (<[i := p]> (sc_pages c)) (Z.of_nat i), m)
    | None => Ok (c, m)
    end
  | None => Ok (c, m)
  end.

(** [retain]: the pages it removes are dropped. *)
Fixpoint reap_pages (pages : list SlabPage) (o : option (Manager P)) :
    result unit (list SlabPage * option (Manager P)) :=
  match pages with
  | [] => Ok ([], o)
  | p :: pages =>
    if page_is_empty p then let? o := page_drop p o in reap_pages pages o
    else let? (pages, o) := reap_pages pages o in Ok (p :: pages, o)
  end.

Definition cache_reap (c : SlabCache) (o : option (Manager P)) : result unit (SlabCache * option (Manager P)) :=
  let? (pages, o) := reap_pages (sc_pages c) o in Ok (mkCache (sc_obj_size c) pages 0, o).

(** ** The public functions *)
Definition get_caches (st : Slabs) : list SlabCache := default new_caches (sl_caches st).

Definition slab_alloc (size : Z) (st : Slabs) : result unit (option Z * Slabs) :=
  let idx := size_to_class size in
  let slabs := get_caches st in
  match slabs !! idx with
  | None => Panic
  | Some c =>
    let? (r, c, m, o) := cache_alloc c (sl_mem st) (sl_mgr st) in
    Ok (r, mkSlabs m o (Some (<[idx := c]> slabs)))
  end.

Definition slab_free (addr size : Z) (st : Slabs) : result unit Slabs :=
  let idx := size_to_class size in
  let slabs := get_caches st in
  match slabs !! idx with
  | None => Panic
  | Some c =>
    let? (c, m) := cache_free c addr (sl_mem st) in
    Ok (mkSlabs m (sl_mgr st) (Some (<[idx := c]> slabs)))
  end.

Fixpoint reap_caches (cs : list SlabCache) (o : option (Manager P)) :
    result unit (list SlabCache * option (Manager P)) :=
  match cs with
  | [] => Ok ([], o)
  | c :: cs =>
    let? (c, o) := cache_reap c o in
    let? (cs, o) := reap_caches cs o in Ok (c :: cs, o)
  end.

Definition slab_reap (st : Slabs) : result unit Slabs :=
  match sl_caches st with
  | None => Ok st
  | Some cs => let? (cs, o) := reap_caches cs (sl_mgr st) in Ok (mkSlabs (sl_mem st) o (Some cs))
  end.

(** ** Clients

    A client allocates, frees the [k]-th object it holds, writes an aligned word of it, or
    reaps.  The list is of the objects held, with the sizes they were asked for. *)
Inductive slab_op := OpAlloc (size : Z) | OpFree (k : nat) | OpWrite (k : nat) (off val : Z) | OpReap.

Definition class_size (size : Z) : Z := default 0 (CACHE_SIZES !! size_to_class size).

Definition slab_step (op : slab_op) (w : Slabs * list (Z * Z)) : result unit (Slabs * list (Z * Z)) :=
  let '(st, live) := w in
  match op with
  | OpAlloc size =>
    let? (r, st) := slab_alloc size st in
    Ok (st, match r with Some a => (a, size) :: live | None => live end)
  | OpFree k =>
    match live !! k with
    | Some (a, size) => let? st := slab_free a size st in Ok (st, delete k live)
    | None => Ok (st, live)
    end
  | OpWrite k off val =>
    match live !! k with
    | Some (a, size) =>
      if (0 <=? off) && (off mod 8 =? 0) && (off + 8 <=? class_size size)
      then Ok (mkSlabs (<[a + off := val]> (sl_mem st)) (sl_mgr st) (sl_caches st), live)
      else Ok (st, live)
    | None => Ok (st, live)
    end
  | OpReap => let? st := slab_reap st in Ok (st, live)
  end.

Fixpoint slab_run (ops : list slab_op) (w : Slabs * list (Z * Z)) : result unit (Slabs * list (Z * Z)) :=
  match ops with
  | [] => Ok w
  | op :: ops => let? w := slab_step op w in slab_run ops w
  end.
End Slab.

(** ** Free lists *)

(** The slots [fl] are linked, in this order, from the offset [h]. *)
Fixpoint chain (m : Memory) (v s h : Z) (fl : list Z) : Prop :=
  match fl with
  | [] => h = NONE
  | i :: fl => h = i * s /\ chain m v s (load m (v + i * s)) fl
  end.

Definition slot (s i : Z) : Prop := 0 <= i < 4096 / s.

Lemma class_facts s : s ∈ CACHE_SIZES -> 16 <= s <= 4096 /\ s * (4096 / s) = 4096 /\ s mod 8 = 0.
Proof. unfold CACHE_SIZES. rewrite !elem_of_cons, elem_of_nil. intros Hs. destruct_or!; subst; try done; lia. Qed.

Lemma slot_bound s i : s ∈ CACHE_SIZES -> slot s i -> 0 <= i * s /\ i * s + s <= 4096.
Proof. intros (Hs & Hq & _)%class_facts [Hi Hi']. nia. Qed.

Lemma slot_not_NONE s i : s ∈ CACHE_SIZES -> slot s i -> i * s <> NONE.
Proof. intros Hs Hi. pose proof (slot_bound s i Hs Hi). pose proof (class_facts s Hs). unfold NONE, u64_max. lia. Qed.

Lemma load_insert m a b x : load (<[a := x]> m) b = if decide (b = a) then x else load m b.
Proof. unfold load. destruct (decide (b = a)) as [->|]; [by rewrite lookup_insert_eq|by rewrite lookup_insert_ne]. Qed.

Lemma chain_ext m m' v s fl : forall h,
  (forall i, i ∈ fl -> load m' (v + i * s) = load m (v + i * s)) -> chain m v s h fl -> chain m' v s h fl.
Proof.
  induction fl as [|i fl IH]; intros h He; [done|]. intros [-> Hc]. split; [done|].
  rewrite He by left. apply IH; [|done]. intros j Hj. apply He. by right.
Qed.

Lemma chain_unique m v s fl : s ∈ CACHE_SIZES -> forall fl' h,
  Forall (slot s) fl -> Forall (slot s) fl' -> chain m v s h fl -> chain m v s h fl' -> fl = fl'.
Proof.
  intros Hs. pose proof (class_facts s Hs).
  induction fl as [|i fl IH]; intros [|j fl'] h Hf Hf'; [done| | |]; simpl.
  - intros -> [E _]. apply Forall_cons in Hf' as [Hj _]. by destruct (slot_not_NONE s j Hs Hj).
  - intros [-> _] E. apply Forall_cons in Hf as [Hj _]. by destruct (slot_not_NONE s i Hs Hj).
  - apply Forall_cons in Hf as [_ Hf]. apply Forall_cons in Hf' as [_ Hf'].
    intros [-> Hc] [E Hc']. assert (i = j) as <- by nia. f_equal. by eapply IH.
Qed.

Lemma slots_length s fl : NoDup fl -> Forall (slot s) fl -> Z.of_nat (length fl) <= Z.max 0 (4096 / s).
Proof.
  intros Hn Hf. rewrite <- Z2Nat.id by lia. apply inj_le.
  replace (Z.to_nat (Z.max 0 (4096 / s))) with (length (seqZ 0 (4096 / s))) by (rewrite length_seqZ; lia).
  apply submseteq_length, NoDup_submseteq; [done|]. intros i Hi. rewrite Forall_forall in Hf.
  apply elem_of_seqZ. destruct (Hf i Hi). lia.
Qed.

Lemma build_loop_load n : forall i cap v s m a,
  (forall j, i <= j < i + Z.of_nat n -> a <> v + j * s) -> load (build_loop n i cap v s m) a = load m a.
Proof.
  induction n as [|n IH]; intros i cap v s m a Ha; [done|]. simpl. rewrite IH by (intros; apply Ha; lia).
  rewrite load_insert. rewrite decide_False; [done|]. apply Ha. lia.
Qed.

Lemma build_loop_chain n : forall i cap v s m, 0 < s -> i + Z.of_nat n = cap ->
  chain (build_loop n i cap v s m) v s (if i <? cap then i * s else NONE) (seqZ i (Z.of_nat n)).
Proof.
  induction n as [|n IH]; intros i cap v s m Hs Hc.
  { rewrite (proj2 (Z.ltb_ge i cap)) by lia. done. }
  rewrite (proj2 (Z.ltb_lt i cap)), seqZ_cons by lia. simpl. split; [done|].
  rewrite build_loop_load by (intros; nia). rewrite load_insert, decide_True by done.
  replace (Z.pred (Z.of_nat (S n))) with (Z.of_nat n) by lia. apply IH; lia.
Qed.

(** ** Pages and caches *)
Section PageInv.
Variable offset : Z.

Record page_inv (m : Memory) (s : Z) (p : SlabPage) (fl : list Z) : Prop := {
  pi_virt : sp_virt p = sp_phys p + offset;
  pi_aligned : sp_virt p mod 4096 = 0;
  pi_chain : chain m (sp_virt p) s (sp_free_head p) fl;
  pi_nodup : NoDup fl;
  pi_slots : Forall (slot s) fl;
  pi_allocated : sp_allocated p = 4096 / s - Z.of_nat (length fl)
}.

(** [a] is the address of an object in use of the page, of the cache. *)
Definition page_live (m : Memory) (s : Z) (p : SlabPage) (a : Z) : Prop :=
  exists fl i, page_inv m s p fl /\ slot s i /\ i ∉ fl /\ a = sp_virt p + i * s.
Definition cache_live (m : Memory) (c : SlabCache) (a : Z) : Prop :=
  exists p, p ∈ sc_pages c /\ page_live m (sc_obj_size c) p a.

Definition page_ok (m : Memory) (s : Z) (p : SlabPage) : Prop := exists fl, page_inv m s p fl.
Definition cache_inv (m : Memory) (c : SlabCache) : Prop :=
  sc_obj_size c ∈ CACHE_SIZES /\ Forall (page_ok m (sc_obj_size c)) (sc_pages c).

Definition in_page (p : SlabPage) (a : Z) : Prop := sp_virt p <= a < sp_virt p + 4096.
Definition cache_frames (c : SlabCache) : list Z := sp_phys <$> sc_pages c.

Lemma page_inv_unique m s p fl fl' : s ∈ CACHE_SIZES -> page_inv m s p fl -> page_inv m s p fl' -> fl = fl'.
Proof. intros Hs [] []. by eapply chain_unique. Qed.

Lemma page_inv_ext m m' s p fl :
  (forall i, i ∈ fl -> load m' (sp_virt p + i * s) = load m (sp_virt p + i * s)) ->
  page_inv m s p fl -> page_inv m' s p fl.
Proof. intros He []. split; try done. by eapply chain_ext. Qed.

(** A page only depends on its own memory. *)
Lemma page_inv_frame m m' s p fl : s ∈ CACHE_SIZES ->
  (forall a, in_page p a -> load m' a = load m a) -> page_inv m s p fl -> page_inv m' s p fl.
Proof.
  intros Hs He Hp. eapply page_inv_ext; [|done]. intros i Hi. apply He.
  pose proof (proj1 (Forall_forall _ _) (pi_slots _ _ _ _ Hp) i Hi) as Hi'.
  pose proof (slot_bound s i Hs Hi'). pose proof (class_facts s Hs). unfold in_page. lia.
Qed.

Lemma page_live_in_page m s p a : s ∈ CACHE_SIZES -> page_live m s p a ->
  sp_virt p <= a /\ a + s <= sp_virt p + 4096 /\ (a - sp_virt p) mod s = 0.
Proof.
  intros Hs (fl & i & _ & Hi & _ & ->). pose proof (slot_bound s i Hs Hi). pose proof (class_facts s Hs).
  split_and!; [lia..|]. replace (sp_virt p + i * s - sp_virt p) with (i * s) by lia. apply Z_mod_mult.
Qed.

Lemma page_alloc_spec m s p fl : s ∈ CACHE_SIZES -> page_inv m s p fl ->
  match fl with
  | [] => sp_free_head p = NONE
  | i :: fl' => sp_free_head p <> NONE /\ exists p', page_alloc p m = (Some (sp_virt p + i * s), p')
      /\ sp_phys p' = sp_phys p /\ sp_virt p' = sp_virt p /\ page_inv m s p' fl'
  end.
Proof.
  intros Hs [Hv Ha Hc Hn Hf Hl]. destruct fl as [|i fl']; [done|]. destruct Hc as [Hh Hc].
  apply NoDup_cons in Hn as [_ Hn]. apply Forall_cons in Hf as [Hi Hf].
  pose proof (slot_not_NONE s i Hs Hi). unfold page_alloc.
  split; [congruence|]. rewrite (proj2 (Z.eqb_neq _ _)) by congruence. rewrite Hh.
  eexists. split; [done|]. split; [done|]. split; [done|]. split; simpl; try done.
  rewrite Hl. simpl length. lia.
Qed.

Lemma page_free_spec m s p fl i : s ∈ CACHE_SIZES -> page_inv m s p fl -> slot s i -> i ∉ fl ->
  exists p' m', page_free p (sp_virt p + i * s) m = Ok (p', m')
  /\ sp_phys p' = sp_phys p /\ sp_virt p' = sp_virt p /\ page_inv m' s p' (i :: fl)
  /\ m' = <[sp_virt p + i * s := sp_free_head p]> m.
Proof.
  intros Hs [Hv Ha Hc Hn Hf Hl] Hi Hni. pose proof (slot_bound s i Hs Hi). pose proof (class_facts s Hs).
  assert (NoDup (i :: fl)) as Hn' by (by constructor). assert (Forall (slot s) (i :: fl)) as Hf' by (by constructor).
  pose proof (slots_length s _ Hn' Hf') as Hlen. simpl length in Hlen.
  unfold page_free. replace (sp_virt p + i * s - sp_virt p) with (i * s) by lia.
  rewrite (proj2 (Z.ltb_ge _ _)), (proj2 (Z.leb_gt _ _)), (proj2 (Z.leb_gt (sp_allocated p) _)) by (destruct Hi; lia).
  eexists _, _. split; [done|]. split_and!; try done. split; simpl; try done; [|lia].
  split; [done|]. rewrite load_insert, decide_True by done. eapply chain_ext; [|done].
  intros j Hj. rewrite load_insert, decide_False; [done|]. intros E.
  assert (j = i) as -> by nia. done.
Qed.

(** A page without objects in use is the page that [is_empty] reports. *)
Lemma page_empty_live m s p a : s ∈ CACHE_SIZES -> page_is_empty p = true -> ~ page_live m s p a.
Proof.
  intros Hs He%Z.eqb_eq (fl & i & Hp & Hi & Hni & _).
  pose proof (slots_length s (i :: fl)) as Hlen. destruct Hp. simpl length in Hlen.
  pose proof (Hlen ltac:(by constructor) ltac:(by constructor)). destruct Hi. lia.
Qed.
End PageInv.

(** ** The frames the allocator holds *)
Section SlabProofs.
Context {P : Type} {PT : PageTableHelper P} {KM : KernelMap P} {LK : LawfulKernelMap P}.
Variable offset : Z.

Definition frame_used (b : BitmapFrameAllocator) (f : Z) : Prop :=
  f mod 4096 = 0 /\ 0 <= f < total_frames b * 4096 /\ used b (f / 4096) = true.

(** The direct mapping covers the frames at canonical addresses. *)
Definition direct_ok (b : BitmapFrameAllocator) : Prop :=
  offset mod 4096 = 0 /\ 0 <= offset /\ offset + total_frames b * 4096 <= 2 ^ 64
  /\ forall a, 0 <= a < total_frames b * 4096 -> canonical_new (a + offset) = Some (a + offset).

(** The frames [F] are in use, one by one, and mapped where the allocator expects them. *)
Definition mgr_inv (o : option (Manager P)) (F : list Z) : Prop :=
  NoDup F /\
  match o with
  | None => F = []
  | Some mgr => (table_ok (mg_pt mgr) /\ bm_inv (mg_frames mgr)) /\ direct_ok (mg_frames mgr)
      /\ forall f, f ∈ F -> frame_used (mg_frames mgr) f /\ mapped (mg_pt mgr) (f + offset) = Some f
  end.

Lemma mgr_inv_perm o F F' : F ≡ₚ F' -> mgr_inv o F -> mgr_inv o F'.
Proof.
  intros Hp [Hn Ho]. split; [by rewrite <- Hp|]. destruct o as [mgr|].
  - destruct Ho as (? & ? & Ho). split; [done|]. split; [done|]. intros f. rewrite <- Hp. apply Ho.
  - subst F. by apply Permutation_nil_l in Hp.
Qed.

Lemma direct_ok_total b b' : total_frames b' = total_frames b -> direct_ok b -> direct_ok b'.
Proof. unfold direct_ok. by intros ->. Qed.

Lemma page_aligned f : offset mod 4096 = 0 -> f mod 4096 = 0 -> (f + offset) mod 4096 = 0.
Proof. intros Ho Hf. rewrite Z.add_mod, Ho, Hf by lia. done. Qed.

Lemma frame_index_inj f g : f mod 4096 = 0 -> g mod 4096 = 0 -> f / 4096 = g / 4096 -> f = g.
Proof. intros. pose proof (Z.div_mod f 4096). pose proof (Z.div_mod g 4096). lia. Qed.

(** Freeing a frame leaves the others in use. *)
Lemma free_frame_others b f : bm_inv b -> f mod 4096 = 0 -> 0 <= f ->
  exists b', free_frame b f = Ok b' /\ bm_inv b' /\ total_frames b' = total_frames b
  /\ forall g, g <> f -> frame_used b g -> frame_used b' g.
Proof.
  intros Hb Hf H0. unfold free_frame. assert (0 <= f / 4096) by (apply Z.div_pos; lia).
  destruct (f / 4096 <? total_frames b); [|by exists b].
  destruct (set_frame_used_spec b (f / 4096) false Hb) as (b' & -> & Hb' & Ht & _ & Hu); [done|].
  exists b'. split_and!; try done. intros g Hg (Hg1 & Hg2 & Hg3).
  unfold frame_used. rewrite Ht. split_and!; try done; [lia..|].
  rewrite Hu by (apply Z.div_pos; lia). rewrite (proj2 (Z.eqb_neq _ _)); [done|].
  intros E. by apply Hg, frame_index_inj.
Qed.

Lemma mm_free_frame_spec mgr f F : mgr_inv (Some mgr) F -> f mod 4096 = 0 -> 0 <= f -> f ∉ F ->
  exists mgr', mm_free_frame mgr f = Ok mgr' /\ mgr_inv (Some mgr') F.
Proof.
  intros (Hn & [Hk Hb] & Hd & HF) Hf H0 Hni. unfold mm_free_frame. destruct (mg_initialized mgr); [|by exists mgr].
  destruct (free_frame_others _ f Hb Hf H0) as (b' & -> & Hb' & Ht & Hu). eexists. split; [done|].
  split; [done|]. split; [done|]. split; [by eapply direct_ok_total|]. simpl. intros g Hg.
  destruct (HF g Hg). split; [|done]. apply Hu; [congruence|done].
Qed.

Lemma page_drop_spec p o F : mgr_inv o (sp_phys p :: F) -> sp_virt p = sp_phys p + offset ->
  exists o', page_drop p o = Ok o' /\ mgr_inv o' F.
Proof.
  intros [Hn Ho] Hv. apply NoDup_cons in Hn as [Hni Hn]. destruct o as [mgr|]; [|done].
  destruct Ho as ([Hk Hb] & Hd & HF). destruct (HF (sp_phys p)) as [(Ha & Hr & _) Hm]; [by left|].
  pose proof Hd as (Ho & _). unfold page_drop, safe_unmap_page, mm_free_frame. rewrite Hv.
  assert (mgr_inv (Some mgr) F) as HmF.
  { split; [done|]. split; [done|]. split; [done|]. intros f Hf. apply HF. by right. }
  destruct (mg_initialized mgr) eqn:Ei; simpl.
  2:{ eexists. split; [by rewrite Ei|done]. }
  pose proof (unmap_4k_law (mg_pt mgr) (sp_phys p + offset) Hk (page_aligned _ Ho Ha)) as Hu.
  destruct (pth_unmap_page _ _) as [r pt']. destruct Hu as (Hk' & Hr' & Hw).
  assert (forall f, f ∈ F -> mapped pt' (f + offset) = Some f) as Hmap.
  { intros f Hf. destruct (HF f) as [(Hfa & _) Hfm]; [by right|].
    rewrite Hw; [done|by apply page_aligned|]. intros E. assert (f = sp_phys p) as -> by lia. done. }
  assert (exists b', (match r with Some f => free_frame (mg_frames mgr) f | None => Ok (mg_frames mgr) end) = Ok b'
    /\ bm_inv b' /\ total_frames b' = total_frames (mg_frames mgr)
    /\ forall f, f ∈ F -> frame_used b' f) as (b' & Eb & Hb' & Ht & Hu).
  { destruct r as [f|].
    - assert (f = sp_phys p) as -> by (specialize (Hr' f eq_refl); congruence).
      destruct (free_frame_others _ _ Hb Ha (proj1 Hr)) as (b' & E & Hb' & Ht & Hu). exists b'.
      split_and!; try done. intros g Hg. apply Hu; [congruence|]. apply HF. by right.
    - eexists. split_and!; try done. intros g Hg. apply HF. by right. }
  assert (mgr_inv (Some (mkManager pt' b' true)) F) as Hm'.
  { split; [done|]. split; [done|]. split; [by eapply direct_ok_total|]. intros f Hf. split; [by apply Hu|by apply Hmap]. }
  destruct (mm_free_frame_spec _ (sp_phys p) F Hm' Ha (proj1 Hr) Hni) as (mgr'' & E2 & Hm'').
  exists (Some mgr''). split; [|done]. unfold mm_free_frame in E2. simpl in E2.
  destruct r; [rewrite Eb|injection Eb as <-]; unfold set_pt; simpl; rewrite ?Ei; simpl; by rewrite E2.
Qed.

Lemma page_new_spec s m o F : s ∈ CACHE_SIZES -> mgr_inv o F ->
  exists r m' o', page_new offset s m o = Ok (r, m', o') /\
  match r with
  | None => m' = m /\ mgr_inv o' F
  | Some p => mgr_inv o' (sp_phys p :: F) /\ page_inv offset m' s p (seqZ 0 (4096 / s))
      /\ forall a, ~ in_page p a -> load m' a = load m a
  end.
Proof.
  intros Hs [Hn Ho]. destruct o as [mgr|]; [|by exists None, m, None].
  unfold page_new.
  pose proof Ho as ([Hk Hb] & Hd & HF). unfold mm_allocate_frame, safe_map_page.
  destruct (mg_initialized mgr) eqn:Ei; cbn [negb].
  2:{ exists None, m, (Some mgr). split; [reflexivity|]. split; [reflexivity|]. exact (conj Hn Ho). }
  destruct (allocate_spec _ Hb) as [(f & b1 & _ & Hb1 & Ht & -> & H0 & [Hr Hfree] & _ & _ & Hu)|(_ & -> & _)].
  2:{ eexists None, m, _. split; [reflexivity|]. split; [reflexivity|]. exact (conj Hn Ho). }
  pose proof Hb as (_ & H52 & _). pose proof Hd as (Ho' & H0' & Hmax & Hcan).
  unfold physical_to_virtual. rewrite u64_checked_add_fit by (unfold u64_max; lia).
  cbn [mg_initialized mg_frames mg_pt negb].
  rewrite Hcan by lia. unfold phys_addr_new. rewrite (proj2 (Z.ltb_lt _ _)) by lia.
  assert ((f * 4096) mod 4096 = 0) as Hfa by apply Z_mod_mult.
  pose proof (map_4k_law (mg_pt mgr) (f * 4096 + offset) (f * 4096) b1 Hk Hb1 (page_aligned _ Ho' Hfa) Hfa) as Hm.
  destruct (map_page_4k_l1 _ _ _ _) as [[ok pt'] b2]. destruct Hm as (Hk2 & Hb2 & Ht2 & Hu2 & Hok & Hw).
  assert (f * 4096 ∉ F) as Hni.
  { intros Hin. destruct (HF _ Hin) as [(_ & _ & E) _]. rewrite Z.div_mul in E by lia. congruence. }
  assert (mgr_inv (Some (mkManager pt' b2 true)) F) as HmF.
  { split; [done|]. split; [done|]. cbn [mg_frames mg_pt].
    split; [by apply (direct_ok_total (mg_frames mgr)); [congruence|]|]. intros g Hg.
    destruct (HF g Hg) as [(Hga & Hgr & Hgu) Hgm]. assert (0 <= g / 4096) by (apply Z.div_pos; lia).
    split.
    - split; [done|]. split; [lia|]. apply Hu2; [done|]. rewrite Hu by done. by rewrite Hgu, orb_true_r.
    - rewrite Hw; [done|by apply page_aligned|]. intros E. assert (g = f * 4096) as -> by lia. done. }
  destruct ok; cbn [negb].
  2:{ destruct (mm_free_frame_spec _ (f * 4096) F HmF Hfa ltac:(lia) Hni) as (mgr' & -> & Hm').
      exists None, m, (Some mgr'). split; [reflexivity|]. by split. }
  pose proof (class_facts s Hs) as (Hs1 & Hs2 & _). assert (0 < 4096 / s) by nia.
  eexists (Some _), _, _. split; [reflexivity|]. split; [|split].
  - destruct HmF as (_ & Hx & Hy & HF'). split; [by constructor|]. split; [done|]. split; [done|]. intros g Hg.
    apply elem_of_cons in Hg as [->|Hg]; [|by apply HF']. split; [|by apply Hok].
    cbn [sp_phys mg_frames]. split; [done|]. split; [lia|]. rewrite Z.div_mul by lia.
    apply Hu2; [lia|]. rewrite Hu by lia. by rewrite Z.eqb_refl.
  - split; cbn [sp_phys sp_virt sp_free_head sp_allocated]; [done|by apply page_aligned|..].
    + pose proof (build_loop_chain (Z.to_nat (4096 / s)) 0 (4096 / s) (f * 4096 + offset) s m ltac:(lia) ltac:(lia)) as Hc.
      rewrite (proj2 (Z.ltb_lt _ _)), Z2Nat.id in Hc by lia. exact Hc.
    + apply NoDup_seqZ.
    + apply Forall_forall. intros i Hi%elem_of_seqZ. split; lia.
    + rewrite length_seqZ. lia.
  - intros a Ha. apply build_loop_load. intros j Hj ->. apply Ha. unfold in_page. cbn [sp_virt]. nia.
Qed.

(** ** Objects in use *)
Abbreviation page_inv := (page_inv offset).
Abbreviation page_ok := (page_ok offset).
Abbreviation page_live := (page_live offset).
Abbreviation cache_inv := (cache_inv offset).
Abbreviation cache_live := (cache_live offset).

Lemma page_live_iff m s p fl a : s ∈ CACHE_SIZES -> page_inv m s p fl ->
  page_live m s p a <-> exists i, slot s i /\ i ∉ fl /\ a = sp_virt p + i * s.
Proof.
  intros Hs Hp. split.
  - intros (fl' & i & Hp' & Hi). rewrite (page_inv_unique _ _ _ _ _ _ Hs Hp Hp'). by exists i.
  - intros (i & Hi). by exists fl, i.
Qed.

(** [p] has one more free slot than [p']: its object is the one that differs. *)
Lemma page_live_cons m m' s p p' i fl : s ∈ CACHE_SIZES ->
  page_inv m s p (i :: fl) -> page_inv m' s p' fl -> sp_virt p' = sp_virt p ->
  ~ page_live m s p (sp_virt p + i * s)
  /\ forall b, page_live m' s p' b <-> b = sp_virt p + i * s \/ page_live m s p b.
Proof.
  intros Hs Hp Hp' Hv. pose proof (class_facts s Hs). pose proof (pi_nodup _ _ _ _ _ Hp) as Hn. pose proof (pi_slots _ _ _ _ _ Hp) as Hf.
  apply NoDup_cons in Hn as Hn'. apply Forall_cons in Hf as Hf'. destruct Hn', Hf'.
  split.
  - rewrite page_live_iff by done. intros (j & _ & Hj & E). assert (j = i) as -> by nia. apply Hj. by left.
  - intros b. rewrite (page_live_iff m' s p' fl) by done. rewrite (page_live_iff m s p (i :: fl)) by done. rewrite Hv.
    setoid_rewrite not_elem_of_cons. split.
    + intros (j & Hj & Hjn & ->). destruct (decide (j = i)) as [->|]; [by left|]. right. by exists j.
    + intros [->|(j & Hj & [_ Hjn] & ->)]; [by exists i|by exists j].
Qed.

(** Pages of different frames have no address in common. *)
Lemma pages_apart m m' s s' p q a : page_ok m s p -> page_ok m' s' q -> in_page p a -> in_page q a -> sp_phys p = sp_phys q.
Proof.
  intros [? [Hp Hpa _ _ _ _]] [? [Hq Hqa _ _ _ _]] [? ?] [? ?].
  pose proof (Z.div_mod (sp_virt p) 4096). pose proof (Z.div_mod (sp_virt q) 4096). lia.
Qed.

Lemma slot_in_page s p i : s ∈ CACHE_SIZES -> slot s i -> in_page p (sp_virt p + i * s).
Proof. intros Hs Hi. pose proof (slot_bound s i Hs Hi). pose proof (class_facts s Hs). unfold in_page. lia. Qed.

Lemma page_live_in m s p a : s ∈ CACHE_SIZES -> page_live m s p a -> in_page p a.
Proof. intros Hs Ha%page_live_in_page; [|done]. pose proof (class_facts s Hs). unfold in_page. lia. Qed.

Lemma page_live_frame m m' s p a : s ∈ CACHE_SIZES -> (forall b, in_page p b -> load m' b = load m b) ->
  page_live m s p a -> page_live m' s p a.
Proof. intros Hs He (fl & i & Hp & Hi). exists fl, i. split; [by eapply page_inv_frame|done]. Qed.

Lemma page_of_frame (pages : list SlabPage) p q : NoDup (sp_phys <$> pages) ->
  p ∈ pages -> q ∈ pages -> sp_phys p = sp_phys q -> p = q.
Proof.
  intros Hn [i Hi]%list_elem_of_lookup [j Hj]%list_elem_of_lookup E.
  assert (i = j) as <-; [|congruence].
  eapply NoDup_lookup; [exact Hn|by rewrite list_lookup_fmap, Hi|rewrite list_lookup_fmap, Hj; simpl; congruence].
Qed.

(** A cache depends on the memory of its pages only. *)
Lemma cache_frame m m' c : (forall p a, p ∈ sc_pages c -> in_page p a -> load m' a = load m a) ->
  cache_inv m c -> cache_inv m' c /\ forall b, cache_live m' c b <-> cache_live m c b.
Proof.
  intros He [Hs Hp]. split; [split; [done|]|].
  - rewrite Forall_forall in Hp |- *. intros p Hin. destruct (Hp p Hin) as [fl Hfl]. exists fl.
    eapply page_inv_frame; [done| |done]. intros a. by apply He.
  - intros b. split; intros (p & Hin & Hl); exists p; (split; [done|]);
      (eapply page_live_frame; [done| |done]); intros a Ha; [symmetry|]; by eapply He.
Qed.

(** One page changes: its objects, and those of the other pages as before. *)
Lemma cache_replace m m' c i p p' hint : cache_inv m c -> NoDup (cache_frames c) ->
  sc_pages c !! i = Some p -> sp_phys p' = sp_phys p -> sp_virt p' = sp_virt p ->
  (forall a, ~ in_page p a -> load m' a = load m a) -> page_ok m' (sc_obj_size c) p' ->
  let c' := mkCache (sc_obj_size c) (<[i := p']> (sc_pages c)) hint in
  cache_inv m' c' /\ cache_frames c' = cache_frames c
  /\ forall b, cache_live m' c' b <->
       page_live m' (sc_obj_size c) p' b \/ (cache_live m c b /\ ~ in_page p b).
Proof.
  intros [Hs Hok] Hn Hi Hph Hv He Hp' c'. rewrite Forall_forall in Hok.
  assert (Hp : p ∈ sc_pages c) by by eapply list_elem_of_lookup_2.
  assert (Hoth : forall q, q ∈ sc_pages c -> q <> p -> forall a, in_page q a -> ~ in_page p a).
  { intros q Hq Hne a Ha Ha'. apply Hne, (page_of_frame (sc_pages c)); try done.
    by eapply pages_apart; [apply Hok, Hq|apply Hok, Hp|..]. }
  assert (Hin : forall q, q ∈ sc_pages c' <-> q = p' \/ (q ∈ sc_pages c /\ q <> p)).
  { intros q. unfold c'. simpl. rewrite !list_elem_of_lookup. split.
    - intros [j Hj]. destruct (decide (j = i)) as [->|Hne].
      + left. rewrite list_lookup_insert_eq in Hj by (by eapply lookup_lt_Some). congruence.
      + rewrite list_lookup_insert_ne in Hj by done. right. split; [by exists j|]. intros ->.
        apply Hne. eapply NoDup_lookup; [exact Hn|unfold cache_frames; by rewrite list_lookup_fmap, Hj|].
        unfold cache_frames. by rewrite list_lookup_fmap, Hi.
    - intros [->|[[j Hj] Hne]].
      + exists i. apply list_lookup_insert_eq. by eapply lookup_lt_Some.
      + exists j. rewrite list_lookup_insert_ne; [done|]. congruence. }
  split; [split; [done|]|split].
  - apply Forall_forall. intros q [->|[Hq Hne]]%Hin; [done|]. destruct (Hok q Hq) as [fl Hfl]. exists fl.
    eapply page_inv_frame; [done| |done]. intros a Ha. by eapply He, Hoth.
  - unfold cache_frames, c'. simpl. rewrite list_fmap_insert. apply list_insert_id.
    by rewrite list_lookup_fmap, Hi, Hph.
  - intros b. split.
    + intros (q & [->|[Hq Hne]]%Hin & Hl); [by left|]. right. simpl in Hl.
      assert (page_live m (sc_obj_size c) q b) as Hl'.
      { eapply page_live_frame; [done| |done]. intros a Ha. symmetry. by eapply He, Hoth. }
      split; [by exists q|]. by eapply Hoth, page_live_in.
    + intros [Hl|[(q & Hq & Hl) Hnl]].
      * exists p'. split; [|done]. apply Hin. by left.
      * assert (q <> p) by (intros ->; by eapply Hnl, page_live_in).
        exists q. split; [apply Hin; by right|].
        eapply page_live_frame; [done| |done]. intros a Ha. by eapply He, Hoth.
Qed.

Lemma cache_live_split m c i p b : cache_inv m c -> NoDup (cache_frames c) -> sc_pages c !! i = Some p ->
  (cache_live m c b <-> page_live m (sc_obj_size c) p b \/ (cache_live m c b /\ ~ in_page p b))
  /\ (cache_live m c b -> in_page p b -> page_live m (sc_obj_size c) p b).
Proof.
  intros [Hs Hok] Hn Hi. rewrite Forall_forall in Hok.
  assert (Hp : p ∈ sc_pages c) by by eapply list_elem_of_lookup_2.
  assert (Hx : forall q, q ∈ sc_pages c -> page_live m (sc_obj_size c) q b -> in_page p b -> q = p).
  { intros q Hq Hl Hb. apply (page_of_frame (sc_pages c)); try done.
    eapply pages_apart; [by apply Hok|by apply Hok|by eapply page_live_in|done]. }
  split; [split|].
  - intros (q & Hq & Hl). destruct (decide (sp_phys q = sp_phys p)) as [E|E].
    + rewrite <- (page_of_frame _ _ _ Hn Hq Hp E). by left.
    + right. split; [by exists q|]. intros Hb. by rewrite (Hx q Hq Hl Hb) in E.
  - intros [Hl|[Hl _]]; [by exists p|done].
  - intros (q & Hq & Hl) Hb. by rewrite <- (Hx q Hq Hl Hb).
Qed.

Lemma find_partial_Some pages n : forall k i,
  find_partial pages k n = Some i -> exists p, pages !! i = Some p /\ sp_free_head p <> NONE.
Proof.
  induction n as [|n IH]; intros k i; simpl; [done|].
  destruct (pages !! k) as [p|] eqn:Ek; [|done]. destruct (Z.eqb_spec (sp_free_head p) NONE); [apply IH|].
  intros [= <-]. by exists p.
Qed.

(** What an allocation does to a cache: the object returned was not in use, and is the
    only one that becomes in use. *)
Definition alloc_result (m m' : Memory) (c c' : SlabCache) (r : option Z) : Prop :=
  match r with
  | Some a => ~ cache_live m c a /\ forall b, cache_live m' c' b <-> b = a \/ cache_live m c b
  | None => forall b, cache_live m' c' b <-> cache_live m c b
  end.

Lemma alloc_from_spec m c i : cache_inv m c -> NoDup (cache_frames c) ->
  (exists p, sc_pages c !! i = Some p /\ sp_free_head p <> NONE) ->
  exists a c', alloc_from c i m = (Some a, c') /\ sc_obj_size c' = sc_obj_size c /\ cache_inv m c'
  /\ cache_frames c' = cache_frames c /\ alloc_result m m c c' (Some a).
Proof.
  intros Hc Hn (p & Hi & Hh). pose proof Hc as [Hs Hok]. rewrite Forall_forall in Hok.
  assert (Hp : p ∈ sc_pages c) by by eapply list_elem_of_lookup_2.
  destruct (Hok p Hp) as [fl Hfl]. pose proof (page_alloc_spec offset m _ p fl Hs Hfl) as Ha.
  destruct fl as [|j fl]; [done|]. destruct Ha as (_ & p' & Ea & Hph & Hv & Hfl').
  unfold alloc_from. rewrite Hi, Ea. eexists _, _. split; [done|]. split; [done|].
  destruct (page_live_cons m m _ p p' j fl Hs Hfl Hfl' Hv) as [Hnl Hl].
  destruct (cache_replace m m c i p p' (Z.of_nat i) Hc Hn Hi Hph Hv) as (Hc' & Hfr & Hlive); [done|by exists fl|].
  split; [done|]. split; [done|]. split.
  - intros Hl'. apply Hnl. apply (cache_live_split m c i p _ Hc Hn Hi); [done|].
    eapply slot_in_page; [done|]. by apply (Forall_inv (pi_slots _ _ _ _ _ Hfl)).
  - intros b. rewrite Hlive, Hl, (proj1 (cache_live_split m c i p b Hc Hn Hi)). tauto.
Qed.

(** A new page at the end: its objects are added. *)
Lemma cache_push m m' c p' hint : cache_inv m c ->
  (forall q a, q ∈ sc_pages c -> in_page q a -> load m' a = load m a) ->
  page_ok m' (sc_obj_size c) p' ->
  let c' := mkCache (sc_obj_size c) (sc_pages c ++ [p']) hint in
  cache_inv m' c' /\ forall b, cache_live m' c' b <-> page_live m' (sc_obj_size c) p' b \/ cache_live m c b.
Proof.
  intros Hc He Hp' c'. destruct (cache_frame m m' c He Hc) as [[Hs Hok] Hl]. split.
  - split; [done|]. apply Forall_app. split; [done|]. by apply Forall_singleton.
  - intros b. rewrite <- Hl. unfold cache_live, c'. simpl. setoid_rewrite elem_of_app. setoid_rewrite list_elem_of_singleton.
    split; [intros (q & [Hq| ->] & Hb); [right; by exists q|by left]|].
    intros [Hb|(q & Hq & Hb)]; [exists p'|exists q]; tauto.
Qed.

Lemma cache_alloc_spec m c o F : cache_inv m c -> mgr_inv o (cache_frames c ++ F) ->
  exists r c' m' o', cache_alloc offset c m o = Ok (r, c', m', o')
  /\ sc_obj_size c' = sc_obj_size c /\ cache_inv m' c' /\ mgr_inv o' (cache_frames c' ++ F)
  /\ (forall a, (forall p, p ∈ sc_pages c' -> ~ in_page p a) -> load m' a = load m a)
  /\ alloc_result m m' c c' r.
Proof.
  intros Hc Ho. pose proof (proj1 Ho) as Hn. apply NoDup_app in Hn as (Hn & _).
  assert (Hold : forall i, (exists p, sc_pages c !! i = Some p /\ sp_free_head p <> NONE) ->
    exists r c' m' o', (let '(r, c) := alloc_from c i m in Ok (r, c, m, o)) = @Ok unit _ (r, c', m', o')
    /\ sc_obj_size c' = sc_obj_size c /\ cache_inv m' c' /\ mgr_inv o' (cache_frames c' ++ F)
    /\ (forall a, (forall p, p ∈ sc_pages c' -> ~ in_page p a) -> load m' a = load m a)
    /\ alloc_result m m' c c' r).
  { intros i Hi. destruct (alloc_from_spec m c i Hc Hn Hi) as (a & c' & -> & Hsz & Hc' & Hfr & Hr).
    exists (Some a), c', m, o. rewrite Hfr. split_and!; try done; apply Hr. }
  unfold cache_alloc. cbv zeta.
  destruct (find_partial _ _ (_ - _)) as [i|] eqn:E1; [by apply Hold, (find_partial_Some _ _ _ _ E1)|].
  destruct (find_partial _ 0 _) as [i|] eqn:E2; [by apply Hold, (find_partial_Some _ _ _ _ E2)|]. clear Hold E1 E2.
  pose proof Hc as [Hs Hok]. rewrite Forall_forall in Hok.
  destruct (page_new_spec _ m o _ Hs Ho) as ([p|] & m' & o' & -> & Hp).
  2:{ destruct Hp as [-> Ho']. exists None, c, m, o'. by split_and!. }
  destruct Hp as (Ho' & Hfl & Hm). pose proof (page_alloc_spec offset m' _ p _ Hs Hfl) as Ha.
  pose proof (class_facts _ Hs) as (Hs1 & Hs2 & _). assert (0 < 4096 / sc_obj_size c) by nia.
  rewrite seqZ_cons in Hfl, Ha by lia. destruct Ha as (_ & p' & -> & Hph & Hv & Hfl').
  assert (He : forall q a, q ∈ sc_pages c -> in_page q a -> load m' a = load m a).
  { intros q a Hq Hqa. apply Hm. intros Hpa.
    assert (sp_phys p = sp_phys q) as E by (eapply pages_apart; [by eexists|by apply Hok|done|done]).
    apply proj1, NoDup_cons, proj1 in Ho'. apply Ho'. rewrite E. apply elem_of_app. left.
    by apply list_elem_of_fmap_2. }
  destruct (cache_push m m' c p' (Z.of_nat (length (sc_pages c ++ [p'])) - 1) Hc He) as [Hc' Hl]; [by eexists|].
  destruct (page_live_cons m' m' _ p p' _ _ Hs Hfl Hfl' Hv) as [Hnl Hl'].
  assert (Hnone : forall b, ~ page_live m' (sc_obj_size c) p b).
  { intros b. rewrite (page_live_iff _ _ _ _ _ Hs Hfl). intros (i & [Hi1 Hi2] & Hi & _). apply Hi.
    rewrite <- seqZ_cons by lia. apply elem_of_seqZ. lia. }
  eexists (Some _), _, m', o'. split; [done|]. split; [done|]. split; [done|]. split; [|split; [|split]].
  - eapply mgr_inv_perm; [|exact Ho']. unfold cache_frames. simpl. rewrite fmap_app. simpl. rewrite Hph.
    rewrite <- app_assoc. by apply Permutation_middle.
  - intros a Hna. apply Hm. intros Hpa. apply (Hna p'); [apply elem_of_app; right; by left|].
    unfold in_page in *. by rewrite Hv.
  - intros (q & Hq & Hlq). assert (in_page q (sp_virt p + 0 * sc_obj_size c)) as Hqa by by eapply page_live_in.
    assert (in_page p (sp_virt p + 0 * sc_obj_size c)) as Hpa by (apply (slot_in_page (sc_obj_size c)); [done|by split]).
    assert (sp_phys p = sp_phys q) as E by (eapply pages_apart; [by eexists|by apply Hok|done|done]).
    apply proj1, NoDup_cons, proj1 in Ho'. apply Ho'. rewrite E. apply elem_of_app. left. by apply list_elem_of_fmap_2.
  - intros b. rewrite Hl, Hl'. pose proof (Hnone b). tauto.
Qed.

Lemma ldiff_4095 v x : v mod 4096 = 0 -> 0 <= x < 4096 -> Z.ldiff (v + x) 4095 = v.
Proof.
  intros Hv Hx. change 4095 with (Z.ones 12). rewrite Z.ldiff_ones_r by lia.
  rewrite Z.shiftr_div_pow2, Z.shiftl_mul_pow2 by lia. change (2 ^ 12) with 4096.
  pose proof (Z.div_mod v 4096). pose proof (Z.div_mod (v + x) 4096). pose proof (Z.mod_pos_bound (v + x) 4096). lia.
Qed.

Lemma cache_free_spec m c a : cache_inv m c -> NoDup (cache_frames c) -> cache_live m c a ->
  exists c' m', cache_free c a m = Ok (c', m')
  /\ sc_obj_size c' = sc_obj_size c /\ cache_inv m' c' /\ cache_frames c' = cache_frames c
  /\ (forall b, (forall p, p ∈ sc_pages c' -> ~ in_page p b) -> load m' b = load m b)
  /\ forall b, cache_live m' c' b <-> cache_live m c b /\ b <> a.
Proof.
  intros Hc Hn (p & Hp & fl & i & Hfl & Hi & Hni & ->). pose proof Hc as [Hs Hok]. rewrite Forall_forall in Hok.
  pose proof (slot_bound _ i Hs Hi). pose proof (class_facts _ Hs). pose proof (slot_in_page _ p i Hs Hi) as Hpa.
  unfold cache_free. rewrite ldiff_4095 by (try apply Hfl; lia).
  destruct (proj1 (list_elem_of_lookup _ _) Hp) as [k Hk].
  destruct (position_complete (fun q => sp_virt q =? sp_virt p) (sc_pages c) k p Hk (Z.eqb_refl _)) as [k' Ek].
  rewrite Ek. apply position_Some in Ek as (q & Hq & Eq%Z.eqb_eq & _). rewrite Hq.
  assert (q = p) as ->.
  { assert (q ∈ sc_pages c) as Hq' by by eapply list_elem_of_lookup_2.
    apply (page_of_frame _ _ _ Hn Hq' Hp). destruct (Hok q Hq') as [? []], Hfl. lia. }
  destruct (page_free_spec offset m _ p fl i Hs Hfl Hi Hni) as (p' & m' & -> & Hph & Hv & Hfl' & Em).
  eexists _, m'. split; [done|]. split; [done|].
  assert (Hm : forall a, ~ in_page p a -> load m' a = load m a).
  { intros a Ha. rewrite Em, load_insert, decide_False; [done|]. by intros ->. }
  destruct (cache_replace m m' c k' p p' (Z.of_nat k') Hc Hn Hq Hph Hv Hm) as (Hc' & Hfr & Hl); [by eexists|].
  destruct (page_live_cons m' m _ p' p i fl Hs Hfl' Hfl (eq_sym Hv)) as [Hnl Hl']. rewrite Hv in Hnl, Hl'.
  split; [done|]. split; [done|]. split.
  - intros b Hb. apply Hm. intros Hpb. apply (Hb p'); [|unfold in_page in *; by rewrite Hv].
    simpl. apply list_elem_of_insert. by eapply lookup_lt_Some.
  - intros b. rewrite Hl, (proj1 (cache_live_split m c k' p b Hc Hn Hq)), Hl'.
    assert (b = sp_virt p + i * sc_obj_size c -> in_page p b /\ ~ page_live m' (sc_obj_size c) p' b) by by intros ->.
    tauto.
Qed.

(** ** Reaping *)
Definition kept (p : SlabPage) : Prop := page_is_empty p = false.
#[local] Instance kept_dec p : Decision (kept p) := decide (page_is_empty p = false).

Lemma reap_pages_spec pages : forall o F, Forall (fun p => sp_virt p = sp_phys p + offset) pages ->
  mgr_inv o ((sp_phys <$> pages) ++ F) ->
  exists o', reap_pages pages o = Ok (filter kept pages, o') /\ mgr_inv o' ((sp_phys <$> filter kept pages) ++ F).
Proof.
  induction pages as [|p pages IH]; intros o F Hv Ho; [by exists o|].
  apply Forall_cons in Hv as [Hp Hv]. simpl. rewrite filter_cons.
  destruct (page_is_empty p) eqn:Ee.
  - rewrite decide_False by (unfold kept; congruence).
    destruct (page_drop_spec p o _ Ho Hp) as (o' & -> & Ho'). by apply IH.
  - rewrite decide_True by done. destruct (IH o (sp_phys p :: F) Hv) as (o' & -> & Ho').
    { eapply mgr_inv_perm; [|exact Ho]. simpl. by rewrite Permutation_middle. }
    exists o'. split; [done|]. eapply mgr_inv_perm; [|exact Ho']. simpl. by rewrite Permutation_middle.
Qed.

Lemma cache_reap_spec m c o F : cache_inv m c -> mgr_inv o (cache_frames c ++ F) ->
  exists c' o', cache_reap c o = Ok (c', o') /\ sc_obj_size c' = sc_obj_size c /\ cache_inv m c'
  /\ mgr_inv o' (cache_frames c' ++ F) /\ (forall b, cache_live m c' b <-> cache_live m c b)
  /\ Forall kept (sc_pages c').
Proof.
  intros [Hs Hok] Ho. unfold cache_reap.
  destruct (reap_pages_spec (sc_pages c) o F) as (o' & -> & Ho'); [|done|].
  { eapply Forall_impl; [exact Hok|]. intros p [fl Hfl]. apply Hfl. }
  eexists _, o'. split; [done|]. split; [done|]. split; [|split; [done|split]].
  - split; [done|]. simpl. apply Forall_forall. intros p [_ Hp]%list_elem_of_filter.
    by eapply Forall_forall in Hp; [|exact Hok].
  - intros b. unfold cache_live. simpl. setoid_rewrite list_elem_of_filter.
    split; [intros (p & [_ Hp] & Hl); by exists p|]. intros (p & Hp & Hl). exists p. split; [|done]. split; [|done].
    unfold kept. destruct (page_is_empty p) eqn:Ee; [|done]. by eapply page_empty_live in Hl.
  - simpl. apply Forall_forall. by intros p [Hk _]%list_elem_of_filter.
Qed.

(** ** All the caches *)
Definition all_frames (cs : list SlabCache) : list Z := cs ≫= cache_frames.

Record caches_inv (m : Memory) (o : option (Manager P)) (cs : list SlabCache) : Prop := {
  ci_sizes : sc_obj_size <$> cs = CACHE_SIZES;
  ci_caches : Forall (cache_inv m) cs;
  ci_frames : mgr_inv o (all_frames cs)
}.

(** The objects in use are those the clients hold. *)
Definition live_ok (m : Memory) (cs : list SlabCache) (live : list (Z * Z)) : Prop :=
  NoDup (fst <$> live) /\
  forall k c a, cs !! k = Some c -> cache_live m c a <-> exists sz, size_to_class sz = k /\ (a, sz) ∈ live.

Definition slab_inv (w : Slabs * list (Z * Z)) : Prop :=
  caches_inv (sl_mem w.1) (sl_mgr w.1) (get_caches w.1) /\ live_ok (sl_mem w.1) (get_caches w.1) w.2.

Lemma all_frames_delete cs k c : cs !! k = Some c -> all_frames cs ≡ₚ cache_frames c ++ all_frames (delete k cs).
Proof. intros Hk. unfold all_frames. by rewrite (delete_Permutation cs k c Hk) at 1. Qed.

Lemma all_frames_insert cs k c c' : cs !! k = Some c ->
  all_frames (<[k := c']> cs) ≡ₚ cache_frames c' ++ all_frames (delete k cs).
Proof.
  intros Hk%lookup_lt_Some. rewrite (all_frames_delete _ k c') by by apply list_lookup_insert_eq.
  replace (delete k (<[k := c']> cs)) with (delete k cs); [done|].
  revert k Hk. induction cs as [|d cs IH]; intros [|k] Hk; simpl in *; try done.
  f_equal. apply IH. lia.
Qed.

Lemma elem_of_all_frames cs k c p : cs !! k = Some c -> p ∈ sc_pages c -> sp_phys p ∈ all_frames cs.
Proof.
  intros Hk Hp. apply list_elem_of_bind. exists c. split; [by apply list_elem_of_fmap_2|by eapply list_elem_of_lookup_2].
Qed.

Lemma caches_lookup m o cs k c : caches_inv m o cs -> cs !! k = Some c ->
  cache_inv m c /\ CACHE_SIZES !! k = Some (sc_obj_size c) /\ NoDup (cache_frames c).
Proof.
  intros [Hs Hc [Hn _]] Hk. split; [by eapply Forall_lookup|]. split; [by rewrite <- Hs, list_lookup_fmap, Hk|].
  rewrite (all_frames_delete cs k c Hk) in Hn. by apply NoDup_app in Hn as (? & _).
Qed.

(** Pages of different caches have different frames. *)
Lemma caches_apart m o cs j k c d p q : caches_inv m o cs -> cs !! j = Some c -> cs !! k = Some d -> j <> k ->
  p ∈ sc_pages c -> q ∈ sc_pages d -> sp_phys p <> sp_phys q.
Proof.
  intros [_ _ [Hn _]] Hj Hk Hne Hp Hq E. rewrite (all_frames_delete cs j c Hj) in Hn.
  apply NoDup_app in Hn as (_ & Hn & _). apply (Hn (sp_phys p)); [by apply list_elem_of_fmap_2|]. rewrite E.
  destruct (decide (k < j)%nat) as [Hlt|Hge].
  - eapply elem_of_all_frames; [|done]. by rewrite list_lookup_delete_lt.
  - eapply (elem_of_all_frames _ (k - 1)); [|done]. rewrite list_lookup_delete_ge by lia. by replace (S (k - 1)) with k by lia.
Qed.

(** One cache changes, with the memory of its pages. *)
Lemma caches_update m m' o o' cs k c c' : caches_inv m o cs -> cs !! k = Some c ->
  sc_obj_size c' = sc_obj_size c -> cache_inv m' c' -> mgr_inv o' (cache_frames c' ++ all_frames (delete k cs)) ->
  (forall a, (forall p, p ∈ sc_pages c' -> ~ in_page p a) -> load m' a = load m a) ->
  caches_inv m' o' (<[k := c']> cs)
  /\ forall j d b, j <> k -> cs !! j = Some d -> cache_live m' d b <-> cache_live m d b.
Proof.
  intros Hcs Hk Hsz Hc' Ho' Hm.
  assert (Hlen : (k < length cs)%nat) by by eapply lookup_lt_Some.
  assert (Hoth : forall j d, j <> k -> cs !! j = Some d ->
    cache_inv m' d /\ forall b, cache_live m' d b <-> cache_live m d b).
  { intros j d Hne Hj. destruct (caches_lookup _ _ _ _ _ Hcs Hj) as ([Hds Hd] & _).
    apply cache_frame; [|done]. intros q a Hq Hqa. apply Hm. intros p Hp Hpa. destruct Hc' as [_ Hc'].
    rewrite Forall_forall in Hc', Hd.
    assert (sp_phys q = sp_phys p) as E by (eapply pages_apart; [by apply Hd|by apply Hc'|done|done]).
    destruct Ho' as [(_ & Hn & _)%NoDup_app _]. apply (Hn (sp_phys p)); [by apply list_elem_of_fmap_2|]. rewrite <- E.
    destruct (decide (j < k)%nat).
    - eapply elem_of_all_frames; [|done]. by rewrite list_lookup_delete_lt.
    - eapply (elem_of_all_frames _ (j - 1)); [|done]. rewrite list_lookup_delete_ge by lia. by replace (S (j - 1)) with j by lia. }
  split; [|intros j d b Hne Hj; by apply (Hoth j d)]. destruct Hcs as [Hs Hc _]. split.
  - rewrite list_fmap_insert, Hs. apply list_insert_id. by rewrite <- Hs, list_lookup_fmap, Hk, Hsz.
  - apply Forall_lookup. intros j d [(<- & <- & _)|[Hne Hj]]%list_lookup_insert_Some; [done|by apply (Hoth j d)].
  - eapply mgr_inv_perm; [|exact Ho']. by rewrite (all_frames_insert cs k c).
Qed.

(** Two objects in use are the same object or are disjoint. *)
Lemma objects_apart m o cs j k c d a b : caches_inv m o cs -> cs !! j = Some c -> cs !! k = Some d ->
  cache_live m c a -> cache_live m d b ->
  (a = b /\ j = k) \/ a + sc_obj_size c <= b \/ b + sc_obj_size d <= a.
Proof.
  intros Hcs Hj Hk (p & Hp & Ha) (q & Hq & Hb).
  destruct (caches_lookup _ _ _ _ _ Hcs Hj) as ([Hs Hc] & _ & Hn). destruct (caches_lookup _ _ _ _ _ Hcs Hk) as ([Hs' Hd] & _).
  rewrite Forall_forall in Hc, Hd.
  pose proof (page_live_in_page _ _ _ _ _ Hs Ha) as Hpa. pose proof (page_live_in_page _ _ _ _ _ Hs' Hb) as Hqb.
  pose proof (class_facts _ Hs). pose proof (class_facts _ Hs').
  destruct (decide (sp_phys p = sp_phys q)) as [E|E].
  - destruct (decide (j = k)) as [->|Hne]; [|by destruct (caches_apart _ _ _ _ _ _ _ _ _ Hcs Hj Hk Hne Hp Hq)].
    assert (d = c) as -> by congruence. rewrite (page_of_frame _ _ _ Hn Hp Hq E) in *.
    destruct Ha as (? & i & _ & _ & _ & ->), Hb as (? & i' & _ & _ & _ & ->).
    destruct (decide (i = i')) as [->|]; [by left|right]. nia.
  - right. destruct (Hc p Hp) as [? [Hv Hva _ _ _ _]], (Hd q Hq) as [? [Hw Hwa _ _ _ _]].
    pose proof (Z.div_mod (sp_virt p) 4096). pose proof (Z.div_mod (sp_virt q) 4096).
    assert (sp_virt p / 4096 < sp_virt q / 4096 \/ sp_virt q / 4096 < sp_virt p / 4096); lia.
Qed.

Lemma size_to_class_lt size : (size_to_class size < 9)%nat.
Proof.
  unfold size_to_class, CACHE_SIZES. cbn [class_loop].
  repeat (destruct (Z.leb size _); [lia|]). unfold NUM_CACHES. lia.
Qed.

Lemma class_size_ge size : size <= 4096 -> size <= class_size size.
Proof.
  intros Hs. unfold class_size, size_to_class, CACHE_SIZES. cbn [class_loop].
  repeat (match goal with |- context [size <=? ?x] => destruct (Z.leb_spec size x) end; [simpl; lia|]). lia.
Qed.

Lemma caches_class m o cs size : caches_inv m o cs ->
  exists c, cs !! size_to_class size = Some c /\ sc_obj_size c = class_size size.
Proof.
  intros [Hs _ _]. destruct (lookup_lt_is_Some_2 cs (size_to_class size)) as [c Hc].
  { rewrite <- (length_fmap sc_obj_size), Hs. apply size_to_class_lt. }
  exists c. split; [done|]. unfold class_size. by rewrite <- Hs, list_lookup_fmap, Hc.
Qed.

(** ** The operations *)
Lemma slab_alloc_inv size st live : slab_inv (st, live) ->
  exists r st', slab_alloc offset size st = Ok (r, st')
  /\ slab_inv (st', match r with Some a => (a, size) :: live | None => live end).
Proof.
  intros [Hcs [Hn Hl]]. simpl in *. destruct (caches_class _ _ _ size Hcs) as (c & Hc & _).
  destruct (caches_lookup _ _ _ _ _ Hcs Hc) as (Hci & _ & _).
  destruct (cache_alloc_spec _ c (sl_mgr st) (all_frames (delete (size_to_class size) (get_caches st))) Hci)
    as (r & c' & m' & o' & E & Hsz & Hc' & Ho' & Hm & Hr).
  { eapply mgr_inv_perm; [|apply Hcs]. by apply all_frames_delete. }
  unfold slab_alloc. rewrite Hc, E. eexists _, _. split; [done|].
  destruct (caches_update _ m' _ o' _ _ _ c' Hcs Hc Hsz Hc' Ho' Hm) as [Hcs' Hoth].
  split; [done|]. unfold get_caches at 1. simpl.
  assert (Hnew : forall a, r = Some a -> a ∉ (fst <$> live)).
  { intros a -> [[a' sz] [-> Hin]]%list_elem_of_fmap. destruct Hr as [Hna Hr]. simpl in *.
    destruct (caches_class _ _ _ sz Hcs) as (d & Hd & _).
    assert (cache_live (sl_mem st) d a') as Hla by (apply (Hl _ _ _ Hd); eauto).
    destruct (decide (size_to_class sz = size_to_class size)) as [Ek|Ek]; [apply Hna; congruence|].
    assert (Hd' : <[size_to_class size := c']> (get_caches st) !! size_to_class sz = Some d) by by rewrite list_lookup_insert_ne.
    assert (Hc'' : <[size_to_class size := c']> (get_caches st) !! size_to_class size = Some c')
      by (apply list_lookup_insert_eq; by eapply lookup_lt_Some).
    rewrite <- (Hoth _ _ _ Ek Hd) in Hla.
    pose proof (class_facts _ (proj1 (proj1 (caches_lookup _ _ _ _ _ Hcs' Hd')))).
    pose proof (class_facts _ (proj1 Hc')).
    destruct (objects_apart _ _ _ _ _ _ _ a' a' Hcs' Hd' Hc'' Hla) as [[_ ?]|?]; [apply Hr; by left|done|lia]. }
  split.
  - destruct r as [a|]; [|done]. simpl. constructor; [by apply Hnew|done].
  - intros k d b [(<- & <- & _)|[Hne Hk]]%list_lookup_insert_Some.
    + destruct r as [a|]; [destruct Hr as [_ Hr]|simpl in Hr]; rewrite Hr, (Hl _ _ _ Hc); [|done].
      setoid_rewrite elem_of_cons. split.
      * intros [->|(sz & ? & ?)]; [exists size; auto|exists sz; auto].
      * intros (sz & ? & [[= -> ->]|?]); [by left|right; by exists sz].
    + rewrite (Hoth k d b) by done. rewrite (Hl _ _ _ Hk). destruct r as [a|]; [|done].
      setoid_rewrite elem_of_cons. split; intros (sz & Hs & Hin); exists sz; [by auto|].
      split; [done|]. destruct Hin as [[= -> ->]|]; [by destruct Hne|done].
Qed.

Lemma elem_of_delete_fst (live : list (Z * Z)) k a sz b sz' : NoDup (fst <$> live) -> live !! k = Some (a, sz) ->
  (b, sz') ∈ delete k live <-> (b, sz') ∈ live /\ b <> a.
Proof.
  intros Hn Hk. pose proof (delete_Permutation live k _ Hk) as Hp. rewrite Hp in Hn. simpl in Hn.
  apply NoDup_cons in Hn as [Hni _]. rewrite Hp at 2. rewrite elem_of_cons. split.
  - intros Hin. split; [by right|]. intros ->. apply Hni. by apply (list_elem_of_fmap_2 fst _ (a, sz')).
  - intros [[[= -> ->]|?] ?]; done.
Qed.

Lemma slab_free_inv k a size st live : slab_inv (st, live) -> live !! k = Some (a, size) ->
  exists st', slab_free a size st = Ok st' /\ slab_inv (st', delete k live).
Proof.
  intros [Hcs [Hn Hl]] Hk. simpl in *. destruct (caches_class _ _ _ size Hcs) as (c & Hc & _).
  destruct (caches_lookup _ _ _ _ _ Hcs Hc) as (Hci & _ & Hnc).
  destruct (cache_free_spec _ c a Hci Hnc) as (c' & m' & E & Hsz & Hc' & Hfr & Hm & Hr).
  { apply (Hl _ _ _ Hc). exists size. split; [done|]. by eapply list_elem_of_lookup_2. }
  unfold slab_free. rewrite Hc, E. eexists. split; [done|].
  destruct (caches_update _ m' _ (sl_mgr st) _ _ _ c' Hcs Hc Hsz Hc') as [Hcs' Hoth]; [|done|].
  { rewrite Hfr. eapply mgr_inv_perm; [|apply Hcs]. by apply all_frames_delete. }
  split; [done|]. unfold get_caches at 1. simpl. split.
  { pose proof (delete_Permutation live k _ Hk) as Hp. rewrite Hp in Hn. by apply NoDup_cons in Hn as [_ ?]. }
  intros j d b [(<- & <- & _)|[Hne Hj]]%list_lookup_insert_Some.
  - rewrite Hr, (Hl _ _ _ Hc). setoid_rewrite (elem_of_delete_fst live k a size); [|done|done].
    split; [intros [(sz & ? & ?) ?]|intros (sz & ? & ? & ?)]; [|split; [|done]]; by exists sz.
  - rewrite (Hoth j d b) by done. rewrite (Hl _ _ _ Hj).
    setoid_rewrite (elem_of_delete_fst live k a size); [|done|done].
    split; intros (sz & Hs & Hin); exists sz; [|by destruct Hin]. split_and!; try done. intros ->.
    apply Hne. rewrite <- Hs. f_equal.
    apply list_elem_of_lookup in Hin as [i Hi].
    assert (i = k) as -> by (eapply NoDup_lookup; [exact Hn|by rewrite list_lookup_fmap, Hi|by rewrite list_lookup_fmap, Hk]).
    congruence.
Qed.

(** A word written inside an object in use touches no free slot. *)
Lemma write_not_free m o cs k c j d q a off fl i : caches_inv m o cs -> cs !! k = Some c -> cache_live m c a ->
  0 <= off < sc_obj_size c -> cs !! j = Some d -> q ∈ sc_pages d -> page_inv m (sc_obj_size d) q fl -> i ∈ fl ->
  sp_virt q + i * sc_obj_size d <> a + off.
Proof.
  intros Hcs Hk (p & Hp & Ha) Hoff Hj Hq Hfl Hi E.
  destruct (caches_lookup _ _ _ _ _ Hcs Hk) as ([Hs Hc] & _ & Hn). destruct (caches_lookup _ _ _ _ _ Hcs Hj) as ([Hs' Hd] & _).
  rewrite Forall_forall in Hc, Hd.
  pose proof (slot_in_page _ q i Hs' (proj1 (Forall_forall _ _) (pi_slots _ _ _ _ _ Hfl) i Hi)) as Hqa.
  assert (in_page p (a + off)) as Hpa.
  { pose proof (page_live_in_page _ _ _ _ _ Hs Ha). unfold in_page. lia. }
  assert (sp_phys p = sp_phys q) as Ef by (eapply pages_apart; [by apply Hc|by apply Hd|done|congruence]).
  destruct (decide (k = j)) as [->|Hne]; [|by eapply (caches_apart _ _ _ k j)].
  assert (d = c) as -> by congruence. rewrite (page_of_frame _ _ _ Hn Hp Hq Ef) in *.
  apply (page_live_iff _ _ _ fl) in Ha as (i' & _ & Hni & ->); [|done..].
  assert (i = i') as -> by nia. done.
Qed.

Lemma slab_write_inv k a size off val st live : slab_inv (st, live) -> live !! k = Some (a, size) ->
  0 <= off -> off + 8 <= class_size size ->
  slab_inv (mkSlabs (<[a + off := val]> (sl_mem st)) (sl_mgr st) (sl_caches st), live).
Proof.
  intros [Hcs [Hn Hl]] Hk H0 Hoff. simpl in *. set (m' := <[a + off := val]> (sl_mem st)).
  destruct (caches_class _ _ _ size Hcs) as (c & Hc & Hsz).
  assert (cache_live (sl_mem st) c a) as Ha.
  { apply (Hl _ _ _ Hc). exists size. split; [done|]. by eapply list_elem_of_lookup_2. }
  assert (Hpage : forall j d q fl, get_caches st !! j = Some d -> q ∈ sc_pages d ->
    page_inv (sl_mem st) (sc_obj_size d) q fl -> page_inv m' (sc_obj_size d) q fl).
  { intros j d q fl Hj Hq Hfl. eapply page_inv_ext; [|exact Hfl]. intros i Hi. unfold m'.
    rewrite load_insert, decide_False; [done|]. eapply (write_not_free _ _ _ _ c j d); try done. lia. }
  assert (Hlive : forall j d b, get_caches st !! j = Some d -> cache_live m' d b <-> cache_live (sl_mem st) d b).
  { intros j d b Hj. destruct (caches_lookup _ _ _ _ _ Hcs Hj) as ([Hs Hd] & _). rewrite Forall_forall in Hd.
    split; intros (q & Hq & Hb); exists q; (split; [done|]); destruct (Hd q Hq) as [fl Hfl];
      pose proof (Hpage _ _ _ _ Hj Hq Hfl) as Hfl';
      [rewrite (page_live_iff _ _ _ _ _ Hs Hfl') in Hb; by rewrite (page_live_iff _ _ _ _ _ Hs Hfl)
      |rewrite (page_live_iff _ _ _ _ _ Hs Hfl) in Hb; by rewrite (page_live_iff _ _ _ _ _ Hs Hfl')]. }
  change (get_caches st) with (get_caches (mkSlabs m' (sl_mgr st) (sl_caches st))) in *.
  split; simpl; [|split; [done|]].
  - destruct Hcs as [Hss Hcc Hff]. split; [done| |done]. apply Forall_lookup. intros j d Hj.
    eapply Forall_lookup in Hcc as [Hs Hd]; [|exact Hj]. split; [done|]. rewrite Forall_forall in Hd |- *.
    intros q Hq. destruct (Hd q Hq) as [fl Hfl]. exists fl. by eapply Hpage.
  - intros j d b Hj. rewrite <- (Hl j d b Hj). by apply (Hlive j).
Qed.

Lemma reap_caches_spec m cs : forall o F, Forall (cache_inv m) cs -> mgr_inv o (all_frames cs ++ F) ->
  exists cs' o', reap_caches cs o = Ok (cs', o') /\ mgr_inv o' (all_frames cs' ++ F)
  /\ Forall2 (fun c c' => sc_obj_size c' = sc_obj_size c /\ cache_inv m c'
       /\ (forall b, cache_live m c' b <-> cache_live m c b) /\ Forall kept (sc_pages c')) cs cs'.
Proof.
  induction cs as [|c cs IH]; intros o F Hc Ho; [exists [], o; split; [done|]; split; [done|constructor]|].
  apply Forall_cons in Hc as [Hc Hcs]. simpl.
  change (all_frames (c :: cs)) with (cache_frames c ++ all_frames cs) in Ho. rewrite <- app_assoc in Ho.
  destruct (cache_reap_spec m c o _ Hc Ho) as (c' & o1 & -> & Hsz & Hc' & Ho1 & Hl & Hk).
  destruct (IH o1 (cache_frames c' ++ F) Hcs) as (cs' & o2 & -> & Ho2 & Hall).
  { eapply mgr_inv_perm; [|exact Ho1]. by rewrite !app_assoc, (Permutation_app_comm (cache_frames c')). }
  exists (c' :: cs'), o2. split; [done|]. split; [|by constructor].
  change (all_frames (c' :: cs')) with (cache_frames c' ++ all_frames cs').
  eapply mgr_inv_perm; [|exact Ho2]. by rewrite !app_assoc, (Permutation_app_comm (cache_frames c')).
Qed.

Lemma slab_reap_inv st live : slab_inv (st, live) ->
  exists st', slab_reap st = Ok st' /\ slab_inv (st', live)
  /\ Forall (fun c => Forall kept (sc_pages c)) (get_caches st').
Proof.
  intros [Hcs [Hn Hl]]. simpl in *. unfold slab_reap. destruct (sl_caches st) as [cs|] eqn:Ec.
  2:{ exists st. split; [done|]. split; [by split|]. unfold get_caches. rewrite Ec. by repeat constructor. }
  assert (Eg : get_caches st = cs) by (unfold get_caches; by rewrite Ec). rewrite Eg in Hcs, Hl.
  destruct Hcs as [Hs Hc Hf]. destruct (reap_caches_spec (sl_mem st) cs (sl_mgr st) [] Hc) as (cs' & o' & -> & Ho' & Hall).
  { by rewrite app_nil_r. }
  rewrite app_nil_r in Ho'. assert (Hs' : sc_obj_size <$> cs' = CACHE_SIZES).
  { rewrite <- Hs. clear -Hall. induction Hall as [|c c' cs cs' (E & _) _ IH]; [done|]. by rewrite !fmap_cons, E, IH. }
  eexists. split; [done|]. change (get_caches _) with cs'. split; [split; simpl; change (get_caches _) with cs'|].
  - split; [done|apply Forall_lookup; intros j d Hj|done].
    destruct (Forall2_lookup_r _ _ _ _ _ Hall Hj) as (c & _ & _ & ? & _). done.
  - split; [done|]. intros j d b Hj. destruct (Forall2_lookup_r _ _ _ _ _ Hall Hj) as (c & Hj' & _ & _ & Hb & _).
    rewrite Hb. by apply Hl.
  - apply Forall_lookup. intros j d Hj. by destruct (Forall2_lookup_r _ _ _ _ _ Hall Hj) as (c & _ & _ & _ & _ & ?).
Qed.

(** ** Runs *)
Lemma slab_step_inv op w : slab_inv w -> exists w', slab_step offset op w = Ok w' /\ slab_inv w'.
Proof.
  destruct w as [st live]. intros Hw. destruct op as [size|k|k off val|]; simpl.
  - destruct (slab_alloc_inv size st live Hw) as (r & st' & -> & Hw'). by eexists.
  - destruct (live !! k) as [[a size]|] eqn:Ek; [|by eexists].
    destruct (slab_free_inv k a size st live Hw Ek) as (st' & -> & Hw'). by eexists.
  - destruct (live !! k) as [[a size]|] eqn:Ek; [|by eexists].
    destruct (Z.leb_spec 0 off), (off mod 8 =? 0), (Z.leb_spec (off + 8) (class_size size)); simpl; try by eexists.
    eexists. split; [done|]. by eapply slab_write_inv.
  - destruct (slab_reap_inv st live Hw) as (st' & -> & Hw' & _). by eexists.
Qed.

Lemma slab_run_inv ops : forall w, slab_inv w -> exists w', slab_run offset ops w = Ok w' /\ slab_inv w'.
Proof.
  induction ops as [|op ops IH]; intros w Hw; [by exists w|]. simpl.
  destruct (slab_step_inv op w Hw) as (w' & -> & Hw'). by apply IH.
Qed.

(** Before the first call: any memory, and a manager over a valid bitmap. *)
Definition slab_boot (m : Memory) (mgr : Manager P) : Slabs := mkSlabs m (Some mgr) None.

Lemma slab_boot_inv m mgr : table_ok (mg_pt mgr) -> bm_inv (mg_frames mgr) -> direct_ok (mg_frames mgr) ->
  slab_inv (slab_boot m mgr, []).
Proof.
  intros Ht Hb Hd. split; simpl.
  - split; [done| |].
    + apply Forall_fmap, Forall_forall. intros s Hs. split; [done|by constructor].
    + split; [by constructor|]. split; [done|]. split; [done|]. intros f Hf. by apply elem_of_nil in Hf.
  - split; [by constructor|]. intros k c a Hk. split.
    + intros (p & Hp & _). change (get_caches (slab_boot m mgr)) with new_caches in Hk.
      unfold new_caches in Hk. rewrite list_lookup_fmap in Hk.
      destruct (CACHE_SIZES !! k); [injection Hk as <-; by apply elem_of_nil in Hp|done].
    + intros (sz & _ & Hin). by apply elem_of_nil in Hin.
Qed.

(** A page with no object in use is empty. *)
Lemma kept_live m s p : s ∈ CACHE_SIZES -> page_ok m s p -> kept p -> exists a, page_live m s p a.
Proof.
  intros Hs [fl Hfl] Hk%Z.eqb_neq. pose proof (class_facts s Hs) as (Hs1 & Hs2 & _).
  destruct (decide (Forall (fun i => i ∈ fl) (seqZ 0 (4096 / s)))) as [Hall|Hnot].
  - exfalso. apply Hk. rewrite (pi_allocated _ _ _ _ _ Hfl).
    pose proof (slots_length s fl (pi_nodup _ _ _ _ _ Hfl) (pi_slots _ _ _ _ _ Hfl)).
    rewrite Forall_forall in Hall.
    assert (length (seqZ 0 (4096 / s)) <= length fl)%nat as Hle.
    { apply submseteq_length, NoDup_submseteq; [apply NoDup_seqZ|done]. }
    rewrite length_seqZ in Hle. lia.
  - apply not_Forall_Exists, Exists_exists in Hnot as (i & Hi%elem_of_seqZ & Hni); [|intros i; apply _].
    exists (sp_virt p + i * s), fl, i. split_and!; try done; lia.
Qed.

Lemma object_aligned s v a : s ∈ CACHE_SIZES -> v mod 4096 = 0 -> (a - v) mod s = 0 -> a mod s = 0.
Proof.
  intros (Hs & Hq & _)%class_facts [u Hu]%Z.mod_divide [w Hw]%Z.mod_divide; [|lia..].
  apply Z.mod_divide; [lia|]. exists (u * (4096 / s) + w). rewrite <- Hq in Hu.
  transitivity (v + (a - v)); [lia|]. rewrite Hu at 1. rewrite Hw. ring.
Qed.

(** C15. Whatever sequence of allocations, frees, writes and reaps clients make, the allocator
    does not panic, and the objects they hold are pairwise disjoint, aligned to their class,
    as large as asked for (up to 4096 bytes), and inside frames in use. *)
Theorem slab_objects_disjoint (ops : list slab_op) (m : Memory) (mgr : Manager P) :
  table_ok (mg_pt mgr) -> bm_inv (mg_frames mgr) -> direct_ok (mg_frames mgr) ->
  exists st live, slab_run offset ops (slab_boot m mgr, []) = Ok (st, live)
  /\ (forall i j a sz b sz', live !! i = Some (a, sz) -> live !! j = Some (b, sz') -> i <> j ->
        a + class_size sz <= b \/ b + class_size sz' <= a)
  /\ (forall a sz, (a, sz) ∈ live -> a mod class_size sz = 0 /\ (sz <= 4096 -> sz <= class_size sz)
        /\ exists mgr' f, sl_mgr st = Some mgr' /\ frame_used (mg_frames mgr') f
             /\ f + offset <= a /\ a + class_size sz <= f + offset + 4096).
Proof.
  intros Hk Hb Hd. destruct (slab_run_inv ops _ (slab_boot_inv m mgr Hk Hb Hd)) as ([st live] & E & Hcs & Hn & Hl).
  exists st, live. simpl in *. split; [done|].
  assert (Hobj : forall a sz, (a, sz) ∈ live -> exists c, get_caches st !! size_to_class sz = Some c
    /\ sc_obj_size c = class_size sz /\ cache_live (sl_mem st) c a).
  { intros a sz Hin. destruct (caches_class _ _ _ sz Hcs) as (c & Hc & Hsz). exists c. split_and!; try done.
    apply (Hl _ _ _ Hc). by exists sz. }
  split.
  - intros i j a sz b sz' Hi Hj Hne.
    destruct (Hobj a sz) as (c & Hc & <- & Ha); [by eapply list_elem_of_lookup_2|].
    destruct (Hobj b sz') as (d & Hd' & <- & Hb'); [by eapply list_elem_of_lookup_2|].
    destruct (objects_apart _ _ _ _ _ _ _ _ _ Hcs Hc Hd' Ha Hb') as [[-> _]|?]; [|done].
    exfalso. apply Hne. eapply NoDup_lookup; [exact Hn|by rewrite list_lookup_fmap, Hi|by rewrite list_lookup_fmap, Hj].
  - intros a sz Hin. destruct (Hobj a sz Hin) as (c & Hc & <- & p & Hp & Ha).
    destruct (caches_lookup _ _ _ _ _ Hcs Hc) as ([Hs Hok] & _). rewrite Forall_forall in Hok.
    destruct (Hok p Hp) as [fl [Hv Hva _ _ _ _]]. destruct (page_live_in_page _ _ _ _ _ Hs Ha) as (Hx & Hy & Hz).
    pose proof (class_facts _ Hs) as (Hs1 & Hs2 & _). split; [|split].
    + by eapply object_aligned.
    + destruct (caches_class _ _ _ sz Hcs) as (c' & Hc2 & E'). assert (c' = c) as -> by congruence.
      rewrite E'. apply class_size_ge.
    + pose proof (elem_of_all_frames _ _ _ _ Hc Hp) as Hf. destruct (ci_frames _ _ _ Hcs) as [_ Ho].
      destruct (sl_mgr st) as [mgr'|]; [|by rewrite Ho in Hf; apply elem_of_nil in Hf].
      exists mgr', (sp_phys p). split; [done|]. split; [by apply Ho|]. lia.
Qed.

(** When clients have freed all their objects, a reap leaves no page in any cache. *)
Theorem slab_reap_releases (ops : list slab_op) (m : Memory) (mgr : Manager P) (st : Slabs) :
  table_ok (mg_pt mgr) -> bm_inv (mg_frames mgr) -> direct_ok (mg_frames mgr) ->
  slab_run offset ops (slab_boot m mgr, []) = Ok (st, []) ->
  exists st', slab_reap st = Ok st' /\ Forall (fun c => sc_pages c = []) (get_caches st').
Proof.
  intros Hk Hb Hd E. destruct (slab_run_inv ops _ (slab_boot_inv m mgr Hk Hb Hd)) as (w & E' & Hw).
  assert (w = (st, [])) as -> by congruence.
  destruct (slab_reap_inv st [] Hw) as (st' & -> & [Hcs [_ Hl]] & Hkept). exists st'. split; [done|].
  apply Forall_lookup. intros k c Hc. destruct (caches_lookup _ _ _ _ _ Hcs Hc) as ([Hs Hok] & _).
  eapply Forall_lookup in Hkept; [|exact Hc]. destruct (sc_pages c) as [|p pages] eqn:Ep; [done|].
  apply Forall_cons in Hkept as [Hkept _]. apply Forall_cons in Hok as [Hok _].
  destruct (kept_live _ _ p Hs Hok Hkept) as [a Ha].
  destruct (proj1 (Hl k c a Hc)) as (sz & _ & Hin); [|by apply elem_of_nil in Hin].
  exists p. split; [rewrite Ep; by left|done].
Qed.
End SlabProofs.

(** ** A concrete table *)
Instance FlatTable_kernel_map : KernelMap FlatTable := {|
  map_page_4k_l1 p v f b := (true, <[v := (f, Z.lor PRESENT WRITABLE)]> p, b)
|}.

#[refine] Instance FlatTable_kernel_lawful : LawfulKernelMap FlatTable := {| mapped p v := fst <$> p !! v; table_ok _ := True |}.
Proof.
  - intros p v f b _ Hb _ _. cbn. split_and!; try done; [intros _; by rewrite lookup_insert_eq|].
    intros w _ Hw. by rewrite lookup_insert_ne.
  - intros p v _ _. cbn. destruct (p !! v) as [[f fl]|]; [|done]. destruct (has_flag fl PRESENT); [|done].
    split; [done|]. split; [by intros ? [= <-]|]. intros w _ Hw. by rewrite lookup_delete_ne.
Defined.

(** The upper half of the address space. *)
Definition DIRECT : Z := 0xFFFF800000000000.

Lemma canonical_upper x : 2 ^ 64 - 2 ^ 47 <= x < 2 ^ 64 -> canonical_new x = Some x.
Proof.
  intros Hx. unfold canonical_new, as_i64. rewrite (proj2 (Z.ltb_ge _ _)) by lia.
  rewrite Z.shiftr_div_pow2 by lia. replace ((x - 2 ^ 64) / 2 ^ 47) with (-1); [done|].
  apply (Z.div_unique _ _ _ (x - 2 ^ 64 + 2 ^ 47)); lia.
Qed.

Lemma demo_table : table_ok (mg_pt demo_mgr).
Proof. exact I. Qed.

Lemma demo_direct : direct_ok DIRECT (mg_frames demo_mgr).
Proof.
  assert (total_frames (mg_frames demo_mgr) * 4096 <= 2 ^ 40) by (vm_compute; discriminate).
  unfold direct_ok, DIRECT. split; [done|]. split; [done|]. split; [lia|]. intros a Ha. apply canonical_upper. lia.
Qed.

(** Three objects, one written over and freed, one more: the freed slot is used again. *)
Definition demo_ops : list slab_op :=
  [OpAlloc 100; OpAlloc 128; OpAlloc 3000; OpWrite 1 0 u64_max; OpFree 1; OpReap; OpAlloc 65].

Lemma slab_objects_disjoint_witness :
  (snd <$> match slab_run DIRECT demo_ops (slab_boot ∅ demo_mgr, []) with Ok w => snd w | _ => [] end) = [65; 3000; 100]
  /\ exists st live, slab_run DIRECT demo_ops (slab_boot ∅ demo_mgr, []) = Ok (st, live)
  /\ (forall i j a sz b sz', live !! i = Some (a, sz) -> live !! j = Some (b, sz') -> i <> j ->
        a + class_size sz <= b \/ b + class_size sz' <= a)
  /\ (forall a sz, (a, sz) ∈ live -> a mod class_size sz = 0 /\ (sz <= 4096 -> sz <= class_size sz)
        /\ exists mgr' f, sl_mgr st = Some mgr' /\ frame_used (mg_frames mgr') f
             /\ f + DIRECT <= a /\ a + class_size sz <= f + DIRECT + 4096).
Proof.
  split; [vm_compute; reflexivity|].
  exact (slab_objects_disjoint DIRECT demo_ops ∅ demo_mgr demo_table demo_bitmap_inv demo_direct).
Defined.

Definition demo_freed : Slabs :=
  match slab_run DIRECT [OpAlloc 64; OpAlloc 2048; OpFree 0; OpFree 0] (slab_boot ∅ demo_mgr, []) with
  | Ok w => fst w
  | _ => slab_boot ∅ demo_mgr
  end.

Lemma slab_reap_releases_witness :
  exists st', slab_reap demo_freed = Ok st' /\ Forall (fun c => sc_pages c = []) (get_caches st').
Proof.
  apply (slab_reap_releases DIRECT [OpAlloc 64; OpAlloc 2048; OpFree 0; OpFree 0] ∅ demo_mgr demo_freed
    demo_table demo_bitmap_inv demo_direct).
  vm_compute. reflexivity.
Defined.

(** ** What the allocator does not do *)

Definition fresh_mgr : Manager FlatTable := mkManager (∅ : FlatTable) demo_frames true.

(** A request of more than 4096 bytes is served from the 4096-byte class: two objects of
    8192 bytes overlap. *)
Theorem slab_oversize_overlap :
  exists st a b, slab_run DIRECT [OpAlloc 8192; OpAlloc 8192] (slab_boot ∅ fresh_mgr, [])
    = Ok (st, [(b, 8192); (a, 8192)])
  /\ a < b < a + 8192.
Proof. eexists _, _, _. split; [vm_compute; reflexivity|]. split; reflexivity. Qed.

(** After a reap, the frame that the manager hands out next, and what the address that
    [physical_to_virtual] gives for it is mapped to, before the reap and after. *)
Definition next_frame (st : Slabs) : option (Z * option Z * option Z) :=
  match slab_reap st with
  | Ok st' =>
    match sl_mgr st, sl_mgr st' with
    | Some before, Some mgr =>
      match mm_allocate_frame mgr with
      | Ok (Some f, mgr') => (fun v => (f, mapped (mg_pt before) v, mapped (mg_pt mgr') v)) <$> physical_to_virtual DIRECT f
      | _ => None
      end
    | _, _ => None
    end
  | _ => None
  end.

(** A reap unmaps the pages it releases from the direct mapping: the frame that is handed
    out next is no longer mapped at its direct address. *)
Theorem slab_reap_unmaps_frame : next_frame demo_freed = Some (65 * 4096, Some (65 * 4096), None).
Proof. vm_compute. reflexivity. Qed.
