(* ===== verification/Rings.v ===== *)
(** * Log rings

    [fullerene-kernel/src/klog.rs]: the kernel log, a byte ring that overwrites its
    oldest bytes, with the lossy UTF-8 printing of [dmesg]; and
    [resonance/src/tracing.rs]: the ring of trace events.  Both are shown to hold the
    most recent part of an unbounded log. *)

From S2P Require Import Prelude.

(** ** The last elements of a list *)
Definition lastn {A} (n : Z) (l : list A) : list A := drop (length l - Z.to_nat n) l.

Lemma lastn_all {A} n (l : list A) : zlen l <= n -> lastn n l = l.
Proof. unfold lastn, zlen. intros. by replace (_ - _)%nat with 0%nat by lia. Qed.

Lemma zlen_lastn {A} n (l : list A) : 0 <= n -> zlen (lastn n l) = Z.min n (zlen l).
Proof. unfold lastn, zlen. intros. rewrite length_drop. lia. Qed.

(** Only the kept part matters for what is kept later. *)
Lemma lastn_app {A} n (l k : list A) : 0 <= n -> lastn n (lastn n l ++ k) = lastn n (l ++ k).
Proof.
  unfold lastn. intros Hn. rewrite !length_app, length_drop.
  destruct (decide (Z.to_nat n <= length k)%nat).
  - rewrite !drop_app_ge by (rewrite ?length_drop; lia). rewrite length_drop. f_equal. lia.
  - rewrite !drop_app_le by (rewrite ?length_drop; lia). rewrite drop_drop. f_equal. f_equal. lia.
Qed.

(** Pushing onto a full buffer drops its oldest element. *)
Lemma lastn_snoc_full {A} n (x : A) l y : zlen (x :: l) = n -> lastn n ((x :: l) ++ [y]) = l ++ [y].
Proof.
  unfold lastn, zlen. intros Hl. rewrite length_app. cbn [length] in *.
  replace (S (length l) + 1 - Z.to_nat n)%nat with 1%nat by lia. done.
Qed.

Lemma circular_inj c h i j : 0 < c -> 0 <= i < c -> 0 <= j < c ->
  (h + i) mod c = (h + j) mod c -> i = j.
Proof.
  intros Hc Hi Hj E. assert (((h + i) - (h + j)) mod c = 0) as Hd.
  { rewrite Zminus_mod, E, Z.sub_diag. apply Z.mod_0_l. lia. }
  apply Z.mod_divide in Hd; [|lia]. destruct Hd as [q Hq].
  destruct (Z.lt_trichotomy q 0) as [|[-> |]]; nia.
Qed.

(** The [n] elements from position [h] on, read around the end of a ring of [c]. *)
Definition circular {A} (d : A) (buf : list A) (c h n : Z) : list A :=
  (fun k => znth d buf ((h + Z.of_nat k) mod c)) <$> seq 0 (Z.to_nat n).

Lemma zlen_circular {A} (d : A) buf c h n : 0 <= n -> zlen (circular d buf c h n) = n.
Proof. intros. unfold zlen, circular. rewrite length_fmap, length_seq. lia. Qed.

Lemma znth_circular {A} (d : A) buf c h n i : 0 <= i < n ->
  znth d (circular d buf c h n) i = znth d buf ((h + i) mod c).
Proof.
  intros Hi. unfold znth at 1, circular. rewrite nth_lookup, list_lookup_fmap, lookup_seq_lt by lia.
  cbn. do 2 f_equal. lia.
Qed.

Lemma znth_insert {A} (d : A) l i j x : 0 <= i < zlen l -> 0 <= j ->
  znth d (<[Z.to_nat i := x]> l) j = if i =? j then x else znth d l j.
Proof.
  unfold znth, zlen. intros Hi Hj. rewrite !nth_lookup. destruct (Z.eqb_spec i j) as [->|Hne].
  - by rewrite list_lookup_insert_eq by lia.
  - by rewrite list_lookup_insert_ne by lia.
Qed.

Section Circular.
Context {A : Type} (d : A) (buf : list A) (c : Z).
Hypotheses (Hc : 0 < c) (Hlen : zlen buf = c).

(** Writing the first free position appends. *)
Lemma circular_push h n x : 0 <= n < c ->
  circular d (<[Z.to_nat ((h + n) mod c) := x]> buf) c h (n + 1) = circular d buf c h n ++ [x].
Proof.
  intros Hn. apply (znth_ext d).
  { rewrite zlen_app, !zlen_circular by lia. done. }
  intros i Hi. rewrite zlen_circular in Hi by lia.
  rewrite znth_app, znth_circular, zlen_circular by lia.
  pose proof (Z.mod_pos_bound (h + n) c Hc). pose proof (Z.mod_pos_bound (h + i) c Hc).
  rewrite znth_insert by lia.
  destruct (Z.ltb_spec i n).
  - rewrite (proj2 (Z.eqb_neq _ _)), znth_circular by (try intros ?%circular_inj; lia). done.
  - assert (i = n) as -> by lia. rewrite Z.eqb_refl, Z.sub_diag. done.
Qed.

(** Overwriting the oldest element of a full ring drops it and appends. *)
Lemma circular_overwrite h x : 0 <= h < c ->
  circular d (<[Z.to_nat h := x]> buf) c ((h + 1) mod c) c = lastn c (circular d buf c h c ++ [x]).
Proof.
  intros Hh.
  assert (exists y l, circular d buf c h c = y :: l) as (y & l & El).
  { destruct (circular d buf c h c) eqn:E; [|eauto].
    pose proof (zlen_circular d buf c h c ltac:(lia)) as Hz. rewrite E in Hz. unfold zlen in Hz. cbn in Hz. lia. }
  pose proof (zlen_circular d buf c h c ltac:(lia)) as Hz. rewrite El in Hz.
  rewrite El, lastn_snoc_full by done. rewrite zlen_cons in Hz.
  apply (znth_ext d).
  { rewrite zlen_app, zlen_circular by lia. unfold zlen in *. cbn. lia. }
  intros i Hi. rewrite zlen_circular in Hi by lia. rewrite znth_app, znth_circular by lia.
  rewrite Zplus_mod_idemp_l. pose proof (Z.mod_pos_bound (h + 1 + i) c Hc). rewrite znth_insert by lia.
  destruct (Z.ltb_spec i (zlen l)).
  - assert (znth d l i = znth d (y :: l) (i + 1)) as ->.
    { unfold znth. by replace (Z.to_nat (i + 1)) with (S (Z.to_nat i)) by lia. }
    rewrite <- El, znth_circular by lia. replace (h + (i + 1)) with (h + 1 + i) by lia.
    rewrite (proj2 (Z.eqb_neq _ _)); [done|]. intros E.
    assert (0 = i + 1); [|lia]. apply (circular_inj c h); [lia..|].
    rewrite Z.add_0_r, (Z.mod_small h) by lia. rewrite E at 1. f_equal. lia.
  - assert (i = c - 1) as -> by lia. replace (h + 1 + (c - 1)) with (h + 1 * c) by lia.
    rewrite Z.mod_add, Z.mod_small, Z.eqb_refl by lia. by replace (c - 1 - zlen l) with 0 by lia.
Qed.

(** Reading out with two slices. *)
Lemma circular_slices h n : 0 <= h < c -> 0 <= n <= c ->
  circular d buf c h n =
  if h + n <=? c then zslice buf h n else zslice buf h (c - h) ++ zslice buf 0 ((h + n) mod c).
Proof.
  intros Hh Hn. destruct (Z.leb_spec (h + n) c).
  - apply (znth_ext d); [rewrite zlen_circular, zlen_zslice by lia; done|].
    intros i Hi. rewrite zlen_circular in Hi by lia.
    by rewrite znth_circular, znth_zslice, Z.mod_small by lia.
  - assert ((h + n) mod c = h + n - c) as ->.
    { symmetry. apply Z.mod_unique_pos with 1; lia. }
    apply (znth_ext d); [rewrite zlen_app, zlen_circular, !zlen_zslice by lia; lia|].
    intros i Hi. rewrite zlen_circular in Hi by lia.
    rewrite znth_circular, znth_app, zlen_zslice by lia. destruct (Z.ltb_spec i (c - h)).
    + by rewrite znth_zslice, Z.mod_small by lia.
    + rewrite znth_zslice by lia. f_equal. symmetry. apply Z.mod_unique_pos with 1; lia.
Qed.
End Circular.

(** ** UTF-8 validation, as [core::str::from_utf8] reports it *)
Inductive utf8_item :=
| UChar (n : nat)        (* a character of [n] bytes *)
| UInvalid (n : nat)     (* [n] bytes that begin no character; [error_len() == Some(n)] *)
| UIncomplete.           (* the input ends within a character; [error_len() == None] *)

Definition in_range (lo hi b : Z) : bool := (lo <=? b) && (b <=? hi).
Definition is_cont (b : Z) : bool := in_range 0x80 0xBF b.

Definition second3 (b0 b1 : Z) : bool :=
  if b0 =? 0xE0 then in_range 0xA0 0xBF b1
  else if b0 =? 0xED then in_range 0x80 0x9F b1 else is_cont b1.
Definition second4 (b0 b1 : Z) : bool :=
  if b0 =? 0xF0 then in_range 0x90 0xBF b1
  else if b0 =? 0xF4 then in_range 0x80 0x8F b1 else is_cont b1.

Definition first_item (b0 : Z) (l : list Z) : utf8_item :=
  if in_range 0 0x7F b0 then UChar 1
  else if in_range 0xC2 0xDF b0 then
    match l with [] => UIncomplete | b1 :: _ => if is_cont b1 then UChar 2 else UInvalid 1 end
  else if in_range 0xE0 0xEF b0 then
    match l with
    | [] => UIncomplete
    | b1 :: l => if negb (second3 b0 b1) then UInvalid 1 else
      match l with [] => UIncomplete | b2 :: _ => if is_cont b2 then UChar 3 else UInvalid 2 end
    end
  else if in_range 0xF0 0xF4 b0 then
    match l with
    | [] => UIncomplete
    | b1 :: l => if negb (second4 b0 b1) then UInvalid 1 else
      match l with
      | [] => UIncomplete
      | b2 :: l => if negb (is_cont b2) then UInvalid 2 else
        match l with [] => UIncomplete | b3 :: _ => if is_cont b3 then UChar 4 else UInvalid 3 end
      end
    end
  else UInvalid 1.

(** [None] when valid; otherwise [valid_up_to()] and [error_len()].  Every step
    consumes a byte, so the length of the input is enough fuel. *)
Fixpoint validate (fuel : nat) (l : list Z) : option (nat * option nat) :=
  match fuel, l with
  | S fuel, b :: l' =>
    match first_item b l' with
    | UChar n => (fun x => (n + x.1, x.2)%nat) <$> validate fuel (drop n l)
    | UInvalid n => Some (0, Some n)%nat
    | UIncomplete => Some (0%nat, None)
    end
  | _, _ => None
  end.
Definition from_utf8 (l : list Z) : option (nat * option nat) := validate (length l) l.

(** ** The kernel log *)
Definition KLOG_CAPACITY : Z := 65536.

Record KLogRing := mkRing { kl_buf : list Z; kl_head : Z; kl_len : Z }.
Definition klog_empty : KLogRing := mkRing (replicate (Z.to_nat KLOG_CAPACITY) 0) 0 0.

(** One byte, as [write_bytes] and [KLogWriter::write_str] store it. *)
Definition push_byte (ring : KLogRing) (b : Z) : KLogRing :=
  if kl_len ring <? KLOG_CAPACITY then
    let idx := (kl_head ring + kl_len ring) mod KLOG_CAPACITY in
    mkRing (<[Z.to_nat idx := b]> (kl_buf ring)) (kl_head ring) (kl_len ring + 1)
  else
    mkRing (<[Z.to_nat (kl_head ring) := b]> (kl_buf ring)) ((kl_head ring + 1) mod KLOG_CAPACITY) (kl_len ring).

Definition push_bytes (ring : KLogRing) (bytes : list Z) : KLogRing := foldl push_byte ring bytes.

(** The ring with its re-entrancy guard [IN_KLOG]. *)
Record KLog := mkKLog { kl_ring : KLogRing; in_klog : bool }.
Definition klog_init : KLog := mkKLog klog_empty false.

Definition binary_text : list Z := [40; 98; 105; 110; 97; 114; 121; 41].

(** The text a call passes to [serial_log], and the log after it. *)
Definition write_bytes (k : KLog) (bytes : list Z) : list Z * KLog :=
  if in_klog k then (match from_utf8 bytes with None => bytes | Some _ => binary_text end, k)
  else ([], mkKLog (push_bytes (kl_ring k) bytes) false).

(** What formatting the arguments does in turn: write text, or log a message itself. *)
Inductive piece := Text (s : list Z) | Nested (s : list Z).

Definition write_piece (x : list Z * KLog) (p : piece) : list Z * KLog :=
  let '(out, k) := x in
  match p with
  | Text s => (out, mkKLog (push_bytes (kl_ring k) s) (in_klog k))
  | Nested s => let '(out', k') := write_bytes k s in (out ++ out', k')
  end.

Definition piece_text (p : piece) : list Z := match p with Text s => s | Nested s => s end.

(** A re-entrant call passes its arguments on to [serial_log]. *)
Definition write_fmt (k : KLog) (args : list piece) : list Z * KLog :=
  if in_klog k then (mjoin (piece_text <$> args), k)
  else let '(out, k') := foldl write_piece ([], mkKLog (kl_ring k) true) args in
       (out, mkKLog (kl_ring k') false).

Definition snapshot (ring : KLogRing) : list Z :=
  if 0 <? kl_len ring then
    let end_ := kl_head ring + kl_len ring in
    if end_ <=? KLOG_CAPACITY then zslice (kl_buf ring) (kl_head ring) (end_ - kl_head ring)
    else zslice (kl_buf ring) (kl_head ring) (KLOG_CAPACITY - kl_head ring)
         ++ zslice (kl_buf ring) 0 (end_ mod KLOG_CAPACITY)
  else [].

(** U+FFFD. *)
Definition replacement : list Z := [0xEF; 0xBF; 0xBD].

(** The segments passed to [emit]. *)
Fixpoint emit_loop (fuel : nat) (chunk : list Z) : list (list Z) :=
  match fuel, chunk with
  | S fuel, _ :: _ =>
    match from_utf8 chunk with
    | None => [chunk]
    | Some (valid_len, error_len) =>
      (if (0 <? valid_len)%nat then [take valid_len chunk] else []) ++ replacement ::
      match error_len with
      | Some len => emit_loop fuel (drop (valid_len + len) chunk)
      | None => []
      end
    end
  | _, _ => []
  end.
Definition emit_utf8_lossy (bytes : list Z) : list (list Z) := emit_loop (length bytes) bytes.

Definition write_to (ring : KLogRing) : list (list Z) :=
  if kl_len ring =? 0 then [] else emit_utf8_lossy (snapshot ring).

(** ** The trace buffer *)
Definition TRACE_CAPACITY : Z := 1024.

Record TraceEvent := mkTrace { te_seq : Z; te_tick : Z; te_category : list Z; te_message : list Z }.

(** Copies the first bytes of a string into a zeroed array of [n] bytes. *)
Definition padded (n : nat) (s : list Z) : list Z := take n s ++ replicate (n - length s) 0.
Definition trace_new (seq tick : Z) (cat msg : list Z) : TraceEvent :=
  mkTrace seq tick (padded 8 cat) (padded 32 msg).
Definition EMPTY_EVENT : TraceEvent := mkTrace 0 0 (replicate 8 0) (replicate 32 0).

Record TraceBuffer := mkTraceBuffer {
  tb_events : list TraceEvent;
  next_index : Z;
  tb_len : Z;
  next_sequence : Z
}.
Definition trace_buffer_new : TraceBuffer :=
  mkTraceBuffer (replicate (Z.to_nat TRACE_CAPACITY) EMPTY_EVENT) 0 0 0.

Definition trace_record (b : TraceBuffer) (tick : Z) (category message : list Z) : TraceBuffer :=
  let sequence := next_sequence b in
  mkTraceBuffer (<[Z.to_nat (next_index b) := trace_new sequence tick category message]> (tb_events b))
    ((next_index b + 1) mod TRACE_CAPACITY)
    (Z.min (u64_saturating_add (tb_len b) 1) TRACE_CAPACITY)
    (u64_wrapping_add (next_sequence b) 1).

Definition trace_snapshot (b : TraceBuffer) : list TraceEvent :=
  if tb_len b <? TRACE_CAPACITY then zslice (tb_events b) 0 (tb_len b)
  else zslice (tb_events b) (next_index b) (zlen (tb_events b) - next_index b)
       ++ zslice (tb_events b) 0 (next_index b).

Definition trace_clear (b : TraceBuffer) : TraceBuffer :=
  mkTraceBuffer (tb_events b) 0 0 (next_sequence b).

(** ** The kernel log refines an unbounded log *)
#[global] Opaque KLOG_CAPACITY TRACE_CAPACITY.

Lemma klog_capacity_pos : 0 < KLOG_CAPACITY.
Proof. by vm_compute. Qed.

(** The ring holds the end of the unbounded log [log]. *)
Definition klog_rel (log : list Z) (r : KLogRing) : Prop :=
  zlen (kl_buf r) = KLOG_CAPACITY /\ 0 <= kl_head r < KLOG_CAPACITY /\ 0 <= kl_len r <= KLOG_CAPACITY
  /\ circular 0 (kl_buf r) KLOG_CAPACITY (kl_head r) (kl_len r) = lastn KLOG_CAPACITY log.

Lemma klog_rel_empty : klog_rel [] klog_empty.
Proof.
  pose proof klog_capacity_pos. unfold klog_rel, klog_empty. cbn [kl_buf kl_head kl_len].
  rewrite zlen_replicate. split; [lia|]. split; [lia|]. split; [lia|]. done.
Qed.

Lemma klog_rel_push log r b : klog_rel log r -> klog_rel (log ++ [b]) (push_byte r b).
Proof.
  pose proof klog_capacity_pos as Hc. intros (Hl & Hh & Hn & Hcirc). unfold push_byte, klog_rel.
  pose proof (Z.mod_pos_bound (kl_head r + 1) _ Hc).
  rewrite <- lastn_app, <- Hcirc by lia.
  destruct (Z.ltb_spec (kl_len r) KLOG_CAPACITY); cbn [kl_buf kl_head kl_len]; rewrite zlen_insert.
  - rewrite circular_push by lia. split; [done|]. split; [done|]. split; [lia|].
    symmetry. apply lastn_all. rewrite zlen_app, zlen_circular by lia. unfold zlen. cbn. lia.
  - assert (kl_len r = KLOG_CAPACITY) as -> by lia.
    rewrite circular_overwrite by lia. split_and!; try done; lia.
Qed.

Lemma klog_rel_pushes bs : forall log r, klog_rel log r -> klog_rel (log ++ bs) (push_bytes r bs).
Proof.
  induction bs as [|b bs IH]; intros log r Hr; [by rewrite app_nil_r|].
  cbn. rewrite cons_middle, app_assoc. by apply IH, klog_rel_push.
Qed.

Lemma snapshot_spec log r : klog_rel log r -> snapshot r = lastn KLOG_CAPACITY log.
Proof.
  pose proof klog_capacity_pos. intros (Hl & Hh & Hn & <-). unfold snapshot.
  destruct (Z.ltb_spec 0 (kl_len r)) as [Hp|Hp].
  - rewrite circular_slices by lia. replace (kl_head r + kl_len r - kl_head r) with (kl_len r) by lia. done.
  - by replace (kl_len r) with 0 by lia.
Qed.

(** The calls that log, and the text each adds. *)
Inductive klog_op := KBytes (bytes : list Z) | KFmt (args : list piece).

Definition op_text (o : klog_op) : list Z :=
  match o with
  | KBytes bs => bs
  | KFmt args => mjoin ((fun p => match p with Text s => s | Nested _ => [] end) <$> args)
  end.

Definition klog_step (k : KLog) (o : klog_op) : KLog :=
  match o with KBytes bs => (write_bytes k bs).2 | KFmt args => (write_fmt k args).2 end.

Lemma write_pieces_rel args : forall log out r,
  klog_rel log r ->
  exists out' r', foldl write_piece (out, mkKLog r true) args = (out', mkKLog r' true)
  /\ klog_rel (log ++ op_text (KFmt args)) r'.
Proof.
  induction args as [|[s|s] args IH]; intros log out r Hr; cbn [foldl].
  - exists out, r. cbn. by rewrite app_nil_r.
  - cbn. destruct (IH (log ++ s) out _ (klog_rel_pushes s _ _ Hr)) as (out' & r' & -> & Hr').
    exists out', r'. split; [done|]. rewrite <- app_assoc in Hr'. done.
  - cbn [write_piece write_bytes in_klog]. by apply IH.
Qed.

Lemma klog_steps_rel ops : forall log r, klog_rel log r ->
  exists r', foldl klog_step (mkKLog r false) ops = mkKLog r' false
  /\ klog_rel (log ++ mjoin (op_text <$> ops)) r'.
Proof.
  induction ops as [|o ops IH]; intros log r Hr; cbn [foldl].
  { exists r. cbn. by rewrite app_nil_r. }
  assert (exists r1, klog_step (mkKLog r false) o = mkKLog r1 false /\ klog_rel (log ++ op_text o) r1)
    as (r1 & -> & H1).
  { destruct o as [bs|args]; cbn [klog_step].
    - eexists. split; [done|]. by apply klog_rel_pushes.
    - unfold write_fmt. cbn [in_klog kl_ring].
      destruct (write_pieces_rel args log [] r Hr) as (out & r1 & -> & H1). by exists r1. }
  destruct (IH _ _ H1) as (r' & -> & H'). exists r'. split; [done|].
  cbn. by rewrite app_assoc.
Qed.


(** ** Lossy printing *)

(** The reference: item by item, with U+FFFD for each invalid one. *)
Fixpoint lossy (fuel : nat) (l : list Z) : list Z :=
  match fuel, l with
  | S fuel, b :: l' =>
    match first_item b l' with
    | UChar n => take n l ++ lossy fuel (drop n l)
    | UInvalid n => replacement ++ lossy fuel (drop n l)
    | UIncomplete => replacement
    end
  | _, _ => []
  end.
Definition from_utf8_lossy (l : list Z) : list Z := lossy (length l) l.

Ltac item_cases :=
  unfold first_item;
  repeat match goal with
  | |- context [if ?b then _ else _] => destruct b eqn:?
  | |- context [match ?l with [] => _ | _ :: _ => _ end] => destruct l
  end.

Lemma first_item_size b l :
  match first_item b l with
  | UChar n | UInvalid n => (1 <= n <= length (b :: l))%nat
  | UIncomplete => True
  end.
Proof. item_cases; try done; cbn [length]; lia. Qed.

(** A character does not depend on what follows it. *)
Lemma first_item_app b l k n : first_item b l = UChar n -> first_item b (l ++ k) = UChar n.
Proof.
  destruct l as [|b1 [|b2 [|b3 l]]]; cbn [app]; item_cases; congruence.
Qed.

Lemma drop_shorter (b : Z) l n fuel : (1 <= n)%nat -> (length (b :: l) <= S fuel)%nat ->
  (length (drop n (b :: l)) <= fuel)%nat.
Proof. intros. rewrite length_drop. cbn [length] in *. lia. Qed.

(** The fuel does not matter once it covers the input. *)
Lemma lossy_fuel f : forall g l, (length l <= f)%nat -> (length l <= g)%nat -> lossy f l = lossy g l.
Proof.
  induction f as [|f IH]; intros g l Hf Hg; [destruct l; [by destruct g|cbn in Hf; lia]|].
  destruct l as [|b l]; [by destruct g|]. destruct g as [|g]; [cbn in Hg; lia|]. cbn [lossy].
  pose proof (first_item_size b l) as Hs. destruct (first_item b l) as [n|n|]; [| |done].
  all: f_equal; apply IH; apply drop_shorter; lia || done.
Qed.

Lemma validate_lossy f : forall l, (length l <= f)%nat ->
  match validate f l with
  | None => lossy f l = l
  | Some (v, Some k) => (v + k <= length l)%nat /\ (1 <= k)%nat
      /\ lossy f l = take v l ++ replacement ++ from_utf8_lossy (drop (v + k) l)
  | Some (v, None) => (v <= length l)%nat /\ lossy f l = take v l ++ replacement
  end.
Proof.
  induction f as [|f IH]; intros l Hf; [destruct l; [done|cbn in Hf; lia]|].
  destruct l as [|b l]; [done|]. cbn [validate lossy].
  pose proof (first_item_size b l) as Hs. destruct (first_item b l) as [n|n|].
  - assert (Hd : (length (drop n (b :: l)) <= f)%nat) by (apply drop_shorter; [lia|done]).
    specialize (IH _ Hd). destruct (validate f (drop n (b :: l))) as [[v [k|]]|]; cbn [fmap option_fmap option_map].
    + destruct IH as (H1 & H2 & ->). rewrite length_drop in H1. split; [cbn [length fst snd] in *; lia|]. split; [done|]. cbn [fst snd].
      rewrite drop_drop, app_assoc, take_take_drop. by rewrite Nat.add_assoc.
    + destruct IH as (H1 & ->). rewrite length_drop in H1. cbn [fst snd]. split; [lia|].
      by rewrite app_assoc, take_take_drop.
    + rewrite IH. apply take_drop.
  - split; [lia|]. split; [lia|]. cbn [take app]. f_equal. cbn [Nat.add].
    apply lossy_fuel; [apply drop_shorter; [lia|done]|done].
  - split; [lia|done].
Qed.

Lemma emit_loop_lossy f : forall l, (length l <= f)%nat -> mjoin (emit_loop f l) = from_utf8_lossy l.
Proof.
  induction f as [|f IH]; intros l Hf; [destruct l; [done|cbn in Hf; lia]|].
  destruct l as [|b l]; [done|]. cbn [emit_loop].
  pose proof (validate_lossy (length (b :: l)) (b :: l) ltac:(lia)) as Hv.
  fold (from_utf8 (b :: l)) in Hv. fold (from_utf8_lossy (b :: l)) in Hv.
  destruct (from_utf8 (b :: l)) as [[v e]|]; [|cbn; by rewrite app_nil_r].
  assert (Hpre : mjoin (if (0 <? v)%nat then [take v (b :: l)] else []) = take v (b :: l)).
  { destruct v; cbn; [done|by rewrite app_nil_r]. }
  destruct e as [k|]; rewrite join_app, Hpre.
  - destruct Hv as (H1 & H2 & ->). f_equal. cbn [mjoin list_join]. f_equal. apply IH.
    rewrite length_drop. cbn [length] in *. lia.
  - by destruct Hv as (H1 & ->).
Qed.

(** [s[a..b]]: both ends must be character boundaries of the string. *)
Definition is_char_boundary (s : list Z) (i : nat) : bool :=
  (i =? 0)%nat || match s !! i with Some b => negb (is_cont b) | None => (i =? length s)%nat end.
Definition str_slice (s : list Z) (a b : nat) : option (list Z) :=
  if (a <=? b)%nat && is_char_boundary s a && is_char_boundary s b then Some (take (b - a) (drop a s)) else None.

Definition valid_utf8 (l : list Z) : Prop := from_utf8 l = None.

Lemma validate_fuel f : forall g l, (length l <= f)%nat -> (length l <= g)%nat -> validate f l = validate g l.
Proof.
  induction f as [|f IH]; intros g l Hf Hg; [destruct l; [by destruct g|cbn in Hf; lia]|].
  destruct l as [|b l]; [by destruct g|]. destruct g as [|g]; [cbn in Hg; lia|]. cbn [validate].
  pose proof (first_item_size b l) as Hs. destruct (first_item b l) as [n|n|]; [|done..].
  f_equal. apply IH; apply drop_shorter; lia || done.
Qed.

Lemma valid_utf8_item b l n k :
  first_item b l = UChar n -> n = length (b :: l) -> valid_utf8 k -> valid_utf8 ((b :: l) ++ k).
Proof.
  unfold valid_utf8, from_utf8. intros Hi Hn Hk. rewrite length_app.
  cbn [length Nat.add app validate]. rewrite (first_item_app _ _ _ _ Hi). rewrite app_comm_cons.
  rewrite drop_app_length' by done. rewrite (validate_fuel _ (length k)) by lia. by rewrite Hk.
Qed.

Lemma first_item_take b l n : first_item b l = UChar n ->
  exists b' l', take n (b :: l) = b' :: l' /\ first_item b' l' = UChar n /\ n = length (b' :: l').
Proof.
  pose proof (first_item_size b l) as Hs. intros Hi. rewrite Hi in Hs.
  destruct n as [|n]; [lia|]. exists b, (take n l). split; [done|]. cbn [length] in *.
  rewrite length_take. split; [|lia]. revert Hi. clear Hs.
  destruct l as [|b1 [|b2 [|b3 l]]], n as [|[|[|[|n]]]];
    rewrite ?firstn_nil, ?firstn_cons, ?firstn_O; item_cases; congruence.
Qed.

Lemma lossy_valid f : forall l, (length l <= f)%nat -> valid_utf8 (lossy f l).
Proof.
  induction f as [|f IH]; intros l Hf; [done|]. destruct l as [|b l]; [done|]. cbn [lossy].
  pose proof (first_item_size b l) as Hs. destruct (first_item b l) as [n|n|] eqn:Ei; [| |done].
  - destruct (first_item_take _ _ _ Ei) as (b' & l' & -> & Hi & Hn).
    eapply valid_utf8_item; [done|done|]. apply IH, drop_shorter; [lia|done].
  - apply (valid_utf8_item 0xEF [0xBF; 0xBD] 3); [done|done|]. apply IH, drop_shorter; [lia|done].
Qed.

Lemma from_utf8_lossy_valid l : valid_utf8 l -> from_utf8_lossy l = l.
Proof.
  intros Hv. pose proof (validate_lossy (length l) l ltac:(done)) as Hl.
  fold (from_utf8 l) in Hl. by rewrite Hv in Hl.
Qed.

(** [dmesg] printing: the segments passed to [emit] are, in order, the lossy
    decoding of the log (each invalid sequence replaced by U+FFFD), their concatenation
    is valid UTF-8, and valid text is printed unchanged. *)
Theorem emit_utf8_lossy_correct (bytes : list Z) :
  mjoin (emit_utf8_lossy bytes) = from_utf8_lossy bytes
  /\ valid_utf8 (mjoin (emit_utf8_lossy bytes))
  /\ (valid_utf8 bytes -> mjoin (emit_utf8_lossy bytes) = bytes).
Proof.
  unfold emit_utf8_lossy. rewrite emit_loop_lossy by done. split; [done|].
  split; [by apply lossy_valid|]. apply from_utf8_lossy_valid.
Qed.

Lemma emit_utf8_lossy_correct_witness :
  valid_utf8 [0xC3; 0xA9] /\ mjoin (emit_utf8_lossy [0xC3; 0xA9]) = [0xC3; 0xA9]
  /\ valid_utf8 (mjoin (emit_utf8_lossy [0xC3; 0x41])).
Proof.
  split; [reflexivity|]. split; [by apply (emit_utf8_lossy_correct [0xC3; 0xA9])|].
  apply (emit_utf8_lossy_correct [0xC3; 0x41]).
Defined.

(** ** The trace buffer refines an unbounded log of events *)
Lemma trace_capacity_bounds : 0 < TRACE_CAPACITY < u64_max.
Proof. by vm_compute. Qed.

Definition trace_head (b : TraceBuffer) : Z := if tb_len b <? TRACE_CAPACITY then 0 else next_index b.

Definition trace_rel (log : list TraceEvent) (b : TraceBuffer) : Prop :=
  zlen (tb_events b) = TRACE_CAPACITY /\ 0 <= next_index b < TRACE_CAPACITY
  /\ 0 <= tb_len b <= TRACE_CAPACITY /\ (tb_len b < TRACE_CAPACITY -> next_index b = tb_len b)
  /\ circular EMPTY_EVENT (tb_events b) TRACE_CAPACITY (trace_head b) (tb_len b) = lastn TRACE_CAPACITY log.

Lemma trace_rel_record log b tick cat msg : trace_rel log b ->
  trace_rel (log ++ [trace_new (next_sequence b) tick cat msg]) (trace_record b tick cat msg).
Proof.
  pose proof trace_capacity_bounds as Hc. intros (Hl & Hi & Hn & Hni & Hcirc).
  unfold trace_rel, trace_record. cbn [tb_events next_index tb_len next_sequence].
  set (e := trace_new _ _ _ _). rewrite zlen_insert. unfold u64_saturating_add.
  rewrite (Z.min_l (tb_len b + 1)) by lia.
  pose proof (Z.mod_pos_bound (next_index b + 1) TRACE_CAPACITY ltac:(lia)).
  rewrite <- lastn_app, <- Hcirc by lia. unfold trace_head in *. cbn [tb_len next_index].
  destruct (Z.ltb_spec (tb_len b) TRACE_CAPACITY) as [Hlt|Hge].
  - specialize (Hni Hlt). rewrite Z.min_l by lia. rewrite Hni in *.
    assert ((tb_len b + 1 < TRACE_CAPACITY /\ (tb_len b + 1) mod TRACE_CAPACITY = tb_len b + 1)
      \/ (tb_len b + 1 = TRACE_CAPACITY /\ (tb_len b + 1) mod TRACE_CAPACITY = 0)) as Hmod.
    { destruct (Z.lt_ge_cases (tb_len b + 1) TRACE_CAPACITY).
      - left. split; [done|]. apply Z.mod_small. lia.
      - right. assert (tb_len b + 1 = TRACE_CAPACITY) as -> by lia. split; [done|]. apply Z.mod_same. lia. }
    split; [done|]. split; [done|]. split; [lia|]. split; [lia|].
    assert ((if tb_len b + 1 <? TRACE_CAPACITY then 0 else (tb_len b + 1) mod TRACE_CAPACITY) = 0) as ->.
    { destruct (Z.ltb_spec (tb_len b + 1) TRACE_CAPACITY); lia. }
    pose proof (circular_push EMPTY_EVENT (tb_events b) TRACE_CAPACITY ltac:(lia) Hl 0 (tb_len b) e ltac:(lia)) as Hp.
    rewrite Z.add_0_l, (Z.mod_small (tb_len b)) in Hp by lia. rewrite Hp.
    symmetry. apply lastn_all. rewrite zlen_app, zlen_circular by lia. unfold zlen. cbn. lia.
  - rewrite Z.min_r by lia. rewrite Z.ltb_irrefl. assert (tb_len b = TRACE_CAPACITY) as -> by lia.
    split; [done|]. split; [done|]. split; [lia|]. split; [lia|]. apply circular_overwrite; lia.
Qed.

Lemma trace_snapshot_spec log b : trace_rel log b -> trace_snapshot b = lastn TRACE_CAPACITY log.
Proof.
  pose proof trace_capacity_bounds as Hc. intros (Hl & Hi & Hn & Hni & <-).
  unfold trace_snapshot, trace_head. destruct (Z.ltb_spec (tb_len b) TRACE_CAPACITY).
  - rewrite circular_slices by lia. rewrite Z.add_0_l, (proj2 (Z.leb_le _ _)) by lia. done.
  - assert (tb_len b = TRACE_CAPACITY) as -> by lia. rewrite Hl, circular_slices by lia.
    assert ((next_index b + TRACE_CAPACITY) mod TRACE_CAPACITY = next_index b) as ->.
    { replace (_ + _) with (next_index b + 1 * TRACE_CAPACITY) by lia.
      rewrite Z.mod_add, Z.mod_small by lia. done. }
    destruct (Z.leb_spec (next_index b + TRACE_CAPACITY) TRACE_CAPACITY); [|done].
    assert (next_index b = 0) as -> by lia. rewrite Z.sub_0_r. apply app_nil_r.
Qed.

Inductive trace_op := TRecord (tick : Z) (category message : list Z) | TClear.

Definition trace_step (b : TraceBuffer) (o : trace_op) : TraceBuffer :=
  match o with TRecord t c m => trace_record b t c m | TClear => trace_clear b end.

(** The specification: the events recorded since the last [clear], and the next
    sequence number. *)
Definition trace_spec (s : list TraceEvent * Z) (o : trace_op) : list TraceEvent * Z :=
  match o with
  | TRecord t c m => (s.1 ++ [trace_new s.2 t c m], u64_wrapping_add s.2 1)
  | TClear => ([], s.2)
  end.

Lemma trace_rel_fresh b : zlen (tb_events b) = TRACE_CAPACITY -> next_index b = 0 -> tb_len b = 0 -> trace_rel [] b.
Proof.
  pose proof trace_capacity_bounds. intros H1 H2 H3. unfold trace_rel. rewrite H2, H3.
  split; [done|]. split; [lia|]. split; [lia|]. split; done.
Qed.

Lemma trace_steps_rel ops : forall s b, trace_rel s.1 b -> next_sequence b = s.2 ->
  trace_rel (foldl trace_spec s ops).1 (foldl trace_step b ops)
  /\ next_sequence (foldl trace_step b ops) = (foldl trace_spec s ops).2.
Proof.
  induction ops as [|o ops IH]; intros s b Hr Hs; [done|]. cbn [foldl]. apply IH.
  - destruct o as [t c m|]; cbn [trace_spec trace_step fst].
    + rewrite <- Hs. by apply trace_rel_record.
    + apply trace_rel_fresh; [apply Hr|done..].
  - destruct o as [t c m|]; cbn; by rewrite Hs.
Qed.

(** The trace buffer refines an unbounded log: after any sequence of [record] and
    [clear], a snapshot is the last 1024 events recorded since the last [clear], in
    chronological order, numbered consecutively across clears. *)
Theorem trace_refines_log (ops : list trace_op) :
  trace_snapshot (foldl trace_step trace_buffer_new ops)
  = lastn TRACE_CAPACITY (foldl trace_spec ([], 0) ops).1.
Proof.
  apply trace_snapshot_spec, trace_steps_rel; [|done]. pose proof trace_capacity_bounds.
  apply trace_rel_fresh; [|done..]. cbn. rewrite zlen_replicate. lia.
Qed.
