(* ===== verification/Terminal.v ===== *)
(** * The terminal cell buffer

    [nozzle/src/terminal_buffer.rs]: a grid of styled cells with a cursor, the
    interpretation of control bytes and ANSI escape sequences, and the scrollback
    with its view. *)

From S2P Require Import Prelude Rings.

(** ** Colours and cells *)
Definition ANSI_COLORS : list Z :=
  [0x000000; 0xCC0000; 0x00CC00; 0xCCCC00; 0x0000CC; 0xCC00CC; 0x00CCCC; 0xCCCCCC].
Definition ANSI_BRIGHT_COLORS : list Z :=
  [0x555555; 0xFF5555; 0x55FF55; 0xFFFF55; 0x5555FF; 0xFF55FF; 0x55FFFF; 0xFFFFFF].
Definition ANSI_STANDARD_256 : list Z :=
  [0x000000; 0xCC0000; 0x00CC00; 0xCCCC00; 0x0000CC; 0xCC00CC; 0x00CCCC; 0xCCCCCC;
   0x555555; 0xFF5555; 0x55FF55; 0xFFFF55; 0x5555FF; 0xFF55FF; 0x55FFFF; 0xFFFFFF].

Record TextStyle := mkStyle { st_fg : Z; st_bg : Z }.
Definition TextStyle_default : TextStyle := mkStyle 0xCCCCCC 0x000000.

Record Cell := mkCell { ce_ch : Z; ce_fg : Z; ce_bg : Z }.
Definition Cell_default : Cell := mkCell 32 0xCCCCCC 0x000000.

#[export] Instance Cell_eq_dec : EqDecision Cell.
Proof. solve_decision. Defined.

Record TerminalBuffer := mkTerm {
  cells : list Cell;
  cols : Z;
  rows : Z;
  cursor_col : Z;
  cursor_row : Z;
  style : TextStyle;
  scrollback : list (list Cell);
  scroll_offset : Z
}.

Implicit Type t : TerminalBuffer.

Definition set_cells t (c : list Cell) : TerminalBuffer :=
  mkTerm c (cols t) (rows t) (cursor_col t) (cursor_row t) (style t) (scrollback t) (scroll_offset t).
Definition move_to t (col row : Z) : TerminalBuffer :=
  mkTerm (cells t) (cols t) (rows t) col row (style t) (scrollback t) (scroll_offset t).
Definition set_style t (s : TextStyle) : TerminalBuffer :=
  mkTerm (cells t) (cols t) (rows t) (cursor_col t) (cursor_row t) s (scrollback t) (scroll_offset t).
Definition set_scroll_offset t (n : Z) : TerminalBuffer :=
  mkTerm (cells t) (cols t) (rows t) (cursor_col t) (cursor_row t) (style t) (scrollback t) n.

Definition term_new (cols rows : Z) : TerminalBuffer :=
  let len := u64_saturating_mul cols rows in
  mkTerm (replicate (Z.to_nat len) Cell_default) cols rows 0 0 TextStyle_default [] 0.

(** [cell_mut(col, row)]: the index of the cell, where there is one. *)
Definition cell_index t (col row : Z) : option Z :=
  if (col <? cols t) && (row <? rows t) then
    let idx := row * cols t + col in
    if idx <? zlen (cells t) then Some idx else None
  else None.

Definition set_cursor t (col row : Z) : TerminalBuffer :=
  move_to t (Z.min col (Z.max (cols t - 1) 0)) (Z.min row (Z.max (rows t - 1) 0)).

Definition blank t : Cell := mkCell 32 (st_fg (style t)) (st_bg (style t)).

(** [if idx < cells.len() { cells[idx] = c }]. *)
Definition store t (idx : Z) (c : Cell) : TerminalBuffer :=
  if idx <? zlen (cells t) then set_cells t (<[Z.to_nat idx := c]> (cells t)) else t.

(** [scrollback.push_back(row)], limited to 10000 rows. *)
Definition push_scrollback (sb : list (list Cell)) (row : list Cell) : list (list Cell) :=
  let sb := sb ++ [row] in if 10000 <? zlen sb then drop 1 sb else sb.

Definition scroll t : TerminalBuffer :=
  let row_len := cols t in
  if zlen (cells t) <=? row_len then set_cells t (replicate (length (cells t)) (blank t))
  else
    let saved_row := zslice (cells t) 0 row_len in
    let shifted := zsplice (cells t) 0 (zslice (cells t) row_len (zlen (cells t) - row_len)) in
    let bottom_start := zlen (cells t) - row_len in
    let c := zsplice shifted bottom_start (replicate (Z.to_nat row_len) (blank t)) in
    mkTerm c (cols t) (rows t) (cursor_col t) (cursor_row t) (style t)
      (push_scrollback (scrollback t) saved_row) (scroll_offset t).

(** [u32] additions panic on overflow. *)
Definition newline t : result unit TerminalBuffer :=
  if u32_max <? cursor_row t + 1 then Panic else
  if cursor_row t + 1 <? rows t then Ok (move_to t 0 (cursor_row t + 1))
  else Ok (scroll (move_to t 0 (cursor_row t))).

Definition put_char t (ch : Z) : result unit TerminalBuffer :=
  let idx := cursor_row t * cols t + cursor_col t in
  let t := store t idx (mkCell ch (st_fg (style t)) (st_bg (style t))) in
  if u32_max <? cursor_col t + 1 then Panic else
  let t := move_to t (cursor_col t + 1) (cursor_row t) in
  if cols t <=? cursor_col t then newline t else Ok t.

Definition backspace t : TerminalBuffer :=
  if 0 <? cursor_col t then
    let t := move_to t (cursor_col t - 1) (cursor_row t) in
    store t (cursor_row t * cols t + cursor_col t) Cell_default
  else if 0 <? cursor_row t then move_to t (Z.max (cols t - 1) 0) (cursor_row t - 1)
  else t.

Definition term_clear t : TerminalBuffer :=
  move_to (set_cells t (replicate (length (cells t)) (blank t))) 0 0.

Definition put_byte t (b : Z) : result unit TerminalBuffer :=
  if b =? 10 then newline t
  else if b =? 8 then Ok (backspace t)
  else if b =? 13 then Ok (move_to t 0 (cursor_row t))
  else if 0x20 <=? b then put_char t b
  else Ok t.

(** ** Escape sequences *)

(** The 256-colour palette; the channel values stay within a [u8]. *)
Definition scale (c : Z) : Z := if c =? 0 then 0 else c * 40 + 55.
Definition ansi_256_color (idx : Z) : Z :=
  if idx <=? 15 then znth 0 ANSI_STANDARD_256 idx
  else if idx <=? 231 then
    let v := idx - 16 in
    Z.lor (Z.lor (Z.shiftl (scale ((v / 36) mod 6)) 16) (Z.shiftl (scale ((v / 6) mod 6)) 8)) (scale (v mod 6))
  else
    let l := (idx - 232) * 10 + 8 in Z.lor (Z.lor (Z.shiftl l 16) (Z.shiftl l 8)) l.

Definition rgb (r g b : Z) : Z :=
  Z.lor (Z.lor (Z.shiftl (Z.land r 0xFF) 16) (Z.shiftl (Z.land g 0xFF) 8)) (Z.land b 0xFF).

(** The extended colour after code 38 or 48, and the codes it leaves: [None] when the
    following codes are not one. *)
Definition extended (rest : list Z) : option (Z * list Z) :=
  match rest with
  | mode :: a :: rest2 =>
    if mode =? 5 then Some (ansi_256_color (a mod 256), rest2)
    else match rest2 with
         | b :: c :: rest4 => if mode =? 2 then Some (rgb a b c, rest4) else None
         | _ => None
         end
  | _ => None
  end.

Definition set_fg (s : TextStyle) (c : Z) : TextStyle := mkStyle c (st_bg s).
Definition set_bg (s : TextStyle) (c : Z) : TextStyle := mkStyle (st_fg s) c.

(** One iteration per unit of fuel; every iteration consumes a code. *)
Fixpoint sgr_loop (fuel : nat) (codes : list Z) (s : TextStyle) : TextStyle :=
  match fuel, codes with
  | S fuel, c :: rest =>
    if c =? 0 then sgr_loop fuel rest TextStyle_default
    else if (30 <=? c) && (c <=? 37) then sgr_loop fuel rest (set_fg s (znth 0 ANSI_COLORS (c - 30)))
    else if c =? 38 then
      match extended rest with
      | Some (col, rest') => sgr_loop fuel rest' (set_fg s col)
      | None => sgr_loop fuel rest s
      end
    else if (40 <=? c) && (c <=? 47) then sgr_loop fuel rest (set_bg s (znth 0 ANSI_COLORS (c - 40)))
    else if c =? 48 then
      match extended rest with
      | Some (col, rest') => sgr_loop fuel rest' (set_bg s col)
      | None => sgr_loop fuel rest s
      end
    else if (90 <=? c) && (c <=? 97) then sgr_loop fuel rest (set_fg s (znth 0 ANSI_BRIGHT_COLORS (c - 90)))
    else if (100 <=? c) && (c <=? 107) then sgr_loop fuel rest (set_bg s (znth 0 ANSI_BRIGHT_COLORS (c - 100)))
    else sgr_loop fuel rest s
  | _, _ => s
  end.
Definition handle_sgr t (codes : list Z) : TerminalBuffer :=
  set_style t (sgr_loop (length codes) codes (style t)).

(** [str::split(';')]. *)
Fixpoint split_on (sep : Z) (s : list Z) : list (list Z) :=
  match s with
  | [] => [[]]
  | c :: s =>
    if c =? sep then [] :: split_on sep s
    else match split_on sep s with
         | part :: parts => (c :: part) :: parts
         | [] => [[c]]
         end
  end.

(** [part.parse::<u32>().unwrap_or(0)]. *)
Definition is_digit (c : Z) : bool := in_range 48 57 c.
Definition parse_u32 (s : list Z) : Z :=
  match s with
  | [] => 0
  | _ => if forallb is_digit s then
           let n := foldl (fun n c => n * 10 + (c - 48)) 0 s in if n <=? u32_max then n else 0
         else 0
  end.

Definition csi_params (params : list Z) : list Z :=
  match params with [] => [] | _ => take 8 (parse_u32 <$> split_on 59 params) end.

Definition u32_saturating_sub (a b : Z) : Z := Z.max (a - b) 0.
Definition u32_saturating_add (a b : Z) : Z := Z.min (a + b) u32_max.

(** The count of a cursor movement: the first parameter, at least 1. *)
Definition csi_count (nums : list Z) : Z := match nums with [] => 1 | n :: _ => Z.max n 1 end.

Definition handle_csi t (final_byte : Z) (params : list Z) : TerminalBuffer :=
  let nums := csi_params params in
  let n := csi_count nums in
  if final_byte =? 65 then move_to t (cursor_col t) (u32_saturating_sub (cursor_row t) n)
  else if final_byte =? 66 then
    move_to t (cursor_col t) (Z.min (u32_saturating_add (cursor_row t) n) (u32_saturating_sub (rows t) 1))
  else if final_byte =? 67 then
    move_to t (Z.min (u32_saturating_add (cursor_col t) n) (u32_saturating_sub (cols t) 1)) (cursor_row t)
  else if final_byte =? 68 then move_to t (u32_saturating_sub (cursor_col t) n) (cursor_row t)
  else if final_byte =? 72 then
    let row := match nums with [] => 0 | n :: _ => u32_saturating_sub n 1 end in
    let col := match nums with _ :: m :: _ => u32_saturating_sub m 1 | _ => 0 end in
    move_to t (Z.min col (u32_saturating_sub (cols t) 1)) (Z.min row (u32_saturating_sub (rows t) 1))
  else if final_byte =? 74 then
    let mode := match nums with [] => 0 | n :: _ => n end in
    if mode =? 2 then term_clear t else t
  else if final_byte =? 109 then
    match nums with [] => handle_sgr t [0] | _ => handle_sgr t nums end
  else t.

Inductive AnsiState := Normal | Esc | Csi.

Fixpoint put_bytes t (bs : list Z) : result unit TerminalBuffer :=
  match bs with
  | [] => Ok t
  | b :: bs => let? u := put_byte t b in put_bytes u bs
  end.

(** The loop of [put_str]; [params] is [param_buf[..param_len]]. *)
Fixpoint put_str_loop t (state : AnsiState) (params : list Z) (s : list Z) : result unit TerminalBuffer :=
  match s with
  | [] =>
    match state with
    | Esc => put_byte t 0x1B
    | Csi => put_bytes t (0x1B :: 91 :: params)
    | Normal => Ok t
    end
  | b :: s =>
    match state with
    | Normal =>
      if b =? 0x1B then put_str_loop t Esc params s
      else let? u := put_byte t b in put_str_loop u Normal params s
    | Esc =>
      if b =? 91 then put_str_loop t Csi [] s
      else let? u := put_bytes t [0x1B; b] in put_str_loop u Normal params s
    | Csi =>
      if in_range 0x30 0x3F b then
        put_str_loop t Csi (if zlen params <? 8 then params ++ [b] else params) s
      else put_str_loop (handle_csi t b params) Normal params s
    end
  end.
Definition put_str t (s : list Z) : result unit TerminalBuffer := put_str_loop t Normal [] s.

(** ** The view *)
Definition scroll_back t (n : Z) : result unit TerminalBuffer :=
  match u64_checked_add (scroll_offset t) n with
  | None => Panic
  | Some m => Ok (set_scroll_offset t (Z.min m (zlen (scrollback t))))
  end.
Definition scroll_forward t (n : Z) : TerminalBuffer :=
  set_scroll_offset t (u64_saturating_sub (scroll_offset t) n).
Definition reset_scroll t : TerminalBuffer := set_scroll_offset t 0.

Definition visible_cells t : list Cell :=
  let total_rows := rows t in
  let sb_len := zlen (scrollback t) in
  if (scroll_offset t =? 0) || (sb_len =? 0) then cells t else
  let row_len := cols t in
  let start := u64_saturating_sub sb_len (scroll_offset t) in
  let num_sb_rows := Z.min (scroll_offset t) total_rows in
  let from_sb := mjoin (zslice (scrollback t) start num_sb_rows) in
  let remaining := u64_saturating_sub total_rows num_sb_rows in
  let buf_cells := remaining * row_len in
  let buf_slice := if buf_cells <=? zlen (cells t) then zslice (cells t) 0 buf_cells else cells t in
  let result := from_sb ++ buf_slice in
  result ++ replicate (Z.to_nat (total_rows * row_len - zlen result)) Cell_default.

(** ** Well-formed buffers *)
Record term_inv (c r : Z) t : Prop := {
  ti_c : cols t = c;
  ti_r : rows t = r;
  ti_cols : 1 <= cols t <= u32_max;
  ti_rows : 1 <= rows t <= u32_max;
  ti_cells : zlen (cells t) = rows t * cols t;
  ti_col : 0 <= cursor_col t < cols t;
  ti_row : 0 <= cursor_row t < rows t;
  ti_widths : Forall (fun r => zlen r = cols t) (scrollback t);
  ti_sb : zlen (scrollback t) <= 10000;
  ti_offset : 0 <= scroll_offset t <= zlen (scrollback t)
}.

Create HintDb term.

(** The operations of a terminal. *)
Inductive term_op :=
| PutStr (s : list Z) | SetCursor (col row : Z) | ScrollBack (n : Z) | ScrollForward (n : Z) | ResetScroll | Clear.

Definition term_step t (o : term_op) : result unit TerminalBuffer :=
  match o with
  | PutStr s => put_str t s
  | SetCursor col row => Ok (set_cursor t col row)
  | ScrollBack n => scroll_back t n
  | ScrollForward n => Ok (scroll_forward t n)
  | ResetScroll => Ok (reset_scroll t)
  | Clear => Ok (term_clear t)
  end.

Fixpoint term_run t (ops : list term_op) : result unit TerminalBuffer :=
  match ops with
  | [] => Ok t
  | o :: ops => let? u := term_step t o in term_run u ops
  end.

(** The arguments callers pass: unsigned, and a scroll of at most 2^63 rows. *)
Definition op_ok (o : term_op) : Prop :=
  match o with
  | SetCursor col row => 0 <= col /\ 0 <= row
  | ScrollBack n => 0 <= n < 2 ^ 63
  | ScrollForward n => 0 <= n
  | _ => True
  end.

Section Sized.
Context {c r : Z}.

Lemma term_new_inv : 1 <= c <= u32_max -> 1 <= r <= u32_max -> term_inv c r (term_new c r).
Proof.
  intros Hc Hr. unfold term_new. split; cbn [cells cols rows cursor_col cursor_row scrollback scroll_offset].
  1-4: lia.
  - rewrite zlen_replicate. unfold u64_saturating_mul. rewrite Z.min_l by (unfold u32_max, u64_max in *; nia).
    rewrite Z2Nat.id by nia. lia.
  - lia.
  - lia.
  - constructor.
  - done.
  - done.
Qed.

Lemma move_to_inv t col row : term_inv c r t -> 0 <= col < cols t -> 0 <= row < rows t -> term_inv c r (move_to t col row).
Proof. intros [] ??. by split. Qed.

Lemma set_cells_inv t l : term_inv c r t -> zlen l = zlen (cells t) -> term_inv c r (set_cells t l).
Proof. intros [] E. split; try done. cbn. by rewrite E. Qed.

Lemma set_style_inv t s : term_inv c r t -> term_inv c r (set_style t s).
Proof. intros []. by split. Qed.

Lemma store_inv t i x : term_inv c r t -> term_inv c r (store t i x).
Proof.
  intros Ht. unfold store. destruct (i <? _); [|done].
  apply set_cells_inv; [done|apply zlen_insert].
Qed.

Lemma zlen_replicate_length {A} (l : list A) (x : A) : zlen (replicate (length l) x) = zlen l.
Proof. by rewrite zlen_replicate. Qed.

#[local] Hint Resolve move_to_inv set_style_inv store_inv set_cells_inv zlen_replicate_length : term.

(** Scrolling moves the rows of the screen up by one. *)
Lemma scroll_cells t : term_inv c r t -> cols t < zlen (cells t) ->
  cells (scroll t) = zslice (cells t) (cols t) (zlen (cells t) - cols t) ++ replicate (Z.to_nat (cols t)) (blank t).
Proof.
  intros [Ec Er Hc Hr Hl _ _ _ _ _] Hlt. unfold scroll. rewrite (proj2 (Z.leb_gt _ _)) by lia. cbn [cells].
  assert (Hz : zlen (zslice (cells t) (cols t) (zlen (cells t) - cols t)) = zlen (cells t) - cols t)
    by (apply zlen_zslice; lia).
  set (up := zslice _ _ _) in *.
  apply (znth_ext Cell_default).
  { rewrite !zlen_zsplice, zlen_app, zlen_replicate by (rewrite ?zlen_zsplice, ?zlen_replicate; lia). lia. }
  intros i Hi. rewrite !zlen_zsplice in Hi by (rewrite ?zlen_zsplice, ?zlen_replicate; lia).
  rewrite znth_app, !znth_zsplice by (rewrite ?zlen_zsplice, ?zlen_replicate; lia).
  rewrite zlen_replicate, Z2Nat.id, Hz by lia.
  destruct (Z.ltb_spec i (zlen (cells t) - cols t)).
  - rewrite (proj2 (Z.leb_gt _ _)), (proj2 (Z.leb_le 0 i)) by lia. cbn [andb].
    rewrite (proj2 (Z.ltb_lt i _)) by lia. by rewrite Z.sub_0_r.
  - rewrite (proj2 (Z.leb_le _ _)), (proj2 (Z.ltb_lt i _)) by lia. done.
Qed.

Lemma scroll_frame t : cols (scroll t) = cols t /\ rows (scroll t) = rows t
  /\ cursor_col (scroll t) = cursor_col t /\ cursor_row (scroll t) = cursor_row t
  /\ scroll_offset (scroll t) = scroll_offset t /\ style (scroll t) = style t.
Proof. unfold scroll. by destruct (_ <=? _). Qed.

Lemma push_scrollback_spec sb row w : Forall (fun r => zlen r = w) sb -> zlen row = w -> zlen sb <= 10000 ->
  Forall (fun r => zlen r = w) (push_scrollback sb row) /\ zlen (push_scrollback sb row) <= 10000
  /\ zlen sb <= zlen (push_scrollback sb row).
Proof.
  intros Hsb Hr Hl. unfold push_scrollback.
  assert (Forall (fun r => zlen r = w) (sb ++ [row])) as Ha by (apply Forall_app; split; [done|by constructor]).
  assert (zlen (sb ++ [row]) = zlen sb + 1) as Hz by (rewrite zlen_app; unfold zlen; cbn; lia).
  destruct (Z.ltb_spec 10000 (zlen (sb ++ [row]))).
  - split; [by apply Forall_drop|]. unfold zlen in *. rewrite length_drop. lia.
  - split; [done|]. lia.
Qed.

Lemma scroll_inv t : term_inv c r t -> term_inv c r (scroll t).
Proof.
  intros Ht. pose proof Ht as [Ec Er Hc Hr Hl Hcol Hrow Hw Hsb Ho].
  destruct (scroll_frame t) as (E1 & E2 & E3 & E4 & E5 & _).
  destruct (Z.leb_spec (zlen (cells t)) (cols t)) as [Hle|Hlt].
  { unfold scroll. rewrite (proj2 (Z.leb_le _ _)) by lia. auto with term. }
  pose proof (scroll_cells t Ht Hlt) as Hcells.
  destruct (push_scrollback_spec (scrollback t) (zslice (cells t) 0 (cols t)) (cols t)) as (P1 & P2 & P3);
    [done|apply zlen_zslice; lia|done|].
  assert (scrollback (scroll t) = push_scrollback (scrollback t) (zslice (cells t) 0 (cols t))) as Esb.
  { unfold scroll. by rewrite (proj2 (Z.leb_gt _ _)) by lia. }
  split; rewrite ?E1, ?E2, ?E3, ?E4, ?E5, ?Esb; try done; [|lia].
  rewrite Hcells, zlen_app, zlen_zslice, zlen_replicate by lia. lia.
Qed.
#[local] Hint Resolve scroll_inv : term.

(** The operations keep buffers well formed and never panic. *)
Definition term_ok (res : result unit TerminalBuffer) : Prop := exists t, res = Ok t /\ term_inv c r t.

Lemma term_ok_Ok t : term_inv c r t -> term_ok (Ok t).
Proof. by exists t. Qed.
#[local] Hint Resolve term_ok_Ok : term.

Lemma newline_ok t : term_inv c r t -> term_ok (newline t).
Proof.
  intros Ht. pose proof Ht as [Ec Er Hc Hr _ Hcol Hrow _ _ _]. unfold newline.
  rewrite (proj2 (Z.ltb_ge _ _)) by lia. destruct (Z.ltb_spec (cursor_row t + 1) (rows t)).
  - apply term_ok_Ok, move_to_inv; [done|lia..].
  - apply term_ok_Ok, scroll_inv, move_to_inv; [done|lia..].
Qed.

(** A full row: the cursor is moved back to column 0 before anything else. *)
Lemma newline_move t col : newline (move_to t col (cursor_row t)) = newline t.
Proof. done. Qed.

Lemma store_frame t i x : cols (store t i x) = cols t /\ rows (store t i x) = rows t
  /\ cursor_col (store t i x) = cursor_col t /\ cursor_row (store t i x) = cursor_row t.
Proof. unfold store. by destruct (_ <? _). Qed.

Lemma put_char_ok t ch : term_inv c r t -> term_ok (put_char t ch).
Proof.
  intros Ht. pose proof Ht as [Ec Er Hc Hr _ Hcol Hrow _ _ _]. unfold put_char. cbv zeta.
  set (u := store t _ _). destruct (store_frame t (cursor_row t * cols t + cursor_col t)
    (mkCell ch (st_fg (style t)) (st_bg (style t)))) as (E1 & E2 & E3 & E4). fold u in E1, E2, E3, E4.
  assert (Hu : term_inv c r u) by (by apply store_inv).
  rewrite E3, (proj2 (Z.ltb_ge _ _)) by lia. cbn [cols cursor_col].
  change (cols (move_to u _ _)) with (cols u). rewrite E1.
  destruct (Z.leb_spec (cols t) (cursor_col (move_to u (cursor_col t + 1) (cursor_row u)))) as [Hx|Hx]; cbn in Hx.
  - rewrite newline_move. by apply newline_ok.
  - apply term_ok_Ok, move_to_inv; [done|lia..].
Qed.

Lemma backspace_inv t : term_inv c r t -> term_inv c r (backspace t).
Proof.
  intros Ht. pose proof Ht as [Ec Er Hc Hr _ Hcol Hrow _ _ _]. unfold backspace.
  destruct (Z.ltb_spec 0 (cursor_col t)); [|destruct (Z.ltb_spec 0 (cursor_row t)); [|done]].
  - apply store_inv, move_to_inv; [done|lia..].
  - apply move_to_inv; [done|lia..].
Qed.

Lemma term_clear_inv t : term_inv c r t -> term_inv c r (term_clear t).
Proof.
  intros Ht. pose proof Ht as [Ec Er Hc Hr _ _ _ _ _ _]. apply move_to_inv; cbn; [auto with term|lia..].
Qed.

Lemma put_byte_ok t b : term_inv c r t -> term_ok (put_byte t b).
Proof.
  intros Ht. pose proof Ht as [Ec Er Hc Hr _ Hcol Hrow _ _ _]. unfold put_byte.
  destruct (b =? 10); [by apply newline_ok|]. destruct (b =? 8); [by apply term_ok_Ok, backspace_inv|].
  destruct (b =? 13); [apply term_ok_Ok, move_to_inv; [done|lia..]|].
  destruct (_ <=? b); [by apply put_char_ok|by apply term_ok_Ok].
Qed.

Lemma put_bytes_ok bs : forall t, term_inv c r t -> term_ok (put_bytes t bs).
Proof.
  induction bs as [|b bs IH]; intros t Ht; cbn [put_bytes]; [by apply term_ok_Ok|].
  destruct (put_byte_ok t b Ht) as (u & -> & Hu). by apply IH.
Qed.

Lemma csi_count_pos nums : 1 <= csi_count nums.
Proof. destruct nums; cbn; lia. Qed.

Lemma handle_csi_inv t f params : term_inv c r t -> term_inv c r (handle_csi t f params).
Proof.
  intros Ht. pose proof Ht as [Ec Er Hc Hr _ Hcol Hrow _ _ _]. unfold handle_csi. cbv zeta.
  pose proof (csi_count_pos (csi_params params)). unfold u32_saturating_add, u32_saturating_sub.
  repeat case_match; unfold handle_sgr; auto using term_clear_inv with term;
    apply move_to_inv; try done; lia.
Qed.

Lemma put_str_loop_ok s : forall t st params, term_inv c r t -> term_ok (put_str_loop t st params s).
Proof.
  induction s as [|b s IH]; intros t st params Ht; cbn [put_str_loop].
  - destruct st; [by apply term_ok_Ok|by apply put_byte_ok|by apply put_bytes_ok].
  - destruct st.
    + destruct (b =? 0x1B); [by apply IH|]. destruct (put_byte_ok t b Ht) as (u & -> & Hu). by apply IH.
    + destruct (b =? 91); [by apply IH|].
      destruct (put_bytes_ok [0x1B; b] t Ht) as (u & -> & Hu). by apply IH.
    + destruct (in_range 0x30 0x3F b); [by apply IH|]. by apply IH, handle_csi_inv.
Qed.

Lemma set_scroll_offset_inv t n : term_inv c r t -> 0 <= n <= zlen (scrollback t) -> term_inv c r (set_scroll_offset t n).
Proof. intros [] ?. by split. Qed.

Lemma term_step_ok t o : term_inv c r t -> op_ok o -> term_ok (term_step t o).
Proof.
  intros Ht Ho. pose proof Ht as [Ec Er Hc Hr _ Hcol Hrow _ Hsb Hoff].
  destruct o as [s|col row|n|n| |]; cbn [term_step op_ok] in *.
  - by apply put_str_loop_ok.
  - apply term_ok_Ok. unfold set_cursor. apply move_to_inv; [done|lia..].
  - unfold scroll_back. rewrite u64_checked_add_fit by (unfold u64_max; lia).
    apply term_ok_Ok, set_scroll_offset_inv; [done|lia].
  - apply term_ok_Ok, set_scroll_offset_inv; [done|]. unfold u64_saturating_sub. lia.
  - apply term_ok_Ok, set_scroll_offset_inv; [done|lia].
  - by apply term_ok_Ok, term_clear_inv.
Qed.

(** C40. A terminal of any positive size stays well formed: whatever text (control bytes
    and malformed escape sequences included), cursor moves and scrolling it is given, no
    operation panics, the cursor stays on the grid, the grid keeps its size, the
    scrollback keeps full-width rows and at most 10000 of them, and the view offset
    stays within it. *)
Theorem term_run_inv (ops : list term_op) :
  1 <= c <= u32_max -> 1 <= r <= u32_max -> Forall op_ok ops ->
  exists t, term_run (term_new c r) ops = Ok t /\ term_inv c r t.
Proof.
  intros Hc Hr. generalize (term_new_inv Hc Hr). generalize (term_new c r).
  induction ops as [|o ops IH]; intros t Ht Ho; cbn [term_run]; [by exists t|].
  apply Forall_cons in Ho as [Ho Hops].
  destruct (term_step_ok t o Ht Ho) as (u & -> & Hu). by apply IH.
Qed.
End Sized.

(** ** The document: the scrollback followed by the rows of the screen *)
Definition rows_of (w : Z) (n : nat) (l : list Cell) : list (list Cell) :=
  (fun k => zslice l (Z.of_nat k * w) w) <$> seq 0 n.

Definition document t : list (list Cell) := scrollback t ++ rows_of (cols t) (Z.to_nat (rows t)) (cells t).

Lemma length_rows_of w n l : length (rows_of w n l) = n.
Proof. unfold rows_of. by rewrite length_fmap, length_seq. Qed.

Lemma rows_of_S w n l : 0 <= w -> rows_of w (S n) l = zslice l 0 w :: rows_of w n (drop (Z.to_nat w) l).
Proof.
  intros Hw. unfold rows_of. cbn [seq]. rewrite fmap_cons. f_equal.
  rewrite <- fmap_S_seq, <- list_fmap_compose. apply list_fmap_ext. intros i x _. cbn.
  unfold zslice. rewrite drop_drop. f_equal. f_equal. lia.
Qed.

Lemma rows_of_width w n l : 0 <= w -> Z.of_nat n * w <= zlen l -> Forall (fun row => zlen row = w) (rows_of w n l).
Proof.
  intros Hw Hl. unfold rows_of. apply Forall_fmap, Forall_forall. intros k Hk%elem_of_seq. cbn.
  apply zlen_zslice; nia.
Qed.

(** Cutting a prefix of whole rows into rows and joining them again. *)
Lemma join_rows w n : 0 <= w -> forall l k, (k <= n)%nat -> Z.of_nat n * w <= zlen l ->
  mjoin (take k (rows_of w n l)) = zslice l 0 (Z.of_nat k * w).
Proof.
  intros Hw. induction n as [|n IH]; intros l k Hk Hl.
  { assert (k = 0)%nat as -> by lia. done. }
  destruct k as [|k]; [done|]. rewrite rows_of_S, firstn_cons by done. cbn [mjoin list_join].
  assert (Hd : zlen (drop (Z.to_nat w) l) = zlen l - w) by (unfold zlen in *; rewrite length_drop; nia).
  rewrite IH by (rewrite ?Hd; nia). unfold zslice. rewrite !drop_0.
  rewrite take_take_drop. f_equal. lia.
Qed.

Lemma join_all_rows w n l : 0 <= w -> zlen l = Z.of_nat n * w -> mjoin (rows_of w n l) = l.
Proof.
  intros Hw Hl. rewrite <- (take_ge (rows_of w n l) n) by (by rewrite length_rows_of).
  rewrite join_rows by (try done; lia). rewrite <- Hl. by apply zslice_full.
Qed.

Lemma zlen_join w (l : list (list Cell)) : Forall (fun row => zlen row = w) l -> zlen (mjoin l) = zlen l * w.
Proof.
  induction 1 as [|row l Hr _ IH]; [done|].
  change (mjoin (row :: l)) with (row ++ mjoin l). rewrite zlen_app, zlen_cons, Hr, IH. lia.
Qed.

(** The view: with a scroll offset of [k] the visible cells are the screenful of the
    document that starts [k] rows above the screen, always of exactly the size of the
    grid; nothing is repeated or left out at the seam between scrollback and screen. *)
Theorem visible_cells_window (c r : Z) t : term_inv c r t ->
  visible_cells t
  = mjoin (take (Z.to_nat (rows t)) (drop (Z.to_nat (zlen (scrollback t) - scroll_offset t)) (document t)))
  /\ zlen (visible_cells t) = rows t * cols t.
Proof.
  intros [_ _ Hc Hr Hl _ _ Hw Hsb Ho]. set (n := Z.to_nat (rows t)).
  set (sb := scrollback t) in *. set (k := scroll_offset t) in *.
  assert (Hall : mjoin (rows_of (cols t) n (cells t)) = cells t) by (apply join_all_rows; unfold n; lia).
  assert (Hdoc : drop (Z.to_nat (zlen sb - k)) (document t)
    = drop (Z.to_nat (zlen sb - k)) sb ++ rows_of (cols t) n (cells t)).
  { unfold document. apply drop_app_le. unfold zlen in *. lia. }
  rewrite Hdoc. unfold visible_cells. fold sb k.
  destruct (Z.eqb_spec k 0) as [Hk|Hk].
  { cbn [orb]. rewrite drop_ge by (unfold zlen in *; lia). cbn [app].
    rewrite take_ge by (by rewrite length_rows_of). by rewrite Hall. }
  destruct (Z.eqb_spec (zlen sb) 0) as [Hs|Hs]; [lia|]. cbn [orb]. cbv zeta.
  unfold u64_saturating_sub. rewrite Z.max_l by lia. rewrite (Z.max_l (rows t - _)) by lia.
  set (m := Z.min k (rows t)).
  assert (Htake : take n (drop (Z.to_nat (zlen sb - k)) sb) = zslice sb (zlen sb - k) m).
  { unfold zslice, m, n. destruct (Z.min_spec k (rows t)) as [[? ->]|[? ->]]; [|done].
    rewrite !take_ge; [done|..]; rewrite length_drop; unfold zlen in *; lia. }
  assert (Hwin : Forall (fun row => zlen row = cols t) (zslice sb (zlen sb - k) m)).
  { unfold zslice. by apply Forall_take, Forall_drop. }
  rewrite take_app, length_drop, Htake, join_app.
  replace (n - (length sb - Z.to_nat (zlen sb - k)))%nat with (Z.to_nat (rows t - m)) by (unfold n, m, zlen in *; lia).
  rewrite join_rows by (unfold n, m; nia). rewrite Z2Nat.id by (unfold m; lia).
  rewrite (proj2 (Z.leb_le _ _)) by (rewrite Hl; unfold m; nia).
  assert (Hz : zlen (mjoin (zslice sb (zlen sb - k) m) ++ zslice (cells t) 0 ((rows t - m) * cols t)) = rows t * cols t).
  { rewrite zlen_app, (zlen_join (cols t)), !zlen_zslice by (unfold m; nia || done). lia. }
  rewrite Hz, Z.sub_diag, app_nil_r. done.
Qed.

Lemma lastn_app_keep {A} n m (l k : list A) : 0 <= n -> zlen k = m -> lastn n l ++ k = lastn (n + m) (l ++ k).
Proof.
  unfold lastn, zlen. intros Hn Hk. rewrite length_app, drop_app_le by lia. do 2 f_equal. lia.
Qed.

Lemma push_scrollback_lastn sb row : zlen sb <= 10000 -> push_scrollback sb row = lastn 10000 (sb ++ [row]).
Proof.
  intros Hl. unfold push_scrollback, lastn. rewrite length_app. unfold zlen in *. cbn [length].
  rewrite length_app. cbn [length]. destruct (Z.ltb_spec 10000 (Z.of_nat (length sb + 1))).
  - by replace (length sb + 1 - Z.to_nat 10000)%nat with 1%nat by lia.
  - by replace (length sb + 1 - Z.to_nat 10000)%nat with 0%nat by lia.
Qed.

Lemma rows_of_app w n l k : 0 <= w -> zlen l = Z.of_nat n * w -> zlen k = w ->
  rows_of w (S n) (l ++ k) = rows_of w n l ++ [k].
Proof.
  intros Hw Hl Hk. unfold rows_of. rewrite seq_S, fmap_app. f_equal.
  - apply list_fmap_ext. intros i x Hx%lookup_seq. destruct Hx as [-> Hx]. unfold zslice, zlen in *. cbn.
    rewrite drop_app_le by nia. rewrite take_app_le; [done|]. rewrite length_drop. nia.
  - cbn. f_equal. unfold zslice, zlen in *. rewrite drop_app_ge by lia.
    replace (Z.to_nat _ - length l)%nat with 0%nat by lia. rewrite drop_0. apply take_ge. lia.
Qed.

(** Scrolling loses nothing: on a terminal of at least two rows, a line feed on the
    last row appends one blank row to the document, the top row of the screen becoming
    the newest row of the scrollback; only when the scrollback holds 10000 rows is its
    oldest row dropped.  The cursor is at the start of the last row. *)
Theorem newline_extends_document (c r : Z) t : term_inv c r t -> 2 <= rows t -> cursor_row t = rows t - 1 ->
  exists t', newline t = Ok t' /\ term_inv c r t'
  /\ document t' = lastn (10000 + rows t) (document t ++ [replicate (Z.to_nat (cols t)) (blank t)])
  /\ cursor_row t' = rows t - 1 /\ cursor_col t' = 0.
Proof.
  intros Ht H2 Hrow. destruct (newline_ok t Ht) as (t' & E & Ht'). exists t'. split; [done|]. split; [done|].
  unfold newline in E. pose proof Ht as [_ _ Hc Hr Hl _ _ Hw Hsb _].
  rewrite (proj2 (Z.ltb_ge _ _)), (proj2 (Z.ltb_ge _ _)) in E by lia. injection E as <-.
  set (u := move_to t 0 (cursor_row t)) in *.
  assert (Hu : term_inv c r u) by (apply move_to_inv; [done|lia..]).
  destruct (scroll_frame u) as (E1 & E2 & E3 & E4 & _). split; [|rewrite E4, E3; cbn; lia].
  unfold document at 1. rewrite E1, E2, (scroll_cells u Hu) by (cbn; nia).
  assert (scrollback (scroll u) = push_scrollback (scrollback t) (zslice (cells t) 0 (cols t))) as ->.
  { unfold scroll. rewrite (proj2 (Z.leb_gt _ _)); [done|cbn; nia]. }
  rewrite push_scrollback_lastn by done. change (blank u) with (blank t). change (cells u) with (cells t).
  change (cols u) with (cols t). change (rows u) with (rows t).
  destruct (Z.to_nat (rows t)) as [|m] eqn:Em; [lia|].
  assert (Hup : zslice (cells t) (cols t) (zlen (cells t) - cols t) = drop (Z.to_nat (cols t)) (cells t)).
  { unfold zslice. apply take_ge. rewrite length_drop. unfold zlen in *. lia. }
  assert (Hlen : zlen (drop (Z.to_nat (cols t)) (cells t)) = Z.of_nat m * cols t).
  { unfold zlen in *. rewrite length_drop. nia. }
  rewrite Hup, rows_of_app by (rewrite ?zlen_replicate; lia).
  unfold document. rewrite Em, rows_of_S by lia. set (rest := rows_of _ m _). set (bl := replicate _ _).
  replace ((scrollback t ++ zslice (cells t) 0 (cols t) :: rest) ++ [bl])
    with ((scrollback t ++ [zslice (cells t) 0 (cols t)]) ++ (rest ++ [bl])) by (by rewrite <- !app_assoc).
  apply lastn_app_keep; [done|]. unfold rest. rewrite zlen_app. unfold zlen. rewrite length_rows_of. cbn. lia.
Qed.

(** ** Witnesses *)
Definition demo_ops : list term_op :=
  [PutStr [97; 98; 99; 10; 0x1B; 91; 51; 49; 109; 100; 10; 101]; ScrollBack 1; SetCursor 9 9].

Lemma demo_ops_ok : Forall op_ok demo_ops.
Proof. repeat constructor; cbn; lia. Qed.

Definition demo_term : TerminalBuffer :=
  match term_run (term_new 4 2) demo_ops with Ok t => t | _ => term_new 4 2 end.

Lemma term_run_inv_witness : exists t, term_run (term_new 4 2) demo_ops = Ok t /\ term_inv 4 2 t.
Proof.
  apply term_run_inv; [unfold u32_max; lia|unfold u32_max; lia|exact demo_ops_ok].
Defined.

Lemma demo_term_inv : term_inv 4 2 demo_term.
Proof.
  assert (Forall op_ok (take 3 demo_ops)) as Hops by exact demo_ops_ok.
  assert (term_inv 4 2 (term_new 4 2)) as H0 by (apply term_new_inv; unfold u32_max; lia).
  unfold demo_term. destruct (term_step_ok (term_new 4 2) (PutStr [97; 98; 99; 10; 0x1B; 91; 51; 49; 109; 100; 10; 101]) H0 I)
    as (t1 & E1 & H1).
  destruct (term_step_ok t1 (ScrollBack 1) H1) as (t2 & E2 & H2); [cbn; lia|].
  destruct (term_step_ok t2 (SetCursor 9 9) H2) as (t3 & E3 & H3); [cbn; lia|].
  unfold demo_ops. cbn [term_run]. rewrite E1, E2, E3. done.
Qed.

Lemma visible_cells_window_witness :
  (ce_ch <$> visible_cells demo_term) = [97; 98; 99; 32; 100; 32; 32; 32]
  /\ zlen (visible_cells demo_term) = rows demo_term * cols demo_term.
Proof. split; [vm_compute; reflexivity|]. apply (visible_cells_window 4 2 demo_term demo_term_inv). Defined.

Lemma newline_extends_document_witness :
  exists t', newline demo_term = Ok t' /\ length (document t') = S (length (document demo_term)).
Proof.
  destruct (newline_extends_document 4 2 demo_term demo_term_inv) as (t' & E & _ & Hd & _);
    [vm_compute; discriminate|vm_compute; reflexivity|].
  exists t'. split; [exact E|]. rewrite Hd. vm_compute. reflexivity.
Defined.
