(* ===== verification/Shell.v ===== *)
(** * Command lines

    [carrier/src/pipeline.rs] (parsing and printing of pipelines), [carrier/src/exec.rs]
    (dispatch of a pipeline, completion), [carrier/src/terminal.rs] (the trait
    [Terminal]) and its implementation [LatticeTerminal]
    ([solvent/src/terminal.rs]).  A string is the list of its characters. *)

From S2P Require Import Prelude Rings Terminal.

(** ** Strings *)

(** [char::is_whitespace]. *)
Definition is_whitespace (c : Z) : bool :=
  in_range 9 13 c || existsb (Z.eqb c) [0x20; 0x85; 0xA0; 0x1680; 0x2028; 0x2029; 0x202F; 0x205F; 0x3000]
  || in_range 0x2000 0x200A c.

Fixpoint split_by (p : Z -> bool) (s : list Z) : list (list Z) :=
  match s with
  | [] => [[]]
  | c :: s =>
    if p c then [] :: split_by p s
    else match split_by p s with part :: parts => (c :: part) :: parts | [] => [[c]] end
  end.

Definition nonempty (s : list Z) : bool := match s with [] => false | _ => true end.

(** [str::split_whitespace]. *)
Definition split_whitespace (s : list Z) : list (list Z) := List.filter nonempty (split_by is_whitespace s).

Fixpoint trim_start (s : list Z) : list Z :=
  match s with c :: s' => if is_whitespace c then trim_start s' else s | [] => [] end.
Definition trim (s : list Z) : list Z := rev (trim_start (rev (trim_start s))).

Fixpoint starts_with (s prefix : list Z) : bool :=
  match prefix, s with
  | [], _ => true
  | p :: prefix, c :: s => (p =? c) && starts_with s prefix
  | _ :: _, [] => false
  end.

(** ** Pipelines *)
Record ParsedCommand := mkCommand { pc_name : list Z; pc_args : list (list Z) }.

Definition parse_command (line : list Z) : ParsedCommand :=
  match split_whitespace line with
  | [] => mkCommand [] []
  | name :: args => mkCommand name args
  end.

Definition args_slice (c : ParsedCommand) : list (list Z) := pc_name c :: pc_args c.

Definition command_to_string (c : ParsedCommand) : list Z :=
  pc_name c ++ mjoin ((fun a => 32 :: a) <$> pc_args c).

(** [split('|')]. *)
Definition pipeline_parse (line : list Z) : list ParsedCommand :=
  List.filter (fun c => nonempty (pc_name c)) ((fun s => parse_command (trim s)) <$> split_by (Z.eqb 124) line).

Definition is_simple (p : list ParsedCommand) : bool := (length p <=? 1)%nat.

Fixpoint pipeline_to_string (p : list ParsedCommand) : list Z :=
  match p with
  | [] => []
  | [c] => command_to_string c
  | c :: p => command_to_string c ++ [32; 124; 32] ++ pipeline_to_string p
  end.

(** ** Terminals *)
Class Terminal (T : Type) := {
  write_str : T -> list Z -> T;
  set_stdin : T -> list Z -> T;
  take_stdout : T -> option (list Z) * T;
  arm_pipe_stdout : T -> T;
  clear_pipe_stdin : T -> T
}.

Record Command (T : Type) := mkNamed {
  cmd_name : list Z;
  cmd_description : list Z;
  cmd_execute : list (list Z) -> T -> bool * T
}.
Arguments mkNamed {T} _ _ _.
Arguments cmd_name {T} _. Arguments cmd_description {T} _. Arguments cmd_execute {T} _ _ _.

Fixpoint str_eqb (a b : list Z) : bool :=
  match a, b with
  | [], [] => true
  | x :: a, y :: b => (x =? y) && str_eqb a b
  | _, _ => false
  end.

Definition of_string (s : string) : list Z := (fun a => Z.of_N (Ascii.N_of_ascii a)) <$> String.list_ascii_of_string s.

Section Dispatch.
Context {T : Type} `{Terminal T}.
Implicit Types (commands : list (Command T)) (term : T).

Definition write_all term (l : list (list Z)) : T := foldl write_str term l.

Definition list_commands commands term : T :=
  foldl (fun term cmd =>
    let n := length (cmd_name cmd) in
    let pad := if (n <? 12)%nat then (12 - n)%nat else 1%nat in
    let term := write_all term [[32; 32]; cmd_name cmd] in
    let term := write_all term (replicate pad [32]) in
    write_all term [of_string "- "; cmd_description cmd; [10]])
    (write_str term (of_string "Available commands:" ++ [10])) commands.

Definition unknown_command term (name : list Z) : T :=
  write_all term [of_string "Unknown command: "; name;
                  10 :: of_string "Type 'help' for available commands." ++ [10]].

(** The loop over the stages; [pipe_buffer] holds the output of the stage before. *)
Fixpoint dispatch_loop commands (pipeline : list ParsedCommand) (pipe_buffer : option (list Z)) term : bool * T :=
  match pipeline with
  | [] => (true, term)
  | cmd :: rest =>
    let is_last := match rest with [] => true | _ => false end in
    match List.find (fun c => str_eqb (cmd_name c) (pc_name cmd)) commands with
    | None => (true, unknown_command term (pc_name cmd))
    | Some matched =>
      let term := match pipe_buffer with Some input => set_stdin term input | None => term end in
      let term := if is_last then term else arm_pipe_stdout term in
      let '(continue_shell, term) := cmd_execute matched (args_slice cmd) term in
      let '(pipe_buffer, term) := if is_last then (None, term) else take_stdout term in
      let term := clear_pipe_stdin term in
      if continue_shell then dispatch_loop commands rest pipe_buffer term else (false, term)
    end
  end.

Definition dispatch commands term (line : list Z) : bool * T :=
  let trimmed := trim line in
  if negb (nonempty trimmed) then (true, term) else
  match pipeline_parse trimmed with
  | [] => (true, term)
  | pipeline =>
    if match pipeline with [c] => str_eqb (pc_name c) (of_string "help") | _ => false end
    then (true, list_commands commands term)
    else dispatch_loop commands pipeline None term
  end.

(** [str::to_lowercase] on ASCII. *)
Definition to_lowercase (s : list Z) : list Z := (fun c => if in_range 65 90 c then c + 32 else c) <$> s.

Definition get_completions_for (prefix : list Z) commands : list (list Z) :=
  if existsb (Z.eqb 32) prefix then []
  else List.filter (fun name => starts_with name (to_lowercase (trim prefix))) (cmd_name <$> commands).
End Dispatch.

(** [LatticeTerminal]: the pipe buffers, and the text handed to the terminal buffer. *)
Record LatticeTerminal := mkLattice {
  PIPE_STDIN : option (list Z);
  PIPE_STDOUT : option (list Z);
  term_text : list Z
}.

Definition lattice_write_str (t : LatticeTerminal) (s : list Z) : LatticeTerminal :=
  match PIPE_STDOUT t with
  | Some out => mkLattice (PIPE_STDIN t) (Some (out ++ s)) (term_text t)
  | None => mkLattice (PIPE_STDIN t) None (term_text t ++ s)
  end.

#[export] Instance LatticeTerminal_terminal : Terminal LatticeTerminal := {|
  write_str := lattice_write_str;
  set_stdin t data := mkLattice (Some data) (PIPE_STDOUT t) (term_text t);
  take_stdout t := (PIPE_STDOUT t, mkLattice (PIPE_STDIN t) None (term_text t));
  arm_pipe_stdout t := mkLattice (PIPE_STDIN t) (Some []) (term_text t);
  clear_pipe_stdin t := mkLattice None (PIPE_STDOUT t) (term_text t)
|}.

(** [take_stdin], for commands that read their input. *)
Definition take_stdin (t : LatticeTerminal) : option (list Z) * LatticeTerminal :=
  (PIPE_STDIN t, mkLattice None (PIPE_STDOUT t) (term_text t)).

(** ** Printing and parsing *)
Lemma split_by_app p a c b : p c = true -> split_by p (a ++ c :: b) = split_by p a ++ split_by p b.
Proof.
  intros Hc. induction a as [|x a IH]; cbn; [by rewrite Hc|].
  rewrite IH. destruct (p x); [done|]. destruct (split_by p a) as [|part parts] eqn:E; [|done].
  exfalso. clear -E. destruct a as [|y a]; cbn in E; [done|].
  destruct (p y); [done|]. by destruct (split_by p a).
Qed.

Lemma split_by_none p s : forallb (fun c => negb (p c)) s = true -> split_by p s = [s].
Proof.
  induction s as [|c s IH]; [done|]. cbn. intros [Hc Hs]%andb_true_iff.
  apply negb_true_iff in Hc. by rewrite Hc, IH.
Qed.

Lemma words_app a c b : is_whitespace c = true ->
  split_whitespace (a ++ c :: b) = split_whitespace a ++ split_whitespace b.
Proof. intros Hc. unfold split_whitespace. by rewrite split_by_app, List.filter_app by done. Qed.

Lemma words_cons c s : is_whitespace c = true -> split_whitespace (c :: s) = split_whitespace s.
Proof. intros Hc. exact (words_app [] c s Hc). Qed.

Lemma words_snoc c s : is_whitespace c = true -> split_whitespace (s ++ [c]) = split_whitespace s.
Proof. intros Hc. rewrite words_app by done. apply app_nil_r. Qed.

Lemma words_trim_start s : split_whitespace (trim_start s) = split_whitespace s.
Proof. induction s as [|c s IH]; [done|]. cbn [trim_start]. destruct (is_whitespace c) eqn:Ec; [|done]. by rewrite words_cons by done. Qed.

Lemma words_trim_end s : split_whitespace (rev (trim_start (rev s))) = split_whitespace s.
Proof.
  induction s as [|c s IH] using rev_ind; [done|]. rewrite rev_app_distr. cbn [rev app trim_start].
  destruct (is_whitespace c) eqn:Ec; [by rewrite IH, words_snoc|]. cbn [rev]. by rewrite rev_involutive.
Qed.

Lemma words_trim s : split_whitespace (trim s) = split_whitespace s.
Proof. unfold trim. by rewrite words_trim_end, words_trim_start. Qed.

Lemma words_blank s : Forall (fun x => is_whitespace x = true) s -> split_whitespace s = [].
Proof. induction 1 as [|x s Hx _ IH]; [done|]. by rewrite words_cons. Qed.

(** A word: not empty, without white space and without the pipe character. *)
Definition is_word (s : list Z) : Prop :=
  nonempty s = true /\ forallb (fun c => negb (is_whitespace c)) s = true
  /\ forallb (fun c => negb (124 =? c)) s = true.

Definition command_ok (c : ParsedCommand) : Prop := is_word (pc_name c) /\ Forall is_word (pc_args c).

Lemma words_word s : is_word s -> split_whitespace s = [s].
Proof. intros (Hn & Hw & _). unfold split_whitespace. rewrite split_by_none by done. cbn. by rewrite Hn. Qed.

Lemma words_args args : Forall is_word args -> forall s, is_word s ->
  split_whitespace (s ++ mjoin ((fun a => 32 :: a) <$> args)) = s :: args.
Proof.
  induction 1 as [|a args Ha _ IH]; intros s Hs; cbn [fmap list_fmap mjoin list_join].
  - rewrite app_nil_r. by apply words_word.
  - change ((32 :: a) ++ ?x) with (32 :: a ++ x). rewrite words_app, words_word by done. cbn [app]. f_equal. by apply IH.
Qed.

Lemma words_command c : command_ok c -> split_whitespace (command_to_string c) = args_slice c.
Proof. intros [Hn Ha]. by apply words_args. Qed.

Lemma parse_command_to_string c a b :
  command_ok c -> Forall (fun x => is_whitespace x = true) a -> Forall (fun x => is_whitespace x = true) b ->
  parse_command (trim (a ++ command_to_string c ++ b)) = c.
Proof.
  intros Hc Ha Hb. unfold parse_command. rewrite words_trim.
  assert (split_whitespace (a ++ command_to_string c ++ b) = args_slice c) as ->.
  { rewrite <- words_command by done. clear Hc. induction Ha as [|x a Hx _ IH]; cbn [app]; [|by rewrite words_cons].
    destruct Hb as [|y b Hy Hb]; [by rewrite app_nil_r|].
    by rewrite words_app, (words_blank b), app_nil_r. }
  by destruct c.
Qed.

Lemma no_pipe_command c : command_ok c -> forallb (fun x => negb (124 =? x)) (command_to_string c) = true.
Proof.
  intros [(_ & _ & Hn) Ha]. unfold command_to_string. rewrite forallb_app, Hn. cbn [andb].
  induction Ha as [|a args (_ & _ & Hx) _ IH]; [done|].
  cbn [fmap list_fmap mjoin list_join]. rewrite forallb_app. cbn [forallb]. by rewrite Hx.
Qed.

(** Printing and parsing pipelines: a pipeline whose names and arguments are words
    (not empty, without white space, without the pipe character) is parsed back from its
    printed form. *)
Theorem pipeline_roundtrip (p : list ParsedCommand) :
  Forall command_ok p -> pipeline_parse (pipeline_to_string p) = p.
Proof.
  assert (Hgen : forall p a, Forall command_ok p -> p <> [] -> Forall (fun x => is_whitespace x = true) a ->
    forallb (fun x => negb (124 =? x)) a = true -> pipeline_parse (a ++ pipeline_to_string p) = p).
  { clear p. induction p as [|c [|c' p] IH]; intros a Hp Hne Ha Hnp; [done| |];
      apply Forall_cons in Hp as [Hc Hp].
    - cbn [pipeline_to_string]. unfold pipeline_parse.
      rewrite split_by_none by (by rewrite forallb_app, Hnp, no_pipe_command). cbn [fmap list_fmap].
      rewrite <- (app_nil_r (command_to_string c)) at 1. rewrite parse_command_to_string by done.
      cbn. by destruct Hc as [(-> & _) _].
    - change (pipeline_to_string (c :: c' :: p)) with (command_to_string c ++ [32] ++ 124 :: [32] ++ pipeline_to_string (c' :: p)).
      rewrite !app_assoc. unfold pipeline_parse. rewrite split_by_app by done.
      rewrite fmap_app, List.filter_app. fold (pipeline_parse ([32] ++ pipeline_to_string (c' :: p))).
      rewrite IH by (try done; by repeat constructor).
      rewrite split_by_none by (by rewrite !forallb_app, Hnp, no_pipe_command). cbn [fmap list_fmap].
      rewrite <- app_assoc, parse_command_to_string by (try done; by repeat constructor).
      cbn. by destruct Hc as [(-> & _) _]. }
  intros Hp. destruct p as [|c p]; [done|]. by apply (Hgen (c :: p) []).
Qed.

Lemma pipeline_roundtrip_witness :
  pipeline_parse (of_string "ls -la | grep foo")
  = [mkCommand (of_string "ls") [of_string "-la"]; mkCommand (of_string "grep") [of_string "foo"]].
Proof.
  apply (pipeline_roundtrip
    [mkCommand (of_string "ls") [of_string "-la"]; mkCommand (of_string "grep") [of_string "foo"]]).
  repeat constructor.
Defined.

(** ** Dispatch composes the stages *)

(** What a command does as a filter: from its arguments and its input, the text it
    prints and whether the shell goes on. *)
Definition filter_fun : Type := list (list Z) -> option (list Z) -> list Z * bool.

(** The command prints that text wherever its output goes, whatever it does with its
    input buffer. *)
Definition behaves (c : Command LatticeTerminal) (f : filter_fun) : Prop :=
  forall args t,
  let '(k, t') := cmd_execute c args t in
  let '(out, k') := f args (PIPE_STDIN t) in
  k = k' /\ PIPE_STDOUT t' = (fun o => o ++ out) <$> PIPE_STDOUT t
  /\ term_text t' = match PIPE_STDOUT t with Some _ => term_text t | None => term_text t ++ out end.

Definition unknown_text (name : list Z) : list Z :=
  of_string "Unknown command: " ++ name ++ [10] ++ of_string "Type 'help' for available commands." ++ [10].

(** The meaning of a pipeline: each stage reads what the stage before printed, only the
    last one prints on the terminal. *)
Fixpoint pipe_spec (cmds : list (Command LatticeTerminal * filter_fun)) (pipeline : list ParsedCommand)
    (input : option (list Z)) : list Z * bool :=
  match pipeline with
  | [] => ([], true)
  | cmd :: rest =>
    match List.find (fun c => str_eqb (cmd_name c.1) (pc_name cmd)) cmds with
    | None => (unknown_text (pc_name cmd), true)
    | Some (_, f) =>
      let '(out, k) := f (args_slice cmd) input in
      match rest with
      | [] => (out, k)
      | _ => if k then pipe_spec cmds rest (Some out) else ([], false)
      end
    end
  end.

Lemma find_fst cmds (g : Command LatticeTerminal -> bool) :
  List.find g (cmds.*1 : list (Command LatticeTerminal))
  = fst <$> List.find (fun c : Command LatticeTerminal * filter_fun => g c.1) cmds.
Proof. induction cmds as [|c cmds IH]; [done|]. cbn. by destruct (g c.1). Qed.

Lemma dispatch_loop_spec cmds : Forall (fun c => behaves c.1 c.2) cmds -> forall pipeline input t,
  PIPE_STDIN t = None -> PIPE_STDOUT t = None ->
  let '(out, k) := pipe_spec cmds pipeline input in
  dispatch_loop cmds.*1 pipeline input t = (k, mkLattice None None (term_text t ++ out)).
Proof.
  intros Hb. induction pipeline as [|cmd rest IH]; intros input t Hin Hout; cbn [pipe_spec dispatch_loop].
  { destruct t. cbn in *. subst. by rewrite app_nil_r. }
  rewrite find_fst. destruct (List.find _ cmds) as [[c f]|] eqn:Ef; cbn [fmap option_fmap option_map fst].
  2:{ destruct t. cbn in *. subst. f_equal. unfold unknown_command, write_all, write_str, unknown_text. cbn.
      unfold lattice_write_str. cbn. f_equal. by rewrite <- !app_assoc. }
  apply List.find_some in Ef as [Hc _]. rewrite List.Forall_forall in Hb. specialize (Hb _ Hc). cbn in Hb.
  set (t1 := match input with Some i => set_stdin t i | None => t end).
  assert (H1 : PIPE_STDIN t1 = input /\ PIPE_STDOUT t1 = None /\ term_text t1 = term_text t).
  { unfold t1. by destruct input. }
  destruct H1 as (E1 & E2 & E3). clearbody t1.
  destruct rest as [|cmd' rest].
  - specialize (Hb (args_slice cmd) t1). rewrite E1, E2, E3 in Hb.
    destruct (cmd_execute c (args_slice cmd) t1) as [k t2]. destruct (f (args_slice cmd) input) as [out k'].
    destruct Hb as (-> & H2 & H3). cbn in H2. destruct t2 as [i o x]. cbn in *. subst. by destruct k'.
  - specialize (Hb (args_slice cmd) (arm_pipe_stdout t1)). cbn [PIPE_STDIN PIPE_STDOUT term_text arm_pipe_stdout
      LatticeTerminal_terminal] in Hb. rewrite E1, E3 in Hb.
    destruct (cmd_execute c (args_slice cmd) _) as [k t2] eqn:Ex. destruct (f (args_slice cmd) input) as [out k'].
    destruct Hb as (-> & H2 & H3). cbn in H2.
    assert (Ex' : cmd_execute c (args_slice cmd) (arm_pipe_stdout t1) = (k', t2)).
    { rewrite <- Ex. f_equal. cbn. by rewrite E1, E3. }
    rewrite Ex'. cbn [take_stdout clear_pipe_stdin LatticeTerminal_terminal]. rewrite H2.
    destruct k'; [|cbn; by rewrite H3, app_nil_r].
    specialize (IH (Some out) (mkLattice None None (term_text t2)) eq_refl eq_refl).
    cbn [term_text] in IH. rewrite H3 in *. exact IH.
Qed.

(** Dispatching a line runs it as a pipeline: for commands that behave as filters,
    every stage receives exactly the text the stage before it printed, only the last
    stage prints on the terminal, an unknown command is reported in its place, and
    afterwards both pipe buffers are empty. *)
Theorem dispatch_composes (cmds : list (Command LatticeTerminal * filter_fun)) (line text : list Z) :
  Forall (fun c => behaves c.1 c.2) cmds -> (1 < length (pipeline_parse (trim line)))%nat ->
  dispatch cmds.*1 (mkLattice None None text) line
  = let '(out, k) := pipe_spec cmds (pipeline_parse (trim line)) None in (k, mkLattice None None (text ++ out)).
Proof.
  intros Hb Hl. unfold dispatch.
  assert (nonempty (trim line) = true) as ->.
  { destruct (trim line); [cbn in Hl; lia|done]. }
  destruct (pipeline_parse (trim line)) as [|c [|c' rest]] eqn:Ep; [cbn in Hl; lia..|]. cbn [negb].
  pose proof (dispatch_loop_spec cmds Hb (c :: c' :: rest) None (mkLattice None None text) eq_refl eq_refl) as Hd.
  destruct (pipe_spec cmds (c :: c' :: rest) None) as [out k]. exact Hd.
Qed.

(** [echo] prints its arguments, [rev] its input reversed. *)
Definition echo_fun : filter_fun := fun args _ => (mjoin (drop 1 args), true).
Definition rev_fun : filter_fun := fun _ input => (match input with Some s => rev s | None => [] end, true).

Definition as_command (name : list Z) (f : filter_fun) : Command LatticeTerminal :=
  mkNamed name [] (fun args t => let '(out, k) := f args (PIPE_STDIN t) in (k, write_str (take_stdin t).2 out)).

Lemma as_command_behaves name f : behaves (as_command name f) f.
Proof.
  intros args t. cbn. destruct (f args (PIPE_STDIN t)) as [out k]. destruct t as [i [o|] x]; done.
Qed.

Definition demo_commands : list (Command LatticeTerminal * filter_fun) :=
  [(as_command (of_string "echo") echo_fun, echo_fun); (as_command (of_string "rev") rev_fun, rev_fun)].

Lemma dispatch_composes_witness :
  dispatch demo_commands.*1 (mkLattice None None []) (of_string " echo abc | rev ")
  = (true, mkLattice None None (of_string "cba")).
Proof.
  rewrite (dispatch_composes demo_commands (of_string " echo abc | rev ") []);
    [vm_compute; reflexivity| |vm_compute; repeat constructor].
  apply List.Forall_cons; [apply as_command_behaves|].
  apply List.Forall_cons; [apply as_command_behaves|constructor].
Defined.
