(* ===== verification/LineEditor.v ===== *)
(** * The line editor

    [nozzle/src/line_editor.rs]: editing of a line with a cursor, history, completion and
    escape sequences, every change echoed to a terminal.  The editor is shown to
    implement a line split at the cursor, with the terminal showing that line; the last
    section composes it with the terminal buffer it writes to. *)

From S2P Require Import Prelude Rings Terminal Shell.

Definition HISTORY_MAX : nat := 128.

Record LineEditor := mkEditor {
  le_buffer : list Z;
  le_cursor : nat;
  le_history : list (list Z);
  le_browsing : option nat;
  le_saved : list Z;
  le_max : nat
}.

Definition editor_with_capacity (max_len : nat) : LineEditor := mkEditor [] 0 [] None [] max_len.
Definition editor_new : LineEditor := editor_with_capacity 256.

Definition set_text (e : LineEditor) (b : list Z) (c : nat) : LineEditor :=
  mkEditor b c (le_history e) (le_browsing e) (le_saved e) (le_max e).
Definition set_browsing (e : LineEditor) (i : option nat) : LineEditor :=
  mkEditor (le_buffer e) (le_cursor e) (le_history e) i (le_saved e) (le_max e).
Definition set_saved (e : LineEditor) (s : list Z) : LineEditor :=
  mkEditor (le_buffer e) (le_cursor e) (le_history e) (le_browsing e) s (le_max e).
Definition set_history (e : LineEditor) (h : list (list Z)) : LineEditor :=
  mkEditor (le_buffer e) (le_cursor e) h (le_browsing e) (le_saved e) (le_max e).

(** [core::str::from_utf8(b).unwrap_or("?")]. *)
Definition str_or_q (b : list Z) : list Z := match from_utf8 b with None => b | Some _ => [63] end.

(** The input side of a terminal; [spin] is the wait between two polls. *)
Class TermInput (T : Type) := {
  read_byte : T -> option Z * T;
  input_available : T -> bool;
  spin : T -> T;
  record_history : T -> list Z -> T
}.

Section Editor.
Context {T : Type} `{Terminal T}.
Implicit Types (e : LineEditor) (term : T).

(** The text written to the terminal [n] times. *)
Definition write_n term (n : nat) (s : list Z) : T := write_all term (replicate n s).

Definition BS : list Z := [8].

(** ** Editing primitives *)
Definition do_insert e (ch : Z) term : LineEditor * T :=
  if (length (le_buffer e) <=? le_cursor e)%nat then
    let b := le_buffer e ++ [ch] in
    (set_text e b (length b), write_str term (str_or_q [ch]))
  else
    let b := take (le_cursor e) (le_buffer e) ++ ch :: drop (le_cursor e) (le_buffer e) in
    let tail := drop (le_cursor e) b in
    (set_text e b (le_cursor e + 1), write_n (write_str term (str_or_q tail)) (length tail - 1) BS).

(** [Vec::remove] panics outside the vector. *)
Definition vec_remove (b : list Z) (i : nat) : option (list Z) :=
  if (i <? length b)%nat then Some (delete i b) else None.

(** Redraws what follows the cursor after a character was removed. *)
Definition redraw_tail term (tail : list Z) : T :=
  let tl := length tail in
  let term := write_n term (tl + 1) [32] in
  let term := write_n term (tl + 1) BS in
  let term := write_str term (str_or_q tail) in
  write_n term tl BS.

Definition do_backspace e term : result unit (LineEditor * T) :=
  if (le_cursor e =? 0)%nat then Ok (e, term) else
  let cursor := (le_cursor e - 1)%nat in
  match vec_remove (le_buffer e) cursor with
  | None => Panic
  | Some b => Ok (set_text e b cursor, redraw_tail (write_str term BS) (drop cursor b))
  end.

Definition do_delete e term : result unit (LineEditor * T) :=
  if (length (le_buffer e) <=? le_cursor e)%nat then Ok (e, term) else
  match vec_remove (le_buffer e) (le_cursor e) with
  | None => Panic
  | Some b => Ok (set_text e b (le_cursor e), redraw_tail term (drop (le_cursor e) b))
  end.

Definition do_cursor_left e term : LineEditor * T :=
  if (0 <? le_cursor e)%nat then (set_text e (le_buffer e) (le_cursor e - 1), write_str term BS) else (e, term).

Definition do_cursor_right e term : LineEditor * T :=
  match le_buffer e !! le_cursor e with
  | Some b => (set_text e (le_buffer e) (le_cursor e + 1), write_str term (str_or_q [b]))
  | None => (e, term)
  end.

(** The loops [while cursor > 0] and [while cursor < buffer.len()]: each step moves the
    cursor by one. *)
Fixpoint repeat_op (n : nat) (f : LineEditor -> T -> LineEditor * T) e term : LineEditor * T :=
  match n with
  | O => (e, term)
  | S n => let '(e, term) := f e term in repeat_op n f e term
  end.
Definition do_home e term : LineEditor * T := repeat_op (le_cursor e) do_cursor_left e term.
Definition do_end e term : LineEditor * T :=
  repeat_op (length (le_buffer e) - le_cursor e) do_cursor_right e term.

(** [do_home] and blanking the line. *)
Definition erase_line e term : LineEditor * T :=
  let len := length (le_buffer e) in
  let '(e, term) := do_home e term in
  (set_text e [] 0, write_n (write_n term len [32]) len BS).

Definition do_clear_line e term : LineEditor * T := erase_line e term.

(** ** History *)
Definition replace_buffer e (new_text : list Z) term : LineEditor * T :=
  let '(e, term) := erase_line e term in
  (set_text e new_text (length new_text), if nonempty new_text then write_str term new_text else term).

Definition show_history e (idx : nat) term : result unit (LineEditor * T) :=
  match le_history e !! idx with
  | None => Panic
  | Some s => Ok (replace_buffer (set_browsing e (Some idx)) s term)
  end.

Definition history_up e term : result unit (LineEditor * T) :=
  match le_browsing e with
  | None =>
    match le_history e with
    | [] => Ok (e, term)
    | _ => show_history (set_saved e (from_utf8_lossy (le_buffer e))) 0 term
    end
  | Some i => if (i + 1 <? length (le_history e))%nat then show_history e (i + 1) term else Ok (e, term)
  end.

Definition history_down e term : result unit (LineEditor * T) :=
  match le_browsing e with
  | None => Ok (e, term)
  | Some O => Ok (replace_buffer (set_browsing e None) (le_saved e) term)
  | Some i => show_history e (i - 1) term
  end.

(** ** Completion *)

(** [rfind(' ').map(|i| i + 1).unwrap_or(0)]. *)
Fixpoint word_start (s : list Z) (i best : nat) : nat :=
  match s with
  | [] => best
  | c :: s => word_start s (S i) (if c =? 32 then S i else best)
  end.

Definition insert_all e (l : list Z) term : LineEditor * T :=
  foldl (fun x ch => let '(e, term) := x in do_insert e ch term) (e, term) l.

Definition do_tab_complete (completions : list Z -> list (list Z)) e term : result unit (LineEditor * T) :=
  let line := from_utf8_lossy (le_buffer e) in
  match str_slice line 0 (le_cursor e) with
  | None => Panic
  | Some before =>
    let ws := word_start before 0 0 in
    match str_slice line ws (le_cursor e) with
    | None => Panic
    | Some prefix =>
      match completions prefix with
      | [] => Ok (e, term)
      | [completion] =>
        match str_slice completion (length prefix) (length completion) with
        | None => Panic
        | Some suffix => Ok (insert_all e suffix term)
        end
      | cs =>
        let term := write_str term [10] in
        let term := write_all term (mjoin ((fun c => [c; [32; 32]]) <$> cs)) in
        let term := write_all term [[10]; [62; 32]; from_utf8_lossy (le_buffer e)] in
        Ok (e, write_n term (length (le_buffer e) - le_cursor e) [0x1B; 91; 68])
      end
    end
  end.
End Editor.

(** ** Reading a line *)
Section ReadLine.
Context {T : Type} `{Terminal T, TermInput T}.
Variable completions : list Z -> list (list Z).
Implicit Types (e : LineEditor) (term : T).

Definition add_to_history e (line : list Z) term : LineEditor * T :=
  if negb (nonempty line) then (e, term)
  else if match le_history e with h :: _ => str_eqb h line | [] => false end then (e, term)
  else
    let h := if (HISTORY_MAX <=? length (le_history e))%nat then take (length (le_history e) - 1) (le_history e)
             else le_history e in
    (set_history e (line :: h), record_history term line).

Fixpoint read_byte_retry (n : nat) term : option Z * T :=
  match n with
  | O => (None, term)
  | S n => if input_available term then read_byte term else read_byte_retry n (spin term)
  end.

Definition handle_escape e term : result unit (LineEditor * T) :=
  match read_byte_retry 100 term with
  | (Some bracket, term) =>
    if negb ((bracket =? 91) || (bracket =? 79)) then Ok (e, term) else
    match read_byte_retry 100 term with
    | (None, term) => Ok (e, term)
    | (Some code, term) =>
      let csi := bracket =? 91 in
      if csi && (code =? 65) then history_up e term
      else if csi && (code =? 66) then history_down e term
      else if csi && (code =? 67) then Ok (do_cursor_right e term)
      else if csi && (code =? 68) then Ok (do_cursor_left e term)
      else if code =? 72 then Ok (do_home e term)
      else if code =? 70 then Ok (do_end e term)
      else if csi && (code =? 51) then
        match read_byte_retry 100 term with
        | (Some b, term) => if b =? 126 then do_delete e term else Ok (e, term)
        | (None, term) => Ok (e, term)
        end
      else Ok (e, term)
    end
  | (None, term) => Ok (e, term)
  end.

Definition is_ascii_graphic (ch : Z) : bool := in_range 33 126 ch.

(** The body of the loop: [None] goes on, [Some] ends it, with a line or without. *)
Definition read_step e term : result unit (LineEditor * T * option (option unit)) :=
  match read_byte term with
  | (None, term) => Ok (e, term, Some None)
  | (Some b, term) =>
    if (b =? 10) || (b =? 13) then Ok (e, write_str term [10], Some (Some tt))
    else if (b =? 8) || (b =? 127) then let? (e, term) := do_backspace e term in Ok (e, term, None)
    else if b =? 0x1B then let? (e, term) := handle_escape e term in Ok (e, term, None)
    else if b =? 0x15 then let '(e, term) := do_clear_line e term in Ok (e, term, None)
    else if b =? 3 then
      let '(e, term) := do_clear_line e term in Ok (e, write_str term [94; 67; 10], Some None)
    else if b =? 4 then Ok (e, term, if nonempty (le_buffer e) then None else Some None)
    else if is_ascii_graphic b || (b =? 32) then
      if (length (le_buffer e) <? le_max e)%nat then let '(e, term) := do_insert e b term in Ok (e, term, None)
      else Ok (e, term, None)
    else if b =? 9 then let? (e, term) := do_tab_complete completions e term in Ok (e, term, None)
    else Ok (e, term, None)
  end.

(** One byte read per unit of fuel; running out is [Panic]. *)
Fixpoint read_loop (fuel : nat) e term : result unit (LineEditor * T * option (list Z)) :=
  match fuel with
  | O => Panic
  | S fuel =>
    match read_step e term with
    | Ok (e, term, None) => read_loop fuel e term
    | Ok (e, term, Some None) => Ok (e, term, None)
    | Ok (e, term, Some (Some _)) =>
      let line := from_utf8_lossy (le_buffer e) in
      let '(e, term) := add_to_history e line term in
      Ok (e, term, Some line)
    | _ => Panic
    end
  end.

Definition read_line (fuel : nat) e term : result unit (LineEditor * T * option (list Z)) :=
  read_loop fuel (set_browsing (set_text e [] 0) None) term.
End ReadLine.

(** ** The screen

    A row of an ANSI terminal: text overwrites, a backspace moves the cursor left
    without erasing, and so does the sequence [ESC \[ D]. *)
Record Vt := mkVt { vt_row : list Z; vt_col : nat }.

Definition vt_byte (v : Vt) (b : Z) : Vt :=
  if b =? 8 then mkVt (vt_row v) (vt_col v - 1)
  else if b =? 10 then mkVt [] 0
  else mkVt (take (vt_col v) (vt_row v) ++ b :: drop (S (vt_col v)) (vt_row v)) (vt_col v + 1).

Definition vt_write (v : Vt) (s : list Z) : Vt :=
  if str_eqb s [0x1B; 91; 68] then mkVt (vt_row v) (vt_col v - 1) else foldl vt_byte v s.

#[export] Instance Vt_terminal : Terminal Vt := {|
  write_str := vt_write;
  set_stdin v _ := v;
  take_stdout v := (None, v);
  arm_pipe_stdout v := v;
  clear_pipe_stdin v := v
|}.

Definition printable (c : Z) : Prop := 32 <= c <= 126.
Definition blanks (n : nat) : list Z := replicate n 32.

(** The row shows the prompt, the two halves of the line and blanks, with the cursor
    between the halves. *)
Definition shows (p l r : list Z) (v : Vt) : Prop :=
  exists n, vt_row v = p ++ l ++ r ++ blanks n /\ vt_col v = (length p + length l)%nat.

Lemma printable_valid s : Forall printable s -> from_utf8 s = None.
Proof.
  unfold from_utf8. induction 1 as [|c s Hc Hs IH]; [done|]. cbn [length validate].
  assert (first_item c s = UChar 1) as ->.
  { unfold first_item, in_range. unfold printable in Hc. by rewrite !(proj2 (Z.leb_le _ _)) by lia. }
  change (drop 1 (c :: s)) with s. by rewrite IH.
Qed.

Lemma str_or_q_printable s : Forall printable s -> str_or_q s = s.
Proof. intros Hs. unfold str_or_q. by rewrite printable_valid. Qed.

Lemma str_eqb_neq a b : a <> b -> str_eqb a b = false.
Proof.
  revert b. induction a as [|x a IH]; intros [|y b] Hne; cbn; try done.
  destruct (Z.eqb_spec x y) as [->|]; [|done]. apply IH. congruence.
Qed.

Lemma printable_blank : Forall printable [32].
Proof. apply Forall_singleton. unfold printable. lia. Qed.

(** Writing printable text over the row. *)
Lemma vt_text s : Forall printable s -> forall a b k, length a = k ->
  foldl vt_byte (mkVt (a ++ b) k) s = mkVt (a ++ s ++ drop (length s) b) (k + length s).
Proof.
  induction 1 as [|c s Hc _ IH]; intros a b k Hk; cbn [foldl length].
  { by rewrite drop_0, Nat.add_0_r. }
  assert (vt_byte (mkVt (a ++ b) k) c = mkVt ((a ++ [c]) ++ drop 1 b) (k + 1)) as ->.
  { unfold printable in Hc. unfold vt_byte. rewrite !(proj2 (Z.eqb_neq _ _)) by lia. cbn [vt_row vt_col].
    rewrite take_app_length' by done. rewrite drop_app_ge by lia. rewrite <- app_assoc.
    by replace (S k - length a)%nat with 1%nat by lia. }
  rewrite IH by (rewrite length_app; cbn; lia). rewrite drop_drop, <- app_assoc. cbn [app Nat.add].
  f_equal. lia.
Qed.

Lemma vt_write_text s a b k : Forall printable s -> length a = k ->
  write_str (mkVt (a ++ b) k) s = mkVt (a ++ s ++ drop (length s) b) (k + length s).
Proof.
  intros Hs Hk. cbn. unfold vt_write. rewrite str_eqb_neq; [by apply vt_text|].
  intros ->. apply Forall_cons in Hs as [Hx _]. unfold printable in Hx. lia.
Qed.

Lemma write_n_bs row n k : write_n (mkVt row k) n BS = mkVt row (k - n).
Proof.
  revert k. induction n as [|n IH]; intros k; [by rewrite Nat.sub_0_r|].
  unfold write_n, write_all in *. cbn [replicate foldl].
  change (write_str (mkVt row k) BS) with (mkVt row (k - 1)). rewrite IH. f_equal. lia.
Qed.

Lemma write_n_blank a b n k : length a = k ->
  write_n (mkVt (a ++ b) k) n [32] = mkVt (a ++ blanks n ++ drop n b) (k + n).
Proof.
  revert a b k. induction n as [|n IH]; intros a b k Hk; [by rewrite Nat.add_0_r, drop_0|].
  unfold write_n, write_all in *. cbn [replicate foldl].
  rewrite vt_write_text by (done || apply printable_blank). cbn [length]. rewrite app_assoc.
  rewrite IH by (rewrite length_app; cbn; lia). rewrite drop_drop, <- app_assoc. cbn. f_equal. lia.
Qed.

Lemma drop_blanks k n : drop k (blanks n) = blanks (n - k).
Proof. unfold blanks. by rewrite drop_replicate. Qed.

(** ** The line split at the cursor *)
Inductive edit_op := OpInsert (c : Z) | OpBackspace | OpDelete | OpLeft | OpRight | OpHome | OpEnd | OpClear.

Definition edit_spec (z : list Z * list Z) (o : edit_op) : list Z * list Z :=
  let '(l, r) := z in
  match o with
  | OpInsert c => (l ++ [c], r)
  | OpBackspace => (take (length l - 1) l, r)
  | OpDelete => (l, drop 1 r)
  | OpLeft => (take (length l - 1) l, drop (length l - 1) l ++ r)
  | OpRight => (l ++ take 1 r, drop 1 r)
  | OpHome => ([], l ++ r)
  | OpEnd => (l ++ r, [])
  | OpClear => ([], [])
  end.

Definition edit_apply {T} `{Terminal T} (o : edit_op) (e : LineEditor) (term : T) : result unit (LineEditor * T) :=
  match o with
  | OpInsert c => Ok (do_insert e c term)
  | OpBackspace => do_backspace e term
  | OpDelete => do_delete e term
  | OpLeft => Ok (do_cursor_left e term)
  | OpRight => Ok (do_cursor_right e term)
  | OpHome => Ok (do_home e term)
  | OpEnd => Ok (do_end e term)
  | OpClear => Ok (do_clear_line e term)
  end.

Fixpoint edit_run {T} `{Terminal T} (ops : list edit_op) (e : LineEditor) (term : T) : result unit (LineEditor * T) :=
  match ops with
  | [] => Ok (e, term)
  | o :: ops => let? (e, term) := edit_apply o e term in edit_run ops e term
  end.

(** The editor holds the split line and the screen shows it after the prompt. *)
Definition edit_rel (p : list Z) (z : list Z * list Z) (e : LineEditor) (v : Vt) : Prop :=
  le_buffer e = z.1 ++ z.2 /\ le_cursor e = length z.1
  /\ Forall printable z.1 /\ Forall printable z.2 /\ shows p z.1 z.2 v.

Section Refinement.
Variable p : list Z.
Implicit Types (e : LineEditor) (v : Vt) (l r : list Z).

(** A row with the cursor after [p ++ l]. *)
Lemma shows_row l r v : shows p l r v ->
  exists n, v = mkVt ((p ++ l) ++ r ++ blanks n) (length (p ++ l)).
Proof.
  intros (n & Hr & Hc). exists n. destruct v as [row col]. cbn in *. subst.
  by rewrite length_app, <- app_assoc.
Qed.

Lemma row_shows l r n : shows p l r (mkVt ((p ++ l) ++ r ++ blanks n) (length (p ++ l))).
Proof. exists n. cbn. by rewrite length_app, <- app_assoc. Qed.

Lemma shows_left l x r v : shows p (l ++ [x]) r v -> shows p l (x :: r) (write_str v BS).
Proof.
  intros (n & Hr & Hc). exists n. destruct v as [row col]. cbn in *. subst.
  rewrite length_app. cbn. split; [by rewrite <- app_assoc|lia].
Qed.

Lemma shows_insert l c r v : printable c -> Forall printable r -> shows p l r v ->
  shows p (l ++ [c]) r (write_n (write_str v (c :: r)) (length r) BS).
Proof.
  intros Hc Hr (n & ->)%shows_row. rewrite vt_write_text by (done || by apply Forall_cons).
  rewrite write_n_bs. cbn [length]. rewrite drop_app_ge by lia.
  replace (S (length r) - length r)%nat with 1%nat by lia. rewrite drop_blanks. exists (n - 1)%nat. cbn.
  rewrite !length_app. cbn. split; [by rewrite <- !app_assoc|lia].
Qed.

(** Redrawing after a removal. *)
Lemma shows_redraw l x r v : Forall printable r -> shows p l (x :: r) v -> shows p l r (redraw_tail v r).
Proof.
  intros Hr (n & ->)%shows_row. unfold redraw_tail. cbv zeta.
  rewrite write_n_blank, write_n_bs, str_or_q_printable by done.
  assert (drop (length r + 1) ((x :: r) ++ blanks n) = blanks n) as ->.
  { rewrite drop_app_ge by (cbn; lia). cbn [length].
    replace (length r + 1 - S (length r))%nat with 0%nat by lia. apply drop_0. }
  rewrite Nat.add_sub, vt_write_text by done.
  rewrite write_n_bs, Nat.add_sub, drop_app_le by (unfold blanks; rewrite length_replicate; lia).
  rewrite drop_blanks. replace (length r + 1 - length r)%nat with 1%nat by lia.
  apply (row_shows l r (1 + n)).
Qed.

Lemma shows_right l x r v : printable x -> shows p l (x :: r) v -> shows p (l ++ [x]) r (write_str v [x]).
Proof.
  intros Hx (n & ->)%shows_row. rewrite vt_write_text by (done || by apply Forall_singleton).
  exists n. cbn. rewrite !length_app. cbn. split; [by rewrite <- !app_assoc|lia].
Qed.

Lemma left_rel l x r e v : edit_rel p (l ++ [x], r) e v ->
  let '(e', v') := do_cursor_left e v in edit_rel p (l, x :: r) e' v' .
Proof.
  intros (Hb & Hc & Hl & Hr & Hs). cbn in *. unfold do_cursor_left. rewrite Hc, length_app.
  rewrite (proj2 (Nat.ltb_lt _ _)) by (cbn; lia). apply Forall_app in Hl as [Hl Hx].
  rewrite Forall_singleton in Hx. split; [cbn; by rewrite Hb, <- app_assoc|].
  split; [cbn; lia|]. split; [done|]. split; [cbn; by apply Forall_cons|]. by apply shows_left.
Qed.

Lemma right_rel l x r e v : edit_rel p (l, x :: r) e v ->
  let '(e', v') := do_cursor_right e v in edit_rel p (l ++ [x], r) e' v'.
Proof.
  intros (Hb & Hc & Hl & Hr & Hs). cbn in *. unfold do_cursor_right.
  rewrite Hb, Hc, lookup_app_r, Nat.sub_diag by lia. cbn. apply Forall_cons in Hr as [Hx Hr].
  rewrite str_or_q_printable by (by apply Forall_singleton).
  split; [cbn; by rewrite <- app_assoc|]. split; [cbn; rewrite length_app; cbn; lia|].
  split; [apply Forall_app; split; [done|by apply Forall_singleton]|]. split; [done|]. by apply shows_right.
Qed.

Lemma home_rel l : forall r e v, edit_rel p (l, r) e v ->
  let '(e', v') := repeat_op (length l) do_cursor_left e v in edit_rel p ([], l ++ r) e' v'.
Proof.
  induction l as [|x l IH] using rev_ind; intros r e v Hrel; [done|].
  rewrite length_app, Nat.add_1_r. cbn [repeat_op]. pose proof (left_rel l x r e v Hrel) as H1.
  destruct (do_cursor_left e v) as [e1 v1]. rewrite <- app_assoc. by apply IH.
Qed.

Lemma end_rel r : forall l e v, edit_rel p (l, r) e v ->
  let '(e', v') := repeat_op (length r) do_cursor_right e v in edit_rel p (l ++ r, []) e' v'.
Proof.
  induction r as [|x r IH]; intros l e v Hrel; [by rewrite app_nil_r|].
  cbn [length repeat_op]. pose proof (right_rel l x r e v Hrel) as H1.
  destruct (do_cursor_right e v) as [e1 v1]. rewrite cons_middle, app_assoc. by apply IH.
Qed.

Lemma erase_rel z e v : edit_rel p z e v ->
  let '(e', v') := erase_line e v in edit_rel p ([], []) e' v'.
Proof.
  destruct z as [l r]. intros Hrel. unfold erase_line, do_home.
  pose proof Hrel as (Hb & Hc & _). cbn [fst snd] in Hb, Hc. rewrite Hc.
  pose proof (home_rel l r e v Hrel) as H1. destruct (repeat_op _ _ e v) as [e1 v1].
  destruct H1 as (_ & _ & _ & _ & (n & Hv)%shows_row). cbn [fst snd] in Hv. subst v1.
  rewrite app_nil_r, write_n_blank, write_n_bs, Hb, Nat.add_sub by done.
  rewrite drop_app_ge, Nat.sub_diag, drop_0 by lia.
  split; [done|]. split; [done|]. split; [constructor|]. split; [constructor|].
  exists (length (l ++ r) + n)%nat. cbn. rewrite Nat.add_0_r. split; [|done].
  unfold blanks. by rewrite replicate_add.
Qed.

Lemma take_pred_snoc l (x : Z) : take (length (l ++ [x]) - 1) (l ++ [x]) = l.
Proof. rewrite length_app. cbn. rewrite Nat.add_sub. by rewrite take_app_length. Qed.

Lemma drop_pred_snoc l (x : Z) : drop (length (l ++ [x]) - 1) (l ++ [x]) = [x].
Proof. rewrite length_app. cbn. rewrite Nat.add_sub. by rewrite drop_app_length. Qed.

Lemma vec_remove_middle l x r : vec_remove (l ++ x :: r) (length l) = Some (l ++ r).
Proof.
  unfold vec_remove. rewrite (proj2 (Nat.ltb_lt _ _)), delete_middle; [done|].
  rewrite length_app. cbn. lia.
Qed.

Definition op_printable (o : edit_op) : Prop := match o with OpInsert c => printable c | _ => True end.

Lemma insert_rel l r c e v : printable c -> edit_rel p (l, r) e v ->
  let '(e', v') := do_insert e c v in edit_rel p (l ++ [c], r) e' v'.
Proof.
  intros Ho (Hb & Hc & Hl & Hr & Hs). cbn [fst snd] in *.
  assert (Hins : Forall printable (l ++ [c])) by (apply Forall_app; split; [done|by apply Forall_singleton]).
  unfold do_insert. rewrite Hb, Hc, length_app. destruct r as [|y r].
  - rewrite (proj2 (Nat.leb_le _ _)) by (cbn; lia). rewrite str_or_q_printable by (by apply Forall_singleton).
    split; [cbn; by rewrite !app_nil_r|]. split; [cbn; by rewrite app_nil_r|]. split; [done|]. split; [done|].
    exact (shows_insert l c [] v Ho Hr Hs).
  - rewrite (proj2 (Nat.leb_gt _ _)) by (cbn; lia). cbv zeta.
    rewrite take_app_length, drop_app_length, drop_app_length.
    rewrite str_or_q_printable by (by apply Forall_cons). cbn [length]. rewrite Nat.sub_succ, Nat.sub_0_r.
    split; [cbn; by rewrite <- app_assoc|]. split; [cbn; rewrite length_app; cbn; lia|].
    split; [done|]. split; [done|]. exact (shows_insert l c (y :: r) v Ho Hr Hs).
Qed.

Lemma backspace_rel l x r e v : edit_rel p (l ++ [x], r) e v ->
  exists e' v', do_backspace e v = Ok (e', v') /\ edit_rel p (l, r) e' v'.
Proof.
  intros (Hb & Hc & Hl & Hr & Hs). cbn [fst snd] in *. unfold do_backspace.
  rewrite Hc, (proj2 (Nat.eqb_neq _ _)) by (rewrite length_app; cbn; lia).
  rewrite length_app, Nat.add_sub, Hb, <- app_assoc. cbn [app]. rewrite vec_remove_middle.
  do 2 eexists. split; [done|]. rewrite drop_app_length. apply Forall_app in Hl as [Hl _].
  split; [done|]. split; [done|]. split; [done|]. split; [done|].
  apply shows_redraw with x; [done|]. by apply shows_left.
Qed.

Lemma delete_rel l y r e v : edit_rel p (l, y :: r) e v ->
  exists e' v', do_delete e v = Ok (e', v') /\ edit_rel p (l, r) e' v'.
Proof.
  intros (Hb & Hc & Hl & Hr & Hs). cbn [fst snd] in *. unfold do_delete.
  rewrite Hb, Hc, length_app, (proj2 (Nat.leb_gt _ _)) by (cbn; lia). rewrite vec_remove_middle.
  do 2 eexists. split; [done|]. rewrite drop_app_length. apply Forall_cons in Hr as [_ Hr].
  split; [done|]. split; [done|]. split; [done|]. split; [done|]. by apply shows_redraw with y.
Qed.

Lemma edit_step_rel z o e v : edit_rel p z e v -> op_printable o ->
  exists e' v', edit_apply o e v = Ok (e', v') /\ edit_rel p (edit_spec z o) e' v'.
Proof.
  destruct z as [l r]. intros Hrel Ho. pose proof Hrel as (Hb & Hc & _). cbn [fst snd] in Hb, Hc.
  destruct o as [c| | | | | | |]; cbn [edit_apply edit_spec op_printable] in *.
  - pose proof (insert_rel l r c e v Ho Hrel) as H1. destruct (do_insert e c v) as [e1 v1]. eauto.
  - destruct l as [|x l _] using rev_ind; [|rewrite take_pred_snoc; by apply backspace_rel with x].
    exists e, v. split; [|done]. unfold do_backspace. by rewrite Hc.
  - destruct r as [|y r]; [|by apply delete_rel with y].
    exists e, v. split; [|done]. unfold do_delete. rewrite Hb, Hc, length_app.
    by rewrite (proj2 (Nat.leb_le _ _)) by (cbn; lia).
  - destruct l as [|x l _] using rev_ind.
    + exists e, v. split; [|done]. unfold do_cursor_left. by rewrite Hc.
    + pose proof (left_rel l x r e v Hrel) as H1. destruct (do_cursor_left e v) as [e1 v1].
      exists e1, v1. split; [done|]. by rewrite take_pred_snoc, drop_pred_snoc.
  - destruct r as [|y r].
    + exists e, v. split; [|by rewrite !app_nil_r]. unfold do_cursor_right.
      by rewrite Hb, Hc, app_nil_r, lookup_ge_None_2.
    + pose proof (right_rel l y r e v Hrel) as H1. destruct (do_cursor_right e v) as [e1 v1]. eauto.
  - unfold do_home. rewrite Hc. pose proof (home_rel l r e v Hrel) as H1.
    destruct (repeat_op _ _ e v) as [e1 v1]. eauto.
  - unfold do_end. rewrite Hb, Hc, length_app, Nat.add_comm, Nat.add_sub.
    pose proof (end_rel r l e v Hrel) as H1. destruct (repeat_op _ _ e v) as [e1 v1]. eauto.
  - unfold do_clear_line. pose proof (erase_rel _ e v Hrel) as H1.
    destruct (erase_line e v) as [e1 v1]. eauto.
Qed.

End Refinement.


(** ** Reading a typed line *)

(** What the editor relies on: the bytes waiting on the terminal are read in order, and
    output does not disturb them. *)
Class LawfulInput (T : Type) `{Terminal T, TermInput T} := {
  pending : T -> list Z;
  pending_read t b s : pending t = b :: s -> exists t', read_byte t = (Some b, t') /\ pending t' = s;
  pending_write t s : pending (write_str t s) = pending t;
  pending_history t s : pending (record_history t s) = pending t
}.

(** The history after a line was entered. *)
Definition history_spec (h : list (list Z)) (line : list Z) : list (list Z) :=
  if decide (line = [] \/ head h = Some line) then h else take HISTORY_MAX (line :: h).

Section Typed.
Context {T : Type} `{LawfulInput T}.
Variable completions : list Z -> list (list Z).
Implicit Types (e : LineEditor) (term : T).

Lemma str_eqb_eq a b : str_eqb a b = bool_decide (a = b).
Proof.
  destruct (decide (a = b)) as [->|Hne]; [|by rewrite str_eqb_neq, bool_decide_false].
  rewrite bool_decide_true by done. induction b as [|x b IH]; [done|]. cbn. by rewrite Z.eqb_refl.
Qed.

Lemma add_to_history_spec e line term : (length (le_history e) <= HISTORY_MAX)%nat ->
  let '(e', term') := add_to_history e line term in
  le_history e' = history_spec (le_history e) line /\ pending term' = pending term.
Proof.
  intros Hlen. unfold add_to_history, history_spec. destruct line as [|c line]; [cbn; by rewrite decide_True by (by left)|].
  cbn [nonempty negb]. destruct (le_history e) as [|h hs] eqn:Eh.
  - rewrite decide_False by (by intros [?|?]). cbn. by rewrite pending_history.
  - rewrite str_eqb_eq. case_bool_decide as Heq.
    + subst h. by rewrite decide_True, Eh by (by right).
    + rewrite decide_False by (intros [?|[= ?]]; done). split; [|apply pending_history]. cbn [le_history set_history].
      destruct (Nat.leb_spec HISTORY_MAX (length (h :: hs))).
      * replace (length (h :: hs)) with HISTORY_MAX by lia. done.
      * by rewrite take_ge by (cbn in *; lia).
Qed.

Lemma read_step_char e term c s : printable c -> pending term = c :: s ->
  le_cursor e = length (le_buffer e) ->
  exists term', pending term' = s /\ read_step completions e term =
    Ok (if (length (le_buffer e) <? le_max e)%nat then set_text e (le_buffer e ++ [c]) (length (le_buffer e) + 1) else e,
        term', None).
Proof.
  intros Hc Hp Hcur. destruct (pending_read _ _ _ Hp) as (t1 & Hr & Hp1).
  unfold read_step. rewrite Hr. unfold printable in Hc. rewrite !(proj2 (Z.eqb_neq c _)) by lia. cbn [orb].
  assert (is_ascii_graphic c || (c =? 32) = true) as E.
  { unfold is_ascii_graphic, in_range. destruct (Z.eqb_spec c 32); [by rewrite orb_true_r|].
    by rewrite !(proj2 (Z.leb_le _ _)) by lia. }
  destruct (Z.eqb_spec c 32); cbn [orb] in E |- *; rewrite ?E, ?orb_true_r.
  all: destruct (length (le_buffer e) <? le_max e)%nat; [|by exists t1].
  all: unfold do_insert; rewrite Hcur, Nat.leb_refl; cbv zeta; rewrite length_app; cbn [length].
  all: eexists; split; [by rewrite pending_write|done].
Qed.

(** The loop over typed characters, from a line with the cursor at its end. *)
Lemma read_loop_typed s : Forall printable s -> forall e term,
  pending term = s ++ [10] -> Forall printable (le_buffer e) -> le_cursor e = length (le_buffer e) ->
  (length (le_buffer e) <= le_max e)%nat -> (length (le_history e) <= HISTORY_MAX)%nat ->
  let line := take (le_max e) (le_buffer e ++ s) in
  exists e' term', read_loop completions (length s + 1) e term = Ok (e', term', Some line)
  /\ pending term' = [] /\ le_history e' = history_spec (le_history e) line.
Proof.
  induction 1 as [|c s Hc Hs IH]; intros e term Hp Hb Hcur Hle Hh; cbn [length Nat.add app read_loop] in *.
  - destruct (pending_read _ _ _ Hp) as (t1 & Hr & Hp1). unfold read_step. rewrite Hr. cbn [Z.eqb orb Pos.eqb].
    rewrite app_nil_r, take_ge by done. rewrite from_utf8_lossy_valid by (by apply printable_valid).
    pose proof (add_to_history_spec e (le_buffer e) (write_str t1 [10]) Hh) as Ha.
    destruct (add_to_history _ _ _) as [e2 t2]. destruct Ha as [Ha1 Ha2]. rewrite pending_write in Ha2.
    exists e2, t2. split; [done|]. by rewrite Ha2.
  - destruct (read_step_char e term c _ Hc Hp Hcur) as (t1 & Hp1 & ->).
    destruct (Nat.ltb_spec (length (le_buffer e)) (le_max e)).
    + edestruct (IH (set_text e (le_buffer e ++ [c]) (length (le_buffer e) + 1)) t1) as (e' & t' & E & Q1 & Q2);
        cbn [set_text le_buffer le_cursor le_max le_history] in *;
        [done| |rewrite length_app; cbn; lia|rewrite length_app; cbn; lia|done|].
      { apply Forall_app; split; [done|by apply Forall_singleton]. }
      rewrite <- app_assoc in E, Q2. eauto.
    + destruct (IH e t1) as (e' & t' & E & Q1 & Q2); [done..|].
      rewrite !take_app_le in * by lia. eauto.
Qed.

(** Reading a line: when printable characters and a newline are waiting on the
    terminal, [read_line] reads exactly these, and returns the characters up to the
    capacity of the editor, whatever the editor held before; the line enters the history
    unless it is empty or the newest entry, and the history keeps its newest 128 lines. *)
Theorem read_line_typed e term s :
  Forall printable s -> pending term = s ++ [10] -> (length (le_history e) <= HISTORY_MAX)%nat ->
  let line := take (le_max e) s in
  exists e' term', read_line completions (length s + 1) e term = Ok (e', term', Some line)
  /\ pending term' = [] /\ le_history e' = history_spec (le_history e) line.
Proof.
  intros Hs Hp Hh. apply (read_loop_typed s Hs (set_browsing (set_text e [] 0) None) term Hp);
    cbn; [constructor|done|lia|done].
Qed.
End Typed.

(** A terminal with scripted input and the screen of a row. *)
Record Scripted := mkScripted { sc_input : list Z; sc_screen : Vt; sc_recorded : list (list Z) }.

#[export] Instance Scripted_terminal : Terminal Scripted := {|
  write_str t s := mkScripted (sc_input t) (vt_write (sc_screen t) s) (sc_recorded t);
  set_stdin t _ := t;
  take_stdout t := (None, t);
  arm_pipe_stdout t := t;
  clear_pipe_stdin t := t
|}.

#[export] Instance Scripted_input : TermInput Scripted := {|
  read_byte t := match sc_input t with
                 | [] => (None, t)
                 | b :: s => (Some b, mkScripted s (sc_screen t) (sc_recorded t))
                 end;
  input_available t := nonempty (sc_input t);
  spin t := t;
  record_history t s := mkScripted (sc_input t) (sc_screen t) (s :: sc_recorded t)
|}.

#[export, refine] Instance Scripted_lawful : LawfulInput Scripted := {| pending := sc_input |}.
Proof.
  - intros [i scr h] b s Hp. cbn in *. subst i. by eexists.
  - done.
  - done.
Defined.

Lemma read_line_typed_witness :
  exists e' term',
    read_line (fun _ => []) 4 (editor_with_capacity 2) (mkScripted [97; 98; 99; 10] (mkVt [] 0) [])
    = Ok (e', term', Some [97; 98])
  /\ sc_input term' = [] /\ le_history e' = [[97; 98]].
Proof.
  destruct (read_line_typed (fun _ => []) (editor_with_capacity 2)
              (mkScripted [97; 98; 99; 10] (mkVt [] 0) []) [97; 98; 99]) as (e' & term' & E & Hp & Hh).
  - repeat (apply Forall_cons; split; [unfold printable; lia|]). apply Forall_nil. exact I.
  - reflexivity.
  - cbn. lia.
  - exists e', term'. split; [exact E|]. split; [exact Hp|]. rewrite Hh. vm_compute. reflexivity.
Defined.

(** ** The editor on the terminal buffer

    [LatticeTerminal] hands the editor's output to [TerminalBuffer::put_str]. *)
#[export] Instance buffer_terminal : Terminal (result unit TerminalBuffer) := {|
  write_str rt s := let? t := rt in put_str t s;
  set_stdin rt _ := rt;
  take_stdout rt := (None, rt);
  arm_pipe_stdout rt := rt;
  clear_pipe_stdin rt := rt
|}.

(** Moving the cursor left erases what is shown: [TerminalBuffer::backspace] stores a
    blank where the editor only means to move.  After typing "abc" and moving left the
    line is still "abc" and the screen shows "ab". *)
Theorem cursor_left_erases_screen :
  exists e t, edit_run [OpInsert 97; OpInsert 98; OpInsert 99; OpLeft] editor_new (Ok (term_new 8 2)) = Ok (e, Ok t)
  /\ le_buffer e = [97; 98; 99] /\ le_cursor e = 2%nat
  /\ take 4 (ce_ch <$> cells t) = [97; 98; 32; 32].
Proof. do 2 eexists. repeat split. Qed.

(** Completion inserts past the capacity that typing respects. *)
Theorem tab_completion_exceeds_capacity :
  exists e term,
    read_line (fun prefix => get_completions_for prefix [mkNamed (of_string "echo") [] (fun _ (t : Scripted) => (true, t))])
      4 (editor_with_capacity 3) (mkScripted [101; 99; 9; 10] (mkVt [] 0) []) = Ok (e, term, Some (of_string "echo"))
  /\ le_max e = 3%nat.
Proof. do 2 eexists. split; reflexivity. Qed.

(** A prefix typed in capitals completes to a name that is not the command's. *)
Theorem tab_completion_keeps_case :
  exists e term,
    read_line (fun prefix => get_completions_for prefix [mkNamed (of_string "echo") [] (fun _ (t : Scripted) => (true, t))])
      4 editor_new (mkScripted [69; 67; 9; 10] (mkVt [] 0) []) = Ok (e, term, Some (of_string "ECho")).
Proof. do 2 eexists. reflexivity. Qed.
