(* ===== verification/Net.v ===== *)
(** * The network stack

    [bonder/src/ethernet.rs], [ipv4.rs], [udp.rs]: construction of frames, packets and
    datagrams with the Internet checksum; [bonder/src/logger.rs]: the log backend that
    stacks the three layers; the trait [NetDevice] of [bonder/src/lib.rs] is a class. *)

From S2P Require Import Prelude Rings Terminal.

(** ** Bytes *)
Definition byte (b : Z) : Prop := 0 <= b < 256.
Abbreviation bytes := (Forall byte).

(** [u16::to_be_bytes], [u16::from_be_bytes] and, on a little-endian target, [u16::to_be]. *)
Definition to_be_bytes16 (x : Z) : list Z := [Z.shiftr x 8 mod 256; x mod 256].
Definition from_be_bytes16 (a b : Z) : Z := a * 256 + b.
Definition to_be16 (x : Z) : Z := from_be_bytes16 (x mod 256) (Z.shiftr x 8 mod 256).

(** [buf[off..off + len].copy_from_slice(data)]. *)
Definition put (buf : list Z) (off len : Z) (data : list Z) : result unit (list Z) :=
  match copy_from_slice buf off len data with Some b => Ok b | None => Panic end.

(** ** Ethernet *)
Inductive EtherType := EtherIpv4 | EtherArp.

Definition ethertype_from_u16 (v : Z) : option EtherType :=
  if v =? 0x0800 then Some EtherIpv4 else if v =? 0x0806 then Some EtherArp else None.
Definition ethertype_to_u16 (e : EtherType) : Z := match e with EtherIpv4 => 0x0800 | EtherArp => 0x0806 end.

Record EthernetHeader := mkEth { eh_dst : list Z; eh_src : list Z; eh_type : Z }.
Definition ETH_SIZE : Z := 14.

Definition eth_write_to (h : EthernetHeader) (buf : list Z) : result unit (list Z) :=
  let? buf := put buf 0 6 (eh_dst h) in
  let? buf := put buf 6 6 (eh_src h) in
  let? buf := put buf 12 1 [Z.shiftr (eh_type h) 8 mod 256] in
  put buf 13 1 [eh_type h mod 256].

(** The result and the destination buffer. *)
Definition build_frame (dst_mac src_mac : list Z) (ethertype : EtherType) (payload dst : list Z)
    : result unit (option Z * list Z) :=
  let total := ETH_SIZE + zlen payload in
  if zlen dst <? total then Ok (None, dst) else
  let? dst := put dst 0 6 dst_mac in
  let? dst := put dst 6 6 src_mac in
  let et := ethertype_to_u16 ethertype in
  let? dst := put dst 12 1 [Z.shiftr et 8 mod 256] in
  let? dst := put dst 13 1 [et mod 256] in
  let? dst := put dst 14 (total - 14) payload in
  Ok (Some total, dst).

(** ** IPv4 *)
Inductive IpProtocol := Icmp | Tcp | Udp.

Definition protocol_from_u8 (v : Z) : option IpProtocol :=
  if v =? 1 then Some Icmp else if v =? 6 then Some Tcp else if v =? 17 then Some Udp else None.
Definition protocol_to_u8 (p : IpProtocol) : Z := match p with Icmp => 1 | Tcp => 6 | Udp => 17 end.

(** [str::parse::<u8>]: an optional plus sign and digits. *)
Definition parse_u8 (s : list Z) : option Z :=
  let digits := match s with 43 :: r => r | _ => s end in
  match digits with
  | [] => None
  | _ => if forallb is_digit digits then
           let n := foldl (fun n c => n * 10 + (c - 48)) 0 digits in if n <=? u8_max then Some n else None
         else None
  end.

(** [Ipv4Addr::parse], on [s.split('.')]. *)
Definition ipv4_parse (s : list Z) : option (list Z) :=
  match split_on 46 s with
  | a :: b :: c :: d :: rest =>
    a ← parse_u8 a; b ← parse_u8 b; c ← parse_u8 c; d ← parse_u8 d;
    if (length (split_on 46 s) =? 4)%nat then Some [a; b; c; d] else None
  | _ => None
  end.

Record Ipv4Header := mkIpv4 {
  ver_ihl : Z;
  dscp_ecn : Z;
  total_length : Z;
  identification : Z;
  flags_frag : Z;
  ttl : Z;
  protocol : Z;
  header_checksum : Z;
  src_addr : list Z;
  dst_addr : list Z
}.
Definition IPV4_SIZE : Z := 20.

Definition ipv4_new (total_length identification ttl : Z) (protocol : IpProtocol) (src dst : list Z) : Ipv4Header :=
  mkIpv4 0x45 0 total_length identification 0 ttl (protocol_to_u8 protocol) 0 src dst.

Definition set_header_checksum (h : Ipv4Header) (c : Z) : Ipv4Header :=
  mkIpv4 (ver_ihl h) (dscp_ecn h) (total_length h) (identification h) (flags_frag h) (ttl h) (protocol h) c
    (src_addr h) (dst_addr h).

Definition ipv4_write_to (h : Ipv4Header) (buf : list Z) : result unit (list Z) :=
  let? buf := put buf 0 1 [ver_ihl h] in
  let? buf := put buf 1 1 [dscp_ecn h] in
  let? buf := put buf 2 2 (to_be_bytes16 (total_length h)) in
  let? buf := put buf 4 2 (to_be_bytes16 (identification h)) in
  let? buf := put buf 6 2 (to_be_bytes16 (flags_frag h)) in
  let? buf := put buf 8 1 [ttl h] in
  let? buf := put buf 9 1 [protocol h] in
  let? buf := put buf 10 2 (to_be_bytes16 (header_checksum h)) in
  let? buf := put buf 12 4 (src_addr h) in
  put buf 16 4 (dst_addr h).

(** [u32] additions panic on overflow. *)
Definition u32_add (a b : Z) : result unit Z := if a + b <=? u32_max then Ok (a + b) else Panic.

(** The loop over 16-bit words: the sum and what is left of the data, at most a byte. *)
Fixpoint word_loop (data : list Z) (sum : Z) : result unit (Z * list Z) :=
  match data with
  | a :: b :: rest => let? sum := u32_add sum (from_be_bytes16 a b) in word_loop rest sum
  | rest => Ok (sum, rest)
  end.
(** The last byte of an odd length, zero-padded. *)
Definition add_tail (sum : Z) (rest : list Z) : result unit Z :=
  match rest with b :: _ => u32_add sum (Z.shiftl b 8) | [] => Ok sum end.

(** [while sum >> 16 != 0]; a [u32] folds at most twice. *)
Fixpoint fold_carry (fuel : nat) (sum : Z) : result unit Z :=
  match fuel with
  | O => Panic
  | S fuel =>
    if Z.shiftr sum 16 =? 0 then Ok sum
    else let? sum := u32_add (Z.land sum 0xFFFF) (Z.shiftr sum 16) in fold_carry fuel sum
  end.

(** [!(sum as u16)]. *)
Definition not16 (sum : Z) : Z := 0xFFFF - sum mod 2 ^ 16.

Definition checksum (data : list Z) : result unit Z :=
  let? (sum, rest) := word_loop data 0 in
  let? sum := add_tail sum rest in
  let? sum := fold_carry 3 sum in
  Ok (not16 sum).

Definition build_packet (src dst_addr : list Z) (protocol : IpProtocol) (identification ttl : Z) (payload dst : list Z)
    : result unit (option Z * list Z) :=
  let total := IPV4_SIZE + zlen payload in
  if (zlen dst <? total) || (u16_max <? total) then Ok (None, dst) else
  let hdr := ipv4_new total identification ttl protocol src dst_addr in
  let? hdr_buf := ipv4_write_to hdr (replicate 20 0) in
  let? cs := checksum hdr_buf in
  let hdr := set_header_checksum hdr (to_be16 cs) in
  let? dst := ipv4_write_to hdr dst in
  let? dst := put dst IPV4_SIZE (total - IPV4_SIZE) payload in
  Ok (Some total, dst).

(** ** UDP *)
Record UdpHeader := mkUdp { uh_src_port : Z; uh_dst_port : Z; uh_length : Z; uh_checksum : Z }.
Definition UDP_SIZE : Z := 8.

Definition udp_new (src_port dst_port payload_len : Z) : UdpHeader :=
  mkUdp src_port dst_port ((UDP_SIZE + payload_len) mod 2 ^ 16) 0.
Definition set_udp_checksum (h : UdpHeader) (c : Z) : UdpHeader :=
  mkUdp (uh_src_port h) (uh_dst_port h) (uh_length h) c.

Definition udp_write_to (h : UdpHeader) (buf : list Z) : result unit (list Z) :=
  let? buf := put buf 0 2 (to_be_bytes16 (uh_src_port h)) in
  let? buf := put buf 2 2 (to_be_bytes16 (uh_dst_port h)) in
  let? buf := put buf 4 2 (to_be_bytes16 (uh_length h)) in
  put buf 6 2 (to_be_bytes16 (uh_checksum h)).

Record PseudoHeader := mkPseudo { ph_src : list Z; ph_dst : list Z; ph_zero : Z; ph_protocol : Z; ph_length : Z }.
Definition PSEUDO_SIZE : Z := 12.

Definition pseudo_write_to (h : PseudoHeader) (buf : list Z) : result unit (list Z) :=
  let? buf := put buf 0 4 (ph_src h) in
  let? buf := put buf 4 4 (ph_dst h) in
  let? buf := put buf 8 1 [ph_zero h] in
  let? buf := put buf 9 1 [ph_protocol h] in
  put buf 10 2 (to_be_bytes16 (ph_length h)).

Definition udp_checksum (src dst : list Z) (src_port dst_port : Z) (payload : list Z) : result unit Z :=
  let total_len := UDP_SIZE + zlen payload in
  let pseudo := mkPseudo src dst 0 (protocol_to_u8 Udp) (total_len mod 2 ^ 16) in
  let? pseudo_buf := pseudo_write_to pseudo (replicate 12 0) in
  let? hdr_buf := udp_write_to (udp_new src_port dst_port (zlen payload)) (replicate 8 0) in
  let? (sum, _) := word_loop pseudo_buf 0 in
  let? (sum, _) := word_loop hdr_buf sum in
  let? (sum, rest) := word_loop payload sum in
  let? sum := add_tail sum rest in
  let? sum := fold_carry 3 sum in
  let cs := not16 sum in
  Ok (if cs =? 0 then 0xFFFF else cs).

Definition build_datagram (src dst_addr : list Z) (src_port dst_port : Z) (payload dst : list Z)
    : result unit (option Z * list Z) :=
  let total := UDP_SIZE + zlen payload in
  if u16_max <? total then Ok (None, dst) else
  if zlen dst <? total then Ok (None, dst) else
  let? cs := udp_checksum src dst_addr src_port dst_port payload in
  let hdr := set_udp_checksum (udp_new src_port dst_port (zlen payload)) cs in
  let? dst := udp_write_to hdr dst in
  let? dst := put dst UDP_SIZE (total - UDP_SIZE) payload in
  Ok (Some total, dst).

(** ** Devices and the logger *)
Inductive NetError :=
| SendFailed | BufferTooSmall | FrameTooLarge | NotInitialized | InvalidParameter | Protocol | AuthenticationFailed.

#[export] Instance NetError_eq_dec : EqDecision NetError.
Proof. solve_decision. Defined.

Class NetDevice (D : Type) := {
  send_frame : D -> list Z -> result NetError unit * D;
  poll_frame : D -> Z -> result NetError (option (list Z)) * D;
  mac_address : D -> list Z
}.

Inductive Level := Error | Warn | Info | Debug | Trace.

Definition level_char (l : Level) : Z :=
  match l with Error => 69 | Warn => 87 | Info => 73 | Debug => 68 | Trace => 84 end.

Definition MAX_LOG_PAYLOAD : Z := 1500 - ETH_SIZE - IPV4_SIZE - UDP_SIZE.
Definition MAX_LOG_MESSAGE : Z := MAX_LOG_PAYLOAD - 64.

Section Logger.
Context {D : Type} `{NetDevice D}.

Record UdpLogger := mkLogger {
  lg_dev : D;
  lg_dst_ip : list Z;
  lg_dst_port : Z;
  lg_src_ip : list Z;
  lg_src_port : Z;
  lg_ip_id : Z;
  lg_frame_buf : list Z
}.

Definition logger_new (dev : D) (dst_ip : list Z) (dst_port : Z) (src_ip : list Z) (src_port : Z) : UdpLogger :=
  mkLogger dev dst_ip dst_port src_ip src_port 1 (replicate 1500 0).

Definition update_logger (lg : UdpLogger) (dev : D) (id : Z) (buf : list Z) : UdpLogger :=
  mkLogger dev (lg_dst_ip lg) (lg_dst_port lg) (lg_src_ip lg) (lg_src_port lg) id buf.

(** [while limit > 0 && !msg.is_char_boundary(limit)]. *)
Fixpoint char_limit (msg : list Z) (limit : nat) : nat :=
  match limit with
  | O => O
  | S n => if is_char_boundary msg limit then limit else char_limit msg n
  end.

Definition emit (lg : UdpLogger) (level : Level) (msg : list Z) : result unit UdpLogger :=
  let limit := char_limit msg (Z.to_nat (MAX_LOG_MESSAGE - 6)) in
  match str_slice msg 0 limit with
  | None => Panic
  | Some content =>
    let payload := [91; level_char level; 93; 32] ++ content ++ [10] in
    let? (r, frame) := build_datagram (lg_src_ip lg) (lg_dst_ip lg) (lg_src_port lg) (lg_dst_port lg)
                         payload (lg_frame_buf lg) in
    match r with
    | None => Ok (update_logger lg (lg_dev lg) (lg_ip_id lg) frame)
    | Some udp_len =>
      let id := lg_ip_id lg in
      let next_id := (id + 1) mod 2 ^ 16 in
      let? (r, ip_buf) := build_packet (lg_src_ip lg) (lg_dst_ip lg) Udp id 64 (zslice frame 0 udp_len)
                            (replicate 1500 0) in
      match r with
      | None => Ok (update_logger lg (lg_dev lg) next_id frame)
      | Some ip_len =>
        let frame := replicate (length frame) 0 in
        let? (r, frame) := build_frame (replicate 6 0xFF) (mac_address (lg_dev lg)) EtherIpv4
                             (zslice ip_buf 0 ip_len) frame in
        match r with
        | None => Ok (update_logger lg (lg_dev lg) next_id frame)
        | Some frame_len =>
          let '(_, dev) := send_frame (lg_dev lg) (zslice frame 0 frame_len) in
          Ok (update_logger lg dev next_id frame)
        end
      end
    end
  end.
End Logger.
Arguments UdpLogger : clear implicits.

(** ** Serialised headers *)
Lemma put_first buf len data : zlen data = len -> len <= zlen buf ->
  put buf 0 len data = Ok (data ++ drop (Z.to_nat len) buf).
Proof.
  intros Hd Hb. pose proof (zlen_nonneg data). unfold put.
  rewrite copy_from_slice_Some by lia. unfold zsplice, zlen in *.
  by replace (Z.to_nat len) with (length data) by lia.
Qed.

Lemma put_next p n buf off len data : zlen p = off -> zlen data = len -> Z.of_nat n + len <= zlen buf ->
  put (p ++ drop n buf) off len data = Ok ((p ++ data) ++ drop (n + Z.to_nat len) buf).
Proof.
  intros Hp Hd Hb. pose proof (zlen_nonneg data). pose proof (zlen_nonneg p). unfold put.
  rewrite copy_from_slice_Some; [|lia..| |done].
  - unfold zsplice, zlen in *. rewrite take_app_length' by lia. rewrite drop_app_ge by lia.
    rewrite drop_drop, <- app_assoc. by replace (Z.to_nat off + length data - length p)%nat with (Z.to_nat len) by lia.
  - unfold zlen in *. rewrite length_app, length_drop. lia.
Qed.

(** Solve the length conditions of a chain of writes. *)
Ltac len_solve := unfold zlen in *; rewrite ?length_app, ?length_replicate; cbn [length to_be_bytes16] in *; lia.
Ltac put_chain :=
  rewrite put_first by len_solve;
  repeat (rewrite put_next by len_solve).

Definition eth_bytes (h : EthernetHeader) : list Z := eh_dst h ++ eh_src h ++ to_be_bytes16 (eh_type h).

Lemma eth_write_to_spec h buf : zlen (eh_dst h) = 6 -> zlen (eh_src h) = 6 -> ETH_SIZE <= zlen buf ->
  eth_write_to h buf = Ok (eth_bytes h ++ drop 14 buf).
Proof.
  intros Hd Hs Hb. unfold eth_write_to, ETH_SIZE in *. put_chain.
  unfold eth_bytes, to_be_bytes16. by rewrite <- !app_assoc.
Qed.

Lemma build_frame_spec dst_mac src_mac et payload dst : zlen dst_mac = 6 -> zlen src_mac = 6 ->
  build_frame dst_mac src_mac et payload dst =
  Ok (if zlen dst <? 14 + zlen payload then (None, dst)
      else (Some (14 + zlen payload),
            eth_bytes (mkEth dst_mac src_mac (ethertype_to_u16 et)) ++ payload ++ drop (14 + length payload) dst)).
Proof.
  intros Hd Hs. unfold build_frame, ETH_SIZE. destruct (Z.ltb_spec (zlen dst) (14 + zlen payload)); [done|].
  pose proof (zlen_nonneg payload). put_chain. unfold eth_bytes, to_be_bytes16. rewrite <- !app_assoc.
  by replace (_ + Z.to_nat (14 + zlen payload - 14))%nat with (14 + length payload)%nat by len_solve.
Qed.

Definition ipv4_bytes (h : Ipv4Header) : list Z :=
  [ver_ihl h; dscp_ecn h] ++ to_be_bytes16 (total_length h) ++ to_be_bytes16 (identification h)
  ++ to_be_bytes16 (flags_frag h) ++ [ttl h; protocol h] ++ to_be_bytes16 (header_checksum h)
  ++ src_addr h ++ dst_addr h.

Lemma ipv4_write_to_spec h buf : zlen (src_addr h) = 4 -> zlen (dst_addr h) = 4 -> IPV4_SIZE <= zlen buf ->
  ipv4_write_to h buf = Ok (ipv4_bytes h ++ drop 20 buf).
Proof.
  intros Hs Hd Hb. unfold ipv4_write_to, IPV4_SIZE in *. put_chain.
  unfold ipv4_bytes, to_be_bytes16. by rewrite <- !app_assoc.
Qed.

Definition udp_bytes (h : UdpHeader) : list Z :=
  to_be_bytes16 (uh_src_port h) ++ to_be_bytes16 (uh_dst_port h) ++ to_be_bytes16 (uh_length h)
  ++ to_be_bytes16 (uh_checksum h).

Lemma udp_write_to_spec h buf : UDP_SIZE <= zlen buf -> udp_write_to h buf = Ok (udp_bytes h ++ drop 8 buf).
Proof.
  intros Hb. unfold udp_write_to, UDP_SIZE in *. put_chain. unfold udp_bytes. by rewrite <- !app_assoc.
Qed.

Definition pseudo_bytes (h : PseudoHeader) : list Z :=
  ph_src h ++ ph_dst h ++ [ph_zero h; ph_protocol h] ++ to_be_bytes16 (ph_length h).

Lemma pseudo_write_to_spec h buf : zlen (ph_src h) = 4 -> zlen (ph_dst h) = 4 -> PSEUDO_SIZE <= zlen buf ->
  pseudo_write_to h buf = Ok (pseudo_bytes h ++ drop 12 buf).
Proof.
  intros Hs Hd Hb. unfold pseudo_write_to, PSEUDO_SIZE in *. put_chain.
  unfold pseudo_bytes. by rewrite <- !app_assoc.
Qed.

(** ** The Internet checksum *)

(** The sum of the 16-bit words, the last byte of an odd length zero-padded. *)
Fixpoint sum16 (l : list Z) : Z :=
  match l with
  | a :: b :: rest => from_be_bytes16 a b + sum16 rest
  | [a] => a * 256
  | [] => 0
  end.

Lemma pairs_ind (P : list Z -> Prop) :
  P [] -> (forall a, P [a]) -> (forall a b l, P l -> P (a :: b :: l)) -> forall l, P l.
Proof.
  intros H0 H1 H2 l. enough (P l /\ forall a, P (a :: l)) by tauto.
  induction l as [|x l [IH1 IH2]]; split; auto.
Qed.

Lemma sum16_bounds l : bytes l -> 0 <= 2 * sum16 l <= 65535 * (Z.of_nat (length l) + 1).
Proof.
  induction l as [|a|a b l IH] using pairs_ind; intros Hl; cbn [sum16 length].
  - lia.
  - apply Forall_cons in Hl as [Ha _]. unfold byte in Ha. lia.
  - apply Forall_cons in Hl as [Ha [Hb Hl]%Forall_cons]. specialize (IH Hl).
    unfold byte, from_be_bytes16 in *. lia.
Qed.

Lemma sum16_app l k : Nat.Even (length l) -> sum16 (l ++ k) = sum16 l + sum16 k.
Proof.
  induction l as [|a|a b l IH] using pairs_ind; intros He; cbn [sum16 app length] in *.
  - lia.
  - destruct He as [m Hm]. lia.
  - rewrite IH; [lia|]. destruct He as [m Hm]. exists (m - 1)%nat. lia.
Qed.

Lemma word_loop_spec l : forall s, bytes l -> 0 <= s -> s + sum16 l <= u32_max ->
  exists s' rest, word_loop l s = Ok (s', rest) /\ add_tail s' rest = Ok (s + sum16 l)
  /\ (Nat.Even (length l) -> s' = s + sum16 l /\ rest = []).
Proof.
  induction l as [|a|a b l IH] using pairs_ind; intros s Hl Hs Hsum; cbn [word_loop sum16] in *.
  - exists s, []. split; [done|]. cbn. rewrite Z.add_0_r. done.
  - exists s, [a]. split; [done|]. split.
    + cbn. unfold u32_add. rewrite Z.shiftl_mul_pow2 by lia. change (2 ^ 8) with 256.
      by rewrite (proj2 (Z.leb_le _ _)) by lia.
    + intros [m Hm]. cbn in Hm. lia.
  - apply Forall_cons in Hl as [Ha [Hb Hl]%Forall_cons].
    pose proof (sum16_bounds l Hl). unfold byte in Ha, Hb. unfold from_be_bytes16 in *.
    unfold u32_add. rewrite (proj2 (Z.leb_le _ _)) by lia.
    destruct (IH (s + (a * 256 + b)) Hl) as (s' & rest & E1 & E2 & E3); [lia..|].
    exists s', rest. split; [done|]. split; [rewrite E2; f_equal; lia|].
    intros [m Hm]. cbn in Hm. destruct E3 as [-> ->]; [exists (m - 1)%nat; lia|]. split; [lia|done].
Qed.

Lemma fold_once s : 0 <= s -> Z.land s 0xFFFF = s mod 65536 /\ Z.shiftr s 16 = s / 65536.
Proof.
  intros Hs. split; [change 0xFFFF with (Z.ones 16); by rewrite Z.land_ones by lia|].
  by rewrite Z.shiftr_div_pow2 by lia.
Qed.

(** Folding keeps the sum modulo 65535 and tells 0 from 65535. *)
Lemma fold_carry_spec s : 0 <= s <= u32_max ->
  exists f, fold_carry 3 s = Ok f /\ 0 <= f <= 0xFFFF /\ (exists q, s = f + 65535 * q) /\ (f = 0 <-> s = 0).
Proof.
  intros Hs. unfold u32_max in Hs.
  assert (Hstep : forall n t, 0 <= t <= u32_max -> fold_carry (S n) t =
    if t <? 65536 then Ok t else fold_carry n (t mod 65536 + t / 65536)).
  { intros n t Ht. cbn [fold_carry]. destruct (fold_once t) as [-> ->]; [lia|]. unfold u32_max in Ht.
    destruct (Z.ltb_spec t 65536).
    - by rewrite Z.div_small by lia.
    - rewrite (proj2 (Z.eqb_neq _ _)) by (Z.to_euclidean_division_equations; lia).
      unfold u32_add, u32_max. by rewrite (proj2 (Z.leb_le _ _)) by (Z.to_euclidean_division_equations; lia). }
  pose proof (Z.div_mod s 65536 ltac:(lia)) as Hdm. pose proof (Z.mod_pos_bound s 65536 ltac:(lia)).
  assert (0 <= s / 65536 <= 65535) by (Z.to_euclidean_division_equations; lia).
  rewrite Hstep by (unfold u32_max; lia). destruct (Z.ltb_spec s 65536).
  { exists s. split; [done|]. split; [lia|]. split; [exists 0; lia|done]. }
  set (t := s mod 65536 + s / 65536) in *. rewrite Hstep by (unfold u32_max; lia).
  destruct (Z.ltb_spec t 65536).
  { exists t. split; [done|]. split; [lia|]. split; [exists (s / 65536); lia|lia]. }
  assert (t / 65536 = 1) as Hq by (Z.to_euclidean_division_equations; lia).
  assert (t mod 65536 = t - 65536) as Hm by (rewrite Z.mod_eq by lia; lia).
  rewrite Hq, Hm, Hstep by (unfold u32_max; lia). rewrite (proj2 (Z.ltb_lt _ _)) by lia.
  eexists. split; [done|]. split; [lia|]. split; [exists (s / 65536 + 1); lia|lia].
Qed.

Definition checksum_of (s c : Z) : Prop := 0 <= c <= 0xFFFF /\ (exists q, s + c = 65535 * q) /\ (c = 0xFFFF <-> s = 0).

Lemma not16_fold s f : 0 <= f <= 0xFFFF -> (exists q, s = f + 65535 * q) -> (f = 0 <-> s = 0) ->
  checksum_of s (not16 f).
Proof.
  intros Hf [q Hq] H0. unfold not16. change (2 ^ 16) with 65536. rewrite Z.mod_small by lia.
  split; [lia|]. split; [exists (q + 1); lia|lia].
Qed.

(** No overflow for anything that fits in a packet with its pseudo-header. *)
Lemma checksum_spec l : bytes l -> zlen l <= 65600 -> exists c, checksum l = Ok c /\ checksum_of (sum16 l) c.
Proof.
  intros Hl Hlen. pose proof (sum16_bounds l Hl) as Hs. unfold zlen in Hlen.
  assert (sum16 l <= u32_max) by (unfold u32_max; lia).
  unfold checksum. destruct (word_loop_spec l 0 Hl) as (s & rest & -> & -> & _); [lia..|]. rewrite Z.add_0_l.
  destruct (fold_carry_spec (sum16 l)) as (f & -> & Hf & Hq & H0); [lia|].
  eexists. split; [done|]. by apply not16_fold.
Qed.

(** A receiver accepts a block when its checksum is 0. *)
Lemma checksum_zero l : bytes l -> zlen l <= 65600 ->
  checksum l = Ok 0 <-> sum16 l <> 0 /\ exists q, sum16 l = 65535 * q.
Proof.
  intros Hl Hlen. destruct (checksum_spec l Hl Hlen) as (c & -> & Hc & [q Hq] & Hz).
  pose proof (sum16_bounds l Hl). split.
  - intros [= ->]. split; [lia|]. exists q. lia.
  - intros [Hne [k Hk]]. f_equal. assert (c <> 0xFFFF) by tauto. lia.
Qed.

Lemma bytes_be x : bytes (to_be_bytes16 x).
Proof.
  unfold to_be_bytes16, byte. apply List.Forall_cons; [apply Z.mod_pos_bound; lia|].
  apply List.Forall_cons; [apply Z.mod_pos_bound; lia|constructor].
Qed.

Lemma sum16_be x k : 0 <= x <= u16_max -> sum16 (to_be_bytes16 x ++ k) = x + sum16 k.
Proof.
  unfold u16_max. intros Hx. cbn. unfold from_be_bytes16. rewrite Z.shiftr_div_pow2 by lia. change (2 ^ 8) with 256.
  Z.to_euclidean_division_equations. lia.
Qed.

Lemma even_length {A} (l : list A) n : zlen l = 2 * n -> Nat.Even (length l).
Proof. unfold zlen. intros Hl. exists (Z.to_nat n). lia. Qed.

(** Collect byte-wise facts about concatenations. *)
Ltac bytes_solve :=
  rewrite ?Forall_app; repeat split;
  repeat first [assumption | apply bytes_be | apply Forall_nil; exact I | apply Forall_cons; split; [unfold byte; cbn; lia|]].

Section Udp.
Variables (src dst : list Z) (src_port dst_port : Z) (payload : list Z).
Hypotheses (Hsrc : zlen src = 4 /\ bytes src) (Hdst : zlen dst = 4 /\ bytes dst).
Hypotheses (Hsp : 0 <= src_port <= u16_max) (Hdp : 0 <= dst_port <= u16_max).
Hypotheses (Hpay : bytes payload) (Hlen : 8 + zlen payload <= u16_max).
Let total : Z := 8 + zlen payload.
Let pseudo : list Z := pseudo_bytes (mkPseudo src dst 0 17 total).

Lemma pseudo_even : Nat.Even (length pseudo).
Proof. apply (even_length _ 6). unfold pseudo, pseudo_bytes. cbn [ph_src ph_dst]. len_solve. Qed.

Lemma udp_even c : Nat.Even (length (udp_bytes (mkUdp src_port dst_port total c))).
Proof. by exists 4%nat. Qed.

Lemma pseudo_bytes_ok : bytes pseudo.
Proof. destruct Hsrc, Hdst. unfold pseudo, pseudo_bytes. cbn [ph_src ph_dst ph_zero ph_protocol ph_length]. bytes_solve. Qed.

Lemma udp_bytes_ok h : bytes (udp_bytes h).
Proof. unfold udp_bytes. bytes_solve. Qed.

(** The sum over what is transmitted, with any checksum. *)
Lemma sum16_udp c : 0 <= c <= u16_max ->
  sum16 (pseudo ++ udp_bytes (mkUdp src_port dst_port total c) ++ payload)
  = sum16 pseudo + (src_port + dst_port + total) + sum16 payload + c.
Proof.
  intros Hc. pose proof (zlen_nonneg payload). rewrite sum16_app by apply pseudo_even.
  unfold udp_bytes. cbn [uh_src_port uh_dst_port uh_length uh_checksum]. rewrite <- !app_assoc.
  rewrite !sum16_be by (unfold total; lia). lia.
Qed.

Lemma udp_checksum_spec : exists cs, udp_checksum src dst src_port dst_port payload = Ok cs
  /\ 0 < cs <= u16_max
  /\ exists q, sum16 (pseudo ++ udp_bytes (mkUdp src_port dst_port total cs) ++ payload) = 65535 * q.
Proof.
  pose proof (zlen_nonneg payload). unfold udp_checksum, UDP_SIZE. fold total.
  unfold udp_new, UDP_SIZE. fold total. unfold u16_max in *. rewrite (Z.mod_small total) by (unfold total; lia).
  rewrite pseudo_write_to_spec by (cbn; tauto || done). rewrite udp_write_to_spec by done.
  change (drop 12 (replicate 12 0)) with (@nil Z). change (drop 8 (replicate 8 0)) with (@nil Z).
  rewrite !app_nil_r. change (protocol_to_u8 Udp) with 17. fold pseudo.
  pose proof (sum16_bounds pseudo pseudo_bytes_ok) as B1. pose proof (sum16_bounds payload Hpay) as B2.
  assert (length pseudo = 12%nat) as Hl1 by (destruct Hsrc, Hdst; unfold pseudo, pseudo_bytes; cbn [ph_src ph_dst]; len_solve).
  assert (sum16 (udp_bytes (mkUdp src_port dst_port total 0)) = src_port + dst_port + total) as E0.
  { unfold udp_bytes. cbn [uh_src_port uh_dst_port uh_length uh_checksum]. rewrite <- (app_nil_r (to_be_bytes16 0)).
    rewrite !sum16_be by (unfold u16_max, total; lia). cbn. lia. }
  destruct (word_loop_spec pseudo 0 pseudo_bytes_ok) as (s1 & r1 & -> & _ & E1); [lia|unfold u32_max; lia|].
  destruct (E1 pseudo_even) as [-> ->]. rewrite Z.add_0_l.
  destruct (word_loop_spec (udp_bytes (mkUdp src_port dst_port total 0)) (sum16 pseudo) (udp_bytes_ok _))
    as (s2 & r2 & -> & _ & E2); [lia|unfold u32_max, total in *; lia|].
  destruct (E2 (udp_even 0)) as [-> ->]. rewrite E0.
  unfold zlen in *.
  destruct (word_loop_spec payload (sum16 pseudo + (src_port + dst_port + total)) Hpay) as (s3 & r3 & -> & -> & _);
    [unfold total in *; lia|unfold u32_max, total in *; lia|].
  destruct (fold_carry_spec (sum16 pseudo + (src_port + dst_port + total) + sum16 payload)) as (f & -> & Hf & Hq & Hz);
    [unfold u32_max, total in *; lia|].
  destruct (not16_fold _ _ Hf Hq Hz) as (Hc & [q Hk] & _). set (c := not16 f) in *.
  eexists. split; [done|]. unfold u16_max.
  assert (0 <= c <= u16_max) by (unfold u16_max; lia). destruct (Z.eqb_spec c 0) as [Hc0|].
  - split; [lia|]. rewrite sum16_udp by (unfold u16_max; lia). exists (q + 1). lia.
  - split; [lia|]. rewrite sum16_udp by done. exists q. lia.
Qed.
End Udp.

(** A datagram that fits. *)
Lemma build_datagram_fits (src dst : list Z) (src_port dst_port : Z) (payload buf : list Z) :
  zlen src = 4 /\ bytes src -> zlen dst = 4 /\ bytes dst ->
  0 <= src_port <= u16_max -> 0 <= dst_port <= u16_max -> bytes payload ->
  let total := 8 + zlen payload in
  total <= u16_max -> total <= zlen buf ->
  exists cs, 0 < cs <= u16_max
  /\ let datagram := udp_bytes (mkUdp src_port dst_port total cs) ++ payload in
     build_datagram src dst src_port dst_port payload buf = Ok (Some total, datagram ++ drop (length datagram) buf)
     /\ checksum (pseudo_bytes (mkPseudo src dst 0 17 total) ++ datagram) = Ok 0.
Proof.
  intros Hsrc Hdst Hsp Hdp Hpay total Hmax Hbuf. unfold total in *. unfold build_datagram, UDP_SIZE.
  rewrite !(proj2 (Z.ltb_ge _ _)) by lia. pose proof (zlen_nonneg payload).
  destruct (udp_checksum_spec src dst src_port dst_port payload) as (cs & -> & Hcs & q & Hq); [done..|].
  exists cs. split; [done|]. cbv zeta.
  rewrite udp_write_to_spec by (unfold UDP_SIZE; lia). rewrite put_next by (reflexivity || lia).
  unfold udp_new, set_udp_checksum, UDP_SIZE.
  cbn [uh_src_port uh_dst_port uh_length uh_checksum]. unfold u16_max in *.
  rewrite (Z.mod_small (8 + zlen payload)) by lia. split.
  - do 4 f_equal. rewrite length_app. change (length (udp_bytes _)) with 8%nat. unfold zlen. lia.
  - apply checksum_zero.
    + rewrite !Forall_app. split; [|split; [apply udp_bytes_ok|done]]. by apply pseudo_bytes_ok.
    + destruct Hsrc, Hdst. unfold pseudo_bytes, udp_bytes. cbn [ph_src ph_dst]. len_solve.
    + split; [|eauto]. pose proof (sum16_bounds payload Hpay).
      pose proof (sum16_bounds _ (pseudo_bytes_ok src dst payload Hsrc Hdst)).
      rewrite sum16_udp by (unfold u16_max; done || lia). lia.
Qed.

(** UDP datagrams: [build_datagram] never panics; it refuses, leaving the buffer as it
    was, exactly when the datagram does not fit in 65535 bytes or in the buffer, and
    otherwise writes the header and the payload at the start of the buffer and nothing
    else, with a non-zero checksum that a receiver accepts: the checksum of the
    pseudo-header and the datagram is 0. *)
Theorem build_datagram_correct (src dst : list Z) (src_port dst_port : Z) (payload buf : list Z) :
  zlen src = 4 /\ bytes src -> zlen dst = 4 /\ bytes dst ->
  0 <= src_port <= u16_max -> 0 <= dst_port <= u16_max -> bytes payload ->
  match build_datagram src dst src_port dst_port payload buf with
  | Ok (Some total, buf') =>
      total = 8 + zlen payload /\ exists cs, 0 < cs <= u16_max
      /\ let datagram := udp_bytes (mkUdp src_port dst_port total cs) ++ payload in
         buf' = datagram ++ drop (length datagram) buf
         /\ checksum (pseudo_bytes (mkPseudo src dst 0 17 total) ++ datagram) = Ok 0
  | Ok (None, buf') => buf' = buf /\ (u16_max < 8 + zlen payload \/ zlen buf < 8 + zlen payload)
  | _ => False
  end.
Proof.
  intros Hsrc Hdst Hsp Hdp Hpay.
  destruct (Z.ltb_spec u16_max (8 + zlen payload)) as [Hl|Hl].
  { unfold build_datagram, UDP_SIZE. rewrite (proj2 (Z.ltb_lt _ _)) by lia. by split; [|left]. }
  destruct (Z.ltb_spec (zlen buf) (8 + zlen payload)) as [Hb|Hb].
  { unfold build_datagram, UDP_SIZE. rewrite (proj2 (Z.ltb_ge u16_max _)), (proj2 (Z.ltb_lt _ _)) by lia.
    by split; [|right]. }
  destruct (build_datagram_fits src dst src_port dst_port payload buf) as (cs & Hcs & -> & Hck); [done..|].
  split; [done|]. by exists cs.
Qed.

Lemma build_datagram_correct_witness :
  exists cs, 0 < cs <= u16_max
  /\ let datagram := udp_bytes (mkUdp 51401 51400 10 cs) ++ [104; 105] in
     build_datagram [192; 168; 1; 100] [192; 168; 1; 10] 51401 51400 [104; 105] (replicate 12 0)
     = Ok (Some 10, datagram ++ [0; 0])
     /\ checksum (pseudo_bytes (mkPseudo [192; 168; 1; 100] [192; 168; 1; 10] 0 17 10) ++ datagram) = Ok 0.
Proof.
  pose proof (build_datagram_correct [192; 168; 1; 100] [192; 168; 1; 10] 51401 51400 [104; 105] (replicate 12 0)
    ltac:(split; [reflexivity|bytes_solve]) ltac:(split; [reflexivity|bytes_solve])
    ltac:(unfold u16_max; lia) ltac:(unfold u16_max; lia) ltac:(bytes_solve)) as Hd.
  destruct (build_datagram _ _ _ _ _ _) as [[[total|] buf']| |] eqn:E; try (exfalso; vm_compute in E; discriminate).
  destruct Hd as (-> & cs & Hcs & Hbuf & Hck). exists cs. split; [exact Hcs|]. split; [|exact Hck].
  rewrite Hbuf. reflexivity.
Defined.

(** ** IPv4 packets *)
Definition ipv4_fields_ok (h : Ipv4Header) : Prop :=
  byte (ver_ihl h) /\ byte (dscp_ecn h) /\ 0 <= total_length h <= u16_max /\ 0 <= identification h <= u16_max
  /\ 0 <= flags_frag h <= u16_max /\ byte (ttl h) /\ byte (protocol h)
  /\ (zlen (src_addr h) = 4 /\ bytes (src_addr h)) /\ (zlen (dst_addr h) = 4 /\ bytes (dst_addr h)).

(** The sum of a header without its checksum field. *)
Definition header_sum (h : Ipv4Header) : Z :=
  from_be_bytes16 (ver_ihl h) (dscp_ecn h) + total_length h + identification h + flags_frag h
  + from_be_bytes16 (ttl h) (protocol h) + sum16 (src_addr h ++ dst_addr h).

Lemma sum16_ipv4 h c : ipv4_fields_ok h -> 0 <= c <= u16_max ->
  sum16 (ipv4_bytes (set_header_checksum h c)) = header_sum h + c.
Proof.
  intros (_ & _ & Ht & Hi & Hf & _) Hc. unfold ipv4_bytes, header_sum.
  cbn [set_header_checksum ver_ihl dscp_ecn total_length identification flags_frag ttl protocol header_checksum
       src_addr dst_addr].
  cbn [app sum16]. rewrite !sum16_be by done. cbn [app sum16]. rewrite sum16_be by done. lia.
Qed.

Lemma ipv4_bytes_ok h c : ipv4_fields_ok h ->
  bytes (ipv4_bytes (set_header_checksum h c)) /\ zlen (ipv4_bytes (set_header_checksum h c)) = 20.
Proof.
  intros (H1 & H2 & _ & _ & _ & H3 & H4 & [H5 H6] & [H7 H8]). unfold ipv4_bytes.
  cbn [set_header_checksum ver_ihl dscp_ecn total_length identification flags_frag ttl protocol header_checksum
       src_addr dst_addr].
  split; [|len_solve]. rewrite !Forall_app. repeat split; try apply bytes_be; try done.
  all: by repeat apply List.Forall_cons.
Qed.

(** With the checksum bytes in network order a receiver accepts the header; swapped, only
    if the two bytes are equal. *)
Lemma swapped_checksum_accepted h c : ipv4_fields_ok h -> 0 < header_sum h ->
  checksum_of (header_sum h) c ->
  checksum (ipv4_bytes (set_header_checksum h c)) = Ok 0
  /\ (checksum (ipv4_bytes (set_header_checksum h (to_be16 c))) = Ok 0 <-> c / 256 = c mod 256).
Proof.
  intros Hh Hpos (Hc & [q Hq] & _).
  assert (to_be16 c = c mod 256 * 256 + c / 256) as Es.
  { unfold to_be16, from_be_bytes16. rewrite Z.shiftr_div_pow2 by lia. change (2 ^ 8) with 256.
    rewrite (Z.mod_small (c / 256)); [done|]. Z.to_euclidean_division_equations. lia. }
  assert (0 <= to_be16 c <= u16_max) as Hs.
  { rewrite Es. unfold u16_max. Z.to_euclidean_division_equations. lia. }
  destruct (ipv4_bytes_ok h c Hh) as [B1 L1]. destruct (ipv4_bytes_ok h (to_be16 c) Hh) as [B2 L2].
  split.
  - apply checksum_zero; [done|lia|]. rewrite sum16_ipv4 by (done || unfold u16_max; lia). split; [lia|eauto].
  - rewrite checksum_zero by (done || lia). rewrite sum16_ipv4 by done. rewrite Es.
    pose proof (Z.div_mod c 256 ltac:(lia)) as Hdm. pose proof (Z.mod_pos_bound c 256 ltac:(lia)) as Hm.
    assert (0 <= c / 256 < 256) by (Z.to_euclidean_division_equations; lia).
    set (hi := c / 256) in *. set (lo := c mod 256) in *. split.
    + intros [_ [k Hk]]. assert (255 * (lo - hi) = 65535 * (k - q)) by lia. lia.
    + intros ->. split; [lia|]. exists q. lia.
Qed.

(** A packet that fits. *)
Lemma build_packet_fits (src dst : list Z) (proto : IpProtocol) (id time : Z) (payload buf : list Z) :
  zlen src = 4 /\ bytes src -> zlen dst = 4 /\ bytes dst -> 0 <= id <= u16_max -> byte time ->
  let total := 20 + zlen payload in
  total <= u16_max -> total <= zlen buf ->
  exists c, 0 <= c <= u16_max
  /\ let h := ipv4_new total id time proto src dst in
     let header := ipv4_bytes (set_header_checksum h (to_be16 c)) in
     build_packet src dst proto id time payload buf
     = Ok (Some total, header ++ payload ++ drop (20 + length payload) buf)
     /\ checksum (ipv4_bytes (set_header_checksum h c)) = Ok 0
     /\ (checksum header = Ok 0 <-> c / 256 = c mod 256).
Proof.
  intros Hs Hd Hid Httl total Hmax Hbuf. unfold total in *. unfold build_packet, IPV4_SIZE.
  rewrite !(proj2 (Z.ltb_ge _ _)) by lia. cbn [orb].
  pose proof (zlen_nonneg payload). set (h := ipv4_new (20 + zlen payload) id time proto src dst).
  assert (Hh : ipv4_fields_ok h).
  { unfold ipv4_fields_ok, h, ipv4_new, u16_max, byte in *. cbn. destruct proto; cbn; repeat split; tauto || lia. }
  assert (Hsum : 0 < header_sum h).
  { unfold header_sum, h, ipv4_new, from_be_bytes16. cbn [ver_ihl dscp_ecn total_length identification flags_frag ttl
      protocol src_addr dst_addr]. unfold byte in Httl.
    assert (bytes (src ++ dst)) as Hb by (rewrite Forall_app; tauto). pose proof (sum16_bounds _ Hb).
    destruct proto; cbn; lia. }
  rewrite ipv4_write_to_spec by (done || tauto). change (drop 20 (replicate 20 0)) with (@nil Z). rewrite app_nil_r.
  change (ipv4_bytes h) with (ipv4_bytes (set_header_checksum h 0)).
  destruct (ipv4_bytes_ok h 0 Hh) as [B0 L0].
  destruct (checksum_spec _ B0 ltac:(lia)) as (c & -> & Hc).
  rewrite sum16_ipv4, Z.add_0_r in Hc by (done || unfold u16_max; lia).
  destruct (swapped_checksum_accepted h c Hh Hsum Hc) as [A1 A2].
  rewrite ipv4_write_to_spec by (unfold IPV4_SIZE; tauto || lia).
  destruct (ipv4_bytes_ok h (to_be16 c) Hh) as [_ L2]. rewrite put_next by (done || lia).
  exists c. destruct Hc as [Hc _]. split; [done|]. cbv zeta. fold h.
  split; [|done]. rewrite <- app_assoc. do 5 f_equal. unfold zlen. lia.
Qed.

(** IPv4 packets: [build_packet] never panics; it refuses, leaving the buffer as it was,
    exactly when the packet exceeds 65535 bytes or the buffer, and otherwise writes the
    header and the payload at the start of the buffer and nothing else.  The header
    carries the correct checksum [c] with its two bytes exchanged: put in network order it
    would be accepted by a receiver; as written it is accepted only if its two bytes are
    equal. *)
Theorem build_packet_correct (src dst : list Z) (proto : IpProtocol) (id time : Z) (payload buf : list Z) :
  zlen src = 4 /\ bytes src -> zlen dst = 4 /\ bytes dst -> 0 <= id <= u16_max -> byte time ->
  match build_packet src dst proto id time payload buf with
  | Ok (Some total, buf') =>
      total = 20 + zlen payload /\ exists c, 0 <= c <= u16_max
      /\ let h := ipv4_new total id time proto src dst in
         let header := ipv4_bytes (set_header_checksum h (to_be16 c)) in
         buf' = header ++ payload ++ drop (20 + length payload) buf
         /\ checksum (ipv4_bytes (set_header_checksum h c)) = Ok 0
         /\ (checksum header = Ok 0 <-> c / 256 = c mod 256)
  | Ok (None, buf') => buf' = buf /\ (u16_max < 20 + zlen payload \/ zlen buf < 20 + zlen payload)
  | _ => False
  end.
Proof.
  intros Hs Hd Hid Httl.
  destruct (Z.ltb_spec (zlen buf) (20 + zlen payload)) as [Hb|Hb].
  { unfold build_packet, IPV4_SIZE. rewrite (proj2 (Z.ltb_lt _ _)) by lia. by split; [|right]. }
  destruct (Z.ltb_spec u16_max (20 + zlen payload)) as [Hl|Hl].
  { unfold build_packet, IPV4_SIZE. rewrite (proj2 (Z.ltb_lt u16_max _)), orb_true_r by lia. by split; [|left]. }
  destruct (build_packet_fits src dst proto id time payload buf) as (c & Hc & -> & H1 & H2); [done..|].
  split; [done|]. by exists c.
Qed.

Lemma build_packet_correct_witness :
  exists c, 0 <= c <= u16_max
  /\ let h := ipv4_new 22 1 64 Udp [192; 168; 1; 100] [192; 168; 1; 10] in
     build_packet [192; 168; 1; 100] [192; 168; 1; 10] Udp 1 64 [7; 8] (replicate 30 0)
     = Ok (Some 22, ipv4_bytes (set_header_checksum h (to_be16 c)) ++ [7; 8] ++ replicate 8 0)
     /\ checksum (ipv4_bytes (set_header_checksum h c)) = Ok 0.
Proof.
  pose proof (build_packet_correct [192; 168; 1; 100] [192; 168; 1; 10] Udp 1 64 [7; 8] (replicate 30 0)
    ltac:(split; [reflexivity|bytes_solve]) ltac:(split; [reflexivity|bytes_solve])
    ltac:(unfold u16_max; lia) ltac:(unfold byte; lia)) as Hd.
  destruct (build_packet _ _ _ _ _ _ _) as [[[total|] buf']| |] eqn:E; try (exfalso; vm_compute in E; discriminate).
  destruct Hd as (-> & c & Hc & Hbuf & Hck & _). exists c. split; [exact Hc|]. split; [|exact Hck].
  rewrite Hbuf. reflexivity.
Defined.

(** ** The logger *)
Lemma char_limit_spec msg n : let k := char_limit msg n in
  (k <= n)%nat /\ is_char_boundary msg k = true /\ forall j, (k < j <= n)%nat -> is_char_boundary msg j = false.
Proof.
  induction n as [|n (IH1 & IH2 & IH3)]; cbn [char_limit]; [repeat split; intros; lia|].
  destruct (is_char_boundary msg (S n)) eqn:E; cbv zeta.
  - repeat split; [lia|done|]. intros. lia.
  - repeat split; [lia|done|]. intros j Hj. destruct (decide (j = S n)) as [->|]; [done|]. apply IH3. lia.
Qed.

Lemma bytes_take l n : bytes l -> bytes (take n l).
Proof. apply Forall_take. Qed.

Section Emit.
Context {D : Type} `{NetDevice D}.

Definition logger_ok (lg : UdpLogger D) : Prop :=
  zlen (mac_address (lg_dev lg)) = 6
  /\ (zlen (lg_src_ip lg) = 4 /\ bytes (lg_src_ip lg)) /\ (zlen (lg_dst_ip lg) = 4 /\ bytes (lg_dst_ip lg))
  /\ 0 <= lg_src_port lg <= u16_max /\ 0 <= lg_dst_port lg <= u16_max /\ 0 <= lg_ip_id lg <= u16_max
  /\ zlen (lg_frame_buf lg) = 1500.

(** The three layers around a payload, with the checksums [cs] and [c]. *)
Definition layers (lg : UdpLogger D) (payload : list Z) (cs c : Z) : list Z * list Z :=
  let datagram := udp_bytes (mkUdp (lg_src_port lg) (lg_dst_port lg) (8 + zlen payload) cs) ++ payload in
  let h := ipv4_new (20 + zlen datagram) (lg_ip_id lg) 64 Udp (lg_src_ip lg) (lg_dst_ip lg) in
  (datagram, eth_bytes (mkEth (replicate 6 0xFF) (mac_address (lg_dev lg)) 0x0800)
             ++ ipv4_bytes (set_header_checksum h (to_be16 c)) ++ datagram).

Lemma zslice_prefix (l k : list Z) n : n = zlen l -> zslice (l ++ k) 0 n = l.
Proof. intros ->. unfold zslice, zlen. rewrite drop_0, Nat2Z.id. apply take_app_length. Qed.

(** Logging a message: whatever its length, the logger does not panic and sends exactly
    one frame of at most 1435 bytes: an Ethernet header, an IPv4 header with the next
    identification, and a UDP datagram with a checksum receivers accept, around the text
    [\[L\] content\n], where the content is the longest prefix of the message of at most
    1388 bytes that does not cut a character. *)
Theorem emit_sends_frame (lg : UdpLogger D) (level : Level) (msg : list Z) :
  logger_ok lg -> bytes msg ->
  exists k cs c buf,
    let payload := [91; level_char level; 93; 32] ++ take k msg ++ [10] in
    let '(datagram, frame) := layers lg payload cs c in
    emit lg level msg
    = Ok (update_logger lg (send_frame (lg_dev lg) frame).2 ((lg_ip_id lg + 1) mod 2 ^ 16) buf)
    /\ zlen buf = 1500 /\ zlen frame <= 1435
    /\ checksum (pseudo_bytes (mkPseudo (lg_src_ip lg) (lg_dst_ip lg) 0 17 (8 + zlen payload)) ++ datagram) = Ok 0
    /\ (k <= 1388)%nat /\ is_char_boundary msg k = true
    /\ forall j, (k < j <= 1388)%nat -> is_char_boundary msg j = false.
Proof.
  intros (Hmac & Hsrc & Hdst & Hsp & Hdp & Hid & Hbuf) Hmsg.
  destruct (char_limit_spec msg 1388) as (Hk1 & Hk2 & Hk3). unfold emit.
  change (Z.to_nat (MAX_LOG_MESSAGE - 6)) with 1388%nat. set (k := char_limit msg 1388) in *. clearbody k.
  unfold str_slice. rewrite Hk2. cbn [Nat.leb is_char_boundary Nat.eqb orb andb]. rewrite drop_0, Nat.sub_0_r.
  set (payload := [91; level_char level; 93; 32] ++ take k msg ++ [10]).
  assert (zlen payload <= 1393) as Hpl by (unfold payload, zlen; rewrite !length_app, length_take; cbn; lia).
  assert (bytes payload) as Hpb.
  { unfold payload. rewrite !Forall_app. split; [|split; [by apply bytes_take|bytes_solve]]. destruct level; bytes_solve. }
  destruct (build_datagram_fits (lg_src_ip lg) (lg_dst_ip lg) (lg_src_port lg) (lg_dst_port lg) payload
              (lg_frame_buf lg)) as (cs & Hcs & -> & Hck); [done..|unfold u16_max; lia|lia|].
  set (datagram := udp_bytes _ ++ payload) in *.
  assert (zlen datagram = 8 + zlen payload) as Hdl by (unfold datagram; rewrite zlen_app; reflexivity).
  rewrite zslice_prefix by done.
  destruct (build_packet_fits (lg_src_ip lg) (lg_dst_ip lg) Udp (lg_ip_id lg) 64 datagram (replicate 1500 0))
    as (c & Hc & -> & _); [done..|unfold byte; lia|unfold u16_max; lia|rewrite zlen_replicate; lia|].
  rewrite app_assoc, zslice_prefix.
  2: { rewrite zlen_app. unfold ipv4_bytes. cbn [set_header_checksum src_addr dst_addr ipv4_new]. len_solve. }
  rewrite build_frame_spec by done. rewrite zlen_replicate.
  set (packet := ipv4_bytes _ ++ datagram) in *.
  assert (zlen packet = 20 + zlen datagram) as Hpk.
  { unfold packet. rewrite zlen_app. unfold ipv4_bytes. cbn [set_header_checksum src_addr dst_addr ipv4_new]. len_solve. }
  rewrite (proj2 (Z.ltb_ge _ _)) by (rewrite length_app, length_drop; unfold zlen in *; lia).
  rewrite app_assoc, zslice_prefix.
  2: { rewrite zlen_app. unfold eth_bytes. cbn [eh_dst eh_src]. len_solve. }
  change (ethertype_to_u16 EtherIpv4) with 0x0800.
  set (frame := eth_bytes _ ++ packet).
  assert (zlen frame = 14 + zlen packet) as Hfr.
  { unfold frame. rewrite zlen_app. unfold eth_bytes. cbn [eh_dst eh_src]. len_solve. }
  exists k, cs, c. eexists. unfold layers. fold payload datagram packet frame.
  destruct (send_frame (lg_dev lg) frame) as [r dev] eqn:Es. cbn [snd].
  split; [done|]. split; [|split; [lia|done]].
  rewrite zlen_app. unfold zlen in *. rewrite length_drop, length_replicate, length_app, length_drop. lia.
Qed.
End Emit.

(** A device that keeps the frames it is given. *)
Record Recorder := mkRecorder { rec_mac : list Z; rec_sent : list (list Z) }.

#[export] Instance Recorder_device : NetDevice Recorder := {|
  send_frame d f := (Ok tt, mkRecorder (rec_mac d) (rec_sent d ++ [f]));
  poll_frame d _ := (Ok None, d);
  mac_address := rec_mac
|}.

Definition demo_logger : UdpLogger Recorder :=
  logger_new (mkRecorder [2; 0; 0; 0; 0; 1] []) [192; 168; 1; 10] 51400 [192; 168; 1; 100] 51401.

Lemma emit_sends_frame_witness :
  exists k cs c lg, emit demo_logger Info [104; 105] = Ok lg
  /\ rec_sent (lg_dev lg) = [(layers demo_logger ([91; 73; 93; 32] ++ take k [104; 105] ++ [10]) cs c).2]
  /\ (k <= 1388)%nat.
Proof.
  destruct (emit_sends_frame demo_logger Info [104; 105]) as (k & cs & c & buf & Hemit & _ & _ & _ & Hk & _).
  - repeat split; try (unfold u16_max; cbn; lia); unfold demo_logger; cbn; bytes_solve.
  - bytes_solve.
  - exists k, cs, c. eexists. split; [exact Hemit|]. split; [reflexivity|exact Hk].
Defined.

(** The header of the logger's first packet is not accepted by a receiver: its checksum
    bytes are exchanged. *)
Theorem logged_packet_checksum_rejected :
  exists lg frame, emit demo_logger Info [104; 105] = Ok lg /\ rec_sent (lg_dev lg) = [frame]
  /\ checksum (zslice frame 14 20) <> Ok 0.
Proof. do 2 eexists. split; [vm_compute; reflexivity|]. split; [reflexivity|]. by vm_compute. Qed.

(** ** Dotted addresses *)
Definition print_u8 (n : Z) : list Z :=
  if n <? 10 then [48 + n]
  else if n <? 100 then [48 + n / 10; 48 + n mod 10]
  else [48 + n / 100; 48 + n / 10 mod 10; 48 + n mod 10].

Definition ipv4_print (a b c d : Z) : list Z :=
  print_u8 a ++ 46 :: print_u8 b ++ 46 :: print_u8 c ++ 46 :: print_u8 d.

Lemma split_on_app sep a b : forallb (fun c => negb (c =? sep)) a = true ->
  split_on sep (a ++ sep :: b) = a :: split_on sep b.
Proof.
  induction a as [|x a IH]; cbn; [by rewrite Z.eqb_refl|]. intros [Hx Ha]%andb_true_iff.
  apply negb_true_iff in Hx. by rewrite Hx, IH.
Qed.

Lemma split_on_one sep a : forallb (fun c => negb (c =? sep)) a = true -> split_on sep a = [a].
Proof.
  induction a as [|x a IH]; cbn; [done|]. intros [Hx Ha]%andb_true_iff.
  apply negb_true_iff in Hx. by rewrite Hx, IH.
Qed.

Lemma print_u8_ok n : byte n ->
  parse_u8 (print_u8 n) = Some n /\ forallb (fun c => negb (c =? 46)) (print_u8 n) = true.
Proof.
  intros Hn. assert (forallb (fun k => bool_decide (parse_u8 (print_u8 (Z.of_nat k)) = Some (Z.of_nat k))
    && forallb (fun c => negb (c =? 46)) (print_u8 (Z.of_nat k))) (seq 0 256) = true) as Hall by (vm_compute; done).
  rewrite forallb_forall in Hall. specialize (Hall (Z.to_nat n)). unfold byte in Hn.
  rewrite Z2Nat.id in Hall by lia. destruct (proj1 (andb_true_iff _ _) (Hall ltac:(apply in_seq; lia))) as [H1 H2].
  by apply bool_decide_eq_true in H1.
Qed.

(** Dotted addresses: printing four bytes in decimal, separated by dots, and parsing the
    text gives the address back. *)
Lemma ipv4_parse_print (a b c d : Z) : byte a -> byte b -> byte c -> byte d ->
  ipv4_parse (ipv4_print a b c d) = Some [a; b; c; d].
Proof.
  intros [Pa Na]%print_u8_ok [Pb Nb]%print_u8_ok [Pc Nc]%print_u8_ok [Pd Nd]%print_u8_ok.
  unfold ipv4_parse, ipv4_print. rewrite !split_on_app, split_on_one by done.
  by rewrite Pa, Pb, Pc, Pd.
Qed.
