(* ===== verification/Dhcp.v ===== *)
(** * The DHCP client

    [bonder/src/dhcp.rs]: the messages of the client, the parsing of replies and the
    state machine.  Options are shown to be decoded as the list of options they encode,
    and the handshake to end bound to the lease the server acknowledged. *)

From S2P Require Import Prelude Rings Terminal Net.

Definition DHCP_MAGIC_COOKIE : list Z := [0x63; 0x82; 0x53; 0x63].

Inductive DhcpMessageType := Discover | Offer | Request | Decline | Ack | Nak | Release.

#[export] Instance DhcpMessageType_eq_dec : EqDecision DhcpMessageType.
Proof. solve_decision. Defined.

Definition message_type_from_u8 (v : Z) : option DhcpMessageType :=
  if v =? 1 then Some Discover else if v =? 2 then Some Offer else if v =? 3 then Some Request
  else if v =? 4 then Some Decline else if v =? 5 then Some Ack else if v =? 6 then Some Nak
  else if v =? 7 then Some Release else None.

(** [as u8]. *)
Definition message_type_to_u8 (t : DhcpMessageType) : Z :=
  match t with Discover => 1 | Offer => 2 | Request => 3 | Decline => 4 | Ack => 5 | Nak => 6 | Release => 7 end.

Definition OPTION_SUBNET_MASK : Z := 1.
Definition OPTION_ROUTER : Z := 3.
Definition OPTION_DNS_SERVER : Z := 6.
Definition OPTION_HOST_NAME : Z := 12.
Definition OPTION_REQUESTED_IP : Z := 50.
Definition OPTION_IP_LEASE_TIME : Z := 51.
Definition OPTION_MESSAGE_TYPE : Z := 53.
Definition OPTION_SERVER_ID : Z := 54.
Definition OPTION_PARAM_LIST : Z := 55.
Definition OPTION_END : Z := 255.

Record DhcpHeader := mkHeader {
  h_op : Z; h_htype : Z; h_hlen : Z; h_hops : Z;
  h_xid : list Z; h_secs : list Z; h_flags : list Z;
  h_ciaddr : list Z; h_yiaddr : list Z; h_siaddr : list Z; h_giaddr : list Z;
  h_chaddr : list Z; h_sname : list Z; h_file : list Z; h_magic : list Z
}.
Definition HEADER_SIZE : Z := 240.

Definition header_new (op : Z) : DhcpHeader :=
  mkHeader op 1 6 0 (replicate 4 0) (replicate 2 0) [0x80; 0x00] (replicate 4 0) (replicate 4 0) (replicate 4 0)
    (replicate 4 0) (replicate 16 0) (replicate 64 0) (replicate 128 0) DHCP_MAGIC_COOKIE.

(** The bytes of the packed structure, and the structure read from bytes. *)
Definition header_bytes (h : DhcpHeader) : list Z :=
  [h_op h; h_htype h; h_hlen h; h_hops h] ++ h_xid h ++ h_secs h ++ h_flags h ++ h_ciaddr h ++ h_yiaddr h
  ++ h_siaddr h ++ h_giaddr h ++ h_chaddr h ++ h_sname h ++ h_file h ++ h_magic h.

Definition read_header (data : list Z) : DhcpHeader :=
  mkHeader (znth 0 data 0) (znth 0 data 1) (znth 0 data 2) (znth 0 data 3)
    (zslice data 4 4) (zslice data 8 2) (zslice data 10 2) (zslice data 12 4) (zslice data 16 4) (zslice data 20 4)
    (zslice data 24 4) (zslice data 28 16) (zslice data 44 64) (zslice data 108 128) (zslice data 236 4).

Record DhcpLease := mkLease {
  ip_address : list Z; subnet_mask : list Z; router : list Z; dns_server : list Z; server_id : list Z; lease_time : Z
}.
Definition lease_new : DhcpLease :=
  mkLease (replicate 4 0) (replicate 4 0) (replicate 4 0) (replicate 4 0) (replicate 4 0) 0.

Inductive DhcpState := Initial | Selecting | Requesting | Bound | Renewing | Released.

Record DhcpClient := mkClient {
  dc_state : DhcpState; dc_xid : Z; dc_lease : DhcpLease; dc_mac : list Z; dc_retries : Z; dc_max_retries : Z
}.

Definition set_state (c : DhcpClient) (s : DhcpState) : DhcpClient :=
  mkClient s (dc_xid c) (dc_lease c) (dc_mac c) (dc_retries c) (dc_max_retries c).
Definition set_lease (c : DhcpClient) (l : DhcpLease) : DhcpClient :=
  mkClient (dc_state c) (dc_xid c) l (dc_mac c) (dc_retries c) (dc_max_retries c).
Definition set_retries (c : DhcpClient) (n : Z) : DhcpClient :=
  mkClient (dc_state c) (dc_xid c) (dc_lease c) (dc_mac c) n (dc_max_retries c).

(** [tsc] is the time-stamp counter, the source of the transaction id. *)
Definition client_new (tsc : Z) (client_mac : list Z) : DhcpClient :=
  mkClient Initial (Z.land tsc 0xFFFFFFFF) lease_new client_mac 0 3.

(** [u32::to_be_bytes] and [u32::from_be_bytes]. *)
Definition to_be_bytes32 (x : Z) : list Z :=
  [Z.shiftr x 24 mod 256; Z.shiftr x 16 mod 256; Z.shiftr x 8 mod 256; x mod 256].
Definition from_be_bytes32 (a b c d : Z) : Z := ((a * 256 + b) * 256 + c) * 256 + d.

(** The header of the client's messages: the transaction, the hardware address
    ([chaddr\[..6\].copy_from_slice]) and [ciaddr]. *)
Definition client_header (c : DhcpClient) (ciaddr : list Z) : DhcpHeader :=
  let h := header_new 1 in
  mkHeader (h_op h) (h_htype h) (h_hlen h) (h_hops h) (to_be_bytes32 (dc_xid c)) (h_secs h) (h_flags h) ciaddr
    (h_yiaddr h) (h_siaddr h) (h_giaddr h) (zsplice (replicate 16 0) 0 (dc_mac c)) (h_sname h) (h_file h) (h_magic h).

Definition build_discover (c : DhcpClient) : list Z * DhcpClient :=
  let c := set_retries (set_state c Selecting) 0 in
  let packet := header_bytes (client_header c (replicate 4 0)) in
  let packet := packet ++ [OPTION_MESSAGE_TYPE; 0x01; message_type_to_u8 Discover] in
  let packet := packet ++ [OPTION_PARAM_LIST; 0x04; OPTION_SUBNET_MASK; OPTION_ROUTER; OPTION_DNS_SERVER;
                           OPTION_IP_LEASE_TIME] in
  (packet ++ [OPTION_END], c).

Definition hostname : list Z := [102; 117; 108; 108; 101; 114; 101; 110; 101].

Definition build_request (c : DhcpClient) (offer_ip server_id : list Z) : list Z * DhcpClient :=
  let c := set_state c Requesting in
  let packet := header_bytes (client_header c (replicate 4 0)) in
  let packet := packet ++ [OPTION_MESSAGE_TYPE; 0x01; message_type_to_u8 Request] in
  let packet := packet ++ [OPTION_REQUESTED_IP; 0x04] ++ offer_ip in
  let packet := packet ++ [OPTION_SERVER_ID; 0x04] ++ server_id in
  let packet := packet ++ [OPTION_HOST_NAME; zlen hostname mod 256] ++ hostname in
  (packet ++ [OPTION_END], c).

Definition build_release (c : DhcpClient) : list Z * DhcpClient :=
  let c := set_state c Released in
  let packet := header_bytes (client_header c (ip_address (dc_lease c))) in
  let packet := packet ++ [OPTION_MESSAGE_TYPE; 0x01; message_type_to_u8 Release] in
  let packet := packet ++ [OPTION_SERVER_ID; 0x04] ++ server_id (dc_lease c) in
  (packet ++ [OPTION_END], c).

(** The effect of one option on the lease and on the message type. *)
Definition apply_option (st : DhcpLease * option DhcpMessageType) (opt : Z) (data : list Z)
    : DhcpLease * option DhcpMessageType :=
  let '(l, msg_type) := st in
  let four := take 4 data in
  if opt =? OPTION_MESSAGE_TYPE then
    match data with b :: _ => (l, message_type_from_u8 b) | [] => (l, msg_type) end
  else if zlen data <? 4 then (l, msg_type)
  else if opt =? OPTION_SUBNET_MASK then
    (mkLease (ip_address l) four (router l) (dns_server l) (server_id l) (lease_time l), msg_type)
  else if opt =? OPTION_ROUTER then
    (mkLease (ip_address l) (subnet_mask l) four (dns_server l) (server_id l) (lease_time l), msg_type)
  else if opt =? OPTION_DNS_SERVER then
    (mkLease (ip_address l) (subnet_mask l) (router l) four (server_id l) (lease_time l), msg_type)
  else if opt =? OPTION_SERVER_ID then
    (mkLease (ip_address l) (subnet_mask l) (router l) (dns_server l) four (lease_time l), msg_type)
  else if opt =? OPTION_IP_LEASE_TIME then
    (mkLease (ip_address l) (subnet_mask l) (router l) (dns_server l) (server_id l)
       (from_be_bytes32 (znth 0 data 0) (znth 0 data 1) (znth 0 data 2) (znth 0 data 3)), msg_type)
  else (l, msg_type).

(** The loop over the options; [rest] is [data\[offset..\]].  Every round consumes a byte
    at least; running out of fuel is [Panic]. *)
Fixpoint option_loop (fuel : nat) (rest : list Z) (st : DhcpLease * option DhcpMessageType)
    : result NetError (DhcpLease * option DhcpMessageType) :=
  match fuel with
  | O => Panic
  | S fuel =>
    match rest with
    | [] => Ok st
    | opt :: rest1 =>
      if opt =? OPTION_END then Ok st
      else if opt =? 0 then option_loop fuel rest1 st
      else match rest1 with
           | [] => Ok st
           | opt_len :: rest2 =>
             if zlen rest2 <? opt_len then Ok st
             else option_loop fuel (drop (Z.to_nat opt_len) rest2)
                    (apply_option st opt (take (Z.to_nat opt_len) rest2))
           end
    end
  end.

Definition byte_list_eqb (a b : list Z) : bool := bool_decide (a = b).

Definition parse_response (c : DhcpClient) (data : list Z) : result NetError DhcpMessageType * DhcpClient :=
  if zlen data <? HEADER_SIZE + 4 then (Err Protocol, c) else
  let header := read_header data in
  if negb (byte_list_eqb (h_magic header) DHCP_MAGIC_COOKIE) then (Err Protocol, c) else
  if negb (h_op header =? 2) then (Err Protocol, c) else
  if negb (byte_list_eqb (h_xid header) (to_be_bytes32 (dc_xid c))) then (Err Protocol, c) else
  match option_loop (S (length data)) (drop 240 data) (dc_lease c, None) with
  | Ok (l, None) => (Err Protocol, set_lease c l)
  | Ok (l, Some msg_type) =>
    let bound := mkLease (h_yiaddr header) (subnet_mask l) (router l) (dns_server l) (server_id l) (lease_time l) in
    match msg_type with
    | Offer => (Ok msg_type, set_lease c bound)
    | Ack => (Ok msg_type, set_state (set_lease c bound) Bound)
    | _ => (Ok msg_type, set_lease c l)
    end
  | Err e => (Err e, c)
  | Panic => (Panic, c)
  end.

(** ** The wire format *)
Lemma zslice_skip (a l : list Z) off n : zlen a <= off -> zslice (a ++ l) off n = zslice l (off - zlen a) n.
Proof.
  unfold zslice, zlen. intros Ha. rewrite drop_app_ge by lia. do 2 f_equal. lia.
Qed.

Lemma zslice_start (l k : list Z) off n : off = 0 -> n = zlen l -> zslice (l ++ k) off n = l.
Proof. intros ->. apply zslice_prefix. Qed.

Record header_ok (h : DhcpHeader) : Prop := {
  ho_xid : zlen (h_xid h) = 4; ho_secs : zlen (h_secs h) = 2; ho_flags : zlen (h_flags h) = 2;
  ho_ciaddr : zlen (h_ciaddr h) = 4; ho_yiaddr : zlen (h_yiaddr h) = 4; ho_siaddr : zlen (h_siaddr h) = 4;
  ho_giaddr : zlen (h_giaddr h) = 4; ho_chaddr : zlen (h_chaddr h) = 16; ho_sname : zlen (h_sname h) = 64;
  ho_file : zlen (h_file h) = 128; ho_magic : zlen (h_magic h) = 4
}.

Lemma zlen_header h : header_ok h -> zlen (header_bytes h) = 240.
Proof. intros []. unfold header_bytes. len_solve. Qed.

Lemma read_header_bytes h k : header_ok h -> read_header (header_bytes h ++ k) = h.
Proof.
  intros []. unfold read_header, header_bytes. rewrite <- !app_assoc.
  assert (zlen [h_op h; h_htype h; h_hlen h; h_hops h] = 4) by done.
  destruct h; f_equal; [done..| | | | | | | | | | |].
  all: cbn [h_op h_htype h_hlen h_hops h_xid h_secs h_flags h_ciaddr h_yiaddr h_siaddr h_giaddr h_chaddr h_sname h_file
            h_magic] in *; repeat (rewrite zslice_skip by lia); apply zslice_start; lia.
Qed.

Lemma drop_header h k : header_ok h -> drop 240 (header_bytes h ++ k) = k.
Proof. intros Hh. apply drop_app_length'. pose proof (zlen_header h Hh) as Hz. unfold zlen in Hz. lia. Qed.

(** Options on the wire: a code, a length and that many bytes; pad bytes anywhere. *)
Inductive wire_option := Pad | Opt (code : Z) (data : list Z).

Definition option_ok (o : wire_option) : Prop :=
  match o with Pad => True | Opt code data => 0 < code < 255 /\ zlen data < 256 end.
Definition encode_option (o : wire_option) : list Z :=
  match o with Pad => [0] | Opt code data => code :: zlen data :: data end.
Definition encode (os : list wire_option) : list Z := mjoin (encode_option <$> os).

Definition option_step (st : DhcpLease * option DhcpMessageType) (o : wire_option) :=
  match o with Pad => st | Opt code data => apply_option st code data end.

Lemma encode_cons o os : encode (o :: os) = encode_option o ++ encode os.
Proof. done. Qed.

Lemma option_loop_encode os : Forall option_ok os -> forall fuel k st,
  (length (encode os) < fuel)%nat ->
  option_loop fuel (encode os ++ OPTION_END :: k) st = Ok (foldl option_step st os).
Proof.
  induction 1 as [|o os Ho _ IH]; intros fuel k st Hf; (destruct fuel as [|fuel]; [lia|]); [done|].
  rewrite encode_cons in *. rewrite length_app in Hf. destruct o as [|code data]; cbn [encode_option app length foldl option_step] in *.
  - cbn [option_loop]. change (0 =? OPTION_END) with false. cbn. apply IH. lia.
  - destruct Ho as [Hc Hd]. pose proof (zlen_nonneg data). cbn [option_loop].
    rewrite (proj2 (Z.eqb_neq code OPTION_END)), (proj2 (Z.eqb_neq code 0)) by (unfold OPTION_END; lia).
    rewrite <- app_assoc. rewrite (proj2 (Z.ltb_ge _ _)) by (rewrite zlen_app; unfold zlen in *; lia).
    unfold zlen at 1 2. rewrite Nat2Z.id, drop_app_length, take_app_length. apply IH. lia.
Qed.

Lemma option_loop_total fuel : forall rest st, (length rest < fuel)%nat -> exists st', option_loop fuel rest st = Ok st'.
Proof.
  induction fuel as [|fuel IH]; intros rest st Hf; [lia|]. cbn [option_loop].
  destruct rest as [|opt rest]; [eauto|]. cbn in Hf. destruct (opt =? OPTION_END); [eauto|].
  destruct (opt =? 0); [apply IH; lia|]. destruct rest as [|n rest]; [eauto|]. cbn in Hf.
  destruct (zlen rest <? n); [eauto|]. apply IH. rewrite length_drop. lia.
Qed.

(** ** Replies *)
Definition set_ip (l : DhcpLease) (ip : list Z) : DhcpLease :=
  mkLease ip (subnet_mask l) (router l) (dns_server l) (server_id l) (lease_time l).

(** A reply of a server in transaction [xid]. *)
Definition reply (h : DhcpHeader) (os : list wire_option) (k : list Z) : list Z :=
  header_bytes h ++ encode os ++ OPTION_END :: k.
Definition reply_ok (xid : Z) (h : DhcpHeader) (os : list wire_option) : Prop :=
  header_ok h /\ h_op h = 2 /\ h_magic h = DHCP_MAGIC_COOKIE /\ h_xid h = to_be_bytes32 xid
  /\ Forall option_ok os /\ (3 <= length (encode os))%nat.

Lemma parse_reply c h os k : reply_ok (dc_xid c) h os ->
  parse_response c (reply h os k) =
  match foldl option_step (dc_lease c, None) os with
  | (l, None) => (Err Protocol, set_lease c l)
  | (l, Some Offer) => (Ok Offer, set_lease c (set_ip l (h_yiaddr h)))
  | (l, Some Ack) => (Ok Ack, set_state (set_lease c (set_ip l (h_yiaddr h))) Bound)
  | (l, Some t) => (Ok t, set_lease c l)
  end.
Proof.
  intros (Hh & Hop & Hm & Hx & Hos & Hlen). pose proof (zlen_header h Hh) as Hz. unfold parse_response, reply.
  rewrite (proj2 (Z.ltb_ge _ _)) by (unfold HEADER_SIZE, zlen in *; rewrite !length_app; cbn [length]; lia).
  rewrite read_header_bytes, drop_header by done. unfold byte_list_eqb.
  rewrite Hm, Hop, Hx, !bool_decide_true by done. cbn [negb Z.eqb Pos.eqb].
  rewrite option_loop_encode by (done || rewrite !length_app; lia).
  destruct (foldl option_step _ os) as [l [t|]]; [|done]. by destruct t.
Qed.

(** Replies are parsed without a panic, whatever the bytes received (truncated headers,
    options cut short, unknown types included): the result is a message type or a protocol
    error; only an acknowledgement changes the state, to bound, and the transaction and the
    hardware address never change. *)
Theorem parse_response_total (c : DhcpClient) (data : list Z) :
  let '(r, c') := parse_response c data in
  (r = Err Protocol \/ exists t, r = Ok t)
  /\ dc_state c' = (if decide (r = Ok Ack) then Bound else dc_state c)
  /\ dc_xid c' = dc_xid c /\ dc_mac c' = dc_mac c.
Proof.
  unfold parse_response. cbv zeta.
  repeat match goal with
  | |- context [if ?b then (Err Protocol, c) else _] => destruct b; [split; [by left|by rewrite decide_False]|]
  end.
  destruct (option_loop_total (S (length data)) (drop 240 data) (dc_lease c, None)) as ([l t] & ->);
    [rewrite length_drop; lia|].
  destruct t as [t|]; [|split; [by left|by rewrite decide_False]].
  destruct t; (split; [eauto|]); first [by rewrite decide_True | by rewrite decide_False].
Qed.

(** ** The handshake *)
Definition addr4 (a : list Z) : Prop := zlen a = 4.
Definition lease_ok (l : DhcpLease) : Prop :=
  addr4 (ip_address l) /\ addr4 (subnet_mask l) /\ addr4 (router l) /\ addr4 (dns_server l) /\ addr4 (server_id l)
  /\ 0 <= lease_time l <= u32_max.

(** The options by which a server describes a lease. *)
Definition lease_options (t : DhcpMessageType) (l : DhcpLease) : list wire_option :=
  [Opt OPTION_MESSAGE_TYPE [message_type_to_u8 t]; Opt OPTION_SERVER_ID (server_id l);
   Opt OPTION_IP_LEASE_TIME (to_be_bytes32 (lease_time l)); Opt OPTION_SUBNET_MASK (subnet_mask l);
   Opt OPTION_ROUTER (router l); Opt OPTION_DNS_SERVER (dns_server l)].

(** Options the client does not know, and padding. *)
Definition ignored (o : wire_option) : Prop :=
  option_ok o /\ match o with
                 | Pad => True
                 | Opt code _ => ~ code ∈ [OPTION_MESSAGE_TYPE; OPTION_SERVER_ID; OPTION_IP_LEASE_TIME;
                                          OPTION_SUBNET_MASK; OPTION_ROUTER; OPTION_DNS_SERVER]
                 end.

Lemma ignored_step st o : ignored o -> option_step st o = st.
Proof.
  intros [_ Ho]. destruct o as [|code data]; [done|]. cbn. unfold apply_option.
  rewrite !elem_of_cons in Ho. destruct st as [l t].
  rewrite !(proj2 (Z.eqb_neq code _)) by tauto. by destruct (_ <? _).
Qed.

Lemma ignored_steps os : Forall ignored os -> forall st, foldl option_step st os = st.
Proof. induction 1 as [|o os Ho _ IH]; intros st; [done|]. cbn [foldl]. by rewrite ignored_step. Qed.

Lemma from_to_be32 x : 0 <= x <= u32_max ->
  from_be_bytes32 (Z.shiftr x 24 mod 256) (Z.shiftr x 16 mod 256) (Z.shiftr x 8 mod 256) (x mod 256) = x.
Proof.
  unfold u32_max, from_be_bytes32. intros Hx. rewrite !Z.shiftr_div_pow2 by lia.
  change (2 ^ 24) with (256 * 256 * 256). change (2 ^ 16) with (256 * 256). change (2 ^ 8) with 256.
  rewrite <- !Z.div_div by lia. Z.to_euclidean_division_equations. lia.
Qed.

Lemma addr4_inv a : addr4 a -> exists w x y z, a = [w; x; y; z].
Proof. unfold addr4, zlen. destruct a as [|w [|x [|y [|z [|? a]]]]]; cbn; try lia. eauto. Qed.

Lemma lease_steps l l0 t : lease_ok l ->
  foldl option_step (l0, None) (lease_options t l) = (set_ip l (ip_address l0), Some t).
Proof.
  destruct l as [ip mask rt dns sid time]. unfold lease_ok.
  cbn [ip_address subnet_mask router dns_server server_id lease_time]. intros (_ & (? & ? & ? & ? & ->)%addr4_inv & (? & ? & ? & ? & ->)%addr4_inv & (? & ? & ? & ? & ->)%addr4_inv
          & (? & ? & ? & ? & ->)%addr4_inv & Ht).
  rewrite <- (from_to_be32 time Ht) at 2. destruct t; reflexivity.
Qed.

Section Handshake.
Variables (tsc : Z) (mac : list Z) (L : DhcpLease) (offer_h ack_h : DhcpHeader) (xs ys : list wire_option) (k1 k2 : list Z).
Let c0 := client_new tsc mac.

(** A reply of the server about [L]. *)
Definition server_reply (h : DhcpHeader) : Prop :=
  header_ok h /\ h_op h = 2 /\ h_magic h = DHCP_MAGIC_COOKIE /\ h_xid h = to_be_bytes32 (dc_xid c0)
  /\ h_yiaddr h = ip_address L.

Lemma server_reply_ok h t os : server_reply h -> lease_ok L -> Forall ignored os ->
  reply_ok (dc_xid c0) h (lease_options t L ++ os).
Proof.
  intros (Hh & Hop & Hm & Hx & _) (_ & H1 & H2 & H3 & H4 & _) Hos. unfold addr4 in *. repeat split; try done; try apply Hh.
  - apply Forall_app. split; [|by eapply Forall_impl; [done|intros o [? _]]].
    repeat (apply Forall_cons; split; [cbn; unfold zlen in *; cbn; unfold OPTION_MESSAGE_TYPE, OPTION_SERVER_ID,
      OPTION_IP_LEASE_TIME, OPTION_SUBNET_MASK, OPTION_ROUTER, OPTION_DNS_SERVER; lia|]). by apply Forall_nil.
  - cbn [lease_options app]. rewrite encode_cons, length_app. cbn. lia.
Qed.

Lemma parse_server_reply c h t os k : server_reply h -> lease_ok L -> Forall ignored os -> dc_xid c = dc_xid c0 ->
  t = Offer \/ t = Ack ->
  parse_response c (reply h (lease_options t L ++ os) k)
  = (Ok t, if decide (t = Ack) then set_state (set_lease c L) Bound else set_lease c L).
Proof.
  intros Hh HL Hos Hx Ht. pose proof (server_reply_ok h t os Hh HL Hos) as Hok. rewrite <- Hx in Hok.
  rewrite parse_reply, foldl_app, lease_steps, ignored_steps by done.
  destruct Hh as (_ & _ & _ & _ & ->). destruct L. by destruct Ht as [-> | ->].
Qed.
End Handshake.

Lemma build_request_packet c ip sid : addr4 ip -> addr4 sid ->
  (build_request c ip sid).1 =
  reply (client_header c (replicate 4 0))
    [Opt OPTION_MESSAGE_TYPE [message_type_to_u8 Request]; Opt OPTION_REQUESTED_IP ip; Opt OPTION_SERVER_ID sid;
     Opt OPTION_HOST_NAME hostname] [].
Proof.
  intros (? & ? & ? & ? & ->)%addr4_inv (? & ? & ? & ? & ->)%addr4_inv. unfold build_request, reply. cbn [fst].
  change (client_header (set_state c Requesting)) with (client_header c).
  generalize (header_bytes (client_header c (replicate 4 0))) as hb. intros hb. by rewrite <- !app_assoc.
Qed.

Lemma client_header_ok c ciaddr : zlen (dc_mac c) = 6 -> addr4 ciaddr -> header_ok (client_header c ciaddr).
Proof.
  intros Hm Hc. split; try done. unfold zlen, client_header, zsplice in *. cbn [h_chaddr].
  rewrite !length_app, length_take, length_drop, length_replicate. lia.
Qed.

(** C20. The handshake: from a new client, after discover, an offer, request and an
    acknowledgement by a server that offers the lease [L] (with any further options and
    padding), the client is bound and its lease is exactly [L]; and the request it sent
    is, in the same transaction, for the offered address of that server. *)
Theorem dhcp_handshake (tsc : Z) (mac : list Z) (L : DhcpLease) (offer_h ack_h : DhcpHeader)
    (xs ys : list wire_option) (k1 k2 : list Z) :
  lease_ok L -> zlen mac = 6 -> server_reply tsc mac L offer_h -> server_reply tsc mac L ack_h ->
  Forall ignored xs -> Forall ignored ys ->
  let '(_, c1) := build_discover (client_new tsc mac) in
  let '(r1, c2) := parse_response c1 (reply offer_h (lease_options Offer L ++ xs) k1) in
  let '(request, c3) := build_request c2 (ip_address (dc_lease c2)) (server_id (dc_lease c2)) in
  let '(r2, c4) := parse_response c3 (reply ack_h (lease_options Ack L ++ ys) k2) in
  r1 = Ok Offer /\ r2 = Ok Ack /\ dc_state c4 = Bound /\ dc_lease c4 = L
  /\ exists h, header_ok h /\ h_op h = 1 /\ h_magic h = DHCP_MAGIC_COOKIE
     /\ h_xid h = to_be_bytes32 (Z.land tsc 0xFFFFFFFF) /\ take 6 (h_chaddr h) = mac
     /\ request = reply h [Opt OPTION_MESSAGE_TYPE [message_type_to_u8 Request];
                           Opt OPTION_REQUESTED_IP (ip_address L); Opt OPTION_SERVER_ID (server_id L);
                           Opt OPTION_HOST_NAME hostname] [].
Proof.
  intros HL Hmac Ho Ha Hxs Hys. cbn [build_discover].
  rewrite (parse_server_reply tsc mac L _ _ Offer) by (done || by left). rewrite decide_False by done.
  pose proof HL as (HL1 & _ & _ & _ & HL2 & _).
  set (c2 := set_lease _ L). change (dc_lease c2) with L.
  pose proof (build_request_packet c2 (ip_address L) (server_id L) HL1 HL2) as Hreq.
  destruct (build_request c2 _ _) as [request c3] eqn:Er. cbn [fst] in Hreq.
  assert (c3 = set_state c2 Requesting) as -> by by injection Er.
  rewrite (parse_server_reply tsc mac L _ _ Ack) by (done || by right). rewrite decide_True by done.
  repeat (split; [done|]). exists (client_header c2 (replicate 4 0)).
  split; [by apply client_header_ok|]. do 3 (split; [done|]).
  split; [apply (take_app_length' mac); unfold zlen in Hmac; lia|done].
Qed.

Definition demo_lease : DhcpLease := mkLease [10; 0; 0; 5] [255; 255; 255; 0] [10; 0; 0; 1] [10; 0; 0; 2] [10; 0; 0; 1] 86400.
Definition demo_reply : DhcpHeader :=
  mkHeader 2 1 6 0 (to_be_bytes32 42) (replicate 2 0) (replicate 2 0) (replicate 4 0) [10; 0; 0; 5] (replicate 4 0)
    (replicate 4 0) (replicate 16 0) (replicate 64 0) (replicate 128 0) DHCP_MAGIC_COOKIE.
Definition demo_mac : list Z := [2; 0; 0; 0; 0; 1].

Lemma dhcp_handshake_witness :
  let '(_, c1) := build_discover (client_new 42 demo_mac) in
  let '(r1, c2) := parse_response c1 (reply demo_reply (lease_options Offer demo_lease ++ [Pad]) []) in
  let '(request, c3) := build_request c2 (ip_address (dc_lease c2)) (server_id (dc_lease c2)) in
  let '(r2, c4) := parse_response c3 (reply demo_reply (lease_options Ack demo_lease ++ []) [0; 0]) in
  dc_state c4 = Bound /\ dc_lease c4 = demo_lease.
Proof.
  assert (server_reply 42 demo_mac demo_lease demo_reply) as Hs by (split; [by split|done]).
  pose proof (dhcp_handshake 42 demo_mac demo_lease demo_reply demo_reply [Pad] [] [] [0; 0]
    ltac:(repeat split; cbn; unfold u32_max; lia) eq_refl Hs Hs
    ltac:(apply Forall_cons; split; [split; exact I|apply Forall_nil; exact I]) ltac:(apply Forall_nil; exact I)) as Hd.
  destruct (build_discover _) as [p1 c1]. destruct (parse_response c1 _) as [r1 c2].
  destruct (build_request _ _ _) as [p2 c3]. destruct (parse_response c3 _) as [r2 c4].
  destruct Hd as (_ & _ & H1 & H2 & _). exact (conj H1 H2).
Defined.

(** A reply that is rejected still changes the lease. *)
Theorem rejected_reply_changes_lease :
  let c := client_new 42 demo_mac in
  let '(r, c') := parse_response c (reply demo_reply [Opt OPTION_ROUTER [6; 6; 6; 6]] []) in
  r = Err Protocol /\ router (dc_lease c) = [0; 0; 0; 0] /\ router (dc_lease c') = [6; 6; 6; 6].
Proof. by vm_compute. Qed.

(** An acknowledgement binds a client in any state, here one that has released its lease;
    a refusal leaves a bound client bound. *)
Theorem replies_ignore_state :
  let c := (build_release (client_new 42 demo_mac)).2 in
  let '(_, c1) := parse_response c (reply demo_reply (lease_options Ack demo_lease) []) in
  let '(r, c2) := parse_response c1 (reply demo_reply (lease_options Nak demo_lease) []) in
  dc_state c = Released /\ dc_state c1 = Bound /\ r = Ok Nak /\ dc_state c2 = Bound.
Proof. by vm_compute. Qed.
