(* ===== verification/Wifi.v ===== *)
(** * 802.11 management frames

    [bonder/src/wifi.rs]: network names, frame headers, the parsing of beacons and probe
    responses with their tagged elements, the frames the client builds, and the
    connection state.  The parser indexes the frame as the code does, so that an index
    out of range is visible as a panic. *)

From S2P Require Import Prelude Rings Terminal Net.

Definition SSID_MAX_LEN : Z := 32.

Record Ssid := mkSsid { ss_buf : list Z; ss_len : Z }.

#[export] Instance Ssid_eq_dec : EqDecision Ssid.
Proof. solve_decision. Defined.

Definition ssid_new (name : list Z) : Ssid :=
  let len := Z.min (zlen name) SSID_MAX_LEN in
  mkSsid (zsplice (replicate 32 0) 0 (zslice name 0 len)) len.
Definition ssid_bytes (s : Ssid) : list Z := zslice (ss_buf s) 0 (ss_len s).
Definition ssid_as_str (s : Ssid) : list Z :=
  match from_utf8 (ssid_bytes s) with None => ssid_bytes s | Some _ => [] end.
Definition ssid_is_empty (s : Ssid) : bool := ss_len s =? 0.

Inductive Security := Open | Wep | WpaPsk | Wpa2Psk | Wpa3Sae.

#[export] Instance Security_eq_dec : EqDecision Security.
Proof. solve_decision. Defined.

Definition needs_password (s : Security) : bool := match s with Open => false | _ => true end.

Record AccessPoint := mkAp {
  ap_ssid : Ssid; ap_bssid : list Z; ap_channel : Z; ap_rssi : Z; ap_security : Security; ap_beacon_interval : Z
}.

Inductive FrameType := Management | Control | Data.
Definition frame_type_from_u8 (v : Z) : option FrameType :=
  if v =? 0 then Some Management else if v =? 1 then Some Control else if v =? 2 then Some Data else None.

Inductive MgmtSubtype :=
| AssociationRequest | AssociationResponse | ReassociationRequest | ReassociationResponse
| ProbeRequest | ProbeResponse | Beacon | Disassociation | Authentication | Deauthentication | Action.
Definition subtype_from_u8 (v : Z) : option MgmtSubtype :=
  if v =? 0 then Some AssociationRequest else if v =? 1 then Some AssociationResponse
  else if v =? 2 then Some ReassociationRequest else if v =? 3 then Some ReassociationResponse
  else if v =? 4 then Some ProbeRequest else if v =? 5 then Some ProbeResponse
  else if v =? 8 then Some Beacon else if v =? 10 then Some Disassociation
  else if v =? 11 then Some Authentication else if v =? 12 then Some Deauthentication
  else if v =? 13 then Some Action else None.

Record WifiFrameHeader := mkWifiHeader {
  frame_control : list Z; duration_id : list Z; addr1 : list Z; addr2 : list Z; addr3 : list Z; sequence_control : list Z
}.
Definition WIFI_HEADER_SIZE : Z := 24.

Definition frame_type (h : WifiFrameHeader) : option FrameType :=
  frame_type_from_u8 (Z.land (znth 0 (frame_control h) 0) 0x03).
Definition mgmt_subtype (h : WifiFrameHeader) : option MgmtSubtype :=
  match frame_type h with
  | Some Management => subtype_from_u8 (Z.land (Z.shiftr (znth 0 (frame_control h) 0) 4) 0x0F)
  | _ => None
  end.

Record RsnInfo := mkRsn {
  rsn_version : Z; group_cipher : Z; pair_cipher_count : Z; pair_ciphers : list Z; akm_count : Z; akms : list Z
}.

Record BeaconFrame := mkBeacon {
  bf_header : WifiFrameHeader; bf_timestamp : Z; bf_beacon_interval : Z; bf_capability : Z;
  bf_ssid : option Ssid; bf_rates : list Z; bf_ds_channel : option Z; bf_rsn : option RsnInfo
}.

(** ** Parsing *)

(** [frame\[i\]], and the little-endian integers read from consecutive bytes. *)
Definition idx (frame : list Z) (i : Z) : result unit Z :=
  if (0 <=? i) && (i <? zlen frame) then Ok (znth 0 frame i) else Panic.
Fixpoint from_le (n : nat) (frame : list Z) (i : Z) : result unit Z :=
  match n with
  | O => Ok 0
  | S n => let? b := idx frame i in let? hi := from_le n frame (i + 1) in Ok (b + 256 * hi)
  end.

(** [&frame\[a..b\]]. *)
Definition slice (frame : list Z) (a b : Z) : result unit (list Z) :=
  if (0 <=? a) && (a <=? b) && (b <=? zlen frame) then Ok (zslice frame a (b - a)) else Panic.

(** [if pos + n <= tag_end { from_le_bytes(..) } else { 0 }]. *)
Definition le_or_zero (n : nat) (frame : list Z) (pos tag_end : Z) : result unit Z :=
  if pos + Z.of_nat n <=? tag_end then from_le n frame pos else Ok 0.

(** [for _ in 0..count]: the suites that fit, and the position after them. *)
Fixpoint suite_loop (count : nat) (frame : list Z) (pos tag_end : Z) (acc : list Z) : result unit (list Z * Z) :=
  match count with
  | O => Ok (acc, pos)
  | S count =>
    if pos + 4 <=? tag_end then
      let? s := from_le 4 frame pos in suite_loop count frame (pos + 4) tag_end (acc ++ [s])
    else suite_loop count frame pos tag_end acc
  end.

Definition parse_rsn (frame : list Z) (offset tag_len : Z) : result unit RsnInfo :=
  let? version := from_le 2 frame offset in
  let pos := offset + 2 in
  let tag_end := offset + tag_len in
  let? group_cipher := le_or_zero 4 frame pos tag_end in
  let pos := pos + 4 in
  let? pair_cipher_count := le_or_zero 2 frame pos tag_end in
  let pos := pos + 2 in
  let? (pair_ciphers, pos) := suite_loop (Z.to_nat pair_cipher_count) frame pos tag_end [] in
  let? akm_count := le_or_zero 2 frame pos tag_end in
  let pos := pos + 2 in
  let? (akms, _) := suite_loop (Z.to_nat akm_count) frame pos tag_end [] in
  Ok (mkRsn version group_cipher pair_cipher_count pair_ciphers akm_count akms).

(** What the elements have set so far: [ssid], [rates], [ds_channel], [rsn]. *)
Record Tags := mkTags { t_ssid : option Ssid; t_rates : list Z; t_ds : option Z; t_rsn : option RsnInfo }.

Definition parse_tag (frame : list Z) (tag_num offset tag_len : Z) (t : Tags) : result unit Tags :=
  if tag_num =? 0 then
    let len := Z.min tag_len SSID_MAX_LEN in
    let? name := slice frame offset (offset + len) in
    Ok (mkTags (Some (mkSsid (zsplice (replicate 32 0) 0 name) len)) (t_rates t) (t_ds t) (t_rsn t))
  else if tag_num =? 1 then
    let? rates := slice frame offset (offset + tag_len) in
    Ok (mkTags (t_ssid t) rates (t_ds t) (t_rsn t))
  else if tag_num =? 3 then
    if 1 <=? tag_len then let? ch := idx frame offset in Ok (mkTags (t_ssid t) (t_rates t) (Some ch) (t_rsn t))
    else Ok t
  else if (tag_num =? 48) && (2 <=? tag_len) then
    let? rsn := parse_rsn frame offset tag_len in Ok (mkTags (t_ssid t) (t_rates t) (t_ds t) (Some rsn))
  else Ok t.

(** The loop over the tagged elements; every round advances by two bytes at least. *)
Fixpoint tag_loop (fuel : nat) (frame : list Z) (offset : Z) (t : Tags) : result unit Tags :=
  match fuel with
  | O => Panic
  | S fuel =>
    if offset + 2 <=? zlen frame then
      let? tag_num := idx frame offset in
      let? tag_len := idx frame (offset + 1) in
      let offset := offset + 2 in
      if zlen frame <? offset + tag_len then Ok t
      else let? t := parse_tag frame tag_num offset tag_len t in tag_loop fuel frame (offset + tag_len) t
    else Ok t
  end.

(** [read_unaligned] of the packed header. *)
Definition read_wifi_header (frame : list Z) : WifiFrameHeader :=
  mkWifiHeader (zslice frame 0 2) (zslice frame 2 2) (zslice frame 4 6) (zslice frame 10 6) (zslice frame 16 6)
    (zslice frame 22 2).

Definition parse_beacon (frame : list Z) : result unit (option BeaconFrame) :=
  if zlen frame <? WIFI_HEADER_SIZE + 12 then Ok None else
  let header := read_wifi_header frame in
  match mgmt_subtype header with
  | Some Beacon | Some ProbeResponse =>
    let offset := WIFI_HEADER_SIZE in
    let? timestamp := from_le 8 frame offset in
    let offset := offset + 8 in
    let? beacon_interval := from_le 2 frame offset in
    let offset := offset + 2 in
    let? capability := from_le 2 frame offset in
    let offset := offset + 2 in
    let? t := tag_loop (S (length frame)) frame offset (mkTags None [] None None) in
    Ok (Some (mkBeacon header timestamp beacon_interval capability (t_ssid t) (t_rates t) (t_ds t) (t_rsn t)))
  | _ => Ok None
  end.

Fixpoint akm_security (l : list Z) : option Security :=
  match l with
  | [] => None
  | akm :: l =>
    if (akm =? 0x000FAC01) || (akm =? 0x000FAC05) then Some Wpa2Psk
    else if akm =? 0x000FAC02 then Some WpaPsk
    else if akm =? 0x000FAC08 then Some Wpa3Sae
    else akm_security l
  end.

Definition security_from_beacon (capability : Z) (rsn : option RsnInfo) : Security :=
  match (r ← rsn; akm_security (akms r)) with
  | Some s => s
  | None => if negb (Z.land (Z.shiftr capability 4) 1 =? 0) then WpaPsk else Open
  end.

(** ** Frames the client sends *)
Definition to_le_bytes16 (x : Z) : list Z := [x mod 256; Z.shiftr x 8 mod 256].

Definition build_probe_request (target : option Ssid) : list Z :=
  [0x40; 0x00] ++ [0; 0] ++ replicate 6 0xFF ++ replicate 6 0 ++ replicate 6 0xFF ++ [0; 0]
  ++ match target with Some ssid => [0; ss_len ssid mod 256] ++ ssid_bytes ssid | None => [0; 0] end
  ++ [0x01; 0x08; 0x82; 0x84; 0x8B; 0x96; 0x0C; 0x12; 0x18; 0x24]
  ++ [0x32; 0x04; 0x30; 0x48; 0x60; 0x6C] ++ [0x2D; 0x1A] ++ replicate 26 0.

Definition build_auth_frame (bssid client_mac : list Z) (seq : Z) : list Z :=
  [0xB0; 0x00] ++ [0; 0] ++ bssid ++ client_mac ++ bssid ++ [0; 0] ++ [0; 0] ++ to_le_bytes16 seq ++ [0; 0].

Definition build_assoc_request_with_security (bssid client_mac : list Z) (ssid : Ssid) (privacy : bool) : list Z :=
  [0x00; 0x00] ++ [0; 0] ++ bssid ++ client_mac ++ bssid ++ [0; 0]
  ++ [Z.lor 0x01 (if privacy then 0x10 else 0x00); 0x00] ++ [0x0A; 0x00]
  ++ [0x00; ss_len ssid mod 256] ++ ssid_bytes ssid
  ++ [0x01; 0x08; 0x82; 0x84; 0x8B; 0x96; 0x0C; 0x12; 0x18; 0x24]
  ++ if privacy then
       [0x30; 20; 0x01; 0x00; 0x00; 0x0F; 0xAC; 0x04; 0x01; 0x00; 0x00; 0x0F; 0xAC; 0x04; 0x01; 0x00;
        0x00; 0x0F; 0xAC; 0x02; 0x00; 0x00]
     else [].
Definition build_assoc_request (bssid client_mac : list Z) (ssid : Ssid) : list Z :=
  build_assoc_request_with_security bssid client_mac ssid false.

Definition build_deauth (bssid client_mac : list Z) (reason : Z) : list Z :=
  [0xC0; 0x00] ++ [0; 0] ++ bssid ++ client_mac ++ bssid ++ [0; 0] ++ to_le_bytes16 reason.

(** ** Connection state *)
Inductive WifiStatus := Disconnected | Scanning | Authenticating | Associating | Handshake | Connected | WifiError.

Record WifiConnection := mkConnection {
  wc_status : WifiStatus; wc_ssid : option Ssid; wc_bssid : option (list Z); wc_password : option (list Z);
  wc_scan_results : list AccessPoint; wc_auth_seq : Z; wc_error : option (list Z)
}.

Definition wifi_new : WifiConnection := mkConnection Disconnected None None None [] 0 None.
Definition is_connected (c : WifiConnection) : bool := match wc_status c with Connected => true | _ => false end.
Definition start_scan (c : WifiConnection) : WifiConnection :=
  mkConnection Scanning (wc_ssid c) (wc_bssid c) (wc_password c) [] (wc_auth_seq c) None.
Definition add_scan_result (c : WifiConnection) (ap : AccessPoint) : WifiConnection :=
  if existsb (fun a => bool_decide (ap_bssid a = ap_bssid ap)) (wc_scan_results c) then c
  else mkConnection (wc_status c) (wc_ssid c) (wc_bssid c) (wc_password c) (wc_scan_results c ++ [ap])
         (wc_auth_seq c) (wc_error c).
Definition finish_scan (c : WifiConnection) : WifiConnection :=
  match wc_status c with
  | Scanning => mkConnection Disconnected (wc_ssid c) (wc_bssid c) (wc_password c) (wc_scan_results c)
                  (wc_auth_seq c) (wc_error c)
  | _ => c
  end.
Definition connect (c : WifiConnection) (ssid : Ssid) (password : option (list Z)) : WifiConnection :=
  mkConnection Authenticating (Some ssid) (wc_bssid c) password (wc_scan_results c) 0 None.
Definition disconnect (c : WifiConnection) : WifiConnection :=
  mkConnection Disconnected None None None (wc_scan_results c) 0 (wc_error c).

(** ** No access out of range *)
Lemma idx_ok frame i : 0 <= i < zlen frame -> idx frame i = Ok (znth 0 frame i).
Proof. intros Hi. unfold idx. by rewrite (proj2 (Z.leb_le _ _)), (proj2 (Z.ltb_lt _ _)) by lia. Qed.

Lemma from_le_ok n frame : forall i, 0 <= i -> i + Z.of_nat n <= zlen frame -> exists v, from_le n frame i = Ok v.
Proof.
  induction n as [|n IH]; intros i Hi Hl; cbn [from_le]; [eauto|].
  rewrite idx_ok by lia. destruct (IH (i + 1)) as (v & ->); [lia..|]. eauto.
Qed.

Lemma slice_ok frame a b : 0 <= a <= b -> b <= zlen frame -> slice frame a b = Ok (zslice frame a (b - a)).
Proof. intros ??. unfold slice. by rewrite !(proj2 (Z.leb_le _ _)) by lia. Qed.

Lemma le_or_zero_ok n frame pos e : 0 <= pos -> e <= zlen frame -> exists v, le_or_zero n frame pos e = Ok v.
Proof.
  intros Hp He. unfold le_or_zero. destruct (Z.leb_spec (pos + Z.of_nat n) e); [|eauto]. apply from_le_ok; lia.
Qed.

Lemma suite_loop_ok count frame e : e <= zlen frame -> forall pos acc, 0 <= pos ->
  exists acc' pos', suite_loop count frame pos e acc = Ok (acc', pos') /\ pos <= pos'.
Proof.
  intros He. induction count as [|count IH]; intros pos acc Hp; cbn [suite_loop].
  - exists acc, pos. split; [done|lia].
  - destruct (Z.leb_spec (pos + 4) e); [|by apply IH].
    destruct (from_le_ok 4 frame pos) as (v & ->); [lia..|].
    destruct (IH (pos + 4) (acc ++ [v])) as (acc' & pos' & -> & ?); [lia|].
    do 2 eexists. split; [done|lia].
Qed.

Lemma parse_rsn_ok frame offset len : 0 <= offset -> 2 <= len -> offset + len <= zlen frame ->
  exists r, parse_rsn frame offset len = Ok r.
Proof.
  intros Ho Hl He. unfold parse_rsn.
  destruct (from_le_ok 2 frame offset) as (v & ->); [lia..|].
  destruct (le_or_zero_ok 4 frame (offset + 2) (offset + len)) as (g & ->); [lia..|].
  destruct (le_or_zero_ok 2 frame (offset + 2 + 4) (offset + len)) as (n & ->); [lia..|].
  destruct (suite_loop_ok (Z.to_nat n) frame (offset + len) ltac:(lia) (offset + 2 + 4 + 2) [])
    as (pcs & pos & -> & ?); [lia|].
  destruct (le_or_zero_ok 2 frame pos (offset + len)) as (m & ->); [lia..|].
  destruct (suite_loop_ok (Z.to_nat m) frame (offset + len) ltac:(lia) (pos + 2) []) as (ks & pos' & -> & ?); [lia|].
  eauto.
Qed.

Lemma parse_tag_ok frame tag offset len t : 0 <= offset -> 0 <= len -> offset + len <= zlen frame ->
  exists t', parse_tag frame tag offset len t = Ok t'.
Proof.
  intros Ho Hl He. unfold parse_tag. unfold SSID_MAX_LEN.
  destruct (tag =? 0); [rewrite slice_ok by lia; eauto|].
  destruct (tag =? 1); [rewrite slice_ok by lia; eauto|].
  destruct (tag =? 3); [destruct (Z.leb_spec 1 len); [rewrite idx_ok by lia|]; eauto|].
  destruct (tag =? 48); [|eauto]. cbn [andb]. destruct (Z.leb_spec 2 len); [|eauto].
  destruct (parse_rsn_ok frame offset len) as (r & ->); [lia..|]. eauto.
Qed.

Lemma znth_byte l i : bytes l -> 0 <= i < zlen l -> byte (znth 0 l i).
Proof.
  intros Hl Hi. unfold znth, zlen in *. rewrite nth_lookup.
  destruct (lookup_lt_is_Some_2 l (Z.to_nat i)) as (b & E); [lia|]. rewrite E. cbn.
  by eapply Forall_lookup_1.
Qed.

Lemma tag_loop_ok frame : bytes frame -> forall fuel offset t, 0 <= offset <= zlen frame -> zlen frame - offset < Z.of_nat fuel ->
  exists t', tag_loop fuel frame offset t = Ok t'.
Proof.
  intros Hb. induction fuel as [|fuel IH]; intros offset t Ho Hf; cbn [tag_loop].
  - exfalso. lia.
  - destruct (Z.leb_spec (offset + 2) (zlen frame)); [|eauto]. rewrite !idx_ok by lia.
    pose proof (znth_byte frame (offset + 1) Hb ltac:(lia)) as Hl. unfold byte in Hl.
    destruct (Z.ltb_spec (zlen frame) (offset + 2 + znth 0 frame (offset + 1))); [eauto|].
    destruct (parse_tag_ok frame (znth 0 frame offset) (offset + 2) (znth 0 frame (offset + 1)) t) as (t' & ->); [lia..|].
    apply IH; lia.
Qed.

(** Beacons are parsed without an access out of range: whatever the bytes of a frame
    (truncated elements, lengths and suite counts that lie included), [parse_beacon]
    terminates without a panic. *)
Theorem parse_beacon_safe (frame : list Z) : bytes frame -> exists r, parse_beacon frame = Ok r.
Proof.
  intros Hb. unfold parse_beacon, WIFI_HEADER_SIZE. destruct (Z.ltb_spec (zlen frame) (24 + 12)); [eauto|].
  assert (exists r, (let? timestamp := from_le 8 frame 24 in
    let? beacon_interval := from_le 2 frame (24 + 8) in
    let? capability := from_le 2 frame (24 + 8 + 2) in
    let? t := tag_loop (S (length frame)) frame (24 + 8 + 2 + 2) (mkTags None [] None None) in
    Ok (Some (mkBeacon (read_wifi_header frame) timestamp beacon_interval capability (t_ssid t) (t_rates t) (t_ds t)
                (t_rsn t)))) = Ok r :> result unit _) as [r Hr].
  { destruct (from_le_ok 8 frame 24) as (ts & ->); [lia..|].
    destruct (from_le_ok 2 frame (24 + 8)) as (bi & ->); [lia..|].
    destruct (from_le_ok 2 frame (24 + 8 + 2)) as (cp & ->); [lia..|].
    destruct (tag_loop_ok frame Hb (S (length frame)) (24 + 8 + 2 + 2) (mkTags None [] None None)) as (t & ->);
      [lia|unfold zlen; lia|]. eauto. }
  destruct (mgmt_subtype _) as [[]|]; eauto.
Qed.

Lemma parse_beacon_safe_witness : exists r, parse_beacon (0x80 :: replicate 35 0 ++ [48; 20; 1]) = Ok r.
Proof.
  apply parse_beacon_safe. apply Forall_cons. split; [unfold byte; lia|]. apply Forall_app. split; [|bytes_solve].
  apply Forall_replicate. unfold byte. lia.
Defined.

(** ** Elements are read as they are encoded *)
Section Local.
Variables (a data post : list Z).
Let frame := a ++ data ++ post.

Lemma zlen_frame : zlen frame = zlen a + zlen data + zlen post.
Proof. unfold frame. rewrite !zlen_app. lia. Qed.

Lemma idx_local i : 0 <= i < zlen data -> idx frame (zlen a + i) = idx data i.
Proof.
  intros Hi. pose proof (zlen_nonneg a). pose proof (zlen_nonneg post).
  rewrite !idx_ok by (rewrite ?zlen_frame; lia). unfold frame.
  rewrite znth_app by lia. rewrite (proj2 (Z.ltb_ge _ _)) by lia.
  rewrite znth_app by lia. rewrite (proj2 (Z.ltb_lt _ _)) by lia. do 2 f_equal. lia.
Qed.

Lemma from_le_local n : forall i, 0 <= i -> i + Z.of_nat n <= zlen data -> from_le n frame (zlen a + i) = from_le n data i.
Proof.
  induction n as [|n IH]; intros i Hi Hl; cbn [from_le]; [done|].
  rewrite idx_local by lia. rewrite <- Z.add_assoc, IH by lia. done.
Qed.

Lemma slice_local i j : 0 <= i <= j -> j <= zlen data -> slice frame (zlen a + i) (zlen a + j) = slice data i j.
Proof.
  intros Hi Hj. pose proof (zlen_nonneg a). pose proof (zlen_nonneg post).
  rewrite !slice_ok by (rewrite ?zlen_frame; lia). f_equal. unfold frame.
  apply (znth_ext 0).
  { rewrite !zlen_zslice by (rewrite ?zlen_app; lia). lia. }
  intros k Hk. rewrite zlen_zslice in Hk by (rewrite ?zlen_app; lia).
  rewrite !znth_zslice by (rewrite ?zlen_app; lia). rewrite znth_app by lia. rewrite (proj2 (Z.ltb_ge _ _)) by lia.
  rewrite znth_app by lia. rewrite (proj2 (Z.ltb_lt _ _)) by lia. f_equal. lia.
Qed.

Lemma le_or_zero_local n pos e : 0 <= pos -> e <= zlen data ->
  le_or_zero n frame (zlen a + pos) (zlen a + e) = le_or_zero n data pos e.
Proof.
  intros Hp He. unfold le_or_zero. replace (zlen a + pos + Z.of_nat n <=? zlen a + e) with (pos + Z.of_nat n <=? e).
  - destruct (Z.leb_spec (pos + Z.of_nat n) e); [|done]. apply from_le_local; lia.
  - destruct (Z.leb_spec (pos + Z.of_nat n) e); symmetry; [apply Z.leb_le|apply Z.leb_gt]; lia.
Qed.

Lemma suite_loop_local count e : e <= zlen data -> forall pos acc, 0 <= pos ->
  suite_loop count frame (zlen a + pos) (zlen a + e) acc =
  let? (acc', pos') := suite_loop count data pos e acc in Ok (acc', zlen a + pos').
Proof.
  intros He. induction count as [|count IH]; intros pos acc Hp; cbn [suite_loop]; [done|].
  replace (zlen a + pos + 4 <=? zlen a + e) with (pos + 4 <=? e).
  - destruct (Z.leb_spec (pos + 4) e); [|by apply IH]. rewrite from_le_local by lia.
    destruct (from_le_ok 4 data pos) as (v & ->); [lia..|]. rewrite <- Z.add_assoc, IH by lia. done.
  - destruct (Z.leb_spec (pos + 4) e); symmetry; [apply Z.leb_le|apply Z.leb_gt]; lia.
Qed.

Lemma parse_rsn_local : 2 <= zlen data -> parse_rsn frame (zlen a) (zlen data) = parse_rsn data 0 (zlen data).
Proof.
  intros Hl. unfold parse_rsn. rewrite !Z.add_0_l. rewrite <- (Z.add_0_r (zlen a)) at 1.
  rewrite from_le_local by lia. destruct (from_le_ok 2 data 0) as (v & ->); [lia..|].
  rewrite le_or_zero_local by lia. destruct (le_or_zero_ok 4 data 2 (zlen data)) as (g & ->); [lia..|].
  rewrite <- !Z.add_assoc, le_or_zero_local by lia.
  destruct (le_or_zero_ok 2 data (2 + 4) (zlen data)) as (n & ->); [lia..|].
  rewrite suite_loop_local by lia. change (2 + (4 + 2)) with 8.
  destruct (suite_loop_ok (Z.to_nat n) data (zlen data) ltac:(lia) 8 []) as (pcs & pos & -> & ?); [lia|].
  rewrite le_or_zero_local by lia. destruct (le_or_zero_ok 2 data pos (zlen data)) as (m & ->); [lia..|].
  rewrite <- Z.add_assoc, suite_loop_local by lia.
  destruct (suite_loop_ok (Z.to_nat m) data (zlen data) ltac:(lia) (pos + 2) []) as (ks & pos' & -> & ?); [lia|]. done.
Qed.

Lemma parse_tag_local tag t : parse_tag frame tag (zlen a) (zlen data) t = parse_tag data tag 0 (zlen data) t.
Proof.
  pose proof (zlen_nonneg data). unfold parse_tag, SSID_MAX_LEN. rewrite !Z.add_0_l. rewrite <- (Z.add_0_r (zlen a)).
  rewrite <- !Z.add_assoc, !Z.add_0_l. rewrite !slice_local by lia.
  destruct (tag =? 0); [done|]. destruct (tag =? 1); [done|].
  destruct (tag =? 3); [destruct (Z.leb_spec 1 (zlen data)); [|done]; by rewrite idx_local by lia|].
  destruct (tag =? 48); [|done]. cbn [andb]. destruct (Z.leb_spec 2 (zlen data)); [|done].
  by rewrite Z.add_0_r, parse_rsn_local by lia.
Qed.
End Local.

(** An element on the wire, and what it means by itself. *)
Definition element_ok (e : Z * list Z) : Prop := byte e.1 /\ zlen e.2 < 256 /\ bytes e.2.
Definition element_bytes (e : Z * list Z) : list Z := e.1 :: zlen e.2 :: e.2.
Definition element_step (t : Tags) (e : Z * list Z) : Tags :=
  match parse_tag e.2 e.1 0 (zlen e.2) t with Ok t' => t' | _ => t end.
Definition elements_bytes (es : list (Z * list Z)) : list Z := mjoin (element_bytes <$> es).

Lemma elements_cons e es : elements_bytes (e :: es) = element_bytes e ++ elements_bytes es.
Proof. done. Qed.

Lemma tag_loop_elements es : Forall element_ok es -> forall fuel a t, (length (elements_bytes es) < fuel)%nat ->
  tag_loop fuel (a ++ elements_bytes es) (zlen a) t = Ok (foldl element_step t es).
Proof.
  induction 1 as [|[tag data] es [Ht [Hd Hb]] _ IH]; intros fuel a t Hf; (destruct fuel as [|fuel]; [lia|]);
    cbn [tag_loop].
  { cbn. rewrite (proj2 (Z.leb_gt _ _)) by (rewrite zlen_app, zlen_nil; lia). done. }
  rewrite elements_cons in *. rewrite length_app in Hf. unfold element_bytes in *. cbn [fst snd length] in *.
  pose proof (zlen_nonneg data). pose proof (zlen_nonneg (elements_bytes es)). pose proof (zlen_nonneg a).
  change ((tag :: zlen data :: data) ++ ?k) with ([tag; zlen data] ++ data ++ k).
  assert (Hz : zlen (a ++ [tag; zlen data] ++ data ++ elements_bytes es)
               = zlen a + 2 + zlen data + zlen (elements_bytes es)) by (rewrite !zlen_app, !zlen_cons, zlen_nil; lia).
  rewrite (proj2 (Z.leb_le _ _)) by lia.
  pose proof (idx_local a [tag; zlen data] (data ++ elements_bytes es) 0 ltac:(done)) as E0. rewrite Z.add_0_r in E0.
  rewrite E0, (idx_local a [tag; zlen data] (data ++ elements_bytes es) 1) by done.
  change (idx [tag; zlen data] 0) with (@Ok unit Z tag). change (idx [tag; zlen data] 1) with (@Ok unit Z (zlen data)).
  cbv beta iota zeta. rewrite (proj2 (Z.ltb_ge _ _)) by lia.
  replace (a ++ [tag; zlen data] ++ data ++ elements_bytes es)
    with ((a ++ [tag; zlen data]) ++ data ++ elements_bytes es) by (by rewrite <- app_assoc).
  replace (zlen a + 2) with (zlen (a ++ [tag; zlen data])) by (rewrite zlen_app; done).
  rewrite parse_tag_local. destruct (parse_tag_ok data tag 0 (zlen data) t) as (t' & E); [lia..|]. rewrite E.
  cbn [foldl]. assert (element_step t (tag, data) = t') as -> by (unfold element_step; cbn [fst snd]; by rewrite E).
  rewrite app_assoc, <- zlen_app. apply IH. lia.
Qed.

(** ** The RSN element *)
Fixpoint to_le (n : nat) (x : Z) : list Z :=
  match n with O => [] | S n => x mod 256 :: to_le n (x / 256) end.

Lemma length_to_le n x : length (to_le n x) = n.
Proof. revert x. induction n; intros x; cbn; auto. Qed.

Lemma bytes_to_le n x : bytes (to_le n x).
Proof.
  revert x. induction n as [|n IH]; intros x; cbn; [constructor|].
  apply List.Forall_cons; [apply Z.mod_pos_bound; lia|apply IH].
Qed.

Lemma from_le_to_le n : forall x a post, 0 <= x < 256 ^ Z.of_nat n ->
  from_le n (a ++ to_le n x ++ post) (zlen a) = Ok x.
Proof.
  induction n as [|n IH]; intros x a post Hx; [cbn in *; f_equal; lia|].
  rewrite Nat2Z.inj_succ, Z.pow_succ_r in Hx by lia. cbn [from_le to_le app].
  pose proof (idx_local a [x mod 256] (to_le n (x / 256) ++ post) 0 ltac:(done)) as E. rewrite Z.add_0_r in E.
  cbn [app] in E. rewrite E. change (idx [x mod 256] 0) with (@Ok unit Z (x mod 256)). cbv beta iota.
  replace (a ++ x mod 256 :: to_le n (x / 256) ++ post)
    with ((a ++ [x mod 256]) ++ to_le n (x / 256) ++ post) by (by rewrite <- app_assoc).
  replace (zlen a + 1) with (zlen (a ++ [x mod 256])) by (rewrite zlen_app; done).
  rewrite IH by (split; [apply Z.div_pos; lia|apply Z.div_lt_upper_bound; lia]).
  f_equal. pose proof (Z.div_mod x 256 ltac:(lia)). lia.
Qed.

Definition suites (l : list Z) : list Z := mjoin (to_le 4 <$> l).

Lemma suites_cons x l : suites (x :: l) = to_le 4 x ++ suites l.
Proof. done. Qed.

Lemma length_suites l : length (suites l) = (4 * length l)%nat.
Proof. induction l as [|x l IH]; [done|]. rewrite suites_cons, length_app, IH, length_to_le. cbn. lia. Qed.

Definition u32 (x : Z) : Prop := 0 <= x < 256 ^ 4.

Lemma suite_loop_suites l : Forall u32 l -> forall a post acc e,
  zlen a + zlen (suites l) <= e ->
  suite_loop (length l) (a ++ suites l ++ post) (zlen a) e acc = Ok (acc ++ l, zlen a + zlen (suites l)).
Proof.
  induction 1 as [|x l Hx _ IH]; intros a post acc e He; cbn [length suite_loop].
  { rewrite app_nil_r, Z.add_0_r. done. }
  rewrite suites_cons in *. rewrite zlen_app in *. pose proof (zlen_nonneg (suites l)).
  assert (zlen (to_le 4 x) = 4) as H4 by done. rewrite (proj2 (Z.leb_le _ _)) by lia.
  rewrite <- app_assoc. rewrite from_le_to_le by done.
  rewrite (app_assoc a). replace (zlen a + 4) with (zlen (a ++ to_le 4 x)) by (rewrite zlen_app; lia).
  rewrite IH by (rewrite zlen_app; lia). rewrite zlen_app, <- app_assoc. cbn [app]. do 2 f_equal. lia.
Qed.

(** The element of a network: version, group cipher, the pairwise ciphers and the key
    management suites, each list after its length, and the capabilities. *)
Definition rsn_bytes (version group : Z) (pcs ks caps : list Z) : list Z :=
  to_le 2 version ++ to_le 4 group ++ to_le 2 (zlen pcs) ++ suites pcs ++ to_le 2 (zlen ks) ++ suites ks ++ caps.

Lemma zlen_suites l : zlen (suites l) = 4 * zlen l.
Proof. unfold zlen. rewrite length_suites. lia. Qed.

Lemma zlen_to_le n x : zlen (to_le n x) = Z.of_nat n.
Proof. unfold zlen. by rewrite length_to_le. Qed.

Lemma parse_rsn_bytes version group pcs ks caps :
  0 <= version < 65536 -> u32 group -> Forall u32 pcs -> Forall u32 ks -> zlen (rsn_bytes version group pcs ks caps) < 256 ->
  parse_rsn (rsn_bytes version group pcs ks caps) 0 (zlen (rsn_bytes version group pcs ks caps))
  = Ok (mkRsn version group (zlen pcs) pcs (zlen ks) ks).
Proof.
  intros Hv Hg Hp Hk Hlen. set (d := rsn_bytes version group pcs ks caps) in *.
  assert (Hz : zlen d = 2 + (4 + (2 + (4 * zlen pcs + (2 + (4 * zlen ks + zlen caps)))))).
  { unfold d, rsn_bytes. rewrite !zlen_app, !zlen_suites, !zlen_to_le. lia. }
  pose proof (zlen_nonneg pcs). pose proof (zlen_nonneg ks). pose proof (zlen_nonneg caps).
  unfold parse_rsn, le_or_zero. rewrite !Z.add_0_l. change (Z.of_nat 4) with 4. change (Z.of_nat 2) with 2.
  rewrite !(proj2 (Z.leb_le _ (zlen d))) by lia.
  assert (from_le 2 d 0 = Ok version) as ->.
  { apply (from_le_to_le 2 version []). lia. }
  assert (from_le 4 d 2 = Ok group) as ->.
  { apply (from_le_to_le 4 group (to_le 2 version)). done. }
  assert (from_le 2 d (2 + 4) = Ok (zlen pcs)) as ->.
  { unfold d, rsn_bytes. rewrite app_assoc.
    apply (from_le_to_le 2 (zlen pcs) (to_le 2 version ++ to_le 4 group)). lia. }
  assert (d = (to_le 2 version ++ to_le 4 group ++ to_le 2 (zlen pcs)) ++ suites pcs
              ++ to_le 2 (zlen ks) ++ suites ks ++ caps) as E1 by (unfold d, rsn_bytes; by rewrite <- !app_assoc).
  assert (suite_loop (Z.to_nat (zlen pcs)) d (2 + 4 + 2) (zlen d) [] = Ok (pcs, 8 + 4 * zlen pcs)) as ->.
  { unfold zlen at 1. rewrite Nat2Z.id, E1 at 1.
    change (2 + 4 + 2) with (zlen (to_le 2 version ++ to_le 4 group ++ to_le 2 (zlen pcs))).
    rewrite suite_loop_suites; [by rewrite zlen_suites|done|].
    rewrite zlen_suites, !zlen_app, !zlen_to_le. lia. }
  rewrite (proj2 (Z.leb_le _ (zlen d))) by lia.
  set (p := (to_le 2 version ++ to_le 4 group ++ to_le 2 (zlen pcs)) ++ suites pcs).
  assert (zlen p = 8 + 4 * zlen pcs) as Hpz by (unfold p; rewrite zlen_app, zlen_suites; done).
  assert (d = p ++ to_le 2 (zlen ks) ++ suites ks ++ caps) as E2 by (unfold p; by rewrite E1, <- !app_assoc).
  rewrite <- Hpz. assert (from_le 2 d (zlen p) = Ok (zlen ks)) as ->.
  { rewrite E2. apply from_le_to_le. lia. }
  assert (suite_loop (Z.to_nat (zlen ks)) d (zlen p + 2) (zlen d) [] = Ok (ks, zlen p + 2 + 4 * zlen ks)) as ->.
  { unfold zlen at 1. rewrite Nat2Z.id. replace (zlen p + 2) with (zlen (p ++ to_le 2 (zlen ks))) by (rewrite zlen_app; done).
    rewrite E2 at 1. rewrite (app_assoc p). rewrite suite_loop_suites; [|done|].
    - rewrite zlen_suites. done.
    - rewrite zlen_suites, zlen_app, zlen_to_le. lia. }
  done.
Qed.

(** ** Beacons *)
Definition wifi_header_ok (h : WifiFrameHeader) : Prop :=
  zlen (frame_control h) = 2 /\ zlen (duration_id h) = 2 /\ zlen (addr1 h) = 6 /\ zlen (addr2 h) = 6
  /\ zlen (addr3 h) = 6 /\ zlen (sequence_control h) = 2.
Definition wifi_header_bytes (h : WifiFrameHeader) : list Z :=
  frame_control h ++ duration_id h ++ addr1 h ++ addr2 h ++ addr3 h ++ sequence_control h.

Definition beacon_bytes (h : WifiFrameHeader) (ts bi cap : Z) (es : list (Z * list Z)) : list Z :=
  wifi_header_bytes h ++ to_le 8 ts ++ to_le 2 bi ++ to_le 2 cap ++ elements_bytes es.

Lemma read_wifi_header_bytes h k : wifi_header_ok h -> read_wifi_header (wifi_header_bytes h ++ k) = h.
Proof.
  intros (H1 & H2 & H3 & H4 & H5 & H6). unfold read_wifi_header, wifi_header_bytes. rewrite <- !app_assoc.
  destruct h as [fc du a1 a2 a3 sc]. cbn [frame_control duration_id addr1 addr2 addr3 sequence_control] in *.
  f_equal; unfold zslice, zlen in *; rewrite ?drop_0; rewrite ?drop_app_ge by lia; rewrite ?drop_app_ge by lia.
  all: repeat (rewrite drop_app_ge by lia).
  all: rewrite ?drop_0; try (apply take_app_length'; lia).
  all: match goal with |- context [drop ?n _] => replace n with 0%nat by lia end; rewrite drop_0; apply take_app_length'; lia.
Qed.

(** A network as its beacon describes it. *)
Record Network := mkNetwork {
  nw_name : list Z; nw_rates : list Z; nw_channel : Z;
  nw_rsn : option (Z * Z * list Z * list Z * list Z); nw_other : list (Z * list Z)
}.

Definition known_tag (tag : Z) : Prop := tag = 0 \/ tag = 1 \/ tag = 3 \/ tag = 48.

Definition network_elements (n : Network) : list (Z * list Z) :=
  [(0, nw_name n); (1, nw_rates n); (3, [nw_channel n])]
  ++ match nw_rsn n with
     | Some (v, g, pcs, ks, caps) => [(48, rsn_bytes v g pcs ks caps)]
     | None => []
     end
  ++ nw_other n.

Definition network_ok (n : Network) : Prop :=
  Forall element_ok (network_elements n) /\ Forall (fun e => ~ known_tag e.1) (nw_other n)
  /\ match nw_rsn n with
     | Some (v, g, pcs, ks, caps) => 0 <= v < 65536 /\ u32 g /\ Forall u32 pcs /\ Forall u32 ks
     | None => True
     end.

Lemma other_step t e : ~ known_tag e.1 -> element_step t e = t.
Proof.
  intros Hk. unfold element_step, parse_tag. unfold known_tag in Hk.
  rewrite !(proj2 (Z.eqb_neq e.1 _)) by tauto. done.
Qed.

Lemma network_tags n : network_ok n ->
  foldl element_step (mkTags None [] None None) (network_elements n) =
  mkTags (Some (ssid_new (nw_name n))) (nw_rates n) (Some (nw_channel n))
    (match nw_rsn n with
     | Some (v, g, pcs, ks, caps) => Some (mkRsn v g (zlen pcs) pcs (zlen ks) ks)
     | None => None
     end).
Proof.
  intros (He & Ho & Hr). destruct n as [name rates ch rsn other].
  unfold network_elements in *. cbn [nw_name nw_rates nw_channel nw_rsn nw_other] in *.
  rewrite !foldl_app. cbn [foldl].
  pose proof (zlen_nonneg name). pose proof (zlen_nonneg rates).
  assert (element_step (mkTags None [] None None) (0, name) = mkTags (Some (ssid_new name)) [] None None) as ->.
  { unfold element_step, parse_tag, ssid_new, SSID_MAX_LEN. cbn [fst snd Z.eqb].
    rewrite slice_ok by lia. by rewrite Z.add_0_l, Z.sub_0_r. }
  assert (element_step (mkTags (Some (ssid_new name)) [] None None) (1, rates)
          = mkTags (Some (ssid_new name)) rates None None) as ->.
  { unfold element_step, parse_tag. cbn [fst snd Z.eqb Pos.eqb]. rewrite slice_ok by lia.
    rewrite Z.add_0_l, Z.sub_0_r, zslice_full by lia. done. }
  change (element_step (mkTags (Some (ssid_new name)) rates None None) (3, [ch]))
    with (mkTags (Some (ssid_new name)) rates (Some ch) None).
  assert (Hother : forall t, foldl element_step t other = t).
  { clear -Ho. induction Ho as [|e other He _ IH]; intros t; [done|]. cbn [foldl]. by rewrite other_step. }
  rewrite Hother. destruct rsn as [[[[[v g] pcs] ks] caps]|]; [|done]. cbn [foldl]. unfold element_step, parse_tag.
  cbn [fst snd Z.eqb Pos.eqb andb].
  rewrite !Forall_app in He. destruct He as (_ & He & _). apply Forall_cons in He as [(_ & Hl & _) _]. cbn [snd] in Hl.
  destruct Hr as (H1 & H2 & H3 & H4). rewrite (proj2 (Z.leb_le _ _)).
  - by rewrite parse_rsn_bytes.
  - unfold rsn_bytes. rewrite !zlen_app, !zlen_to_le. pose proof (zlen_nonneg caps). pose proof (zlen_nonneg (suites pcs)).
    pose proof (zlen_nonneg (suites ks)). lia.
Qed.

(** Beacons round trip: from the beacon (or probe response) of a network, with any
    further elements, the parser recovers the header, the timestamp, the interval and the
    capabilities, the network name (its first 32 bytes), the rates, the channel and the
    security suites. *)
Theorem parse_beacon_network (h : WifiFrameHeader) (ts bi cap : Z) (n : Network) :
  wifi_header_ok h -> znth 0 (frame_control h) 0 = 0x80 \/ znth 0 (frame_control h) 0 = 0x50 ->
  0 <= ts < 2 ^ 64 -> 0 <= bi < 2 ^ 16 -> 0 <= cap < 2 ^ 16 -> network_ok n ->
  parse_beacon (beacon_bytes h ts bi cap (network_elements n)) =
  Ok (Some (mkBeacon h ts bi cap (Some (ssid_new (nw_name n))) (nw_rates n) (Some (nw_channel n))
        (match nw_rsn n with
         | Some (v, g, pcs, ks, caps) => Some (mkRsn v g (zlen pcs) pcs (zlen ks) ks)
         | None => None
         end))).
Proof.
  intros Hh Hfc Hts Hbi Hcap Hn. unfold parse_beacon, beacon_bytes.
  assert (zlen (wifi_header_bytes h) = 24) as Hl.
  { destruct Hh as (H1 & H2 & H3 & H4 & H5 & H6). unfold wifi_header_bytes. rewrite !zlen_app. lia. }
  set (es := elements_bytes (network_elements n)). set (hb := wifi_header_bytes h) in *.
  assert (Hz : zlen (hb ++ to_le 8 ts ++ to_le 2 bi ++ to_le 2 cap ++ es) = 36 + zlen es).
  { rewrite !zlen_app, !zlen_to_le. lia. }
  pose proof (zlen_nonneg es). rewrite (proj2 (Z.ltb_ge _ _)) by (unfold WIFI_HEADER_SIZE; lia).
  unfold hb. rewrite read_wifi_header_bytes by done. fold hb. unfold WIFI_HEADER_SIZE. rewrite <- Hl.
  rewrite from_le_to_le by (change (256 ^ Z.of_nat 8) with (2 ^ 64); lia).
  assert (zlen hb + 8 = zlen (hb ++ to_le 8 ts)) as -> by (by rewrite zlen_app).
  rewrite (app_assoc hb). rewrite from_le_to_le by (change (256 ^ Z.of_nat 2) with (2 ^ 16); lia).
  assert (zlen (hb ++ to_le 8 ts) + 2 = zlen ((hb ++ to_le 8 ts) ++ to_le 2 bi)) as -> by (by rewrite (zlen_app _ (to_le 2 bi))).
  rewrite (app_assoc (hb ++ to_le 8 ts)). rewrite from_le_to_le by (change (256 ^ Z.of_nat 2) with (2 ^ 16); lia).
  set (a := (hb ++ to_le 8 ts) ++ to_le 2 bi). assert (zlen a + 2 = zlen (a ++ to_le 2 cap)) as -> by (by rewrite (zlen_app a)).
  rewrite (app_assoc a). unfold es. destruct Hn as (Hes & Hn2). rewrite tag_loop_elements; [|done|rewrite length_app; lia].
  rewrite network_tags by done. unfold mgmt_subtype, frame_type. by destruct Hfc as [-> | ->].
Qed.

Definition demo_network : Network :=
  mkNetwork [104; 111; 109; 101] [0x82; 0x84] 6 (Some (1, 0x04AC0F00, [0x04AC0F00], [0x02AC0F00], [0; 0])) [(42, [7])].
Definition demo_beacon : WifiFrameHeader :=
  mkWifiHeader [0x80; 0] [0; 0] (replicate 6 255) (replicate 6 1) (replicate 6 1) [0; 0].

Lemma parse_beacon_network_witness :
  parse_beacon (beacon_bytes demo_beacon 5 100 0x11 (network_elements demo_network)) =
  Ok (Some (mkBeacon demo_beacon 5 100 0x11 (Some (ssid_new [104; 111; 109; 101])) [0x82; 0x84] (Some 6)
        (Some (mkRsn 1 0x04AC0F00 1 [0x04AC0F00] 1 [0x02AC0F00])))).
Proof.
  apply (parse_beacon_network demo_beacon 5 100 0x11 demo_network).
  - repeat split.
  - left. reflexivity.
  - lia.
  - lia.
  - lia.
  - split; [|split].
    + let l := eval vm_compute in (network_elements demo_network) in change (network_elements demo_network) with l.
      repeat (apply Forall_cons; split; [split; [unfold byte; cbn; lia|split; [vm_compute; reflexivity|cbn; bytes_solve]]|]).
      apply Forall_nil. exact I.
    + apply Forall_cons. split; [unfold known_tag; cbn; lia|apply Forall_nil; exact I].
    + cbn. unfold u32. split; [lia|]. split; [lia|].
      split; (apply Forall_cons; split; [lia|apply Forall_nil; exact I]).
Defined.

(** ** Scan results *)

(** Scanning lists every access point once: after any sequence of results the BSSIDs are
    distinct, and exactly the BSSIDs reported since the scan started are listed. *)
Theorem scan_results_distinct (c : WifiConnection) (aps : list AccessPoint) :
  let results := wc_scan_results (foldl add_scan_result (start_scan c) aps) in
  NoDup (ap_bssid <$> results) /\ forall b, b ∈ ap_bssid <$> results <-> b ∈ ap_bssid <$> aps.
Proof.
  cbv zeta. assert (Hgen : forall c, NoDup (ap_bssid <$> wc_scan_results c) ->
    let r := wc_scan_results (foldl add_scan_result c aps) in
    NoDup (ap_bssid <$> r) /\ forall b, b ∈ ap_bssid <$> r <-> b ∈ ap_bssid <$> wc_scan_results c \/ b ∈ ap_bssid <$> aps).
  { clear c. induction aps as [|ap aps IH]; intros c Hc; cbn [foldl].
    { split; [done|]. intros b. cbn. rewrite elem_of_nil. tauto. }
    assert (Hone : NoDup (ap_bssid <$> wc_scan_results (add_scan_result c ap))
      /\ forall b, b ∈ ap_bssid <$> wc_scan_results (add_scan_result c ap)
                   <-> b ∈ ap_bssid <$> wc_scan_results c \/ b = ap_bssid ap).
    { unfold add_scan_result. destruct (existsb _ _) eqn:E.
      - apply existsb_exists in E as (x & Hx & Hb). apply bool_decide_eq_true in Hb.
        split; [done|]. intros b. split; [by left|]. intros [?| ->]; [done|].
        rewrite <- Hb. apply list_elem_of_fmap_2. by apply list_elem_of_In.
      - cbn [wc_scan_results]. rewrite fmap_app. change (ap_bssid <$> [ap]) with [ap_bssid ap]. split.
        + apply NoDup_app. split; [done|]. split; [|apply NoDup_singleton].
          intros b Hb. rewrite list_elem_of_singleton. intros ->.
          apply list_elem_of_fmap in Hb as (x & Hxb & Hx). apply not_true_iff_false in E. apply E.
          apply existsb_exists. exists x. split; [by apply list_elem_of_In|by apply bool_decide_eq_true].
        + intros b. rewrite elem_of_app, list_elem_of_singleton. done. }
    destruct Hone as [H1 H2]. destruct (IH _ H1) as [H3 H4]. split; [done|]. intros b. rewrite H4, H2.
    cbn [fmap list_fmap]. rewrite elem_of_cons. tauto. }
  destruct (Hgen (start_scan c)) as [H1 H2]; [constructor|]. split; [done|]. intros b. rewrite H2. cbn.
  rewrite elem_of_nil. tauto.
Qed.

(** ** Where the code departs from the standard *)

(** The frame type is taken from the bits of the protocol version: a QoS data frame
    (type 2, subtype 8) passes as a beacon. *)
Theorem data_frame_parsed_as_beacon :
  exists b, parse_beacon (0x88 :: replicate 35 0) = Ok (Some b) /\ Z.land (Z.shiftr 0x88 2) 3 = 2.
Proof. eexists. split; [vm_compute; reflexivity|done]. Qed.

(** The key-management suites are read little-endian and compared with the big-endian
    selectors: no suite of the standard OUI 00-0F-AC is ever recognised, and a WPA2 or
    WPA3 network is reported by its privacy bit alone. *)
Theorem akm_suites_unrecognised (cap : Z) (version group : Z) (pcs : list Z) (ks : list Z) (n m : Z) :
  Forall byte ks ->
  security_from_beacon cap
    (Some (mkRsn version group n pcs m ((fun k => 0x00 + 256 * (0x0F + 256 * (0xAC + 256 * k))) <$> ks)))
  = if negb (Z.land (Z.shiftr cap 4) 1 =? 0) then WpaPsk else Open.
Proof.
  intros Hk. unfold security_from_beacon. cbn [mbind option_bind akms].
  assert (akm_security ((fun k => 0x00 + 256 * (0x0F + 256 * (0xAC + 256 * k))) <$> ks) = None) as ->; [|done].
  induction Hk as [|k ks Hk _ IH]; [done|]. cbn [fmap list_fmap akm_security]. unfold byte in Hk.
  rewrite !(proj2 (Z.eqb_neq _ _)) by lia. done.
Qed.
