(* ===== verification/Xhci.v ===== *)
(** * The rings of the xHCI driver

    [nitrogen/src/usb/xhci/ring.rs] and [nitrogen/src/usb/dma.rs]: transfer request
    blocks, the transfer and command ring the driver fills, and the event ring the
    controller fills.  Ownership of an entry is told by a cycle bit that flips with every
    lap; each ring is shown to be a bounded queue between driver and controller. *)

From S2P Require Import Prelude Rings.

(** ** Transfer request blocks *)
Definition TRB_SIZE : Z := 16.

Module trb_type.
Definition NORMAL : Z := 1.
Definition LINK : Z := 6.
Definition NO_OP : Z := 23.
End trb_type.

Module trb_flag.
Definition CYCLE : Z := 1.
Definition TC : Z := 2.
Definition CHAIN : Z := 16.
Definition IOC : Z := 32.
Definition IDT : Z := 64.
Definition DIR_IN : Z := 65536.
Definition TRB_TYPE_SHIFT : Z := 10.
Definition TRB_TYPE_MASK : Z := Z.shiftl 0x3F 10.
End trb_flag.

Record Trb := mkTrb { params : list Z; status : Z; flags : Z }.

#[export] Instance Trb_eq_dec : EqDecision Trb.
Proof. solve_decision. Defined.

(** [u64::to_le_bytes]. *)
Fixpoint le_bytes (n : nat) (x : Z) : list Z :=
  match n with O => [] | S n => x mod 256 :: le_bytes n (x / 256) end.

Definition trb_new (ty cycle : Z) : Trb :=
  mkTrb (replicate 8 0) 0 (Z.lor cycle (Z.shiftl ty trb_flag.TRB_TYPE_SHIFT)).
Definition with_data_ptr (t : Trb) (phys : Z) : Trb := mkTrb (le_bytes 8 phys) (status t) (flags t).
Definition with_length (t : Trb) (len : Z) : Trb :=
  mkTrb (params t) (Z.lor (Z.ldiff (status t) 0x1FFFF) (Z.land len 0x1FFFF)) (flags t).
Definition with_flags (t : Trb) (f : Z) : Trb := mkTrb (params t) (status t) (Z.lor (flags t) f).
Definition set_data_ptr (t : Trb) (phys : Z) : Trb := mkTrb (le_bytes 8 phys) (status t) (flags t).
Definition set_transfer_length (t : Trb) (len : Z) : Trb :=
  mkTrb (params t) (Z.lor (Z.ldiff (status t) 0x1FFFF) (Z.land len 0x1FFFF)) (flags t).
Definition trb_type_of (t : Trb) : Z :=
  Z.shiftr (Z.land (flags t) trb_flag.TRB_TYPE_MASK) trb_flag.TRB_TYPE_SHIFT mod 256.
Definition completion_code (t : Trb) : Z := Z.land (Z.shiftr (status t) 24) 0xFF.
Definition remaining (t : Trb) : Z := Z.land (status t) 0xFFFFFF.

(** [(flags & !CYCLE) | cycle]. *)
Definition with_cycle (t : Trb) (cycle : Z) : Trb :=
  mkTrb (params t) (status t) (Z.lor (Z.ldiff (flags t) trb_flag.CYCLE) cycle).

(** ** DMA memory *)
Class DriverContext (C : Type) := {
  allocate_contiguous_frames : C -> Z -> option Z * C;
  free_contiguous_frames : C -> Z -> Z -> C
}.

Record DmaSlice := mkDma { dma_elems : list Trb; dma_phys : Z; dma_pages : Z }.

Definition zero_trb : Trb := mkTrb (replicate 8 0) 0 0.

Section Dma.
Context {C : Type} `{DriverContext C}.

(** [alloc_dma::<Trb>]: zeroed memory. *)
Definition alloc_dma (ctx : C) (n : Z) : option DmaSlice * C :=
  if n =? 0 then (None, ctx) else
  match u64_checked_mul n TRB_SIZE with
  | None => (None, ctx)
  | Some size =>
    match u64_checked_add size 4095 with
    | None => (None, ctx)
    | Some s =>
      let pages := s / 4096 in
      match u64_checked_mul pages 4096 with
      | None => (None, ctx)
      | Some _ =>
        let '(r, ctx) := allocate_contiguous_frames ctx pages in
        match r with
        | None => (None, ctx)
        | Some phys => (Some (mkDma (replicate (Z.to_nat n) zero_trb) phys pages), ctx)
        end
      end
    end
  end.
Definition free_dma (ctx : C) (phys pages : Z) : C := free_contiguous_frames ctx phys pages.
End Dma.

(** ** The transfer and command ring *)
Record Ring := mkRing { r_dma : DmaSlice; r_phys : Z; r_enq : Z; r_cycle : Z; r_len : Z }.

Definition set_elems (d : DmaSlice) (l : list Trb) : DmaSlice := mkDma l (dma_phys d) (dma_pages d).

Definition link_trb (t : Trb) (phys : Z) : Trb :=
  mkTrb (le_bytes 8 phys) (status t)
    (Z.lor (Z.lor (Z.shiftl trb_type.LINK trb_flag.TRB_TYPE_SHIFT) trb_flag.TC) trb_flag.CYCLE).

(** The ring on allocated memory of [n] entries. *)
Definition ring_on (d : DmaSlice) (n : Z) : Ring :=
  let elems := dma_elems d in
  let elems := if 1 <? n then alter (fun t => link_trb t (dma_phys d)) (Z.to_nat (n - 1)) elems else elems in
  mkRing (set_elems d elems) (dma_phys d) 0 1 n.

Definition ring_alloc {C} `{DriverContext C} (ctx : C) (n : Z) : option Ring * C :=
  let '(r, ctx) := alloc_dma ctx n in
  match r with None => (None, ctx) | Some d => (Some (ring_on d n), ctx) end.
Definition ring_free {C} `{DriverContext C} (r : Ring) (ctx : C) : C := free_dma ctx (r_phys r) (dma_pages (r_dma r)).

(** [entries\[i\] = t]. *)
Definition write_entry (l : list Trb) (i : Z) (t : Trb) : result unit (list Trb) :=
  if (0 <=? i) && (i <? zlen l) then Ok (<[Z.to_nat i := t]> l) else Panic.
Definition read_entry (l : list Trb) (i : Z) : result unit Trb :=
  if 0 <=? i then match l !! Z.to_nat i with Some t => Ok t | None => Panic end else Panic.

Definition enqueue (r : Ring) (trb : Trb) : result unit Ring :=
  let? entries := write_entry (dma_elems (r_dma r)) (r_enq r) (with_cycle trb (r_cycle r)) in
  let enq := r_enq r + 1 in
  if r_len r <? 1 then Panic else
  if r_len r - 1 <=? enq then
    let link := r_len r - 1 in
    let? l := read_entry entries link in
    let? entries := write_entry entries link (with_cycle l (r_cycle r)) in
    Ok (mkRing (set_elems (r_dma r) entries) (r_phys r) 0 (Z.lxor (r_cycle r) 1) (r_len r))
  else Ok (mkRing (set_elems (r_dma r) entries) (r_phys r) enq (r_cycle r) (r_len r)).

Definition enqueue_phys (r : Ring) : result unit Z :=
  match u64_checked_add (r_phys r) (r_enq r * TRB_SIZE) with Some p => Ok p | None => Panic end.
Definition capacity (r : Ring) : Z := u64_saturating_sub (r_len r) 1.

(** ** The event ring *)
Record EventRing := mkEventRing { e_dma : DmaSlice; e_phys : Z; e_deq : Z; e_cycle : Z; e_len : Z }.

Definition event_ring_on (d : DmaSlice) (n : Z) : EventRing := mkEventRing d (dma_phys d) 0 1 n.
Definition event_ring_alloc {C} `{DriverContext C} (ctx : C) (n : Z) : option EventRing * C :=
  let '(r, ctx) := alloc_dma ctx n in
  match r with None => (None, ctx) | Some d => (Some (event_ring_on d n), ctx) end.

Definition has_pending (r : EventRing) : result unit bool :=
  let? t := read_entry (dma_elems (e_dma r)) (e_deq r) in
  Ok (Z.land (flags t) trb_flag.CYCLE =? e_cycle r).

Definition pop (r : EventRing) : result unit (option Trb * EventRing) :=
  let? pending := has_pending r in
  if negb pending then Ok (None, r) else
  let? trb := read_entry (dma_elems (e_dma r)) (e_deq r) in
  let deq := e_deq r + 1 in
  if e_len r <=? deq then Ok (Some trb, mkEventRing (e_dma r) (e_phys r) 0 (Z.lxor (e_cycle r) 1) (e_len r))
  else Ok (Some trb, mkEventRing (e_dma r) (e_phys r) deq (e_cycle r) (e_len r)).

Definition dequeue_ptr (r : EventRing) : result unit Z :=
  match u64_checked_add (e_phys r) (e_deq r * TRB_SIZE) with Some p => Ok (Z.lor p 8) | None => Panic end.

Record ErstEntry := mkErst { base_lo : Z; base_hi : Z; erst_size : Z; erst_rsvd : Z }.
Definition erst_new (ring_phys segment_size : Z) : ErstEntry :=
  mkErst (ring_phys mod 2 ^ 32) (Z.shiftr ring_phys 32 mod 2 ^ 32) segment_size 0.

Record RingContext := mkRingContext { rc_command : Ring; rc_event : EventRing }.
Definition ring_context_alloc {C} `{DriverContext C} (ctx : C) (cmd_size evt_size : Z) : option RingContext * C :=
  let '(command, ctx) := ring_alloc ctx cmd_size in
  match command with
  | None => (None, ctx)
  | Some command =>
    let '(event, ctx) := event_ring_alloc ctx evt_size in
    match event with
    | None => (None, ring_free command ctx)
    | Some event => (Some (mkRingContext command event), ctx)
    end
  end.

(** ** The controller

    The other side of the rings (xHCI specification, 4.9): the controller consumes the
    entry at its dequeue position when its cycle bit equals the consumer cycle state, and
    then follows a link entry it owns, toggling the state if the entry asks for it; it
    produces an event by writing it with the producer cycle state. *)
Record Controller := mkController { c_pos : Z; c_cycle : Z }.

Definition le_value (l : list Z) : Z := foldr (fun b v => b + 256 * v) 0 l.

Definition follow_link (entries : list Trb) (base : Z) (c : Controller) : Controller :=
  match entries !! Z.to_nat (c_pos c) with
  | Some t =>
    if (Z.land (flags t) trb_flag.CYCLE =? c_cycle c) && (trb_type_of t =? trb_type.LINK) then
      mkController ((le_value (params t) - base) / TRB_SIZE)
        (if Z.testbit (flags t) 1 then Z.lxor (c_cycle c) 1 else c_cycle c)
    else c
  | None => c
  end.

Definition consume (entries : list Trb) (base : Z) (c : Controller) : option Trb * Controller :=
  match entries !! Z.to_nat (c_pos c) with
  | Some t =>
    if Z.land (flags t) trb_flag.CYCLE =? c_cycle c
    then (Some t, follow_link entries base (mkController (c_pos c + 1) (c_cycle c)))
    else (None, c)
  | None => (None, c)
  end.

Definition produce (entries : list Trb) (c : Controller) (t : Trb) : list Trb * Controller :=
  (<[Z.to_nat (c_pos c) := with_cycle t (c_cycle c)]> entries,
   if zlen entries <=? c_pos c + 1 then mkController 0 (Z.lxor (c_cycle c) 1)
   else mkController (c_pos c + 1) (c_cycle c)).

(** ** Bits of an entry *)
Definition bit (c : Z) : Prop := c = 0 \/ c = 1.
Definition cycle_of (t : Trb) : Z := Z.land (flags t) trb_flag.CYCLE.

Lemma testbit_bit c n : bit c -> 0 < n -> Z.testbit c n = false.
Proof.
  intros [-> | ->] Hn; [apply Z.bits_0|]. apply (Z.bits_above_log2 1 n); [lia|]. cbn. lia.
Qed.

Lemma testbit_one n : 0 <= n -> Z.testbit 1 n = (n =? 0).
Proof.
  intros Hn. destruct (Z.eqb_spec n 0) as [->|]; [done|]. apply testbit_bit; [by right|lia].
Qed.

Lemma cycle_of_with_cycle t c : bit c -> cycle_of (with_cycle t c) = c.
Proof.
  intros Hc. unfold cycle_of, with_cycle, trb_flag.CYCLE. cbn [flags].
  rewrite Z.land_lor_distr_l, Z.land_ldiff. by destruct Hc as [-> | ->].
Qed.

Lemma with_cycle_twice t c d : bit c -> with_cycle (with_cycle t c) d = with_cycle t d.
Proof.
  intros Hc. unfold with_cycle, trb_flag.CYCLE. cbn [params status flags]. do 2 f_equal.
  apply Z.bits_inj'. intros n Hn. rewrite !Z.ldiff_spec, Z.lor_spec, Z.ldiff_spec, testbit_one by done.
  destruct (Z.eqb_spec n 0) as [->|]; [by rewrite !andb_false_r|].
  rewrite (testbit_bit c n) by (done || lia). by rewrite orb_false_r, !andb_true_r.
Qed.

(** Setting the cycle bit changes no other bit. *)
Lemma land_with_cycle t c m : bit c -> Z.testbit m 0 = false -> Z.land (flags (with_cycle t c)) m = Z.land (flags t) m.
Proof.
  intros Hc Hm. unfold with_cycle, trb_flag.CYCLE. cbn [flags].
  apply Z.bits_inj'. intros n Hn. rewrite !Z.land_spec, Z.lor_spec, Z.ldiff_spec, testbit_one by done.
  destruct (Z.eqb_spec n 0) as [->|]; [by rewrite Hm, !andb_false_r|].
  rewrite (testbit_bit c n) by (done || lia). by rewrite orb_false_r, andb_true_r.
Qed.

Lemma trb_type_with_cycle t c : bit c -> trb_type_of (with_cycle t c) = trb_type_of t.
Proof. intros Hc. unfold trb_type_of. by rewrite land_with_cycle. Qed.

Lemma testbit_with_cycle t c n : bit c -> 0 < n -> Z.testbit (flags (with_cycle t c)) n = Z.testbit (flags t) n.
Proof.
  intros Hc Hn. unfold with_cycle, trb_flag.CYCLE. cbn [flags].
  rewrite Z.lor_spec, Z.ldiff_spec, testbit_one, (testbit_bit c n) by (done || lia).
  rewrite (proj2 (Z.eqb_neq n 0)) by lia. by rewrite orb_false_r, andb_true_r.
Qed.

Lemma le_value_bytes n : forall x, 0 <= x < 256 ^ Z.of_nat n -> le_value (le_bytes n x) = x.
Proof.
  induction n as [|n IH]; intros x Hx; [cbn in *; lia|].
  rewrite Nat2Z.inj_succ, Z.pow_succ_r in Hx by lia. cbn [le_bytes le_value foldr].
  fold (le_value (le_bytes n (x / 256))).
  rewrite IH by (split; [apply Z.div_pos; lia|apply Z.div_lt_upper_bound; lia]).
  pose proof (Z.div_mod x 256 ltac:(lia)). lia.
Qed.

(** ** Laps

    The [k]-th entry written goes to slot [k mod m] with the cycle bit of lap [k / m]. *)
Definition lap_cycle (m k : Z) : Z := if Z.even (k / m) then 1 else 0.

Lemma lap_cycle_bit m k : bit (lap_cycle m k).
Proof. unfold lap_cycle, bit. destruct (Z.even _); auto. Qed.
#[local] Hint Resolve lap_cycle_bit : core.

Lemma lap_step m k : 0 < m -> 0 <= k ->
  if m <=? k mod m + 1 then (k + 1) mod m = 0 /\ lap_cycle m (k + 1) = Z.lxor (lap_cycle m k) 1
  else (k + 1) mod m = k mod m + 1 /\ lap_cycle m (k + 1) = lap_cycle m k.
Proof.
  intros Hm Hk. pose proof (Z.div_mod k m ltac:(lia)) as Hd. pose proof (Z.mod_pos_bound k m Hm).
  unfold lap_cycle. destruct (Z.leb_spec m (k mod m + 1)).
  - assert (k + 1 = (k / m + 1) * m) as -> by lia. rewrite Z.mod_mul, Z.div_mul by lia. split; [done|].
    rewrite Z.add_1_r, Z.even_succ, <- Z.negb_even. by destruct (Z.even _).
  - assert ((k + 1) / m = k / m) as Hq by (symmetry; apply Z.div_unique with (k mod m + 1); lia).
    rewrite Hq. split; [|done]. rewrite Z.mod_eq by lia. rewrite Hq. lia.
Qed.

Lemma lap_cycle_prev m k : 0 < m -> lap_cycle m (k - m) <> lap_cycle m k.
Proof.
  intros Hm. unfold lap_cycle. replace (k - m) with (k + (-1) * m) by lia. rewrite Z.div_add by lia.
  replace (k / m + -1) with (Z.pred (k / m)) by lia. rewrite Z.even_pred, <- Z.negb_even. by destruct (Z.even _).
Qed.

(** The slots after the entries [h] were written in turn. *)
Definition slots_rel (m : Z) (entries h : list Trb) : Prop :=
  m <= zlen entries
  /\ (forall k t, h !! k = Some t -> zlen h - m <= Z.of_nat k ->
        entries !! Z.to_nat (Z.of_nat k mod m) = Some (with_cycle t (lap_cycle m (Z.of_nat k))))
  /\ forall i, zlen h <= i < m -> entries !! Z.to_nat i = Some zero_trb.

Lemma slots_rel_zero m n : 0 < m -> m <= Z.of_nat n -> slots_rel m (replicate n zero_trb) [].
Proof.
  intros Hm Hn. split; [by rewrite zlen_replicate|]. split; [done|]. intros i Hi. cbn in Hi.
  apply lookup_replicate_2. unfold zlen in Hi. cbn in Hi. lia.
Qed.

Lemma mod_window m i j : 0 < m -> i mod m = j mod m -> i <= j < i + m -> i = j.
Proof.
  intros Hm E Hij. pose proof (Z.div_mod i m ltac:(lia)) as Hi. pose proof (Z.div_mod j m ltac:(lia)) as Hj.
  assert (Hq : m * (j / m - i / m) = j - i) by lia. generalize dependent (j / m - i / m). intros q Hq.
  destruct (Z.lt_trichotomy q 0) as [|[-> |]]; nia.
Qed.

(** The position of the next entry to read shows an owned entry exactly when there is one. *)
Lemma slots_read m entries h d : 0 < m -> slots_rel m entries h -> 0 <= d <= zlen h -> zlen h - m <= d ->
  exists u, entries !! Z.to_nat (d mod m) = Some u
  /\ match h !! Z.to_nat d with
     | Some t => u = with_cycle t (lap_cycle m d)
     | None => cycle_of u <> lap_cycle m d
     end.
Proof.
  intros Hm (Hlen & Hw & Hz) Hd Hdm. destruct (h !! Z.to_nat d) as [t|] eqn:Et.
  - specialize (Hw _ _ Et). rewrite Z2Nat.id in Hw by lia. eexists. split; [by apply Hw|done].
  - apply lookup_ge_None_1 in Et. assert (d = zlen h) as -> by (unfold zlen in *; lia).
    destruct (Z.ltb_spec (zlen h) m).
    + rewrite Z.mod_small by lia. rewrite Hz by lia. eexists. split; [done|].
      unfold lap_cycle. rewrite Z.div_small by lia. done.
    + destruct (lookup_lt_is_Some_2 h (Z.to_nat (zlen h - m))) as (t & Ht); [unfold zlen in *; lia|].
      specialize (Hw _ _ Ht). rewrite Z2Nat.id in Hw by lia. specialize (Hw ltac:(lia)).
      replace (zlen h - m) with (zlen h + (-1) * m) in Hw by lia. rewrite Z.mod_add in Hw by lia.
      eexists. split; [done|]. rewrite cycle_of_with_cycle by done.
      replace (zlen h + (-1) * m) with (zlen h - m) by lia. by apply lap_cycle_prev.
Qed.

Lemma slots_write m entries h t : 0 < m -> slots_rel m entries h ->
  slots_rel m (<[Z.to_nat (zlen h mod m) := with_cycle t (lap_cycle m (zlen h))]> entries) (h ++ [t]).
Proof.
  intros Hm (Hlen & Hw & Hz). pose proof (Z.mod_pos_bound (zlen h) m Hm) as Hmod. pose proof (zlen_nonneg h) as Hh.
  assert (Hl1 : zlen (h ++ [t]) = zlen h + 1) by (by rewrite zlen_app).
  split; [by rewrite zlen_insert|]. rewrite Hl1. split.
  - intros k u Hk Hwin. apply lookup_app_Some in Hk as [Hk|[Hge Hk]].
    + pose proof (lookup_lt_Some _ _ _ Hk) as Hlt.
      rewrite list_lookup_insert_ne; [apply Hw; [done|lia]|]. intros E.
      apply Z2Nat.inj in E; [|apply Z.mod_pos_bound; lia..].
      assert (Z.of_nat k = zlen h); [|unfold zlen in *; lia].
      apply (mod_window m); [done|done|unfold zlen in *; lia].
    + apply list_lookup_singleton_Some in Hk as [Hk <-].
      assert (Z.of_nat k = zlen h) as -> by (unfold zlen; lia).
      rewrite list_lookup_insert_eq; [done|]. unfold zlen in *. lia.
  - intros i Hi. rewrite list_lookup_insert_ne; [apply Hz; lia|].
    rewrite Z.mod_small by lia. lia.
Qed.

Lemma slots_other m entries h j x : m <= Z.of_nat j -> 0 < m -> slots_rel m entries h -> slots_rel m (<[j := x]> entries) h.
Proof.
  intros Hj Hm (Hlen & Hw & Hz). split; [by rewrite zlen_insert|]. split.
  - intros k t Hk Hwin. rewrite list_lookup_insert_ne; [by apply Hw|].
    pose proof (Z.mod_pos_bound (Z.of_nat k) m Hm). lia.
  - intros i Hi. rewrite list_lookup_insert_ne; [by apply Hz|]. lia.
Qed.

(** ** The transfer ring is a queue *)
Lemma write_entry_ok l i t : 0 <= i < zlen l -> write_entry l i t = Ok (<[Z.to_nat i := t]> l).
Proof. intros Hi. unfold write_entry. by rewrite (proj2 (Z.leb_le _ _)), (proj2 (Z.ltb_lt _ _)) by lia. Qed.

Lemma read_entry_ok l i t : 0 <= i -> l !! Z.to_nat i = Some t -> read_entry l i = Ok t.
Proof. intros Hi Hl. unfold read_entry. by rewrite (proj2 (Z.leb_le _ _)), Hl by lia. Qed.

Section TransferRing.
Variables (base n : Z).
Hypotheses (Hbase : 0 <= base < 2 ^ 64) (Hn : 2 <= n).
Let m := n - 1.

Definition link_of (e : Z) : Trb := with_cycle (link_trb zero_trb base) (lap_cycle m (Z.max 0 (m * (e / m) - 1))).

(** The driver has enqueued [h] and the controller has consumed the first [d] of it. *)
Record ring_rel (r : Ring) (c : Controller) (h : list Trb) (d : Z) : Prop := {
  rr_len : r_len r = n;
  rr_phys : r_phys r = base;
  rr_elems : zlen (dma_elems (r_dma r)) = n;
  rr_slots : slots_rel m (dma_elems (r_dma r)) h;
  rr_link : dma_elems (r_dma r) !! Z.to_nat m = Some (link_of (zlen h));
  rr_enq : r_enq r = zlen h mod m;
  rr_cycle : r_cycle r = lap_cycle m (zlen h);
  rr_pos : c_pos c = d mod m;
  rr_ccs : c_cycle c = lap_cycle m d;
  rr_d : 0 <= d <= zlen h;
  rr_cap : zlen h - d <= m;
  rr_types : Forall (fun t => trb_type_of t <> trb_type.LINK) h
}.

Lemma link_facts c : bit c -> let t := with_cycle (link_trb zero_trb base) c in
  cycle_of t = c /\ trb_type_of t = trb_type.LINK /\ Z.testbit (flags t) 1 = true /\ le_value (params t) = base.
Proof.
  intros Hc. cbv zeta. rewrite cycle_of_with_cycle, trb_type_with_cycle, testbit_with_cycle by (done || lia).
  repeat split. apply (le_value_bytes 8). change (256 ^ Z.of_nat 8) with (2 ^ 64). lia.
Qed.

Lemma enqueue_rel r c h d t : ring_rel r c h d -> zlen h - d < m -> trb_type_of t <> trb_type.LINK ->
  exists r', enqueue r t = Ok r' /\ ring_rel r' c (h ++ [t]) d.
Proof.
  intros [] Hroom Ht. pose proof (zlen_nonneg h) as Hh. pose proof (Z.mod_pos_bound (zlen h) m ltac:(lia)) as Hmod.
  assert (Hl1 : zlen (h ++ [t]) = zlen h + 1) by (by rewrite zlen_app).
  pose proof (slots_write m _ h t ltac:(lia) rr_slots0) as Hs. pose proof (lap_step m (zlen h) ltac:(lia) Hh) as Hstep.
  unfold enqueue. rewrite rr_len0, rr_enq0, rr_cycle0. rewrite write_entry_ok by lia.
  rewrite (proj2 (Z.ltb_ge n 1)) by lia. fold m. set (es := <[_ := _]> (dma_elems _)) in *.
  assert (Hlink : es !! Z.to_nat m = Some (link_of (zlen h))).
  { unfold es. rewrite list_lookup_insert_ne by lia. done. }
  assert (Hes : zlen es = n) by (unfold es; by rewrite zlen_insert).
  destruct (Z.leb_spec m (zlen h mod m + 1)).
  - destruct Hstep as [Hs1 Hs2]. rewrite (read_entry_ok es m (link_of (zlen h))) by (done || lia).
    rewrite write_entry_ok by lia. eexists. split; [done|].
    assert (Hlast : Z.max 0 (m * ((zlen h + 1) / m) - 1) = zlen h).
    { pose proof (Z.div_mod (zlen h + 1) m ltac:(lia)). lia. }
    split; cbn [r_len r_phys r_dma r_enq r_cycle dma_elems set_elems]; rewrite ?Hl1; try done; try lia.
    + by rewrite zlen_insert.
    + apply slots_other; [lia|lia|done].
    + rewrite list_lookup_insert_eq by (unfold zlen in *; lia). unfold link_of. rewrite with_cycle_twice by done.
      by rewrite Hlast.
    + apply Forall_app. split; [done|]. by apply Forall_singleton.
  - destruct Hstep as [Hs1 Hs2]. eexists. split; [done|].
    assert ((zlen h + 1) / m = zlen h / m) as Hq.
    { symmetry. apply Z.div_unique with (zlen h mod m + 1); [lia|]. pose proof (Z.div_mod (zlen h) m ltac:(lia)). lia. }
    split; cbn [r_len r_phys r_dma r_enq r_cycle dma_elems set_elems]; rewrite ?Hl1; try done; try lia.
    + rewrite Hlink. unfold link_of. by rewrite Hq.
    + apply Forall_app. split; [done|]. by apply Forall_singleton.
Qed.

(** After the last slot of a lap the controller finds the link entry of that lap. *)
Lemma link_of_lap e d : 0 <= d < e -> e - d <= m -> m <= d mod m + 1 -> link_of e = with_cycle (link_trb zero_trb base) (lap_cycle m d).
Proof.
  intros Hd He Hm. unfold link_of. do 2 f_equal. pose proof (Z.div_mod d m ltac:(lia)) as Hdm.
  pose proof (Z.mod_pos_bound d m ltac:(lia)).
  assert (e / m = d / m + 1) as ->; [|lia].
  symmetry. apply Z.div_unique with (e - (d + 1)); lia.
Qed.

Lemma follow_link_rel r c h d : ring_rel r c h d -> d < zlen h ->
  follow_link (dma_elems (r_dma r)) base (mkController (d mod m + 1) (lap_cycle m d))
  = mkController ((d + 1) mod m) (lap_cycle m (d + 1)).
Proof.
  intros [] Hd. pose proof (lap_step m d ltac:(lia) ltac:(lia)) as Hstep. pose proof (Z.mod_pos_bound d m ltac:(lia)).
  unfold follow_link. cbn [c_pos c_cycle]. destruct (Z.leb_spec m (d mod m + 1)); destruct Hstep as [-> ->].
  - assert (d mod m + 1 = m) as -> by lia. rewrite rr_link0, (link_of_lap (zlen h) d) by lia.
    destruct (link_facts (lap_cycle m d)) as (H1 & H2 & H3 & H4); [done|]. unfold cycle_of in H1.
    rewrite H1, H2, H3, H4, !Z.eqb_refl, Z.sub_diag. done.
  - destruct (slots_read m _ h (d + 1) ltac:(lia) rr_slots0 ltac:(lia) ltac:(lia)) as (u & Hu & Hcase).
    pose proof (lap_step m d ltac:(lia) ltac:(lia)) as Hstep. rewrite (proj2 (Z.leb_gt _ _)) in Hstep by lia.
    destruct Hstep as [E1 E2]. rewrite E1 in Hu. rewrite Hu. fold (cycle_of u).
    destruct (h !! Z.to_nat (d + 1)) as [t|] eqn:Et.
    + subst u. rewrite trb_type_with_cycle by done.
      assert (trb_type_of t <> trb_type.LINK) as Hne by (by eapply (Forall_lookup_1 _ h) in rr_types0).
      rewrite (proj2 (Z.eqb_neq _ _) Hne), andb_false_r. done.
    + rewrite E2 in Hcase. rewrite (proj2 (Z.eqb_neq _ _) Hcase). done.
Qed.

Lemma consume_rel r c h d : ring_rel r c h d ->
  match h !! Z.to_nat d with
  | Some t => exists c', consume (dma_elems (r_dma r)) base c = (Some (with_cycle t (lap_cycle m d)), c') /\ ring_rel r c' h (d + 1)
  | None => consume (dma_elems (r_dma r)) base c = (None, c)
  end.
Proof.
  intros Hrel. pose proof Hrel as []. destruct (slots_read m _ h d ltac:(lia) rr_slots0 ltac:(lia) ltac:(lia)) as (u & Hu & Hcase).
  unfold consume. rewrite rr_pos0, rr_ccs0, Hu. fold (cycle_of u). destruct (h !! Z.to_nat d) as [t|] eqn:Et.
  - subst u. rewrite cycle_of_with_cycle, Z.eqb_refl by done.
    pose proof (lookup_lt_Some _ _ _ Et) as Hlt. assert (d < zlen h) by (unfold zlen; lia).
    rewrite (follow_link_rel r c h d) by done. eexists. split; [done|]. split; try done; try lia.
  - by rewrite (proj2 (Z.eqb_neq _ _) Hcase).
Qed.

Lemma fresh_rel d : dma_elems d = replicate (Z.to_nat n) zero_trb -> dma_phys d = base ->
  ring_rel (ring_on d n) (mkController 0 1) [] 0.
Proof.
  intros He Hp. unfold ring_on. rewrite (proj2 (Z.ltb_lt _ _)) by lia. fold m.
  assert (Hnil : zlen (@nil Trb) = 0) by done.
  assert (Hlk : dma_elems d !! Z.to_nat m = Some zero_trb) by (rewrite He; apply lookup_replicate_2; lia).
  split; cbn [r_len r_phys r_dma r_enq r_cycle dma_elems set_elems c_pos c_cycle]; rewrite ?Hnil; try done; try lia.
  - unfold zlen. rewrite length_alter, He, length_replicate. lia.
  - destruct (slots_rel_zero m (Z.to_nat n)) as (H1 & H2 & H3); [lia..|]. rewrite <- He in *.
    split; [unfold zlen in *; by rewrite length_alter|]. split; [done|].
    intros i Hi. rewrite list_lookup_alter_ne by lia. by apply H3.
  - rewrite list_lookup_alter_eq, Hlk, Hp. cbn. unfold link_of. rewrite Z.div_0_l, Z.mul_0_r by lia. done.
Qed.
End TransferRing.

(** A bounded queue: [None] when it would overflow. *)
Inductive queue_op := Put (t : Trb) | Get.

Fixpoint queue_run (cap : Z) (q : list Trb) (ops : list queue_op) : option (list (option Trb)) :=
  match ops with
  | [] => Some []
  | Put t :: ops => if zlen q <? cap then queue_run cap (q ++ [t]) ops else None
  | Get :: ops => cons (head q) <$> queue_run cap (tail q) ops
  end.

(** Entries up to the cycle bit, which belongs to the ring. *)
Definition strip (t : Trb) : Trb := with_cycle t 0.
Definition strip_all (l : list (option Trb)) : list (option Trb) := map (option_map strip) l.

Lemma strip_with_cycle t c : bit c -> strip (with_cycle t c) = strip t.
Proof. apply with_cycle_twice. Qed.

Definition put_ok (o : queue_op) : Prop := match o with Put t => trb_type_of t <> trb_type.LINK | Get => True end.

Lemma head_drop {A} (h : list A) d : head (drop d h) = h !! d.
Proof. revert d. induction h as [|x h IH]; intros [|d]; cbn; auto. Qed.

Lemma tail_drop {A} (h : list A) d : tail (drop d h) = drop (S d) h.
Proof. revert h. induction d as [|d IH]; intros [|x h]; cbn; auto. Qed.

(** The driver enqueues and the controller consumes, in any order. *)
Fixpoint ring_run (r : Ring) (c : Controller) (ops : list queue_op) : result unit (list (option Trb)) :=
  match ops with
  | [] => Ok []
  | Put t :: ops => let? r := enqueue r t in ring_run r c ops
  | Get :: ops =>
    let '(o, c) := consume (dma_elems (r_dma r)) (r_phys r) c in
    let? outs := ring_run r c ops in Ok (o :: outs)
  end.

Lemma ring_run_queue base n : 0 <= base < 2 ^ 64 -> 2 <= n -> forall ops r c h d outs,
  ring_rel base n r c h d -> Forall put_ok ops -> queue_run (n - 1) (drop (Z.to_nat d) h) ops = Some outs ->
  exists outs', ring_run r c ops = Ok outs' /\ strip_all outs' = strip_all outs.
Proof.
  intros Hb Hn. induction ops as [|o ops IH]; intros r c h d outs Hrel Hok Hq; cbn [queue_run ring_run] in *.
  { injection Hq as <-. by exists []. }
  apply Forall_cons in Hok as [Ho Hok]. pose proof Hrel as []. destruct o as [t|].
  - destruct (Z.ltb_spec (zlen (drop (Z.to_nat d) h)) (n - 1)) as [Hroom|]; [|done].
    assert (zlen (drop (Z.to_nat d) h) = zlen h - d) as Hz by (unfold zlen in *; rewrite length_drop; lia).
    destruct (enqueue_rel base n Hn r c h d t Hrel ltac:(lia) Ho) as (r' & -> & Hrel').
    apply (IH r' c (h ++ [t]) d); [done|done|]. rewrite drop_app_le by (unfold zlen in *; lia). done.
  - destruct (queue_run _ _ ops) as [outs0|] eqn:E; [|done]. injection Hq as <-. rewrite tail_drop in E.
    pose proof (consume_rel base n Hb Hn r c h d Hrel) as Hc. rewrite rr_phys0, head_drop.
    destruct (h !! Z.to_nat d) as [t|] eqn:Et.
    + destruct Hc as (c' & -> & Hrel').
      destruct (IH r c' h (d + 1) outs0 Hrel' Hok) as (outs' & -> & Hs).
      { by replace (Z.to_nat (d + 1)) with (S (Z.to_nat d)) by lia. }
      eexists. split; [done|]. cbn. unfold strip_all in *. rewrite Hs, strip_with_cycle by apply lap_cycle_bit. done.
    + rewrite Hc. apply lookup_ge_None_1 in Et.
      destruct (IH r c h d outs0 Hrel Hok) as (outs' & -> & Hs).
      { by rewrite !drop_ge in * by lia. }
      eexists. split; [done|]. cbn. unfold strip_all in *. by rewrite Hs.
Qed.

Lemma alloc_dma_Some {C} `{DriverContext C} (ctx ctx' : C) n d :
  alloc_dma ctx n = (Some d, ctx') -> dma_elems d = replicate (Z.to_nat n) zero_trb.
Proof.
  unfold alloc_dma. repeat case_match; intros [= <- <-]; try done.
Qed.

(** C14. The transfer ring is a bounded queue: for a ring of [n >= 2] entries as allocated,
    whatever the interleaving of the driver's enqueues and the controller's consumption,
    as long as no more than [capacity] entries are outstanding, nothing panics and the
    controller receives exactly the enqueued blocks, each once and in order, and finds the
    ring empty exactly when it is; across any number of laps, the link entry included. *)
Theorem transfer_ring_refines_queue {C} `{DriverContext C} (ctx ctx' : C) (n : Z) (r : Ring)
    (ops : list queue_op) (outs : list (option Trb)) :
  ring_alloc ctx n = (Some r, ctx') -> 2 <= n -> 0 <= r_phys r < 2 ^ 64 -> Forall put_ok ops ->
  queue_run (capacity r) [] ops = Some outs ->
  exists outs', ring_run r (mkController 0 1) ops = Ok outs' /\ strip_all outs' = strip_all outs.
Proof.
  intros Ha Hn Hp Hok Hq. unfold ring_alloc in Ha. destruct (alloc_dma ctx n) as [[d|] ctx1] eqn:Ed; [|done].
  injection Ha as <- <-. apply alloc_dma_Some in Ed.
  apply (ring_run_queue (dma_phys d) n Hp Hn ops _ _ [] 0); [by apply fresh_rel|done|].
  unfold capacity, u64_saturating_sub, ring_on in Hq. cbn [r_len] in Hq. by rewrite Z.max_l in Hq by lia.
Qed.

(** ** The event ring is a queue *)
Section EventQueue.
Variable n : Z.
Hypothesis Hn : 1 <= n.

Record event_rel (r : EventRing) (c : Controller) (h : list Trb) (d : Z) : Prop := {
  er_len : e_len r = n;
  er_elems : zlen (dma_elems (e_dma r)) = n;
  er_slots : slots_rel n (dma_elems (e_dma r)) h;
  er_pos : c_pos c = zlen h mod n;
  er_pcs : c_cycle c = lap_cycle n (zlen h);
  er_deq : e_deq r = d mod n;
  er_cycle : e_cycle r = lap_cycle n d;
  er_d : 0 <= d <= zlen h;
  er_cap : zlen h - d <= n
}.

Definition set_event_elems (r : EventRing) (l : list Trb) : EventRing :=
  mkEventRing (set_elems (e_dma r) l) (e_phys r) (e_deq r) (e_cycle r) (e_len r).

Lemma produce_rel r c h d t : event_rel r c h d -> zlen h - d < n ->
  let '(l, c') := produce (dma_elems (e_dma r)) c t in event_rel (set_event_elems r l) c' (h ++ [t]) d.
Proof.
  intros [] Hroom. pose proof (zlen_nonneg h) as Hh. unfold produce. rewrite er_pos0, er_pcs0, er_elems0.
  pose proof (slots_write n _ h t ltac:(lia) er_slots0) as Hs. pose proof (lap_step n (zlen h) ltac:(lia) Hh) as Hstep.
  assert (Hl1 : zlen (h ++ [t]) = zlen h + 1) by (by rewrite zlen_app).
  destruct (Z.leb_spec n (zlen h mod n + 1)); destruct Hstep as [E1 E2];
    split; cbn [set_event_elems set_elems e_len e_dma e_deq e_cycle dma_elems c_pos c_cycle]; rewrite ?Hl1; try done; try lia;
    by rewrite zlen_insert.
Qed.

Lemma pop_rel r c h d : event_rel r c h d ->
  match h !! Z.to_nat d with
  | Some t => exists r', pop r = Ok (Some (with_cycle t (lap_cycle n d)), r') /\ event_rel r' c h (d + 1)
  | None => pop r = Ok (None, r)
  end.
Proof.
  intros []. destruct (slots_read n _ h d ltac:(lia) er_slots0 ltac:(lia) ltac:(lia)) as (u & Hu & Hcase).
  pose proof (Z.mod_pos_bound d n ltac:(lia)). unfold pop, has_pending.
  rewrite er_deq0, (read_entry_ok _ _ u) by (done || lia). rewrite er_cycle0. fold (cycle_of u).
  destruct (h !! Z.to_nat d) as [t|] eqn:Et.
  - subst u. rewrite cycle_of_with_cycle, Z.eqb_refl by apply lap_cycle_bit. cbn [negb]. rewrite er_len0.
    pose proof (lookup_lt_Some _ _ _ Et). pose proof (lap_step n d ltac:(lia) ltac:(lia)) as Hstep.
    destruct (Z.leb_spec n (d mod n + 1)); destruct Hstep as [E1 E2]; (eexists; split; [done|]);
      split; cbn [e_len e_dma e_deq e_cycle]; try done; unfold zlen in *; lia.
  - rewrite (proj2 (Z.eqb_neq _ _) Hcase). done.
Qed.

Fixpoint event_run (r : EventRing) (c : Controller) (ops : list queue_op) : result unit (list (option Trb)) :=
  match ops with
  | [] => Ok []
  | Put t :: ops => let '(l, c) := produce (dma_elems (e_dma r)) c t in event_run (set_event_elems r l) c ops
  | Get :: ops => let? (o, r) := pop r in let? outs := event_run r c ops in Ok (o :: outs)
  end.

Lemma event_run_queue : forall ops r c h d outs,
  event_rel r c h d -> queue_run n (drop (Z.to_nat d) h) ops = Some outs ->
  exists outs', event_run r c ops = Ok outs' /\ strip_all outs' = strip_all outs.
Proof.
  induction ops as [|o ops IH]; intros r c h d outs Hrel Hq; cbn [queue_run event_run] in *.
  { injection Hq as <-. by exists []. }
  pose proof Hrel as []. destruct o as [t|].
  - destruct (Z.ltb_spec (zlen (drop (Z.to_nat d) h)) n) as [Hroom|]; [|done].
    assert (zlen (drop (Z.to_nat d) h) = zlen h - d) as Hz by (unfold zlen in *; rewrite length_drop; lia).
    pose proof (produce_rel r c h d t Hrel ltac:(lia)) as Hp. destruct (produce _ c t) as [l c'].
    apply (IH _ c' (h ++ [t]) d); [done|]. rewrite drop_app_le by (unfold zlen in *; lia). done.
  - destruct (queue_run _ _ ops) as [outs0|] eqn:E; [|done]. injection Hq as <-. rewrite tail_drop in E.
    pose proof (pop_rel r c h d Hrel) as Hc. rewrite head_drop. destruct (h !! Z.to_nat d) as [t|] eqn:Et.
    + destruct Hc as (r' & -> & Hrel'). destruct (IH r' c h (d + 1) outs0 Hrel') as (outs' & -> & Hs).
      { by replace (Z.to_nat (d + 1)) with (S (Z.to_nat d)) by lia. }
      eexists. split; [done|]. cbn. unfold strip_all in *. rewrite Hs, strip_with_cycle by apply lap_cycle_bit. done.
    + rewrite Hc. apply lookup_ge_None_1 in Et. destruct (IH r c h d outs0 Hrel) as (outs' & -> & Hs).
      { by rewrite !drop_ge in * by lia. }
      eexists. split; [done|]. cbn. unfold strip_all in *. by rewrite Hs.
Qed.
End EventQueue.

(** The event ring is a bounded queue: as long as the controller has at most [n] events
    outstanding, [pop] returns exactly the events the controller produced, each once and in
    order, reports none when there is none, and never panics, across any number of laps. *)
Theorem event_ring_refines_queue {C} `{DriverContext C} (ctx ctx' : C) (n : Z) (r : EventRing)
    (ops : list queue_op) (outs : list (option Trb)) :
  event_ring_alloc ctx n = (Some r, ctx') -> 1 <= n -> queue_run n [] ops = Some outs ->
  exists outs', event_run r (mkController 0 1) ops = Ok outs' /\ strip_all outs' = strip_all outs.
Proof.
  intros Ha Hn Hq. unfold event_ring_alloc in Ha. destruct (alloc_dma ctx n) as [[d|] ctx1] eqn:Ed; [|done].
  injection Ha as <- <-. apply alloc_dma_Some in Ed. apply (event_run_queue n Hn ops _ _ [] 0); [|done].
  assert (Hnil : zlen (@nil Trb) = 0) by done.
  split; cbn [event_ring_on e_len e_dma e_deq e_cycle c_pos c_cycle]; rewrite ?Hnil; try done; try lia; rewrite Ed.
  - rewrite zlen_replicate. lia.
  - apply slots_rel_zero; lia.
Qed.

(** A context that hands out one region after the other. *)
#[export] Instance bump_context : DriverContext Z := {|
  allocate_contiguous_frames next pages := (Some next, next + pages * 4096);
  free_contiguous_frames next _ _ := next
|}.

Definition no_op : Trb := trb_new trb_type.NO_OP 0.
Definition demo_ring : Ring := ring_on (mkDma (replicate 3 zero_trb) 0x1000 1) 3.

Lemma transfer_ring_refines_queue_witness :
  exists outs', ring_run demo_ring (mkController 0 1) [Put no_op; Put no_op; Get; Put no_op; Get; Get; Get] = Ok outs'
  /\ strip_all outs' = [Some no_op; Some no_op; Some no_op; None].
Proof.
  apply (transfer_ring_refines_queue (C := Z) 0x1000 0x2000 3 demo_ring
           [Put no_op; Put no_op; Get; Put no_op; Get; Get; Get] [Some no_op; Some no_op; Some no_op; None]).
  - reflexivity.
  - lia.
  - cbn. lia.
  - repeat (apply Forall_cons; split; [cbn; first [exact I|vm_compute; discriminate]|]). apply Forall_nil. exact I.
  - reflexivity.
Defined.

Definition demo_events : EventRing := event_ring_on (mkDma (replicate 2 zero_trb) 0x1000 1) 2.

Lemma event_ring_refines_queue_witness :
  exists outs', event_run demo_events (mkController 0 1) [Get; Put no_op; Put no_op; Get; Put no_op; Get; Get; Get] = Ok outs'
  /\ strip_all outs' = [None; Some no_op; Some no_op; Some no_op; None].
Proof.
  apply (event_ring_refines_queue (C := Z) 0x1000 0x2000 2 demo_events
           [Get; Put no_op; Put no_op; Get; Put no_op; Get; Get; Get] [None; Some no_op; Some no_op; Some no_op; None]).
  - reflexivity.
  - lia.
  - reflexivity.
Defined.

(** The ring does not check its capacity: one entry more than it holds overwrites the
    oldest outstanding one. *)
Theorem enqueue_overwrites :
  exists r, enqueue demo_ring (with_length no_op 1) = Ok r
  /\ exists r1 r2, enqueue r (with_length no_op 2) = Ok r1 /\ enqueue r1 (with_length no_op 3) = Ok r2
  /\ capacity demo_ring = 2 /\ (consume (dma_elems (r_dma r2)) 0x1000 (mkController 0 1)).1 = None.
Proof. eexists. split; [vm_compute; reflexivity|]. do 2 eexists. split; [vm_compute; reflexivity|]. by split; [vm_compute; reflexivity|]. Qed.
