(* ===== verification/Aes.v ===== *)
(** * AES-128 and key unwrapping

    The block cipher of [bonder/src/wpa.rs]: key expansion, decryption of a block and the
    key unwrapping of RFC 3394.  The code only decrypts; encryption and key wrapping are
    defined here from the standard, with the substitution computed from inversion in the
    field rather than from a table, and the code is shown to be their inverse. *)

From Stdlib Require Import Btauto.
From S2P Require Import Prelude Rings Terminal Net.

(** ** Tables *)
Definition AES_SBOX : list Z := [
   0x63; 0x7C; 0x77; 0x7B; 0xF2; 0x6B; 0x6F; 0xC5; 0x30; 0x01; 0x67; 0x2B; 0xFE; 0xD7; 0xAB; 0x76;
   0xCA; 0x82; 0xC9; 0x7D; 0xFA; 0x59; 0x47; 0xF0; 0xAD; 0xD4; 0xA2; 0xAF; 0x9C; 0xA4; 0x72; 0xC0;
   0xB7; 0xFD; 0x93; 0x26; 0x36; 0x3F; 0xF7; 0xCC; 0x34; 0xA5; 0xE5; 0xF1; 0x71; 0xD8; 0x31; 0x15;
   0x04; 0xC7; 0x23; 0xC3; 0x18; 0x96; 0x05; 0x9A; 0x07; 0x12; 0x80; 0xE2; 0xEB; 0x27; 0xB2; 0x75;
   0x09; 0x83; 0x2C; 0x1A; 0x1B; 0x6E; 0x5A; 0xA0; 0x52; 0x3B; 0xD6; 0xB3; 0x29; 0xE3; 0x2F; 0x84;
   0x53; 0xD1; 0x00; 0xED; 0x20; 0xFC; 0xB1; 0x5B; 0x6A; 0xCB; 0xBE; 0x39; 0x4A; 0x4C; 0x58; 0xCF;
   0xD0; 0xEF; 0xAA; 0xFB; 0x43; 0x4D; 0x33; 0x85; 0x45; 0xF9; 0x02; 0x7F; 0x50; 0x3C; 0x9F; 0xA8;
   0x51; 0xA3; 0x40; 0x8F; 0x92; 0x9D; 0x38; 0xF5; 0xBC; 0xB6; 0xDA; 0x21; 0x10; 0xFF; 0xF3; 0xD2;
   0xCD; 0x0C; 0x13; 0xEC; 0x5F; 0x97; 0x44; 0x17; 0xC4; 0xA7; 0x7E; 0x3D; 0x64; 0x5D; 0x19; 0x73;
   0x60; 0x81; 0x4F; 0xDC; 0x22; 0x2A; 0x90; 0x88; 0x46; 0xEE; 0xB8; 0x14; 0xDE; 0x5E; 0x0B; 0xDB;
   0xE0; 0x32; 0x3A; 0x0A; 0x49; 0x06; 0x24; 0x5C; 0xC2; 0xD3; 0xAC; 0x62; 0x91; 0x95; 0xE4; 0x79;
   0xE7; 0xC8; 0x37; 0x6D; 0x8D; 0xD5; 0x4E; 0xA9; 0x6C; 0x56; 0xF4; 0xEA; 0x65; 0x7A; 0xAE; 0x08;
   0xBA; 0x78; 0x25; 0x2E; 0x1C; 0xA6; 0xB4; 0xC6; 0xE8; 0xDD; 0x74; 0x1F; 0x4B; 0xBD; 0x8B; 0x8A;
   0x70; 0x3E; 0xB5; 0x66; 0x48; 0x03; 0xF6; 0x0E; 0x61; 0x35; 0x57; 0xB9; 0x86; 0xC1; 0x1D; 0x9E;
   0xE1; 0xF8; 0x98; 0x11; 0x69; 0xD9; 0x8E; 0x94; 0x9B; 0x1E; 0x87; 0xE9; 0xCE; 0x55; 0x28; 0xDF;
   0x8C; 0xA1; 0x89; 0x0D; 0xBF; 0xE6; 0x42; 0x68; 0x41; 0x99; 0x2D; 0x0F; 0xB0; 0x54; 0xBB; 0x16].

Definition AES_INV_SBOX : list Z := [
   0x52; 0x09; 0x6A; 0xD5; 0x30; 0x36; 0xA5; 0x38; 0xBF; 0x40; 0xA3; 0x9E; 0x81; 0xF3; 0xD7; 0xFB;
   0x7C; 0xE3; 0x39; 0x82; 0x9B; 0x2F; 0xFF; 0x87; 0x34; 0x8E; 0x43; 0x44; 0xC4; 0xDE; 0xE9; 0xCB;
   0x54; 0x7B; 0x94; 0x32; 0xA6; 0xC2; 0x23; 0x3D; 0xEE; 0x4C; 0x95; 0x0B; 0x42; 0xFA; 0xC3; 0x4E;
   0x08; 0x2E; 0xA1; 0x66; 0x28; 0xD9; 0x24; 0xB2; 0x76; 0x5B; 0xA2; 0x49; 0x6D; 0x8B; 0xD1; 0x25;
   0x72; 0xF8; 0xF6; 0x64; 0x86; 0x68; 0x98; 0x16; 0xD4; 0xA4; 0x5C; 0xCC; 0x5D; 0x65; 0xB6; 0x92;
   0x6C; 0x70; 0x48; 0x50; 0xFD; 0xED; 0xB9; 0xDA; 0x5E; 0x15; 0x46; 0x57; 0xA7; 0x8D; 0x9D; 0x84;
   0x90; 0xD8; 0xAB; 0x00; 0x8C; 0xBC; 0xD3; 0x0A; 0xF7; 0xE4; 0x58; 0x05; 0xB8; 0xB3; 0x45; 0x06;
   0xD0; 0x2C; 0x1E; 0x8F; 0xCA; 0x3F; 0x0F; 0x02; 0xC1; 0xAF; 0xBD; 0x03; 0x01; 0x13; 0x8A; 0x6B;
   0x3A; 0x91; 0x11; 0x41; 0x4F; 0x67; 0xDC; 0xEA; 0x97; 0xF2; 0xCF; 0xCE; 0xF0; 0xB4; 0xE6; 0x73;
   0x96; 0xAC; 0x74; 0x22; 0xE7; 0xAD; 0x35; 0x85; 0xE2; 0xF9; 0x37; 0xE8; 0x1C; 0x75; 0xDF; 0x6E;
   0x47; 0xF1; 0x1A; 0x71; 0x1D; 0x29; 0xC5; 0x89; 0x6F; 0xB7; 0x62; 0x0E; 0xAA; 0x18; 0xBE; 0x1B;
   0xFC; 0x56; 0x3E; 0x4B; 0xC6; 0xD2; 0x79; 0x20; 0x9A; 0xDB; 0xC0; 0xFE; 0x78; 0xCD; 0x5A; 0xF4;
   0x1F; 0xDD; 0xA8; 0x33; 0x88; 0x07; 0xC7; 0x31; 0xB1; 0x12; 0x10; 0x59; 0x27; 0x80; 0xEC; 0x5F;
   0x60; 0x51; 0x7F; 0xA9; 0x19; 0xB5; 0x4A; 0x0D; 0x2D; 0xE5; 0x7A; 0x9F; 0x93; 0xC9; 0x9C; 0xEF;
   0xA0; 0xE0; 0x3B; 0x4D; 0xAE; 0x2A; 0xF5; 0xB0; 0xC8; 0xEB; 0xBB; 0x3C; 0x83; 0x53; 0x99; 0x61;
   0x17; 0x2B; 0x04; 0x7E; 0xBA; 0x77; 0xD6; 0x26; 0xE1; 0x69; 0x14; 0x63; 0x55; 0x21; 0x0C; 0x7D].

Definition rcon : list Z := [0x01; 0x02; 0x04; 0x08; 0x10; 0x20; 0x40; 0x80; 0x1B; 0x36].

(** ** The code *)

(** [a ^= b] for each byte of two arrays of one length. *)
Definition xor_bytes (a b : list Z) : list Z := zip_with Z.lxor a b.

(** The loop of [gf_mul]; [a <<= 1] drops the bit shifted out. *)
Fixpoint gf_loop (n : nat) (a b p : Z) : Z :=
  match n with
  | O => p
  | S n =>
    let p := if negb (Z.land b 1 =? 0) then Z.lxor p a else p in
    let hi_bit_set := negb (Z.land a 0x80 =? 0) in
    let a := Z.shiftl a 1 mod 256 in
    let a := if hi_bit_set then Z.lxor a 0x1B else a in
    gf_loop n a (Z.shiftr b 1) p
  end.
Definition gf_mul (a b : Z) : Z := gf_loop 8 a b 0.

Definition aes_add_round_key (state round_key : list Z) : list Z := xor_bytes state round_key.

Definition aes_inv_sub_bytes (state : list Z) : list Z := map (znth 0 AES_INV_SBOX) state.

(** [state\[i\]] is [tmp\[j\]], for the [j] listed. *)
Definition aes_inv_shift_rows (tmp : list Z) : list Z :=
  map (znth 0 tmp) [0; 13; 10; 7; 4; 1; 14; 11; 8; 5; 2; 15; 12; 9; 6; 3].

Definition xor4 (a b c d : Z) : Z := Z.lxor (Z.lxor (Z.lxor a b) c) d.

(** One column, and the loop over the four columns, each from its own bytes. *)
Definition inv_mix_column (s0 s1 s2 s3 : Z) : list Z :=
  [xor4 (gf_mul s0 0x0e) (gf_mul s1 0x0b) (gf_mul s2 0x0d) (gf_mul s3 0x09);
   xor4 (gf_mul s0 0x09) (gf_mul s1 0x0e) (gf_mul s2 0x0b) (gf_mul s3 0x0d);
   xor4 (gf_mul s0 0x0d) (gf_mul s1 0x09) (gf_mul s2 0x0e) (gf_mul s3 0x0b);
   xor4 (gf_mul s0 0x0b) (gf_mul s1 0x0d) (gf_mul s2 0x09) (gf_mul s3 0x0e)].

Definition on_columns (f : Z -> Z -> Z -> Z -> list Z) (state : list Z) : list Z :=
  let s := znth 0 state in
  f (s 0) (s 1) (s 2) (s 3) ++ f (s 4) (s 5) (s 6) (s 7) ++ f (s 8) (s 9) (s 10) (s 11) ++ f (s 12) (s 13) (s 14) (s 15).
Definition aes_inv_mix_columns : list Z -> list Z := on_columns inv_mix_column.

(** The words of the next round key: the first from the rotated and substituted last word,
    each other from the word before it. *)
Definition next_round_key (prev : list Z) (rc : Z) : list Z :=
  let temp := zslice prev 12 4 in
  let temp := drop 1 temp ++ take 1 temp in
  let temp := map (znth 0 AES_SBOX) temp in
  let temp := xor_bytes temp [rc; 0; 0; 0] in
  let w0 := xor_bytes (zslice prev 0 4) temp in
  let w1 := xor_bytes (zslice prev 4 4) w0 in
  let w2 := xor_bytes (zslice prev 8 4) w1 in
  let w3 := xor_bytes (zslice prev 12 4) w2 in
  w0 ++ w1 ++ w2 ++ w3.

Fixpoint expand_loop (prev : list Z) (rcs : list Z) : list (list Z) :=
  match rcs with
  | [] => []
  | rc :: rcs => let k := next_round_key prev rc in k :: expand_loop k rcs
  end.
Definition aes_key_expansion (key : list Z) : list (list Z) := key :: expand_loop key rcon.

(** The rounds, for round keys [k0], [mid] in the order of encryption, and [k10]. *)
Definition dec_round (state round_key : list Z) : list Z :=
  aes_inv_mix_columns (aes_add_round_key (aes_inv_sub_bytes (aes_inv_shift_rows state)) round_key).

Definition aes_decrypt_block (key ciphertext : list Z) : list Z :=
  let round_keys := aes_key_expansion key in
  let state := aes_add_round_key ciphertext (nth 10 round_keys []) in
  let state := foldl dec_round state (rev (take 9 (drop 1 round_keys))) in
  aes_add_round_key (aes_inv_sub_bytes (aes_inv_shift_rows state)) (nth 0 round_keys []).

(** *** Key unwrapping *)

(** [a\[7 - k\] ^= (t >> (k * 8)) & 0xFF] for [k] in [0..8]. *)
Definition xor_counter (a : list Z) (t : Z) : list Z :=
  imap (fun p x => Z.lxor x (Z.land (Z.shiftr t ((7 - Z.of_nat p) * 8)) 0xFF)) a.

Definition unwrap_step (kek : list Z) (n j : Z) (ar : list Z * list Z) (i : Z) : list Z * list Z :=
  let '(a, r) := ar in
  let t := n * j + i + 1 in
  let a := xor_counter a t in
  let b := a ++ zslice r (i * 8) 8 in
  let decrypted := aes_decrypt_block kek b in
  (zslice decrypted 0 8, zsplice r (i * 8) (zslice decrypted 8 8)).

Definition unwrap_pass (kek : list Z) (n : Z) (ar : list Z * list Z) (j : Z) : list Z * list Z :=
  foldl (unwrap_step kek n j) ar (rev (seqZ 0 n)).

Definition aes_key_unwrap (kek ciphertext : list Z) : result unit (list Z) :=
  if (zlen ciphertext <? 24) || negb (zlen ciphertext mod 8 =? 0) then Err tt else
  let n := zlen ciphertext / 8 - 1 in
  let r := zslice ciphertext 8 (n * 8) in
  let a := zslice ciphertext 0 8 in
  let '(a, r) := foldl (unwrap_pass kek n) (a, r) (rev (seqZ 0 6)) in
  if decide (a = replicate 8 0xA6) then Ok r else Err tt.

(** ** The standard *)

(** Inversion by exponentiation, and the affine transformation of FIPS 197. *)
Fixpoint gf_pow (n : nat) (x : Z) : Z := match n with O => 1 | S n => gf_mul x (gf_pow n x) end.
Definition rotl8 (x k : Z) : Z := Z.lor (Z.shiftl x k mod 256) (Z.shiftr x (8 - k)).
Definition sub_byte (x : Z) : Z :=
  let i := gf_pow 254 x in
  Z.lxor (xor4 i (rotl8 i 1) (rotl8 i 2) (rotl8 i 3)) (Z.lxor (rotl8 i 4) 0x63).

Definition sub_bytes (state : list Z) : list Z := map sub_byte state.
(** Row [r] moves [r] columns to the left; byte [4c + r] is row [r] of column [c]. *)
Definition shift_rows (state : list Z) : list Z :=
  map (fun i => znth 0 state ((i + 4 * (i mod 4)) mod 16)) (seqZ 0 16).
Definition mix_column (s0 s1 s2 s3 : Z) : list Z :=
  [xor4 (gf_mul s0 2) (gf_mul s1 3) s2 s3; xor4 s0 (gf_mul s1 2) (gf_mul s2 3) s3;
   xor4 s0 s1 (gf_mul s2 2) (gf_mul s3 3); xor4 (gf_mul s0 3) s1 s2 (gf_mul s3 2)].
Definition mix_columns : list Z -> list Z := on_columns mix_column.

Definition enc_round (state round_key : list Z) : list Z :=
  xor_bytes (mix_columns (shift_rows (sub_bytes state))) round_key.

(** The cipher, for round keys [k0], the middle ones and the last. *)
Definition aes_encrypt_with (k0 : list Z) (mid : list (list Z)) (k10 block : list Z) : list Z :=
  xor_bytes (shift_rows (sub_bytes (foldl enc_round (xor_bytes block k0) mid))) k10.

(** Key expansion word by word: word [i] is word [i - 4] xor the word before it, which is
    rotated, substituted and combined with a power of two when [i] is a multiple of 4. *)
Fixpoint key_words (n : nat) (i : Z) (rc : Z) (ws : list (list Z)) : list (list Z) :=
  match n with
  | O => ws
  | S n =>
    let prev := nth (Z.to_nat (i - 1)) ws [] in
    let first := i mod 4 =? 0 in
    let temp := if first then xor_bytes (sub_bytes (drop 1 prev ++ take 1 prev)) [rc; 0; 0; 0] else prev in
    let w := xor_bytes (nth (Z.to_nat (i - 4)) ws []) temp in
    key_words n (i + 1) (if first then gf_mul rc 2 else rc) (ws ++ [w])
  end.
Definition key_schedule (key : list Z) : list (list Z) :=
  key_words 40 4 1 [zslice key 0 4; zslice key 4 4; zslice key 8 4; zslice key 12 4].
Definition round_key (ws : list (list Z)) (r : nat) : list Z :=
  nth (4 * r) ws [] ++ nth (4 * r + 1) ws [] ++ nth (4 * r + 2) ws [] ++ nth (4 * r + 3) ws [].

Definition aes_encrypt_block (key block : list Z) : list Z :=
  let ws := key_schedule key in
  aes_encrypt_with (round_key ws 0) (map (round_key ws) (seq 1 9)) (round_key ws 10) block.

(** RFC 3394, section 2.2.1. *)
Definition wrap_step (kek : list Z) (n j : Z) (ar : list Z * list Z) (i : Z) : list Z * list Z :=
  let '(a, r) := ar in
  let b := aes_encrypt_block kek (a ++ zslice r (i * 8) 8) in
  (xor_counter (zslice b 0 8) (n * j + i + 1), zsplice r (i * 8) (zslice b 8 8)).
Definition wrap_pass (kek : list Z) (n : Z) (ar : list Z * list Z) (j : Z) : list Z * list Z :=
  foldl (wrap_step kek n j) ar (seqZ 0 n).
Definition aes_key_wrap (kek plaintext : list Z) : list Z :=
  let n := zlen plaintext / 8 in
  let '(a, r) := foldl (wrap_pass kek n) (replicate 8 0xA6, plaintext) (seqZ 0 6) in a ++ r.

(** ** Bytes by enumeration *)
Lemma byte_check_eq (f g : Z -> Z) :
  forallb (fun x => f x =? g x) (seqZ 0 256) = true -> forall x, byte x -> f x = g x.
Proof.
  intros Hf x Hx. rewrite forallb_forall in Hf. apply Z.eqb_eq, Hf, list_elem_of_In, elem_of_seqZ.
  unfold byte in Hx. lia.
Qed.

(** A property of one byte, by evaluation on all bytes. *)
Ltac by_byte x Hx := revert x Hx; apply byte_check_eq; vm_compute; reflexivity.

Lemma byte_mod x : byte x <-> x mod 256 = x.
Proof. unfold byte. split; [apply Z.mod_small|intros <-; apply Z.mod_pos_bound; lia]. Qed.

Lemma byte_lxor x y : byte x -> byte y -> byte (Z.lxor x y).
Proof.
  rewrite !byte_mod. intros Hx Hy. change 256 with (2 ^ 8) in *. rewrite <- !Z.land_ones in * by lia.
  rewrite <- Hx, <- Hy. apply Z.bits_inj'. intros n _. rewrite !Z.land_spec, !Z.lxor_spec, !Z.land_spec. btauto.
Qed.

Lemma lxor_cancel x y : Z.lxor (Z.lxor x y) y = x.
Proof. by rewrite Z.lxor_assoc, Z.lxor_nilpotent, Z.lxor_0_r. Qed.

Lemma xor4_transpose a1 a2 a3 a4 b1 b2 b3 b4 c1 c2 c3 c4 d1 d2 d3 d4 :
  xor4 (xor4 a1 a2 a3 a4) (xor4 b1 b2 b3 b4) (xor4 c1 c2 c3 c4) (xor4 d1 d2 d3 d4)
  = xor4 (xor4 a1 b1 c1 d1) (xor4 a2 b2 c2 d2) (xor4 a3 b3 c3 d3) (xor4 a4 b4 c4 d4).
Proof. unfold xor4. apply Z.bits_inj'. intros n _. rewrite !Z.lxor_spec. btauto. Qed.

(** ** The field *)

(** Multiplication by two. *)
Definition xtime (a : Z) : Z :=
  let r := Z.shiftl a 1 mod 256 in if negb (Z.land a 0x80 =? 0) then Z.lxor r 0x1B else r.

Lemma xtime_lxor a b : byte a -> byte b -> xtime (Z.lxor a b) = Z.lxor (xtime a) (xtime b).
Proof.
  assert (Hall : forallb (fun a => forallb (fun b => xtime (Z.lxor a b) =? Z.lxor (xtime a) (xtime b)) (seqZ 0 256))
    (seqZ 0 256) = true) by (vm_compute; reflexivity).
  intros Ha Hb. rewrite forallb_forall in Hall. specialize (Hall a). rewrite forallb_forall in Hall.
  apply Z.eqb_eq, Hall; apply list_elem_of_In, elem_of_seqZ; unfold byte in *; lia.
Qed.

Lemma byte_xtime a : byte a -> byte (xtime a).
Proof.
  intros Ha. unfold xtime. assert (byte (Z.shiftl a 1 mod 256)) by (apply Z.mod_pos_bound; lia).
  destruct (negb _); [|done]. by apply byte_lxor.
Qed.

Lemma gf_loop_S n a b p :
  gf_loop (S n) a b p = gf_loop n (xtime a) (Z.shiftr b 1) (if negb (Z.land b 1 =? 0) then Z.lxor p a else p).
Proof. reflexivity. Qed.

Lemma gf_loop_lxor n : forall a a' b p p', byte a -> byte a' ->
  gf_loop n (Z.lxor a a') b (Z.lxor p p') = Z.lxor (gf_loop n a b p) (gf_loop n a' b p').
Proof.
  induction n as [|n IH]; intros a a' b p p' Ha Ha'; [done|]. rewrite !gf_loop_S, xtime_lxor by done.
  rewrite <- IH by by apply byte_xtime. f_equal. destruct (negb _); [|done].
  apply Z.bits_inj'. intros k _. rewrite !Z.lxor_spec. btauto.
Qed.

Lemma gf_mul_lxor a b c : byte a -> byte b -> gf_mul (Z.lxor a b) c = Z.lxor (gf_mul a c) (gf_mul b c).
Proof. intros. unfold gf_mul. rewrite <- gf_loop_lxor by done. done. Qed.

Lemma byte_gf_loop n : forall a b p, byte a -> byte p -> byte (gf_loop n a b p).
Proof.
  induction n as [|n IH]; intros a b p Ha Hp; [done|]. rewrite gf_loop_S. apply IH; [by apply byte_xtime|].
  destruct (negb _); [by apply byte_lxor|done].
Qed.

Lemma byte_gf_mul a c : byte a -> byte (gf_mul a c).
Proof. intros. by apply byte_gf_loop. Qed.

Lemma byte_xor4 a b c d : byte a -> byte b -> byte c -> byte d -> byte (xor4 a b c d).
Proof. intros. unfold xor4. by repeat apply byte_lxor. Qed.

Lemma gf_mul_xor4 a b c d k : byte a -> byte b -> byte c -> byte d ->
  gf_mul (xor4 a b c d) k = xor4 (gf_mul a k) (gf_mul b k) (gf_mul c k) (gf_mul d k).
Proof. intros. unfold xor4. rewrite !gf_mul_lxor by (repeat apply byte_lxor; done). done. Qed.

Lemma xor4_1 a b c d x : a = x -> b = 0 -> c = 0 -> d = 0 -> xor4 a b c d = x.
Proof. intros -> -> -> ->. unfold xor4. by rewrite !Z.lxor_0_r. Qed.
Lemma xor4_2 a b c d x : a = 0 -> b = x -> c = 0 -> d = 0 -> xor4 a b c d = x.
Proof. intros -> -> -> ->. unfold xor4. by rewrite !Z.lxor_0_r. Qed.
Lemma xor4_3 a b c d x : a = 0 -> b = 0 -> c = x -> d = 0 -> xor4 a b c d = x.
Proof. intros -> -> -> ->. unfold xor4. by rewrite !Z.lxor_0_r. Qed.
Lemma xor4_4 a b c d x : a = 0 -> b = 0 -> c = 0 -> d = x -> xor4 a b c d = x.
Proof. intros -> -> -> ->. unfold xor4. by rewrite !Z.lxor_0_l. Qed.

Create HintDb aes.
#[local] Hint Resolve byte_lxor byte_gf_mul byte_xor4 : aes.

(** The product of the two matrices, entry by entry. *)
Ltac column_entry rule :=
  rewrite ?gf_mul_xor4 by auto with aes; rewrite xor4_transpose; apply rule;
  match goal with Hx : byte ?x |- context [gf_mul ?x _] => by_byte x Hx | Hx : byte ?x |- context [gf_mul (gf_mul ?x _) _] => by_byte x Hx end.

Lemma inv_mix_mix s0 s1 s2 s3 : byte s0 -> byte s1 -> byte s2 -> byte s3 ->
  match mix_column s0 s1 s2 s3 with [t0; t1; t2; t3] => inv_mix_column t0 t1 t2 t3 | _ => [] end = [s0; s1; s2; s3].
Proof.
  intros. unfold mix_column, inv_mix_column.
  f_equal; [column_entry xor4_1|]. f_equal; [column_entry xor4_2|]. f_equal; [column_entry xor4_3|].
  f_equal. column_entry xor4_4.
Qed.

Lemma mix_inv_mix s0 s1 s2 s3 : byte s0 -> byte s1 -> byte s2 -> byte s3 ->
  match inv_mix_column s0 s1 s2 s3 with [t0; t1; t2; t3] => mix_column t0 t1 t2 t3 | _ => [] end = [s0; s1; s2; s3].
Proof.
  intros. unfold mix_column, inv_mix_column.
  f_equal; [column_entry xor4_1|]. f_equal; [column_entry xor4_2|]. f_equal; [column_entry xor4_3|].
  f_equal. column_entry xor4_4.
Qed.

(** ** Blocks *)
Definition block (s : list Z) : Prop := length s = 16%nat /\ bytes s.

Lemma list16 (s : list Z) : length s = 16%nat ->
  exists a b c d e f g h i j k l m n o p, s = [a; b; c; d; e; f; g; h; i; j; k; l; m; n; o; p].
Proof.
  intros Hs. do 16 (destruct s as [|? s]; [done|]). destruct s; [|done]. by repeat eexists.
Qed.

Ltac open_block H :=
  let Hl := fresh in let Hb := fresh in destruct H as [Hl Hb];
  apply list16 in Hl as (? & ? & ? & ? & ? & ? & ? & ? & ? & ? & ? & ? & ? & ? & ? & ? & ->);
  rewrite !Forall_cons in Hb; destruct_and! Hb.

Ltac all_bytes := repeat (apply Forall_cons_2; [first [solve [auto with aes] | by split]|]); apply Forall_nil_2.

Lemma length_xor_bytes a b : length a = length b -> length (xor_bytes a b) = length b.
Proof. intros Hl. unfold xor_bytes. rewrite length_zip_with. lia. Qed.

Lemma bytes_xor a b : bytes a -> bytes b -> bytes (xor_bytes a b).
Proof.
  intros Ha. revert b. induction Ha as [|x a Hx _ IH]; intros [|y b] Hb; try by constructor.
  apply Forall_cons in Hb as [Hy Hb]. constructor; [by apply byte_lxor|by apply IH].
Qed.

Lemma xor_bytes_cancel a b : length a = length b -> xor_bytes (xor_bytes a b) b = a.
Proof.
  revert b. induction a as [|x a IH]; intros [|y b] Hl; try done. simpl. rewrite lxor_cancel. f_equal.
  apply IH. simpl in Hl. lia.
Qed.

Lemma block_xor a b : block a -> block b -> block (xor_bytes a b).
Proof. intros [? ?] [? ?]. split; [rewrite length_xor_bytes; lia|by apply bytes_xor]. Qed.

Lemma block_xor_cancel a b : block a -> block b -> xor_bytes (xor_bytes a b) b = a.
Proof. intros [? _] [? _]. apply xor_bytes_cancel. lia. Qed.

(** *** Substitution *)
Lemma sub_byte_table x : byte x -> znth 0 AES_SBOX x = sub_byte x.
Proof. intros Hx. by_byte x Hx. Qed.

Lemma inv_sub_byte x : byte x -> znth 0 AES_INV_SBOX (sub_byte x) = x.
Proof. intros Hx. rewrite <- sub_byte_table by done. by_byte x Hx. Qed.

Lemma byte_sub_byte x : byte x -> byte (sub_byte x).
Proof. intros Hx. rewrite <- sub_byte_table by done. apply byte_mod. by_byte x Hx. Qed.

Lemma byte_inv_sub x : byte x -> byte (znth 0 AES_INV_SBOX x).
Proof. intros Hx. apply byte_mod. by_byte x Hx. Qed.

Lemma sub_inv_byte x : byte x -> sub_byte (znth 0 AES_INV_SBOX x) = x.
Proof. intros Hx. rewrite <- sub_byte_table by by apply byte_inv_sub. by_byte x Hx. Qed.

Lemma block_map (f : Z -> Z) s : (forall x, byte x -> byte (f x)) -> block s -> block (map f s).
Proof.
  intros Hf [Hl Hb]. split; [by rewrite length_map|]. apply Forall_map. eapply Forall_impl; [exact Hb|exact Hf].
Qed.

Lemma map_cancel (f g : Z -> Z) s : (forall x, byte x -> g (f x) = x) -> bytes s -> map g (map f s) = s.
Proof. intros Hf Hs. induction Hs as [|x s Hx _ IH]; [done|]. simpl. by rewrite Hf, IH. Qed.

(** *** Rows and columns *)
Lemma inv_shift_shift s : length s = 16%nat -> aes_inv_shift_rows (shift_rows s) = s.
Proof. intros Hs. apply list16 in Hs as (? & ? & ? & ? & ? & ? & ? & ? & ? & ? & ? & ? & ? & ? & ? & ? & ->). reflexivity. Qed.

Lemma shift_inv_shift s : length s = 16%nat -> shift_rows (aes_inv_shift_rows s) = s.
Proof. intros Hs. apply list16 in Hs as (? & ? & ? & ? & ? & ? & ? & ? & ? & ? & ? & ? & ? & ? & ? & ? & ->). reflexivity. Qed.

Lemma block_shift s : block s -> block (shift_rows s).
Proof. intros Hs. open_block Hs. split; [done|]. all_bytes. Qed.

Lemma block_inv_shift s : block s -> block (aes_inv_shift_rows s).
Proof. intros Hs. open_block Hs. split; [done|]. all_bytes. Qed.

Lemma on_columns_eq g a b c d e f' g' h i j k l m n o p :
  on_columns g [a; b; c; d; e; f'; g'; h; i; j; k; l; m; n; o; p] = g a b c d ++ g e f' g' h ++ g i j k l ++ g m n o p.
Proof. reflexivity. Qed.

Lemma block_columns f s : (forall a b c d, byte a -> byte b -> byte c -> byte d -> length (f a b c d) = 4%nat /\ bytes (f a b c d)) ->
  block s -> block (on_columns f s).
Proof.
  intros Hf Hs. open_block Hs. rewrite on_columns_eq.
  split; [rewrite !length_app, !(fun a b c d H1 H2 H3 H4 => proj1 (Hf a b c d H1 H2 H3 H4)) by done; done|].
  repeat apply Forall_app_2; by apply Hf.
Qed.

Lemma columns_cancel f g s :
  (forall a b c d, byte a -> byte b -> byte c -> byte d ->
     exists t0 t1 t2 t3, f a b c d = [t0; t1; t2; t3] /\ g t0 t1 t2 t3 = [a; b; c; d]) ->
  block s -> on_columns g (on_columns f s) = s.
Proof.
  intros Hfg Hs. open_block Hs. rewrite on_columns_eq.
  repeat match goal with |- context [f ?a ?b ?c ?d] =>
    let E := fresh in let E' := fresh in
    destruct (Hfg a b c d) as (? & ? & ? & ? & E & E'); [done..|]; rewrite E; clear E; revert E' end.
  intros E1 E2 E3 E4. simpl app. rewrite on_columns_eq. by rewrite E1, E2, E3, E4.
Qed.

Lemma inv_mix_mix_columns s : block s -> aes_inv_mix_columns (mix_columns s) = s.
Proof. apply columns_cancel. intros. eexists _, _, _, _. split; [done|]. by apply inv_mix_mix. Qed.

Lemma mix_inv_mix_columns s : block s -> mix_columns (aes_inv_mix_columns s) = s.
Proof. apply columns_cancel. intros. eexists _, _, _, _. split; [done|]. by apply mix_inv_mix. Qed.

Lemma block_mix s : block s -> block (mix_columns s).
Proof. apply block_columns. intros. split; [done|]. all_bytes. Qed.

Lemma block_inv_mix s : block s -> block (aes_inv_mix_columns s).
Proof. apply block_columns. intros. split; [done|]. all_bytes. Qed.

(** Half rounds and their inverses. *)
Definition sub_shift (s : list Z) : list Z := shift_rows (sub_bytes s).
Definition inv_sub_shift (s : list Z) : list Z := aes_inv_sub_bytes (aes_inv_shift_rows s).

Lemma block_sub_shift s : block s -> block (sub_shift s).
Proof. intros. apply block_shift, block_map; [exact byte_sub_byte|done]. Qed.

Lemma block_inv_sub_shift s : block s -> block (inv_sub_shift s).
Proof. intros. apply block_map; [exact byte_inv_sub|]. by apply block_inv_shift. Qed.

Lemma inv_sub_shift_cancel s : block s -> inv_sub_shift (sub_shift s) = s.
Proof.
  intros [Hl Hb]. unfold inv_sub_shift, sub_shift, sub_bytes. rewrite inv_shift_shift by by rewrite length_map.
  by apply (map_cancel sub_byte); [exact inv_sub_byte|].
Qed.

Lemma sub_shift_cancel s : block s -> sub_shift (inv_sub_shift s) = s.
Proof.
  intros Hs. unfold inv_sub_shift, sub_shift, sub_bytes, aes_inv_sub_bytes.
  rewrite (map_cancel (znth 0 AES_INV_SBOX)); [|exact sub_inv_byte|by apply block_inv_shift].
  apply shift_inv_shift, Hs.
Qed.

#[local] Hint Resolve block_xor block_mix block_inv_mix block_sub_shift block_inv_sub_shift : aes.

Lemma block_rounds mid s : Forall block mid -> block s -> block (foldl enc_round s mid).
Proof.
  intros Hm. revert s. induction Hm as [|k mid Hk _ IH]; intros s Hs; [done|]. apply IH.
  unfold enc_round. fold (sub_shift s). auto with aes.
Qed.

Lemma block_inv_rounds mid s : Forall block mid -> block s -> block (foldl dec_round s mid).
Proof.
  intros Hm. revert s. induction Hm as [|k mid Hk _ IH]; intros s Hs; [done|]. apply IH.
  unfold dec_round, aes_add_round_key. fold (inv_sub_shift s). auto with aes.
Qed.

Lemma dec_enc_rounds mid : Forall block mid -> forall s, block s ->
  foldl dec_round (sub_shift (foldl enc_round s mid)) (rev mid) = sub_shift s.
Proof.
  induction 1 as [|k mid Hk Hm IH]; intros s Hs; [done|]. simpl. rewrite foldl_app, IH.
  2:{ unfold enc_round. fold (sub_shift s). auto with aes. }
  simpl. unfold dec_round, aes_add_round_key. fold (inv_sub_shift (sub_shift (enc_round s k))).
  rewrite inv_sub_shift_cancel; unfold enc_round; fold (sub_shift s); [|auto with aes].
  by rewrite block_xor_cancel, inv_mix_mix_columns by auto with aes.
Qed.

Lemma enc_dec_rounds mid : Forall block mid -> forall t, block t ->
  sub_shift (foldl enc_round (inv_sub_shift (foldl dec_round t (rev mid))) mid) = t.
Proof.
  induction 1 as [|k mid Hk Hm IH]; intros t Ht; [by apply sub_shift_cancel|]. simpl. rewrite foldl_app. simpl.
  set (T := foldl dec_round t (rev mid)).
  assert (block T) by (apply block_inv_rounds; [by apply Forall_rev|done]).
  assert (block (dec_round T k)) by (unfold dec_round, aes_add_round_key; fold (inv_sub_shift T); auto with aes).
  replace (enc_round _ k) with (inv_sub_shift T); [by apply IH|]. symmetry.
  unfold enc_round at 1. fold (sub_shift (inv_sub_shift (dec_round T k))). rewrite sub_shift_cancel by done.
  unfold dec_round, aes_add_round_key. fold (inv_sub_shift T).
  by rewrite mix_inv_mix_columns, block_xor_cancel by auto with aes.
Qed.

(** ** Round keys *)
Definition words (k : list Z) : list (list Z) := [zslice k 0 4; zslice k 4 4; zslice k 8 4; zslice k 12 4].

Lemma block_words_app a b c d : length a = 4%nat -> length b = 4%nat -> length c = 4%nat -> length d = 4%nat ->
  words (a ++ b ++ c ++ d) = [a; b; c; d].
Proof.
  intros Ha Hb Hc Hd.
  do 4 (destruct a as [|? a]; [done|]); do 4 (destruct b as [|? b]; [done|]); do 4 (destruct c as [|? c]; [done|]);
  do 4 (destruct d as [|? d]; [done|]). by destruct a, b, c, d.
Qed.

Definition word (w : list Z) : Prop := length w = 4%nat /\ bytes w.

Lemma block_words k : block k -> exists a b c d, k = a ++ b ++ c ++ d /\ word a /\ word b /\ word c /\ word d.
Proof.
  intros Hk. open_block Hk. eexists [_; _; _; _], [_; _; _; _], [_; _; _; _], [_; _; _; _]. split; [done|].
  unfold word. split_and!; try done; all_bytes.
Qed.

Lemma word_xor a b : word a -> word b -> word (xor_bytes a b).
Proof. intros [? ?] [? ?]. split; [rewrite length_xor_bytes; lia|by apply bytes_xor]. Qed.

Lemma word_rotated d : word d -> word (sub_bytes (drop 1 d ++ take 1 d)).
Proof.
  intros [Hl Hb]. split; [unfold sub_bytes; rewrite length_map, length_app, length_drop, length_take; lia|].
  apply Forall_map. apply Forall_app_2; [apply Forall_drop|apply Forall_take];
    (eapply Forall_impl; [exact Hb|exact byte_sub_byte]).
Qed.

Lemma next_round_key_words a b c d rc : word a -> word b -> word c -> word d ->
  let w0 := xor_bytes a (xor_bytes (sub_bytes (drop 1 d ++ take 1 d)) [rc; 0; 0; 0]) in
  let w1 := xor_bytes b w0 in let w2 := xor_bytes c w1 in let w3 := xor_bytes d w2 in
  next_round_key (a ++ b ++ c ++ d) rc = w0 ++ w1 ++ w2 ++ w3.
Proof.
  intros [Ha _] [Hb _] [Hc _] [Hd Hbd]. cbv zeta. unfold next_round_key.
  pose proof (block_words_app a b c d Ha Hb Hc Hd) as Hw. unfold words in Hw. injection Hw as -> -> -> ->.
  assert (map (znth 0 AES_SBOX) (drop 1 d ++ take 1 d) = sub_bytes (drop 1 d ++ take 1 d)) as ->; [|done].
  unfold sub_bytes. apply map_ext_in. intros x Hx. apply sub_byte_table.
  assert (bytes (drop 1 d ++ take 1 d)) as Hr by (apply Forall_app_2; [by apply Forall_drop|by apply Forall_take]).
  rewrite Forall_forall in Hr. by apply Hr, list_elem_of_In.
Qed.

Lemma key_words_round n rc pre a b c d : (length pre mod 4 = 0)%nat ->
  let w0 := xor_bytes a (xor_bytes (sub_bytes (drop 1 d ++ take 1 d)) [rc; 0; 0; 0]) in
  let w1 := xor_bytes b w0 in let w2 := xor_bytes c w1 in let w3 := xor_bytes d w2 in
  key_words (4 + n) (zlen pre + 4) rc (pre ++ [a; b; c; d])
  = key_words n (zlen (pre ++ [a; b; c; d]) + 4) (gf_mul rc 2) ((pre ++ [a; b; c; d]) ++ [w0; w1; w2; w3]).
Proof.
  intros Hp. cbv zeta. cbn [Nat.add key_words].
  assert (Hm : forall k, 0 <= k < 4 -> ((zlen pre + 4 + k) mod 4 =? 0) = (k =? 0)).
  { intros k Hk. unfold zlen. pose proof (Nat.div_mod_eq (length pre) 4) as E. rewrite Hp in E.
    replace (Z.of_nat (length pre) + 4 + k) with (k + (Z.of_nat (length pre / 4) + 1) * 4) by lia.
    by rewrite Z_mod_plus_full, Z.mod_small by lia. }
  assert (Hn : forall (l : list (list Z)) k, 0 <= k -> nth (Z.to_nat (zlen pre + k)) (pre ++ l) [] = nth (Z.to_nat k) l []).
  { intros l k Hk. unfold zlen. rewrite app_nth2 by lia. f_equal. lia. }
  rewrite <- !app_assoc. cbn [app].
  replace (zlen pre + 4 + 1 + 1 + 1 + 1) with (zlen pre + 4 + 4) by lia.
  replace (zlen pre + 4 + 1 + 1 + 1) with (zlen pre + 4 + 3) by lia.
  replace (zlen pre + 4 + 1 + 1) with (zlen pre + 4 + 2) by lia.
  rewrite !Hm by lia. replace ((zlen pre + 4) mod 4 =? 0) with true by (rewrite <- (Z.add_0_r (zlen pre + 4)), Hm by lia; done).
  cbn [Z.eqb].
  rewrite zlen_app. change (zlen [a; b; c; d]) with 4. replace (zlen pre + 4 + 4) with (zlen pre + 8) by lia.
  replace (zlen pre + 4 - 1) with (zlen pre + 3) by lia. replace (zlen pre + 4 - 4) with (zlen pre + 0) by lia.
  replace (zlen pre + 4 + 1 - 1) with (zlen pre + 4) by lia. replace (zlen pre + 4 + 1 - 4) with (zlen pre + 1) by lia.
  replace (zlen pre + 4 + 2 - 1) with (zlen pre + 5) by lia. replace (zlen pre + 4 + 2 - 4) with (zlen pre + 2) by lia.
  replace (zlen pre + 4 + 3 - 1) with (zlen pre + 6) by lia. replace (zlen pre + 4 + 3 - 4) with (zlen pre + 3) by lia.
  rewrite !Hn by lia. reflexivity.
Qed.

Fixpoint doubling (rc : Z) (rcs : list Z) : Prop :=
  match rcs with [] => True | x :: rcs => x = rc /\ doubling (gf_mul rc 2) rcs end.

Lemma key_words_expand rcs : forall rc pre k, doubling rc rcs -> block k -> Forall byte rcs -> (length pre mod 4 = 0)%nat ->
  key_words (4 * length rcs) (zlen pre + 4) rc (pre ++ words k) = pre ++ words k ++ mjoin (map words (expand_loop k rcs))
  /\ Forall block (expand_loop k rcs).
Proof.
  induction rcs as [|x rcs IH]; intros rc pre k Hd Hk Hr Hp; [split; [by rewrite app_nil_r|constructor]|].
  destruct Hd as [-> Hd]. apply Forall_cons in Hr as [Hrc Hr].
  destruct (block_words k Hk) as (a & b & c & d & -> & Ha & Hb & Hc & Hdd).
  pose proof (next_round_key_words a b c d rc Ha Hb Hc Hdd) as Hnext. cbv zeta in Hnext.
  pose proof (key_words_round (4 * length rcs) rc pre a b c d Hp) as Hround. cbv zeta in Hround.
  set (w0 := xor_bytes a (xor_bytes (sub_bytes (drop 1 d ++ take 1 d)) [rc; 0; 0; 0])) in *.
  assert (word w0) as H0.
  { apply word_xor; [done|]. apply word_xor; [by apply word_rotated|]. split; [done|]. all_bytes. }
  set (w1 := xor_bytes b w0) in *. set (w2 := xor_bytes c w1) in *. set (w3 := xor_bytes d w2) in *.
  assert (word w1) as H1 by by apply word_xor. assert (word w2) as H2 by by apply word_xor. assert (word w3) as H3 by by apply word_xor.
  assert (block (w0 ++ w1 ++ w2 ++ w3)) as Hbk.
  { destruct H0, H1, H2, H3. split; [rewrite !length_app; lia|]. by repeat apply Forall_app_2. }
  cbn [expand_loop]. rewrite Hnext.
  destruct (IH (gf_mul rc 2) (pre ++ words (a ++ b ++ c ++ d)) _ Hd Hbk Hr) as [E Hall].
  { rewrite length_app. cbn [length words]. rewrite Nat.Div0.add_mod, Hp. done. }
  split; [|by constructor]. destruct Ha, Hb, Hc, Hdd, H0, H1, H2, H3.
  rewrite !block_words_app in * by done. cbn [length]. replace (4 * S (length rcs))%nat with (4 + 4 * length rcs)%nat by lia.
  rewrite Hround, E. cbn [map mjoin list_join]. rewrite block_words_app by done. by rewrite <- !app_assoc.
Qed.

Lemma round_key_words ks : Forall block ks -> forall r, (r < length ks)%nat ->
  round_key (mjoin (map words ks)) r = nth r ks [].
Proof.
  induction 1 as [|k ks Hk _ IH]; intros [|r] Hr; simpl in Hr; [lia..| |].
  - destruct (block_words k Hk) as (a & b & c & d & -> & [Ha _] & [Hb _] & [Hc _] & [Hd _]).
    cbn [map mjoin list_join]. rewrite block_words_app by done. reflexivity.
  - cbn [nth]. rewrite <- IH by lia. unfold round_key. cbn [map mjoin list_join].
    replace (4 * S r)%nat with (S (S (S (S (4 * r))))) by lia. reflexivity.
Qed.

(** The code's key expansion is the standard's. *)
Lemma key_expansion_schedule key : block key ->
  Forall block (aes_key_expansion key) /\ length (aes_key_expansion key) = 11%nat
  /\ forall r, (r < 11)%nat -> round_key (key_schedule key) r = nth r (aes_key_expansion key) [].
Proof.
  intros Hk. destruct (key_words_expand rcon 1 [] key) as [E Hall]; [by vm_compute|done| |done|].
  { unfold rcon. all_bytes. }
  assert (Forall block (aes_key_expansion key)) as Hb by by constructor.
  split; [done|]. split; [done|]. intros r Hr.
  change (key_schedule key) with (key_words (4 * length rcon) (zlen (@nil (list Z)) + 4) 1 ([] ++ words key)).
  rewrite E. by rewrite <- (round_key_words _ Hb r).
Qed.

Lemma aes_encrypt_expanded key b : block key ->
  let ks := aes_key_expansion key in
  aes_encrypt_block key b = aes_encrypt_with (nth 0 ks []) (take 9 (drop 1 ks)) (nth 10 ks []) b
  /\ block (nth 0 ks []) /\ Forall block (take 9 (drop 1 ks)) /\ block (nth 10 ks []).
Proof.
  intros Hk ks. destruct (key_expansion_schedule key Hk) as (Hb & Hl & Hr). fold ks in Hb, Hl, Hr.
  unfold aes_encrypt_block. cbv zeta. rewrite !Hr by lia.
  replace (map (round_key (key_schedule key)) (seq 1 9)) with (take 9 (drop 1 ks)).
  2:{ rewrite (map_ext_in _ (fun r => nth r ks [])) by (intros r Hin%in_seq; apply Hr; lia).
      clear -Hl. do 11 (destruct ks as [|? ks]; [done|]). by destruct ks. }
  split; [done|]. split_and!; [|by apply Forall_take, Forall_drop|]; (eapply Forall_nth; [exact Hb|lia]).
Qed.

(** Decryption is the inverse of encryption. *)
Lemma aes_block_inverse key b : block key -> block b ->
  aes_decrypt_block key (aes_encrypt_block key b) = b /\ aes_encrypt_block key (aes_decrypt_block key b) = b.
Proof.
  intros Hk Hb. destruct (aes_encrypt_expanded key b Hk) as (-> & H0 & Hm & H10).
  rewrite (proj1 (aes_encrypt_expanded key (aes_decrypt_block key b) Hk)).
  unfold aes_decrypt_block. cbv zeta. revert H0 Hm H10.
  generalize (nth 0 (aes_key_expansion key) []), (take 9 (drop 1 (aes_key_expansion key))), (nth 10 (aes_key_expansion key) []).
  intros k0 mid k10 H0 Hm H10. unfold aes_encrypt_with, aes_add_round_key. split.
  - fold (sub_shift (foldl enc_round (xor_bytes b k0) mid)).
    assert (block (foldl enc_round (xor_bytes b k0) mid)) by (apply block_rounds; auto with aes).
    rewrite block_xor_cancel by auto with aes. rewrite dec_enc_rounds by auto with aes.
    fold (inv_sub_shift (sub_shift (xor_bytes b k0))).
    by rewrite inv_sub_shift_cancel, block_xor_cancel by auto with aes.
  - set (t := foldl dec_round (xor_bytes b k10) (rev mid)). fold (inv_sub_shift t).
    assert (block t) by (apply block_inv_rounds; [by apply Forall_rev|auto with aes]).
    rewrite block_xor_cancel by auto with aes.
    fold (sub_shift (foldl enc_round (inv_sub_shift t) mid)). unfold t.
    by rewrite enc_dec_rounds, block_xor_cancel by auto with aes.
Qed.

Lemma block_decrypt key b : block key -> block b -> block (aes_decrypt_block key b).
Proof.
  intros Hk Hb. destruct (aes_encrypt_expanded key b Hk) as (_ & H0 & Hm & H10). unfold aes_decrypt_block, aes_add_round_key.
  apply block_xor; [|done]. apply block_inv_sub_shift, block_inv_rounds; [by apply Forall_rev|auto with aes].
Qed.

Lemma block_encrypt key b : block key -> block b -> block (aes_encrypt_block key b).
Proof.
  intros Hk Hb. destruct (aes_encrypt_expanded key b Hk) as (-> & H0 & Hm & H10). unfold aes_encrypt_with.
  apply block_xor; [|done]. apply block_sub_shift, block_rounds; auto with aes.
Qed.

(** For every key, the code's decryption of a block is exactly the inverse of AES-128 as the
    standard defines it: it decrypts what the standard encrypts, and only that. *)
Theorem aes_decrypt_correct (key b : list Z) : block key -> block b ->
  aes_decrypt_block key (aes_encrypt_block key b) = b /\ aes_encrypt_block key (aes_decrypt_block key b) = b.
Proof. exact (aes_block_inverse key b). Qed.

(** ** Key wrapping *)

(** A fold is undone by the inverse steps in reverse order. *)
Lemma foldl_cancel {A B} (I : A -> Prop) (f g : A -> B -> A) l :
  (forall s x, x ∈ l -> I s -> I (f s x) /\ g (f s x) x = s) ->
  forall s, I s -> I (foldl f s l) /\ foldl g (foldl f s l) (rev l) = s.
Proof.
  induction l as [|x l IH]; intros Hfg s Hs; [done|]. simpl. rewrite foldl_app.
  destruct (Hfg s x) as [Hi Hx]; [by left|done|].
  destruct (IH (fun s y Hy => Hfg s y ltac:(by right)) (f s x) Hi) as [Hi' E]. split; [done|]. simpl. by rewrite E.
Qed.

Lemma zslice_zsplice (r d : list Z) off : 0 <= off -> off + zlen d <= zlen r -> zslice (zsplice r off d) off (zlen d) = d.
Proof.
  intros Ho Hl. apply (znth_ext 0).
  - rewrite zlen_zslice; try lia; [apply zlen_nonneg|rewrite zlen_zsplice; lia].
  - intros i Hi. rewrite zlen_zslice in Hi; try lia; [|apply zlen_nonneg|rewrite zlen_zsplice; lia].
    rewrite znth_zslice, znth_zsplice by (rewrite ?zlen_zsplice; lia).
    rewrite (proj2 (Z.leb_le _ _)), (proj2 (Z.ltb_lt _ _)) by lia. simpl. f_equal. lia.
Qed.

Lemma zsplice_restore (r d : list Z) off : 0 <= off -> off + zlen d <= zlen r ->
  zsplice (zsplice r off d) off (zslice r off (zlen d)) = r.
Proof.
  intros Ho Hl. pose proof (zlen_nonneg d).
  assert (zlen (zslice r off (zlen d)) = zlen d) as Hs by (rewrite zlen_zslice; lia).
  assert (zlen (zsplice r off d) = zlen r) as Hp by (rewrite zlen_zsplice; lia).
  apply (znth_ext 0); [rewrite zlen_zsplice; lia|]. intros i Hi. rewrite zlen_zsplice in Hi by lia.
  rewrite !znth_zsplice by lia. rewrite Hs.
  destruct (Z.leb_spec off i), (Z.ltb_spec i (off + zlen d)); simpl; try done.
  rewrite znth_zslice by lia. f_equal. lia.
Qed.

Lemma bytes_zslice (r : list Z) off n : bytes r -> bytes (zslice r off n).
Proof. intros. by apply Forall_take, Forall_drop. Qed.

Lemma bytes_zsplice (r d : list Z) off : bytes r -> bytes d -> bytes (zsplice r off d).
Proof. intros. apply Forall_app_2; [by apply Forall_take|]. apply Forall_app_2; [done|by apply Forall_drop]. Qed.

Lemma length_xor_counter a t : length (xor_counter a t) = length a.
Proof. apply length_imap. Qed.

Lemma bytes_xor_counter a t : bytes a -> bytes (xor_counter a t).
Proof.
  intros Ha. apply Forall_lookup. intros i x Hx. unfold xor_counter in Hx. rewrite list_lookup_imap in Hx.
  destruct (a !! i) as [y|] eqn:E; [|done]. injection Hx as <-. eapply Forall_lookup in Ha; [|exact E].
  apply byte_lxor; [done|]. change 0xFF with (Z.ones 8). rewrite Z.land_ones by lia. apply Z.mod_pos_bound. lia.
Qed.

Lemma xor_counter_cancel a t : xor_counter (xor_counter a t) t = a.
Proof.
  apply list_eq. intros i. unfold xor_counter. rewrite !list_lookup_imap. destruct (a !! i); [|done]. simpl.
  by rewrite lxor_cancel.
Qed.

(** The register and the [n] blocks of the data. *)
Definition wrap_inv (n : Z) (ar : list Z * list Z) : Prop :=
  zlen ar.1 = 8 /\ bytes ar.1 /\ zlen ar.2 = n * 8 /\ bytes ar.2.

Lemma block_halves b : block b -> b = zslice b 0 8 ++ zslice b 8 8 /\ zlen (zslice b 0 8) = 8 /\ zlen (zslice b 8 8) = 8
  /\ bytes (zslice b 0 8) /\ bytes (zslice b 8 8).
Proof. intros Hb. open_block Hb. split; [reflexivity|]. split; [done|]. split; [done|]. split; cbn; all_bytes. Qed.

Lemma block_app a x : zlen a = 8 -> zlen x = 8 -> bytes a -> bytes x ->
  block (a ++ x) /\ zslice (a ++ x) 0 8 = a /\ zslice (a ++ x) 8 8 = x.
Proof.
  unfold zlen. intros Ha Hx Hba Hbx. split; [split; [rewrite length_app; lia|by apply Forall_app_2]|].
  unfold zslice. rewrite drop_0. change (Z.to_nat 8) with 8%nat. split; [by rewrite take_app_length' by lia|].
  rewrite drop_app_length' by lia. apply take_ge. lia.
Qed.

(** From here on the cipher is used through its inverse only. *)
#[local] Opaque aes_encrypt_block aes_decrypt_block.

(** A step on block [i], for the cipher or its inverse: [pre] and [post] are the counters. *)
Lemma cipher_step_cancel (E D : list Z -> list Z) pre post n i a r :
  (forall b, block b -> block (E b) /\ D (E b) = b) ->
  (forall x, post (pre x) = x) -> (forall x, zlen (pre x) = zlen x) -> (forall x, bytes x -> bytes (pre x)) ->
  0 <= i < n -> wrap_inv n (a, r) ->
  let b := E (a ++ zslice r (i * 8) 8) in
  let ar' := (pre (zslice b 0 8), zsplice r (i * 8) (zslice b 8 8)) in
  wrap_inv n ar'
  /\ D (post ar'.1 ++ zslice ar'.2 (i * 8) 8) = a ++ zslice r (i * 8) 8
  /\ zsplice ar'.2 (i * 8) (zslice r (i * 8) 8) = r.
Proof.
  intros Hed Hpp Hlp Hbp Hi (Ha & Hba & Hr & Hbr) b ar'. cbn [fst snd] in *.
  assert (zlen (zslice r (i * 8) 8) = 8) as Hs by (apply zlen_zslice; lia).
  destruct (block_app a _ Ha Hs Hba (bytes_zslice r (i * 8) 8 Hbr)) as [Hblk _].
  destruct (Hed _ Hblk) as [Hb Hd]. fold b in Hb, Hd.
  destruct (block_halves b Hb) as (Eb & Hh1 & Hh2 & Hb1 & Hb2).
  pose proof (zslice_zsplice r (zslice b 8 8) (i * 8) ltac:(lia) ltac:(lia)) as Hss.
  pose proof (zsplice_restore r (zslice b 8 8) (i * 8) ltac:(lia) ltac:(lia)) as Hre.
  rewrite Hh2 in Hss, Hre. unfold ar'. cbn [fst snd]. split; [|split].
  - split_and!; cbn [fst snd]; [rewrite Hlp; lia|by apply Hbp|rewrite zlen_zsplice; lia|by apply bytes_zsplice].
  - by rewrite Hpp, Hss, <- Eb.
  - done.
Qed.

Lemma wrap_step_cancel kek n j i s : block kek -> 0 <= i < n -> wrap_inv n s ->
  wrap_inv n (wrap_step kek n j s i) /\ unwrap_step kek n j (wrap_step kek n j s i) i = s.
Proof.
  intros Hk Hi Hs. destruct s as [a r]. pose proof Hs as (Ha & Hba & Hr & Hbr). cbn [fst snd] in *.
  destruct (cipher_step_cancel (aes_encrypt_block kek) (aes_decrypt_block kek) (fun x => xor_counter x (n * j + i + 1))
    (fun x => xor_counter x (n * j + i + 1)) n i a r) as (Hinv & Hd & Hre).
  { intros b Hb. split; [exact (block_encrypt kek b Hk Hb)|apply (aes_block_inverse kek b Hk Hb)]. }
  { intros x. apply xor_counter_cancel. }
  { intros x. unfold zlen. by rewrite length_xor_counter. }
  { intros x. apply bytes_xor_counter. }
  { exact Hi. }
  { exact Hs. }
  cbv zeta in *. split; [exact Hinv|]. unfold wrap_step, unwrap_step. cbn [fst snd] in *. rewrite Hd.
  assert (zlen (zslice r (i * 8) 8) = 8) as Hs8 by (apply zlen_zslice; lia).
  destruct (block_app a _ Ha Hs8 Hba (bytes_zslice r (i * 8) 8 Hbr)) as (_ & -> & ->). by rewrite Hre.
Qed.

Lemma unwrap_step_cancel kek n j i s : block kek -> 0 <= i < n -> wrap_inv n s ->
  wrap_inv n (unwrap_step kek n j s i) /\ wrap_step kek n j (unwrap_step kek n j s i) i = s.
Proof.
  intros Hk Hi Hs. destruct s as [a r]. pose proof Hs as (Ha & Hba & Hr & Hbr). cbn [fst snd] in *.
  set (t := n * j + i + 1).
  assert (wrap_inv n (xor_counter a t, r)) as Hs'.
  { split_and!; cbn [fst snd]; try done; [unfold zlen in *; by rewrite length_xor_counter|by apply bytes_xor_counter]. }
  destruct (cipher_step_cancel (aes_decrypt_block kek) (aes_encrypt_block kek) (fun x => x) (fun x => x) n i (xor_counter a t) r)
    as (Hinv & Hd & Hre); [|done|done|done|exact Hi|exact Hs'|].
  { intros b Hb. split; [exact (block_decrypt kek b Hk Hb)|apply (aes_block_inverse kek b Hk Hb)]. }
  cbv zeta in *. split; [exact Hinv|]. unfold wrap_step, unwrap_step. fold t. cbn [fst snd] in *. rewrite Hd.
  assert (zlen (zslice r (i * 8) 8) = 8) as Hs8 by (apply zlen_zslice; lia). destruct Hs' as (Hx & Hbx & _). cbn [fst] in *.
  destruct (block_app _ _ Hx Hs8 Hbx (bytes_zslice r (i * 8) 8 Hbr)) as (_ & -> & ->). by rewrite Hre, xor_counter_cancel.
Qed.

Lemma wrap_passes_cancel kek n s : block kek -> wrap_inv n s ->
  let s' := foldl (wrap_pass kek n) s (seqZ 0 6) in
  wrap_inv n s' /\ foldl (unwrap_pass kek n) s' (rev (seqZ 0 6)) = s.
Proof.
  intros Hk Hs. apply (foldl_cancel (wrap_inv n)); [|done]. intros u j _ Hu. unfold wrap_pass, unwrap_pass.
  apply (foldl_cancel (wrap_inv n)); [|done]. intros v i Hi%elem_of_seqZ Hv. apply wrap_step_cancel; [done|lia|done].
Qed.

Lemma unwrap_passes_cancel kek n s : block kek -> wrap_inv n s ->
  let s' := foldl (unwrap_pass kek n) s (rev (seqZ 0 6)) in
  wrap_inv n s' /\ foldl (wrap_pass kek n) s' (seqZ 0 6) = s.
Proof.
  intros Hk Hs.
  assert (Hpass : forall u j, wrap_inv n u -> wrap_inv n (unwrap_pass kek n u j) /\ wrap_pass kek n (unwrap_pass kek n u j) j = u).
  { intros u j Hu. unfold unwrap_pass, wrap_pass.
    pose proof (foldl_cancel (wrap_inv n) (unwrap_step kek n j) (wrap_step kek n j) (rev (seqZ 0 n))) as Hf.
    rewrite rev_involutive in Hf. apply Hf; [|exact Hu]. intros v i Hi Hv. apply unwrap_step_cancel; [done| |done].
    apply list_elem_of_In, in_rev, list_elem_of_In, elem_of_seqZ in Hi. lia. }
  pose proof (foldl_cancel (wrap_inv n) (unwrap_pass kek n) (wrap_pass kek n) (rev (seqZ 0 6))) as Hf.
  rewrite rev_involutive in Hf. apply Hf; [|exact Hs]. intros u j _. apply Hpass.
Qed.

Lemma split8 c n : zlen c = (n + 1) * 8 -> 0 <= n -> bytes c ->
  wrap_inv n (zslice c 0 8, zslice c 8 (n * 8)) /\ c = zslice c 0 8 ++ zslice c 8 (n * 8).
Proof.
  intros Hc Hn Hb. split.
  - split_and!; cbn [fst snd]; [apply zlen_zslice; lia|by apply bytes_zslice|apply zlen_zslice; lia|by apply bytes_zslice].
  - unfold zslice. rewrite drop_0. rewrite (take_ge (drop _ _)) by (unfold zlen in Hc; rewrite length_drop; lia).
    change (Z.to_nat 8) with 8%nat. by rewrite take_drop.
Qed.

(** Unwrapping accepts exactly what RFC 3394 wraps: it returns the data if and only if the
    ciphertext is the wrapping of that data, which is at least two whole 8-byte blocks. *)
Lemma aes_key_unwrap_iff kek c d : block kek -> bytes c ->
  aes_key_unwrap kek c = Ok d <-> bytes d /\ 16 <= zlen d /\ zlen d mod 8 = 0 /\ c = aes_key_wrap kek d.
Proof.
  intros Hk Hc. unfold aes_key_unwrap, aes_key_wrap. split.
  - destruct (Z.ltb_spec (zlen c) 24); [done|]. destruct (Z.eqb_spec (zlen c mod 8) 0) as [Hm|]; [|done]. cbn [orb negb].
    set (n := zlen c / 8 - 1). assert (zlen c = (n + 1) * 8) as Hn by (pose proof (Z.div_mod (zlen c) 8); lia).
    destruct (split8 c n Hn ltac:(lia) Hc) as [Hi Ec].
    destruct (unwrap_passes_cancel kek n _ Hk Hi) as [Hi' Ew]. cbv zeta in *.
    destruct (foldl (unwrap_pass kek n) _ _) as [a r]. destruct Hi' as (Ha & Hba & Hr & Hbr). cbn [fst snd] in *.
    destruct (decide (a = replicate 8 0xA6)) as [Ea|]; [|done]. intros [= <-]. split; [done|]. split; [lia|].
    rewrite Hr, Z_mod_mult, Z.div_mul by lia. split; [done|]. by rewrite <- Ea, Ew.
  - intros (Hd & Hl & Hm & ->). set (n := zlen d / 8).
    assert (zlen d = n * 8) as Hn by (pose proof (Z.div_mod (zlen d) 8); lia).
    assert (wrap_inv n (replicate 8 0xA6, d)) as Hi.
    { split_and!; cbn [fst snd]; try done. cbn. all_bytes. }
    destruct (wrap_passes_cancel kek n _ Hk Hi) as [Hi' Ew]. cbv zeta in *.
    destruct (foldl (wrap_pass kek n) _ _) as [a r]. destruct Hi' as (Ha & Hba & Hr & Hbr). cbn [fst snd] in *.
    assert (zlen (a ++ r) = (n + 1) * 8) as Hlen by (rewrite zlen_app; lia).
    rewrite Hlen, Z_mod_mult, Z.div_mul by lia. rewrite (proj2 (Z.ltb_ge _ _)) by lia. cbn [orb negb Z.eqb].
    replace (n + 1 - 1) with n by lia.
    replace (zslice (a ++ r) 0 8) with a by (unfold zslice, zlen in *; rewrite drop_0, take_app_length' by lia; done).
    replace (zslice (a ++ r) 8 (n * 8)) with r.
    2:{ unfold zslice, zlen in *. rewrite drop_app_length' by lia. rewrite take_ge by lia. done. }
    rewrite Ew. by rewrite decide_True.
Qed.

Lemma aes_key_wrap_shape kek d : block kek -> bytes d -> zlen d mod 8 = 0 ->
  bytes (aes_key_wrap kek d) /\ zlen (aes_key_wrap kek d) = 8 + zlen d.
Proof.
  intros Hk Hd Hm. unfold aes_key_wrap. set (n := zlen d / 8).
  assert (wrap_inv n (replicate 8 0xA6, d)) as Hi.
  { split_and!; cbn [fst snd]; try done; [cbn; all_bytes|pose proof (Z.div_mod (zlen d) 8); lia]. }
  destruct (wrap_passes_cancel kek n _ Hk Hi) as [Hi' _]. cbv zeta in *.
  destruct (foldl (wrap_pass kek n) _ _) as [a r]. destruct Hi' as (Ha & Hba & Hr & Hbr). cbn [fst snd] in *.
  split; [by apply Forall_app_2|]. rewrite zlen_app. pose proof (Z.div_mod (zlen d) 8). lia.
Qed.

(** C16. Unwrapping the group key inverts the key wrapping of RFC 3394 and accepts nothing else:
    it succeeds with [d] exactly when the ciphertext is the wrapping of [d]. *)
Theorem aes_key_unwrap_correct (kek c d : list Z) : block kek -> bytes c ->
  aes_key_unwrap kek c = Ok d <-> bytes d /\ 16 <= zlen d /\ zlen d mod 8 = 0 /\ c = aes_key_wrap kek d.
Proof. exact (aes_key_unwrap_iff kek c d). Qed.

#[local] Transparent aes_encrypt_block aes_decrypt_block.

(** ** Witnesses: the vectors of FIPS 197 and RFC 3394 *)
Definition demo_key : list Z := seqZ 0 16.
Definition demo_plain : list Z := [0x00; 0x11; 0x22; 0x33; 0x44; 0x55; 0x66; 0x77; 0x88; 0x99; 0xaa; 0xbb; 0xcc; 0xdd; 0xee; 0xff].

Lemma demo_key_block : block demo_key.
Proof. split; [done|]. cbn. all_bytes. Qed.
Lemma demo_plain_block : block demo_plain.
Proof. split; [done|]. cbn. all_bytes. Qed.

Lemma aes_decrypt_correct_witness :
  aes_encrypt_block demo_key demo_plain
    = [0x69; 0xc4; 0xe0; 0xd8; 0x6a; 0x7b; 0x04; 0x30; 0xd8; 0xcd; 0xb7; 0x80; 0x70; 0xb4; 0xc5; 0x5a]
  /\ aes_decrypt_block demo_key (aes_encrypt_block demo_key demo_plain) = demo_plain
  /\ aes_encrypt_block demo_key (aes_decrypt_block demo_key demo_plain) = demo_plain.
Proof.
  split; [vm_compute; reflexivity|]. exact (aes_decrypt_correct demo_key demo_plain demo_key_block demo_plain_block).
Defined.

Definition demo_wrapped : list Z :=
  [0x1f; 0xa6; 0x8b; 0x0a; 0x81; 0x12; 0xb4; 0x47; 0xae; 0xf3; 0x4b; 0xd8;
   0xfb; 0x5a; 0x7b; 0x82; 0x9d; 0x3e; 0x86; 0x23; 0x71; 0xd2; 0xcf; 0xe5].
Lemma demo_wrapped_bytes : bytes demo_wrapped.
Proof. unfold demo_wrapped. all_bytes. Qed.

Lemma aes_key_unwrap_correct_witness :
  aes_key_unwrap demo_key demo_wrapped = Ok demo_plain
  /\ bytes demo_plain /\ 16 <= zlen demo_plain /\ zlen demo_plain mod 8 = 0 /\ demo_wrapped = aes_key_wrap demo_key demo_plain.
Proof.
  assert (aes_key_unwrap demo_key demo_wrapped = Ok demo_plain) as E by (vm_compute; reflexivity).
  split; [exact E|].
  exact (proj1 (aes_key_unwrap_correct demo_key demo_wrapped demo_plain demo_key_block demo_wrapped_bytes) E).
Defined.
