(* ===== verification/Wpa.v ===== *)
(** * The WPA2 supplicant

    [bonder/src/wpa.rs]: SHA-1, HMAC, the derivation of keys and the four-way handshake of
    the client.  Arrays are lists of their length; reads of a frame are checked, so that an
    access out of range is visible as a panic.  The samples of the hardware random number
    generator are arguments.  The cipher is in [Aes]. *)

From S2P Require Import Prelude Rings Terminal Net Aes.

(** ** SHA-1 *)
Definition rotl32 (x k : Z) : Z := Z.lor (Z.shiftl x k mod 2 ^ 32) (Z.shiftr x (32 - k)).
Definition add32 (a b : Z) : Z := (a + b) mod 2 ^ 32.
Definition not32 (a : Z) : Z := Z.lxor a (2 ^ 32 - 1).

(** [to_be_bytes] of [n] bytes, and [from_be_bytes]. *)
Fixpoint be_bytes (n : nat) (x : Z) : list Z :=
  match n with
  | O => []
  | S n => Z.shiftr x (8 * Z.of_nat n) mod 256 :: be_bytes n x
  end.
Definition from_be (l : list Z) : Z := foldl (fun acc b => acc * 256 + b) 0 l.

(** [while padded.len() % 64 != 56]; at most 63 bytes are added. *)
Fixpoint pad_loop (fuel : nat) (padded : list Z) : list Z :=
  match fuel with
  | O => padded
  | S fuel => if zlen padded mod 64 =? 56 then padded else pad_loop fuel (padded ++ [0])
  end.
Definition sha1_pad (data : list Z) : list Z :=
  pad_loop 64 (data ++ [0x80]) ++ be_bytes 8 (zlen data * 8).

Fixpoint chunks (fuel : nat) (n : nat) (l : list Z) : list (list Z) :=
  match fuel with
  | O => []
  | S fuel => match l with [] => [] | _ => take n l :: chunks fuel n (drop n l) end
  end.

Fixpoint schedule_loop (n : nat) (w : list Z) : list Z :=
  match n with
  | O => w
  | S n =>
    let t := length w in
    let x := Z.lxor (Z.lxor (Z.lxor (nth (t - 3) w 0) (nth (t - 8) w 0)) (nth (t - 14) w 0)) (nth (t - 16) w 0) in
    schedule_loop n (w ++ [rotl32 x 1])
  end.
Definition schedule (chunk : list Z) : list Z :=
  schedule_loop 64 (map (fun t => from_be (zslice chunk (t * 4) 4)) (seqZ 0 16)).

Fixpoint sha1_rounds (t : Z) (w : list Z) (a b c d e : Z) : Z * Z * Z * Z * Z :=
  match w with
  | [] => (a, b, c, d, e)
  | word :: w =>
    let '(f, k) :=
      if t <? 20 then (Z.lor (Z.land b c) (Z.land (not32 b) d), 0x5A827999)
      else if t <? 40 then (Z.lxor (Z.lxor b c) d, 0x6ED9EBA1)
      else if t <? 60 then (Z.lor (Z.lor (Z.land b c) (Z.land b d)) (Z.land c d), 0x8F1BBCDC)
      else (Z.lxor (Z.lxor b c) d, 0xCA62C1D6) in
    let temp := add32 (add32 (add32 (add32 (rotl32 a 5) f) e) k) word in
    sha1_rounds (t + 1) w temp a (rotl32 b 30) c d
  end.

Definition sha1_chunk (state : Z * Z * Z * Z * Z) (chunk : list Z) : Z * Z * Z * Z * Z :=
  let '(s0, s1, s2, s3, s4) := state in
  let '(a, b, c, d, e) := sha1_rounds 0 (schedule chunk) s0 s1 s2 s3 s4 in
  (add32 s0 a, add32 s1 b, add32 s2 c, add32 s3 d, add32 s4 e).

Definition sha1 (data : list Z) : list Z :=
  let padded := sha1_pad data in
  let '(s0, s1, s2, s3, s4) :=
    foldl sha1_chunk (0x67452301, 0xEFCDAB89, 0x98BADCFE, 0x10325476, 0xC3D2E1F0) (chunks (length padded) 64 padded) in
  be_bytes 4 s0 ++ be_bytes 4 s1 ++ be_bytes 4 s2 ++ be_bytes 4 s3 ++ be_bytes 4 s4.

(** ** HMAC, integrity codes and key derivation *)
Definition hmac_sha1 (key data : list Z) : list Z :=
  let k := zsplice (replicate 64 0) 0 (if 64 <? zlen key then sha1 key else key) in
  let ipad := map (fun b => Z.lxor b 0x36) k in
  let opad := map (fun b => Z.lxor b 0x5C) k in
  sha1 (opad ++ sha1 (ipad ++ data)).

Definition compute_mic (ptk frame : list Z) : list Z := zslice (hmac_sha1 (zslice ptk 0 16) frame) 0 16.

(** [U_j] and the running exclusive or, for [j] in [1..4096]. *)
Fixpoint pbkdf2_loop (n : nat) (pass u t : list Z) : list Z :=
  match n with
  | O => t
  | S n => let u := hmac_sha1 pass u in pbkdf2_loop n pass u (xor_bytes t u)
  end.
Definition pbkdf2_block (pass ssid : list Z) (block : Z) : list Z :=
  let u := hmac_sha1 pass (ssid ++ be_bytes 4 block) in pbkdf2_loop (Z.to_nat 4095) pass u u.

(** [<] on arrays of bytes. *)
Fixpoint bytes_ltb (a b : list Z) : bool :=
  match a, b with
  | [], [] => false
  | [], _ => true
  | _, [] => false
  | x :: a, y :: b => if x <? y then true else if y <? x then false else bytes_ltb a b
  end.

(** ["Pairwise key expansion"]. *)
Definition LABEL : list Z :=
  [80; 97; 105; 114; 119; 105; 115; 101; 32; 107; 101; 121; 32; 101; 120; 112; 97; 110; 115; 105; 111; 110].

Definition prf_384 (key label data : list Z) : list Z :=
  let hash i := hmac_sha1 key (label ++ [0] ++ data ++ [i]) in
  zslice (hash 0) 0 20 ++ zslice (hash 1) 0 20 ++ zslice (hash 2) 0 8.

(** ** The supplicant *)
Inductive WpaState := Initial | HavePmk | WaitMsg1 | WaitMsg2 | WaitMsg3 | WaitMsg4 | Done | WpaError.
#[export] Instance WpaState_eq_dec : EqDecision WpaState.
Proof. solve_decision. Defined.

Definition KEY_INFO_PAIRWISE : Z := 0x0008.
Definition KEY_INFO_INSTALL : Z := 0x0040.
Definition KEY_INFO_ACK : Z := 0x0080.
Definition KEY_INFO_MIC : Z := 0x0100.
Definition KEY_INFO_ERROR : Z := 0x0200.
Definition KEY_INFO_SECURE : Z := 0x0400.
Definition KEY_INFO_KEY_TYPE : Z := 0x2000.

Record WpaSupplicant := mkWpa {
  w_state : WpaState; ssid : list Z; passphrase : list Z;
  pmk : list Z; ptk : list Z; gtk : list Z; anonce : list Z; snonce : list Z;
  w_ap_bssid : list Z; client_mac : list Z; replay_counter : Z; mic_error : bool; gtk_len : Z; gtk_key_index : Z
}.

Definition wpa_new : WpaSupplicant :=
  mkWpa Initial [] [] (replicate 32 0) (replicate 48 0) (replicate 32 0) (replicate 32 0) (replicate 32 0)
    (replicate 6 0) (replicate 6 0) 0 false 0 0.

Definition set_state (s : WpaSupplicant) (st : WpaState) : WpaSupplicant :=
  mkWpa st (ssid s) (passphrase s) (pmk s) (ptk s) (gtk s) (anonce s) (snonce s) (w_ap_bssid s) (client_mac s)
    (replay_counter s) (mic_error s) (gtk_len s) (gtk_key_index s).
Definition set_anonce (s : WpaSupplicant) (n : list Z) : WpaSupplicant :=
  mkWpa (w_state s) (ssid s) (passphrase s) (pmk s) (ptk s) (gtk s) n (snonce s) (w_ap_bssid s) (client_mac s)
    (replay_counter s) (mic_error s) (gtk_len s) (gtk_key_index s).
Definition set_ptk (s : WpaSupplicant) (k : list Z) : WpaSupplicant :=
  mkWpa (w_state s) (ssid s) (passphrase s) (pmk s) k (gtk s) (anonce s) (snonce s) (w_ap_bssid s) (client_mac s)
    (replay_counter s) (mic_error s) (gtk_len s) (gtk_key_index s).
Definition set_replay (s : WpaSupplicant) (r : Z) : WpaSupplicant :=
  mkWpa (w_state s) (ssid s) (passphrase s) (pmk s) (ptk s) (gtk s) (anonce s) (snonce s) (w_ap_bssid s) (client_mac s)
    r (mic_error s) (gtk_len s) (gtk_key_index s).
Definition set_gtk (s : WpaSupplicant) (g : list Z) (len idx : Z) : WpaSupplicant :=
  mkWpa (w_state s) (ssid s) (passphrase s) (pmk s) (ptk s) g (anonce s) (snonce s) (w_ap_bssid s) (client_mac s)
    (replay_counter s) (mic_error s) len idx.

Definition derive_pmk (pass ssid : list Z) : list Z :=
  zslice (pbkdf2_block pass ssid 1) 0 20 ++ zslice (pbkdf2_block pass ssid 2) 0 12.

(** The whitening of one sample of the generator, and the four samples of a nonce. *)
Definition whiten (val : Z) : Z :=
  let state := Z.lxor val (Z.shiftr val 12) in
  let state := Z.lxor state (Z.shiftl state 25 mod 2 ^ 64) in
  let state := Z.lxor state (Z.shiftr state 27) in
  u64_wrapping_mul state 0x2545F4914F6CDD1D.
Definition generate_snonce (samples : list Z) : list Z := samples ≫= (fun v => rev (be_bytes 8 (whiten v))).

(** [samples] are the four values read from the generator. *)
Definition wpa_init (s : WpaSupplicant) (pass ssid ap_bssid client_mac samples : list Z) : WpaSupplicant :=
  mkWpa WaitMsg1 ssid pass (derive_pmk pass ssid) (replicate 48 0) (replicate 32 0) (replicate 32 0)
    (generate_snonce samples) ap_bssid client_mac 0 (mic_error s) 0 0.

(** The key for a nonce of the access point. *)
Definition pairwise_key (pmk anonce snonce ap_bssid client_mac : list Z) : list Z :=
  let a1 := if bytes_ltb ap_bssid client_mac then ap_bssid else client_mac in
  let a2 := if bytes_ltb ap_bssid client_mac then client_mac else ap_bssid in
  let n1 := if bytes_ltb anonce snonce then anonce else snonce in
  let n2 := if bytes_ltb anonce snonce then snonce else anonce in
  prf_384 pmk LABEL (a1 ++ a2 ++ n1 ++ n2).

Definition derive_ptk (s : WpaSupplicant) : WpaSupplicant :=
  if decide (anonce s = replicate 32 0) then set_ptk s (replicate 48 0)
  else set_ptk s (pairwise_key (pmk s) (anonce s) (snonce s) (w_ap_bssid s) (client_mac s)).

(** *** Frames *)
Section Reads.
Context {E : Type}.
(** [frame\[i\]] and [&frame\[a..b\]]. *)
Definition byte_at (frame : list Z) (i : Z) : result E Z :=
  if (0 <=? i) && (i <? zlen frame) then Ok (znth 0 frame i) else Panic.
Definition range_of (frame : list Z) (a b : Z) : result E (list Z) :=
  if (0 <=? a) && (a <=? b) && (b <=? zlen frame) then Ok (zslice frame a (b - a)) else Panic.
End Reads.

(** The body of the declared length. *)
Definition eapol_body (frame : list Z) : result NetError (list Z) :=
  let? hi := byte_at frame 2 in
  let? lo := byte_at frame 3 in
  let eapol_length := from_be_bytes16 hi lo in
  if (eapol_length <? 95) || (zlen frame <? 4 + eapol_length) then Err Protocol
  else range_of frame 4 (4 + eapol_length).

Definition body_key_info (body : list Z) : result NetError Z :=
  let? hi := byte_at body 1 in
  let? lo := byte_at body 2 in
  Ok (from_be_bytes16 hi lo).

(** Both replies: the frame with a zero integrity code, and with the code over it. *)
Definition reply_frame (key_info replay : Z) (nonce mic : list Z) : list Z :=
  [0x03; 0x03] ++ be_bytes 2 95 ++ [0x02] ++ be_bytes 2 key_info ++ [0x00; 0x10] ++ be_bytes 8 replay ++ nonce
  ++ replicate 16 0 ++ replicate 8 0 ++ replicate 8 0 ++ mic ++ [0x00; 0x00].
Definition build_reply (s : WpaSupplicant) (key_info : Z) (nonce : list Z) : list Z :=
  let msg := reply_frame key_info (replay_counter s) nonce (replicate 16 0) in
  zsplice msg 81 (compute_mic (ptk s) msg).

Definition build_message_2 (s : WpaSupplicant) : list Z :=
  build_reply s (Z.lor (Z.lor KEY_INFO_KEY_TYPE KEY_INFO_MIC) KEY_INFO_PAIRWISE) (snonce s).
Definition build_message_4 (s : WpaSupplicant) : list Z :=
  build_reply s (Z.lor (Z.lor (Z.lor KEY_INFO_KEY_TYPE KEY_INFO_MIC) KEY_INFO_SECURE) KEY_INFO_PAIRWISE) (replicate 32 0).

Notation "'try!' x ':=' e 'with' s 'in' k" :=
  (match e with Ok x => k | Err er => (Err er, s) | Panic => (Panic, s) end)
  (at level 10, x pattern, e at level 200, s at level 200, k at level 200).

Definition handle_message_1 (s : WpaSupplicant) (frame : list Z) : result NetError (list Z) * WpaSupplicant :=
  if negb (bool_decide (w_state s = WaitMsg1)) || (zlen frame <? 4 + 95) then (Err Protocol, s) else
  try! body := eapol_body frame with s in
  try! descriptor := byte_at body 0 with s in
  if negb (descriptor =? 0x02) then (Err Protocol, s) else
  try! key_info := body_key_info body with s in
  let need := Z.lor (Z.lor KEY_INFO_KEY_TYPE KEY_INFO_PAIRWISE) KEY_INFO_ACK in
  let never := Z.lor (Z.lor KEY_INFO_MIC KEY_INFO_INSTALL) KEY_INFO_ERROR in
  if negb (Z.land key_info need =? need) || negb (Z.land key_info never =? 0) then (Err Protocol, s) else
  if zlen body <? 13 + 32 then (Err Protocol, s) else
  try! nonce := range_of body 13 (13 + 32) with s in
  let s := set_anonce s nonce in
  if decide (anonce s = replicate 32 0) then (Err Protocol, s) else
  let s := derive_ptk s in
  try! rc_bytes := range_of body 5 13 with s in
  let s := set_replay s (from_be rc_bytes) in
  let s := set_state s WaitMsg3 in
  (Ok (build_message_2 s), s).

(** The data of the first group key element: [None] when there is none. *)
Fixpoint gtk_kde (fuel : nat) (kd : list Z) (pos : Z) : result NetError (option (list Z)) :=
  match fuel with
  | O => Panic
  | S fuel =>
    if zlen kd <? pos + 2 then Ok None else
    let? kde_type := byte_at kd pos in
    let? kde_len := byte_at kd (pos + 1) in
    let kde_end := pos + 2 + kde_len in
    if zlen kd <? kde_end then Ok None else
    if negb ((kde_type =? 0xDD) && (6 <=? kde_len)) then gtk_kde fuel kd kde_end else
    let? b0 := byte_at kd (pos + 2) in
    let? b1 := byte_at kd (pos + 3) in
    let? b2 := byte_at kd (pos + 4) in
    let? b3 := byte_at kd (pos + 5) in
    if (b0 =? 0x00) && (b1 =? 0x0F) && (b2 =? 0xAC) && (b3 =? 0x01)
    then let? data := range_of kd (pos + 6) kde_end in Ok (Some data)
    else gtk_kde fuel kd kde_end
  end.

(** The new group key, with its length and index. *)
Definition take_gtk (s : WpaSupplicant) (gtk_data : list Z) : Z * WpaSupplicant :=
  if 2 <=? zlen gtk_data then
    let len := Z.min (zlen gtk_data - 2) 32 in
    (len, set_gtk s (zsplice (gtk s) 0 (zslice gtk_data 2 len)) len (Z.land (znth 0 gtk_data 0) 0x03))
  else (0, s).

Definition handle_message_3 (s : WpaSupplicant) (frame : list Z) : result NetError (list Z) * WpaSupplicant :=
  if negb (bool_decide (w_state s = WaitMsg3)) || (zlen frame <? 4) then (Err Protocol, s) else
  try! body := eapol_body frame with s in
  try! descriptor := byte_at body 0 with s in
  if negb (descriptor =? 0x02) then (Err Protocol, s) else
  try! key_info := body_key_info body with s in
  let need := Z.lor (Z.lor (Z.lor (Z.lor KEY_INFO_KEY_TYPE KEY_INFO_PAIRWISE) KEY_INFO_MIC) KEY_INFO_ACK) KEY_INFO_INSTALL in
  if negb (Z.land key_info need =? need) || negb (Z.land key_info KEY_INFO_ERROR =? 0) then (Err Protocol, s) else
  try! mic_field := range_of frame 81 97 with s in
  try! pdu := range_of frame 0 (4 + zlen body) with s in
  let computed_mic := compute_mic (ptk s) (zsplice pdu 81 (replicate 16 0)) in
  let mismatch := foldl Z.lor 0 (xor_bytes computed_mic mic_field) in
  if negb (mismatch =? 0) then (Err AuthenticationFailed, s) else
  try! rc_bytes := range_of body 5 13 with s in
  let message3_replay := from_be rc_bytes in
  if message3_replay <=? replay_counter s then (Err Protocol, s) else
  let s := set_replay s message3_replay in
  try! hi := byte_at body 93 with s in
  try! lo := byte_at body 94 with s in
  let key_data_end := 95 + from_be_bytes16 hi lo in
  if zlen body <? key_data_end then (Err Protocol, s) else
  try! data := range_of body 95 key_data_end with s in
  match (if Z.land key_info 0x07 =? 2 then aes_key_unwrap (zslice (ptk s) 16 16) data else Ok data) with
  | Ok key_data =>
    try! found := gtk_kde (S (length key_data)) key_data 0 with s in
    let '(len, s) := match found with Some gtk_data => take_gtk s gtk_data | None => (0, s) end in
    if len <? 16 then (Err Protocol, s) else
    let s := set_state s WaitMsg4 in
    (Ok (build_message_4 s), s)
  | Err _ => (Err Protocol, s)
  | Panic => (Panic, s)
  end.

Definition key_material (s : WpaSupplicant) : option (list Z * list Z * Z) :=
  if negb (bool_decide (w_state s = WaitMsg4) || bool_decide (w_state s = Done)) || (gtk_len s <? 16) then None
  else Some (zslice (ptk s) 32 16, zslice (gtk s) 0 16, gtk_key_index s).

Definition complete_handshake (s : WpaSupplicant) : result NetError unit * WpaSupplicant :=
  if negb (bool_decide (w_state s = WaitMsg4)) then (Err Protocol, s) else (Ok tt, set_state s Done).

(** The secrets are overwritten when the supplicant is dropped. *)
Definition wpa_drop (s : WpaSupplicant) : WpaSupplicant :=
  let erase l := replicate (length l) 0 in
  mkWpa (w_state s) (ssid s) (erase (passphrase s)) (erase (pmk s)) (erase (ptk s)) (erase (gtk s)) (erase (anonce s)) (erase (snonce s))
    (w_ap_bssid s) (client_mac s) (replay_counter s) (mic_error s) (gtk_len s) (gtk_key_index s).

(** ** Sizes and ranges *)
Lemma length_be_bytes n x : length (be_bytes n x) = n.
Proof. induction n as [|n IH]; simpl; [done|]. by rewrite IH. Qed.

Lemma bytes_be_bytes n x : bytes (be_bytes n x).
Proof. induction n as [|n IH]; simpl; constructor; [|done]. apply Z.mod_pos_bound. lia. Qed.

Lemma from_be_app l b : from_be (l ++ [b]) = from_be l * 256 + b.
Proof. unfold from_be. by rewrite foldl_app. Qed.

Lemma from_be_range l : bytes l -> 0 <= from_be l < 256 ^ zlen l.
Proof.
  induction l as [|b l IH] using rev_ind; intros Hl; [done|]. apply Forall_app in Hl as [Hl Hb].
  apply Forall_cons in Hb as [Hb _]. unfold byte in Hb. specialize (IH Hl). rewrite from_be_app, zlen_app.
  change (zlen [b]) with 1. rewrite Z.pow_add_r, Z.pow_1_r by (pose proof (zlen_nonneg l); lia).
  set (q := 256 ^ zlen l) in *. clearbody q. nia.
Qed.

Lemma be_bytes_snoc n x : be_bytes (S n) x = be_bytes n (Z.shiftr x 8) ++ [x mod 256].
Proof.
  induction n as [|n IH]; [simpl; by rewrite Z.shiftr_0_r|].
  change (be_bytes (S (S n)) x) with (Z.shiftr x (8 * Z.of_nat (S n)) mod 256 :: be_bytes (S n) x). rewrite IH.
  simpl. f_equal. rewrite Z.shiftr_shiftr by lia. do 2 f_equal. lia.
Qed.

Lemma from_be_bytes n : forall x, 0 <= x < 256 ^ Z.of_nat n -> from_be (be_bytes n x) = x.
Proof.
  induction n as [|n IH]; intros x Hx; [simpl in *; unfold from_be; simpl; lia|].
  rewrite be_bytes_snoc, from_be_app. rewrite Nat2Z.inj_succ, Z.pow_succ_r in Hx by lia.
  rewrite Z.shiftr_div_pow2 by lia. change (2 ^ 8) with 256. rewrite IH.
  - pose proof (Z.div_mod x 256). lia.
  - split; [apply Z.div_pos; lia|apply Z.div_lt_upper_bound; lia].
Qed.

Lemma sha1_digest data : zlen (sha1 data) = 20 /\ bytes (sha1 data).
Proof.
  unfold sha1. cbv zeta. destruct (foldl _ _ _) as [[[[s0 s1] s2] s3] s4]. split.
  - unfold zlen. by rewrite !length_app, !length_be_bytes.
  - repeat apply Forall_app_2; apply bytes_be_bytes.
Qed.

Lemma hmac_digest key data : zlen (hmac_sha1 key data) = 20 /\ bytes (hmac_sha1 key data).
Proof. apply sha1_digest. Qed.

Lemma mic_digest k f : zlen (compute_mic k f) = 16 /\ bytes (compute_mic k f).
Proof.
  unfold compute_mic. destruct (hmac_digest (zslice k 0 16) f). split; [apply zlen_zslice; lia|by apply bytes_zslice].
Qed.

Lemma prf_key key label data : zlen (prf_384 key label data) = 48 /\ bytes (prf_384 key label data).
Proof.
  unfold prf_384. split.
  - rewrite !zlen_app. rewrite !zlen_zslice; [done|..]; rewrite ?(proj1 (hmac_digest _ _)); lia.
  - repeat apply Forall_app_2; apply bytes_zslice, hmac_digest.
Qed.

(** The chunks of the padded data are whole: the schedule reads inside them. *)
Lemma pad_loop_len fuel : forall p, (56 - zlen p) mod 64 <= Z.of_nat fuel -> zlen (pad_loop fuel p) mod 64 = 56.
Proof.
  induction fuel as [|fuel IH]; intros p Hp; cbn [pad_loop].
  - pose proof (Z.mod_pos_bound (56 - zlen p) 64). assert ((56 - zlen p) mod 64 = 0) as E by lia.
    apply Z.mod_divide in E as [k Hk]; [|lia]. replace (zlen p) with (56 + (- k) * 64) by lia.
    by rewrite Z_mod_plus_full.
  - destruct (Z.eqb_spec (zlen p mod 64) 56) as [|Hne]; [done|]. apply IH. rewrite zlen_app. change (zlen [0]) with 1.
    pose proof (Z.div_mod (zlen p) 64). pose proof (Z.mod_pos_bound (zlen p) 64).
    pose proof (Z.div_mod (56 - zlen p) 64). pose proof (Z.mod_pos_bound (56 - zlen p) 64).
    pose proof (Z.div_mod (56 - (zlen p + 1)) 64). pose proof (Z.mod_pos_bound (56 - (zlen p + 1)) 64). lia.
Qed.

Lemma chunks_whole fuel : forall l, (length l <= fuel)%nat -> zlen l mod 64 = 0 ->
  Forall (fun c => length c = 64%nat) (chunks fuel 64 l).
Proof.
  induction fuel as [|fuel IH]; intros l Hl Hm; [constructor|]. cbn [chunks].
  destruct l as [|x l']; [constructor|]. set (l := x :: l') in *.
  assert (64 <= zlen l) as Hge.
  { apply Z.mod_divide in Hm as [k Hk]; [|lia]. assert (0 < zlen l) by (unfold l; rewrite zlen_cons; pose proof (zlen_nonneg l'); lia). lia. }
  unfold zlen in *. constructor; [rewrite length_take; lia|]. apply IH; rewrite length_drop; [lia|].
  rewrite Nat2Z.inj_sub by lia. apply Z.mod_divide in Hm as [k Hk]; [|lia]. rewrite Hk.
  replace (k * 64 - Z.of_nat 64) with ((k - 1) * 64) by lia. apply Z_mod_mult.
Qed.

Lemma sha1_chunks_whole data : Forall (fun c => length c = 64%nat) (chunks (length (sha1_pad data)) 64 (sha1_pad data)).
Proof.
  apply chunks_whole; [done|]. unfold sha1_pad. rewrite zlen_app. unfold zlen at 2. rewrite length_be_bytes.
  pose proof (Z.mod_pos_bound (56 - zlen (data ++ [0x80])) 64).
  rewrite Z.add_mod, (pad_loop_len 64 (data ++ [0x80])) by lia. done.
Qed.

(** ** Reads *)
Lemma byte_at_ok {E} (l : list Z) i : 0 <= i < zlen l -> byte_at (E := E) l i = Ok (znth 0 l i).
Proof. intros. unfold byte_at. by rewrite (proj2 (Z.leb_le _ _)), (proj2 (Z.ltb_lt _ _)) by lia. Qed.

Lemma range_of_ok {E} (l : list Z) a b : 0 <= a <= b -> b <= zlen l -> range_of (E := E) l a b = Ok (zslice l a (b - a)).
Proof. intros. unfold range_of. by rewrite !(proj2 (Z.leb_le _ _)) by lia. Qed.

Lemma byte_znth (l : list Z) i : bytes l -> byte (znth 0 l i).
Proof.
  intros Hl. unfold znth. rewrite nth_lookup. destruct (l !! Z.to_nat i) as [x|] eqn:E; [by eapply Forall_lookup in Hl|by split].
Qed.

Definition frame_body (frame : list Z) : list Z := zslice frame 4 (from_be_bytes16 (znth 0 frame 2) (znth 0 frame 3)).

Lemma eapol_body_cases frame : bytes frame -> 4 <= zlen frame ->
  eapol_body frame = Err Protocol
  \/ (eapol_body frame = Ok (frame_body frame) /\ 95 <= zlen (frame_body frame)
      /\ 4 + zlen (frame_body frame) <= zlen frame /\ bytes (frame_body frame)).
Proof.
  intros Hb Hl. unfold eapol_body, frame_body. rewrite !byte_at_ok by lia.
  set (n := from_be_bytes16 _ _).
  destruct (Z.ltb_spec n 95); [by left|]. destruct (Z.ltb_spec (zlen frame) (4 + n)); [by left|]. right. simpl.
  rewrite range_of_ok by lia. replace (4 + n - 4) with n by lia. rewrite zlen_zslice by lia.
  split_and!; [done|lia|lia|by apply bytes_zslice].
Qed.

Lemma body_key_info_ok body : 95 <= zlen body -> body_key_info body = Ok (from_be_bytes16 (znth 0 body 1) (znth 0 body 2)).
Proof. intros. unfold body_key_info. by rewrite !byte_at_ok by lia. Qed.

Lemma aes_key_unwrap_total kek c : aes_key_unwrap kek c <> Panic.
Proof.
  unfold aes_key_unwrap. destruct (_ || _); [done|]. cbv zeta. destruct (foldl _ _ _) as [a r].
  by destruct (decide (a = replicate 8 0xA6)).
Qed.

Lemma gtk_kde_total kd : bytes kd -> forall fuel pos, 0 <= pos -> Z.max 0 (zlen kd - pos) < Z.of_nat fuel ->
  exists o, gtk_kde fuel kd pos = Ok o /\ forall gd, o = Some gd -> bytes gd /\ 2 <= zlen gd.
Proof.
  intros Hkd. induction fuel as [|fuel IH]; intros pos Hp Hf; [lia|]. cbn [gtk_kde].
  destruct (Z.ltb_spec (zlen kd) (pos + 2)); [by exists None|]. rewrite !byte_at_ok by lia.
  pose proof (byte_znth kd (pos + 1) Hkd) as Hn. unfold byte in Hn. set (n := znth 0 kd (pos + 1)) in *.
  destruct (Z.ltb_spec (zlen kd) (pos + 2 + n)); [by exists None|].
  destruct (_ && _) eqn:Ec; simpl; [|apply IH; lia].
  apply andb_true_iff in Ec as [_ Ec%Z.leb_le]. rewrite !byte_at_ok by lia.
  destruct (_ && _); [|apply IH; lia]. rewrite range_of_ok by lia. eexists. split; [done|].
  intros gd [= <-]. split; [by apply bytes_zslice|rewrite zlen_zslice; lia].
Qed.

(** ** Outcomes of the handlers *)
Definition wpa_wf (s : WpaSupplicant) : Prop := zlen (ptk s) = 48 /\ bytes (ptk s) /\ zlen (gtk s) = 32.

Definition frame_nonce (f : list Z) : list Z := zslice (frame_body f) 13 32.
Definition frame_replay (f : list Z) : Z := from_be (zslice (frame_body f) 5 8).
Definition frame_key_info (f : list Z) : Z := from_be_bytes16 (znth 0 (frame_body f) 1) (znth 0 (frame_body f) 2).

(** The integrity code of the frame is right under the key. *)
Definition mic_valid (k f : list Z) : Prop :=
  compute_mic k (zsplice (zslice f 0 (4 + zlen (frame_body f))) 81 (replicate 16 0)) = zslice f 81 16.

(** The key data in clear, and the group key in it. *)
Definition clear_key_data (k f : list Z) : result unit (list Z) :=
  let body := frame_body f in
  let data := zslice body 95 (from_be_bytes16 (znth 0 body 93) (znth 0 body 94)) in
  if Z.land (frame_key_info f) 0x07 =? 2 then aes_key_unwrap (zslice k 16 16) data else Ok data.
Definition carries_gtk (k f gd : list Z) : Prop :=
  exists kd, clear_key_data k f = Ok kd /\ gtk_kde (S (length kd)) kd 0 = Ok (Some gd) /\ 18 <= zlen gd.

(** The session of [s] goes on in [s']: the keys are the same. *)
Definition same_session (s s' : WpaSupplicant) : Prop :=
  w_state s' = w_state s /\ pmk s' = pmk s /\ ptk s' = ptk s /\ snonce s' = snonce s
  /\ w_ap_bssid s' = w_ap_bssid s /\ client_mac s' = client_mac s /\ replay_counter s <= replay_counter s'.

Definition session_key (s : WpaSupplicant) (f : list Z) : list Z :=
  pairwise_key (pmk s) (frame_nonce f) (snonce s) (w_ap_bssid s) (client_mac s).

Lemma handle_message_1_cases s f : bytes f -> wpa_wf s ->
  (exists e s', handle_message_1 s f = (Err e, s') /\ same_session s s' /\ wpa_wf s')
  \/ (exists s', w_state s = WaitMsg1 /\ frame_nonce f <> replicate 32 0
      /\ s' = set_state (set_replay (set_ptk (set_anonce s (frame_nonce f)) (session_key s f)) (frame_replay f)) WaitMsg3
      /\ handle_message_1 s f = (Ok (build_message_2 s'), s')).
Proof.
  intros Hf Hw.
  assert (Herr : forall e, exists e' s', (@Err NetError (list Z) e, s) = (Err e', s') /\ same_session s s' /\ wpa_wf s').
  { intros e. exists e, s. split; [done|]. split; [|done]. by repeat split. }
  unfold handle_message_1. destruct (bool_decide_reflect (w_state s = WaitMsg1)) as [Hst|]; [|left; apply Herr]. cbn [negb orb].
  destruct (Z.ltb_spec (zlen f) (4 + 95)); [left; apply Herr|].
  destruct (eapol_body_cases f Hf) as [->|(-> & Hl & Hl' & Hb)]; [lia|left; apply Herr|]. set (body := frame_body f) in *.
  rewrite byte_at_ok by lia. destruct (negb (znth 0 body 0 =? 2)); [left; apply Herr|].
  rewrite body_key_info_ok by lia. destruct (_ || _); [left; apply Herr|].
  destruct (Z.ltb_spec (zlen body) (13 + 32)); [left; apply Herr|]. rewrite !range_of_ok by lia.
  change (13 + 32 - 13) with 32. change (13 - 5) with 8. cbn [anonce set_anonce].
  change (zslice body 13 32) with (frame_nonce f). change (from_be (zslice body 5 8)) with (frame_replay f).
  destruct (decide (frame_nonce f = replicate 32 0)) as [|Hnz].
  { left. eexists _, _. split; [reflexivity|]. split; [by repeat split|done]. }
  right. eexists. split; [done|]. split; [done|]. split; [done|]. unfold derive_ptk. cbn [anonce set_anonce].
  by rewrite decide_False.
Qed.

Lemma mismatch_zero (a b : list Z) : length a = length b -> bytes a -> bytes b ->
  (foldl Z.lor 0 (xor_bytes a b) =? 0) = bool_decide (a = b).
Proof.
  assert (Hacc : forall l acc, foldl Z.lor acc l = Z.lor acc (foldl Z.lor 0 l)).
  { induction l as [|x l IH]; intros acc; cbn [foldl]; [by rewrite Z.lor_0_r|].
    by rewrite IH, (IH (Z.lor 0 x)), Z.lor_0_l, Z.lor_assoc. }
  revert b. induction a as [|x a IH]; intros [|y b] Hl Ha Hb; try done.
  apply Forall_cons in Ha as [Hx Ha]. apply Forall_cons in Hb as [Hy Hb]. simpl in Hl.
  cbn [xor_bytes zip_with foldl]. rewrite Hacc, Z.lor_0_l. change (zip_with Z.lxor a b) with (xor_bytes a b).
  specialize (IH b ltac:(lia) Ha Hb).
  apply eq_bool_prop_intro. rewrite Is_true_true, bool_decide_spec, Z.eqb_eq. simpl.
  rewrite Z.lor_eq_0_iff, Z.lxor_eq_0_iff. rewrite <- (Z.eqb_eq (foldl _ _ _)), IH, bool_decide_eq_true. naive_solver.
Qed.

Lemma same_session_refl s : same_session s s.
Proof. by repeat split. Qed.

Lemma zlen_gtk (g data : list Z) len : zlen g = 32 -> 0 <= len <= 32 -> 2 + len <= zlen data ->
  zlen (zsplice g 0 (zslice data 2 len)) = 32
  /\ (16 <= len -> zslice (zsplice g 0 (zslice data 2 len)) 0 16 = zslice data 2 16).
Proof.
  intros Hg Hl Hd. assert (zlen (zslice data 2 len) = len) as Hs by (apply zlen_zslice; lia).
  split; [rewrite zlen_zsplice; lia|]. intros H16.
  assert (zlen (zsplice g 0 (zslice data 2 len)) = 32) by (rewrite zlen_zsplice; lia).
  apply (znth_ext 0); rewrite !zlen_zslice by lia; [done|]. intros i Hi.
  rewrite !znth_zslice by lia. rewrite znth_zsplice by lia. rewrite Hs.
  rewrite (proj2 (Z.leb_le _ _)), (proj2 (Z.ltb_lt _ _)) by lia. simpl. rewrite znth_zslice by lia. f_equal. lia.
Qed.

Lemma kek_block k : zlen k = 48 -> bytes k -> block (zslice k 16 16).
Proof. intros Hl Hb. split; [|by apply bytes_zslice]. pose proof (zlen_zslice k 16 16). unfold zlen in *. lia. Qed.

(** The supplicant after the acceptance of message 3. *)
Definition accepted_3 (s : WpaSupplicant) (f gd : list Z) : WpaSupplicant :=
  set_state (take_gtk (set_replay s (frame_replay f)) gd).2 WaitMsg4.

Lemma take_gtk_eq s gd : 2 <= zlen gd ->
  take_gtk s gd = (Z.min (zlen gd - 2) 32,
    set_gtk s (zsplice (gtk s) 0 (zslice gd 2 (Z.min (zlen gd - 2) 32))) (Z.min (zlen gd - 2) 32) (Z.land (znth 0 gd 0) 3)).
Proof. intros. unfold take_gtk. by rewrite (proj2 (Z.leb_le _ _)) by lia. Qed.

Lemma clear_key_data_bytes k f kd : zlen k = 48 -> bytes k -> bytes (frame_body f) -> clear_key_data k f = Ok kd -> bytes kd.
Proof.
  intros Hk Hkb Hb. unfold clear_key_data. cbv zeta. destruct (_ =? 2).
  - intros E. apply aes_key_unwrap_iff in E as (? & _); [done|by apply kek_block|by apply bytes_zslice].
  - intros [= <-]. by apply bytes_zslice.
Qed.

Lemma handle_message_3_cases s f : bytes f -> wpa_wf s ->
  (exists e s', handle_message_3 s f = (Err e, s') /\ same_session s s' /\ wpa_wf s')
  \/ (exists gd, w_state s = WaitMsg3 /\ mic_valid (ptk s) f /\ replay_counter s < frame_replay f
      /\ carries_gtk (ptk s) f gd
      /\ handle_message_3 s f = (Ok (build_message_4 (accepted_3 s f gd)), accepted_3 s f gd)).
Proof.
  intros Hf Hw. pose proof Hw as (Hk & Hkb & Hg).
  assert (Herr : forall e, exists e' s', (@Err NetError (list Z) e, s) = (Err e', s') /\ same_session s s' /\ wpa_wf s').
  { intros e. exists e, s. split; [done|]. split; [apply same_session_refl|done]. }
  unfold handle_message_3. destruct (bool_decide_reflect (w_state s = WaitMsg3)) as [Hst|]; [|left; apply Herr].
  cbn [negb orb]. destruct (Z.ltb_spec (zlen f) 4); [left; apply Herr|].
  destruct (eapol_body_cases f Hf) as [->|(-> & Hl & Hl' & Hb)]; [lia|left; apply Herr|].
  rewrite byte_at_ok by lia. destruct (negb (_ =? 2)); [left; apply Herr|].
  rewrite body_key_info_ok by lia. fold (frame_key_info f). destruct (_ || _); [left; apply Herr|].
  rewrite !range_of_ok by lia. replace (97 - 81) with 16 by lia. replace (4 + zlen (frame_body f) - 0) with (4 + zlen (frame_body f)) by lia.
  replace (13 - 5) with 8 by lia.
  set (mic := compute_mic _ _). destruct (mic_digest (ptk s) (zsplice (zslice f 0 (4 + zlen (frame_body f))) 81 (replicate 16 0))) as [Hml Hmb].
  fold mic in Hml, Hmb. rewrite mismatch_zero; [|apply Nat2Z.inj; fold (zlen mic); fold (zlen (zslice f 81 16)); rewrite zlen_zslice; lia|done|by apply bytes_zslice].
  destruct (bool_decide_reflect (mic = zslice f 81 16)) as [Hmic|]; [|left; apply Herr]. cbn [negb].
  fold (frame_replay f). destruct (Z.leb_spec (frame_replay f) (replay_counter s)) as [|Hre]; [left; apply Herr|].
  set (s1 := set_replay s (frame_replay f)).
  assert (Herr1 : forall e, exists e' s', (@Err NetError (list Z) e, s1) = (Err e', s') /\ same_session s s' /\ wpa_wf s').
  { intros e. exists e, s1. split; [done|]. split; [|done]. repeat split. unfold s1. simpl. lia. }
  rewrite !byte_at_ok by lia.
  pose proof (byte_znth (frame_body f) 93 Hb) as Hh. pose proof (byte_znth (frame_body f) 94 Hb) as Hlo. unfold byte in Hh, Hlo.
  destruct (Z.ltb_spec (zlen (frame_body f)) (95 + from_be_bytes16 (znth 0 (frame_body f) 93) (znth 0 (frame_body f) 94))); [left; apply Herr1|].
  rewrite range_of_ok by (unfold from_be_bytes16 in *; lia). rewrite Z.add_simpl_l.
  change (ptk s1) with (ptk s).
  match goal with |- context [if _ =? 2 then aes_key_unwrap ?x ?y else ?z] =>
    change (if _ =? 2 then aes_key_unwrap x y else z) with (clear_key_data (ptk s) f) end.
  destruct (clear_key_data (ptk s) f) as [kd|[]|] eqn:Ekd; [|left; apply Herr1|].
  2:{ exfalso. unfold clear_key_data in Ekd. cbv zeta in Ekd. destruct (_ =? 2); [|done]. by eapply aes_key_unwrap_total. }
  pose proof (clear_key_data_bytes _ _ _ Hk Hkb Hb Ekd) as Hkd.
  destruct (gtk_kde_total kd Hkd (S (length kd)) 0) as (o & Eo & Ho); [lia|unfold zlen; lia|]. rewrite Eo.
  destruct o as [gd|]; [|simpl; left; apply Herr1].
  destruct (Ho gd eq_refl) as [Hgd Hgl]. rewrite (take_gtk_eq s1 gd Hgl).
  destruct (zlen_gtk (gtk s1) gd (Z.min (zlen gd - 2) 32) Hg ltac:(lia) ltac:(lia)) as [Hg' _].
  destruct (Z.ltb_spec (Z.min (zlen gd - 2) 32) 16).
  { left. eexists _, _. split; [reflexivity|]. split; [repeat split; unfold s1; simpl; lia|]. done. }
  right. exists gd. split; [done|]. split; [exact Hmic|]. split; [done|]. split; [exists kd; split_and!; [done|done|lia]|].
  unfold accepted_3. fold s1. by rewrite (take_gtk_eq s1 gd Hgl).
Qed.

(** ** Runs of the client

    Frames arrive for either handler in any order; the caller may complete the handshake. *)
Inductive wpa_event := EvMessage1 (f : list Z) | EvMessage3 (f : list Z) | EvComplete.
Definition event_bytes (e : wpa_event) : Prop := match e with EvMessage1 f | EvMessage3 f => bytes f | EvComplete => True end.

Definition wpa_step (s : WpaSupplicant) (e : wpa_event) : result NetError unit * WpaSupplicant :=
  match e with
  | EvMessage1 f => let '(r, s) := handle_message_1 s f in (match r with Ok _ => Ok tt | Err er => Err er | Panic => Panic end, s)
  | EvMessage3 f => let '(r, s) := handle_message_3 s f in (match r with Ok _ => Ok tt | Err er => Err er | Panic => Panic end, s)
  | EvComplete => complete_handshake s
  end.
Fixpoint wpa_run (s : WpaSupplicant) (es : list wpa_event) : result NetError WpaSupplicant :=
  match es with
  | [] => Ok s
  | e :: es => match wpa_step s e with (Panic, _) => Panic | (_, s) => wpa_run s es end
  end.

Section Authentic.
Variables (k_pmk k_snonce k_ap k_mac : list Z).
Abbreviation key_for := (fun f => pairwise_key k_pmk (frame_nonce f) k_snonce k_ap k_mac).

(** What has been received when the client is in its state. *)
Definition heard_1 (es : list wpa_event) (s : WpaSupplicant) (f1 : list Z) : Prop :=
  EvMessage1 f1 ∈ es /\ frame_nonce f1 <> replicate 32 0 /\ ptk s = key_for f1 /\ frame_replay f1 <= replay_counter s.
Definition heard_3 (es : list wpa_event) (s : WpaSupplicant) : Prop :=
  exists pre f1 mid f3 post gd, es = pre ++ EvMessage1 f1 :: mid ++ EvMessage3 f3 :: post
  /\ frame_nonce f1 <> replicate 32 0 /\ ptk s = key_for f1 /\ mic_valid (ptk s) f3 /\ frame_replay f1 < frame_replay f3
  /\ carries_gtk (ptk s) f3 gd /\ zslice (gtk s) 0 16 = zslice gd 2 16 /\ gtk_key_index s = Z.land (znth 0 gd 0) 3.

Definition wpa_inv (es : list wpa_event) (s : WpaSupplicant) : Prop :=
  wpa_wf s /\ pmk s = k_pmk /\ snonce s = k_snonce /\ w_ap_bssid s = k_ap /\ client_mac s = k_mac /\
  match w_state s with
  | WaitMsg1 => True
  | WaitMsg3 => exists f1, heard_1 es s f1
  | WaitMsg4 | Done => heard_3 es s
  | _ => False
  end.

Lemma heard_3_snoc es e s s' : ptk s' = ptk s -> gtk s' = gtk s -> gtk_key_index s' = gtk_key_index s ->
  heard_3 es s -> heard_3 (es ++ [e]) s'.
Proof.
  intros E1 E2 E3 (pre & f1 & mid & f3 & post & gd & -> & H). exists pre, f1, mid, f3, (post ++ [e]), gd.
  rewrite E1, E2, E3. split; [by rewrite <- !app_assoc, app_comm_cons, <- app_assoc|exact H].
Qed.

Lemma wpa_step_inv es s e : event_bytes e -> wpa_inv es s ->
  exists r s', wpa_step s e = (r, s') /\ r <> Panic /\ wpa_inv (es ++ [e]) s'.
Proof.
  intros He (Hw & Hp & Hn & Ha & Hc & Hs). pose proof Hw as (Hk & Hkb & Hg). destruct e as [f|f|]; simpl in He |- *.
  - destruct (bool_decide_reflect (w_state s = WaitMsg1)) as [E|E].
    + destruct (handle_message_1_cases s f He Hw) as [(er & s' & -> & (E1 & E2 & E3 & E4 & E5 & E6 & E7) & Hw')|(s' & _ & Hnz & -> & ->)].
      * eexists _, _. split; [done|]. split; [done|]. split; [done|]. split_and!; try congruence. by rewrite E1, E.
      * eexists _, _. split; [done|]. split; [done|]. unfold wpa_inv, wpa_wf. cbn [ptk gtk pmk snonce w_ap_bssid client_mac w_state set_state set_replay set_ptk set_anonce].
        destruct (prf_key (pmk s) LABEL (let a1 := if bytes_ltb (w_ap_bssid s) (client_mac s) then w_ap_bssid s else client_mac s in
          let a2 := if bytes_ltb (w_ap_bssid s) (client_mac s) then client_mac s else w_ap_bssid s in
          let n1 := if bytes_ltb (frame_nonce f) (snonce s) then frame_nonce f else snonce s in
          let n2 := if bytes_ltb (frame_nonce f) (snonce s) then snonce s else frame_nonce f in a1 ++ a2 ++ n1 ++ n2)) as [Hl Hb].
        split_and!; try done. exists f. split_and!; simpl; [set_solver|done| |done].
        unfold session_key. by rewrite Hp, Hn, Ha, Hc.
    + assert (handle_message_1 s f = (Err Protocol, s)) as ->.
      { unfold handle_message_1. by rewrite bool_decide_false. }
      eexists _, _. split; [done|]. split; [done|]. split_and!; try done.
      destruct (w_state s); try done; [|by eapply heard_3_snoc..].
      destruct Hs as (f1 & ? & ?). exists f1. split; [set_solver|done].
  - destruct (bool_decide_reflect (w_state s = WaitMsg3)) as [E|E].
    + rewrite E in Hs. destruct Hs as (f1 & Hin & Hnz & Hkey & Hre).
      destruct (handle_message_3_cases s f He Hw) as [(er & s' & -> & (E1 & E2 & E3 & E4 & E5 & E6 & E7) & Hw')|(gd & _ & Hmic & Hre' & Hgd & ->)].
      * eexists _, _. split; [done|]. split; [done|]. split; [done|]. split_and!; try congruence. rewrite E1, E.
        exists f1. split_and!; [set_solver|done|congruence|lia].
      * eexists _, _. split; [done|]. split; [done|]. unfold accepted_3. pose proof Hgd as (kd & _ & _ & H18).
        rewrite take_gtk_eq by lia. cbn [snd].
        destruct (zlen_gtk (gtk s) gd (Z.min (zlen gd - 2) 32)) as [Hg' Hg16]; [done|lia|lia|].
        split; [done|]. split_and!; try done. cbn [w_state set_state].
        apply list_elem_of_split in Hin as (pre & mid & ->).
        exists pre, f1, mid, f, [], gd. simpl. split_and!; try done; [by rewrite <- app_assoc|lia|apply Hg16; lia].
    + assert (handle_message_3 s f = (Err Protocol, s)) as ->.
      { unfold handle_message_3. by rewrite bool_decide_false. }
      eexists _, _. split; [done|]. split; [done|]. split_and!; try done.
      destruct (w_state s); try done; by eapply heard_3_snoc.
  - unfold complete_handshake. destruct (bool_decide_reflect (w_state s = WaitMsg4)) as [E|E]; simpl.
    + eexists _, _. split; [done|]. split; [done|]. split_and!; try done. rewrite E in Hs. by eapply heard_3_snoc.
    + eexists _, _. split; [done|]. split; [done|]. split_and!; try done.
      destruct (w_state s); try done; [|by eapply heard_3_snoc].
      destruct Hs as (f1 & ? & ?). exists f1. split; [set_solver|done].
Qed.

Lemma wpa_run_inv es es0 s : Forall event_bytes es -> wpa_inv es0 s ->
  exists s', wpa_run s es = Ok s' /\ wpa_inv (es0 ++ es) s'.
Proof.
  revert es0 s. induction es as [|e es IH]; intros es0 s He Hs.
  - exists s. split; [done|]. by rewrite app_nil_r.
  - apply Forall_cons in He as [He Hes]. destruct (wpa_step_inv es0 s e He Hs) as (r & s1 & E & Hr & Hs1).
    simpl. rewrite E. destruct (IH _ _ Hes Hs1) as (s' & E' & H'). exists s'. rewrite <- app_assoc in H'.
    split; [by destruct r|done].
Qed.
End Authentic.

(** ** The access point

    Key frames as IEEE 802.11 lays them out: [mid] is the initialisation vector, the receive counter and the reserved field. *)
Definition key_body (ki replay : Z) (nonce mid mic kd : list Z) : list Z :=
  [0x02] ++ be_bytes 2 ki ++ [0x00; 0x10] ++ be_bytes 8 replay ++ nonce ++ mid ++ mic ++ be_bytes 2 (zlen kd) ++ kd.
Definition key_frame (ki replay : Z) (nonce mid mic kd : list Z) : list Z :=
  [0x03; 0x03] ++ be_bytes 2 (95 + zlen kd) ++ key_body ki replay nonce mid mic kd.

Lemma zslice_mid (l1 l2 l3 : list Z) off len : off = zlen l1 -> len = zlen l2 -> zslice (l1 ++ l2 ++ l3) off len = l2.
Proof. intros -> ->. unfold zslice, zlen. rewrite !Nat2Z.id, drop_app_length. apply take_app_length. Qed.

Lemma zslice_last (l1 l2 : list Z) off len : off = zlen l1 -> len = zlen l2 -> zslice (l1 ++ l2) off len = l2.
Proof. intros. pose proof (zslice_mid l1 l2 [] off len) as E. rewrite app_nil_r in E. by apply E. Qed.

Lemma zsplice_mid (l1 l2 l3 d : list Z) off : off = zlen l1 -> zlen d = zlen l2 -> zsplice (l1 ++ l2 ++ l3) off d = l1 ++ d ++ l3.
Proof.
  intros -> Hd. unfold zsplice. unfold zlen in *. rewrite Nat2Z.id, take_app_length. do 2 f_equal.
  rewrite (app_assoc l1 l2 l3), <- drop_drop, <- app_assoc, drop_app_length.
  replace (length d) with (length l2) by lia. apply drop_app_length.
Qed.

Lemma zlen_be_bytes n x : zlen (be_bytes n x) = Z.of_nat n.
Proof. unfold zlen. by rewrite length_be_bytes. Qed.

Lemma be_bytes2 x : 0 <= x < 65536 -> from_be_bytes16 (znth 0 (be_bytes 2 x) 0) (znth 0 (be_bytes 2 x) 1) = x.
Proof.
  intros Hx. pose proof (from_be_bytes 2 x Hx) as E. unfold from_be, be_bytes in E. cbn [foldl] in E.
  unfold from_be_bytes16. exact E.
Qed.

Section Frame.
Context (ki replay : Z) (nonce mid mic kd : list Z).
Context (Hki : 0 <= ki < 65536) (Hre : 0 <= replay < 2 ^ 64).
Context (Hn : zlen nonce = 32) (Hmid : zlen mid = 32) (Hmic : zlen mic = 16) (Hkd : 95 + zlen kd < 65536).
Abbreviation body := (key_body ki replay nonce mid mic kd).
Abbreviation frame := (key_frame ki replay nonce mid mic kd).

Lemma key_body_len : zlen body = 95 + zlen kd.
Proof. unfold key_body. rewrite !zlen_app. rewrite !zlen_be_bytes; rewrite ?zlen_cons, ?zlen_nil. lia. Qed.

Lemma key_frame_len : zlen frame = 99 + zlen kd.
Proof. unfold key_frame. rewrite !zlen_app, key_body_len. rewrite !zlen_be_bytes; rewrite ?zlen_cons, ?zlen_nil. lia. Qed.

Lemma key_frame_body : frame_body frame = body.
Proof.
  unfold frame_body. change (znth 0 frame 2) with (znth 0 (be_bytes 2 (95 + zlen kd)) 0).
  change (znth 0 frame 3) with (znth 0 (be_bytes 2 (95 + zlen kd)) 1).
  pose proof (zlen_nonneg kd). rewrite be_bytes2 by lia.
  unfold key_frame. rewrite app_assoc. apply zslice_last; [done|by rewrite key_body_len].
Qed.

Lemma key_frame_replay : frame_replay frame = replay.
Proof.
  unfold frame_replay. rewrite key_frame_body. unfold key_body.
  rewrite (app_assoc [0x02]), (app_assoc _ [0x00; 0x10]).
  rewrite zslice_mid; [by apply from_be_bytes|done|done].
Qed.

Lemma key_frame_nonce : frame_nonce frame = nonce.
Proof.
  unfold frame_nonce. rewrite key_frame_body. unfold key_body.
  rewrite (app_assoc [0x02]), (app_assoc _ [0x00; 0x10]), (app_assoc _ (be_bytes 8 _)). by apply zslice_mid.
Qed.

Lemma key_frame_info : frame_key_info frame = ki.
Proof. unfold frame_key_info. rewrite key_frame_body. by apply be_bytes2. Qed.

Lemma key_frame_data :
  zslice (frame_body frame) 95 (from_be_bytes16 (znth 0 (frame_body frame) 93) (znth 0 (frame_body frame) 94)) = kd
  /\ from_be_bytes16 (znth 0 (frame_body frame) 93) (znth 0 (frame_body frame) 94) = zlen kd.
Proof.
  rewrite key_frame_body. set (hd := [0x02] ++ be_bytes 2 ki ++ [0x00; 0x10] ++ be_bytes 8 replay ++ nonce ++ mid ++ mic).
  assert (body = hd ++ be_bytes 2 (zlen kd) ++ kd) as -> by (unfold key_body, hd; by rewrite <- !app_assoc).
  assert (zlen hd = 93) as Hh.
  { unfold hd. rewrite !zlen_app. rewrite !zlen_be_bytes; rewrite ?zlen_cons, ?zlen_nil. lia. }
  pose proof (zlen_nonneg kd).
  assert (from_be_bytes16 (znth 0 (hd ++ be_bytes 2 (zlen kd) ++ kd) 93) (znth 0 (hd ++ be_bytes 2 (zlen kd) ++ kd) 94) = zlen kd) as ->.
  { rewrite !znth_app by lia. rewrite Hh. simpl. apply be_bytes2. lia. }
  split; [|done]. rewrite app_assoc. apply zslice_last; [rewrite zlen_app, Hh; done|done].
Qed.

Lemma key_frame_mic : zslice frame 81 16 = mic.
Proof.
  unfold key_frame, key_body.
  rewrite (app_assoc [0x03; 0x03]), (app_assoc _ [0x02]), (app_assoc _ (be_bytes 2 ki)), (app_assoc _ [0x00; 0x10]),
    (app_assoc _ (be_bytes 8 _)), (app_assoc _ nonce), (app_assoc _ mid).
  apply zslice_mid; [rewrite !zlen_app; rewrite !zlen_be_bytes; rewrite ?zlen_cons, ?zlen_nil; lia|lia].
Qed.

Lemma key_frame_set_mic mic' : zlen mic' = 16 -> zsplice frame 81 mic' = key_frame ki replay nonce mid mic' kd.
Proof.
  intros Hm. unfold key_frame, key_body.
  rewrite (app_assoc [0x03; 0x03]), (app_assoc _ [0x02]), (app_assoc _ (be_bytes 2 ki)), (app_assoc _ [0x00; 0x10]),
    (app_assoc _ (be_bytes 8 _)), (app_assoc _ nonce), (app_assoc _ mid).
  rewrite zsplice_mid; [by rewrite <- !app_assoc|rewrite !zlen_app; rewrite !zlen_be_bytes; rewrite ?zlen_cons, ?zlen_nil; lia|lia].
Qed.

Lemma key_frame_bytes : bytes nonce -> bytes mid -> bytes mic -> bytes kd -> bytes frame.
Proof.
  intros. unfold key_frame, key_body. repeat apply Forall_app_2; try done; try apply bytes_be_bytes; all_bytes.
Qed.
End Frame.

(** The frame with its integrity code under the key. *)
Definition signed_frame (k : list Z) (ki replay : Z) (nonce mid kd : list Z) : list Z :=
  key_frame ki replay nonce mid (compute_mic k (key_frame ki replay nonce mid (replicate 16 0) kd)) kd.

Lemma signed_frame_valid k ki replay nonce mid kd :
  zlen nonce = 32 -> zlen mid = 32 -> 95 + zlen kd < 65536 -> mic_valid k (signed_frame k ki replay nonce mid kd).
Proof.
  intros Hn Hm Hd. unfold mic_valid, signed_frame. set (mic := compute_mic k (key_frame ki replay nonce mid (replicate 16 0) kd)).
  destruct (mic_digest k (key_frame ki replay nonce mid (replicate 16 0) kd)) as [Hl _]. fold mic in Hl.
  rewrite key_frame_mic, key_frame_body, key_body_len by done.
  assert (zslice (key_frame ki replay nonce mid mic kd) 0 (4 + (95 + zlen kd)) = key_frame ki replay nonce mid mic kd) as ->.
  { apply (zslice_last []); [done|]. rewrite key_frame_len by done. lia. }
  by rewrite key_frame_set_mic.
Qed.

Lemma build_reply_signed s ki nonce : zlen nonce = 32 ->
  build_reply s ki nonce = signed_frame (ptk s) ki (replay_counter s) nonce (replicate 32 0) [].
Proof.
  intros Hn. unfold build_reply, signed_frame.
  assert (forall m, zlen m = 16 -> reply_frame ki (replay_counter s) nonce m = key_frame ki (replay_counter s) nonce (replicate 32 0) m []) as E.
  { intros m Hm. unfold reply_frame, key_frame, key_body. change (be_bytes 2 (zlen [])) with [0x00; 0x00].
    change (replicate 32 0) with (replicate 16 0 ++ replicate 8 0 ++ replicate 8 0). change (95 + zlen []) with 95.
    by rewrite <- !app_assoc, app_nil_r. }
  rewrite E by done. apply key_frame_set_mic; try done. apply mic_digest.
Qed.

(** The key data: elements, each a type, a length and its bytes. *)
Definition element : Type := Z * list Z.
Definition encode_element (e : element) : list Z := e.1 :: zlen e.2 :: e.2.
Definition encode_elements (es : list element) : list Z := es ≫= encode_element.
Definition is_gtk (e : element) : bool := (e.1 =? 0xDD) && (6 <=? zlen e.2) && bool_decide (zslice e.2 0 4 = [0x00; 0x0F; 0xAC; 0x01]).
Definition element_ok (e : element) : Prop := byte e.1 /\ bytes e.2 /\ byte (zlen e.2).
Definition gtk_element (idx : Z) (g : list Z) : element := (0xDD, [0x00; 0x0F; 0xAC; 0x01; idx; 0x00] ++ g).

Lemma encode_element_len e : zlen (encode_element e) = 2 + zlen e.2.
Proof. unfold encode_element. rewrite !zlen_cons. lia. Qed.

Lemma znth_at (pre l : list Z) i : 0 <= i -> znth 0 (pre ++ l) (zlen pre + i) = znth 0 l i.
Proof.
  intros. pose proof (zlen_nonneg pre). rewrite znth_app by lia. destruct (Z.ltb_spec (zlen pre + i) (zlen pre)); [lia|].
  f_equal. lia.
Qed.

Lemma slice4 (d : list Z) : 4 <= zlen d -> zslice d 0 4 = [znth 0 d 0; znth 0 d 1; znth 0 d 2; znth 0 d 3].
Proof. intros H. do 4 (destruct d as [|? d]; [done|]). done. Qed.

Lemma gtk_kde_element fuel pre e rest : element_ok e ->
  gtk_kde (S fuel) (pre ++ encode_element e ++ rest) (zlen pre) =
  if is_gtk e then Ok (Some (zslice e.2 4 (zlen e.2 - 4)))
  else gtk_kde fuel (pre ++ encode_element e ++ rest) (zlen (pre ++ encode_element e)).
Proof.
  intros (Ht & Hd & Hl). set (kd := pre ++ encode_element e ++ rest). unfold byte in Hl.
  assert (zlen kd = zlen pre + (2 + zlen e.2) + zlen rest) as Hkd by (unfold kd; rewrite !zlen_app, encode_element_len; lia).
  pose proof (zlen_nonneg pre). pose proof (zlen_nonneg rest).
  assert (Hat : forall i, 0 <= i < zlen e.2 -> znth 0 kd (zlen pre + (2 + i)) = znth 0 e.2 i).
  { intros i Hi. unfold kd. rewrite znth_at by lia. rewrite znth_app by lia. rewrite encode_element_len, (proj2 (Z.ltb_lt _ _)) by lia.
    unfold znth, encode_element. replace (Z.to_nat (2 + i)) with (S (S (Z.to_nat i))) by lia. done. }
  cbn [gtk_kde]. rewrite (proj2 (Z.ltb_ge _ _)) by lia. rewrite !byte_at_ok by lia.
  replace (znth 0 kd (zlen pre)) with e.1; [|symmetry; rewrite <- (Z.add_0_r (zlen pre)); unfold kd; by rewrite znth_at].
  replace (znth 0 kd (zlen pre + 1)) with (zlen e.2); [|symmetry; unfold kd; by rewrite znth_at].
  rewrite (proj2 (Z.ltb_ge _ _)) by lia.
  rewrite (zlen_app pre), encode_element_len. replace (zlen pre + (2 + zlen e.2)) with (zlen pre + 2 + zlen e.2) by lia.
  unfold is_gtk. destruct (e.1 =? 0xDD); cbn [andb negb]; [|done]. destruct (Z.leb_spec 6 (zlen e.2)); cbn [andb negb]; [|done].
  rewrite !byte_at_ok by lia. replace (zlen pre + 2) with (zlen pre + (2 + 0)) by lia. replace (zlen pre + 3) with (zlen pre + (2 + 1)) by lia.
  replace (zlen pre + 4) with (zlen pre + (2 + 2)) by lia. replace (zlen pre + 5) with (zlen pre + (2 + 3)) by lia.
  rewrite !Hat by lia. rewrite range_of_ok by lia.
  replace (_ && _ && _ && _) with (bool_decide (zslice e.2 0 4 = [0x00; 0x0F; 0xAC; 0x01])).
  - case_bool_decide; [|done]. do 2 f_equal.
    assert (kd = (pre ++ [e.1; zlen e.2] ++ take 4 e.2) ++ zslice e.2 4 (zlen e.2 - 4) ++ rest) as ->.
    { unfold kd, encode_element, zslice. rewrite <- !app_assoc. simpl. do 3 f_equal. rewrite app_assoc. f_equal.
      rewrite (take_ge (drop _ _)) by (rewrite length_drop; unfold zlen; lia). by rewrite take_drop. }
    apply zslice_mid; [|rewrite zlen_zslice; lia]. rewrite !zlen_app. change (zlen [e.1; zlen e.2]) with 2.
    unfold zlen. rewrite length_take. unfold zlen in *. lia.
  - rewrite slice4 by lia. apply eq_bool_prop_intro. rewrite bool_decide_spec, Is_true_true, !andb_true_iff, !Z.eqb_eq.
    split; [by intros [= -> -> -> ->]|by intros [[[-> ->] ->] ->]].
Qed.

Lemma gtk_kde_elements es : forall fuel pre rest, Forall (fun e => element_ok e /\ is_gtk e = false) es ->
  gtk_kde (length es + fuel) (pre ++ encode_elements es ++ rest) (zlen pre) =
  gtk_kde fuel (pre ++ encode_elements es ++ rest) (zlen (pre ++ encode_elements es)).
Proof.
  induction es as [|e es IH]; intros fuel pre rest Hes; [by rewrite app_nil_r|].
  apply Forall_cons in Hes as [[He Hg] Hes]. change (encode_elements (e :: es)) with (encode_element e ++ encode_elements es).
  rewrite <- app_assoc. cbn [length Nat.add]. rewrite gtk_kde_element, Hg by done.
  rewrite app_assoc. rewrite (app_assoc pre (encode_element e) (encode_elements es)). by apply IH.
Qed.

Lemma gtk_kde_finds es idx g pad : Forall (fun e => element_ok e /\ is_gtk e = false) es -> byte idx -> bytes g -> zlen g <= 249 ->
  let kd := encode_elements es ++ encode_element (gtk_element idx g) ++ pad in
  gtk_kde (S (length kd)) kd 0 = Ok (Some ([idx; 0] ++ g)).
Proof.
  intros Hes Hi Hg Hl kd. pose proof (zlen_nonneg g).
  assert (length es <= length (encode_elements es))%nat as Hle.
  { clear. induction es as [|e es IH]; [done|]. change (encode_elements (e :: es)) with (encode_element e ++ encode_elements es).
    rewrite length_app. unfold encode_element. simpl. lia. }
  assert (exists fuel, S (length kd) = (length es + S fuel)%nat) as [fuel ->].
  { exists (length kd - length es)%nat. unfold kd. rewrite !length_app. lia. }
  unfold kd. pose proof (gtk_kde_elements es (S fuel) [] (encode_element (gtk_element idx g) ++ pad) Hes) as E. rewrite !(app_nil_l (encode_elements es)), app_nil_l in E.
  change (zlen []) with 0 in E. rewrite E. rewrite gtk_kde_element.
  2:{ split_and!; [by split|apply Forall_app_2; [|done]; do 6 (apply Forall_cons_2; [unfold byte in *; lia|]); constructor|]. unfold gtk_element. cbn [snd]. rewrite zlen_app.
      change (zlen [0; 15; 172; 1; idx; 0]) with 6. unfold byte. lia. }
  replace (is_gtk (gtk_element idx g)) with true.
  - do 2 f_equal. unfold gtk_element. cbn [snd]. change ([0; 15; 172; 1; idx; 0] ++ g) with ([0; 15; 172; 1] ++ [idx; 0] ++ g).
    apply zslice_last; [done|]. rewrite (zlen_app [0; 15; 172; 1]). change (zlen [0; 15; 172; 1]) with 4. lia.
  - unfold is_gtk, gtk_element. cbn [fst snd]. rewrite zlen_app. change (zlen [0; 15; 172; 1; idx; 0]) with 6.
    by rewrite (proj2 (Z.leb_le _ _)) by lia.
Qed.

(** The key information words the client takes in messages 1 and 3. *)
Definition info_1 (ki : Z) : bool := (0 <=? ki) && (ki <? 65536) && (Z.land ki 0x2088 =? 0x2088) && (Z.land ki 0x0340 =? 0).
Definition info_3 (ki : Z) : bool :=
  (0 <=? ki) && (ki <? 65536) && (Z.land ki 0x21C8 =? 0x21C8) && (Z.land ki 0x0200 =? 0) && (Z.land ki 0x07 =? 2).

Lemma key_frame_eapol ki replay nonce mid mic kd :
  zlen nonce = 32 -> zlen mid = 32 -> zlen mic = 16 -> 95 + zlen kd < 65536 -> bytes (key_frame ki replay nonce mid mic kd) ->
  eapol_body (key_frame ki replay nonce mid mic kd) = Ok (frame_body (key_frame ki replay nonce mid mic kd)).
Proof.
  intros Hn Hmid Hmic Hkd Hb. set (f := key_frame _ _ _ _ _ _) in *. pose proof (zlen_nonneg kd).
  assert (zlen f = 99 + zlen kd) as Hl by (by apply key_frame_len).
  unfold eapol_body, frame_body. rewrite !byte_at_ok by lia.
  replace (from_be_bytes16 (znth 0 f 2) (znth 0 f 3)) with (95 + zlen kd).
  - cbn [orb]. rewrite !(proj2 (Z.ltb_ge _ _)) by lia. simpl. rewrite range_of_ok by lia. do 2 f_equal. lia.
  - symmetry. change (znth 0 f 2) with (znth 0 (be_bytes 2 (95 + zlen kd)) 0).
    change (znth 0 f 3) with (znth 0 (be_bytes 2 (95 + zlen kd)) 1). apply be_bytes2. lia.
Qed.

Lemma handle_message_1_accepts s ki replay nonce mid mic kd :
  w_state s = WaitMsg1 -> info_1 ki = true -> 0 <= replay < 2 ^ 64 -> nonce <> replicate 32 0 ->
  zlen nonce = 32 -> zlen mid = 32 -> zlen mic = 16 -> 95 + zlen kd < 65536 -> bytes (key_frame ki replay nonce mid mic kd) ->
  let s' := set_state (set_replay (set_ptk (set_anonce s nonce)
              (pairwise_key (pmk s) nonce (snonce s) (w_ap_bssid s) (client_mac s))) replay) WaitMsg3 in
  handle_message_1 s (key_frame ki replay nonce mid mic kd) = (Ok (build_message_2 s'), s').
Proof.
  intros Hst Hki Hre Hnz Hn Hmid Hmic Hkd Hb. unfold handle_message_1. pose proof (zlen_nonneg kd).
  unfold info_1 in Hki. rewrite !andb_true_iff, Z.leb_le, Z.ltb_lt in Hki. destruct Hki as [[Hki Hn1] Hn2].
  rewrite bool_decide_true, key_frame_len by done. rewrite (proj2 (Z.ltb_ge _ _)) by lia. cbn [negb orb].
  rewrite key_frame_eapol by done. rewrite key_frame_body by done.
  assert (zlen (key_body ki replay nonce mid mic kd) = 95 + zlen kd) as Hbl by (by apply key_body_len).
  rewrite byte_at_ok by lia. change (znth 0 (key_body ki replay nonce mid mic kd) 0) with 0x02. cbn [Z.eqb Pos.eqb negb].
  rewrite body_key_info_ok by lia. rewrite <- (key_frame_body ki replay nonce mid mic kd Hn Hmid Hmic Hkd).
  change (from_be_bytes16 _ _) with (frame_key_info (key_frame ki replay nonce mid mic kd)). rewrite key_frame_info by done.
  change (Z.lor (Z.lor KEY_INFO_KEY_TYPE KEY_INFO_PAIRWISE) KEY_INFO_ACK) with 0x2088.
  change (Z.lor (Z.lor KEY_INFO_MIC KEY_INFO_INSTALL) KEY_INFO_ERROR) with 0x0340. rewrite Hn1, Hn2. cbn [negb orb].
  rewrite key_frame_body, Hbl by done. rewrite (proj2 (Z.ltb_ge _ _)) by lia. rewrite !range_of_ok by lia.
  change (13 + 32 - 13) with 32. change (13 - 5) with 8. rewrite <- (key_frame_body ki replay nonce mid mic kd Hn Hmid Hmic Hkd).
  change (zslice (frame_body ?f) 13 32) with (frame_nonce f). change (from_be (zslice (frame_body ?f) 5 8)) with (frame_replay f).
  rewrite key_frame_nonce, key_frame_replay by done. unfold derive_ptk. cbn [anonce set_anonce]. by rewrite !decide_False by done.
Qed.

Lemma handle_message_3_accepts s ki replay nonce mid kd clear gd :
  w_state s = WaitMsg3 -> wpa_wf s -> info_3 ki = true -> replay_counter s < replay < 2 ^ 64 -> 0 <= replay_counter s ->
  zlen nonce = 32 -> zlen mid = 32 -> 95 + zlen kd < 65536 -> bytes nonce -> bytes mid -> bytes kd ->
  aes_key_unwrap (zslice (ptk s) 16 16) kd = Ok clear -> gtk_kde (S (length clear)) clear 0 = Ok (Some gd) -> 18 <= zlen gd ->
  let f := signed_frame (ptk s) ki replay nonce mid kd in
  handle_message_3 s f = (Ok (build_message_4 (accepted_3 s f gd)), accepted_3 s f gd) /\ frame_replay f = replay.
Proof.
  intros Hst Hw Hki Hre Hre0 Hn Hmid Hkd Hbn Hbm Hbk Hun Hgtk Hgd f. pose proof (zlen_nonneg kd).
  unfold info_3 in Hki. rewrite !andb_true_iff, Z.leb_le, Z.ltb_lt in Hki. destruct Hki as [[[Hki Hn1] Hn2] Hn3].
  destruct (mic_digest (ptk s) (key_frame ki replay nonce mid (replicate 16 0) kd)) as [Hml Hmb].
  assert (bytes f) as Hf by (by apply key_frame_bytes).
  assert (mic_valid (ptk s) f) as Hmic by (by apply signed_frame_valid).
  assert (frame_replay f = replay) as Hfr by (apply key_frame_replay; try done; lia). split; [|done].
  assert (frame_key_info f = ki) as Hfk by (by apply key_frame_info).
  assert (zlen f = 99 + zlen kd) as Hfl by (by apply key_frame_len).
  assert (zlen (frame_body f) = 95 + zlen kd) as Hfb by (unfold f, signed_frame; rewrite key_frame_body by done; by apply key_body_len).
  destruct (key_frame_data ki replay nonce mid (compute_mic (ptk s) (key_frame ki replay nonce mid (replicate 16 0) kd)) kd Hn Hmid Hml Hkd) as [Hd Hdl].
  change (key_frame _ _ _ _ _ kd) with f in Hd, Hdl.
  unfold handle_message_3. rewrite bool_decide_true, Hfl by done. rewrite (proj2 (Z.ltb_ge _ _)) by lia. cbn [negb orb].
  unfold f at 1, signed_frame. rewrite key_frame_eapol by done. change (key_frame _ _ _ _ _ kd) with f.
  rewrite byte_at_ok by lia. replace (znth 0 (frame_body f) 0) with 0x02 by (unfold f, signed_frame; by rewrite key_frame_body).
  cbn [Z.eqb Pos.eqb negb]. rewrite body_key_info_ok by lia. fold (frame_key_info f). rewrite Hfk.
  change (Z.lor (Z.lor (Z.lor (Z.lor KEY_INFO_KEY_TYPE KEY_INFO_PAIRWISE) KEY_INFO_MIC) KEY_INFO_ACK) KEY_INFO_INSTALL) with 0x21C8.
  change KEY_INFO_ERROR with 0x0200. rewrite Hn1, Hn2, Hn3. cbn [negb orb]. rewrite !range_of_ok by lia.
  replace (97 - 81) with 16 by lia. replace (4 + zlen (frame_body f) - 0) with (4 + zlen (frame_body f)) by lia.
  unfold mic_valid in Hmic. rewrite Hmic. rewrite mismatch_zero by (try done; by apply bytes_zslice).
  rewrite bool_decide_true by done. cbn [negb]. replace (13 - 5) with 8 by lia. fold (frame_replay f). rewrite Hfr.
  rewrite (proj2 (Z.leb_gt _ _)) by lia. rewrite !byte_at_ok by lia. rewrite Hdl, Hfb. rewrite (proj2 (Z.ltb_ge _ _)) by lia.
  rewrite range_of_ok by lia. rewrite Z.add_simpl_l. rewrite Hdl in Hd. rewrite Hd. change (ptk (set_replay s replay)) with (ptk s).
  rewrite Hun, Hgtk. unfold accepted_3. rewrite Hfr. rewrite take_gtk_eq by lia. rewrite (proj2 (Z.ltb_ge _ _)) by lia. done.
Qed.

(** ** The handshake *)

(** The key of the access point, from the nonce that message 2 carries. *)
Definition ap_key (pmk anonce ap mac m2 : list Z) : list Z := pairwise_key pmk anonce (frame_nonce m2) ap mac.

(** Message 3: the other elements, the group key and the padding, wrapped under the key. *)
Definition ap_message_3 (k : list Z) (ki replay : Z) (anonce mid : list Z) (es : list element) (idx : Z) (g pad : list Z) : list Z :=
  signed_frame k ki replay anonce mid
    (aes_key_wrap (zslice k 16 16) (encode_elements es ++ encode_element (gtk_element idx g) ++ pad)).

Lemma pairwise_key_shape p an sn ap mac : zlen (pairwise_key p an sn ap mac) = 48 /\ bytes (pairwise_key p an sn ap mac).
Proof. apply prf_key. Qed.

#[local] Opaque aes_key_wrap aes_key_unwrap hmac_sha1 compute_mic pairwise_key.

Lemma gtk_elements_bytes es idx g pad : Forall (fun e => element_ok e /\ is_gtk e = false) es -> byte idx -> bytes g -> zlen g = 16 ->
  bytes pad -> bytes (encode_elements es ++ encode_element (gtk_element idx g) ++ pad).
Proof.
  intros Hes Hi Hg Hl Hp. apply Forall_app_2; [|apply Forall_app_2; [|done]].
  - induction Hes as [|e es [(? & ? & ?) _] _ IH]; [constructor|].
    change (encode_elements (e :: es)) with (encode_element e ++ encode_elements es). apply Forall_app_2; [|done].
    by repeat apply Forall_cons_2.
  - unfold encode_element, gtk_element. cbn [fst snd]. rewrite zlen_app. change (zlen [0; 15; 172; 1; idx; 0]) with 6.
    rewrite Hl. do 8 (apply Forall_cons_2; [unfold byte in *; lia|]). exact Hg.
Qed.

(** What the client sends verifies under its key. *)
Lemma reply_verifies s ki nonce : 0 <= ki < 65536 -> 0 <= replay_counter s < 2 ^ 64 -> zlen nonce = 32 ->
  let m := build_reply s ki nonce in frame_nonce m = nonce /\ frame_replay m = replay_counter s /\ mic_valid (ptk s) m.
Proof.
  intros Hk Hr Hn m. unfold m. rewrite build_reply_signed by done.
  split_and!; [apply key_frame_nonce|apply key_frame_replay|apply signed_frame_valid]; try done; apply mic_digest.
Qed.


#[local] Opaque derive_pmk generate_snonce.

(** C3. Whatever frames arrive, in whatever order, the client never panics, and it hands out keys
    only after an authenticated exchange: a message 1 with a nonce that is not zero gave the
    pairwise key, a later message 3 with a greater counter carries an integrity code that is
    right under that key, and the group key and its index are those in its key data. *)
Theorem wpa_keys_authentic (s : WpaSupplicant) (pass name ap mac samples : list Z) (es : list wpa_event) :
  Forall event_bytes es ->
  exists s', wpa_run (wpa_init s pass name ap mac samples) es = Ok s'
  /\ forall tk g idx, key_material s' = Some (tk, g, idx) ->
     exists pre f1 mid f3 post gd k,
       es = pre ++ EvMessage1 f1 :: mid ++ EvMessage3 f3 :: post
       /\ frame_nonce f1 <> replicate 32 0
       /\ k = pairwise_key (derive_pmk pass name) (frame_nonce f1) (generate_snonce samples) ap mac
       /\ mic_valid k f3 /\ frame_replay f1 < frame_replay f3 /\ carries_gtk k f3 gd
       /\ tk = zslice k 32 16 /\ g = zslice gd 2 16 /\ idx = Z.land (znth 0 gd 0) 3.
Proof.
  intros He. destruct (wpa_run_inv (derive_pmk pass name) (generate_snonce samples) ap mac es []
    (wpa_init s pass name ap mac samples) He) as (s' & Hrun & Hinv).
  { split_and!; try done. split_and!; [done|apply Forall_replicate; by split|done]. }
  exists s'. split; [exact Hrun|]. intros tk g idx Hkey. unfold key_material in Hkey.
  destruct Hinv as (_ & _ & _ & _ & _ & Hs).
  assert (heard_3 (derive_pmk pass name) (generate_snonce samples) ap mac es s') as H3.
  { destruct (w_state s'); try done. }
  destruct H3 as (pre & f1 & mid & f3 & post & gd & E & Hnz & Hk & Hm & Hr & Hg & Eg & Ei).
  destruct (_ || _) in Hkey; [discriminate Hkey|]. injection Hkey as <- <- <-.
  exists pre, f1, mid, f3, post, gd, (ptk s'). split_and!; assumption || reflexivity.
Qed.

(** A frame whose key information lacks bit 13 is refused in every state, without any change.
    IEEE 802.11 gives that bit to the SMK handshake, which is not this one: the key information
    of its messages 1 and 3, [0x008A] and [0x13CA], is always refused. *)
Theorem standard_key_info_refused (s : WpaSupplicant) (f : list Z) :
  bytes f -> Z.testbit (frame_key_info f) 13 = false ->
  handle_message_1 s f = (Err Protocol, s) /\ handle_message_3 s f = (Err Protocol, s).
Proof.
  intros Hf Hbit.
  assert (Hneed : forall need, Z.testbit need 13 = true -> (Z.land (frame_key_info f) need =? need) = false).
  { intros need Hn. apply Z.eqb_neq. intros E. apply (f_equal (fun z => Z.testbit z 13)) in E.
    rewrite Z.land_spec, Hbit, Hn in E. done. }
  split; [unfold handle_message_1|unfold handle_message_3]; (destruct (_ || _) eqn:Ec; [done|]);
    apply orb_false_iff in Ec as [_ Hl%Z.ltb_ge];
    (destruct (eapol_body_cases f Hf) as [->|(-> & Hl1 & _ & _)]; [lia|done|]);
    rewrite byte_at_ok by lia; (destruct (negb _); [done|]); rewrite body_key_info_ok by lia;
    fold (frame_key_info f); by rewrite Hneed.
Qed.

(** ** Witnesses *)
#[local] Transparent aes_key_wrap aes_key_unwrap hmac_sha1 compute_mic pairwise_key.
(** The digests of the standards: SHA-1 of the empty string and of ["abc"], and case 1 of RFC 2202. *)
Example sha1_vectors :
  from_be (sha1 []) = 0xda39a3ee5e6b4b0d3255bfef95601890afd80709
  /\ from_be (sha1 [97; 98; 99]) = 0xa9993e364706816aba3e25717850c26c9cd0d89d
  /\ from_be (hmac_sha1 (replicate 20 0x0b) [72; 105; 32; 84; 104; 101; 114; 101]) = 0xb617318655057264e28bc0b6fb378c8ef146be00.
Proof. vm_compute. auto. Qed.

Definition demo_wpa : WpaSupplicant :=
  mkWpa WaitMsg1 [] [] (seqZ 0 32) (replicate 48 0) (replicate 32 0) (replicate 32 0) (seqZ 100 32)
    [2; 0; 0; 0; 0; 1] [2; 0; 0; 0; 0; 2] 0 false 0 0.
(** A message 1 as the standard writes it. *)
Definition standard_message_1 : list Z := key_frame 0x008A 1 (seqZ 1 32) (replicate 32 0) (replicate 16 0) [].

Lemma bytes_dec_true (l : list Z) : forallb (fun x => (0 <=? x) && (x <? 256)) l = true -> bytes l.
Proof.
  intros H. apply Forall_forall. intros x Hx%list_elem_of_In. rewrite forallb_forall in H. specialize (H x Hx).
  unfold byte. lia.
Qed.

Ltac concrete_bytes := apply bytes_dec_true; vm_compute; reflexivity.

Lemma standard_key_info_refused_witness :
  handle_message_1 demo_wpa standard_message_1 = (Err Protocol, demo_wpa).
Proof. apply (standard_key_info_refused demo_wpa standard_message_1); [concrete_bytes|reflexivity]. Defined.

Lemma wpa_keys_authentic_witness :
  exists s', wpa_run (wpa_init wpa_new [1; 2; 3] [4] [2; 0; 0; 0; 0; 1] [2; 0; 0; 0; 0; 2] [5; 6; 7; 8])
    [EvMessage1 standard_message_1; EvMessage3 standard_message_1; EvComplete] = Ok s'.
Proof.
  destruct (wpa_keys_authentic wpa_new [1; 2; 3] [4] [2; 0; 0; 0; 0; 1] [2; 0; 0; 0; 0; 2] [5; 6; 7; 8]
    [EvMessage1 standard_message_1; EvMessage3 standard_message_1; EvComplete]) as (s' & Hs' & _).
  { apply Forall_cons_2; [concrete_bytes|]. apply Forall_cons_2; [concrete_bytes|]. apply Forall_cons_2; [exact I|constructor]. }
  exists s'. exact Hs'.
Defined.

Definition demo_elements : list element := [(0x30, seqZ 1 20)].
