(* ===== verification/Surface.v ===== *)
(** * Pixel surfaces

    The software surfaces of the desktop ([lattice/src/surface.rs]) and the dirty rectangles of
    a scene ([lattice/src/scene.rs]).  Pixels are a row-major list; coordinates are 32-bit,
    signed on the screen and unsigned on a surface. *)
From S2P Require Import Prelude.

(** ** 32-bit arithmetic: an operation whose result leaves the type panics *)
Definition i32_range (x : Z) : Prop := - 2 ^ 31 <= x < 2 ^ 31.
Definition checked_i32 (x : Z) : result unit Z := if (- 2 ^ 31 <=? x) && (x <? 2 ^ 31) then Ok x else Panic.
Definition checked_u32 (x : Z) : result unit Z := if (0 <=? x) && (x <=? u32_max) then Ok x else Panic.
(** [x as i32] and [x as u32]. *)
Definition u32_as_i32 (x : Z) : Z := if x <? 2 ^ 31 then x else x - 2 ^ 32.
Definition i32_as_u32 (x : Z) : Z := x mod 2 ^ 32.
Definition u32_saturating_add (a b : Z) : Z := Z.min (a + b) u32_max.
Definition u32_saturating_sub (a b : Z) : Z := Z.max (a - b) 0.

Lemma checked_i32_ok x : i32_range x -> checked_i32 x = Ok x.
Proof. unfold checked_i32, i32_range. intros. rewrite (proj2 (Z.leb_le _ _)), (proj2 (Z.ltb_lt _ _)) by lia. done. Qed.
Lemma checked_u32_ok x : u32_range x -> checked_u32 x = Ok x.
Proof. unfold checked_u32, u32_range. intros. by rewrite !(proj2 (Z.leb_le _ _)) by lia. Qed.
Lemma u32_as_i32_small x : x < 2 ^ 31 -> u32_as_i32 x = x.
Proof. intros. unfold u32_as_i32. by rewrite (proj2 (Z.ltb_lt _ _)). Qed.
Lemma i32_as_u32_small x : 0 <= x < 2 ^ 32 -> i32_as_u32 x = x.
Proof. apply Z.mod_small. Qed.

(** ** Surfaces *)
Record Surface := mkSurface { sf_width : Z; sf_height : Z; sf_pixels : list Z }.

Definition MAX_AREA : Z := 4096 * 2160.

Definition surface_new (width height color : Z) : Surface :=
  let area := u64_saturating_mul width height in
  if MAX_AREA <? area then mkSurface 0 0 [] else mkSurface width height (replicate (Z.to_nat area) color).

Definition surface_contains (s : Surface) (x y : Z) : bool :=
  (0 <=? x) && (0 <=? y) && (x <? sf_width s) && (y <? sf_height s).

(** [pixels\[i\]]. *)
Definition pixel_index (px : list Z) (i : Z) : result unit Z :=
  if (0 <=? i) && (i <? zlen px) then Ok (znth 0 px i) else Panic.

Definition get_pixel (s : Surface) (x y : Z) : result unit (option Z) :=
  if (x <? sf_width s) && (y <? sf_height s)
  then let? p := pixel_index (sf_pixels s) (y * sf_width s + x) in Ok (Some p)
  else Ok None.

(** [pixels\[start..end\].copy_from_slice(data)], where [data] has the length of the range. *)
Definition write_range (px : list Z) (start stop : Z) (data : list Z) : result unit (list Z) :=
  if (0 <=? start) && (start <=? stop) && (stop <=? zlen px) then Ok (zsplice px start data) else Panic.
Definition fill_range (px : list Z) (start stop color : Z) : result unit (list Z) :=
  write_range px start stop (replicate (Z.to_nat (stop - start)) color).

Definition set_pixel (s : Surface) (x y color : Z) : result unit Surface :=
  if (x <? sf_width s) && (y <? sf_height s)
  then let? px := fill_range (sf_pixels s) (y * sf_width s + x) (y * sf_width s + x + 1) color in
       Ok (mkSurface (sf_width s) (sf_height s) px)
  else Ok s.

Definition clamp_range (start stop limit : Z) : Z * Z := (Z.min start limit, Z.min stop limit).

Definition fill_rect (s : Surface) (x y w h color : Z) : result unit Surface :=
  let '(xlo, xhi) := clamp_range x (u32_saturating_add x w) (sf_width s) in
  let '(ylo, yhi) := clamp_range y (u32_saturating_add y h) (sf_height s) in
  let? px := for_loop ylo yhi (fun row px => fill_range px (row * sf_width s + xlo) (row * sf_width s + xhi) color) (sf_pixels s) in
  Ok (mkSurface (sf_width s) (sf_height s) px).

(** [&pixels\[a..\]\[..count\]]. *)
Definition read_range (px : list Z) (a count : Z) : result unit (list Z) :=
  if (0 <=? a) && (a <=? zlen px) && (0 <=? count) && (count <=? zlen px - a) then Ok (zslice px a count) else Panic.

Definition blit_at (dst src : Surface) (dx dy : Z) : result unit Surface :=
  let src_w := u32_as_i32 (sf_width src) in
  let src_h := u32_as_i32 (sf_height src) in
  let? ndx := checked_i32 (- dx) in
  let? ndy := checked_i32 (- dy) in
  let src_start_x := Z.max 0 ndx in
  let src_start_y := Z.max 0 ndy in
  let src_end_x := Z.max 0 (Z.min src_w (sf_width dst - dx)) in
  let src_end_y := Z.max 0 (Z.min src_h (sf_height dst - dy)) in
  if (src_end_x <=? src_start_x) || (src_end_y <=? src_start_y) then Ok dst else
  let? dst_start_x := checked_i32 (dx + src_start_x) in
  let? dst_start_y := checked_i32 (dy + src_start_y) in
  let? px := for_loop src_start_y src_end_y (fun sy px =>
    let? dy_idx := checked_u32 (i32_as_u32 dst_start_y + i32_as_u32 (sy - src_start_y)) in
    let src_row_base := sy * sf_width src in
    let dst_row_base := dy_idx * sf_width dst in
    let count := src_end_x - src_start_x in
    let? src_slice := read_range (sf_pixels src) (src_row_base + src_start_x) count in
    let? _ := read_range px (dst_row_base + i32_as_u32 dst_start_x) count in
    Ok (zsplice px (dst_row_base + i32_as_u32 dst_start_x) src_slice)) (sf_pixels dst) in
  Ok (mkSurface (sf_width dst) (sf_height dst) px).

(** ** Dirty rectangles *)
Record DirtyRect := mkRect { r_x : Z; r_y : Z; r_width : Z; r_height : Z }.
#[export] Instance DirtyRect_eq_dec : EqDecision DirtyRect.
Proof. solve_decision. Defined.

Definition rect_full (fb_width fb_height : Z) : DirtyRect := mkRect 0 0 fb_width fb_height.

Definition intersects (a b : DirtyRect) : result unit bool :=
  let? bx := checked_u32 (r_x b + r_width b) in
  if negb (r_x a <? bx) then Ok false else
  let? ax := checked_u32 (r_x a + r_width a) in
  if negb (r_x b <? ax) then Ok false else
  let? by' := checked_u32 (r_y b + r_height b) in
  if negb (r_y a <? by') then Ok false else
  let? ay := checked_u32 (r_y a + r_height a) in
  Ok (r_y b <? ay).

Definition rect_merge (a b : DirtyRect) : result unit DirtyRect :=
  let x1 := Z.min (r_x a) (r_x b) in
  let y1 := Z.min (r_y a) (r_y b) in
  let? ax := checked_u32 (r_x a + r_width a) in
  let? bx := checked_u32 (r_x b + r_width b) in
  let? ay := checked_u32 (r_y a + r_height a) in
  let? by' := checked_u32 (r_y b + r_height b) in
  Ok (mkRect x1 y1 (Z.max ax bx - x1) (Z.max ay by' - y1)).

(** The points of a rectangle. *)
Definition in_rect (r : DirtyRect) (x y : Z) : bool :=
  (r_x r <=? x) && (x <? r_x r + r_width r) && (r_y r <=? y) && (y <? r_y r + r_height r).
Definition rect_wf (r : DirtyRect) : Prop :=
  0 <= r_x r /\ 0 <= r_y r /\ 0 <= r_width r /\ 0 <= r_height r
  /\ r_x r + r_width r <= u32_max /\ r_y r + r_height r <= u32_max.

(** ** Rows of a pixel buffer *)
Definition surface_wf (s : Surface) : Prop :=
  u32_range (sf_width s) /\ u32_range (sf_height s) /\ zlen (sf_pixels s) = sf_width s * sf_height s.
(** The pixel of a buffer of width [w]. *)
Definition pix (w : Z) (px : list Z) (x y : Z) : Z := znth 0 px (y * w + x).

Lemma row_index w x y r c n : 0 <= x < w -> 0 <= c -> c + n <= w ->
  (r * w + c <= y * w + x < r * w + c + n) <-> (y = r /\ c <= x < c + n).
Proof. intros. split; [|intros [-> ?]; lia]. intros. assert (y = r) as -> by nia. lia. Qed.

Lemma row_fits w h (px : list Z) r c n : zlen px = w * h -> 0 <= r < h -> 0 <= c -> 0 <= n -> c + n <= w ->
  0 <= r * w + c /\ r * w + c + n <= zlen px.
Proof. nia. Qed.

(** Writing part of row [r] from column [c] on. *)
Lemma row_write w h (px : list Z) r c (data : list Z) : zlen px = w * h -> 0 <= r < h -> 0 <= c -> c + zlen data <= w ->
  write_range px (r * w + c) (r * w + c + zlen data) data = Ok (zsplice px (r * w + c) data)
  /\ zlen (zsplice px (r * w + c) data) = w * h
  /\ forall x y, 0 <= x < w -> 0 <= y < h ->
     pix w (zsplice px (r * w + c) data) x y = if (y =? r) && (c <=? x) && (x <? c + zlen data) then znth 0 data (x - c) else pix w px x y.
Proof.
  intros Hl Hr Hc Hd. pose proof (zlen_nonneg data). assert (r * w + c + zlen data <= w * h) by nia. assert (0 <= r * w) by nia.
  split; [|split].
  - unfold write_range. by rewrite !(proj2 (Z.leb_le _ _)) by lia.
  - rewrite zlen_zsplice; lia.
  - intros x y Hx Hy. unfold pix. assert (0 <= y * w) by nia. rewrite znth_zsplice by lia.
    pose proof (row_index w x y r c (zlen data) Hx Hc Hd).
    destruct (Z.eqb_spec y r) as [->|Hne]; simpl.
    + destruct (Z.leb_spec c x), (Z.ltb_spec x (c + zlen data)); simpl.
      * rewrite (proj2 (Z.leb_le _ _)), (proj2 (Z.ltb_lt _ _)) by lia. simpl. f_equal. lia.
      * rewrite (proj2 (Z.ltb_ge _ (r * w + c + zlen data))) by lia. by rewrite andb_false_r.
      * by rewrite (proj2 (Z.leb_gt _ (r * w + x))) by lia.
      * by rewrite (proj2 (Z.leb_gt _ (r * w + x))) by lia.
    + destruct (Z.leb_spec (r * w + c) (y * w + x)), (Z.ltb_spec (y * w + x) (r * w + c + zlen data)); simpl; try done. lia.
Qed.

Lemma read_range_ok (px : list Z) a n : 0 <= a -> 0 <= n -> a + n <= zlen px -> read_range px a n = Ok (zslice px a n).
Proof. intros. unfold read_range. by rewrite !(proj2 (Z.leb_le _ _)) by lia. Qed.

Lemma pix_inside w h (px : list Z) x y : zlen px = w * h -> 0 <= x < w -> 0 <= y < h -> 0 <= y * w + x < zlen px.
Proof. nia. Qed.

(** [get_pixel] reads the pixel. *)
Lemma get_pixel_ok s x y : surface_wf s -> 0 <= x -> 0 <= y ->
  get_pixel s x y = Ok (if surface_contains s x y then Some (pix (sf_width s) (sf_pixels s) x y) else None).
Proof.
  intros (_ & _ & Hl) Hx Hy. unfold get_pixel, surface_contains. rewrite !(proj2 (Z.leb_le 0 _)) by done. cbn [andb].
  destruct (Z.ltb_spec x (sf_width s)); [|done]. destruct (Z.ltb_spec y (sf_height s)); [|done]. cbn [andb].
  pose proof (pix_inside _ _ _ x y Hl ltac:(lia) ltac:(lia)). unfold pixel_index.
  by rewrite (proj2 (Z.leb_le _ _)), (proj2 (Z.ltb_lt _ _)) by lia.
Qed.

Lemma surface_new_wf w h color : u32_range w -> u32_range h -> surface_wf (surface_new w h color).
Proof.
  intros Hw Hh. unfold surface_new. unfold u32_range in *. destruct (Z.ltb_spec MAX_AREA (u64_saturating_mul w h)) as [|Ha].
  - split_and!; simpl; try done; unfold u32_range, u32_max; lia.
  - split_and!; simpl; try (unfold u32_range; lia). rewrite zlen_replicate.
    assert (u64_saturating_mul w h = w * h) as ->; [|nia].
    unfold u64_saturating_mul. assert (w * h <= u32_max * u32_max) by nia. unfold u32_max, u64_max in *. lia.
Qed.

(** A rectangle filled on a surface: exactly the pixels of the surface that lie in the
    rectangle get the colour, and the access never leaves the buffer. *)
Theorem fill_rect_correct (s : Surface) (x y w h color : Z) :
  surface_wf s -> u32_range x -> u32_range y -> u32_range w -> u32_range h ->
  exists s', fill_rect s x y w h color = Ok s' /\ surface_wf s' /\ sf_width s' = sf_width s /\ sf_height s' = sf_height s
  /\ forall px py, 0 <= px < sf_width s -> 0 <= py < sf_height s ->
     pix (sf_width s') (sf_pixels s') px py =
     if (x <=? px) && (px <? x + w) && (y <=? py) && (py <? y + h) then color else pix (sf_width s) (sf_pixels s) px py.
Proof.
  intros (Hw & Hh & Hl) Hx Hy Hrw Hrh. unfold fill_rect, clamp_range. unfold u32_range, u32_saturating_add in *.
  set (W := sf_width s) in *. set (H := sf_height s) in *.
  set (xlo := Z.min x W). set (xhi := Z.min (Z.min (x + w) u32_max) W).
  set (ylo := Z.min y H). set (yhi := Z.min (Z.min (y + h) u32_max) H).
  destruct (for_loop_ind (fun j px => zlen px = W * H /\ forall a b, 0 <= a < W -> 0 <= b < H ->
     pix W px a b = if (x <=? a) && (a <? x + w) && (y <=? b) && (b <? j) then color else pix W (sf_pixels s) a b)
     (fun row px => fill_range px (row * W + xlo) (row * W + xhi) color) ylo yhi (sf_pixels s)) as (px & -> & Hpl & Hpx).
  - unfold ylo, yhi. lia.
  - split; [done|]. intros a b Ha Hb. destruct (Z.leb_spec y b), (Z.ltb_spec b ylo); rewrite ?andb_false_r; try done. unfold ylo in *. lia.
  - intros j px Hj [Hpl Hpx]. set (data := replicate (Z.to_nat (j * W + xhi - (j * W + xlo))) color).
    assert (zlen data = xhi - xlo) as Hd by (unfold data; rewrite zlen_replicate; unfold xlo, xhi; lia).
    destruct (row_write W H px j xlo data Hpl) as (Ew & Hl' & Hp'); [unfold ylo, yhi in *; lia|unfold xlo; lia|unfold xhi in *; lia|].
    exists (zsplice px (j * W + xlo) data). split.
    { unfold fill_range. fold data. rewrite <- Ew. f_equal. rewrite Hd. lia. }
    split; [done|]. intros a b Ha Hb. rewrite Hp', Hpx, Hd by done. unfold data.
    assert (forall i, 0 <= i < xhi - xlo -> znth 0 (replicate (Z.to_nat (j * W + xhi - (j * W + xlo))) color) i = color) as Hrep.
    { intros i Hi. unfold znth. rewrite nth_lookup, lookup_replicate_2 by lia. done. }
    destruct (Z.eqb_spec b j) as [->|Hbj]; simpl.
    + destruct (Z.leb_spec xlo a), (Z.ltb_spec a (xlo + (xhi - xlo))); simpl;
        [rewrite Hrep by lia|..]; destruct (Z.leb_spec x a), (Z.ltb_spec a (x + w)), (Z.leb_spec y j), (Z.ltb_spec j j), (Z.ltb_spec j (j + 1));
        simpl; try done; unfold xlo, xhi, ylo, yhi in *; lia.
    + destruct (Z.leb_spec x a), (Z.ltb_spec a (x + w)), (Z.leb_spec y b), (Z.ltb_spec b j), (Z.ltb_spec b (j + 1)); simpl; try done; lia.
  - exists (mkSurface W H px). split; [done|]. split; [done|]. split; [done|]. split; [done|]. cbn [sf_width sf_pixels].
    intros a b Ha Hb. rewrite Hpx by done.
    destruct (Z.leb_spec y b), (Z.ltb_spec b yhi), (Z.ltb_spec b (y + h)); rewrite ?andb_false_r, ?andb_true_r; try done; unfold yhi in *; lia.
Qed.

(** A surface copied onto another at any offset, inside or outside: the pixels of the
    destination under the source become the source's, all others keep their colour, and no
    access leaves either buffer. *)
Theorem blit_at_correct (dst src : Surface) (dx dy : Z) :
  surface_wf dst -> surface_wf src -> sf_width src < 2 ^ 31 -> sf_height src < 2 ^ 31 ->
  - 2 ^ 31 < dx < 2 ^ 31 -> - 2 ^ 31 < dy < 2 ^ 31 ->
  exists d, blit_at dst src dx dy = Ok d /\ surface_wf d /\ sf_width d = sf_width dst /\ sf_height d = sf_height dst
  /\ forall x y, 0 <= x < sf_width dst -> 0 <= y < sf_height dst ->
     pix (sf_width d) (sf_pixels d) x y =
     if surface_contains src (x - dx) (y - dy) then pix (sf_width src) (sf_pixels src) (x - dx) (y - dy)
     else pix (sf_width dst) (sf_pixels dst) x y.
Proof.
  intros Hd Hs Hsw Hsh Hdx Hdy. pose proof Hd as (Hdw & Hdh & Hdl). pose proof Hs as (Hw & Hh & Hl). unfold u32_range in *.
  unfold blit_at. rewrite !u32_as_i32_small by done. rewrite !checked_i32_ok by (unfold i32_range; lia).
  set (W := sf_width dst) in *. set (H := sf_height dst) in *. set (w := sf_width src) in *. set (h := sf_height src) in *.
  set (x0 := Z.max 0 (- dx)). set (y0 := Z.max 0 (- dy)).
  set (x1 := Z.max 0 (Z.min w (W - dx))). set (y1 := Z.max 0 (Z.min h (H - dy))).
  assert (Hcov : forall x y, 0 <= x < W -> 0 <= y < H ->
    surface_contains src (x - dx) (y - dy) = (x0 <=? x - dx) && (x - dx <? x1) && (y0 <=? y - dy) && (y - dy <? y1)).
  { intros x y Hx Hy. unfold surface_contains. fold w h. rewrite <- !andb_assoc. unfold x0, x1, y0, y1.
    destruct (Z.leb_spec 0 (x - dx)), (Z.leb_spec 0 (y - dy)), (Z.ltb_spec (x - dx) w), (Z.ltb_spec (y - dy) h); simpl; lia. }
  destruct ((x1 <=? x0) || (y1 <=? y0)) eqn:Ee.
  { exists dst. do 4 (split; [done|]). intros x y Hx Hy. rewrite Hcov by done.
    replace (_ && _ && _ && _) with false; [done|]. symmetry. apply not_true_iff_false. intros Ht.
    apply orb_true_iff in Ee. bool_to_prop. lia. }
  apply orb_false_iff in Ee as [Ex%Z.leb_gt Ey%Z.leb_gt].
  set (step := fun sy px => _).
  destruct (for_loop_ind (fun j px => zlen px = W * H /\ forall x y, 0 <= x < W -> 0 <= y < H ->
     pix W px x y = if (x0 <=? x - dx) && (x - dx <? x1) && (y0 <=? y - dy) && (y - dy <? j) then pix w (sf_pixels src) (x - dx) (y - dy)
                    else pix W (sf_pixels dst) x y) step y0 y1 (sf_pixels dst)) as (px & -> & Hpl & Hpx).
  - lia.
  - split; [done|]. intros x y Hx Hy. destruct (Z.leb_spec y0 (y - dy)), (Z.ltb_spec (y - dy) y0); rewrite ?andb_false_r; try done. lia.
  - intros j px Hj [Hpl Hpx]. unfold step.
    rewrite !i32_as_u32_small by (unfold x0, x1, y0, y1, u32_max in *; lia).
    rewrite checked_u32_ok by (unfold u32_range, y0, y1 in *; lia).
    replace (dy + y0 + (j - y0)) with (dy + j) by lia.
    assert (0 <= j < h) as Hjh by (unfold y0, y1 in *; lia). assert (0 <= dy + j < H) as HjH by (unfold y0, y1 in *; lia).
    assert (0 <= x0 /\ x1 <= w) as [Hx0 Hx1] by (unfold x0, x1 in *; lia).
    assert (0 <= dx + x0 /\ dx + x1 <= W) as [HX0 HX1] by (unfold x0, x1 in *; lia).
    destruct (row_fits w h (sf_pixels src) j x0 (x1 - x0)) as [Hfs0 Hfs]; [done|done|done|lia|lia|]. rewrite read_range_ok by lia.
    set (data := zslice (sf_pixels src) (j * w + x0) (x1 - x0)).
    assert (zlen data = x1 - x0) as Hdata by (unfold data; rewrite zlen_zslice; lia).
    destruct (row_write W H px (dy + j) (dx + x0) data Hpl) as (_ & Hl' & Hp'); [lia|lia|lia|].
    destruct (row_fits W H px (dy + j) (dx + x0) (x1 - x0)) as [Hfd0 Hfd]; [done|done|done|lia|lia|].
    rewrite read_range_ok by lia. eexists. split; [done|]. split; [done|]. intros x y Hx Hy. rewrite Hp', Hpx, Hdata by done.
    destruct (Z.eqb_spec y (dy + j)) as [->|Hyj]; simpl.
    + replace (dy + j - dy) with j by lia. rewrite (proj2 (Z.leb_le y0 j)), (proj2 (Z.ltb_lt j (j + 1))), (proj2 (Z.ltb_ge j j)) by lia.
      rewrite andb_false_r, !andb_true_r. replace (dx + x0 <=? x) with (x0 <=? x - dx) by lia.
      replace (x <? dx + x0 + (x1 - x0)) with (x - dx <? x1) by lia.
      destruct ((x0 <=? x - dx) && (x - dx <? x1)) eqn:Ec; [|done]. apply andb_true_iff in Ec as [Ec1%Z.leb_le Ec2%Z.ltb_lt].
      unfold data, pix. rewrite znth_zslice by lia. f_equal. lia.
    + replace (y - dy <? j + 1) with (y - dy <? j) by lia. done.
  - exists (mkSurface W H px). do 4 (split; [done|]). cbn [sf_width sf_pixels]. intros x y Hx Hy. by rewrite Hpx, Hcov.
Qed.

Lemma in_rect_spec r x y : in_rect r x y = true <-> r_x r <= x < r_x r + r_width r /\ r_y r <= y < r_y r + r_height r.
Proof. unfold in_rect. rewrite !andb_true_iff, !Z.leb_le, !Z.ltb_lt. lia. Qed.

(** The merged rectangle covers both. *)
Lemma rect_merge_ok a b : rect_wf a -> rect_wf b ->
  exists m, rect_merge a b = Ok m /\ rect_wf m /\ forall x y, in_rect a x y = true \/ in_rect b x y = true -> in_rect m x y = true.
Proof.
  unfold rect_wf. intros Ha Hb. unfold rect_merge. rewrite !checked_u32_ok by (unfold u32_range; lia). eexists. split; [done|].
  cbn [r_x r_y r_width r_height]. split; [lia|]. intros x y. rewrite !in_rect_spec. cbn [r_x r_y r_width r_height]. lia.
Qed.

(** ** Witnesses *)
Definition demo_surface : Surface := mkSurface 3 2 [1; 2; 3; 4; 5; 6].
Definition demo_stamp : Surface := mkSurface 2 2 [7; 8; 9; 10].

Lemma surface_demo_wf : surface_wf demo_surface /\ surface_wf demo_stamp.
Proof. split; split_and!; try done; simpl; unfold u32_range, u32_max; lia. Qed.

Lemma fill_rect_correct_witness : exists s', fill_rect demo_surface 1 0 9 1 0 = Ok s' /\ surface_wf s'.
Proof.
  destruct (fill_rect_correct demo_surface 1 0 9 1 0) as (s' & E & Hw & _); [apply surface_demo_wf|unfold u32_range, u32_max; lia..|].
  exists s'. split; [exact E|exact Hw].
Defined.

Lemma blit_at_correct_witness : exists d, blit_at demo_surface demo_stamp 2 (-1) = Ok d /\ surface_wf d.
Proof.
  destruct (blit_at_correct demo_surface demo_stamp 2 (-1)) as (d & E & Hw & _);
    [apply surface_demo_wf|apply surface_demo_wf|reflexivity|reflexivity|lia|lia|]. exists d. split; [exact E|exact Hw].
Defined.
