(* ===== verification/WindowManager.v ===== *)
(** * The window manager

    [lattice/src/window.rs] and [lattice/src/wm.rs]: windows in stacking order, focus, dragging,
    minimising, maximising and the tiled layout, with the rectangles to redraw.  Screen
    coordinates are [i32] and sizes [u32]; an operation that leaves the type panics. *)
From Stdlib Require Import Sorting.Sorted.
From S2P Require Import Prelude Surface.

(** ** Windows *)
Definition TITLE_BAR_HEIGHT : Z := 28.
Definition WINDOW_BORDER : Z := 1.

Definition geometry : Type := Z * Z * Z * Z.

Record Window := mkWindow {
  win_id : Z; win_x : Z; win_y : Z; win_width : Z; win_height : Z; win_surface : Surface; win_title : option (list Z);
  win_focused : bool; win_minimized : bool; win_maximized : bool; win_restore : option geometry; win_shadow : option Surface
}.

Definition window_new (id x y width height color : Z) : Window :=
  mkWindow id x y width height (surface_new width height color) None false false false None None.
Definition window_new_with_title (id x y width height color : Z) (title : list Z) : Window :=
  mkWindow id x y width height (surface_new width height color) (Some title) false false false None None.

Definition win_geometry (w : Window) : geometry := (win_x w, win_y w, win_width w, win_height w).
Definition set_geometry (g : geometry) (w : Window) : Window :=
  let '(x, y, wd, h) := g in
  mkWindow (win_id w) x y wd h (win_surface w) (win_title w) (win_focused w) (win_minimized w) (win_maximized w) (win_restore w) (win_shadow w).
Definition set_focused (b : bool) (w : Window) : Window :=
  mkWindow (win_id w) (win_x w) (win_y w) (win_width w) (win_height w) (win_surface w) (win_title w) b (win_minimized w)
    (win_maximized w) (win_restore w) (win_shadow w).
Definition set_minimized (b : bool) (w : Window) : Window :=
  mkWindow (win_id w) (win_x w) (win_y w) (win_width w) (win_height w) (win_surface w) (win_title w) (win_focused w) b
    (win_maximized w) (win_restore w) (win_shadow w).
Definition set_maximized (b : bool) (r : option geometry) (w : Window) : Window :=
  mkWindow (win_id w) (win_x w) (win_y w) (win_width w) (win_height w) (win_surface w) (win_title w) (win_focused w) (win_minimized w)
    b r (win_shadow w).
Definition set_surface (s : Surface) (w : Window) : Window :=
  mkWindow (win_id w) (win_x w) (win_y w) (win_width w) (win_height w) s (win_title w) (win_focused w) (win_minimized w)
    (win_maximized w) (win_restore w) (win_shadow w).

(** The comparisons of the hit tests stop at the first that fails. *)
Definition has_title (w : Window) : bool := match win_title w with Some _ => true | None => false end.

Definition contains (w : Window) (px py : Z) : result unit bool :=
  let title_h := if has_title w then TITLE_BAR_HEIGHT else 0 in
  if negb (win_x w <=? px) then Ok false else
  let? top := checked_i32 (win_y w + title_h) in
  if negb (top <=? py) then Ok false else
  let? edge := checked_i32 (win_x w + u32_as_i32 (win_width w)) in
  if negb (px <? edge) then Ok false else
  let? bottom := checked_i32 (top + u32_as_i32 (win_height w)) in
  Ok (py <? bottom).

Definition contains_title_bar (w : Window) (px py : Z) : result unit bool :=
  if negb (has_title w) then Ok false else
  if negb ((win_x w <=? px) && (win_y w <=? py)) then Ok false else
  let? edge := checked_i32 (win_x w + u32_as_i32 (win_width w)) in
  if negb (px <? edge) then Ok false else
  let? bottom := checked_i32 (win_y w + TITLE_BAR_HEIGHT) in
  Ok (py <? bottom).

(** A button of the title bar, [back] pixels left of the right edge. *)
Definition hit_button (back : Z) (w : Window) (px py : Z) : result unit bool :=
  if negb (has_title w) || win_minimized w then Ok false else
  let? edge := checked_i32 (win_x w + u32_as_i32 (win_width w)) in
  let? bx := checked_i32 (edge - back) in
  let? by' := checked_i32 (win_y w + 3) in
  if negb (bx <=? px) then Ok false else
  let? bx_end := checked_i32 (bx + 14) in
  if negb (px <? bx_end) || negb (by' <=? py) then Ok false else
  let? by_end := checked_i32 (by' + 14) in
  Ok (py <? by_end).
Definition hit_close_button : Window -> Z -> Z -> result unit bool := hit_button 18.
Definition hit_minimize_button : Window -> Z -> Z -> result unit bool := hit_button 58.
Definition hit_maximize_button : Window -> Z -> Z -> result unit bool := hit_button 38.

(** ** The manager *)
Inductive TilingMode := Floating | MasterStack.
#[export] Instance TilingMode_eq_dec : EqDecision TilingMode.
Proof. solve_decision. Defined.

Inductive DragState :=
| DragNone
| Moving (window offset_x offset_y : Z)
| Resizing (window orig_x orig_y orig_width orig_height : Z).

Record WindowManager := mkWm {
  windows : list Window; focused : option Z; next_id : Z; drag : DragState; resize_handle : Z;
  dirty_rects : list DirtyRect; tiling_mode : TilingMode; floating_restore : list (Z * geometry); work_area : option (Z * Z)
}.

Definition RESIZE_HANDLE_SIZE : Z := 16.
Definition MIN_WINDOW_W : Z := 80.
Definition MIN_WINDOW_H : Z := 40.
Definition TITLE_BAR_H : Z := 20.
Definition BORDER : Z := 2.

Definition wm_new : WindowManager := mkWm [] None 1 DragNone RESIZE_HANDLE_SIZE [] Floating [] None.

Definition set_windows (m : WindowManager) (ws : list Window) : WindowManager :=
  mkWm ws (focused m) (next_id m) (drag m) (resize_handle m) (dirty_rects m) (tiling_mode m) (floating_restore m) (work_area m).
Definition set_focus (m : WindowManager) (f : option Z) : WindowManager :=
  mkWm (windows m) f (next_id m) (drag m) (resize_handle m) (dirty_rects m) (tiling_mode m) (floating_restore m) (work_area m).
Definition set_next (m : WindowManager) (n : Z) : WindowManager :=
  mkWm (windows m) (focused m) n (drag m) (resize_handle m) (dirty_rects m) (tiling_mode m) (floating_restore m) (work_area m).
Definition set_drag (m : WindowManager) (d : DragState) : WindowManager :=
  mkWm (windows m) (focused m) (next_id m) d (resize_handle m) (dirty_rects m) (tiling_mode m) (floating_restore m) (work_area m).
Definition set_dirty (m : WindowManager) (rs : list DirtyRect) : WindowManager :=
  mkWm (windows m) (focused m) (next_id m) (drag m) (resize_handle m) rs (tiling_mode m) (floating_restore m) (work_area m).
Definition set_tiling (m : WindowManager) (t : TilingMode) (saved : list (Z * geometry)) : WindowManager :=
  mkWm (windows m) (focused m) (next_id m) (drag m) (resize_handle m) (dirty_rects m) t saved (work_area m).
Definition set_work_area (m : WindowManager) (width height : Z) : WindowManager :=
  mkWm (windows m) (focused m) (next_id m) (drag m) (resize_handle m) (dirty_rects m) (tiling_mode m) (floating_restore m) (Some (width, height)).

Definition consume_dirty_rects (m : WindowManager) : list DirtyRect * WindowManager := (dirty_rects m, set_dirty m []).

Definition window_dirty_rect (w : Window) : result unit DirtyRect :=
  let x0 := Z.max (Z.max (win_x w - BORDER) (- 2 ^ 31)) 0 in
  let y0 := Z.max (Z.max (win_y w - BORDER) (- 2 ^ 31)) 0 in
  let? ww := checked_u32 (win_width w + BORDER * 2) in
  let? wh := checked_u32 (win_height w + TITLE_BAR_H) in
  let? wh := checked_u32 (wh + BORDER * 2) in
  Ok (mkRect x0 y0 ww wh).

(** [windows.iter().find(|w| w.id == id)], and its update in place. *)
Definition find_window (id : Z) (ws : list Window) : option Window := List.find (fun w => win_id w =? id) ws.
Fixpoint update_window (id : Z) (f : Window -> Window) (ws : list Window) : list Window :=
  match ws with
  | [] => []
  | w :: ws => if win_id w =? id then f w :: ws else w :: update_window id f ws
  end.

(** Mark the area of window [id] dirty, if there is such a window. *)
Definition mark_dirty (id : Z) (m : WindowManager) : result unit WindowManager :=
  match find_window id (windows m) with
  | Some w => let? r := window_dirty_rect w in Ok (set_dirty m (dirty_rects m ++ [r]))
  | None => Ok m
  end.
(** Give the flag to window [id] and mark its area. *)
Definition flag_window (id : Z) (b : bool) (m : WindowManager) : result unit WindowManager :=
  mark_dirty id (set_windows m (update_window id (set_focused b) (windows m))).

(** *** Tiling *)
(** [entry(id).or_insert_with(...)] on the ordered map. *)
Fixpoint or_insert (id : Z) (g : geometry) (saved : list (Z * geometry)) : list (Z * geometry) :=
  match saved with
  | [] => [(id, g)]
  | (k, v) :: rest => if id <? k then (id, g) :: saved else if id =? k then saved else (k, v) :: or_insert id g rest
  end.
Definition save_positions (ws : list Window) (ids : list Z) (saved : list (Z * geometry)) : list (Z * geometry) :=
  foldl (fun saved id => or_insert id (match find_window id ws with Some w => win_geometry w | None => (0, 0, 80, 40) end) saved) saved ids.

(** The stacked windows, from the [i]-th on. *)
Fixpoint stack_loop (left top width each_h gap i : Z) (ids : list Z) (ws : list Window) : result unit (list Window) :=
  match ids with
  | [] => Ok ws
  | id :: ids =>
    let? pitch := checked_u32 (each_h + gap) in
    let? off := checked_u32 (i * pitch) in
    let? stack_y := checked_i32 (top + u32_as_i32 off) in
    stack_loop left top width each_h gap (i + 1) ids (update_window id (set_geometry (left, stack_y, width, each_h)) ws)
  end.

Definition visible_ids (ws : list Window) : list Z := win_id <$> filter (fun w => win_minimized w = false) ws.

Definition retile (m : WindowManager) (work_width work_height : Z) : result unit WindowManager :=
  if negb (bool_decide (tiling_mode m = MasterStack)) then Ok m else
  let visible := visible_ids (windows m) in
  match last visible with
  | None => Ok m
  | Some master_id =>
    let m := set_tiling m (tiling_mode m) (save_positions (windows m) visible (floating_restore m)) in
    let margin := 4 in let gap := 4 in let left := margin in let top := margin in
    let usable_w := u32_saturating_sub work_width (margin * 2) in
    let usable_h := u32_saturating_sub work_height (margin * 2) in
    let? tripled := checked_u32 (usable_w * 3) in
    let master_w := tripled / 5 in
    let? rest_w := checked_u32 (usable_w - master_w) in
    let? stack_w := checked_u32 (rest_w - gap) in
    let? stack_left := checked_i32 (left + u32_as_i32 master_w) in
    let? stack_left := checked_i32 (stack_left + gap) in
    let ws := update_window master_id (set_geometry (left, top, master_w, usable_h)) (windows m) in
    let stack_ids := filter (fun id => id <> master_id) visible in
    let count := zlen stack_ids in
    let? ws :=
      if bool_decide (stack_ids = []) then Ok ws else
      let? gaps := checked_u32 (gap * u32_saturating_sub count 1) in
      let each_h := u32_saturating_sub usable_h gaps / count in
      stack_loop stack_left top stack_w each_h gap 0 stack_ids ws in
    let m := set_windows m ws in
    Ok (set_dirty m (dirty_rects m ++ [mkRect left top usable_w usable_h]))
  end.

Definition maybe_retile (m : WindowManager) : result unit WindowManager :=
  if bool_decide (tiling_mode m = MasterStack)
  then match work_area m with Some (ww, wh) => retile m ww wh | None => Ok m end
  else Ok m.

(** The loop over the saved positions, in the order of the map. *)
Fixpoint restore_loop (saved : list (Z * geometry)) (m : WindowManager) : result unit WindowManager :=
  match saved with
  | [] => Ok m
  | (id, g) :: saved =>
    let? m := mark_dirty id (set_windows m (update_window id (set_geometry g) (windows m))) in
    restore_loop saved m
  end.
Definition restore_floating (m : WindowManager) : result unit WindowManager :=
  let? m := restore_loop (floating_restore m) m in
  Ok (set_tiling m (tiling_mode m) []).

Definition toggle_tiling (m : WindowManager) : result unit WindowManager :=
  match tiling_mode m with
  | Floating => Ok (set_tiling m MasterStack (floating_restore m))
  | MasterStack => restore_floating (set_tiling m Floating (floating_restore m))
  end.

(** *** Windows and focus *)
Definition push_window (m : WindowManager) (window : Window) : result unit WindowManager :=
  let? m := match focused m with Some prev => flag_window prev false m | None => Ok m end in
  let window := set_focused true window in
  let m := set_focus m (Some (win_id window)) in
  let? r := window_dirty_rect window in
  let m := set_dirty m (dirty_rects m ++ [r]) in
  Ok (set_windows m (windows m ++ [window])).

Definition create_window_impl (m : WindowManager) (f : Z -> Window) : result unit (Z * WindowManager) :=
  let id := next_id m in
  if u64_max <? next_id m + 1 then Panic else
  let m := set_next m (next_id m + 1) in
  let? m := push_window m (f id) in
  let? m := maybe_retile m in
  Ok (id, m).
Definition create_window (m : WindowManager) (x y width height color : Z) : result unit (Z * WindowManager) :=
  create_window_impl m (fun id => window_new id x y width height color).
Definition create_titled_window (m : WindowManager) (x y width height color : Z) (title : list Z) : result unit (Z * WindowManager) :=
  create_window_impl m (fun id => window_new_with_title id x y width height color title).

Definition remove_window (m : WindowManager) (id : Z) : result unit (bool * WindowManager) :=
  let? m := mark_dirty id m in
  let len_before := length (windows m) in
  let m := set_windows m (filter (fun w => win_id w <> id) (windows m)) in
  let removed := negb (length (windows m) =? len_before)%nat in
  let? m :=
    if removed && bool_decide (focused m = Some id) then
      match last (windows m) with
      | Some w => flag_window (win_id w) true (set_focus m (Some (win_id w)))
      | None => Ok (set_focus m None)
      end
    else Ok m in
  let? m := if removed then maybe_retile m else Ok m in
  Ok (removed, m).
Definition close_window : WindowManager -> Z -> result unit (bool * WindowManager) := remove_window.

Definition raise_to_top (m : WindowManager) (id : Z) : result unit WindowManager :=
  match find_window id (windows m), position (fun w => win_id w =? id) (windows m) with
  | Some window, Some idx =>
    let prev_focus := focused m in
    let m := set_windows m (delete idx (windows m)) in
    let window := set_focused true window in
    let? m :=
      match prev_focus with
      | Some prev => if prev =? id then Ok m else flag_window prev false m
      | None => Ok m
      end in
    let m := set_focus m (Some id) in
    let? r := window_dirty_rect window in
    let m := set_dirty m (dirty_rects m ++ [r]) in
    maybe_retile (set_windows m (windows m ++ [window]))
  | _, _ => Ok m
  end.

(** [find] with a test that can panic. *)
Fixpoint find_result {A : Type} (f : A -> result unit bool) (l : list A) : result unit (option A) :=
  match l with
  | [] => Ok None
  | x :: l => let? b := f x in if b : bool then Ok (Some x) else find_result f l
  end.

Definition window_at (m : WindowManager) (x y : Z) : result unit (option Z) :=
  let? o := find_result (fun w => let? b := contains w x y in if b : bool then Ok true else contains_title_bar w x y) (rev (windows m)) in
  Ok (win_id <$> o).

Definition in_resize_handle (handle : Z) (x y : Z) (w : Window) : result unit bool :=
  let? rw := checked_i32 (win_x w + u32_as_i32 (win_width w)) in
  let? rh := checked_i32 (win_y w + u32_as_i32 (win_height w)) in
  let? x0 := checked_i32 (rw - handle) in
  if negb ((x0 <=? x) && (x <? rw)) then Ok false else
  let? y0 := checked_i32 (rh - handle) in
  Ok ((y0 <=? y) && (y <? rh)).
Definition resize_handle_at (m : WindowManager) (x y : Z) : result unit (option Z) :=
  let? o := find_result (in_resize_handle (resize_handle m) x y) (rev (windows m)) in
  Ok (win_id <$> o).

(** Take the focus from every window, marking each. *)
Fixpoint unfocus_all (ws : list Window) : result unit (list Window * list DirtyRect) :=
  match ws with
  | [] => Ok ([], [])
  | w :: ws =>
    let w := set_focused false w in
    let? r := window_dirty_rect w in
    let? (ws, rs) := unfocus_all ws in
    Ok (w :: ws, r :: rs)
  end.

Definition on_mouse_down (m : WindowManager) (x y : Z) : result unit WindowManager :=
  let? hit := resize_handle_at m x y in
  match hit with
  | Some id =>
    let? m := raise_to_top m id in
    match find_window id (windows m) with
    | Some w => Ok (set_drag m (Resizing id (win_x w) (win_y w) (win_width w) (win_height w)))
    | None => Ok m
    end
  | None =>
    let? title := find_result (fun w => contains_title_bar w x y) (rev (windows m)) in
    match title with
    | Some w0 =>
      let id := win_id w0 in
      let? m := raise_to_top m id in
      match find_window id (windows m) with
      | Some w =>
        let? ox := checked_i32 (x - win_x w) in
        let? oy := checked_i32 (y - win_y w) in
        Ok (set_drag m (Moving id ox oy))
      | None => Ok m
      end
    | None =>
      let? hit := window_at m x y in
      match hit with
      | Some id => let? m := raise_to_top m id in Ok (set_drag m DragNone)
      | None =>
        let m := set_focus m None in
        let? (ws, rs) := unfocus_all (windows m) in
        let m := set_windows m ws in
        let m := set_dirty m (dirty_rects m ++ rs) in
        Ok (set_drag m DragNone)
      end
    end
  end.

(** Change window [id] and mark its area before and after. *)
Definition change_window (m : WindowManager) (id : Z) (f : Window -> result unit Window) : result unit WindowManager :=
  match find_window id (windows m) with
  | Some w =>
    let? before := window_dirty_rect w in
    let? w' := f w in
    let? after := window_dirty_rect w' in
    let m := set_windows m (update_window id (fun _ => w') (windows m)) in
    Ok (set_dirty m (dirty_rects m ++ [before; after]))
  | None => Ok m
  end.

Definition on_mouse_move (m : WindowManager) (x y : Z) : result unit WindowManager :=
  match drag m with
  | Moving window offset_x offset_y =>
    change_window m window (fun w =>
      let? nx := checked_i32 (x - offset_x) in
      let? ny := checked_i32 (y - offset_y) in
      Ok (set_geometry (nx, ny, win_width w, win_height w) w))
  | Resizing window orig_x orig_y _ _ =>
    change_window m window (fun w =>
      let? ex := checked_i32 (x - orig_x) in
      let? ey := checked_i32 (y - orig_y) in
      let nw := Z.max (i32_as_u32 ex) MIN_WINDOW_W in
      let nh := Z.max (i32_as_u32 ey) MIN_WINDOW_H in
      let? p := get_pixel (win_surface w) 0 0 in
      Ok (set_surface (surface_new nw nh (default 0 p)) (set_geometry (win_x w, win_y w, nw, nh) w)))
  | DragNone => Ok m
  end.

Definition on_mouse_up (m : WindowManager) : WindowManager := set_drag m DragNone.

Definition minimize_window (m : WindowManager) (id : Z) : result unit (bool * WindowManager) :=
  match find_window id (windows m) with
  | None => Ok (false, m)
  | Some w =>
    if win_minimized w then Ok (false, m) else
    let? m := mark_dirty id (set_windows m (update_window id (fun w => set_focused false (set_minimized true w)) (windows m))) in
    let? m :=
      if bool_decide (focused m = Some id) then
        let new_focus := win_id <$> List.find (fun w => negb (win_minimized w) && negb (win_id w =? id)) (rev (windows m)) in
        let m := set_focus m new_focus in
        match new_focus with Some nid => flag_window nid true m | None => Ok m end
      else Ok m in
    let? m := maybe_retile m in
    Ok (true, m)
  end.

Definition restore_window (m : WindowManager) (id : Z) : result unit (bool * WindowManager) :=
  match find_window id (windows m) with
  | None => Ok (false, m)
  | Some w =>
    if negb (win_minimized w) then Ok (false, m) else
    let? m := raise_to_top (set_windows m (update_window id (set_minimized false) (windows m))) id in
    Ok (true, m)
  end.

Definition toggle_maximized (g : geometry) (w : Window) : Window :=
  if win_maximized w
  then match win_restore w with
       | Some r => set_maximized false None (set_geometry r w)
       | None => set_maximized false None w
       end
  else set_maximized true (Some (win_geometry w)) (set_geometry g w).
Definition toggle_maximize (m : WindowManager) (id work_x work_y work_width work_height : Z) : result unit (bool * WindowManager) :=
  match find_window id (windows m) with
  | None => Ok (false, m)
  | Some _ =>
    let? m := mark_dirty id (set_windows m (update_window id (toggle_maximized (work_x, work_y, work_width, work_height)) (windows m))) in
    Ok (true, m)
  end.

Definition z_order (m : WindowManager) : list Z := win_id <$> windows m.

(** ** Sequences of operations *)
Inductive wm_event :=
| EvCreate (x y width height color : Z) (title : option (list Z)) | EvRemove (id : Z) | EvRaise (id : Z)
| EvMouseDown (x y : Z) | EvMouseMove (x y : Z) | EvMouseUp
| EvMinimize (id : Z) | EvRestore (id : Z) | EvMaximize (id x y width height : Z)
| EvToggleTiling | EvRetile (width height : Z) | EvWorkArea (width height : Z) | EvConsume.

Definition wm_step (m : WindowManager) (e : wm_event) : result unit WindowManager :=
  match e with
  | EvCreate x y w h c None => let? (_, m) := create_window m x y w h c in Ok m
  | EvCreate x y w h c (Some t) => let? (_, m) := create_titled_window m x y w h c t in Ok m
  | EvRemove id => let? (_, m) := remove_window m id in Ok m
  | EvRaise id => raise_to_top m id
  | EvMouseDown x y => on_mouse_down m x y
  | EvMouseMove x y => on_mouse_move m x y
  | EvMouseUp => Ok (on_mouse_up m)
  | EvMinimize id => let? (_, m) := minimize_window m id in Ok m
  | EvRestore id => let? (_, m) := restore_window m id in Ok m
  | EvMaximize id x y w h => let? (_, m) := toggle_maximize m id x y w h in Ok m
  | EvToggleTiling => toggle_tiling m
  | EvRetile w h => retile m w h
  | EvWorkArea w h => Ok (set_work_area m w h)
  | EvConsume => Ok (consume_dirty_rects m).2
  end.
Fixpoint wm_run (m : WindowManager) (es : list wm_event) : result unit WindowManager :=
  match es with [] => Ok m | e :: es => let? m := wm_step m e in wm_run m es end.

(** ** Lists of windows *)
Lemma find_window_Some id ws w : find_window id ws = Some w -> w ∈ ws /\ win_id w = id.
Proof. intros H. apply List.find_some in H as [Hin Hid%Z.eqb_eq]. by rewrite list_elem_of_In. Qed.

Lemma find_window_None id ws : find_window id ws = None -> id ∉ (win_id <$> ws).
Proof.
  intros H [w [-> Hw%list_elem_of_In]]%list_elem_of_fmap. pose proof (List.find_none _ _ H w Hw) as E.
  apply Z.eqb_neq in E. done.
Qed.

Lemma update_ids id f ws : (forall w, win_id (f w) = win_id w) -> win_id <$> update_window id f ws = win_id <$> ws.
Proof. intros Hf. induction ws as [|w ws IH]; [done|]. cbn [update_window]. destruct (_ =? _); cbn [fmap list_fmap]; f_equal; [apply Hf|exact IH]. Qed.

Lemma fmap_same {A} (f : A -> A) (l : list A) : (forall x, x ∈ l -> f x = x) -> f <$> l = l.
Proof. intros Hf. rewrite <- (list_fmap_id l) at 2. apply list_fmap_ext. intros i x Hx. by apply Hf, (list_elem_of_lookup_2 _ i). Qed.

Definition update_all (id : Z) (f : Window -> Window) (w : Window) : Window := if win_id w =? id then f w else w.

(** Identifiers being distinct, an update in place is an update wherever the identifier fits. *)
Lemma update_window_all id f ws : NoDup (win_id <$> ws) -> update_window id f ws = update_all id f <$> ws.
Proof.
  induction ws as [|w ws IH]; [done|]. intros [Hw Hws]%NoDup_cons. cbn [update_window fmap list_fmap]. unfold update_all at 1.
  destruct (Z.eqb_spec (win_id w) id) as [<-|]; f_equal; [|by apply IH].
  clear IH Hws. induction ws as [|v ws IH]; [done|]. cbn [fmap list_fmap] in *. apply not_elem_of_cons in Hw as [Hv Hw].
  unfold update_all at 1. destruct (Z.eqb_spec (win_id v) (win_id w)); [congruence|]. f_equal. by apply IH.
Qed.

(** Windows that differ only in their geometry. *)
Definition regeom (ws ws' : list Window) : Prop := Forall2 (fun w w' => exists g, w' = set_geometry g w) ws ws'.

Lemma set_geometry_same w : set_geometry (win_geometry w) w = w.
Proof. by destruct w. Qed.
Lemma regeom_refl ws : regeom ws ws.
Proof. induction ws as [|w ws IH]; constructor; [|done]. exists (win_geometry w). by rewrite set_geometry_same. Qed.
Lemma regeom_trans ws1 ws2 ws3 : regeom ws1 ws2 -> regeom ws2 ws3 -> regeom ws1 ws3.
Proof.
  intros H. revert ws3. induction H as [|w w' ws ws' [g ->] _ IH]; intros ws3 H3; inversion H3 as [|? w3 ? ws3' [g' ->] Hr]; subst; constructor.
  - exists g'. by destruct w, g as [[[]]], g' as [[[]]].
  - by apply IH.
Qed.
Lemma regeom_update id g ws : regeom ws (update_window id (set_geometry g) ws).
Proof.
  induction ws as [|w ws IH]; [constructor|]. cbn [update_window]. destruct (_ =? _); constructor; try apply regeom_refl; try done.
  - by exists g.
  - exists (win_geometry w). by rewrite set_geometry_same.
Qed.
Lemma regeom_ids ws ws' : regeom ws ws' -> win_id <$> ws' = win_id <$> ws.
Proof. induction 1 as [|w w' ws ws' [[[[]]] ->] _ IH]; [done|]. cbn [fmap list_fmap]. by rewrite <- IH. Qed.
Lemma regeom_forall (P : Window -> Prop) ws ws' : (forall w g, P w -> P (set_geometry g w)) -> regeom ws ws' -> Forall P ws -> Forall P ws'.
Proof.
  intros HP. induction 1 as [|w w' ws ws' [g ->] _ IH]; [done|]. intros [Hw Hws]%Forall_cons.
  apply Forall_cons. split; [by apply HP|by apply IH].
Qed.

Lemma stack_loop_regeom left top width each_h gap ids : forall i ws ws',
  stack_loop left top width each_h gap i ids ws = Ok ws' -> regeom ws ws'.
Proof.
  induction ids as [|id ids IH]; intros i ws ws'; cbn [stack_loop]; [intros [= <-]; apply regeom_refl|].
  destruct (checked_u32 (each_h + gap)); [|done..]. destruct (checked_u32 _); [|done..]. destruct (checked_i32 _); [|done..].
  intros H%IH. eapply regeom_trans; [apply regeom_update|done].
Qed.

(** ** The invariant *)
Definition flags_ok (f : option Z) (ws : list Window) : Prop :=
  Forall (fun w => win_focused w = bool_decide (f = Some (win_id w))) ws.

(** Identifiers are distinct and have been given out; the focus is on a window of the list, and exactly
    that window has the flag; positions are saved only while windows are tiled. *)
Definition wm_inv (m : WindowManager) : Prop :=
  0 < next_id m /\ NoDup (z_order m) /\ Forall (fun w => 0 < win_id w < next_id m) (windows m) /\ flags_ok (focused m) (windows m)
  /\ (forall id, focused m = Some id -> id ∈ z_order m) /\ (tiling_mode m = Floating -> floating_restore m = []).

Lemma mark_dirty_eq id m m' : mark_dirty id m = Ok m' -> exists rs, m' = set_dirty m rs.
Proof.
  unfold mark_dirty. destruct (find_window _ _); [|intros [= <-]; exists (dirty_rects m); by destruct m].
  destruct (window_dirty_rect _); [|done..]. intros [= <-]. by eexists.
Qed.

Lemma retile_eq m ww wh m' : retile m ww wh = Ok m' ->
  m' = m \/ (tiling_mode m = MasterStack /\ exists ws sv rs, regeom (windows m) ws
             /\ m' = set_dirty (set_windows (set_tiling m MasterStack sv) ws) rs).
Proof.
  unfold retile. destruct (bool_decide_reflect (tiling_mode m = MasterStack)) as [Ht|]; [|intros [= <-]; by left]. cbn [negb].
  destruct (last _) as [mid|]; [|intros [= <-]; by left]. cbv zeta.
  repeat (match goal with |- context [match ?x with Ok _ => _ | Err _ => _ | Panic => _ end] =>
    lazymatch x with context [stack_loop] => fail | _ => destruct x; [|discriminate..] end end).
  set (ws1 := update_window mid _ _). rewrite Ht.
  destruct (if bool_decide _ then _ else _) as [ws2|[]|] eqn:E; [|discriminate..]. intros [= <-]. right. split; [done|].
  eexists ws2, _, _. split; [|done].
  apply (regeom_trans _ ws1); [apply regeom_update|]. destruct (bool_decide _); [injection E as <-; apply regeom_refl|].
  destruct (checked_u32 _); [|discriminate..]. by eapply stack_loop_regeom.
Qed.

Lemma flag_window_eq id b m m' : flag_window id b m = Ok m' ->
  exists rs, m' = set_dirty (set_windows m (update_window id (set_focused b) (windows m))) rs.
Proof. intros [rs ->]%mark_dirty_eq. by exists rs. Qed.

Lemma flags_other f ws : flags_ok None ws -> (forall id, f = Some id -> id ∉ (win_id <$> ws)) -> flags_ok f ws.
Proof.
  intros Hn Hf. apply Forall_forall. intros w Hw. unfold flags_ok in Hn. rewrite Forall_forall in Hn. rewrite (Hn w Hw).
  rewrite !bool_decide_false; [done| |done]. intros ->. apply (Hf (win_id w)); [done|]. apply list_elem_of_fmap. by exists w.
Qed.

Lemma flags_none f ws : flags_ok f ws -> (forall id, f = Some id -> id ∉ (win_id <$> ws)) -> flags_ok None ws.
Proof.
  intros Hn Hf. apply Forall_forall. intros w Hw. unfold flags_ok in Hn. rewrite Forall_forall in Hn. rewrite (Hn w Hw).
  rewrite !bool_decide_false; [done|done|]. intros ->. apply (Hf (win_id w)); [done|]. apply list_elem_of_fmap. by exists w.
Qed.

Lemma flags_update f id b ws : NoDup (win_id <$> ws) -> flags_ok f ws -> (b = false -> f = Some id) -> (b = true -> f = None) ->
  flags_ok (if b then Some id else None) (update_window id (set_focused b) ws).
Proof.
  intros Hnd Hf Hb1 Hb2. rewrite update_window_all by done. apply Forall_fmap. eapply Forall_impl; [exact Hf|]. intros w Hw. simpl in Hw |- *.
  unfold update_all. destruct (Z.eqb_spec (win_id w) id) as [<-|Hne]; simpl.
  - destruct b; [by rewrite bool_decide_true|by rewrite bool_decide_false].
  - rewrite Hw. destruct b; [rewrite Hb2 by done|rewrite Hb1 by done]; rewrite !bool_decide_false by naive_solver; done.
Qed.

(** The previous focus is lost. *)
Definition unflag (f : option Z) (ws : list Window) : list Window :=
  match f with Some p => update_window p (set_focused false) ws | None => ws end.
Lemma unflag_ok f ws : NoDup (win_id <$> ws) -> flags_ok f ws -> flags_ok None (unflag f ws).
Proof. intros Hnd Hf. destruct f as [p|]; [|done]. by apply (flags_update (Some p) p false). Qed.
Lemma unflag_ids f ws : win_id <$> unflag f ws = win_id <$> ws.
Proof. destruct f; [|done]. by apply update_ids. Qed.

Lemma forall_ids (P : Z -> Prop) ws ws' : win_id <$> ws' = win_id <$> ws -> Forall (fun w => P (win_id w)) ws -> Forall (fun w => P (win_id w)) ws'.
Proof. intros E H. apply (Forall_fmap win_id P). rewrite E. by apply (Forall_fmap win_id P). Qed.

Lemma inv_regeom m ws t sv rs : wm_inv m -> regeom (windows m) ws -> (t = Floating -> sv = []) ->
  wm_inv (set_dirty (set_windows (set_tiling m t sv) ws) rs).
Proof.
  intros (Hn & Hnd & Hid & Hfl & Hin & _) Hre Ht. pose proof (regeom_ids _ _ Hre) as E. split_and!; try done.
  - unfold z_order. simpl. by rewrite E.
  - by eapply (forall_ids (fun i => 0 < i < next_id m)).
  - eapply (regeom_forall _ (windows m)); [|exact Hre|exact Hfl]. by intros w [[[]]].
  - intros id Hf. unfold z_order. simpl. rewrite E. by apply Hin.
Qed.

Lemma retile_inv m ww wh m' : wm_inv m -> retile m ww wh = Ok m' -> wm_inv m'.
Proof. intros Hm [->|(Ht & ws & sv & rs & Hre & ->)]%retile_eq; [done|]. by apply inv_regeom. Qed.

Lemma maybe_retile_inv m m' : wm_inv m -> maybe_retile m = Ok m' -> wm_inv m'.
Proof.
  unfold maybe_retile. intros Hm. destruct (bool_decide _); [|by intros [= <-]]. destruct (work_area m) as [[ww wh]|]; [|by intros [= <-]].
  by apply retile_inv.
Qed.

(** Removing a window from its place and putting it on top. *)
Lemma find_split id ws w : find_window id ws = Some w ->
  exists l1 l2, ws = l1 ++ w :: l2 /\ win_id w = id /\ position (fun w => win_id w =? id) ws = Some (length l1).
Proof.
  induction ws as [|v ws IH]; [done|]. unfold find_window. cbn [List.find position].
  destruct (Z.eqb_spec (win_id v) id) as [E|]; [intros [= <-]; by exists [], ws|]. intros (l1 & l2 & -> & Hi & Hp)%IH.
  exists (v :: l1), l2. split_and!; try done. by rewrite Hp.
Qed.

Lemma push_window_inv m w m' : wm_inv m -> win_id w = next_id m -> push_window (set_next m (next_id m + 1)) w = Ok m' -> wm_inv m'.
Proof.
  intros (Hn & Hnd & Hid & Hfl & Hin & Ht) Hw. unfold push_window. cbn [focused set_next].
  assert (win_id w ∉ (win_id <$> windows m)) as Hnew.
  { intros [v [E Hv]]%list_elem_of_fmap. rewrite Forall_forall in Hid. specialize (Hid v Hv). lia. }
  destruct (match focused m with Some prev => _ | None => _ end) as [m1|[]|] eqn:E; [|done..].
  assert (exists rs, m1 = set_dirty (set_windows (set_next m (next_id m + 1)) (unflag (focused m) (windows m))) rs) as [rs ->].
  { destruct (focused m) as [p|] eqn:Ef; [apply flag_window_eq in E as [rs ->]; by exists rs|injection E as <-]. exists (dirty_rects m). by destruct m. }
  destruct (window_dirty_rect _) as [r|[]|]; [|done..]. intros [= <-]. split_and!; unfold z_order; simpl; try done; try lia.
  - rewrite fmap_app, unflag_ids. apply NoDup_app. split_and!; [done| |by apply NoDup_singleton].
    intros i Hi Hi'%list_elem_of_singleton. simpl in Hi'. congruence.
  - apply Forall_app. split; [|constructor; [simpl; lia|constructor]].
    eapply (forall_ids (fun i => 0 < i < next_id m + 1)); [apply unflag_ids|]. eapply Forall_impl; [exact Hid|]. simpl. intros. lia.
  - apply Forall_app. split; [|constructor; [simpl; by rewrite bool_decide_true|constructor]].
    apply flags_other; [by apply unflag_ok|]. intros id [= <-]. by rewrite unflag_ids.
  - intros id [= <-]. rewrite fmap_app. apply elem_of_app. right. by apply list_elem_of_singleton.
Qed.

Lemma create_inv m f m' id : wm_inv m -> (forall i, win_id (f i) = i) -> create_window_impl m f = Ok (id, m') -> wm_inv m'.
Proof.
  intros Hm Hf. unfold create_window_impl. destruct (_ <? _); [done|].
  destruct (push_window _ _) as [m1|[]|] eqn:E; [|done..]. apply push_window_inv in E; [|done|apply Hf].
  destruct (maybe_retile m1) as [m2|[]|] eqn:E2; [|done..]. intros [= _ <-]. by eapply maybe_retile_inv.
Qed.

Lemma forall_filter {A} (P Q : A -> Prop) `{forall x, Decision (P x)} l : Forall Q l -> Forall Q (filter P l).
Proof. rewrite !Forall_forall. intros HQ x [_ Hx]%list_elem_of_filter. by apply HQ. Qed.

Lemma filter_shorter {A} (P : A -> Prop) `{forall x, Decision (P x)} l : length (filter P l) = length l -> filter P l = l.
Proof.
  induction l as [|x l IH]; [done|]. pose proof (length_filter P l). destruct (decide (P x)).
  - rewrite filter_cons_True by done. simpl. intros [= E]. f_equal. by apply IH.
  - rewrite filter_cons_False by done. simpl. lia.
Qed.

Lemma remove_inv m id m' b : wm_inv m -> remove_window m id = Ok (b, m') -> wm_inv m'.
Proof.
  intros (Hn & Hnd & Hid & Hfl & Hin & Ht). unfold remove_window.
  destruct (mark_dirty id m) as [m0|[]|] eqn:E0; [|done..]. apply mark_dirty_eq in E0 as [rs ->]. cbn [windows set_dirty set_windows focused].
  set (ws := filter (fun w => win_id w <> id) (windows m)).
  assert (NoDup (win_id <$> ws)) as Hnd'.
  { eapply sublist_NoDup; [exact Hnd|]. apply fmap_sublist, sublist_filter. }
  assert (Forall (fun w => 0 < win_id w < next_id m) ws) as Hid' by (by apply forall_filter).
  assert (flags_ok (focused m) ws) as Hfl' by (by apply forall_filter).
  assert (Hkeep : forall i, i <> id -> i ∈ z_order m -> i ∈ (win_id <$> ws)).
  { intros i Hi [w [-> Hw]]%list_elem_of_fmap. apply list_elem_of_fmap. exists w. split; [done|]. by apply list_elem_of_filter. }
  set (removed := negb _). intros H.
  assert (exists m1, (if removed then maybe_retile m1 else Ok m1) = Ok m' /\ wm_inv m1) as (m1 & Em & Hm1).
  { destruct (if removed && _ then _ else _) as [m1|[]|] eqn:E1 in H; [|done..]. exists m1.
    split; [by destruct (if removed then _ else _) as [?|[]|]; [injection H as _ <-|..]|]. clear H.
    destruct (bool_decide_reflect (focused m = Some id)) as [Hf|Hf]; [destruct removed eqn:Er|rewrite andb_false_r in E1; injection E1 as <-].
    - cbn [andb] in E1. assert (flags_ok None ws) as Hnone.
      { eapply flags_none; [exact Hfl'|]. intros i Hi. rewrite Hf in Hi. injection Hi as <-.
        intros [w [E [Hw _]%list_elem_of_filter]]%list_elem_of_fmap. done. }
      destruct (last ws) as [w|] eqn:El; [|injection E1 as <-; by split_and!].
      apply flag_window_eq in E1 as [rs' ->]. simpl. split_and!; unfold z_order; simpl; rewrite ?update_ids by done; try done.
      + eapply (forall_ids (fun i => 0 < i < next_id m)); [by apply update_ids|done].
      + by apply (flags_update None _ true).
      + intros i [= <-]. apply list_elem_of_fmap. exists w. split; [done|]. apply last_Some_elem_of in El. done.
    - cbn [andb] in E1. injection E1 as <-. apply negb_false_iff, Nat.eqb_eq in Er. apply filter_shorter in Er. simpl in Er. fold ws in Er.
      split_and!; try done. unfold z_order. simpl. by rewrite Er.
    - split_and!; try done. intros i Hi. simpl in Hi. apply Hkeep; [congruence|by apply Hin]. }
  destruct removed; [by eapply maybe_retile_inv|by injection Em as <-].
Qed.

Lemma raise_inv m id m' : wm_inv m -> raise_to_top m id = Ok m' -> wm_inv m'.
Proof.
  intros Hm. pose proof Hm as (Hn & Hnd & Hid & Hfl & Hin & Ht). unfold raise_to_top.
  destruct (find_window id (windows m)) as [w|] eqn:Ef; [|by intros [= <-]].
  destruct (find_split _ _ _ Ef) as (l1 & l2 & Ew & Hw & ->). cbn [windows set_windows].
  replace (delete (length l1) (windows m)) with (l1 ++ l2) by (rewrite Ew; clear; induction l1; simpl; congruence).
  unfold z_order in Hnd, Hin. rewrite Ew in *. rewrite fmap_app, fmap_cons in *.
  apply NoDup_app in Hnd as (Hnd1 & Hd & [Hnw Hnd2]%NoDup_cons). unfold flags_ok in Hfl. rewrite Forall_app, Forall_cons in Hfl, Hid.
  destruct Hfl as (Hf1 & Hfw & Hf2). destruct Hid as (Hi1 & Hiw & Hi2).
  assert (NoDup (win_id <$> (l1 ++ l2))) as Hnd.
  { rewrite fmap_app. apply NoDup_app. split_and!; [done| |done]. intros i H1 H2. apply (Hd i H1). by apply list_elem_of_further. }
  assert (id ∉ (win_id <$> (l1 ++ l2))) as Hout.
  { rewrite fmap_app, not_elem_of_app. subst id. split; [|done]. intros H1. apply (Hd _ H1). apply list_elem_of_here. }
  assert (flags_ok (focused m) (l1 ++ l2)) as Hfl by (by apply Forall_app).
  destruct (match focused m with Some prev => _ | None => _ end) as [m1|[]|] eqn:E; [|done..].
  assert (exists ws rs, m1 = set_dirty (set_windows m ws) rs /\ flags_ok None ws /\ win_id <$> ws = win_id <$> (l1 ++ l2)) as (ws & rs & -> & Hnone & Eid).
  { destruct (focused m) as [p|] eqn:Ep; [destruct (Z.eqb_spec p id) as [->|Hp]|].
    - injection E as <-. exists (l1 ++ l2), (dirty_rects m). split_and!; [done| |done]. eapply flags_none; [exact Hfl|]. by intros i [= <-].
    - apply flag_window_eq in E as [rs ->]. eexists _, rs. split; [done|]. split; [by apply (flags_update (Some p) p false)|by apply update_ids].
    - injection E as <-. by exists (l1 ++ l2), (dirty_rects m). }
  destruct (window_dirty_rect _) as [r|[]|]; [|done..]. intros H. eapply maybe_retile_inv; [|exact H].
  split_and!; unfold z_order; simpl; rewrite ?fmap_app, ?Eid; try done.
  - apply NoDup_app. split_and!; [done| |by apply NoDup_singleton]. intros i Hi Hi'%list_elem_of_singleton. simpl in Hi'. congruence.
  - apply Forall_app. split; [|by apply Forall_cons]. eapply (forall_ids (fun i => 0 < i < next_id m)); [exact Eid|]. by apply Forall_app.
  - apply Forall_app. split; [|apply Forall_cons; split; [simpl; by rewrite Hw, bool_decide_true|constructor]].
    apply flags_other; [done|]. intros i [= <-]. by rewrite Eid.
  - intros i [= <-]. apply elem_of_app. right. simpl. rewrite Hw. by apply list_elem_of_singleton.
Qed.

Lemma unfocus_all_eq ws ws' rs : unfocus_all ws = Ok (ws', rs) -> ws' = set_focused false <$> ws.
Proof.
  revert ws' rs. induction ws as [|w ws IH]; intros ws' rs; cbn [unfocus_all]; [by intros [= <- <-]|].
  destruct (window_dirty_rect _) as [r|[]|]; [|done..]. destruct (unfocus_all ws) as [[ws1 rs1]|[]|]; [|done..].
  intros [= <- <-]. cbn [fmap list_fmap]. f_equal. by eapply IH.
Qed.

Lemma mouse_down_inv m x y m' : wm_inv m -> on_mouse_down m x y = Ok m' -> wm_inv m'.
Proof.
  intros Hm. unfold on_mouse_down. destruct (resize_handle_at m x y) as [[id|]|[]|]; [| |done..].
  { destruct (raise_to_top m id) as [m1|[]|] eqn:E; [|done..]. apply raise_inv in E; [|done].
    destruct (find_window id (windows m1)); by intros [= <-]. }
  destruct (find_result _ _) as [[w0|]|[]|]; [| |done..].
  { destruct (raise_to_top m (win_id w0)) as [m1|[]|] eqn:E; [|done..]. apply raise_inv in E; [|done].
    destruct (find_window _ (windows m1)); [|by intros [= <-]]. destruct (checked_i32 _); [|done..].
    destruct (checked_i32 _); [|done..]. by intros [= <-]. }
  destruct (window_at m x y) as [[id|]|[]|]; [| |done..].
  { destruct (raise_to_top m id) as [m1|[]|] eqn:E; [|done..]. apply raise_inv in E; [|done]. by intros [= <-]. }
  destruct (unfocus_all _) as [[ws rs]|[]|] eqn:E; [|done..]. apply unfocus_all_eq in E. simpl in E. subst ws. intros [= <-].
  destruct Hm as (Hn & Hnd & Hid & Hfl & Hin & Ht).
  assert (win_id <$> (set_focused false <$> windows m) = win_id <$> windows m) as E by (by rewrite <- list_fmap_compose).
  split_and!; unfold z_order; simpl; rewrite ?E; try done.
  - by eapply (forall_ids (fun i => 0 < i < next_id m)).
  - apply Forall_fmap, Forall_true. by intros w.
Qed.

Lemma update_const_ids id w' ws : win_id w' = id -> win_id <$> update_window id (fun _ => w') ws = win_id <$> ws.
Proof.
  intros Hw. induction ws as [|w ws IH]; [done|]. cbn [update_window]. destruct (Z.eqb_spec (win_id w) id); cbn [fmap list_fmap]; f_equal; [congruence|done].
Qed.
Lemma update_forall (P : Window -> Prop) id w' ws : P w' -> Forall P ws -> Forall P (update_window id (fun _ => w') ws).
Proof.
  intros Hw. induction 1 as [|w ws Hx Hf IH]; [constructor|]. cbn [update_window]. destruct (_ =? _); by constructor.
Qed.

(** A change of one window that keeps its identity and its focus. *)
Lemma change_window_inv m id f m' : wm_inv m ->
  (forall w w', f w = Ok w' -> win_id w' = win_id w /\ win_focused w' = win_focused w) ->
  change_window m id f = Ok m' -> wm_inv m'.
Proof.
  intros (Hn & Hnd & Hid & Hfl & Hin & Ht) Hf. unfold change_window. destruct (find_window id (windows m)) as [w|] eqn:Ew; [|by intros [= <-]].
  apply find_window_Some in Ew as [Hw <-]. destruct (window_dirty_rect w) as [r1|[]|]; [|done..].
  destruct (f w) as [w'|[]|] eqn:Efw; [|done..]. destruct (Hf _ _ Efw) as [E1 E2]. destruct (window_dirty_rect w') as [r2|[]|]; [|done..].
  intros [= <-]. unfold flags_ok in *. rewrite Forall_forall in Hfl, Hid.
  split_and!; unfold z_order; simpl; rewrite ?update_const_ids by done; try done.
  - apply update_forall; [rewrite E1; by apply Hid|by apply Forall_forall].
  - apply update_forall; [rewrite E1, E2; by apply Hfl|by apply Forall_forall].
Qed.

Lemma mouse_move_inv m x y m' : wm_inv m -> on_mouse_move m x y = Ok m' -> wm_inv m'.
Proof.
  intros Hm. unfold on_mouse_move. destruct (drag m) as [|id ox oy|id ox oy ow oh]; [by intros [= <-]|..];
    apply change_window_inv; try done; intros w w'; destruct (checked_i32 (x - ox)); try done; destruct (checked_i32 (y - oy)); try done.
  - by intros [= <-].
  - destruct (get_pixel _ _ _); [|done..]. by intros [= <-].
Qed.

Lemma minimize_inv m id m' b : wm_inv m -> minimize_window m id = Ok (b, m') -> wm_inv m'.
Proof.
  intros Hm. pose proof Hm as (Hn & Hnd & Hid & Hfl & Hin & Ht). unfold minimize_window.
  destruct (find_window id (windows m)) as [w|] eqn:Ew; [|by intros [= _ <-]]. destruct (win_minimized w); [by intros [= _ <-]|].
  destruct (mark_dirty _ _) as [m1|[]|] eqn:E1; [|done..]. apply mark_dirty_eq in E1 as [rs ->].
  set (ws := update_window id _ (windows m)). cbn [focused set_dirty set_windows windows].
  assert (win_id <$> ws = win_id <$> windows m) as Eid by (by apply update_ids).
  assert (Forall (fun w => 0 < win_id w < next_id m) ws) as Hid' by (by eapply (forall_ids (fun i => 0 < i < next_id m))).
  assert (flags_ok (if bool_decide (focused m = Some id) then None else focused m) ws) as Hfl'.
  { unfold ws. rewrite update_window_all by done. apply Forall_fmap. eapply Forall_impl; [exact Hfl|]. intros v Hv. simpl in Hv |- *.
    unfold update_all. destruct (Z.eqb_spec (win_id v) id) as [<-|Hne]; simpl.
    - destruct (bool_decide_reflect (focused m = Some (win_id v))); by rewrite bool_decide_false.
    - rewrite Hv. destruct (bool_decide_reflect (focused m = Some id)) as [Hf|]; [|done]. rewrite Hf. by rewrite !bool_decide_false by naive_solver. }
  intros H. assert (exists m1, maybe_retile m1 = Ok m' /\ wm_inv m1) as (m1 & E & Hm1); [|by eapply maybe_retile_inv].
  destruct (if bool_decide _ then _ else _) as [m1|[]|] eqn:E1 in H; [|done..]. exists m1.
  split; [by destruct (maybe_retile m1) as [?|[]|]; [injection H as _ <-|..]|]. clear H.
  destruct (bool_decide_reflect (focused m = Some id)) as [Hf|Hf].
  - destruct (List.find _ (rev ws)) as [v|] eqn:Ev; simpl in E1.
    + apply flag_window_eq in E1 as [rs' ->]. apply List.find_some in Ev as [Hv _]. apply in_rev in Hv. apply list_elem_of_In in Hv.
      split_and!; unfold z_order; simpl; rewrite ?update_ids, ?Eid by done; try done.
      * by eapply (forall_ids (fun i => 0 < i < next_id m)); [apply update_ids|].
      * apply (flags_update None _ true); try done. by rewrite Eid.
      * intros i [= <-]. rewrite <- Eid. apply list_elem_of_fmap. by exists v.
    + injection E1 as <-. split_and!; unfold z_order; simpl; rewrite ?Eid; done.
  - injection E1 as <-. split_and!; unfold z_order; simpl; rewrite ?Eid; done.
Qed.

Lemma restore_inv m id m' b : wm_inv m -> restore_window m id = Ok (b, m') -> wm_inv m'.
Proof.
  intros Hm. pose proof Hm as (Hn & Hnd & Hid & Hfl & Hin & Ht). unfold restore_window.
  destruct (find_window id (windows m)) as [w|] eqn:Ew; [|by intros [= _ <-]]. destruct (negb _); [by intros [= _ <-]|].
  destruct (raise_to_top _ _) as [m1|[]|] eqn:E1; [|done..]. intros [= _ <-]. eapply raise_inv; [|exact E1].
  assert (win_id <$> update_window id (set_minimized false) (windows m) = win_id <$> windows m) as Eid by (by apply update_ids).
  split_and!; unfold z_order; simpl; rewrite ?Eid; try done.
  - by eapply (forall_ids (fun i => 0 < i < next_id m)).
  - rewrite update_window_all by done. apply Forall_fmap. eapply Forall_impl; [exact Hfl|]. intros v Hv. simpl in Hv |- *.
    unfold update_all. by destruct (_ =? _).
Qed.

Lemma maximize_inv m id x y w h m' b : wm_inv m -> toggle_maximize m id x y w h = Ok (b, m') -> wm_inv m'.
Proof.
  intros (Hn & Hnd & Hid & Hfl & Hin & Ht). unfold toggle_maximize. destruct (find_window id (windows m)) as [v|]; [|by intros [= _ <-]].
  destruct (mark_dirty _ _) as [m1|[]|] eqn:E1; [|done..]. apply mark_dirty_eq in E1 as [rs ->]. intros [= _ <-].
  assert (Hsame : forall v, win_id (toggle_maximized (x, y, w, h) v) = win_id v /\ win_focused (toggle_maximized (x, y, w, h) v) = win_focused v).
  { intros u. unfold toggle_maximized. destruct (win_maximized u); [|done]. by destruct (win_restore u) as [[[[]]]|]. }
  assert (win_id <$> update_window id (toggle_maximized (x, y, w, h)) (windows m) = win_id <$> windows m) as Eid by (apply update_ids; apply Hsame).
  split_and!; unfold z_order; simpl; rewrite ?Eid; try done.
  - by eapply (forall_ids (fun i => 0 < i < next_id m)).
  - rewrite update_window_all by done. apply Forall_fmap. eapply Forall_impl; [exact Hfl|]. intros u Hu. simpl in Hu |- *.
    unfold update_all. destruct (_ =? _); [|done]. by destruct (Hsame u) as [-> ->].
Qed.

Lemma restore_loop_eq saved : forall m m', restore_loop saved m = Ok m' ->
  exists ws rs, m' = set_dirty (set_windows m ws) rs /\ regeom (windows m) ws.
Proof.
  induction saved as [|[id g] saved IH]; intros m m'; cbn [restore_loop].
  - intros [= <-]. exists (windows m), (dirty_rects m). split; [by destruct m|apply regeom_refl].
  - destruct (mark_dirty _ _) as [m1|[]|] eqn:E1; [|done..]. apply mark_dirty_eq in E1 as [rs ->].
    intros (ws & rs' & -> & Hre)%IH. exists ws, rs'. split; [done|]. eapply regeom_trans; [apply regeom_update|exact Hre].
Qed.

Lemma toggle_tiling_inv m m' : wm_inv m -> toggle_tiling m = Ok m' -> wm_inv m'.
Proof.
  intros Hm. unfold toggle_tiling. destruct (tiling_mode m) eqn:Et.
  - intros [= <-]. destruct Hm as (Hn & Hnd & Hid & Hfl & Hin & Ht). by split_and!.
  - unfold restore_floating. destruct (restore_loop _ _) as [m1|[]|] eqn:E; [|done..]. apply restore_loop_eq in E as (ws & rs & -> & Hre).
    intros [= <-]. by apply (inv_regeom m ws Floating [] rs).
Qed.

Lemma wm_step_inv m e m' : wm_inv m -> wm_step m e = Ok m' -> wm_inv m'.
Proof.
  intros Hm. destruct e as [x y w h c [t|]|id|id|x y|x y| |id|id|id x y w h| |w h|w h|]; cbn [wm_step].
  - unfold create_titled_window. destruct (create_window_impl _ _) as [[i m1]|[]|] eqn:E; [|done..]. intros [= <-]. by eapply create_inv in E.
  - unfold create_window. destruct (create_window_impl _ _) as [[i m1]|[]|] eqn:E; [|done..]. intros [= <-]. by eapply create_inv in E.
  - destruct (remove_window m id) as [[b m1]|[]|] eqn:E; [|done..]. intros [= <-]. by eapply remove_inv.
  - by apply raise_inv.
  - by apply mouse_down_inv.
  - by apply mouse_move_inv.
  - by intros [= <-].
  - destruct (minimize_window m id) as [[b m1]|[]|] eqn:E; [|done..]. intros [= <-]. by eapply minimize_inv.
  - destruct (restore_window m id) as [[b m1]|[]|] eqn:E; [|done..]. intros [= <-]. by eapply restore_inv.
  - destruct (toggle_maximize m id x y w h) as [[b m1]|[]|] eqn:E; [|done..]. intros [= <-]. by eapply maximize_inv.
  - by apply toggle_tiling_inv.
  - by apply retile_inv.
  - by intros [= <-].
  - by intros [= <-].
Qed.

Lemma wm_run_inv es : forall m m', wm_inv m -> wm_run m es = Ok m' -> wm_inv m'.
Proof.
  induction es as [|e es IH]; intros m m' Hm; cbn [wm_run]; [by intros [= <-]|].
  destruct (wm_step m e) as [m1|[]|] eqn:E; [|done..]. apply IH. by eapply wm_step_inv.
Qed.

Lemma wm_new_inv : wm_inv wm_new.
Proof. split_and!; try done; constructor. Qed.

(** ** Tiling *)
(** The place of the [k]-th stacked window. *)
Definition stack_place (left top width each_h gap k : Z) : geometry := (left, top + k * (each_h + gap), width, each_h).
Definition place_in (place : Z -> geometry) (ids : list Z) (i : Z) (w : Window) : Window :=
  match position (Z.eqb (win_id w)) ids with Some k => set_geometry (place (i + Z.of_nat k)) w | None => w end.

Lemma win_id_set g w : win_id (set_geometry g w) = win_id w.
Proof. by destruct g as [[[]]]. Qed.
Lemma win_minimized_set g w : win_minimized (set_geometry g w) = win_minimized w.
Proof. by destruct g as [[[]]]. Qed.
Lemma set_geometry_twice g g' w : set_geometry g (set_geometry g' w) = set_geometry g w.
Proof. by destruct g as [[[]]], g' as [[[]]]. Qed.

Lemma stack_loop_places left top width each_h gap ids : forall i ws,
  NoDup (win_id <$> ws) -> NoDup ids -> 0 <= i -> 0 <= each_h -> 0 <= gap -> i32_range top ->
  (i + zlen ids) * (each_h + gap) + Z.abs top + gap + each_h < 2 ^ 31 ->
  stack_loop left top width each_h gap i ids ws = Ok (place_in (stack_place left top width each_h gap) ids i <$> ws).
Proof.
  induction ids as [|id ids IH]; intros i ws Hnd Hni Hi He Hg Ht Hb; cbn [stack_loop].
  - f_equal. by rewrite fmap_same.
  - apply NoDup_cons in Hni as [Hid Hni]. rewrite zlen_cons in Hb. pose proof (zlen_nonneg ids).
    assert (0 <= i * (each_h + gap) < 2 ^ 31) by nia. unfold i32_range in Ht.
    rewrite checked_u32_ok by (unfold u32_range, u32_max; nia). rewrite checked_u32_ok by (unfold u32_range, u32_max; lia).
    rewrite u32_as_i32_small by lia. rewrite checked_i32_ok by (unfold i32_range; nia).
    rewrite update_window_all by done. rewrite IH; try done; [|by rewrite <- (update_window_all id), update_ids; [|intros; apply win_id_set|]|lia|].
    2:{ nia. }
    f_equal. rewrite <- list_fmap_compose. apply list_fmap_ext. intros ? w _. unfold compose, update_all, place_in.
    destruct (Z.eqb_spec (win_id w) id) as [<-|Hne].
    + rewrite win_id_set. cbn [position]. rewrite Z.eqb_refl. replace (i + Z.of_nat 0) with i by lia.
      destruct (position (Z.eqb (win_id w)) ids) as [k|] eqn:Ek; [|done]. exfalso. apply position_Some in Ek as (x & Hx & E%Z.eqb_eq & _).
      apply Hid. subst x. by eapply list_elem_of_lookup_2.
    + cbn [position]. rewrite (proj2 (Z.eqb_neq _ _)) by done. destruct (position _ ids) as [k|]; [|done]. simpl.
      f_equal. f_equal. lia.
Qed.

(** The rectangle of a window, without its decorations. *)
Definition apart (a b : Window) : Prop :=
  win_x a + win_width a <= win_x b \/ win_x b + win_width b <= win_x a \/ win_y a + win_height a <= win_y b \/ win_y b + win_height b <= win_y a.
Definition inside (ww wh : Z) (w : Window) : Prop :=
  4 <= win_x w /\ 4 <= win_y w /\ win_x w + win_width w <= ww - 4 /\ win_y w + win_height w <= wh - 4 /\ 0 <= win_width w /\ 0 <= win_height w.

(** The layout of [n] stacked windows in a work area. *)
Definition master_width (ww : Z) : Z := (ww - 8) * 3 / 5.
Definition stack_height (wh n : Z) : Z := ((wh - 8) - 4 * (n - 1)) / n.
Definition master_place (ww wh : Z) : geometry := (4, 4, master_width ww, wh - 8).
Definition side_place (ww wh n k : Z) : geometry :=
  stack_place (8 + master_width ww) 4 (ww - 8 - master_width ww - 4) (stack_height wh n) 4 k.

(** The arrangement as one function on windows. *)
Definition arrange (ww wh mid : Z) (stack : list Z) (w : Window) : Window :=
  if win_id w =? mid then set_geometry (master_place ww wh) w
  else place_in (side_place ww wh (zlen stack)) stack 0 w.

Lemma retile_arrange m ww wh mid : wm_inv m -> tiling_mode m = MasterStack -> last (visible_ids (windows m)) = Some mid ->
  16 <= ww < 2 ^ 29 -> 8 + 4 * zlen (visible_ids (windows m)) <= wh < 2 ^ 29 ->
  let stack := filter (fun id => id <> mid) (visible_ids (windows m)) in
  retile m ww wh = Ok (set_dirty (set_windows (set_tiling m MasterStack
      (save_positions (windows m) (visible_ids (windows m)) (floating_restore m))) (arrange ww wh mid stack <$> windows m))
    (dirty_rects m ++ [mkRect 4 4 (ww - 8) (wh - 8)])).
Proof.
  intros Hm Ht Hl Hww Hwh stack. destruct Hm as (_ & Hnd & _). unfold retile. rewrite bool_decide_true by done. cbn [negb]. rewrite Hl.
  pose proof (zlen_nonneg (visible_ids (windows m))). cbv zeta. fold stack. unfold u32_saturating_sub. change (4 * 2) with 8.
  rewrite (Z.max_l (ww - 8)), (Z.max_l (wh - 8)) by lia.
  assert (0 <= master_width ww <= ww - 8 - 4) as Hmw by (unfold master_width; Z.to_euclidean_division_equations; lia).
  rewrite (checked_u32_ok ((ww - 8) * 3)) by (unfold u32_range, u32_max; lia). fold (master_width ww).
  rewrite (checked_u32_ok (ww - 8 - master_width ww)) by (unfold u32_range, u32_max; lia).
  rewrite (checked_u32_ok (ww - 8 - master_width ww - 4)) by (unfold u32_range, u32_max; lia).
  rewrite u32_as_i32_small by lia. rewrite (checked_i32_ok (4 + master_width ww)) by (unfold i32_range; lia).
  rewrite (checked_i32_ok (4 + master_width ww + 4)) by (unfold i32_range; lia).
  replace (4 + master_width ww + 4) with (8 + master_width ww) by lia. cbn [windows set_tiling]. rewrite Ht. unfold z_order in Hnd. rewrite update_window_all by done.
  set (ws1 := update_all mid _ <$> windows m).
  assert (NoDup (win_id <$> ws1)) as Hnd1.
  { unfold ws1. rewrite <- update_window_all by done. by rewrite update_ids by (intros; apply win_id_set). }
  assert (NoDup stack) as Hns.
  { apply NoDup_filter. unfold visible_ids. eapply sublist_NoDup; [exact Hnd|]. apply fmap_sublist, sublist_filter. }
  assert (mid ∉ stack) as Hmid by (intros [? _]%list_elem_of_filter; done).
  assert (zlen stack <= zlen (visible_ids (windows m))) as Hzs by (unfold zlen, stack; pose proof (length_filter (fun id => id <> mid) (visible_ids (windows m))); lia).
  assert (arrange ww wh mid stack <$> windows m = place_in (side_place ww wh (zlen stack)) stack 0 <$> ws1) as ->.
  { unfold ws1. rewrite <- list_fmap_compose. apply list_fmap_ext. intros ? w _. unfold compose, arrange, update_all.
    destruct (Z.eqb_spec (win_id w) mid) as [E|]; [|done]. unfold place_in. rewrite win_id_set, E.
    destruct (position (Z.eqb mid) stack) as [k|] eqn:Ek; [|done]. apply position_Some in Ek as (x & Hx & Ex%Z.eqb_eq & _).
    exfalso. apply Hmid. subst x. by eapply list_elem_of_lookup_2. }
  destruct (bool_decide_reflect (stack = [])) as [E|Hne].
  { do 2 f_equal. rewrite E. unfold place_in. cbn [position]. f_equal. by rewrite fmap_same. }
  assert (1 <= zlen stack) as Hn1 by (destruct stack; [done|]; rewrite zlen_cons; pose proof (zlen_nonneg stack); lia).
  rewrite (Z.max_l (zlen stack - 1)) by lia. rewrite checked_u32_ok by (unfold u32_range, u32_max; lia).
  rewrite Z.max_l by lia. fold (stack_height wh (zlen stack)).
  assert (0 <= stack_height wh (zlen stack) /\ zlen stack * stack_height wh (zlen stack) <= wh) as [Hsh0 Hsh].
  { unfold stack_height. split; [apply Z.div_pos; lia|]. pose proof (Z.mul_div_le (wh - 8 - 4 * (zlen stack - 1)) (zlen stack)). lia. }
  rewrite stack_loop_places; try done.
  replace (Z.abs 4) with 4 by lia. rewrite Z.add_0_l, Z.mul_add_distr_l.
  assert (stack_height wh (zlen stack) <= wh) by nia. lia.
Qed.

Lemma same_window ws a b : NoDup (win_id <$> ws) -> a ∈ ws -> b ∈ ws -> win_id a = win_id b -> a = b.
Proof.
  intros Hnd [i Hi]%list_elem_of_lookup [j Hj]%list_elem_of_lookup E.
  assert (i = j) as ->; [|congruence]. apply (NoDup_lookup (win_id <$> ws) i j (win_id a)); [done|..]; rewrite list_lookup_fmap, ?Hi, ?Hj; [done|by rewrite E].
Qed.

Lemma visible_iff ws w : NoDup (win_id <$> ws) -> w ∈ ws -> win_id w ∈ visible_ids ws <-> win_minimized w = false.
Proof.
  intros Hnd Hw. unfold visible_ids. rewrite list_elem_of_fmap. split.
  - intros (v & E & [Hv Hin]%list_elem_of_filter). by rewrite (same_window ws w v).
  - intros Hm. exists w. split; [done|]. by apply list_elem_of_filter.
Qed.

(** Every visible window has its place; the others are where they were. *)
Lemma arrange_place ws mid ww wh w : NoDup (win_id <$> ws) -> last (visible_ids ws) = Some mid -> w ∈ ws ->
  let stack := filter (fun id => id <> mid) (visible_ids ws) in
  if win_minimized w then arrange ww wh mid stack w = w
  else (win_id w = mid /\ arrange ww wh mid stack w = set_geometry (master_place ww wh) w)
       \/ exists k, (k < length stack)%nat /\ stack !! k = Some (win_id w)
          /\ arrange ww wh mid stack w = set_geometry (side_place ww wh (zlen stack) (Z.of_nat k)) w /\ win_id w <> mid.
Proof.
  intros Hnd Hl Hw stack. pose proof (visible_iff ws w Hnd Hw) as Hvis. apply last_Some_elem_of in Hl. unfold arrange, place_in.
  destruct (win_minimized w) eqn:Em.
  - destruct (Z.eqb_spec (win_id w) mid) as [E|Hne]; [subst mid; by apply Hvis in Hl|].
    destruct (position _ stack) as [k|] eqn:Ek; [|done]. apply position_Some in Ek as (x & Hx & <-%Z.eqb_eq & _).
    apply list_elem_of_lookup_2, list_elem_of_filter in Hx as [_ Hx]. by apply Hvis in Hx.
  - destruct (Z.eqb_spec (win_id w) mid) as [E|Hne]; [by left|right].
    assert (win_id w ∈ stack) as [i Hi]%list_elem_of_lookup by (apply list_elem_of_filter; split; [done|by apply Hvis]).
    destruct (position_complete (Z.eqb (win_id w)) stack i (win_id w) Hi (Z.eqb_refl _)) as [k Ek]. rewrite Ek.
    apply position_Some in Ek as (x & Hx & <-%Z.eqb_eq & _). exists k. split_and!; try done. by apply lookup_lt_Some in Hx.
Qed.

Lemma side_place_inside ww wh n k w : 16 <= ww -> 1 <= n -> 8 + 4 * n <= wh -> 0 <= k < n ->
  inside ww wh (set_geometry (side_place ww wh n k) w) /\ inside ww wh (set_geometry (master_place ww wh) w).
Proof.
  intros Hww Hn Hwh Hk.
  assert (0 <= master_width ww <= ww - 8 - 4) as Hmw by (unfold master_width; Z.to_euclidean_division_equations; lia).
  assert (0 <= stack_height wh n) as H0 by (apply Z.div_pos; lia).
  assert (n * stack_height wh n <= wh - 8 - 4 * (n - 1)) as H1 by (apply Z.mul_div_le; lia).
  unfold inside, set_geometry, side_place, stack_place, master_place. simpl. split_and!; try lia. nia.
Qed.

(** Tiling lays the visible windows out without overlap inside the work area, with a margin of
    four pixels, and changes nothing else: windows keep their identity, order, focus and
    content, and minimised ones also their place. *)
Theorem retile_correct (m : WindowManager) (ww wh : Z) :
  wm_inv m -> tiling_mode m = MasterStack -> 16 <= ww < 2 ^ 29 -> 8 + 4 * zlen (visible_ids (windows m)) <= wh < 2 ^ 29 ->
  exists m', retile m ww wh = Ok m' /\ regeom (windows m) (windows m') /\ focused m' = focused m /\ wm_inv m'
  /\ (forall w, w ∈ windows m' -> win_minimized w = true -> w ∈ windows m)
  /\ (forall w, w ∈ windows m' -> win_minimized w = false -> inside ww wh w)
  /\ (forall a b, a ∈ windows m' -> b ∈ windows m' -> win_minimized a = false -> win_minimized b = false -> win_id a <> win_id b -> apart a b).
Proof.
  intros Hm Ht Hww Hwh. pose proof Hm as (_ & Hnd & _). unfold z_order in Hnd.
  destruct (last (visible_ids (windows m))) as [mid|] eqn:El.
  2:{ exists m. assert (visible_ids (windows m) = []) as Ev by (by apply last_None in El).
      assert (Hno : forall w, w ∈ windows m -> win_minimized w = true).
      { intros w Hw. destruct (win_minimized w) eqn:E; [done|]. apply (visible_iff _ _ Hnd Hw) in E. rewrite Ev in E. by apply elem_of_nil in E. }
      unfold retile. rewrite bool_decide_true, El by done. split_and!; try done; [apply regeom_refl|intros w Hw; by rewrite Hno|].
      intros a b Ha _ E. by rewrite Hno in E. }
  pose proof (retile_arrange m ww wh mid Hm Ht El Hww Hwh) as E. cbv zeta in E. set (stack := filter _ _) in E.
  eexists. split; [exact E|]. cbn [windows set_dirty set_windows focused set_tiling].
  assert (zlen stack <= zlen (visible_ids (windows m))) as Hzs
    by (unfold zlen, stack; pose proof (length_filter (fun id => id <> mid) (visible_ids (windows m))); lia).
  assert (Hplace := fun w => arrange_place (windows m) mid ww wh w Hnd El). cbv zeta in Hplace. fold stack in Hplace.
  assert (regeom (windows m) (arrange ww wh mid stack <$> windows m)) as Hre.
  { apply Forall2_fmap_r, Forall_Forall2_diag, Forall_forall. intros w Hw. specialize (Hplace w Hw). destruct (win_minimized w).
    - exists (win_geometry w). by rewrite set_geometry_same.
    - destruct Hplace as [[_ E2]|(k & _ & _ & E2 & _)]; eexists; exact E2. }
  split_and!; [done|done|by apply retile_inv in E|..].
  - intros w (v & -> & Hv)%list_elem_of_fmap Hmin. specialize (Hplace v Hv). destruct (win_minimized v) eqn:Ev; [by rewrite Hplace|].
    destruct Hplace as [[_ E2]|(k & _ & _ & E2 & _)]; rewrite E2, win_minimized_set in Hmin; congruence.
  - intros w (v & -> & Hv)%list_elem_of_fmap Hmin. specialize (Hplace v Hv). destruct (win_minimized v) eqn:Ev; [congruence|].
    pose proof (zlen_nonneg stack). destruct Hplace as [[_ ->]|(k & Hk & _ & -> & _)].
    + unfold inside, master_place, master_width. simpl. Z.to_euclidean_division_equations. lia.
    + apply side_place_inside; unfold zlen in *; lia.
  - intros a b (va & -> & Ha)%list_elem_of_fmap (vb & -> & Hb)%list_elem_of_fmap Hma Hmb Hne.
    pose proof (Hplace va Ha) as Pa. pose proof (Hplace vb Hb) as Pb.
    destruct (win_minimized va) eqn:Ea; [congruence|]. destruct (win_minimized vb) eqn:Eb; [congruence|].
    destruct Pa as [[Ia Pa]|(k & Hk & Ik & Pa & _)], Pb as [[Ib Pb]|(l & Hlt & Il & Pb & _)]; rewrite Pa, Pb in *; rewrite !win_id_set in Hne.
    + congruence.
    + unfold apart, master_place, side_place, stack_place. simpl. lia.
    + unfold apart, master_place, side_place, stack_place. simpl. lia.
    + assert (k <> l) by (intros ->; congruence). unfold apart, side_place, stack_place. simpl.
      assert (0 <= stack_height wh (zlen stack)) by (apply Z.div_pos; unfold zlen in *; lia). nia.
Qed.

(** ** Saved positions *)
Fixpoint saved_at (saved : list (Z * geometry)) (id : Z) : option geometry :=
  match saved with [] => None | (k, g) :: saved => if k =? id then Some g else saved_at saved id end.

Lemma saved_at_below saved id : Forall (Z.lt id) (fst <$> saved) -> saved_at saved id = None.
Proof.
  induction saved as [|[k g] saved IH]; [done|]. cbn [fmap list_fmap]. intros [Hk Hf]%Forall_cons. simpl in Hk |- *.
  rewrite (proj2 (Z.eqb_neq _ _)) by lia. by apply IH.
Qed.

Lemma or_insert_keys id g saved (P : Z -> Prop) : P id -> Forall P (fst <$> saved) -> Forall P (fst <$> or_insert id g saved).
Proof.
  intros Hid. induction saved as [|[k v] saved IH]; simpl; intros Hs; [by constructor|]. apply Forall_cons in Hs as [Hk Hs].
  destruct (id <? k); [by repeat constructor|]. destruct (id =? k); constructor; try done. by apply IH.
Qed.

Lemma or_insert_spec id g saved : StronglySorted Z.lt (fst <$> saved) ->
  StronglySorted Z.lt (fst <$> or_insert id g saved)
  /\ forall i, saved_at (or_insert id g saved) i = if i =? id then Some (default g (saved_at saved id)) else saved_at saved i.
Proof.
  induction saved as [|[k v] saved IH]; simpl; intros Hs.
  - split; [by repeat constructor|]. intros i. by rewrite Z.eqb_sym.
  - apply StronglySorted_inv in Hs as [Hs Hk]. destruct (Z.ltb_spec id k).
    + split; [constructor; [by constructor|]; constructor; [done|]; eapply Forall_impl; [exact Hk|]; simpl; lia|].
      intros i. simpl. rewrite (Z.eqb_sym id i). destruct (Z.eqb_spec i id) as [->|]; [|done].
      rewrite (proj2 (Z.eqb_neq k id)) by lia. rewrite saved_at_below; [done|]. eapply Forall_impl; [exact Hk|]. simpl. lia.
    + destruct (Z.eqb_spec id k) as [->|Hne]; simpl.
      * split; [by constructor|]. intros i. rewrite Z.eqb_refl, (Z.eqb_sym k i). by destruct (i =? k).
      * destruct (IH Hs) as [Hs' Hat]. split; [constructor; [done|]; apply or_insert_keys; [lia|done]|].
        intros i. rewrite Hat. rewrite (proj2 (Z.eqb_neq k id)) by lia. destruct (Z.eqb_spec k i), (Z.eqb_spec i id); done || lia.
Qed.

(** Every listed window is saved once, with the position it has now unless an older one is kept. *)
Lemma save_positions_spec ws ids : forall saved, StronglySorted Z.lt (fst <$> saved) ->
  StronglySorted Z.lt (fst <$> save_positions ws ids saved)
  /\ forall i, saved_at (save_positions ws ids saved) i =
       match saved_at saved i with
       | Some g => Some g
       | None => if bool_decide (i ∈ ids) then Some (match find_window i ws with Some w => win_geometry w | None => (0, 0, 80, 40) end) else None
       end.
Proof.
  unfold save_positions. induction ids as [|id ids IH]; intros saved Hs; cbn [foldl].
  - split; [done|]. intros i. by destruct (saved_at saved i).
  - destruct (or_insert_spec id (match find_window id ws with Some w => win_geometry w | None => (0, 0, 80, 40) end) saved Hs) as [Hs1 H1].
    destruct (IH _ Hs1) as [Hs2 H2]. split; [done|]. intros i. rewrite H2, H1.
    destruct (Z.eqb_spec i id) as [->|Hne].
    + destruct (saved_at saved id); [done|]. simpl. by rewrite bool_decide_true by apply list_elem_of_here.
    + destruct (saved_at saved i); [done|]. by rewrite (bool_decide_ext (i ∈ id :: ids) (i ∈ ids)) by (rewrite elem_of_cons; naive_solver).
Qed.

Definition small_geometry (g : geometry) : Prop := let '(_, _, w, h) := g in 0 <= w < 2 ^ 31 /\ 0 <= h < 2 ^ 31.
Lemma window_dirty_rect_ok w : small_geometry (win_geometry w) -> exists r, window_dirty_rect w = Ok r.
Proof.
  intros [Hw Hh]. unfold window_dirty_rect, BORDER, TITLE_BAR_H. change (2 * 2) with 4.
  rewrite !checked_u32_ok by (unfold u32_range, u32_max; lia). by eexists.
Qed.

Definition put_back (saved : list (Z * geometry)) (w : Window) : Window :=
  match saved_at saved (win_id w) with Some g => set_geometry g w | None => w end.

Lemma restore_loop_puts_back saved : forall m, NoDup (win_id <$> windows m) -> StronglySorted Z.lt (fst <$> saved) ->
  Forall (fun kg => small_geometry kg.2) saved ->
  exists rs, restore_loop saved m = Ok (set_dirty (set_windows m (put_back saved <$> windows m)) rs).
Proof.
  induction saved as [|[id g] saved IH]; intros m Hnd Hs Hsm; cbn [restore_loop].
  - exists (dirty_rects m). f_equal. rewrite fmap_same by done. by destruct m.
  - apply StronglySorted_inv in Hs as [Hs Hk]. apply Forall_cons in Hsm as [Hg Hsm].
    set (m1 := set_windows m _).
    assert (exists rs, mark_dirty id m1 = Ok (set_dirty m1 rs)) as [rs ->].
    { unfold mark_dirty. destruct (find_window id (windows m1)) as [w|] eqn:Ew; [|exists (dirty_rects m1); by destruct m].
      apply find_window_Some in Ew as [Hw Hid]. unfold m1 in Hw. simpl in Hw. rewrite update_window_all in Hw by done.
      apply list_elem_of_fmap in Hw as (v & -> & Hv). unfold update_all in *. destruct (Z.eqb_spec (win_id v) id); [|done].
      destruct (window_dirty_rect_ok (set_geometry g v)) as [r ->]; [by destruct g as [[[]]]|]. by eexists. }
    destruct (IH (set_dirty m1 rs)) as [rs' ->]; [simpl; by rewrite update_ids by (intros; apply win_id_set)|done|done|].
    assert (put_back saved <$> windows m1 = put_back ((id, g) :: saved) <$> windows m) as Ew; [|exists rs'; cbn [windows set_dirty]; by rewrite Ew].
    unfold m1. cbn [windows set_windows]. rewrite update_window_all by done. rewrite <- list_fmap_compose. apply list_fmap_ext. intros ? w _.
    unfold compose, update_all, put_back. cbn [saved_at]. rewrite (Z.eqb_sym id). destruct (Z.eqb_spec (win_id w) id) as [E|]; [|done].
    rewrite win_id_set, E, saved_at_below by done. done.
Qed.

Lemma saved_at_elem saved i g : StronglySorted Z.lt (fst <$> saved) -> (i, g) ∈ saved -> saved_at saved i = Some g.
Proof.
  induction saved as [|[k v] l IH]; intros Hs Hg; [by apply elem_of_nil in Hg|]. simpl in Hs |- *.
  apply StronglySorted_inv in Hs as [Hs Hk]. apply elem_of_cons in Hg as [[= -> ->]|Hg]; [by rewrite Z.eqb_refl|].
  rewrite (proj2 (Z.eqb_neq _ _)); [by apply IH|]. rewrite Forall_forall in Hk.
  assert (i ∈ l.*1) as Hi by (apply list_elem_of_fmap; by exists (i, g)). specialize (Hk i Hi). lia.
Qed.

(** What tiling saves puts every window back. *)
Lemma retile_saves m ww wh : wm_inv m -> tiling_mode m = MasterStack -> floating_restore m = [] ->
  Forall (fun w => small_geometry (win_geometry w)) (windows m) ->
  16 <= ww < 2 ^ 29 -> 8 + 4 * zlen (visible_ids (windows m)) <= wh < 2 ^ 29 ->
  exists saved ws rs, retile m ww wh = Ok (set_dirty (set_windows (set_tiling m MasterStack saved) ws) rs)
  /\ win_id <$> ws = win_id <$> windows m /\ StronglySorted Z.lt (fst <$> saved)
  /\ Forall (fun kg => small_geometry kg.2) saved /\ put_back saved <$> ws = windows m.
Proof.
  intros Hm Ht Hfl Hsm Hww Hwh. pose proof Hm as (_ & Hnd & _). unfold z_order in Hnd.
  destruct (last (visible_ids (windows m))) as [mid|] eqn:El.
  2:{ exists [], (windows m), (dirty_rects m). split_and!; try done; [|constructor|].
      { unfold retile. rewrite bool_decide_true, El by done. rewrite <- Hfl, <- Ht at 1. by destruct m. }
      by apply fmap_same. }
  eexists _, _, _. split; [apply (retile_arrange m ww wh mid Hm Ht El Hww Hwh)|].
  rewrite Hfl. set (stack := filter _ _).
  destruct (save_positions_spec (windows m) (visible_ids (windows m)) []) as [Hs Hat]; [constructor|].
  assert (Hplace := fun w => arrange_place (windows m) mid ww wh w Hnd El). cbv zeta in Hplace. fold stack in Hplace.
  assert (Harr : forall w, w ∈ windows m -> exists g, arrange ww wh mid stack w = set_geometry g w).
  { intros w Hw. specialize (Hplace w Hw). destruct (win_minimized w); [exists (win_geometry w); by rewrite Hplace, set_geometry_same|].
    destruct Hplace as [[_ ->]|(k & _ & _ & -> & _)]; by eexists. }
  split_and!; [|done|..].
  - rewrite <- list_fmap_compose. apply list_fmap_ext. intros i w Hw%list_elem_of_lookup_2. destruct (Harr w Hw) as [g E].
    unfold compose. rewrite E. apply win_id_set.
  - apply Forall_forall. intros [i g] Hg.
    pose proof (saved_at_elem _ _ _ Hs Hg) as E.
    rewrite Hat in E. simpl in E. case_bool_decide; [|done]. injection E as <-.
    destruct (find_window i (windows m)) as [w|] eqn:Ew; [|simpl; lia]. apply find_window_Some in Ew as [Hw _].
    rewrite Forall_forall in Hsm. by apply Hsm.
  - rewrite <- list_fmap_compose. apply fmap_same. intros w Hw.
    unfold compose, put_back. destruct (Harr w Hw) as [g E]. rewrite E, win_id_set, Hat. simpl.
    destruct (win_minimized w) eqn:Emin.
    + rewrite bool_decide_false; [rewrite <- E; specialize (Hplace w Hw); by rewrite Emin in Hplace|].
      intros Hv. apply visible_iff in Hv; [congruence|done|done].
    + rewrite bool_decide_true by (by apply visible_iff). destruct (find_window (win_id w) (windows m)) as [v|] eqn:Ev.
      * apply find_window_Some in Ev as [Hv Ev]. rewrite (same_window _ v w Hnd Hv Hw Ev). by rewrite set_geometry_twice, set_geometry_same.
      * exfalso. apply find_window_None in Ev. apply Ev. apply list_elem_of_fmap. by exists w.
Qed.

(** Tiling the windows of a floating desktop and going back to floating puts every window back
    where it was: the two toggles restore the list of windows exactly. *)
Theorem tiling_roundtrip (m : WindowManager) (ww wh : Z) :
  wm_inv m -> tiling_mode m = Floating -> Forall (fun w => small_geometry (win_geometry w)) (windows m) ->
  16 <= ww < 2 ^ 29 -> 8 + 4 * zlen (visible_ids (windows m)) <= wh < 2 ^ 29 ->
  exists m', wm_run m [EvToggleTiling; EvRetile ww wh; EvToggleTiling; EvRetile ww wh] = Ok m'
  /\ windows m' = windows m /\ focused m' = focused m /\ tiling_mode m' = Floating /\ floating_restore m' = [] /\ drag m' = drag m.
Proof.
  intros Hm Ht Hsm Hww Hwh. pose proof Hm as (_ & Hnd & _ & _ & _ & Hfl). specialize (Hfl Ht). unfold z_order in Hnd.
  cbn [wm_run wm_step]. unfold toggle_tiling at 1. rewrite Ht, Hfl. set (m1 := set_tiling m MasterStack []).
  assert (wm_inv m1) as Hm1 by (apply (toggle_tiling_inv m); [done|]; unfold toggle_tiling; by rewrite Ht, Hfl).
  destruct (retile_saves m1 ww wh Hm1 eq_refl eq_refl Hsm Hww Hwh) as (saved & ws & rs & -> & Hids & Hsort & Hsg & Hback).
  unfold toggle_tiling. cbn [tiling_mode set_dirty set_windows set_tiling]. unfold restore_floating.
  cbn [floating_restore set_dirty set_windows set_tiling].
  destruct (restore_loop_puts_back saved (set_tiling (set_dirty (set_windows (set_tiling m1 MasterStack saved) ws) rs) Floating saved)) as [rs' E];
    [simpl; by rewrite Hids|done|done|].
  rewrite E. eexists. split; [done|]. simpl. by rewrite Hback.
Qed.

(** ** Operations on a screen of realistic size do not panic *)
Definition near (x : Z) : Prop := - 2 ^ 29 <= x <= 2 ^ 29.
Definition win_small (w : Window) : Prop :=
  near (win_x w) /\ near (win_y w) /\ 0 <= win_width w <= 2 ^ 29 /\ 0 <= win_height w <= 2 ^ 29 /\ surface_wf (win_surface w)
  /\ forall g, win_restore w = Some g -> small_geometry g.
Definition area_small (n ww wh : Z) : Prop := 16 <= ww < 2 ^ 29 /\ 8 + 4 * n <= wh < 2 ^ 29.
Definition wm_small (m : WindowManager) : Prop :=
  Forall win_small (windows m) /\ 0 <= resize_handle m <= 2 ^ 29 /\ next_id m < u64_max
  /\ Forall (fun kg => small_geometry kg.2) (floating_restore m)
  /\ (forall ww wh, work_area m = Some (ww, wh) -> area_small (zlen (windows m) + 1) ww wh).

(** A drag to the left of or above the corner of a resized window is not covered. *)
Definition event_small (m : WindowManager) (e : wm_event) : Prop :=
  match e with
  | EvCreate x y w h _ _ => near x /\ near y /\ 0 <= w <= 2 ^ 29 /\ 0 <= h <= 2 ^ 29
  | EvMouseDown x y => near x /\ near y
  | EvMouseMove x y => near x /\ near y /\
      match drag m with
      | DragNone => True
      | Moving _ ox oy => - 2 ^ 30 <= ox <= 2 ^ 30 /\ - 2 ^ 30 <= oy <= 2 ^ 30
      | Resizing _ ox oy _ _ => near ox /\ near oy /\ ox <= x /\ oy <= y
      end
  | EvMaximize _ x y w h => 0 <= w < 2 ^ 31 /\ 0 <= h < 2 ^ 31
  | EvRetile w h => area_small (zlen (windows m)) w h
  | _ => True
  end.

Lemma win_small_dirty w : win_small w -> exists r, window_dirty_rect w = Ok r.
Proof. intros (_ & _ & ? & ? & _). apply window_dirty_rect_ok. simpl. lia. Qed.

Lemma small_update id f ws : (forall w, win_small w -> win_small (f w)) -> Forall win_small ws -> Forall win_small (update_window id f ws).
Proof.
  intros Hf. induction 1 as [|w ws Hw Hs IH]; [constructor|]. cbn [update_window]. destruct (_ =? _); constructor; try done. by apply Hf.
Qed.

Lemma mark_dirty_ok id m : Forall win_small (windows m) -> exists rs, mark_dirty id m = Ok (set_dirty m rs).
Proof.
  intros Hs. unfold mark_dirty. destruct (find_window id (windows m)) as [w|] eqn:E; [|exists (dirty_rects m); by destruct m].
  apply find_window_Some in E as [Hw _]. rewrite Forall_forall in Hs. destruct (win_small_dirty w (Hs w Hw)) as [r ->]. by eexists.
Qed.

Lemma flag_window_ok id b m : Forall win_small (windows m) ->
  exists rs, flag_window id b m = Ok (set_dirty (set_windows m (update_window id (set_focused b) (windows m))) rs).
Proof. intros Hs. apply mark_dirty_ok. simpl. by apply small_update. Qed.

Lemma visible_len ws : zlen (visible_ids ws) <= zlen ws.
Proof. unfold visible_ids, zlen. rewrite length_fmap. pose proof (length_filter (fun w => win_minimized w = false) ws). lia. Qed.

Lemma small_geometry_set g w : win_small w -> (let '(x, y, wd, h) := g in near x /\ near y /\ 0 <= wd <= 2 ^ 29 /\ 0 <= h <= 2 ^ 29) ->
  win_small (set_geometry g w).
Proof. destruct g as [[[x y] wd] h]. intros (_ & _ & _ & _ & Hs & Hr) (Hx & Hy & Hw & Hh). exact (conj Hx (conj Hy (conj Hw (conj Hh (conj Hs Hr))))). Qed.

Lemma stack_loop_ok left width each_h ids : forall i ws,
  0 <= i -> 0 <= each_h <= 2 ^ 29 -> 0 <= left <= 2 ^ 29 -> 0 <= width <= 2 ^ 29 -> Forall win_small ws ->
  (i + zlen ids) * (each_h + 4) <= 2 ^ 29 + each_h -> exists ws', stack_loop left 4 width each_h 4 i ids ws = Ok ws' /\ Forall win_small ws'.
Proof.
  induction ids as [|id ids IH]; intros i ws Hi He Hle Hwd Hs Hb; cbn [stack_loop]; [by eexists|].
  rewrite zlen_cons in Hb. pose proof (zlen_nonneg ids). assert (0 <= i * (each_h + 4) <= 2 ^ 29 - 4) by nia.
  rewrite checked_u32_ok by (unfold u32_range, u32_max; lia). rewrite checked_u32_ok by (unfold u32_range, u32_max; lia).
  rewrite u32_as_i32_small by lia. rewrite checked_i32_ok by (unfold i32_range; lia). apply IH; try done; try lia.
  apply small_update; [|done]. intros w Hw. apply small_geometry_set; [done|]. unfold near. lia.
Qed.

Lemma retile_ok m ww wh : area_small (zlen (windows m)) ww wh -> Forall win_small (windows m) ->
  exists m', retile m ww wh = Ok m' /\ Forall win_small (windows m').
Proof.
  intros [Hww Hwh] Hs. pose proof (visible_len (windows m)). unfold retile. destruct (negb _); [by eexists|].
  destruct (last (visible_ids (windows m))) as [mid|]; [|by eexists]. cbv zeta. cbn [windows set_tiling].
  pose proof (zlen_nonneg (visible_ids (windows m))). unfold u32_saturating_sub. change (4 * 2) with 8.
  rewrite (Z.max_l (ww - 8)), (Z.max_l (wh - 8)) by lia. set (mw := (ww - 8) * 3 / 5).
  assert (0 <= mw <= ww - 8 - 4) as Hmw by (unfold mw; Z.to_euclidean_division_equations; lia).
  rewrite (checked_u32_ok ((ww - 8) * 3)) by (unfold u32_range, u32_max; lia). fold mw.
  rewrite !checked_u32_ok by (unfold u32_range, u32_max; lia). rewrite u32_as_i32_small by lia.
  rewrite !checked_i32_ok by (unfold i32_range; lia). set (stack := filter _ (visible_ids _)).
  assert (Forall win_small (update_window mid (set_geometry (4, 4, mw, wh - 8)) (windows m))) as Hs1.
  { apply small_update; [|done]. intros w Hw. apply small_geometry_set; [done|]. unfold near. lia. }
  destruct (bool_decide_reflect (stack = [])) as [|Hne]; [by eexists|].
  assert (zlen stack <= zlen (visible_ids (windows m))) as Hzs
    by (unfold zlen, stack; pose proof (length_filter (fun id => id <> mid) (visible_ids (windows m))); lia).
  assert (1 <= zlen stack) as Hn1 by (destruct stack; [done|]; rewrite zlen_cons; pose proof (zlen_nonneg stack); lia).
  rewrite (Z.max_l (zlen stack - 1)) by lia. rewrite checked_u32_ok by (unfold u32_range, u32_max; lia). rewrite Z.max_l by lia.
  set (eh := (wh - 8 - 4 * (zlen stack - 1)) / zlen stack). assert (0 <= eh) as Heh by (apply Z.div_pos; lia).
  assert (zlen stack * eh <= wh - 8 - 4 * (zlen stack - 1)) as Hehn by (apply Z.mul_div_le; lia).
  destruct (stack_loop_ok (4 + mw + 4) (ww - 8 - mw - 4) eh stack 0 (update_window mid (set_geometry (4, 4, mw, wh - 8)) (windows m)))
    as (ws' & -> & Hs'); try done; try nia. by eexists.
Qed.

Lemma maybe_retile_ok m : (forall ww wh, work_area m = Some (ww, wh) -> area_small (zlen (windows m)) ww wh) -> Forall win_small (windows m) ->
  exists m', maybe_retile m = Ok m' /\ Forall win_small (windows m').
Proof.
  intros Ha Hs. unfold maybe_retile. destruct (bool_decide _); [|by eexists]. destruct (work_area m) as [[ww wh]|]; [|by eexists].
  apply retile_ok; [by apply Ha|done].
Qed.

Lemma area_mono n n' ww wh : n' <= n -> area_small n ww wh -> area_small n' ww wh.
Proof. unfold area_small. lia. Qed.

Lemma update_len id f ws : zlen (update_window id f ws) = zlen ws.
Proof. induction ws as [|w ws IH]; [done|]. cbn [update_window]. destruct (_ =? _); rewrite !zlen_cons; [done|by rewrite IH]. Qed.

Lemma raise_ok m id : wm_small m -> exists m', raise_to_top m id = Ok m' /\ Forall win_small (windows m').
Proof.
  intros (Hs & _ & _ & _ & Ha). unfold raise_to_top. destruct (find_window id (windows m)) as [w|] eqn:Ef; [|by eexists].
  destruct (find_split _ _ _ Ef) as (l1 & l2 & Ew & Hw & ->). cbn [windows set_windows].
  replace (delete (length l1) (windows m)) with (l1 ++ l2) by (rewrite Ew; clear; induction l1; simpl; congruence).
  rewrite Ew in Hs. apply Forall_app in Hs as [Hs1 [Hsw Hs2]%Forall_cons].
  assert (Forall win_small (l1 ++ l2)) as Hs by (by apply Forall_app).
  assert (exists ws rs, match focused m with
    | Some prev => if prev =? id then Ok (set_windows m (l1 ++ l2)) else flag_window prev false (set_windows m (l1 ++ l2))
    | None => Ok (set_windows m (l1 ++ l2)) end = Ok (set_dirty (set_windows m ws) rs) /\ zlen ws = zlen (l1 ++ l2) /\ Forall win_small ws) as (ws & rs & -> & Hl & Hsm).
  { destruct (focused m) as [p|]; [destruct (p =? id)|]; [by exists (l1 ++ l2), (dirty_rects m)| |by exists (l1 ++ l2), (dirty_rects m)].
    destruct (flag_window_ok p false (set_windows m (l1 ++ l2))) as [rs ->]; [done|]. eexists _, rs. split; [done|]. split; [apply update_len|by apply small_update]. }
  destruct (win_small_dirty (set_focused true w)) as [r ->]; [done|]. apply maybe_retile_ok.
  - simpl. intros ww wh E. eapply area_mono; [|by apply Ha]. rewrite Ew. rewrite !zlen_app in *. rewrite !zlen_cons, zlen_nil. lia.
  - apply Forall_app. split; [done|by apply Forall_cons].
Qed.

Lemma find_result_ok {A} (f : A -> result unit bool) l : Forall (fun x => exists b, f x = Ok b) l -> exists o, find_result f l = Ok o.
Proof. induction 1 as [|x l [b E] _ IH]; cbn [find_result]; [by eexists|]. rewrite E. destruct b; [by eexists|done]. Qed.

Ltac near_arith := unfold near, i32_range, TITLE_BAR_HEIGHT in *; lia.

Lemma hit_ok w x y : win_small w -> near x -> near y ->
  (exists b, contains w x y = Ok b) /\ (exists b, contains_title_bar w x y = Ok b)
  /\ forall h, 0 <= h <= 2 ^ 29 -> exists b, in_resize_handle h x y w = Ok b.
Proof.
  intros (Hx & Hy & Hw & Hh & _) Px Py. split_and!.
  - unfold contains. destruct (negb _); [by eexists|]. rewrite !u32_as_i32_small by lia.
    assert (0 <= (if has_title w then TITLE_BAR_HEIGHT else 0) <= 28) as Ht by (destruct (has_title w); unfold TITLE_BAR_HEIGHT; lia).
    rewrite (checked_i32_ok (win_y w + _)) by near_arith. destruct (negb _); [by eexists|].
    rewrite (checked_i32_ok (win_x w + _)) by near_arith. destruct (negb _); [by eexists|].
    rewrite checked_i32_ok by near_arith. by eexists.
  - unfold contains_title_bar. destruct (negb (has_title w)); [by eexists|]. destruct (negb _); [by eexists|].
    rewrite u32_as_i32_small by lia. rewrite (checked_i32_ok (win_x w + _)) by near_arith. destruct (negb _); [by eexists|].
    rewrite checked_i32_ok by near_arith. by eexists.
  - intros h Hh'. unfold in_resize_handle. rewrite !u32_as_i32_small by lia. rewrite !checked_i32_ok by near_arith.
    destruct (negb _); [by eexists|]. by eexists.
Qed.

Lemma unfocus_all_ok ws : Forall win_small ws -> exists p, unfocus_all ws = Ok p.
Proof.
  induction 1 as [|w ws Hw _ [[ws' rs] IH]]; cbn [unfocus_all]; [by eexists|].
  destruct (win_small_dirty (set_focused false w)) as [r ->]; [done|]. rewrite IH. by eexists.
Qed.

Lemma mouse_down_ok m x y : wm_small m -> near x -> near y -> exists m', on_mouse_down m x y = Ok m'.
Proof.
  intros Hm Hx Hy. pose proof Hm as (Hs & Hh & _). unfold on_mouse_down, resize_handle_at, window_at.
  assert (Hrev : forall f, (forall w, win_small w -> exists b : bool, f w = Ok b) -> exists o, find_result f (rev (windows m)) = Ok o).
  { intros f Hf. apply find_result_ok. apply Forall_rev. eapply Forall_impl; [exact Hs|]. done. }
  destruct (Hrev (in_resize_handle (resize_handle m) x y)) as [o ->]; [intros w Hw; by apply (hit_ok w x y)|].
  destruct o as [w|]; simpl.
  { destruct (raise_ok m (win_id w) Hm) as (m1 & -> & _). destruct (find_window _ _); by eexists. }
  destruct (Hrev (fun w => contains_title_bar w x y)) as [o ->]; [intros w Hw; by apply (hit_ok w x y)|].
  destruct o as [w0|].
  { destruct (raise_ok m (win_id w0) Hm) as (m1 & -> & Hs1). destruct (find_window (win_id w0) (windows m1)) as [w|] eqn:Ew; [|by eexists].
    apply find_window_Some in Ew as [Hw _]. rewrite Forall_forall in Hs1. destruct (Hs1 w Hw) as (Hwx & Hwy & _).
    rewrite !checked_i32_ok by near_arith. by eexists. }
  match goal with |- context [find_result ?f (rev (windows m))] => destruct (Hrev f) as [o ->] end.
  { intros w Hw. destruct (hit_ok w x y Hw Hx Hy) as ([b ->] & Ht & _). destruct b; [by eexists|done]. }
  destruct o as [w|]; simpl; [destruct (raise_ok m (win_id w) Hm) as (m1 & -> & _); by eexists|].
  destruct (unfocus_all_ok (windows m) Hs) as [[ws rs] ->]. by eexists.
Qed.

Lemma mouse_move_ok m x y : wm_small m -> event_small m (EvMouseMove x y) -> exists m', on_mouse_move m x y = Ok m'.
Proof.
  intros (Hs & _) (Hx & Hy & Hd). unfold on_mouse_move. destruct (drag m) as [|id ox oy|id ox oy ow oh]; [by eexists|..];
    unfold change_window; (destruct (find_window id (windows m)) as [w|] eqn:Ew; [|by eexists]);
    apply find_window_Some in Ew as [Hw _]; rewrite Forall_forall in Hs; specialize (Hs w Hw);
    destruct (win_small_dirty w Hs) as [r ->]; destruct Hs as (Hwx & Hwy & Hww & Hwh & Hsf & _).
  - rewrite !checked_i32_ok by near_arith.
    destruct (window_dirty_rect_ok (set_geometry (x - ox, y - oy, win_width w, win_height w) w)) as [r' ->]; [simpl; lia|]. by eexists.
  - rewrite !checked_i32_ok by near_arith. rewrite !i32_as_u32_small by (unfold near in *; lia).
    rewrite get_pixel_ok by done. set (w' := set_surface _ _).
    destruct (window_dirty_rect_ok w') as [r' ->]; [|by eexists]. unfold w', MIN_WINDOW_W, MIN_WINDOW_H, near in *. simpl. lia.
Qed.

Lemma create_ok m f : wm_small m -> win_small (f (next_id m)) -> exists p, create_window_impl m f = Ok p.
Proof.
  intros (Hs & _ & Hn & _ & Ha) Hf. unfold create_window_impl. rewrite (proj2 (Z.ltb_ge _ _)) by lia. unfold push_window. cbn [focused set_next].
  assert (exists ws rs, match focused m with Some prev => flag_window prev false (set_next m (next_id m + 1)) | None => Ok (set_next m (next_id m + 1)) end
    = Ok (set_dirty (set_windows (set_next m (next_id m + 1)) ws) rs) /\ zlen ws = zlen (windows m) /\ Forall win_small ws) as (ws & rs & -> & Hl & Hsm).
  { destruct (focused m) as [p|]; [|exists (windows m), (dirty_rects m); by split_and!].
    destruct (flag_window_ok p false (set_next m (next_id m + 1)) Hs) as [rs ->]. eexists _, rs. split; [done|].
    split; [apply update_len|by apply small_update]. }
  destruct (win_small_dirty (set_focused true (f (next_id m)))) as [r ->]; [done|].
  match goal with |- context [maybe_retile ?m'] => destruct (maybe_retile_ok m') as (m2 & -> & _) end; [| |by eexists].
  - simpl. intros ww wh E. eapply area_mono; [|by apply Ha]. rewrite zlen_app, zlen_cons, zlen_nil. lia.
  - simpl. apply Forall_app. split; [done|by apply Forall_cons].
Qed.

Lemma window_new_small id x y w h c t : near x -> near y -> 0 <= w <= 2 ^ 29 -> 0 <= h <= 2 ^ 29 ->
  win_small (match t with Some t => window_new_with_title id x y w h c t | None => window_new id x y w h c end).
Proof.
  intros. destruct t; split_and!; simpl; try done; try lia; apply surface_new_wf; unfold u32_range, u32_max; lia.
Qed.

Lemma remove_ok m id : wm_small m -> exists p, remove_window m id = Ok p.
Proof.
  intros (Hs & _ & _ & _ & Ha). unfold remove_window. destruct (mark_dirty_ok id m Hs) as [rs ->]. cbn [windows set_dirty set_windows focused].
  set (ws := filter (fun w => win_id w <> id) (windows m)). assert (Forall win_small ws) as Hws by (by apply forall_filter).
  assert (zlen ws <= zlen (windows m)) as Hl by (unfold zlen, ws; pose proof (length_filter (fun w => win_id w <> id) (windows m)); lia).
  set (m0 := set_windows (set_dirty m rs) ws). set (b := negb _).
  assert (exists m1, (if b && bool_decide (focused m = Some id) then match last ws with
      | Some w => flag_window (win_id w) true (set_focus m0 (Some (win_id w))) | None => Ok (set_focus m0 None) end else Ok m0) = Ok m1
    /\ zlen (windows m1) = zlen ws /\ Forall win_small (windows m1) /\ work_area m1 = work_area m) as (m1 & -> & Hl1 & Hs1 & Hwa).
  { destruct (b && _); [|by exists m0]. destruct (last ws) as [w|]; [|by exists (set_focus m0 None)].
    destruct (flag_window_ok (win_id w) true (set_focus m0 (Some (win_id w))) Hws) as [rs' ->].
    eexists. split; [done|]. simpl. split_and!; [apply update_len|by apply small_update|done]. }
  destruct b; [|by eexists]. destruct (maybe_retile_ok m1) as (m2 & -> & _); [|done|by eexists].
  intros ww wh E. rewrite Hwa in E. eapply area_mono; [|by apply Ha]. lia.
Qed.

Lemma minimize_ok m id : wm_small m -> exists p, minimize_window m id = Ok p.
Proof.
  intros (Hs & _ & _ & _ & Ha). unfold minimize_window. destruct (find_window id (windows m)) as [w|]; [|by eexists].
  destruct (win_minimized w); [by eexists|]. set (m0 := set_windows m _).
  assert (Forall win_small (windows m0)) as Hs0 by (by apply small_update).
  destruct (mark_dirty_ok id m0 Hs0) as [rs ->]. cbn [focused windows set_dirty].
  assert (exists m1, (if bool_decide (focused m0 = Some id) then
      match win_id <$> List.find (fun w => negb (win_minimized w) && negb (win_id w =? id)) (rev (windows m0)) with
      | Some nid => flag_window nid true (set_focus (set_dirty m0 rs) (win_id <$> List.find (fun w => negb (win_minimized w) && negb (win_id w =? id)) (rev (windows m0))))
      | None => Ok (set_focus (set_dirty m0 rs) (win_id <$> List.find (fun w => negb (win_minimized w) && negb (win_id w =? id)) (rev (windows m0)))) end
      else Ok (set_dirty m0 rs)) = Ok m1 /\ zlen (windows m1) = zlen (windows m) /\ Forall win_small (windows m1) /\ work_area m1 = work_area m)
    as (m1 & -> & Hl1 & Hs1 & Hwa).
  { assert (zlen (windows m0) = zlen (windows m)) as Hl0 by apply update_len.
    destruct (bool_decide _); [|by eexists]. destruct (List.find _ _) as [v|]; simpl; [|by eexists].
    destruct (flag_window_ok (win_id v) true (set_focus (set_dirty m0 rs) (Some (win_id v))) Hs0) as [rs' ->]. eexists. split; [done|]. simpl.
    split_and!; [rewrite update_len; done|by apply small_update|done]. }
  destruct (maybe_retile_ok m1) as (m2 & -> & _); [|done|by eexists].
  intros ww wh E. rewrite Hwa in E. eapply area_mono; [|by apply Ha]. lia.
Qed.

Lemma restore_loop_ok saved : forall m, Forall (fun kg => small_geometry kg.2) saved -> Forall (fun w => small_geometry (win_geometry w)) (windows m) ->
  exists m', restore_loop saved m = Ok m'.
Proof.
  induction saved as [|[id g] saved IH]; intros m Hsm Hs; cbn [restore_loop]; [by eexists|]. apply Forall_cons in Hsm as [Hg Hsm].
  assert (Forall (fun w => small_geometry (win_geometry w)) (update_window id (set_geometry g) (windows m))) as Hs'.
  { clear -Hg Hs. induction Hs as [|w ws Hw Hws IH]; [constructor|]. cbn [update_window]. destruct (_ =? _); constructor; try done. by destruct g as [[[]]]. }
  unfold mark_dirty. destruct (find_window id _) as [w|] eqn:Ew; [|by apply IH].
  apply find_window_Some in Ew as [Hw _]. simpl in Hw. pose proof Hs' as Hs2. rewrite Forall_forall in Hs2.
  destruct (window_dirty_rect_ok w (Hs2 w Hw)) as [r ->]. by apply IH.
Qed.

Lemma wm_step_ok m e : wm_small m -> event_small m e -> exists m', wm_step m e = Ok m'.
Proof.
  intros Hm He. pose proof Hm as (Hs & Hh & Hn & Hf & Ha).
  destruct e as [x y w h c t|id|id|x y|x y| |id|id|id x y w h| |w h|w h|]; cbn [wm_step event_small] in *.
  - destruct He as (? & ? & ? & ?). destruct t as [t|].
    + destruct (create_ok m (fun id => window_new_with_title id x y w h c t) Hm) as [[i m'] E]; [by apply (window_new_small _ x y w h c (Some t))|].
      unfold create_titled_window. rewrite E. by eexists.
    + destruct (create_ok m (fun id => window_new id x y w h c) Hm) as [[i m'] E]; [by apply (window_new_small _ x y w h c None)|].
      unfold create_window. rewrite E. by eexists.
  - destruct (remove_ok m id Hm) as [[b m'] ->]. by eexists.
  - destruct (raise_ok m id Hm) as (m' & -> & _). by eexists.
  - destruct He. by apply mouse_down_ok.
  - by apply mouse_move_ok.
  - by eexists.
  - destruct (minimize_ok m id Hm) as [[b m'] ->]. by eexists.
  - unfold restore_window. destruct (find_window id (windows m)) as [w|]; [|by eexists]. destruct (negb _); [by eexists|].
    destruct (raise_ok (set_windows m (update_window id (set_minimized false) (windows m))) id) as (m' & -> & _); [|by eexists].
    refine (conj _ (conj Hh (conj Hn (conj Hf _)))); simpl; [by apply small_update|by rewrite update_len].
  - unfold toggle_maximize. destruct (find_window id (windows m)) as [v|]; [|by eexists]. set (m0 := set_windows m _).
    assert (exists rs, mark_dirty id m0 = Ok rs) as [rs ->]; [|by eexists].
    unfold mark_dirty. destruct (find_window id (windows m0)) as [u|] eqn:Eu; [|by eexists]. apply find_window_Some in Eu as [Hu _].
    assert (Forall (fun w => small_geometry (win_geometry w)) (windows m0)) as Hs0.
    { unfold m0. simpl. clear -Hs He. induction Hs as [|z ws Hz Hws IH]; [constructor|]. cbn [update_window].
      assert (small_geometry (win_geometry z)) as Hz' by (destruct Hz as (_ & _ & ? & ? & _); simpl; lia).
      destruct (_ =? _); constructor; try done.
      - unfold toggle_maximized. destruct (win_maximized z); [|done]. destruct Hz as (_ & _ & _ & _ & _ & Hr).
        destruct (win_restore z) as [[[[]]]|]; [exact (Hr _ eq_refl)|done].
      - eapply Forall_impl; [exact Hws|]. intros w' (_ & _ & ? & ? & _). simpl. lia. }
    rewrite Forall_forall in Hs0. destruct (window_dirty_rect_ok u (Hs0 u Hu)) as [r ->]. by eexists.
  - unfold toggle_tiling, restore_floating. destruct (tiling_mode m); [by eexists|]. cbn [floating_restore set_tiling].
    destruct (restore_loop_ok (floating_restore m) (set_tiling m Floating (floating_restore m)) Hf) as [m' ->]; [|by eexists].
    simpl. eapply Forall_impl; [exact Hs|]. intros w' (_ & _ & ? & ? & _). simpl. lia.
  - destruct (retile_ok m w h He Hs) as (m' & -> & _). by eexists.
  - by eexists.
  - by eexists.
Qed.

(** C22. Whatever is created, closed, raised, dragged, minimised, maximised or tiled, in any order:
    identifiers stay distinct, the focus is always on a window of the list, and exactly that
    window carries the flag. *)
Theorem wm_focus_invariant (es : list wm_event) (m : WindowManager) : wm_run wm_new es = Ok m -> wm_inv m.
Proof. apply wm_run_inv, wm_new_inv. Qed.

(** No operation panics while positions and sizes stay below [2 ^ 29], the work area has room for
    the windows, and the pointer does not leave a resized window to the left or above. *)
Theorem wm_step_total (m : WindowManager) (e : wm_event) :
  wm_inv m -> wm_small m -> event_small m e -> exists m', wm_step m e = Ok m' /\ wm_inv m'.
Proof. intros Hi Hm He. destruct (wm_step_ok m e Hm He) as [m' E]. exists m'. split; [done|]. by eapply wm_step_inv. Qed.

(** ** Departures *)

(** Resizing takes the distance from the corner as unsigned: a pointer one pixel left of the window
    makes the new width [2 ^ 32 - 1], and marking the area of that window overflows. *)
Theorem resize_left_panics :
  wm_run wm_new [EvCreate 100 100 200 200 0 None; EvMouseDown 295 295; EvMouseMove 99 200] = Panic.
Proof. vm_compute. reflexivity. Qed.

(** Five pixels left of the window, the width is [2 ^ 32 - 5]. *)
Theorem resize_left_huge :
  exists m, wm_run wm_new [EvCreate 100 100 90 90 0 None; EvMouseDown 185 185; EvMouseMove 95 185] = Ok m
  /\ (win_width <$> windows m) = [2 ^ 32 - 5].
Proof. eexists. split; [vm_compute; reflexivity|reflexivity]. Qed.

(** Closing the focused window gives the focus to the next one in the stacking order, minimised or not. *)
Theorem close_focuses_minimized :
  exists m w, wm_run wm_new [EvCreate 0 0 10 10 0 None; EvCreate 0 0 10 10 0 None; EvMinimize 1; EvRemove 2] = Ok m
  /\ windows m = [w] /\ win_minimized w = true /\ focused m = Some (win_id w).
Proof. eexists _, _. split; [vm_compute; reflexivity|]. by split_and!. Qed.

(** A minimised window still takes the click where it is hidden. *)
Theorem click_hits_minimized :
  exists m, wm_run wm_new [EvCreate 0 0 50 50 0 None; EvMinimize 1] = Ok m /\ window_at m 10 10 = Ok (Some 1).
Proof. eexists. split; [vm_compute; reflexivity|reflexivity]. Qed.

(** The rows of a window with a title bar that the compositor draws. *)
Definition drawn_rows (w : Window) : Z * Z := (win_y w - WINDOW_BORDER, win_y w + TITLE_BAR_HEIGHT + win_height w + WINDOW_BORDER).

(** The dirty rectangle of a window uses a title bar of 20 and a border of 2 pixels where the
    compositor draws 28 and 1: its last rows are never marked. *)
Theorem dirty_rect_misses_rows (w : Window) : win_small w -> 2 <= win_y w ->
  exists r, window_dirty_rect w = Ok r /\ r_y r + r_height r = (drawn_rows w).2 - 7.
Proof.
  intros (Hx & Hy & Hw & Hh & _) Hy2. unfold window_dirty_rect, BORDER, TITLE_BAR_H. change (2 * 2) with 4.
  rewrite !checked_u32_ok by (unfold u32_range, u32_max; lia). eexists. split; [done|]. unfold drawn_rows, TITLE_BAR_HEIGHT, WINDOW_BORDER. simpl. unfold near in *. lia.
Qed.

(** The window is tiled without its title bar: the client area of a stacked window covers the title bar of the next. *)
Definition three_titled : list wm_event :=
  [EvCreate 0 0 10 10 0 (Some []); EvCreate 0 0 10 10 0 (Some []); EvCreate 0 0 10 10 0 (Some []); EvToggleTiling; EvRetile 1024 768].
Theorem tiled_titles_overlap :
  exists m a b, wm_run wm_new three_titled = Ok m /\ take 2 (windows m) = [a; b]
  /\ contains a 700 390 = Ok true /\ contains_title_bar b 700 390 = Ok true.
Proof. eexists _, _, _. split; [vm_compute; reflexivity|]. split; [reflexivity|]. split; vm_compute; reflexivity. Qed.

(** ** Witnesses *)
Definition demo_events : list wm_event :=
  [EvCreate 10 10 8 4 7 (Some [65]); EvCreate 200 50 6 4 3 None; EvCreate 5 5 2 2 1 None; EvMinimize 2].
Definition demo_wm : WindowManager := match wm_run wm_new demo_events with Ok m => m | _ => wm_new end.
Definition demo_tiled : WindowManager := set_tiling demo_wm MasterStack [].

Lemma wm_focus_invariant_witness : wm_inv demo_wm.
Proof. apply (wm_focus_invariant demo_events). vm_compute. reflexivity. Defined.

Lemma demo_wm_inv : wm_inv demo_wm.
Proof. apply (wm_run_inv demo_events wm_new); [apply wm_new_inv|]. vm_compute. reflexivity. Qed.

Lemma demo_tiled_inv : wm_inv demo_tiled.
Proof. apply (toggle_tiling_inv demo_wm); [apply demo_wm_inv|]. vm_compute. reflexivity. Qed.

Lemma wm_step_total_witness : exists m', wm_step wm_new (EvCreate 10 10 100 80 7 None) = Ok m' /\ wm_inv m'.
Proof.
  apply (wm_step_total wm_new (EvCreate 10 10 100 80 7 None)); [apply wm_new_inv|..].
  - split_and!; try done; constructor.
  - unfold event_small, near. lia.
Defined.

Lemma retile_correct_witness : exists m', retile demo_tiled 1024 768 = Ok m' /\ regeom (windows demo_tiled) (windows m').
Proof.
  destruct (retile_correct demo_tiled 1024 768) as (m' & E & Hre & _); [apply demo_tiled_inv|reflexivity|lia|vm_compute; split; [discriminate|reflexivity]|].
  exists m'. split; [exact E|exact Hre].
Defined.

Lemma tiling_roundtrip_witness :
  exists m', wm_run demo_wm [EvToggleTiling; EvRetile 1024 768; EvToggleTiling; EvRetile 1024 768] = Ok m' /\ windows m' = windows demo_wm.
Proof.
  destruct (tiling_roundtrip demo_wm 1024 768) as (m' & E & Hw & _); [apply demo_wm_inv|reflexivity| |lia|vm_compute; split; [discriminate|reflexivity]|].
  - apply (Forall_fmap win_geometry small_geometry).
    change (win_geometry <$> windows demo_wm) with [(10, 10, 8, 4); (200, 50, 6, 4); (5, 5, 2, 2)].
    do 3 (apply Forall_cons_2; [unfold small_geometry; lia|]). constructor.
  - exists m'. split; [exact E|exact Hw].
Defined.
