(* ===== verification/Compositor.v ===== *)
(** * Compositing

    [lattice/src/compositor.rs]: the background, the client areas of the windows and the overlay
    rectangles, drawn into the framebuffer within the merged dirty rectangle of a scene.  Title
    bars, text, icons, the menus, the taskbar, the cursor, the wallpaper and the frame-rate overlay
    are not drawn in the model; the scenes are those without them. *)
From S2P Require Import Prelude Surface WindowManager.

(** ** Colours *)
Definition DIM_TABLE : list Z := (fun i => (i * 2) / 5) <$> seqZ 0 256.
Definition channel (color shift : Z) : Z := Z.land (Z.shiftr color shift) 0xFF.
Definition pack (r g b : Z) : Z := Z.lor (Z.lor (Z.shiftl r 16) (Z.shiftl g 8)) b.

Definition dim_color (color : Z) : Z :=
  let r := znth 0 DIM_TABLE (channel color 16) in
  let g := znth 0 DIM_TABLE (channel color 8) in
  let b := znth 0 DIM_TABLE (channel color 0) in
  pack r g b.

(** ** Drawing *)
(** [fb\[i\] = color]. *)
Definition put_pixel (fb : list Z) (i color : Z) : result unit (list Z) := fill_range fb i (i + 1) color.

(** The double loop of both drawing functions: rows and columns relative to [(x0, y0)], those
    that fail the tests skipped with [continue]. *)
Definition paint_loop (x0 y0 row0 row1 col0 col1 fbw : Z) (row_ok col_ok : Z -> bool) (color : Z -> Z -> result unit Z) (fb : list Z) :
    result unit (list Z) :=
  for_loop row0 row1 (fun row fb =>
    let? y := checked_i32 (y0 + row) in
    if negb (row_ok y) then Ok fb else
    for_loop col0 col1 (fun col fb =>
      let? x := checked_i32 (x0 + col) in
      if negb (col_ok x) then Ok fb else
      let? c := color row col in
      put_pixel fb (y * fbw + x) c) fb) fb.

(** The client area of a window, clipped to the framebuffer and to the rectangle. *)
Definition draw_client_clipped (fb : list Z) (fbw fbh : Z) (win : Window) (cx cy cw ch : Z) : result unit (list Z) :=
  let src := win_surface win in
  let to := if has_title win then TITLE_BAR_HEIGHT else 0 in
  let wdx := win_x win in
  let? wdy := checked_i32 (win_y win + to) in
  let sw := u32_as_i32 (sf_width src) in
  let sh := u32_as_i32 (sf_height src) in
  let? p0 := get_pixel src 0 0 in
  let bg_fallback := default 0 p0 in
  let? nx := checked_i32 (- wdx) in
  let? ny := checked_i32 (- wdy) in
  let sxs := Z.max 0 nx in
  let sys := Z.max 0 ny in
  let sxe := Z.max 0 (Z.min (win_width win) (fbw - wdx)) in
  let sye := Z.max 0 (Z.min (win_height win) (fbh - wdy)) in
  if (sxe <=? sxs) || (sye <=? sys) then Ok fb else
  let? right_end := checked_u32 (cx + cw) in
  let? bottom_end := checked_u32 (cy + ch) in
  let cex := u32_as_i32 right_end in
  let cey := u32_as_i32 bottom_end in
  paint_loop wdx wdy sys sye sxs sxe fbw
    (fun dr => (u32_as_i32 cy <=? dr) && (dr <? cey))
    (fun dc => (u32_as_i32 cx <=? dc) && (dc <? cex))
    (fun sr sc =>
      let? color := if (sr <? sh) && (sc <? sw) then pixel_index (sf_pixels src) (sr * sw + sc) else Ok bg_fallback in
      Ok (if win_focused win then color else dim_color color)) fb.

Record OverlayRect := mkOverlay { ov_x : Z; ov_y : Z; ov_width : Z; ov_height : Z; ov_color : Z }.

(** [border_active] is the colour of the theme. *)
Definition draw_overlay_clipped (border_active : Z) (fb : list Z) (fbw fbh : Z) (ov : OverlayRect) (cx cy cw ch : Z) : result unit (list Z) :=
  let ox := u32_as_i32 (ov_x ov) in
  let oy := u32_as_i32 (ov_y ov) in
  let ow := u32_as_i32 (ov_width ov) in
  let oh := u32_as_i32 (ov_height ov) in
  let? right_end := checked_u32 (cx + cw) in
  let? bottom_end := checked_u32 (cy + ch) in
  let cex := u32_as_i32 right_end in
  let cey := u32_as_i32 bottom_end in
  paint_loop ox oy 0 oh 0 ow fbw
    (fun da => (u32_as_i32 cy <=? da) && (da <? cey) && (da <? u32_as_i32 fbh))
    (fun dxa => (u32_as_i32 cx <=? dxa) && (dxa <? cex) && (dxa <? u32_as_i32 fbw))
    (fun row col => Ok (if (row =? 0) || (row =? oh - 1) || (col =? 0) || (col =? ow - 1) then border_active else ov_color ov)) fb.

(** ** Scenes *)
Record Scene := mkScene { sc_windows : list Window; sc_bg_color : Z; sc_dirty_rects : list DirtyRect; sc_overlays : list OverlayRect }.

Fixpoint merge_all (m : DirtyRect) (rs : list DirtyRect) : result unit DirtyRect :=
  match rs with [] => Ok m | r :: rs => let? m := rect_merge m r in merge_all m rs end.

Fixpoint draw_windows (fb : list Z) (fbw fbh : Z) (ws : list Window) (dx dy dw dh : Z) : result unit (list Z) :=
  match ws with
  | [] => Ok fb
  | w :: ws =>
    if win_minimized w then draw_windows fb fbw fbh ws dx dy dw dh
    else let? fb := draw_client_clipped fb fbw fbh w dx dy dw dh in draw_windows fb fbw fbh ws dx dy dw dh
  end.
Fixpoint draw_overlays (border_active : Z) (fb : list Z) (fbw fbh : Z) (os : list OverlayRect) (dx dy dw dh : Z) : result unit (list Z) :=
  match os with
  | [] => Ok fb
  | o :: os => let? fb := draw_overlay_clipped border_active fb fbw fbh o dx dy dw dh in draw_overlays border_active fb fbw fbh os dx dy dw dh
  end.

(** A scene without desktop icons, menus, taskbar and cursor, on a plain background, while no frame
    rate has been measured; the result is the framebuffer and the box that was drawn. *)
Definition render (border_active : Z) (scene : Scene) (fb : list Z) (fbw fbh : Z) : result unit (list Z * (Z * Z * Z * Z)) :=
  let? merged := match sc_dirty_rects scene with [] => Ok (rect_full fbw fbh) | r :: rs => merge_all r rs end in
  let dx := r_x merged in
  let dy := r_y merged in
  let dw := Z.min (r_width merged) (u32_saturating_sub fbw dx) in
  let dh := Z.min (r_height merged) (u32_saturating_sub fbh dy) in
  if (dw =? 0) || (dh =? 0) then Ok (fb, (0, 0, 0, 0)) else
  let? fb := for_loop dy (dy + dh) (fun row fb =>
    let? base := checked_u32 (row * fbw) in
    let? start := checked_u32 (base + dx) in
    fill_range fb start (start + dw) (sc_bg_color scene)) fb in
  let? fb := draw_windows fb fbw fbh (sc_windows scene) dx dy dw dh in
  let? fb := draw_overlays border_active fb fbw fbh (sc_overlays scene) dx dy dw dh in
  let max_x := Z.min (dx + dw) fbw in
  let max_y := Z.min (dy + dh) fbh in
  Ok (fb, (dx, dy, max_x - dx, max_y - dy)).

(** ** What is drawn *)
(** The pixel of the client area of a window, over what is below. *)
Definition window_color (w : Window) (sx sy : Z) : Z :=
  let s := win_surface w in
  let c := if surface_contains s sx sy then pix (sf_width s) (sf_pixels s) sx sy
           else if surface_contains s 0 0 then pix (sf_width s) (sf_pixels s) 0 0 else 0 in
  if win_focused w then c else dim_color c.
Definition client_top (w : Window) : Z := win_y w + (if has_title w then TITLE_BAR_HEIGHT else 0).
Definition in_client (w : Window) (x y : Z) : bool :=
  (win_x w <=? x) && (x <? win_x w + win_width w) && (client_top w <=? y) && (y <? client_top w + win_height w).
Definition over_window (x y base : Z) (w : Window) : Z :=
  if negb (win_minimized w) && in_client w x y then window_color w (x - win_x w) (y - client_top w) else base.
Definition overlay_rect (o : OverlayRect) : DirtyRect := mkRect (ov_x o) (ov_y o) (ov_width o) (ov_height o).
Definition over_overlay (border_active x y base : Z) (o : OverlayRect) : Z :=
  if in_rect (overlay_rect o) x y then
    if (x =? ov_x o) || (x =? ov_x o + ov_width o - 1) || (y =? ov_y o) || (y =? ov_y o + ov_height o - 1) then border_active else ov_color o
  else base.
(** The pixel of a scene: the background, then the windows in their order, then the overlays. *)
Definition scene_pixel (border_active : Z) (s : Scene) (x y : Z) : Z :=
  foldl (over_overlay border_active x y) (foldl (over_window x y) (sc_bg_color s) (sc_windows s)) (sc_overlays s).

Section Frame.
Context (fbw fbh : Z) (Hfbw : 0 < fbw < 2 ^ 30) (Hfbh : 0 < fbh < 2 ^ 30).

(** A buffer that has the colours of [f] within the clip and those of [old] elsewhere. *)
Definition painted (clip : DirtyRect) (old fb : list Z) (f : Z -> Z -> Z) : Prop :=
  zlen fb = fbw * fbh /\ forall x y, 0 <= x < fbw -> 0 <= y < fbh -> pix fbw fb x y = if in_rect clip x y then f x y else pix fbw old x y.

Lemma put_pixel_ok fb x y c : zlen fb = fbw * fbh -> 0 <= x < fbw -> 0 <= y < fbh ->
  exists fb', put_pixel fb (y * fbw + x) c = Ok fb' /\ zlen fb' = fbw * fbh
  /\ forall a b, 0 <= a < fbw -> 0 <= b < fbh -> pix fbw fb' a b = if (b =? y) && (a =? x) then c else pix fbw fb a b.
Proof.
  intros Hl Hx Hy. destruct (row_write fbw fbh fb y x [c] Hl Hy ltac:(lia)) as (E & Hl' & Hp); [change (zlen [c]) with 1; lia|].
  eexists. split; [|split; [exact Hl'|]].
  - unfold put_pixel, fill_range. replace (y * fbw + x + 1 - (y * fbw + x)) with 1 by lia. exact E.
  - intros a b Ha Hb. rewrite Hp by done. change (zlen [c]) with 1. destruct (b =? y); simpl; [|done].
    destruct (Z.eqb_spec a x) as [->|]; [|destruct (Z.leb_spec x a), (Z.ltb_spec a (x + 1)); simpl; try done; lia].
    rewrite (proj2 (Z.leb_le _ _)), (proj2 (Z.ltb_lt _ _)) by lia. simpl. by rewrite Z.sub_diag.
Qed.

(** The loops paint every pixel that passes the tests, and only those. *)
Lemma paint_loop_ok x0 y0 row0 row1 col0 col1 row_ok col_ok color col fb :
  zlen fb = fbw * fbh -> row0 <= row1 -> col0 <= col1 ->
  - 2 ^ 30 <= x0 + col0 -> x0 + col1 <= 2 ^ 30 -> - 2 ^ 30 <= y0 + row0 -> y0 + row1 <= 2 ^ 30 ->
  (forall y, row_ok y = true -> y0 + row0 <= y < y0 + row1 -> 0 <= y < fbh) ->
  (forall x, col_ok x = true -> x0 + col0 <= x < x0 + col1 -> 0 <= x < fbw) ->
  (forall r c, row0 <= r < row1 -> col0 <= c < col1 -> color r c = Ok (col (x0 + c) (y0 + r))) ->
  exists fb', paint_loop x0 y0 row0 row1 col0 col1 fbw row_ok col_ok color fb = Ok fb' /\ zlen fb' = fbw * fbh
  /\ forall x y, 0 <= x < fbw -> 0 <= y < fbh -> pix fbw fb' x y =
     if (x0 + col0 <=? x) && (x <? x0 + col1) && (y0 + row0 <=? y) && (y <? y0 + row1) && row_ok y && col_ok x then col x y else pix fbw fb x y.
Proof.
  intros Hl Hr Hc Hx0 Hx1 Hy0 Hy1 Hrow Hcol Hcolor. unfold paint_loop.
  destruct (for_loop_ind (fun r b => zlen b = fbw * fbh /\ forall x y, 0 <= x < fbw -> 0 <= y < fbh -> pix fbw b x y =
     if (x0 + col0 <=? x) && (x <? x0 + col1) && (y0 + row0 <=? y) && (y <? y0 + r) && row_ok y && col_ok x then col x y else pix fbw fb x y)
    (fun row fb => let? y := checked_i32 (y0 + row) in
      if negb (row_ok y) then Ok fb else
      for_loop col0 col1 (fun col fb => let? x := checked_i32 (x0 + col) in if negb (col_ok x) then Ok fb else
        let? c := color row col in put_pixel fb (y * fbw + x) c) fb) row0 row1 fb) as (fb' & E & Hl' & Hp'); [done|..].
  - split; [done|]. intros x y Hx Hy. destruct (Z.leb_spec (y0 + row0) y), (Z.ltb_spec y (y0 + row0)); rewrite ?andb_false_r; try done. lia.
  - intros r b Hrr [Hlb Hpb]. rewrite checked_i32_ok by (unfold i32_range; lia).
    destruct (row_ok (y0 + r)) eqn:Er; cbn [negb].
    2:{ exists b. split; [done|]. split; [done|]. intros x y Hx Hy. rewrite Hpb by done.
        destruct (decide (y = y0 + r)) as [->|]; [by rewrite Er, !andb_false_r|]. replace (y <? y0 + (r + 1)) with (y <? y0 + r) by lia. done. }
    specialize (Hrow _ Er ltac:(lia)).
    destruct (for_loop_ind (fun c b' => zlen b' = fbw * fbh /\ forall x y, 0 <= x < fbw -> 0 <= y < fbh -> pix fbw b' x y =
       if (y =? y0 + r) && (x0 + col0 <=? x) && (x <? x0 + c) && col_ok x then col x y else pix fbw b x y)
      (fun col fb => let? x := checked_i32 (x0 + col) in if negb (col_ok x) then Ok fb else
        let? c := color r col in put_pixel fb ((y0 + r) * fbw + x) c) col0 col1 b) as (b1 & E1 & Hl1 & Hp1); [done|..].
    + split; [done|]. intros x y Hx Hy. destruct (Z.leb_spec (x0 + col0) x), (Z.ltb_spec x (x0 + col0)); rewrite ?andb_false_r; try done. lia.
    + intros c b' Hcc [Hlb' Hpb']. rewrite checked_i32_ok by (unfold i32_range; lia).
      destruct (col_ok (x0 + c)) eqn:Ec; cbn [negb].
      2:{ exists b'. split; [done|]. split; [done|]. intros x y Hx Hy. rewrite Hpb' by done.
          destruct (decide (x = x0 + c)) as [->|]; [by rewrite Ec, !andb_false_r|]. replace (x <? x0 + (c + 1)) with (x <? x0 + c) by lia. done. }
      specialize (Hcol _ Ec ltac:(lia)). rewrite Hcolor by lia.
      destruct (put_pixel_ok b' (x0 + c) (y0 + r) (col (x0 + c) (y0 + r)) Hlb' Hcol Hrow) as (b2 & -> & Hl2 & Hp2).
      exists b2. split; [done|]. split; [done|]. intros x y Hx Hy. rewrite Hp2, Hpb' by done.
      destruct (Z.eqb_spec y (y0 + r)) as [->|]; [|done]. cbn [andb].
      destruct (Z.eqb_spec x (x0 + c)) as [->|].
      * rewrite Ec, (proj2 (Z.leb_le _ _)), (proj2 (Z.ltb_lt _ _)) by lia. done.
      * replace (x <? x0 + (c + 1)) with (x <? x0 + c) by lia. done.
    + exists b1. split; [exact E1|]. split; [done|]. intros x y Hx Hy. rewrite Hp1, Hpb by done.
      destruct (Z.eqb_spec y (y0 + r)) as [->|].
      * rewrite Er. rewrite (proj2 (Z.leb_le (y0 + row0) _)), (proj2 (Z.ltb_lt _ (y0 + (r + 1)))), (proj2 (Z.ltb_ge _ (y0 + r))) by lia.
        cbn [andb]. rewrite !andb_false_r, !andb_true_r. cbn [andb]. done.
      * cbn [andb]. replace (y <? y0 + (r + 1)) with (y <? y0 + r) by lia. done.
  - exists fb'. split; [exact E|]. by split.
Qed.

(** The clip lies in the framebuffer. *)
Context (clip : DirtyRect) (Hclip : 0 <= r_x clip /\ 0 <= r_y clip /\ 0 <= r_width clip /\ 0 <= r_height clip
  /\ r_x clip + r_width clip <= fbw /\ r_y clip + r_height clip <= fbh).
Abbreviation cx := (r_x clip).
Abbreviation cy := (r_y clip).
Abbreviation cw := (r_width clip).
Abbreviation ch := (r_height clip).

Definition drawable (w : Window) : Prop :=
  win_small w /\ sf_width (win_surface w) < 2 ^ 31 /\ sf_height (win_surface w) < 2 ^ 31 /\ has_title w = false.

Lemma window_color_read w r c : drawable w -> 0 <= r -> 0 <= c ->
  let s := win_surface w in
  exists p0, get_pixel s 0 0 = Ok p0
  /\ (let? color := if (r <? u32_as_i32 (sf_height s)) && (c <? u32_as_i32 (sf_width s))
                    then pixel_index (sf_pixels s) (r * u32_as_i32 (sf_width s) + c) else Ok (default 0 p0) in
      Ok (if win_focused w then color else dim_color color)) = Ok (window_color w c r).
Proof.
  intros ((_ & _ & _ & _ & Hs & _) & Hw & Hh & _) Hr Hc s. fold s in Hs, Hw, Hh. pose proof Hs as (_ & _ & Hl).
  rewrite get_pixel_ok by done. eexists. split; [done|]. rewrite !u32_as_i32_small by done. unfold window_color. fold s.
  replace (surface_contains s c r) with ((r <? sf_height s) && (c <? sf_width s)).
  2:{ unfold surface_contains. rewrite !(proj2 (Z.leb_le 0 _)) by done. apply andb_comm. }
  destruct (Z.ltb_spec c (sf_width s)), (Z.ltb_spec r (sf_height s)); cbn [andb]; try (by destruct (surface_contains s 0 0)).
  pose proof (pix_inside _ _ _ c r Hl ltac:(lia) ltac:(lia)). unfold pixel_index.
  by rewrite (proj2 (Z.leb_le _ _)), (proj2 (Z.ltb_lt _ _)) by lia.
Qed.

Lemma draw_client_ok w fb : drawable w -> zlen fb = fbw * fbh ->
  exists fb', draw_client_clipped fb fbw fbh w cx cy cw ch = Ok fb' /\ zlen fb' = fbw * fbh
  /\ forall x y, 0 <= x < fbw -> 0 <= y < fbh ->
     pix fbw fb' x y = if in_rect clip x y && in_client w x y then window_color w (x - win_x w) (y - client_top w) else pix fbw fb x y.
Proof.
  intros Hd Hl. pose proof Hd as ((Hx & Hy & Hww & Hwh & Hs & _) & Hsw & Hsh & Ht). unfold near in *.
  destruct (window_color_read w 0 0 Hd ltac:(lia) ltac:(lia)) as (p0 & Ep & _).
  unfold draw_client_clipped. unfold in_client, client_top. rewrite Ht, !Z.add_0_r. rewrite checked_i32_ok by (unfold i32_range; lia). rewrite Ep.
  rewrite !checked_i32_ok by (unfold i32_range; lia). cbv zeta.
  set (sxs := Z.max 0 (- win_x w)). set (sys := Z.max 0 (- win_y w)).
  set (sxe := Z.max 0 (Z.min (win_width w) (fbw - win_x w))). set (sye := Z.max 0 (Z.min (win_height w) (fbh - win_y w))).
  destruct ((sxe <=? sxs) || (sye <=? sys)) eqn:Ee.
  { exists fb. split; [done|]. split; [done|]. intros x y Hpx Hpy. destruct (_ && (_ && _ && _ && _)) eqn:Ec; [|done].
    rewrite orb_true_iff, !Z.leb_le in Ee. bool_to_prop. unfold sxs, sxe, sys, sye in *. lia. }
  apply orb_false_iff in Ee as [Ex%Z.leb_gt Ey%Z.leb_gt]. rewrite !checked_u32_ok by (unfold u32_range, u32_max; lia).
  rewrite !(u32_as_i32_small (r_x clip + _)), !(u32_as_i32_small (r_y clip + _)), !(u32_as_i32_small (r_x clip)), !(u32_as_i32_small (r_y clip)) by lia.
  match goal with |- context [paint_loop ?a ?b ?c ?d ?e ?f ?g ?h ?i ?j fb] =>
    destruct (paint_loop_ok a b c d e f h i j (fun x y => window_color w (x - win_x w) (y - win_y w)) fb) as (fb' & -> & Hl' & Hp') end;
    try done; try (unfold sxs, sxe, sys, sye in *; lia).
  - intros r c Hr Hc. destruct (window_color_read w r c Hd) as (p1 & Ep1 & Ec); [unfold sys in *; lia|unfold sxs in *; lia|].
    rewrite Ep in Ep1. injection Ep1 as <-. cbv zeta in Ec. rewrite Ec. do 2 f_equal; lia.
  - exists fb'. split; [done|]. split; [done|]. intros x y Hpx Hpy. rewrite Hp' by done.
    assert (forall b b' : bool, (b = true <-> b' = true) -> (if b then window_color w (x - win_x w) (y - win_y w) else pix fbw fb x y)
      = if b' then window_color w (x - win_x w) (y - win_y w) else pix fbw fb x y) as Hb.
    { intros [] [] [H1 H2]; try done; [by specialize (H1 eq_refl)|by specialize (H2 eq_refl)]. }
    apply Hb. unfold in_rect. rewrite !andb_true_iff, !Z.leb_le, !Z.ltb_lt. unfold sxs, sxe, sys, sye. lia.
Qed.

Lemma draw_windows_ok ws : forall fb, Forall drawable ws -> zlen fb = fbw * fbh ->
  exists fb', draw_windows fb fbw fbh ws cx cy cw ch = Ok fb' /\ zlen fb' = fbw * fbh
  /\ forall x y, 0 <= x < fbw -> 0 <= y < fbh ->
     pix fbw fb' x y = if in_rect clip x y then foldl (over_window x y) (pix fbw fb x y) ws else pix fbw fb x y.
Proof.
  induction ws as [|w ws IH]; intros fb Hd Hl; cbn [draw_windows foldl].
  - exists fb. split; [done|]. split; [done|]. intros. by destruct (in_rect clip x y).
  - apply Forall_cons in Hd as [Hw Hd]. destruct (win_minimized w) eqn:Em.
    + destruct (IH fb Hd Hl) as (fb' & E & Hl' & Hp). exists fb'. split; [done|]. split; [done|]. intros x y Hx Hy. rewrite Hp by done.
      unfold over_window at 3. by rewrite Em.
    + destruct (draw_client_ok w fb Hw Hl) as (fb1 & -> & Hl1 & Hp1). destruct (IH fb1 Hd Hl1) as (fb' & E & Hl' & Hp).
      exists fb'. split; [done|]. split; [done|]. intros x y Hx Hy. rewrite Hp, Hp1 by done. unfold over_window at 3. rewrite Em.
      by destruct (in_rect clip x y).
Qed.

Definition overlay_ok (o : OverlayRect) : Prop := 0 <= ov_x o < 2 ^ 29 /\ 0 <= ov_y o < 2 ^ 29 /\ 0 <= ov_width o < 2 ^ 29 /\ 0 <= ov_height o < 2 ^ 29.

Lemma draw_overlays_ok border os : forall fb, Forall overlay_ok os -> zlen fb = fbw * fbh ->
  exists fb', draw_overlays border fb fbw fbh os cx cy cw ch = Ok fb' /\ zlen fb' = fbw * fbh
  /\ forall x y, 0 <= x < fbw -> 0 <= y < fbh ->
     pix fbw fb' x y = if in_rect clip x y then foldl (over_overlay border x y) (pix fbw fb x y) os else pix fbw fb x y.
Proof.
  induction os as [|o os IH]; intros fb Ho Hl; cbn [draw_overlays foldl].
  - exists fb. split; [done|]. split; [done|]. intros. by destruct (in_rect clip x y).
  - apply Forall_cons in Ho as [(Hx & Hy & Hw & Hh) Ho]. unfold draw_overlay_clipped.
    rewrite !checked_u32_ok by (unfold u32_range, u32_max; lia). rewrite !u32_as_i32_small by lia.
    match goal with |- context [paint_loop ?a ?b ?c ?d ?e ?f ?g ?h ?i ?j fb] =>
      destruct (paint_loop_ok a b c d e f h i j (fun x y => over_overlay border x y 0 o) fb) as (fb1 & -> & Hl1 & Hp1) end; try done; try lia.
    + intros r c Hr Hc. unfold over_overlay, in_rect, overlay_rect. cbn [r_x r_y r_width r_height].
      rewrite !(proj2 (Z.leb_le _ _)), !(proj2 (Z.ltb_lt _ _)) by lia. cbn [andb]. f_equal.
      replace (ov_x o + c =? ov_x o) with (c =? 0) by lia. replace (ov_y o + r =? ov_y o) with (r =? 0) by lia.
      replace (ov_x o + c =? ov_x o + ov_width o - 1) with (c =? ov_width o - 1) by lia.
      replace (ov_y o + r =? ov_y o + ov_height o - 1) with (r =? ov_height o - 1) by lia.
      by destruct (r =? 0), (r =? _), (c =? 0), (c =? _).
    + destruct (IH fb1 Ho Hl1) as (fb' & E & Hl' & Hp). exists fb'. split; [done|]. split; [done|]. intros x y Hpx Hpy.
      rewrite Hp, Hp1 by done. set (b := _ && _ && _ && _ && _ && _).
      assert (b = in_rect clip x y && in_rect (overlay_rect o) x y) as ->.
      { unfold b, in_rect, overlay_rect. cbn [r_x r_y r_width r_height]. apply eq_true_iff_eq. rewrite !andb_true_iff, !Z.leb_le, !Z.ltb_lt. lia. }
      unfold over_overlay at 2 4 5. destruct (in_rect clip x y); [|done]. cbn [andb]. by destruct (in_rect (overlay_rect o) x y).
Qed.

Lemma background_ok bg fb : zlen fb = fbw * fbh -> fbw * fbh <= u32_max ->
  exists fb', for_loop cy (cy + ch) (fun row fb =>
    let? base := checked_u32 (row * fbw) in
    let? start := checked_u32 (base + cx) in
    fill_range fb start (start + cw) bg) fb = Ok fb' /\ painted clip fb fb' (fun _ _ => bg).
Proof.
  intros Hl Hm.
  destruct (for_loop_ind (fun j b => zlen b = fbw * fbh /\ forall x y, 0 <= x < fbw -> 0 <= y < fbh -> pix fbw b x y =
     if (cx <=? x) && (x <? cx + cw) && (cy <=? y) && (y <? j) then bg else pix fbw fb x y)
    (fun row fb => let? base := checked_u32 (row * fbw) in let? start := checked_u32 (base + cx) in fill_range fb start (start + cw) bg)
    cy (cy + ch) fb) as (fb' & E & Hl' & Hp); [lia|..].
  - split; [done|]. intros x y Hx Hy. destruct (Z.leb_spec cy y), (Z.ltb_spec y cy); rewrite ?andb_false_r; try done. lia.
  - intros j b Hj [Hlb Hpb]. set (data := replicate (Z.to_nat cw) bg).
    assert (zlen data = cw) as Hd by (unfold data; rewrite zlen_replicate; lia).
    destruct (row_fits fbw fbh b j cx cw Hlb ltac:(lia) ltac:(lia) ltac:(lia) ltac:(lia)) as [Hf0 Hf1]. assert (0 <= j * fbw) by nia.
    rewrite (checked_u32_ok (j * fbw)) by (unfold u32_range; lia). rewrite checked_u32_ok by (unfold u32_range; lia).
    destruct (row_write fbw fbh b j cx data Hlb) as (Ew & Hl1 & Hp1); [lia|lia|lia|]. rewrite Hd in Ew. unfold fill_range.
    replace (j * fbw + cx + cw - (j * fbw + cx)) with cw by lia. fold data. rewrite Ew. eexists. split; [done|]. split; [done|].
    intros x y Hx Hy. rewrite Hp1, Hpb, Hd by done.
    assert (forall i, 0 <= i < cw -> znth 0 data i = bg) as Hrep.
    { intros i Hi. unfold data, znth. rewrite nth_lookup, lookup_replicate_2 by lia. done. }
    destruct (Z.eqb_spec y j) as [->|Hne].
    + rewrite (proj2 (Z.leb_le cy j)), (proj2 (Z.ltb_lt j (j + 1))), (proj2 (Z.ltb_ge j j)) by lia. rewrite !andb_true_r, !andb_false_r. cbn [andb].
      destruct (Z.leb_spec cx x), (Z.ltb_spec x (cx + cw)); cbn [andb]; try done. apply Hrep. lia.
    + cbn [andb]. replace (y <? j + 1) with (y <? j) by lia. done.
  - exists fb'. split; [exact E|]. split; [done|]. intros x y Hx Hy. by rewrite Hp.
Qed.
End Frame.

Lemma merge_all_ok rs : forall m, rect_wf m -> Forall rect_wf rs ->
  exists m', merge_all m rs = Ok m' /\ rect_wf m' /\ forall x y, in_rect m x y = true \/ (exists r, r ∈ rs /\ in_rect r x y = true) -> in_rect m' x y = true.
Proof.
  induction rs as [|r rs IH]; intros m Hm Hrs; cbn [merge_all].
  - exists m. split_and!; try done. intros x y [?|(r & Hr & _)]; [done|by apply elem_of_nil in Hr].
  - apply Forall_cons in Hrs as [Hr Hrs]. destruct (rect_merge_ok m r Hm Hr) as (m1 & -> & H1 & Hc1).
    destruct (IH m1 H1 Hrs) as (m' & E & H' & Hc). exists m'. split_and!; try done. intros x y Hxy. apply Hc.
    destruct Hxy as [Hxy|(q & [->|Hq]%elem_of_cons & Hin)]; [left; apply Hc1; by left|left; apply Hc1; by right|right; by exists q].
Qed.

(** The frames and scenes of the theorems. *)
Definition frame_ok (fbw fbh : Z) (fb : list Z) : Prop :=
  0 < fbw < 2 ^ 30 /\ 0 < fbh < 2 ^ 30 /\ zlen fb = fbw * fbh /\ fbw * fbh <= u32_max.
Definition scene_ok (s : Scene) : Prop :=
  Forall drawable (sc_windows s) /\ Forall overlay_ok (sc_overlays s) /\ Forall rect_wf (sc_dirty_rects s).
(** The framebuffer shows the scene. *)
Definition shows (border fbw fbh : Z) (s : Scene) (fb : list Z) : Prop :=
  forall x y, 0 <= x < fbw -> 0 <= y < fbh -> pix fbw fb x y = scene_pixel border s x y.

Ltac clip_fields clip m dw dh H :=
  change (r_x clip) with (r_x m) in H; change (r_y clip) with (r_y m) in H;
  change (r_width clip) with dw in H; change (r_height clip) with dh in H.

Lemma render_paints border s fbw fbh fb : frame_ok fbw fbh fb -> scene_ok s ->
  exists fb' box clip, render border s fb fbw fbh = Ok (fb', box) /\ painted fbw fbh clip fb fb' (scene_pixel border s)
  /\ (sc_dirty_rects s = [] -> forall x y, 0 <= x < fbw -> 0 <= y < fbh -> in_rect clip x y = true)
  /\ (forall r x y, r ∈ sc_dirty_rects s -> in_rect r x y = true -> 0 <= x < fbw -> 0 <= y < fbh -> in_rect clip x y = true).
Proof.
  intros (Hw & Hh & Hl & Hm) (Hwin & Hov & Hdr). unfold render.
  assert (exists m, match sc_dirty_rects s with [] => Ok (rect_full fbw fbh) | r :: rs => merge_all r rs end = Ok m /\ rect_wf m
    /\ (sc_dirty_rects s = [] -> m = rect_full fbw fbh)
    /\ forall r x y, r ∈ sc_dirty_rects s -> in_rect r x y = true -> in_rect m x y = true) as (m & -> & Hmw & Hfull & Hcov).
  { destruct (sc_dirty_rects s) as [|r rs].
    - exists (rect_full fbw fbh). split_and!; try done; [unfold rect_wf, rect_full, u32_max; simpl; lia|]. intros r x y Hr. by apply elem_of_nil in Hr.
    - apply Forall_cons in Hdr as [Hr Hrs]. destruct (merge_all_ok rs r Hr Hrs) as (m & E & Hmw & Hc). exists m. split_and!; try done.
      intros q x y [->|Hq]%elem_of_cons Hin; apply Hc; [by left|right; by exists q]. }
  destruct Hmw as (H1 & H2 & H3 & H4 & H5 & H6). unfold u32_saturating_sub.
  set (dw := Z.min (r_width m) (Z.max (fbw - r_x m) 0)). set (dh := Z.min (r_height m) (Z.max (fbh - r_y m) 0)).
  set (clip := mkRect (r_x m) (r_y m) dw dh).
  assert (Hin : forall x y, 0 <= x < fbw -> 0 <= y < fbh -> in_rect clip x y = in_rect m x y).
  { intros x y Hx Hy. apply eq_true_iff_eq. rewrite !in_rect_spec. unfold clip, dw, dh. cbn [r_x r_y r_width r_height]. lia. }
  assert (Hcover : (sc_dirty_rects s = [] -> forall x y, 0 <= x < fbw -> 0 <= y < fbh -> in_rect clip x y = true)
    /\ (forall r x y, r ∈ sc_dirty_rects s -> in_rect r x y = true -> 0 <= x < fbw -> 0 <= y < fbh -> in_rect clip x y = true)).
  { split; [intros Hn x y Hx Hy; rewrite Hin, Hfull by done; apply in_rect_spec; simpl; lia|]. intros r x y Hr Hxy Hx Hy. rewrite Hin by done. by eapply Hcov. }
  destruct ((dw =? 0) || (dh =? 0)) eqn:Ez.
  { exists fb, (0, 0, 0, 0), clip. split; [done|]. split; [|done]. split; [done|]. intros x y Hx Hy. destruct (in_rect clip x y) eqn:Ec; [|done].
    apply in_rect_spec in Ec. unfold clip in Ec. cbn [r_x r_y r_width r_height] in Ec. rewrite orb_true_iff, !Z.eqb_eq in Ez. lia. }
  apply orb_false_iff in Ez as [Hdw%Z.eqb_neq Hdh%Z.eqb_neq].
  assert (Hclip : 0 <= r_x clip /\ 0 <= r_y clip /\ 0 <= r_width clip /\ 0 <= r_height clip
    /\ r_x clip + r_width clip <= fbw /\ r_y clip + r_height clip <= fbh) by (unfold clip, dw, dh in *; cbn [r_x r_y r_width r_height]; lia).
  destruct (background_ok fbw fbh Hw Hh clip Hclip (sc_bg_color s) fb Hl Hm) as (fb1 & E1 & Hl1 & Hp1).
  clip_fields clip m dw dh E1. rewrite E1.
  destruct (draw_windows_ok fbw fbh Hw Hh clip Hclip (sc_windows s) fb1 Hwin Hl1) as (fb2 & E2 & Hl2 & Hp2).
  clip_fields clip m dw dh E2. rewrite E2.
  destruct (draw_overlays_ok fbw fbh Hw Hh clip Hclip border (sc_overlays s) fb2 Hov Hl2) as (fb3 & E3 & Hl3 & Hp3).
  clip_fields clip m dw dh E3. rewrite E3.
  eexists fb3, _, clip. split; [done|]. split; [|done]. split; [done|]. intros x y Hx Hy. rewrite Hp3, Hp2, Hp1 by done. unfold scene_pixel.
  by destruct (in_rect clip x y).
Qed.

(** Rendering without dirty rectangles shows the scene, whatever the framebuffer held. *)
Lemma render_full_shows (border fbw fbh : Z) (s : Scene) (fb : list Z) :
  frame_ok fbw fbh fb -> scene_ok s -> sc_dirty_rects s = [] ->
  exists fb' box, render border s fb fbw fbh = Ok (fb', box) /\ shows border fbw fbh s fb'.
Proof.
  intros Hf Hs Hd. destruct (render_paints border s fbw fbh fb Hf Hs) as (fb' & box & clip & E & [_ Hp] & Hall & _).
  exists fb', box. split; [done|]. intros x y Hx Hy. by rewrite Hp, Hall by done.
Qed.

(** Incremental rendering is sound: when the framebuffer shows the old scene and every pixel that
    differs in the new scene lies in one of its dirty rectangles, rendering only those shows the
    new scene: exactly what a full rendering would. *)
Lemma render_incremental (border fbw fbh : Z) (old new : Scene) (fb : list Z) :
  frame_ok fbw fbh fb -> scene_ok new -> shows border fbw fbh old fb ->
  (forall x y, 0 <= x < fbw -> 0 <= y < fbh -> scene_pixel border new x y <> scene_pixel border old x y ->
     exists r, r ∈ sc_dirty_rects new /\ in_rect r x y = true) ->
  exists fb' box, render border new fb fbw fbh = Ok (fb', box) /\ shows border fbw fbh new fb'.
Proof.
  intros Hf Hs Hold Hdiff. destruct (render_paints border new fbw fbh fb Hf Hs) as (fb' & box & clip & E & [_ Hp] & _ & Hcov).
  exists fb', box. split; [done|]. intros x y Hx Hy. rewrite Hp by done. destruct (in_rect clip x y) eqn:Ec; [done|].
  rewrite Hold by done. destruct (decide (scene_pixel border new x y = scene_pixel border old x y)) as [->|Hne]; [done|].
  destruct (Hdiff x y Hx Hy Hne) as (r & Hr & Hin). by rewrite (Hcov r x y) in Ec.
Qed.

(** ** Redrawing after an operation of the window manager *)

(** A pixel no window shows a difference at. *)
Definition quiet (x y : Z) (ws ws' : list Window) : Prop := forall base, foldl (over_window x y) base ws = foldl (over_window x y) base ws'.

Lemma quiet_trans x y ws1 ws2 ws3 : quiet x y ws1 ws2 -> quiet x y ws2 ws3 -> quiet x y ws1 ws3.
Proof. intros H1 H2 base. by rewrite H1. Qed.
Lemma quiet_app x y l1 l1' l2 l2' : quiet x y l1 l1' -> quiet x y l2 l2' -> quiet x y (l1 ++ l2) (l1' ++ l2').
Proof. intros H1 H2 base. by rewrite !foldl_app, H1, H2. Qed.
Lemma over_blank x y base w : in_client w x y = false -> over_window x y base w = base.
Proof. unfold over_window. intros ->. by rewrite andb_false_r. Qed.
Lemma quiet_blank x y w : in_client w x y = false -> quiet x y [w] [].
Proof. intros H base. simpl. by apply over_blank. Qed.
Lemma quiet_forall2 x y ws ws' : Forall2 (fun w w' => forall base, over_window x y base w = over_window x y base w') ws ws' -> quiet x y ws ws'.
Proof. induction 1 as [|w w' ws ws' Hw _ IH]; intros base; [done|]. cbn [foldl]. rewrite Hw. apply IH. Qed.

(** Between two states, every pixel that may have changed lies in a rectangle that was added. *)
Definition step_marks (m m' : WindowManager) : Prop :=
  exists added, dirty_rects m' = dirty_rects m ++ added /\ Forall rect_wf added
  /\ forall x y, 0 <= x -> 0 <= y -> (forall r, r ∈ added -> in_rect r x y = false) -> quiet x y (windows m) (windows m').

Lemma marks_refl m m' : windows m' = windows m -> dirty_rects m' = dirty_rects m -> step_marks m m'.
Proof. intros E1 E2. exists []. split; [by rewrite app_nil_r|]. split; [constructor|]. intros. by rewrite E1. Qed.

Lemma marks_trans m1 m2 m3 : step_marks m1 m2 -> step_marks m2 m3 -> step_marks m1 m3.
Proof.
  intros (a & E1 & W1 & Q1) (b & E2 & W2 & Q2). exists (a ++ b). split; [by rewrite E2, E1, app_assoc|]. split; [by apply Forall_app|].
  intros x y Hx Hy Hr. eapply quiet_trans; [apply Q1|apply Q2]; try done; intros r Hin; apply Hr, elem_of_app; auto.
Qed.

(** The rectangle of a window without a title bar covers it. *)
Lemma dirty_rect_covers w r : win_small w -> has_title w = false -> window_dirty_rect w = Ok r ->
  rect_wf r /\ forall x y, 0 <= x -> 0 <= y -> in_client w x y = true -> in_rect r x y = true.
Proof.
  intros (Hx & Hy & Hw & Hh & _) Ht. unfold window_dirty_rect, BORDER, TITLE_BAR_H, near in *. change (2 * 2) with 4.
  rewrite !checked_u32_ok by (unfold u32_range, u32_max; lia). intros [= <-]. split; [unfold rect_wf, u32_max; simpl; lia|].
  intros x y Hx0 Hy0. unfold in_client, client_top. rewrite Ht, in_rect_spec, !andb_true_iff, !Z.leb_le, !Z.ltb_lt. simpl. lia.
Qed.

(** Marking the new window after replacing [old] by [new] at its place; either may be absent. *)
Lemma marks_one m m' l1 l2 (old new : list Window) rects :
  windows m = l1 ++ old ++ l2 -> windows m' = l1 ++ new ++ l2 -> dirty_rects m' = dirty_rects m ++ rects -> Forall rect_wf rects ->
  (forall w x y, w ∈ old ++ new -> 0 <= x -> 0 <= y -> in_client w x y = true -> exists r, r ∈ rects /\ in_rect r x y = true) -> step_marks m m'.
Proof.
  intros E1 E2 E3 Hwf Hcov. exists rects. split; [done|]. split; [done|]. intros x y Hx Hy Hr. rewrite E1, E2.
  apply quiet_app; [by intros ?|]. apply quiet_app; [|by intros ?].
  assert (forall ws, (forall w, w ∈ ws -> w ∈ old ++ new) -> quiet x y ws []) as Hq.
  { intros ws Hws. induction ws as [|w ws IH]; intros base; [done|]. cbn [foldl]. rewrite over_blank.
    - rewrite IH by (intros v Hv; apply Hws; by apply list_elem_of_further). done.
    - destruct (in_client w x y) eqn:E; [|done]. destruct (Hcov w x y) as (r & Hin & Hrr); try done; [apply Hws, list_elem_of_here|].
      by rewrite Hr in Hrr. }
  intros base. rewrite (Hq old), (Hq new) by (intros w Hw; apply elem_of_app; auto). done.
Qed.

(** Windows without a title bar, at positions of a screen. *)
Definition plain (w : Window) : Prop := win_small w /\ has_title w = false.

Lemma plain_dirty w : plain w -> exists r, window_dirty_rect w = Ok r /\ rect_wf r
  /\ forall x y, 0 <= x -> 0 <= y -> in_client w x y = true -> in_rect r x y = true.
Proof.
  intros [Hs Ht]. destruct (win_small_dirty w Hs) as [r E]. exists r. split; [done|]. by apply (dirty_rect_covers w).
Qed.

Lemma update_split id f ws : match find_window id ws with
  | Some w => exists l1 l2, ws = l1 ++ w :: l2 /\ update_window id f ws = l1 ++ f w :: l2 /\ win_id w = id
              /\ (win_id (f w) = id -> find_window id (update_window id f ws) = Some (f w))
  | None => update_window id f ws = ws end.
Proof.
  induction ws as [|v ws IH]; [done|]. unfold find_window in *. cbn [List.find update_window]. destruct (Z.eqb_spec (win_id v) id) as [E|Hne].
  - exists [], ws. split_and!; try done. intros E2. cbn [List.find]. by rewrite (proj2 (Z.eqb_eq _ _)).
  - destruct (List.find _ ws) as [w|] eqn:Ef.
    + destruct IH as (l1 & l2 & E1 & E2 & E3 & E4). exists (v :: l1), l2. split_and!; [by rewrite E1|by rewrite E2|done|].
      intros Hi. cbn [List.find]. rewrite (proj2 (Z.eqb_neq _ _)) by done. by apply E4.
    + by rewrite IH.
Qed.

Lemma forall_one {A} (P : A -> Prop) x : P x -> Forall P [x].
Proof. intros. by constructor. Qed.
Lemma elem_one {A} (x y : A) : x ∈ [y] -> x = y.
Proof. by intros ?%list_elem_of_singleton. Qed.

(** Changing flags of a window and marking it. *)
Lemma update_marks id f m m' : (forall w, win_id (f w) = win_id w) -> (forall w x y, in_client (f w) x y = in_client w x y) ->
  (forall w, plain w -> plain (f w)) -> Forall plain (windows m) ->
  mark_dirty id (set_windows m (update_window id f (windows m))) = Ok m' -> step_marks m m' /\ Forall plain (windows m').
Proof.
  intros Hid Hcl Hpl Hp. pose proof (update_split id f (windows m)) as Hu. unfold mark_dirty. cbn [windows set_windows].
  destruct (find_window id (windows m)) as [w|] eqn:Ef.
  - destruct Hu as (l1 & l2 & E1 & E2 & Ei & E3). rewrite E3 by (by rewrite Hid). rewrite E1 in Hp. apply Forall_app in Hp as [Hp1 [Hw Hp2]%Forall_cons].
    destruct (plain_dirty (f w) (Hpl w Hw)) as (r & -> & Hwf & Hc). intros [= <-].
    split; [|cbn [windows set_dirty set_windows]; rewrite E2; apply Forall_app; split; [done|]; apply Forall_cons; auto].
    apply (marks_one _ _ l1 l2 [w] [f w] [r]); try done; [by apply forall_one|]. intros v x y Hv Hx Hy Hin. exists r. split; [apply list_elem_of_here|].
    apply Hc; [done|done|]. apply elem_of_app in Hv as [Hv%elem_one|Hv%elem_one]; subst v; [by rewrite Hcl|done].
  - rewrite Hu. rewrite Ef. intros [= <-]. split; [by apply marks_refl|done].
Qed.

Lemma flag_marks id b m m' : Forall plain (windows m) -> flag_window id b m = Ok m' -> step_marks m m' /\ Forall plain (windows m').
Proof. apply update_marks; done. Qed.

Lemma mark_of id w m m' : find_window id (windows m) = Some w -> plain w -> mark_dirty id m = Ok m' ->
  exists r, m' = set_dirty m (dirty_rects m ++ [r]) /\ rect_wf r /\ forall x y, 0 <= x -> 0 <= y -> in_client w x y = true -> in_rect r x y = true.
Proof.
  intros Ef Hw. unfold mark_dirty. rewrite Ef. destruct (plain_dirty w Hw) as (r & -> & ? & ?). intros [= <-]. by exists r.
Qed.

Lemma maybe_retile_floating m : tiling_mode m = Floating -> maybe_retile m = Ok m.
Proof. intros E. unfold maybe_retile. by rewrite bool_decide_false by congruence. Qed.

(** Appending a window and marking it. *)
Lemma append_marks m m' w r : windows m' = windows m ++ [w] -> dirty_rects m' = dirty_rects m ++ [r] -> plain w -> window_dirty_rect w = Ok r -> step_marks m m'.
Proof.
  intros E1 E2 Hw Er. destruct (plain_dirty w Hw) as (r' & Er' & Hwf & Hc). rewrite Er in Er'. injection Er' as <-.
  apply (marks_one m m' (windows m) [] [] [w] [r]); try done; [by rewrite app_nil_r|by apply forall_one|].
  intros v x y Hv%elem_one Hx Hy Hin. subst v. exists r. split; [apply list_elem_of_here|by apply Hc].
Qed.

Lemma create_marks m f id m' : tiling_mode m = Floating -> Forall plain (windows m) -> plain (f (next_id m)) ->
  create_window_impl m f = Ok (id, m') -> step_marks m m'.
Proof.
  intros Ht Hp Hf. unfold create_window_impl. destruct (_ <? _); [done|]. unfold push_window. cbn [focused set_next].
  destruct (match focused m with Some prev => _ | None => _ end) as [m1|[]|] eqn:E; [|done..].
  assert (step_marks m m1 /\ tiling_mode m1 = Floating) as [Hm1 Ht1].
  { destruct (focused m) as [p|].
    - pose proof E as E'. apply flag_marks in E as [(a & Ea & Hw & Hq) _]; [|done]. split; [by exists a|].
      by apply flag_window_eq in E' as [rs ->].
    - injection E as <-. split; [by apply marks_refl|done]. }
  destruct (window_dirty_rect _) as [r|[]|] eqn:Er; [|done..].
  rewrite maybe_retile_floating by done. intros [= _ <-]. eapply marks_trans; [exact Hm1|].
  apply (append_marks _ _ (set_focused true (f (next_id m))) r); done.
Qed.

Lemma raise_marks m id m' : tiling_mode m = Floating -> Forall plain (windows m) -> raise_to_top m id = Ok m' -> step_marks m m'.
Proof.
  intros Ht Hp. unfold raise_to_top. destruct (find_window id (windows m)) as [w|] eqn:Ef; [|intros [= <-]; by apply marks_refl].
  destruct (find_split _ _ _ Ef) as (l1 & l2 & Ew & Hw & ->). cbn [windows set_windows].
  replace (delete (length l1) (windows m)) with (l1 ++ l2) by (rewrite Ew; clear; induction l1; simpl; congruence).
  rewrite Ew in Hp. apply Forall_app in Hp as [Hp1 [Hpw Hp2]%Forall_cons].
  assert (Forall plain (l1 ++ l2)) as Hp by (by apply Forall_app).
  destruct (match focused m with Some prev => _ | None => _ end) as [m1|[]|] eqn:E; [|done..].
  assert (step_marks (set_windows m (l1 ++ l2)) m1 /\ tiling_mode m1 = Floating) as [(a & Ea & Hwa & Hq) Ht1].
  { destruct (focused m) as [p|]; [destruct (p =? id)|].
    - injection E as <-. split; [by apply marks_refl|done].
    - pose proof E as E'. apply flag_marks in E as [Hm1 _]; [|done]. split; [done|]. by apply flag_window_eq in E' as [rs ->].
    - injection E as <-. split; [by apply marks_refl|done]. }
  destruct (window_dirty_rect _) as [r|[]|] eqn:Er; [|done..]. rewrite maybe_retile_floating by done. intros [= <-].
  destruct (dirty_rect_covers (set_focused true w) r) as [Hwf Hc]; [apply Hpw|apply Hpw|done|].
  exists (a ++ [r]). cbn [dirty_rects windows set_windows set_dirty set_focus]. simpl in Ea. rewrite Ea. split; [by rewrite app_assoc|].
  split; [apply Forall_app; split; [done|by apply forall_one]|]. intros x y Hx Hy Hr.
  assert (in_client w x y = false) as Hno.
  { destruct (in_client w x y) eqn:Ec; [|done]. rewrite <- (Hr r); [symmetry; by apply Hc|apply elem_of_app; right; apply list_elem_of_here]. }
  rewrite Ew. apply (quiet_trans _ _ _ (l1 ++ [] ++ l2)).
  - apply quiet_app; [by intros ?|]. apply (quiet_app _ _ [w] []); [by apply quiet_blank|by intros ?].
  - apply (quiet_trans _ _ _ (windows m1)); [apply Hq; [done|done|]; intros q Hin; apply Hr, elem_of_app; by left|].
    rewrite <- (app_nil_r (windows m1)) at 1. apply quiet_app; [by intros ?|]. intros base. symmetry. by apply quiet_blank.
Qed.

Lemma remove_marks m id b m' : NoDup (z_order m) -> tiling_mode m = Floating -> Forall plain (windows m) -> remove_window m id = Ok (b, m') -> step_marks m m'.
Proof.
  intros Hnd Ht Hp. unfold remove_window. destruct (mark_dirty id m) as [m0|[]|] eqn:E0; [|done..].
  assert (step_marks m (set_windows m0 (filter (fun w => win_id w <> id) (windows m0))) /\ tiling_mode m0 = Floating
    /\ Forall plain (filter (fun w => win_id w <> id) (windows m0))) as (Hm0 & Ht0 & Hp0).
  { destruct (find_window id (windows m)) as [w|] eqn:Ef.
    - destruct (find_split _ _ _ Ef) as (l1 & l2 & Ew & Hw & _).
      assert (plain w) as Hpw by (rewrite Ew in Hp; by apply Forall_app in Hp as [_ [? _]%Forall_cons]).
      destruct (mark_of id w m m0 Ef Hpw E0) as (r & -> & Hwf & Hc). split; [|split; [done|by apply forall_filter]].
      unfold z_order in Hnd. rewrite Ew, fmap_app, fmap_cons in Hnd. apply NoDup_app in Hnd as (_ & Hd & [Hn _]%NoDup_cons).
      apply (marks_one _ _ l1 l2 [w] [] [r]); try done; [|by apply forall_one|].
      + cbn [windows set_windows set_dirty]. rewrite Ew. rewrite filter_app, filter_cons_False by naive_solver.
        rewrite !filter_all; [done|..]; apply Forall_forall; intros v Hv E; subst id.
        * apply Hn. rewrite <- E. apply list_elem_of_fmap. by exists v.
        * apply (Hd (win_id v)); [apply list_elem_of_fmap; by exists v|]. rewrite E. apply list_elem_of_here.
      + intros v x y Hv%elem_one Hx Hy Hin. subst v. exists r. split; [apply list_elem_of_here|by apply Hc].
    - assert (m0 = m) as -> by (unfold mark_dirty in E0; rewrite Ef in E0; congruence).
      split; [|split; [done|by apply forall_filter]]. apply marks_refl; [|done]. cbn [windows set_windows]. apply filter_all, Forall_forall.
      intros v Hv E. apply (find_window_None _ _ Ef). rewrite <- E. apply list_elem_of_fmap. by exists v. }
  set (m1 := set_windows m0 _) in *. cbn [windows set_windows focused]. intros H.
  match type of H with context [if ?c then match last ?l with _ => _ end else _] => set (cond := c) in H end.
  assert (exists m2, step_marks m1 m2 /\ tiling_mode m2 = Floating /\ m' = m2) as (m2 & Hm2 & Ht2 & ->); [|by eapply marks_trans].
  destruct (if cond then _ else _) as [m2|[]|] eqn:E1 in H; [|done..].
  assert (step_marks m1 m2 /\ tiling_mode m2 = Floating) as [Hm2 Ht2].
  { destruct cond; [|injection E1 as <-; split; [by apply marks_refl|done]].
    destruct (last _) as [w|]; [|injection E1 as <-; split; [by apply marks_refl|done]].
    pose proof E1 as E2. apply flag_marks in E1 as [(a & Ea & Hw & Hq) _]; [|done]. split; [by exists a|]. by apply flag_window_eq in E2 as [rs ->]. }
  exists m2. split_and!; try done. rewrite maybe_retile_floating in H by done. by destruct (negb _); injection H as _ <-.
Qed.

Lemma unfocus_marks ws : forall ws' rs, Forall plain ws -> unfocus_all ws = Ok (ws', rs) ->
  Forall rect_wf rs /\ forall x y, 0 <= x -> 0 <= y -> (forall r, r ∈ rs -> in_rect r x y = false) -> quiet x y ws ws'.
Proof.
  induction ws as [|w ws IH]; intros ws' rs Hp; cbn [unfocus_all]; [intros [= <- <-]; split; [constructor|by intros ** ?]|].
  apply Forall_cons in Hp as [Hw Hp]. destruct (plain_dirty (set_focused false w) Hw) as (r & -> & Hwf & Hc).
  destruct (unfocus_all ws) as [[ws1 rs1]|[]|]; [|done..]. intros [= <- <-]. destruct (IH ws1 rs1 Hp eq_refl) as [Hwf1 Hq].
  split; [by constructor|]. intros x y Hx Hy Hr. apply (quiet_app _ _ [w] [set_focused false w]); [|apply Hq; [done|done|]; intros q Hin; apply Hr; by apply list_elem_of_further].
  assert (in_client w x y = false) as Hno.
  { destruct (in_client w x y) eqn:Ec; [|done]. rewrite <- (Hr r); [symmetry; by apply Hc|apply list_elem_of_here]. }
  intros base. by rewrite (quiet_blank x y w), (quiet_blank x y (set_focused false w)).
Qed.

Lemma mouse_down_marks m x y m' : tiling_mode m = Floating -> Forall plain (windows m) -> on_mouse_down m x y = Ok m' -> step_marks m m'.
Proof.
  intros Ht Hp. unfold on_mouse_down. destruct (resize_handle_at m x y) as [[id|]|[]|]; [| |done..].
  { destruct (raise_to_top m id) as [m1|[]|] eqn:E; [|done..]. apply raise_marks in E; [|done|done].
    destruct (find_window id (windows m1)); by intros [= <-]. }
  destruct (find_result _ _) as [[w0|]|[]|]; [| |done..].
  { destruct (raise_to_top m (win_id w0)) as [m1|[]|] eqn:E; [|done..]. apply raise_marks in E; [|done|done].
    destruct (find_window _ (windows m1)); [|by intros [= <-]]. destruct (checked_i32 _); [|done..].
    destruct (checked_i32 _); [|done..]. by intros [= <-]. }
  destruct (window_at m x y) as [[id|]|[]|]; [| |done..].
  { destruct (raise_to_top m id) as [m1|[]|] eqn:E; [|done..]. apply raise_marks in E; [|done|done]. by intros [= <-]. }
  destruct (unfocus_all _) as [[ws rs]|[]|] eqn:E; [|done..]. intros [= <-]. apply unfocus_marks in E as [Hwf Hq]; [|done]. by exists rs.
Qed.

Lemma change_marks m id f m' : Forall plain (windows m) -> Forall plain (windows m') -> (forall w w', f w = Ok w' -> win_id w' = win_id w) ->
  change_window m id f = Ok m' -> step_marks m m'.
Proof.
  intros Hp Hp' Hf. unfold change_window. destruct (find_window id (windows m)) as [w|] eqn:Ef; [|intros [= <-]; by apply marks_refl].
  destruct (window_dirty_rect w) as [r1|[]|] eqn:E1; [|done..]. destruct (f w) as [w'|[]|] eqn:Efw; [|done..].
  destruct (window_dirty_rect w') as [r2|[]|] eqn:E2; [|done..]. intros [= <-]. cbn [windows set_dirty set_windows] in Hp'.
  pose proof (update_split id (fun _ => w') (windows m)) as Hu. rewrite Ef in Hu. destruct Hu as (l1 & l2 & Ew & Eu & _ & _).
  rewrite Eu in Hp'. rewrite Ew in Hp. apply Forall_app in Hp as [_ [[Hs Ht] _]%Forall_cons]. apply Forall_app in Hp' as [_ [[Hs' Ht'] _]%Forall_cons].
  destruct (dirty_rect_covers w r1 Hs Ht E1) as [Hw1 Hc1]. destruct (dirty_rect_covers w' r2 Hs' Ht' E2) as [Hw2 Hc2].
  apply (marks_one _ _ l1 l2 [w] [w'] [r1; r2]); try done; [constructor; [done|by apply forall_one]|].
  intros v x y Hv Hx Hy Hin. apply elem_of_app in Hv as [Hv%elem_one|Hv%elem_one]; subst v;
    [exists r1; split; [apply list_elem_of_here|by apply Hc1]|exists r2; split; [by apply list_elem_of_further, list_elem_of_here|by apply Hc2]].
Qed.

Lemma minimize_marks m id b m' : tiling_mode m = Floating -> Forall plain (windows m) -> minimize_window m id = Ok (b, m') -> step_marks m m'.
Proof.
  intros Ht Hp. unfold minimize_window. destruct (find_window id (windows m)) as [w|]; [|intros [= _ <-]; by apply marks_refl].
  destruct (win_minimized w); [intros [= _ <-]; by apply marks_refl|].
  destruct (mark_dirty _ _) as [m1|[]|] eqn:E1; [|done..]. pose proof E1 as E1'. apply mark_dirty_eq in E1' as [rs E1'].
  apply update_marks in E1 as [Hm1 Hp1]; [|done..]. assert (tiling_mode m1 = Floating) as Ht1 by (by rewrite E1').
  intros H. destruct (if bool_decide _ then _ else _) as [m2|[]|] eqn:E2 in H; [|done..].
  assert (step_marks m1 m2 /\ tiling_mode m2 = Floating) as [Hm2 Ht2].
  { destruct (bool_decide _); [|injection E2 as <-; split; [by apply marks_refl|done]]. cbv zeta in E2.
    destruct (win_id <$> _) as [nid|]; [|injection E2 as <-; split; [by apply marks_refl|done]].
    pose proof E2 as E3. apply flag_marks in E2 as [(a & Ea & Hw & Hq) _]; [|done]. split; [by exists a|]. by apply flag_window_eq in E3 as [rs' ->]. }
  rewrite maybe_retile_floating in H by done. injection H as _ <-. by eapply marks_trans.
Qed.

(** Bringing a minimised window back: it is drawn again where its rectangle is marked. *)
Lemma restore_marks m id b m' : tiling_mode m = Floating -> Forall plain (windows m) -> restore_window m id = Ok (b, m') -> step_marks m m'.
Proof.
  intros Ht Hp. unfold restore_window. destruct (find_window id (windows m)) as [w|] eqn:Ef; [|intros [= _ <-]; by apply marks_refl].
  destruct (negb (win_minimized w)); [intros [= _ <-]; by apply marks_refl|]. destruct (raise_to_top _ _) as [m1|[]|] eqn:E; [|done..]. intros [= _ <-].
  pose proof (update_split id (set_minimized false) (windows m)) as Hu. rewrite Ef in Hu. destruct Hu as (l1 & l2 & Ew & Eu & Ei & Efu).
  assert (Forall plain (update_window id (set_minimized false) (windows m))) as Hpu.
  { rewrite Eu. rewrite Ew in Hp. apply Forall_app in Hp as [? [? ?]%Forall_cons]. apply Forall_app. split; [done|by apply Forall_cons]. }
  pose proof (raise_marks (set_windows m (update_window id (set_minimized false) (windows m))) id m1 Ht Hpu E) as (a & Ea & Hwf & Hq).
  assert (exists r, r ∈ a /\ forall x y, 0 <= x -> 0 <= y -> in_client w x y = true -> in_rect r x y = true) as (r & Hra & Hc).
  { clear Hq. unfold raise_to_top in E. cbn [windows set_windows focused] in E. rewrite Efu in E by done.
    destruct (find_split _ _ _ (Efu Ei)) as (k1 & k2 & _ & _ & Ep). rewrite Ep in E.
    destruct (match focused m with Some prev => _ | None => _ end) as [m2|[]|] eqn:E2; [|done..].
    assert (exists rs, dirty_rects m2 = dirty_rects m ++ rs /\ tiling_mode m2 = Floating) as (rs & Ers & Ht2).
    { destruct (focused m) as [p|]; [destruct (p =? id)|]; try (injection E2 as <-; exists []; split; [by rewrite app_nil_r|done]).
      unfold flag_window, mark_dirty in E2. destruct (find_window p _) as [v|]; [|injection E2 as <-; exists []; split; [by rewrite app_nil_r|done]].
      destruct (window_dirty_rect v) as [q|[]|]; [|done..]. injection E2 as <-. by exists [q]. }
    assert (plain w) as Hpw by (rewrite Ew in Hp; by apply Forall_app in Hp as [_ [? _]%Forall_cons]).
    destruct (plain_dirty (set_focused true (set_minimized false w)) Hpw) as (r & Er & _ & Hc).
    rewrite Er in E. rewrite maybe_retile_floating in E by done. injection E as <-. cbn [dirty_rects set_windows set_dirty set_focus] in Ea.
    rewrite Ers, <- app_assoc in Ea. apply app_inv_head in Ea. exists r. split; [rewrite <- Ea; apply elem_of_app; right; apply list_elem_of_here|done]. }
  exists a. split; [done|]. split; [done|]. intros x y Hx Hy Hr. eapply quiet_trans; [|by apply Hq]. cbn [windows set_windows]. rewrite Eu, Ew.
  assert (in_client w x y = false) as Hno.
  { destruct (in_client w x y) eqn:Ec; [|done]. rewrite <- (Hr r Hra). symmetry. by apply Hc. }
  apply quiet_app; [by intros ?|]. apply (quiet_app _ _ [w] [set_minimized false w]); [|by intros ?].
  intros base. by rewrite (quiet_blank x y w), (quiet_blank x y (set_minimized false w)).
Qed.

(** The operations that mark what they change. *)
Definition marking_event (e : wm_event) : bool :=
  match e with
  | EvCreate _ _ _ _ _ None | EvRemove _ | EvRaise _ | EvMouseDown _ _ | EvMouseMove _ _ | EvMouseUp | EvMinimize _ | EvRestore _ => true
  | _ => false
  end.

Lemma wm_step_marks m e m' : wm_inv m -> tiling_mode m = Floating -> Forall plain (windows m) -> Forall plain (windows m') ->
  marking_event e = true -> event_small m e -> wm_step m e = Ok m' -> step_marks m m'.
Proof.
  intros (_ & Hnd & _) Ht Hp Hp' He Hs. destruct e as [x y w h c [t|]|id|id|x y|x y| |id|id|id x y w h| |w h|w h|]; try done; cbn [wm_step event_small] in *.
  - unfold create_window. destruct (create_window_impl _ _) as [[i m1]|[]|] eqn:E; [|done..]. intros [= <-]. eapply create_marks; try done.
    destruct Hs as (? & ? & ? & ?). split; [by apply (window_new_small _ x y w h c None)|done].
  - destruct (remove_window m id) as [[b m1]|[]|] eqn:E; [|done..]. intros [= <-]. by eapply remove_marks.
  - by apply raise_marks.
  - by apply mouse_down_marks.
  - unfold on_mouse_move. destruct (drag m) as [|id ox oy|id ox oy ow oh]; [intros [= <-]; by apply marks_refl|..]; apply change_marks; try done;
      intros w w'; destruct (checked_i32 (x - ox)); try done; destruct (checked_i32 (y - oy)); try done; [by intros [= <-]|].
    destruct (get_pixel _ _ _); [|done..]. by intros [= <-].
  - intros [= <-]. by apply marks_refl.
  - destruct (minimize_window m id) as [[b m1]|[]|] eqn:E; [|done..]. intros [= <-]. by eapply minimize_marks.
  - destruct (restore_window m id) as [[b m1]|[]|] eqn:E; [|done..]. intros [= <-]. by eapply restore_marks.
Qed.

Definition scene_of (bg : Z) (m : WindowManager) : Scene := mkScene (windows m) bg (dirty_rects m) [].

(** C11. Window manager and compositor together: when the screen shows the windows and one is created,
    closed, raised, clicked, dragged, resized, minimised or brought back, rendering only the
    rectangles that the operation marked shows the windows as they are afterwards. *)
Theorem wm_redraw_complete (border bg fbw fbh : Z) (m m' : WindowManager) (e : wm_event) (fb : list Z) :
  wm_inv m -> tiling_mode m = Floating -> dirty_rects m = [] -> marking_event e = true -> event_small m e ->
  Forall drawable (windows m) -> Forall drawable (windows m') -> wm_step m e = Ok m' ->
  frame_ok fbw fbh fb -> shows border fbw fbh (scene_of bg m) fb ->
  exists fb' box, render border (scene_of bg m') fb fbw fbh = Ok (fb', box) /\ shows border fbw fbh (scene_of bg m') fb'.
Proof.
  intros Hm Ht Hd He Hs Hdr Hdr' E Hf Hsh.
  assert (Hpl : forall ws, Forall drawable ws -> Forall plain ws).
  { intros ws Hws. eapply Forall_impl; [exact Hws|]. intros w (H1 & _ & _ & H2). by split. }
  destruct (wm_step_marks m e m' Hm Ht (Hpl _ Hdr) (Hpl _ Hdr') He Hs E) as (added & Ea & Hwf & Hq). rewrite Hd in Ea. simpl in Ea.
  apply (render_incremental border fbw fbh (scene_of bg m)); try done.
  - split_and!; [done|constructor|]. simpl. by rewrite Ea.
  - intros x y Hx Hy Hne. simpl. rewrite Ea.
    destruct (existsb (fun r => in_rect r x y) added) eqn:Ex.
    + apply existsb_exists in Ex as (r & Hr%list_elem_of_In & Hin). by exists r.
    + exfalso. apply Hne. unfold scene_pixel, scene_of. simpl. symmetry. apply Hq; [lia|lia|]. intros r Hr%list_elem_of_In.
      destruct (in_rect r x y) eqn:Er; [|done]. rewrite <- Ex. symmetry. apply existsb_exists. by exists r.
Qed.

(** ** Departures *)
Definition run_or (m : WindowManager) (es : list wm_event) : WindowManager := match wm_run m es with Ok m => m | _ => m end.
Definition frame_or (r : result unit (list Z * (Z * Z * Z * Z))) : list Z := match r with Ok (fb, _) => fb | _ => [] end.

Definition maximized_wm : WindowManager := run_or wm_new [EvCreate 2 2 1 1 5 None; EvMaximize 1 0 0 8 8; EvConsume].
Definition maximized_screen : list Z := frame_or (render 0 (scene_of 9 maximized_wm) (replicate 64 0) 8 8).

(** Restoring a maximised window marks only where it is afterwards: the rest of the screen keeps
    showing it. *)
Theorem unmaximize_leaves_pixels :
  exists m fb box, wm_run maximized_wm [EvMaximize 1 0 0 8 8] = Ok m
  /\ render 0 (scene_of 9 m) maximized_screen 8 8 = Ok (fb, box)
  /\ pix 8 fb 7 7 = 5 /\ scene_pixel 0 (scene_of 9 m) 7 7 = 9.
Proof. eexists _, _, _. split; [vm_compute; reflexivity|]. split; [vm_compute; reflexivity|]. split; vm_compute; reflexivity. Qed.

Definition tiled_wm : WindowManager := run_or wm_new [EvCreate 0 0 1 1 5 None; EvToggleTiling; EvRetile 16 12; EvConsume].
Definition tiled_screen : list Z := frame_or (render 0 (scene_of 9 tiled_wm) (replicate 192 0) 16 12).

(** Leaving the tiled layout marks only the restored windows: the tiles stay on the screen. *)
Theorem untile_leaves_pixels :
  exists m fb box, wm_run tiled_wm [EvToggleTiling; EvRetile 16 12] = Ok m
  /\ render 0 (scene_of 9 m) tiled_screen 16 12 = Ok (fb, box)
  /\ pix 16 fb 6 6 = 5 /\ scene_pixel 0 (scene_of 9 m) 6 6 = 9.
Proof. eexists _, _, _. split; [vm_compute; reflexivity|]. split; [vm_compute; reflexivity|]. split; vm_compute; reflexivity. Qed.

(** ** Witnesses *)
Definition two_windows : WindowManager := run_or wm_new [EvCreate 1 1 3 3 5 None; EvCreate 2 2 3 3 6 None; EvConsume].
Definition two_windows_screen : list Z := frame_or (render 0 (scene_of 9 two_windows) (replicate 64 0) 8 8).
Definition two_raised : WindowManager := run_or two_windows [EvRaise 1].

Lemma shows_check border fbw fbh s fb :
  forallb (fun y => forallb (fun x => pix fbw fb x y =? scene_pixel border s x y) (seqZ 0 fbw)) (seqZ 0 fbh) = true -> shows border fbw fbh s fb.
Proof.
  intros H x y Hx Hy. assert (y ∈ seqZ 0 fbh) as Hy' by (apply elem_of_seqZ; lia). assert (x ∈ seqZ 0 fbw) as Hx' by (apply elem_of_seqZ; lia).
  apply list_elem_of_In in Hx', Hy'. rewrite forallb_forall in H. specialize (H y Hy'). rewrite forallb_forall in H. by apply Z.eqb_eq, H.
Qed.

Lemma drawable_new b id x y w h c : near x -> near y -> 0 <= w <= 2 ^ 29 -> 0 <= h <= 2 ^ 29 -> drawable (set_focused b (window_new id x y w h c)).
Proof.
  intros Hx Hy Hw Hh. split; [by apply (window_new_small id x y w h c None)|].
  unfold window_new, surface_new. simpl. destruct (_ <? _); simpl; split_and!; try done; lia.
Qed.

Lemma wm_redraw_complete_witness :
  exists fb' box, render 0 (scene_of 9 two_raised) two_windows_screen 8 8 = Ok (fb', box) /\ shows 0 8 8 (scene_of 9 two_raised) fb'.
Proof.
  assert (wm_inv two_windows) as Hinv.
  { apply (wm_run_inv [EvCreate 1 1 3 3 5 None; EvCreate 2 2 3 3 6 None; EvConsume] wm_new); [apply wm_new_inv|vm_compute; reflexivity]. }
  apply (wm_redraw_complete 0 9 8 8 two_windows two_raised (EvRaise 1) two_windows_screen); [exact Hinv|reflexivity|reflexivity|reflexivity|exact I|..].
  - change (windows two_windows) with [set_focused false (window_new 1 1 1 3 3 5); set_focused true (window_new 2 2 2 3 3 6)].
    do 2 (apply Forall_cons_2; [apply drawable_new; unfold near; lia|]). constructor.
  - change (windows two_raised) with [set_focused false (window_new 2 2 2 3 3 6); set_focused true (window_new 1 1 1 3 3 5)].
    do 2 (apply Forall_cons_2; [apply drawable_new; unfold near; lia|]). constructor.
  - vm_compute. reflexivity.
  - unfold frame_ok. split; [lia|]. split; [lia|]. split; [vm_compute; reflexivity|vm_compute; discriminate].
  - apply shows_check. vm_compute. reflexivity.
Defined.
