(* ===== verification/Editor.v ===== *)
(** * The text editor

    [lattice/src/editor.rs]: rows of bytes with a cursor and a scroll offset.  Its operations
    refine an editor of one flat text split at the cursor.  Row and column numbers are natural
    numbers: they are at most the length of a vector, so one more of them fits a [usize].  Where
    the code adds a caller's viewport height, the sum is checked. *)
From S2P Require Import Prelude Rings.
#[local] Open Scope nat_scope.

(** ** Rows *)
Notation Row := (list Z) (only parsing).

(** [from_utf8(&self.data).unwrap_or("")]. *)
Definition as_str (r : Row) : list Z := match from_utf8 r with None => r | Some _ => [] end.

Definition row_insert (r : Row) (col : nat) (ch : Z) : Row :=
  let pos := col `min` length r in take pos r ++ ch :: drop pos r.
Definition row_remove (r : Row) (col : nat) : Row := if col <? length r then delete col r else r.
Definition row_split_off (r : Row) (col : nat) : Row * Row :=
  let pos := col `min` length r in (take pos r, drop pos r).

Definition starts_char (s : list Z) (i : nat) : bool := match s !! i with Some b => negb (is_cont b) | None => false end.
(** The first components of [char_indices()]. *)
Definition char_indices (s : list Z) : list nat :=
  filter (fun i => starts_char s i = true) (seq 0 (length s)).

(** ** The buffer *)
Record EditorBuffer := mkEditor { rows : list Row; cursor_row : nat; cursor_col : nat; scroll_row : nat; dirty : bool }.

Definition editor_new : EditorBuffer := mkEditor [[]] 0 0 0 false.

(** [str::lines]: pieces that end in a newline lose it, and a carriage return before it. *)
Definition strip_cr (piece : list Z) : list Z :=
  if bool_decide (last piece = Some 13%Z) then removelast piece else piece.
Fixpoint lines_loop (cur text : list Z) : list (list Z) :=
  match text with
  | [] => match cur with [] => [] | _ => [cur] end
  | b :: text => if (b =? 10)%Z then strip_cr cur :: lines_loop [] text else lines_loop (cur ++ [b]) text
  end.
Definition lines (text : list Z) : list (list Z) := lines_loop [] text.
Definition ends_with_newline (text : list Z) : bool := bool_decide (last text = Some 10%Z).

Definition from_text (text : list Z) : EditorBuffer :=
  let rs := lines text in
  let rs := if bool_decide (rs = []) || ends_with_newline text then rs ++ [[]] else rs in
  mkEditor rs 0 0 0 false.

(** [self.rows\[i\]]. *)
Definition row_at (e : EditorBuffer) (i : nat) : result unit Row := match rows e !! i with Some r => Ok r | None => Panic end.
Definition set_cursor (e : EditorBuffer) (r c : nat) : EditorBuffer := mkEditor (rows e) r c (scroll_row e) (dirty e).
Definition set_rows (e : EditorBuffer) (rs : list Row) : EditorBuffer := mkEditor rs (cursor_row e) (cursor_col e) (scroll_row e) (dirty e).
Definition set_scroll (e : EditorBuffer) (s : nat) : EditorBuffer := mkEditor (rows e) (cursor_row e) (cursor_col e) s (dirty e).
Definition set_dirty (e : EditorBuffer) : EditorBuffer := mkEditor (rows e) (cursor_row e) (cursor_col e) (scroll_row e) true.

Definition clamp_scroll (e : EditorBuffer) : EditorBuffer :=
  if cursor_row e <? scroll_row e then set_scroll e (cursor_row e) else e.

(** *** Cursor movement *)
Definition cursor_left (e : EditorBuffer) : result unit EditorBuffer :=
  let? e :=
    if 0 <? cursor_col e then
      let? row := row_at e (cursor_row e) in
      Ok (set_cursor e (cursor_row e) (default 0 (last (filter (fun i => i < cursor_col e) (char_indices (as_str row))))))
    else if 0 <? cursor_row e then
      let? row := row_at e (cursor_row e - 1) in
      Ok (set_cursor e (cursor_row e - 1) (length row))
    else Ok e in
  Ok (clamp_scroll e).

Definition cursor_right (e : EditorBuffer) : result unit EditorBuffer :=
  let? row := row_at e (cursor_row e) in
  let s := as_str row in
  let e :=
    if cursor_col e <? length s
    then set_cursor e (cursor_row e) (default (length s) (head (filter (fun i => cursor_col e < i) (char_indices s))))
    else if cursor_row e + 1 <? length (rows e) then set_cursor e (cursor_row e + 1) 0 else e in
  Ok (clamp_scroll e).

(** The column is cut to the row. *)
Definition clamp_col (e : EditorBuffer) : result unit EditorBuffer :=
  let? row := row_at e (cursor_row e) in
  Ok (if length row <? cursor_col e then set_cursor e (cursor_row e) (length row) else e).

Definition cursor_up (e : EditorBuffer) : result unit EditorBuffer :=
  let? e := if 0 <? cursor_row e then clamp_col (set_cursor e (cursor_row e - 1) (cursor_col e)) else Ok e in
  Ok (clamp_scroll e).
Definition cursor_down (e : EditorBuffer) : result unit EditorBuffer :=
  let? e := if cursor_row e + 1 <? length (rows e) then clamp_col (set_cursor e (cursor_row e + 1) (cursor_col e)) else Ok e in
  Ok (clamp_scroll e).
Definition cursor_home (e : EditorBuffer) : result unit EditorBuffer := Ok (clamp_scroll (set_cursor e (cursor_row e) 0)).
Definition cursor_end (e : EditorBuffer) : result unit EditorBuffer :=
  let? row := row_at e (cursor_row e) in Ok (clamp_scroll (set_cursor e (cursor_row e) (length row))).

Fixpoint rows_up (n r : nat) : nat := match n with O => r | S n => if 0 <? r then rows_up n (r - 1) else r end.
Fixpoint rows_down (n r count : nat) : nat := match n with O => r | S n => if r + 1 <? count then rows_down n (r + 1) count else r end.
Definition page_up (e : EditorBuffer) (viewport_rows : nat) : result unit EditorBuffer :=
  let? e := clamp_col (set_cursor e (rows_up viewport_rows (cursor_row e)) (cursor_col e)) in Ok (clamp_scroll e).
Definition page_down (e : EditorBuffer) (viewport_rows : nat) : result unit EditorBuffer :=
  let? e := clamp_col (set_cursor e (rows_down viewport_rows (cursor_row e) (length (rows e))) (cursor_col e)) in Ok (clamp_scroll e).

(** *** Editing *)
Definition insert_char (e : EditorBuffer) (ch : Z) : result unit EditorBuffer :=
  let e := set_dirty e in
  let? row := row_at e (cursor_row e) in
  if (ch =? 10)%Z then
    let '(hd, tl) := row_split_off row (cursor_col e) in
    let rs := <[cursor_row e := hd]> (rows e) in
    Ok (set_cursor (set_rows e (take (cursor_row e + 1) rs ++ tl :: drop (cursor_row e + 1) rs)) (cursor_row e + 1) 0)
  else
    Ok (set_cursor (set_rows e (<[cursor_row e := row_insert row (cursor_col e) ch]> (rows e))) (cursor_row e) (cursor_col e + 1)).

Definition backspace (e : EditorBuffer) : result unit EditorBuffer :=
  let e := set_dirty e in
  if 0 <? cursor_col e then
    let? row := row_at e (cursor_row e) in
    Ok (set_cursor (set_rows e (<[cursor_row e := row_remove row (cursor_col e - 1)]> (rows e))) (cursor_row e) (cursor_col e - 1))
  else if 0 <? cursor_row e then
    let? current := row_at e (cursor_row e) in
    let e := set_rows e (delete (cursor_row e) (rows e)) in
    let? prev := row_at e (cursor_row e - 1) in
    Ok (set_cursor (set_rows e (<[cursor_row e - 1 := prev ++ current]> (rows e))) (cursor_row e - 1) (length prev))
  else Ok e.

Definition delete_char (e : EditorBuffer) : result unit EditorBuffer :=
  let e := set_dirty e in
  let? row := row_at e (cursor_row e) in
  if cursor_col e <? length row then
    Ok (set_rows e (<[cursor_row e := row_remove row (cursor_col e)]> (rows e)))
  else if cursor_row e + 1 <? length (rows e) then
    let? next := row_at e (cursor_row e + 1) in
    Ok (set_rows e (<[cursor_row e := row ++ next]> (delete (cursor_row e + 1) (rows e))))
  else Ok e.

(** *** Scrolling *)
(** [a + b] of a [usize]. *)
Definition usize_add (a b : nat) : result unit nat := if (Z.of_nat (a + b) <=? u64_max)%Z then Ok (a + b) else Panic.
Definition usize_saturating_add (a b : nat) : nat := if (Z.of_nat (a + b) <=? u64_max)%Z then a + b else Z.to_nat u64_max.

Definition clamp_scroll_with_viewport (e : EditorBuffer) (viewport_rows : nat) : EditorBuffer :=
  if viewport_rows =? 0 then e else
  let last_visible := usize_saturating_add (scroll_row e) viewport_rows - 1 in
  let e :=
    if cursor_row e <? scroll_row e then set_scroll e (cursor_row e)
    else if last_visible <? cursor_row e then set_scroll e (cursor_row e - (viewport_rows - 1)) else e in
  if length (rows e) <? usize_saturating_add (scroll_row e) viewport_rows then
    let e := set_scroll e ((length (rows e) - viewport_rows) `min` scroll_row e) in
    if viewport_rows <=? length (rows e) then set_scroll e (length (rows e) - viewport_rows) else set_scroll e 0
  else e.

Definition ensure_cursor_visible (e : EditorBuffer) (viewport_rows : nat) : result unit EditorBuffer :=
  if viewport_rows =? 0 then Ok e else
  let? sum := usize_add (scroll_row e) viewport_rows in
  let last_visible := sum - 1 in
  let e :=
    if cursor_row e <? scroll_row e then set_scroll e (cursor_row e)
    else if last_visible <? cursor_row e then set_scroll e (cursor_row e - (viewport_rows - 1)) else e in
  let? sum := usize_add (scroll_row e) viewport_rows in
  Ok (if length (rows e) <? sum then set_scroll e (length (rows e) - 1 - (viewport_rows - 1)) else e).

Definition visible_lines (e : EditorBuffer) (viewport_rows : nat) : result unit (list (list Z)) :=
  let start := scroll_row e `min` length (rows e) in
  let? sum := usize_add start viewport_rows in
  let stop := sum `min` length (rows e) in
  Ok (as_str <$> take (stop - start) (drop start (rows e))).

Fixpoint text_loop (i : nat) (s : list Z) (rs : list Row) : list Z :=
  match rs with
  | [] => s
  | row :: rs => text_loop (S i) ((if 0 <? i then s ++ [10%Z] else s) ++ as_str row) rs
  end.
Definition full_text (e : EditorBuffer) : list Z := text_loop 0 [] (rows e).

(** *** Runs *)
Inductive editor_op :=
| Insert (ch : Z) | Backspace | Delete
| Left | Right | Up | Down | Home | End | PageUp (viewport_rows : nat) | PageDown (viewport_rows : nat).

Definition editor_step (op : editor_op) (e : EditorBuffer) : result unit EditorBuffer :=
  match op with
  | Insert ch => insert_char e ch
  | Backspace => backspace e
  | Delete => delete_char e
  | Left => cursor_left e
  | Right => cursor_right e
  | Up => cursor_up e
  | Down => cursor_down e
  | Home => cursor_home e
  | End => cursor_end e
  | PageUp n => page_up e n
  | PageDown n => page_down e n
  end.
Fixpoint editor_run (ops : list editor_op) (e : EditorBuffer) : result unit EditorBuffer :=
  match ops with [] => Ok e | op :: ops => let? e := editor_step op e in editor_run ops e end.

(** ** The specification: one text, split at the cursor

    The bytes before the cursor are kept in reverse. *)
Module Flat.
Definition state : Type := list Z * list Z.
Definition text (s : state) : list Z := rev s.1 ++ s.2.

(** Moves bytes back until one that begins a character has moved. *)
Fixpoint left_from (rb a : list Z) : state :=
  match rb with [] => ([], a) | b :: rb => if is_cont b then left_from rb (b :: a) else (rb, b :: a) end.
Fixpoint skip_cont (rb a : list Z) : state :=
  match a with [] => (rb, []) | b :: a' => if is_cont b then skip_cont (b :: rb) a' else (rb, a) end.
Definition right_from (rb a : list Z) : state := match a with [] => (rb, []) | b :: a => skip_cont (b :: rb) a end.
Fixpoint home_from (rb a : list Z) : state :=
  match rb with [] => ([], a) | b :: rb' => if (b =? 10)%Z then (rb, a) else home_from rb' (b :: a) end.
Fixpoint end_from (rb a : list Z) : state :=
  match a with [] => (rb, []) | b :: a' => if (b =? 10)%Z then (rb, a) else end_from (b :: rb) a' end.
(** At most [n] bytes forward within the line. *)
Fixpoint forth (n : nat) (rb a : list Z) : state :=
  match n, a with S n, b :: a' => if (b =? 10)%Z then (rb, a) else forth n (b :: rb) a' | _, _ => (rb, a) end.
Fixpoint column (rb : list Z) : nat := match rb with [] => 0 | b :: rb => if (b =? 10)%Z then 0 else S (column rb) end.

(** From the start of a line to the start of the one above, or below. *)
Definition line_up (s : state) : state := match s with (b :: rb, a) => home_from rb (b :: a) | _ => s end.
Definition line_down (s : state) : state :=
  match end_from s.1 s.2 with (rb, b :: a) => (b :: rb, a) | _ => s end.
Definition vertical (line : state -> state) (n : nat) (s : state) : state :=
  let s' := Nat.iter n line (home_from s.1 s.2) in forth (column s.1) s'.1 s'.2.

Definition step (op : editor_op) (s : state) : state :=
  match op with
  | Insert ch => (ch :: s.1, s.2)
  | Backspace => (tail s.1, s.2)
  | Delete => (s.1, tail s.2)
  | Left => left_from s.1 s.2
  | Right => right_from s.1 s.2
  | Up => vertical line_up 1 s
  | Down => vertical line_down 1 s
  | Home => home_from s.1 s.2
  | End => end_from s.1 s.2
  | PageUp n => vertical line_up n s
  | PageDown n => vertical line_down n s
  end.
Definition run (ops : list editor_op) (s : state) : state := fold_left (fun s op => step op s) ops s.
End Flat.

(** ** Well-formed buffers and what they stand for *)
Definition no_newline (r : Row) : Prop := Forall (fun b => b <> 10%Z) r.
Definition editor_wf (e : EditorBuffer) : Prop :=
  Forall no_newline (rows e) /\ exists row, rows e !! cursor_row e = Some row /\ cursor_col e <= length row.

Definition before_rows (rs : list Row) : list Z := concat ((fun r => r ++ [10%Z]) <$> rs).
Definition after_rows (rs : list Row) : list Z := concat (cons 10%Z <$> rs).
Definition split_at (rs : list Row) (r c : nat) : Flat.state :=
  let row := default [] (rs !! r) in
  (rev (take c row) ++ rev (before_rows (take r rs)), drop c row ++ after_rows (drop (S r) rs)).
Definition editor_abs (e : EditorBuffer) : Flat.state := split_at (rows e) (cursor_row e) (cursor_col e).

(** What stands before a row ends in a newline, and what follows it starts with one. *)
Definition stops (l : list Z) : Prop := match l with [] => True | b :: _ => b = 10%Z end.

Lemma before_stops rs : stops (rev (before_rows rs)).
Proof.
  destruct (decide (rs = [])) as [->|Hn]; [done|].
  destruct (exists_last Hn) as (rs' & r & ->). unfold before_rows.
  by rewrite fmap_app, concat_app, rev_app_distr; cbn; rewrite app_nil_r, rev_app_distr.
Qed.

Lemma after_stops rs : stops (after_rows rs).
Proof. by destruct rs. Qed.

Lemma before_rows_snoc rs r : rev (before_rows (rs ++ [r])) = 10%Z :: rev r ++ rev (before_rows rs).
Proof.
  unfold before_rows. rewrite fmap_app, concat_app, rev_app_distr. cbn.
  by rewrite app_nil_r, rev_app_distr.
Qed.

Lemma after_rows_cons r rs : after_rows (r :: rs) = 10%Z :: r ++ after_rows rs.
Proof. done. Qed.

Lemma split_at_row rs r c row : rs !! r = Some row ->
  split_at rs r c = (rev (take c row) ++ rev (before_rows (take r rs)), drop c row ++ after_rows (drop (S r) rs)).
Proof. intros Hr. unfold split_at. by rewrite Hr. Qed.

Lemma no_newline_row rs r row : Forall no_newline rs -> rs !! r = Some row -> no_newline row.
Proof. apply Forall_lookup_1. Qed.

Lemma no_newline_take n r : no_newline r -> no_newline (take n r).
Proof. apply Forall_take. Qed.
Lemma no_newline_drop n r : no_newline r -> no_newline (drop n r).
Proof. apply Forall_drop. Qed.

Create HintDb editor.
#[local] Hint Resolve before_stops after_stops no_newline_take no_newline_drop no_newline_row : editor.

(** *** Movement within and between lines *)
Lemma home_from_rev x P a : no_newline x -> stops P -> Flat.home_from (rev x ++ P) a = (P, x ++ a).
Proof.
  intros Hx HP. revert a. induction x as [|b x IH] using rev_ind; intros a.
  - destruct P as [|b P]; [done|]. cbn in *. by rewrite HP.
  - apply Forall_app in Hx as [Hx Hb]; apply Forall_inv in Hb. rewrite rev_app_distr. cbn.
    rewrite (proj2 (Z.eqb_neq _ _) Hb), IH by done. by rewrite <- app_assoc.
Qed.

Lemma end_from_app x rb R : no_newline x -> stops R -> Flat.end_from rb (x ++ R) = (rev x ++ rb, R).
Proof.
  intros Hx HR. revert rb. induction Hx as [|b x Hb Hx IH]; intros rb; cbn.
  - destruct R as [|b R]; [done|]. cbn in *. by rewrite HR.
  - rewrite (proj2 (Z.eqb_neq _ _) Hb), IH. by rewrite <- app_assoc.
Qed.

Lemma forth_app n x rb R : no_newline x -> stops R ->
  Flat.forth n rb (x ++ R) = (rev (take n x) ++ rb, drop n x ++ R).
Proof.
  intros Hx HR. revert n rb. induction Hx as [|b x Hb Hx IH]; intros [|n] rb; cbn; try done.
  - destruct R as [|b R]; [done|]. cbn in *. by rewrite HR.
  - rewrite (proj2 (Z.eqb_neq _ _) Hb), IH. by rewrite <- app_assoc.
Qed.

Lemma column_rev x P : no_newline x -> stops P -> Flat.column (rev x ++ P) = length x.
Proof.
  intros Hx HP. induction x as [|b x IH] using rev_ind.
  - destruct P as [|b P]; [done|]. cbn in *. by rewrite HP.
  - apply Forall_app in Hx as [Hx Hb]; apply Forall_inv in Hb. rewrite rev_app_distr. cbn.
    rewrite (proj2 (Z.eqb_neq _ _) Hb), IH, length_app by done. cbn. lia.
Qed.

Section Lines.
Context (rs : list Row) (Hrs : Forall no_newline rs).

Lemma split_home r c row : rs !! r = Some row ->
  Flat.home_from (split_at rs r c).1 (split_at rs r c).2 = split_at rs r 0.
Proof.
  intros Hr. rewrite !(split_at_row _ _ _ _ Hr). cbn [fst snd].
  rewrite home_from_rev by eauto with editor.
  by rewrite app_assoc, take_drop.
Qed.

Lemma split_end r c row : rs !! r = Some row ->
  Flat.end_from (split_at rs r c).1 (split_at rs r c).2 = split_at rs r (length row).
Proof.
  intros Hr. rewrite !(split_at_row _ _ _ _ Hr). cbn [fst snd].
  rewrite end_from_app by eauto with editor.
  by rewrite app_assoc, <- rev_app_distr, take_drop, firstn_all, drop_all.
Qed.

Lemma split_forth n r row : rs !! r = Some row ->
  Flat.forth n (split_at rs r 0).1 (split_at rs r 0).2 = split_at rs r (n `min` length row).
Proof.
  intros Hr. rewrite !(split_at_row _ _ _ _ Hr). cbn [fst snd].
  rewrite drop_0, forth_app by eauto with editor.
  destruct (Nat.min_spec n (length row)) as [[? ->]|[? ->]]; [done|].
  by rewrite (take_ge row n), (drop_ge row n), firstn_all, drop_all by done.
Qed.

Lemma split_column r c row : rs !! r = Some row -> c <= length row -> Flat.column (split_at rs r c).1 = c.
Proof.
  intros Hr Hc. rewrite (split_at_row _ _ _ _ Hr). cbn [fst].
  rewrite column_rev by eauto with editor.
  rewrite length_take. lia.
Qed.

Lemma split_line_up r row : rs !! r = Some row -> Flat.line_up (split_at rs r 0) = split_at rs (r - 1) 0.
Proof.
  intros Hr. destruct r as [|r]; [change (0 - 1) with 0; by rewrite (split_at_row _ _ _ _ Hr)|].
  destruct (lookup_lt_is_Some_2 rs r) as [prev Hp]; [apply lookup_lt_Some in Hr; lia|].
  rewrite (split_at_row _ _ _ _ Hr). replace (S r - 1) with r by lia. rewrite (split_at_row _ _ _ _ Hp).
  rewrite (take_S_r _ _ _ Hp), before_rows_snoc, (drop_S _ _ _ Hr), after_rows_cons, !take_0, !drop_0. cbn [Flat.line_up rev app].
  by rewrite home_from_rev by eauto with editor.
Qed.

Lemma split_line_down r row : rs !! r = Some row ->
  Flat.line_down (split_at rs r 0) = split_at rs (if r + 1 <? length rs then r + 1 else r) 0.
Proof.
  intros Hr. unfold Flat.line_down. rewrite (split_end _ _ _ Hr).
  rewrite (split_at_row _ _ (length row) _ Hr), firstn_all, drop_all. cbn [app].
  destruct (Nat.ltb_spec (r + 1) (length rs)) as [Hl|Hl].
  - destruct (lookup_lt_is_Some_2 rs (S r)) as [next Hn]; [lia|].
    replace (r + 1) with (S r) by lia. rewrite (split_at_row _ _ _ _ Hn).
    by rewrite (take_S_r _ _ _ Hr), before_rows_snoc, (drop_S _ _ _ Hn), after_rows_cons.
  - by rewrite drop_ge by lia.
Qed.

Lemma rows_up_lt n r : r < length rs -> rows_up n r < length rs.
Proof. revert r. induction n as [|n IH]; intros r Hr; cbn [rows_up]; [done|]. case_match; [apply IH; lia|done]. Qed.
Lemma rows_down_lt n r : r < length rs -> rows_down n r (length rs) < length rs.
Proof.
  revert r. induction n as [|n IH]; intros r Hr; cbn [rows_down]; [done|].
  destruct (Nat.ltb_spec (r + 1) (length rs)); [by apply IH|done].
Qed.

Lemma iter_fixed {A} (f : A -> A) n x : f x = x -> Nat.iter n f x = x.
Proof. intros Hx. induction n as [|n IH]; [done|]. by rewrite Nat.iter_succ, IH. Qed.

Lemma split_lines_up n r : r < length rs ->
  Nat.iter n Flat.line_up (split_at rs r 0) = split_at rs (rows_up n r) 0.
Proof.
  revert r. induction n as [|n IH]; intros r Hr; [done|]. destruct (lookup_lt_is_Some_2 rs r Hr) as [row Hrow].
  rewrite Nat.iter_succ_r, (split_line_up _ _ Hrow). cbn [rows_up].
  destruct (Nat.ltb_spec 0 r); [apply IH; lia|]. assert (r = 0) as -> by lia.
  apply iter_fixed. by rewrite (split_line_up _ _ Hrow).
Qed.

Lemma split_lines_down n r : r < length rs ->
  Nat.iter n Flat.line_down (split_at rs r 0) = split_at rs (rows_down n r (length rs)) 0.
Proof.
  revert r. induction n as [|n IH]; intros r Hr; [done|]. destruct (lookup_lt_is_Some_2 rs r Hr) as [row Hrow].
  rewrite Nat.iter_succ_r, (split_line_down _ _ Hrow). cbn [rows_down].
  destruct (Nat.ltb_spec (r + 1) (length rs)); [by apply IH|].
  apply iter_fixed. rewrite (split_line_down _ _ Hrow).
  by rewrite (proj2 (Nat.ltb_ge _ _)) by lia.
Qed.

(** A vertical move lands in the row reached, at the column cut to it. *)
Lemma split_vertical line n r c r' row row' :
  rs !! r = Some row -> c <= length row -> rs !! r' = Some row' ->
  Nat.iter n line (split_at rs r 0) = split_at rs r' 0 ->
  Flat.vertical line n (split_at rs r c) = split_at rs r' (c `min` length row').
Proof.
  intros Hr Hc Hr' Hi. unfold Flat.vertical.
  by rewrite (split_home _ _ _ Hr), Hi, (split_column _ _ _ Hr Hc), (split_forth _ _ _ Hr').
Qed.
End Lines.

(** *** Movement by a character *)
Lemma filter_keep {A} (P : A -> Prop) `{!forall x, Decision (P x)} l : Forall P l -> filter P l = l.
Proof. induction 1 as [|x l Hx Hl IH]; [done|]. by rewrite filter_cons_True, IH. Qed.
Lemma filter_drop_all {A} (P : A -> Prop) `{!forall x, Decision (P x)} l : Forall (fun x => ~ P x) l -> filter P l = [].
Proof. induction 1 as [|x l Hx Hl IH]; [done|]. by rewrite filter_cons_False. Qed.

(** The positions from [i] on, [n] of them, at which a character starts. *)
Definition starts (s : list Z) (i n : nat) : list nat := filter (fun i => starts_char s i = true) (seq i n).

Lemma starts_range s i n : Forall (fun j => i <= j < i + n) (starts s i n).
Proof. apply Forall_forall. intros j [_ Hj]%list_elem_of_filter. by apply elem_of_seq in Hj. Qed.

Lemma starts_app s i n m : starts s i (n + m) = starts s i n ++ starts s (i + n) m.
Proof. unfold starts. by rewrite seq_app, filter_app. Qed.

Lemma starts_one s i : starts s i 1 = if starts_char s i then [i] else [].
Proof.
  unfold starts. cbn [seq]. destruct (starts_char s i) eqn:E.
  - by rewrite filter_cons_True.
  - rewrite filter_cons_False; [done|]. by rewrite E.
Qed.

Lemma char_indices_split s c : c <= length s -> char_indices s = starts s 0 c ++ starts s c (length s - c).
Proof. intros Hc. rewrite <- (starts_app s 0 c). unfold char_indices, starts. do 2 f_equal. lia. Qed.

Lemma char_indices_below s c : c <= length s -> filter (fun i => i < c) (char_indices s) = starts s 0 c.
Proof.
  intros Hc. rewrite (char_indices_split s c), filter_app, filter_keep, filter_drop_all, app_nil_r; try done;
    eapply Forall_impl; [apply starts_range| |apply starts_range|]; cbn; lia.
Qed.

Lemma char_indices_above s c : c < length s ->
  filter (fun i => c < i) (char_indices s) = starts s (S c) (length s - S c).
Proof.
  intros Hc. rewrite (char_indices_split s (S c)), filter_app, filter_drop_all, filter_keep; try done;
    eapply Forall_impl; [apply starts_range| |apply starts_range|]; cbn; lia.
Qed.

Lemma left_from_row row c P R :
  starts_char row 0 = true -> c < length row ->
  exists i, last (starts row 0 (S c)) = Some i /\ i <= length row /\
    Flat.left_from (rev (take (S c) row) ++ P) (drop (S c) row ++ R) = (rev (take i row) ++ P, drop i row ++ R).
Proof.
  intros H0. induction c as [|c IH]; intros Hc; destruct (lookup_lt_is_Some_2 row _ Hc) as [b Hb];
    rewrite (take_S_r _ _ _ Hb), rev_app_distr; cbn [rev app Flat.left_from].
  - exists 0. rewrite (starts_one row 0), H0. split; [done|]. split; [lia|].
    unfold starts_char in H0. rewrite Hb in H0. apply negb_true_iff in H0. rewrite H0.
    by rewrite (drop_S _ _ _ Hb).
  - replace (S (S c)) with (S c + 1) by lia. rewrite (starts_app row 0 (S c) 1), starts_one. cbn [Nat.add].
    replace (c + 1) with (S c) by lia.
    destruct (starts_char row (S c)) eqn:E; unfold starts_char in E; rewrite Hb in E.
    + exists (S c). rewrite last_snoc. split; [done|]. split; [lia|]. apply negb_true_iff in E. rewrite E.
      by rewrite (drop_S _ _ _ Hb).
    + apply negb_false_iff in E. rewrite E, app_nil_r. destruct IH as (i & Hi & Hl & He); [lia|].
      exists i. split; [done|]. split; [done|]. rewrite <- He. by rewrite (drop_S _ _ _ Hb).
Qed.

Lemma skip_cont_row row P R : stops R -> forall n c, c + n = length row ->
  exists i, default (length row) (head (starts row c n)) = i /\ i <= length row /\
    Flat.skip_cont (rev (take c row) ++ P) (drop c row ++ R) = (rev (take i row) ++ P, drop i row ++ R).
Proof.
  intros HR. induction n as [|n IH]; intros c Hc.
  - exists (length row). split; [done|]. split; [done|]. assert (c = length row) as -> by lia.
    rewrite drop_all. destruct R as [|b R]; [done|]. cbn in HR. by subst b.
  - destruct (lookup_lt_is_Some_2 row c) as [b Hb]; [lia|].
    change (S n) with (1 + n). rewrite (starts_app row c 1 n), starts_one, (drop_S _ _ _ Hb). cbn [app Flat.skip_cont].
    destruct (starts_char row c) eqn:E; unfold starts_char in E; rewrite Hb in E.
    + exists c. split; [done|]. split; [lia|]. apply negb_true_iff in E. by rewrite E, (drop_S _ _ _ Hb).
    + apply negb_false_iff in E. rewrite E. destruct (IH (c + 1)) as (i & Hi & Hl & He); [lia|].
      exists i. split; [done|]. split; [done|]. rewrite <- He. replace (c + 1) with (S c) by lia.
      by rewrite (take_S_r _ _ _ Hb), rev_app_distr.
Qed.

(** A valid string starts with a character. *)
Lemma valid_starts row : valid_utf8 row -> 0 < length row -> starts_char row 0 = true.
Proof.
  unfold valid_utf8, from_utf8, starts_char. destruct row as [|b row]; cbn [length]; [lia|]. intros Hv _.
  cbn [validate lookup list_lookup] in *. unfold first_item in Hv. unfold is_cont, in_range in *.
  repeat case_match; try done; lia.
Qed.

(** *** Every operation refines its flat counterpart *)
Definition is_edit (op : editor_op) : bool := match op with Insert _ | Backspace | Delete => true | _ => false end.
Definition is_char_move (op : editor_op) : bool := match op with Left | Right => true | _ => false end.

Definition step_refined (op : editor_op) (e : EditorBuffer) : Prop :=
  exists e', editor_step op e = Ok e' /\ editor_wf e' /\ editor_abs e' = Flat.step op (editor_abs e) /\
    dirty e' = dirty e || is_edit op.

Lemma clamp_scroll_fields e :
  rows (clamp_scroll e) = rows e /\ cursor_row (clamp_scroll e) = cursor_row e /\
  cursor_col (clamp_scroll e) = cursor_col e /\ dirty (clamp_scroll e) = dirty e.
Proof. unfold clamp_scroll. by case_match. Qed.

Lemma move_refined op e r c row : Forall no_newline (rows e) ->
  rows e !! r = Some row -> c <= length row -> is_edit op = false ->
  editor_step op e = Ok (clamp_scroll (set_cursor e r c)) ->
  Flat.step op (editor_abs e) = split_at (rows e) r c -> step_refined op e.
Proof.
  intros Hn Hr Hc Hop Hs Hf. exists (clamp_scroll (set_cursor e r c)).
  destruct (clamp_scroll_fields (set_cursor e r c)) as (E1 & E2 & E3 & E4).
  split; [done|]. split; [|split].
  - split; [by rewrite E1|]. exists row. by rewrite E1, E2, E3.
  - unfold editor_abs at 1. by rewrite E1, E2, E3, Hf.
  - by rewrite E4, Hop, orb_false_r.
Qed.

Lemma set_cursor_same e : set_cursor e (cursor_row e) (cursor_col e) = e.
Proof. by destruct e. Qed.

Lemma set_cursor_eq e r c : cursor_row e = r -> cursor_col e = c -> set_cursor e r c = e.
Proof. intros <- <-. apply set_cursor_same. Qed.

Lemma clamp_col_row e row : rows e !! cursor_row e = Some row ->
  clamp_col e = Ok (set_cursor e (cursor_row e) (cursor_col e `min` length row)).
Proof.
  intros Hr. unfold clamp_col, row_at. rewrite Hr. f_equal.
  destruct (Nat.ltb_spec (length row) (cursor_col e)); [by rewrite Nat.min_r by lia|].
  by rewrite Nat.min_l, set_cursor_same by lia.
Qed.

Section Steps.
Context (e : EditorBuffer) (Hn : Forall no_newline (rows e)).
Context (row : Row) (Hr : rows e !! cursor_row e = Some row) (Hc : cursor_col e <= length row).

Let row_in : cursor_row e < length (rows e) := lookup_lt_Some _ _ _ Hr.

Lemma home_refined : step_refined Home e.
Proof. apply (move_refined _ e (cursor_row e) 0 row); try done; [lia|]. by apply (split_home _ Hn _ _ row). Qed.

Lemma end_refined : step_refined End e.
Proof.
  apply (move_refined _ e (cursor_row e) (length row) row); try done.
  - cbn. unfold cursor_end, row_at. by rewrite Hr.
  - by apply split_end.
Qed.

Lemma vertical_refined op line n r' :
  r' < length (rows e) -> is_edit op = false ->
  (forall row', rows e !! r' = Some row' ->
    editor_step op e = Ok (clamp_scroll (set_cursor e r' (cursor_col e `min` length row')))) ->
  Flat.step op (editor_abs e) = Flat.vertical line n (editor_abs e) ->
  Nat.iter n line (split_at (rows e) (cursor_row e) 0) = split_at (rows e) r' 0 -> step_refined op e.
Proof.
  intros Hl Hop Hs Hf Hi. destruct (lookup_lt_is_Some_2 _ _ Hl) as [row' Hr'].
  apply (move_refined _ e r' (cursor_col e `min` length row') row'); try done; [lia|by apply Hs|].
  rewrite Hf. by apply (split_vertical _ Hn line n _ _ _ row).
Qed.

Lemma page_up_refined n : step_refined (PageUp n) e.
Proof.
  pose proof (rows_up_lt _ n _ row_in) as Hl. apply (vertical_refined _ Flat.line_up n (rows_up n (cursor_row e))); try done.
  - intros row' Hr'. cbn. unfold page_up. by rewrite (clamp_col_row _ row').
  - by apply split_lines_up.
Qed.

Lemma page_down_refined n : step_refined (PageDown n) e.
Proof.
  pose proof (rows_down_lt _ n _ row_in) as Hl.
  apply (vertical_refined _ Flat.line_down n (rows_down n (cursor_row e) (length (rows e)))); try done.
  - intros row' Hr'. cbn. unfold page_down. by rewrite (clamp_col_row _ row').
  - by apply split_lines_down.
Qed.

Lemma stay_col : set_cursor e (cursor_row e) (cursor_col e `min` length row) = e.
Proof. rewrite Nat.min_l by lia. apply set_cursor_same. Qed.

Lemma up_refined : step_refined Up e.
Proof.
  pose proof (rows_up_lt _ 1 _ row_in) as Hl. apply (vertical_refined _ Flat.line_up 1 (rows_up 1 (cursor_row e))); try done.
  - intros row' Hr'. revert Hr'. cbn [rows_up editor_step]. unfold cursor_up.
    destruct (Nat.ltb_spec 0 (cursor_row e)); intros Hr'.
    + by rewrite (clamp_col_row _ row').
    + assert (row' = row) as -> by congruence. by rewrite stay_col.
  - by apply split_lines_up.
Qed.

Lemma down_refined : step_refined Down e.
Proof.
  pose proof (rows_down_lt _ 1 _ row_in) as Hl.
  apply (vertical_refined _ Flat.line_down 1 (rows_down 1 (cursor_row e) (length (rows e)))); try done.
  - intros row' Hr'. revert Hr'. cbn [rows_down editor_step]. unfold cursor_down.
    destruct (Nat.ltb_spec (cursor_row e + 1) (length (rows e))); intros Hr'.
    + by rewrite (clamp_col_row _ row').
    + assert (row' = row) as -> by congruence. by rewrite stay_col.
  - by apply split_lines_down.
Qed.

Lemma skip_cont_stop next rb R : valid_utf8 next -> stops R -> Flat.skip_cont rb (next ++ R) = (rb, next ++ R).
Proof.
  intros Hv HR. destruct next as [|b next].
  - destruct R as [|b R]; [done|]. cbn in HR. by subst b.
  - pose proof (valid_starts (b :: next) Hv ltac:(cbn; lia)) as Hb. cbn in *. apply negb_true_iff in Hb. by rewrite Hb.
Qed.

(** The character moves need text: [as_str] of other bytes is empty. *)
Lemma left_refined : Forall valid_utf8 (rows e) -> step_refined Left e.
Proof.
  intros Hvs. pose proof (Forall_lookup_1 _ _ _ _ Hvs Hr) as Hv. destruct (cursor_col e) as [|c] eqn:Ec; [destruct (cursor_row e) as [|r] eqn:Er|].
  - apply (move_refined _ e 0 0 row); try done.
    + rewrite set_cursor_eq by done. cbn [editor_step]. unfold cursor_left. by rewrite Ec, Er.
    + unfold editor_abs. by rewrite Ec, Er, !(split_at_row _ _ _ _ Hr).
  - destruct (lookup_lt_is_Some_2 (rows e) r) as [prev Hp]; [lia|].
    apply (move_refined _ e r (length prev) prev); try done.
    + cbn [editor_step]. unfold cursor_left, row_at. rewrite Ec, Er. cbn. by rewrite Nat.sub_0_r, Hp.
    + unfold editor_abs. rewrite Ec, Er, (split_at_row _ _ _ _ Hr), (split_at_row _ _ _ _ Hp).
      rewrite (take_S_r _ _ _ Hp), before_rows_snoc, (drop_S _ _ _ Hr), after_rows_cons.
      by rewrite firstn_all, drop_all.
  - destruct (left_from_row row c (rev (before_rows (take (cursor_row e) (rows e))))
      (after_rows (drop (S (cursor_row e)) (rows e)))) as (i & Hi & Hl & He); [apply valid_starts; [done|lia]|lia|].
    apply (move_refined _ e (cursor_row e) i row); try done.
    + cbn [editor_step]. unfold cursor_left, row_at, as_str. rewrite Ec, Hr, Hv. cbn [Nat.ltb Nat.leb].
      by rewrite char_indices_below, Hi by lia.
    + unfold editor_abs. by rewrite Ec, !(split_at_row _ _ _ _ Hr).
Qed.

Lemma right_refined : Forall valid_utf8 (rows e) -> step_refined Right e.
Proof.
  intros Hvs. pose proof (Forall_lookup_1 _ _ _ _ Hvs Hr) as Hv. assert (as_str row = row) as Hs by (unfold as_str; by rewrite Hv).
  destruct (Nat.ltb_spec (cursor_col e) (length row)) as [Hlt|Hge].
  - destruct (lookup_lt_is_Some_2 row _ Hlt) as [b Hb].
    destruct (skip_cont_row row (rev (before_rows (take (cursor_row e) (rows e)))) _
      (after_stops (drop (S (cursor_row e)) (rows e))) (length row - S (cursor_col e)) (S (cursor_col e)))
      as (i & Hi & Hl & He); [lia|].
    apply (move_refined _ e (cursor_row e) i row); try done.
    + cbn [editor_step]. unfold cursor_right, row_at. rewrite Hr, Hs, (proj2 (Nat.ltb_lt _ _) Hlt).
      by rewrite char_indices_above, Hi by done.
    + unfold editor_abs. rewrite !(split_at_row _ _ _ _ Hr), <- He, (drop_S _ _ _ Hb), (take_S_r _ _ _ Hb), rev_app_distr.
      done.
  - assert (cursor_col e = length row) as Ec by lia.
    destruct (Nat.ltb_spec (cursor_row e + 1) (length (rows e))) as [Hnx|Hnx].
    + destruct (lookup_lt_is_Some_2 _ _ Hnx) as [next Hx]. apply (move_refined _ e (cursor_row e + 1) 0 next); try done; [lia| |].
      * cbn [editor_step]. unfold cursor_right, row_at. rewrite Hr, Hs, (proj2 (Nat.ltb_ge _ _) Hge). by rewrite (proj2 (Nat.ltb_lt _ _) Hnx).
      * unfold editor_abs. rewrite Ec, (split_at_row _ _ _ _ Hr), (split_at_row _ _ _ _ Hx).
        replace (cursor_row e + 1) with (S (cursor_row e)) in * by lia.
        rewrite firstn_all, drop_all, (drop_S _ _ _ Hx), (take_S_r _ _ _ Hr), before_rows_snoc, after_rows_cons, take_0, drop_0.
        cbn [Flat.step fst snd app Flat.right_from rev].
        apply skip_cont_stop; [by apply (Forall_lookup_1 _ _ _ _ Hvs Hx)|apply after_stops].
    + apply (move_refined _ e (cursor_row e) (cursor_col e) row); try done.
      * cbn [editor_step]. unfold cursor_right, row_at. rewrite Hr, Hs, (proj2 (Nat.ltb_ge _ _) Hge), (proj2 (Nat.ltb_ge _ _) Hnx).
        by rewrite set_cursor_same.
      * unfold editor_abs. rewrite Ec, !(split_at_row _ _ _ _ Hr), drop_all, drop_ge by lia. done.
Qed.
End Steps.

(** *** Editing *)
Lemma drop_mid {A} (pre : list A) x post : drop (S (length pre)) (pre ++ x :: post) = post.
Proof. induction pre as [|z pre IH]; [done|]. cbn in *. apply IH. Qed.
Lemma take_mid {A} (pre : list A) x post : take (S (length pre)) (pre ++ x :: post) = pre ++ [x].
Proof. induction pre as [|z pre IH]; [done|]. cbn in *. by rewrite IH. Qed.

Lemma split_at_mid pre row post c :
  split_at (pre ++ row :: post) (length pre) c =
    (rev (take c row) ++ rev (before_rows pre), drop c row ++ after_rows post).
Proof.
  rewrite (split_at_row _ _ _ row) by (by apply list_lookup_middle).
  by rewrite take_app_length, drop_mid.
Qed.

Lemma insert_mid {A} (pre : list A) x y post : <[length pre := x]> (pre ++ y :: post) = pre ++ x :: post.
Proof. induction pre as [|z pre IH]; [done|]. change (z :: <[length pre := x]> (pre ++ y :: post) = z :: pre ++ x :: post). by rewrite IH. Qed.

Lemma editor_wf_inv e : editor_wf e -> exists pre row post,
  e = mkEditor (pre ++ row :: post) (length pre) (cursor_col e) (scroll_row e) (dirty e) /\
  cursor_col e <= length row /\ Forall no_newline pre /\ no_newline row /\ Forall no_newline post.
Proof.
  destruct e as [rs r c s d]. intros (Hn & row & Hr & Hc). cbn in *.
  pose proof (take_drop_middle rs r row Hr) as Hs. exists (take r rs), row, (drop (S r) rs).
  rewrite Hs, length_take, Nat.min_l by (apply lookup_lt_Some in Hr; lia). split_and!; try done.
  - by apply Forall_take.
  - by apply (Forall_lookup_1 _ _ _ _ Hn Hr).
  - by apply Forall_drop.
Qed.

Lemma edit_refined op e pre row post c s :
  Forall no_newline pre -> no_newline row -> Forall no_newline post -> c <= length row -> is_edit op = true ->
  editor_step op e = Ok (mkEditor (pre ++ row :: post) (length pre) c s true) ->
  Flat.step op (editor_abs e) = (rev (take c row) ++ rev (before_rows pre), drop c row ++ after_rows post) ->
  step_refined op e.
Proof.
  intros H1 H2 H3 Hc Hop Hs Hf. eexists. split; [done|]. split; [|split].
  - split; [cbn; by apply Forall_app, conj, Forall_cons|]. exists row. cbn. by rewrite list_lookup_middle.
  - by rewrite Hf, <- split_at_mid.
  - by rewrite Hop, orb_true_r.
Qed.

Lemma row_at_mid pre row post c s d i : i = length pre -> row_at (mkEditor (pre ++ row :: post) (length pre) c s d) i = Ok row.
Proof. intros ->. unfold row_at. cbn. by rewrite list_lookup_middle. Qed.

Lemma insert_refined e ch : editor_wf e -> step_refined (Insert ch) e.
Proof.
  intros (pre & row & post & He & Hc & H1 & H2 & H3)%editor_wf_inv. remember (cursor_col e) as c. rewrite He. clear He.
  assert (c `min` length row = c) as Hm by lia.
  destruct (Z.eqb_spec ch 10) as [->|Hch].
  - apply (edit_refined _ _ (pre ++ [take c row]) (drop c row) post 0 (scroll_row e)); try done; try lia.
    + apply Forall_app. split; [done|]. by apply Forall_singleton, no_newline_take.
    + by apply no_newline_drop.
    + cbn [editor_step]. unfold insert_char, set_dirty. cbn [cursor_row cursor_col rows scroll_row].
      rewrite row_at_mid by done. cbn. unfold row_split_off. rewrite Hm, insert_mid.
      unfold set_cursor, set_rows. cbn. f_equal. f_equal; [|rewrite length_app; cbn; lia].
      by rewrite Nat.add_1_r, take_mid, drop_mid.
    + unfold editor_abs. cbn [rows cursor_row cursor_col]. rewrite split_at_mid, before_rows_snoc. done.
  - apply (edit_refined _ _ pre (take c row ++ ch :: drop c row) post (c + 1) (scroll_row e)); try done.
    + apply Forall_app. split; [by apply no_newline_take|]. apply Forall_cons. split; [done|by apply no_newline_drop].
    + rewrite length_app. cbn. rewrite length_take, length_drop. lia.
    + cbn [editor_step]. unfold insert_char, set_dirty. cbn [cursor_row cursor_col rows scroll_row].
      rewrite row_at_mid by done. rewrite (proj2 (Z.eqb_neq _ _) Hch). unfold row_insert. by rewrite Hm, insert_mid.
    + unfold editor_abs. cbn [rows cursor_row cursor_col]. rewrite split_at_mid. cbn [Flat.step fst snd].
      assert (length (take c row) = c) as Hl by (rewrite length_take; lia).
      replace (c + 1) with (S (length (take c row))) by lia. by rewrite take_mid, drop_mid, rev_app_distr.
Qed.

Lemma row_remove_in (row : Row) c : c < length row -> row_remove row c = take c row ++ drop (S c) row.
Proof. intros Hc. unfold row_remove. by rewrite (proj2 (Nat.ltb_lt _ _) Hc), delete_take_drop. Qed.

Lemma no_newline_remove row c : no_newline row -> no_newline (take c row ++ drop (S c) row).
Proof. intros Hr. apply Forall_app. split; [by apply no_newline_take|by apply no_newline_drop]. Qed.

Lemma split_removed (row : Row) c : c < length row ->
  length (take c row) = c /\ take c (take c row ++ drop (S c) row) = take c row /\
  drop c (take c row ++ drop (S c) row) = drop (S c) row /\ c <= length (take c row ++ drop (S c) row).
Proof.
  intros Hc. assert (length (take c row) = c) as Hl by (rewrite length_take; lia).
  rewrite length_app, take_app_length', drop_app_length' by done. split_and!; try done. lia.
Qed.

Lemma backspace_refined e : editor_wf e -> step_refined Backspace e.
Proof.
  intros (pre & row & post & He & Hc & H1 & H2 & H3)%editor_wf_inv. remember (cursor_col e) as c. rewrite He. clear He.
  destruct c as [|c].
  - destruct (decide (pre = [])) as [->|Hpre].
    + by apply (edit_refined _ _ [] row post 0 (scroll_row e)).
    + destruct (exists_last Hpre) as (pre' & prev & ->). apply Forall_app in H1 as [H1 Hp]. apply Forall_inv in Hp.
      assert (length (pre' ++ [prev]) = S (length pre')) as Hl by (rewrite length_app; cbn; lia).
      apply (edit_refined _ _ pre' (prev ++ row) post (length prev) (scroll_row e)); try done.
      * by apply Forall_app.
      * rewrite length_app. lia.
      * cbn [editor_step]. unfold backspace, set_dirty. cbn [cursor_row cursor_col rows scroll_row Nat.ltb Nat.leb].
        rewrite row_at_mid by done. unfold set_rows. cbn [cursor_row cursor_col rows scroll_row dirty].
        rewrite delete_middle, Hl, <- app_assoc. cbn [Nat.leb app]. replace (S (length pre') - 1) with (length pre') by lia.
        unfold row_at. cbn [rows]. by rewrite list_lookup_middle, insert_mid by done.
      * unfold editor_abs. cbn [rows cursor_row cursor_col]. rewrite split_at_mid, before_rows_snoc.
        by rewrite take_app_length, drop_app_length.
  - destruct (lookup_lt_is_Some_2 row c) as [b Hb]; [lia|]. destruct (split_removed row c) as (Hl & Ht & Hd & Hle); [lia|].
    apply (edit_refined _ _ pre (take c row ++ drop (S c) row) post c (scroll_row e)); try done.
    + by apply no_newline_remove.
    + cbn [editor_step]. unfold backspace, set_dirty. cbn [cursor_row cursor_col rows scroll_row Nat.ltb Nat.leb].
      rewrite row_at_mid by done. replace (S c - 1) with c by lia. by rewrite insert_mid, row_remove_in by lia.
    + unfold editor_abs. cbn [rows cursor_row cursor_col]. rewrite split_at_mid, Ht, Hd, (take_S_r _ _ _ Hb), rev_app_distr. done.
Qed.

Lemma delete_refined e : editor_wf e -> step_refined Delete e.
Proof.
  intros (pre & row & post & He & Hc & H1 & H2 & H3)%editor_wf_inv. remember (cursor_col e) as c. rewrite He. clear He.
  assert (forall e', delete_char (mkEditor (pre ++ row :: post) (length pre) c (scroll_row e) (dirty e)) = Ok e' ->
    editor_step Delete (mkEditor (pre ++ row :: post) (length pre) c (scroll_row e) (dirty e)) = Ok e') as Hstep by done.
  unfold delete_char, set_dirty in Hstep. cbn [cursor_row cursor_col rows scroll_row] in Hstep.
  rewrite row_at_mid in Hstep by done.
  destruct (Nat.ltb_spec c (length row)) as [Hlt|Hge].
  - destruct (lookup_lt_is_Some_2 row c Hlt) as [b Hb]. destruct (split_removed row c Hlt) as (Hl & Ht & Hd & Hle).
    apply (edit_refined _ _ pre (take c row ++ drop (S c) row) post c (scroll_row e)); try done.
    + by apply no_newline_remove.
    + apply Hstep. by rewrite insert_mid, row_remove_in.
    + unfold editor_abs. cbn [rows cursor_row cursor_col]. by rewrite split_at_mid, Ht, Hd, (drop_S _ _ _ Hb).
  - assert (c = length row) as Ec by lia. destruct post as [|next post].
    + apply (edit_refined _ _ pre row [] c (scroll_row e)); try done.
      * apply Hstep. rewrite (proj2 (Nat.ltb_ge _ _)); [done|]. rewrite length_app. cbn. lia.
      * unfold editor_abs. cbn [rows cursor_row cursor_col]. by rewrite split_at_mid, Ec, drop_all.
    + apply Forall_cons in H3 as [Hx H3]. apply (edit_refined _ _ pre (row ++ next) post c (scroll_row e)); try done.
      * by apply Forall_app.
      * rewrite length_app. lia.
      * apply Hstep. rewrite (proj2 (Nat.ltb_lt _ _)) by (rewrite length_app; cbn; lia).
        rewrite (cons_middle row), app_assoc. assert (length pre + 1 = length (pre ++ [row])) as Hl by (rewrite length_app; cbn; lia).
        unfold row_at. cbn [rows]. rewrite Hl, list_lookup_middle by done. unfold set_rows. cbn [cursor_row cursor_col rows scroll_row dirty].
        rewrite delete_middle, <- app_assoc. cbn [app]. by rewrite insert_mid.
      * unfold editor_abs. cbn [rows cursor_row cursor_col]. rewrite split_at_mid, Ec, firstn_all, drop_all.
        by rewrite take_app_length, drop_app_length.
Qed.

Lemma editor_step_refined op e : editor_wf e -> (is_char_move op = true -> Forall valid_utf8 (rows e)) -> step_refined op e.
Proof.
  intros Hwf Hv. pose proof Hwf as (Hn & row & Hr & Hc). destruct op.
  - by apply insert_refined.
  - by apply backspace_refined.
  - by apply delete_refined.
  - by apply (left_refined e Hn row Hr Hc), Hv.
  - by apply (right_refined e Hn row Hr Hc), Hv.
  - by apply (up_refined e Hn row).
  - by apply (down_refined e Hn row).
  - by apply (home_refined e Hn row).
  - by apply (end_refined e Hn row).
  - by apply (page_up_refined e Hn row).
  - by apply (page_down_refined e Hn row).
Qed.

(** ** The text of a buffer *)
Lemma before_after p pre row post :
  before_rows (p :: pre) ++ row ++ after_rows post = p ++ after_rows (pre ++ row :: post).
Proof.
  revert p. induction pre as [|q pre IH]; intros p.
  - unfold before_rows, after_rows. cbn. by rewrite app_nil_r, <- app_assoc.
  - change (before_rows (p :: q :: pre)) with ((p ++ [10%Z]) ++ before_rows (q :: pre)).
    rewrite <- app_assoc, IH, <- app_assoc. done.
Qed.

Definition joined (rs : list Row) : list Z := match rs with [] => [] | r :: rs => r ++ after_rows rs end.

Lemma text_split rs r c row : rs !! r = Some row -> Flat.text (split_at rs r c) = joined rs.
Proof.
  intros Hr. rewrite (split_at_row _ _ _ _ Hr). unfold Flat.text. cbn [fst snd].
  rewrite rev_app_distr, !rev_involutive, <- app_assoc, (app_assoc (take c row)), take_drop.
  rewrite <- (take_drop_middle rs r row Hr) at 3. destruct (take r rs) as [|p pre]; [done|]. apply before_after.
Qed.

Lemma text_loop_joined i s rs : Forall valid_utf8 rs -> text_loop (S i) s rs = s ++ after_rows rs.
Proof.
  intros Hv. revert i s. induction Hv as [|r rs Hr Hv IH]; intros i s; cbn [text_loop]; [by rewrite app_nil_r|].
  rewrite IH, after_rows_cons. unfold as_str. rewrite Hr. cbn [Nat.ltb Nat.leb]. by rewrite <- !app_assoc.
Qed.

Lemma full_text_joined e : Forall valid_utf8 (rows e) -> full_text e = joined (rows e).
Proof.
  unfold full_text. destruct 1 as [|r rs Hr Hv]; [done|]. cbn [text_loop joined]. rewrite text_loop_joined by done.
  unfold as_str. by rewrite Hr.
Qed.

(** *** The text a buffer is made from *)
Definition crlf_free (t : list Z) : Prop := forall a b, t <> a ++ [13; 10]%Z ++ b.
Definition rows_of (cur t : list Z) : list Row :=
  let rs := lines_loop cur t in if bool_decide (rs = []) || ends_with_newline t then rs ++ [[]] else rs.

Lemma lines_loop_nonempty cur t : cur ++ t <> [] -> lines_loop cur t <> [].
Proof.
  revert cur. induction t as [|b t IH]; intros cur Hn; cbn.
  - rewrite app_nil_r in Hn. by destruct cur.
  - case_match; [done|]. apply IH. by destruct cur.
Qed.

Lemma strip_cr_free cur t : crlf_free (cur ++ 10%Z :: t) -> strip_cr cur = cur.
Proof.
  intros Hf. unfold strip_cr. case_bool_decide as Hl; [|done]. exfalso.
  apply last_Some in Hl as [a ->]. apply (Hf a t). by rewrite <- app_assoc.
Qed.

Lemma ends_cons b t : t <> [] -> ends_with_newline (b :: t) = ends_with_newline t.
Proof. unfold ends_with_newline. by destruct t. Qed.

Lemma rows_of_newline cur t : crlf_free (cur ++ 10%Z :: t) -> rows_of cur (10%Z :: t) = cur :: rows_of [] t.
Proof.
  intros Hf. unfold rows_of. cbn [lines_loop Z.eqb Pos.eqb]. rewrite (strip_cr_free _ _ Hf).
  rewrite bool_decide_eq_false_2 by done. destruct (decide (t = [])) as [->|Ht]; [done|].
  rewrite ends_cons, bool_decide_eq_false_2 by (done || by apply lines_loop_nonempty). by case_match.
Qed.

Lemma rows_of_byte cur b t : b <> 10%Z -> rows_of cur (b :: t) = rows_of (cur ++ [b]) t.
Proof.
  intros Hb. unfold rows_of. cbn [lines_loop]. rewrite (proj2 (Z.eqb_neq _ _) Hb).
  f_equal. destruct t as [|c t]; [|by rewrite ends_cons].
  unfold ends_with_newline. rewrite (bool_decide_eq_false_2 (last [b] = _)); [done|]. cbn. congruence.
Qed.

Lemma rows_of_joined t : forall cur, no_newline cur -> crlf_free (cur ++ t) ->
  rows_of cur t <> [] /\ joined (rows_of cur t) = cur ++ t /\ Forall no_newline (rows_of cur t).
Proof.
  induction t as [|b t IH]; intros cur Hc Hf.
  - destruct cur as [|x cur]; split_and!; try done; by apply Forall_singleton.
  - destruct (Z.eqb_spec b 10) as [->|Hb].
    + rewrite (rows_of_newline _ _ Hf). destruct (IH []) as (Hn & Hj & Hr); [constructor| |].
      { intros a k Ha. cbn in Ha. apply (Hf (cur ++ 10%Z :: a) k). by rewrite Ha, <- app_assoc. }
      split_and!; [done| |by constructor]. cbn [joined]. destruct (rows_of [] t) as [|r rs]; [done|].
      cbn [joined app] in Hj. by rewrite after_rows_cons, Hj.
    + rewrite rows_of_byte by done. destruct (IH (cur ++ [b])) as (Hn & Hj & Hr).
      { apply Forall_app. by split; [|constructor]. }
      { by rewrite <- app_assoc. }
      by rewrite Hj, <- app_assoc.
Qed.

Lemma from_text_rows t : rows (from_text t) = rows_of [] t.
Proof. done. Qed.

Lemma from_text_abs t : crlf_free t -> editor_wf (from_text t) /\ editor_abs (from_text t) = ([], t).
Proof.
  intros Hf. destruct (rows_of_joined t []) as (Hn & Hj & Hr); [constructor|done|].
  unfold editor_wf, editor_abs. rewrite from_text_rows. cbn [from_text cursor_row cursor_col].
  destruct (rows_of [] t) as [|r rs]; [done|]. split; [|by cbn in *; rewrite <- Hj].
  split; [done|]. exists r. split; [done|]. lia.
Qed.

(** *** The rows of a valid text are valid *)
Lemma first_item_stop b l k n : first_item b (l ++ 10%Z :: k) = UChar n -> first_item b l = UChar n.
Proof. destruct l as [|b1 [|b2 [|b3 l]]]; cbn [app]; unfold first_item, second3, second4, is_cont, in_range; repeat case_match; try done; lia. Qed.

Lemma valid_split_fuel f : forall l k, length l <= f -> valid_utf8 (l ++ 10%Z :: k) -> valid_utf8 l /\ valid_utf8 k.
Proof.
  unfold valid_utf8, from_utf8. induction f as [|f IH]; intros l k Hf Hv; destruct l as [|b l]; cbn [length] in Hf; try lia.
  1, 2: split; [done|]; cbn [app length validate] in Hv; change (first_item 10 k) with (UChar 1) in Hv;
    by apply fmap_None in Hv.
  cbn [app length validate] in Hv. destruct (first_item b (l ++ 10%Z :: k)) as [n|n|] eqn:Ei; [|done..].
  apply first_item_stop in Ei. pose proof (first_item_size b l) as Hs. rewrite Ei in Hs. cbn [length] in Hs.
  apply fmap_None in Hv. rewrite app_comm_cons, drop_app_le in Hv by (cbn [length]; lia).
  assert (length (drop n (b :: l)) <= length l) as Hd by (rewrite length_drop; cbn [length]; lia).
  rewrite (validate_fuel _ (length (drop n (b :: l) ++ 10%Z :: k))) in Hv by (rewrite !length_app; cbn [length]; lia).
  destruct (IH (drop n (b :: l)) k) as [H1 H2]; [lia|done|]. split; [|done].
  cbn [length validate]. rewrite Ei, (validate_fuel _ (length (drop n (b :: l)))) by lia. by rewrite H1.
Qed.

Lemma joined_valid rs : valid_utf8 (joined rs) -> Forall valid_utf8 rs.
Proof.
  destruct rs as [|r rs]; [constructor|]. cbn [joined]. revert r. induction rs as [|q rs IH]; intros r Hv.
  - apply Forall_singleton. cbn in Hv. by rewrite app_nil_r in Hv.
  - rewrite after_rows_cons in Hv. apply (valid_split_fuel _ _ _ (le_n _)) in Hv as [H1 H2]. constructor; [done|]. by apply IH.
Qed.

Definition ascii_byte (b : Z) : Prop := (0 <= b < 128)%Z.
Lemma ascii_valid l : Forall ascii_byte l -> valid_utf8 l.
Proof.
  induction 1 as [|b l Hb Hl IH]; [done|]. apply (valid_utf8_item b [] 1 l); [|done|done].
  unfold first_item, in_range. unfold ascii_byte in Hb. by rewrite (proj2 (Z.leb_le 0 b)), (proj2 (Z.leb_le b 0x7F)) by lia.
Qed.

(** *** The flat moves keep the text *)
Lemma text_move s b : Flat.text (b :: s.1, s.2) = Flat.text (s.1, b :: s.2).
Proof. unfold Flat.text. cbn. by rewrite <- app_assoc. Qed.

Ltac keeps_text :=
  repeat first [done | case_match; simplify_eq | progress cbn in * ];
  try (etrans; [match goal with IH : _ |- _ => apply IH end|]; unfold Flat.text; cbn; by rewrite <- app_assoc).

Lemma left_text rb : forall a, Flat.text (Flat.left_from rb a) = Flat.text (rb, a).
Proof. induction rb as [|b rb IH]; intros a; keeps_text. unfold Flat.text; cbn; by rewrite <- app_assoc. Qed.
Lemma skip_text a : forall rb, Flat.text (Flat.skip_cont rb a) = Flat.text (rb, a).
Proof. induction a as [|b a IH]; intros rb; keeps_text. Qed.
Lemma right_text rb a : Flat.text (Flat.right_from rb a) = Flat.text (rb, a).
Proof. destruct a as [|b a]; [done|]. cbn. rewrite skip_text. apply (text_move (rb, a)). Qed.
Lemma home_text rb : forall a, Flat.text (Flat.home_from rb a) = Flat.text (rb, a).
Proof. induction rb as [|b rb IH]; intros a; keeps_text. Qed.
Lemma end_text a : forall rb, Flat.text (Flat.end_from rb a) = Flat.text (rb, a).
Proof. induction a as [|b a IH]; intros rb; keeps_text. Qed.
Lemma forth_text n : forall rb a, Flat.text (Flat.forth n rb a) = Flat.text (rb, a).
Proof. induction n as [|n IH]; intros rb [|b a]; keeps_text. Qed.

Lemma vertical_text line n s : (forall s, Flat.text (line s) = Flat.text s) -> Flat.text (Flat.vertical line n s) = Flat.text s.
Proof.
  intros Hl. unfold Flat.vertical. rewrite forth_text, <- surjective_pairing.
  assert (forall s, Flat.text (Nat.iter n line s) = Flat.text s) as ->.
  { intros s'. induction n as [|n IH]; [done|]. by rewrite Nat.iter_succ, Hl, IH. }
  rewrite home_text. by destruct s.
Qed.

Lemma line_up_text s : Flat.text (Flat.line_up s) = Flat.text s.
Proof. destruct s as [[|b rb] a]; [done|]. cbn. rewrite home_text. symmetry. apply (text_move (rb, a)). Qed.
Lemma line_down_text s : Flat.text (Flat.line_down s) = Flat.text s.
Proof.
  unfold Flat.line_down. pose proof (end_text s.2 s.1) as He. rewrite <- surjective_pairing in He.
  destruct (Flat.end_from s.1 s.2) as [rb [|b a]]; [done|]. rewrite <- He. apply (text_move (rb, a)).
Qed.

Lemma flat_move_text op s : is_edit op = false -> Flat.text (Flat.step op s) = Flat.text s.
Proof.
  destruct op; try done; intros _; cbn [Flat.step];
    rewrite ?left_text, ?right_text, ?home_text, ?end_text, ?vertical_text by (apply line_up_text || apply line_down_text);
    by destruct s.
Qed.

Definition ascii_op (op : editor_op) : Prop := match op with Insert ch => ascii_byte ch | _ => True end.

Lemma flat_ascii op s : ascii_op op -> Forall ascii_byte (Flat.text s) -> Forall ascii_byte (Flat.text (Flat.step op s)).
Proof.
  intros Hop Hs. destruct (is_edit op) eqn:E; [|by rewrite flat_move_text].
  unfold Flat.text in *. apply Forall_app in Hs as [H1 H2]. apply Forall_rev in H1. rewrite rev_involutive in H1.
  apply Forall_app. destruct op; try done; cbn [Flat.step fst snd]; split; try done; apply Forall_rev || idtac; try done.
  - by constructor.
  - by destruct H1.
  - by destruct H2.
Qed.

Lemma editor_abs_text e : editor_wf e -> Flat.text (editor_abs e) = joined (rows e).
Proof. intros (_ & row & Hr & _). by apply (text_split _ _ _ row). Qed.

Lemma ascii_rows e : editor_wf e -> Forall ascii_byte (Flat.text (editor_abs e)) -> Forall valid_utf8 (rows e).
Proof. intros Hwf Ha. rewrite editor_abs_text in Ha by done. by apply joined_valid, ascii_valid. Qed.

Lemma editor_run_refined ops : forall e, editor_wf e -> Forall ascii_op ops -> Forall ascii_byte (Flat.text (editor_abs e)) ->
  exists e', editor_run ops e = Ok e' /\ editor_wf e' /\ editor_abs e' = Flat.run ops (editor_abs e) /\
    Forall ascii_byte (Flat.text (editor_abs e')) /\ dirty e' = dirty e || existsb is_edit ops.
Proof.
  induction ops as [|op ops IH]; intros e Hwf Hops Ha.
  - exists e. by rewrite orb_false_r.
  - apply Forall_cons in Hops as [Hop Hops].
    destruct (editor_step_refined op e Hwf) as (e1 & Hs & Hwf1 & Hf & Hd); [intros _; by apply ascii_rows|].
    destruct (IH e1) as (e' & Hr & Hwf' & Hf' & Ha' & Hd'); [done|done|rewrite Hf; by apply flat_ascii|].
    exists e'. cbn [editor_run]. rewrite Hs. split_and!; try done; [by rewrite Hf', Hf|].
    cbn [existsb]. by rewrite Hd', Hd, orb_assoc.
Qed.

Lemma clamp_scroll_ok e v :
  cursor_row e < length (rows e) -> 0 < v -> (Z.of_nat (length (rows e)) < u64_max)%Z ->
  exists s, clamp_scroll_with_viewport e v = set_scroll e s /\ s <= cursor_row e < s + v /\
    (s + v <= length (rows e) \/ s = 0) /\
    ensure_cursor_visible e v = (if (Z.of_nat (scroll_row e + v) <=? u64_max)%Z then Ok (set_scroll e s) else Panic).
Proof.
  destruct e as [rs r c sc d]. cbn [rows cursor_row scroll_row]. intros Hin Hv Hl.
  assert (exists m, Z.of_nat m = u64_max) as [m Hm] by (exists (Z.to_nat u64_max); rewrite Z2Nat.id; [done|unfold u64_max; lia]).
  unfold clamp_scroll_with_viewport, ensure_cursor_visible, usize_saturating_add, usize_add, set_scroll.
  rewrite (proj2 (Nat.eqb_neq v 0)) by lia. rewrite <- Hm in *. rewrite !Nat2Z.id. cbn [rows cursor_row cursor_col scroll_row dirty].
  repeat (case_match; simplify_eq; cbn [rows cursor_row cursor_col scroll_row dirty] in *);
    rewrite ?Nat.ltb_lt, ?Nat.ltb_ge, ?Nat.leb_le, ?Nat.leb_gt, ?Z.leb_le, ?Z.leb_gt in *; try lia;
    (eexists; split; [reflexivity|]; split_and!; try lia; try (do 2 f_equal; lia); try done).
Qed.

(** ** Properties *)


Lemma crlf_free_no_cr t : Forall (fun b => b <> 13%Z) t -> crlf_free t.
Proof. intros Ht a b ->. apply Forall_app in Ht as [_ Ht]. by apply Forall_inv in Ht. Qed.


(** C23. Text opened in the editor and saved again is unchanged, for every UTF-8 text without
    a carriage return before a newline. *)
Theorem editor_text_roundtrip t : valid_utf8 t -> crlf_free t -> full_text (from_text t) = t.
Proof.
  intros Hv Hf. destruct (rows_of_joined t []) as (_ & Hj & _); [constructor|done|].
  rewrite full_text_joined, from_text_rows, Hj; [done|]. rewrite from_text_rows. apply joined_valid. by rewrite Hj.
Qed.

Lemma editor_text_roundtrip_witness : full_text (from_text [0xC3; 0xA9; 10; 10; 13; 33; 10]%Z) = [0xC3; 0xA9; 10; 10; 13; 33; 10]%Z.
Proof.
  apply editor_text_roundtrip; [vm_compute; reflexivity|]. intros a b Hab.
  do 7 (destruct a as [|? a]; [cbn in Hab; congruence|]; cbn in Hab; injection Hab as _ Hab).
  by destruct a.
Defined.

(** *** Scrolling *)
Lemma visible_row e v row : rows e !! cursor_row e = Some row ->
  scroll_row e <= cursor_row e < scroll_row e + v -> (Z.of_nat (scroll_row e + v) <= u64_max)%Z ->
  exists ls, visible_lines e v = Ok ls /\ length ls <= v /\ ls !! (cursor_row e - scroll_row e) = Some (as_str row).
Proof.
  intros Hr Hs Hv. pose proof (lookup_lt_Some _ _ _ Hr) as Hl. unfold visible_lines, usize_add.
  rewrite Nat.min_l by lia. rewrite (proj2 (Z.leb_le _ _) Hv). eexists. split; [done|]. split.
  - rewrite length_fmap, length_take. lia.
  - rewrite list_lookup_fmap, lookup_take_lt, lookup_drop by lia.
    replace (scroll_row e + (cursor_row e - scroll_row e)) with (cursor_row e) by lia. by rewrite Hr.
Qed.

(** Both scroll routines agree and leave the cursor's row among the visible lines, with no
    blank rows below the text unless all of it is visible.  They differ only where the viewport
    overflows a [usize]: one saturates, the other panics. *)
Theorem editor_cursor_visible e v :
  editor_wf e -> 0 < v -> (Z.of_nat (length (rows e)) < u64_max)%Z ->
  exists s, clamp_scroll_with_viewport e v = set_scroll e s /\ s <= cursor_row e < s + v /\
    (s + v <= length (rows e) \/ s = 0) /\
    ensure_cursor_visible e v = (if (Z.of_nat (scroll_row e + v) <=? u64_max)%Z then Ok (set_scroll e s) else Panic) /\
    ((Z.of_nat (s + v) <= u64_max)%Z -> exists ls row, rows e !! cursor_row e = Some row /\
      visible_lines (set_scroll e s) v = Ok ls /\ ls !! (cursor_row e - s) = Some (as_str row)).
Proof.
  intros (Hn & row & Hr & _) Hv Hl. pose proof (lookup_lt_Some _ _ _ Hr) as Hin.
  destruct (clamp_scroll_ok e v Hin Hv Hl) as (s & H1 & H2 & H3 & H4). exists s. split_and!; try done; try lia.
  intros Hs. destruct (visible_row (set_scroll e s) v row Hr H2 Hs) as (ls & E1 & _ & E2). by exists ls, row.
Qed.

Lemma editor_cursor_visible_witness : exists s,
  clamp_scroll_with_viewport (mkEditor [[97]; [98]; [99]; [100]]%Z 3 0 0 false) 2 = mkEditor [[97]; [98]; [99]; [100]]%Z 3 0 s false /\ s <= 3 < s + 2.
Proof.
  destruct (editor_cursor_visible (mkEditor [[97]; [98]; [99]; [100]]%Z 3 0 0 false) 2) as (s & H1 & H2 & _).
  - split; [repeat (apply Forall_cons; split; [apply Forall_singleton; lia|]); constructor|]. exists [100%Z]. split; [reflexivity|cbn; lia].
  - lia.
  - vm_compute. reflexivity.
  - exists s. split; [exact H1|exact H2].
Defined.

(** ** Departures *)

(** Backspace removes one byte: of a character of two bytes it leaves one, the row is no longer
    UTF-8, and the whole row is missing from the saved text. *)
Example backspace_loses_row : exists e,
  editor_run [End; Backspace] (from_text [104; 105; 0xC3; 0xA9; 10; 33]%Z) = Ok e /\
  rows e = [[104; 105; 0xC3]; [33]]%Z /\ full_text e = [10; 33]%Z.
Proof. eexists. vm_compute. done. Qed.

(** Moving up keeps the byte column, which can be inside a character; a byte typed there loses
    the row. *)
Example up_splits_character : exists e,
  editor_run [Down; End; Up; Insert 120]%Z (from_text [0xC3; 0xA9; 10; 33]%Z) = Ok e /\
  cursor_col e = 2 /\ rows e = [[0xC3; 120; 0xA9]; [33]]%Z /\ full_text e = [10; 33]%Z.
Proof. eexists. vm_compute. done. Qed.

(** Opening and saving a text with DOS line ends drops its carriage returns. *)
Example crlf_dropped : full_text (from_text [97; 13; 10; 98]%Z) = [97; 10; 98]%Z.
Proof. reflexivity. Qed.
