(* ===== verification/Loader.v ===== *)
(** * Loading of programs

    [fullerene-kernel/src/loader.rs]: the segments of an executable are checked, mapped into the
    page table of the new process and copied into its frames, over the page-table interface of
    [LinuxMemory].  The parsing of the file is a third-party library's, so a program is its parsed
    headers and its bytes; the creation of the process is not modelled.  Physical memory is the
    contents of the frames given to the process, written through the kernel's direct mapping; the
    tables behind the page-table interface lie in other frames, those of its own allocator. *)
From S2P Require Import Prelude Frames PageTable LinuxMemory.

Inductive LoadError := InvalidFormat | NotExecutable | LoadOutOfMemory | UnsupportedArchitecture | LoadMappingFailed | AddressAlreadyMapped | FileNotFound.

Definition PT_LOAD : Z := 1.
Definition PF_X : Z := 1.
Definition PF_W : Z := 2.

Record ProgramHeader := mkHeader { p_type : Z; p_flags : Z; p_offset : Z; p_vaddr : Z; p_filesz : Z; p_memsz : Z }.

(** The two frame allocators are the kernel's [heap::FRAME_ALLOCATOR], from which the loader takes
    frames, and that of [petroleum::page_table::constants], which it gives to [map_page]. *)
Record Loader (P : Type) := mkLoader {
  ld_pt : P;
  ld_heap : option BitmapFrameAllocator;
  ld_global : option BitmapFrameAllocator;
  ld_mem : gmap Z (list Z)
}.
Arguments mkLoader {P} _ _ _ _.
Arguments ld_pt {P} _. Arguments ld_heap {P} _. Arguments ld_global {P} _. Arguments ld_mem {P} _.

Definition frame_bytes (m : gmap Z (list Z)) (f : Z) : list Z := default (replicate 4096 0) (m !! f).
Definition write_frame (m : gmap Z (list Z)) (f off : Z) (data : list Z) : gmap Z (list Z) :=
  <[f := zsplice (frame_bytes m f) off data]> m.

Definition calculate_pages (size : Z) : Z := (size + 4095) / 4096.
Definition calculate_offset_address (base i : Z) : result LoadError Z :=
  if base + i * 4096 <=? u64_max then Ok (base + i * 4096) else Panic.
(** [VirtAddr::new] panics on an address that is not canonical. *)
Definition virt_addr_new (a : Z) : result LoadError Z := match canonical_new a with Some a => Ok a | None => Panic end.

Definition page_address (vaddr page_idx : Z) : result LoadError Z :=
  let? a := calculate_offset_address vaddr page_idx in virt_addr_new a.

Definition segment_flags (ph : ProgramHeader) : Z :=
  let page_flags := Z.lor PRESENT USER_ACCESSIBLE in
  let page_flags := if negb (Z.land (p_flags ph) PF_W =? 0) then Z.lor page_flags WRITABLE else page_flags in
  if Z.land (p_flags ph) PF_X =? 0 then Z.lor page_flags NO_EXECUTE else page_flags.

(** The bytes of one page: what the file has, zeros after it. *)
Definition fill_page (image : list Z) (ph : ProgramHeader) (page_idx frame : Z) (m : gmap Z (list Z)) : result LoadError (gmap Z (list Z)) :=
  let page_offset := page_idx * 4096 in
  if page_offset <? p_filesz ph then
    let copy_len := Z.min (p_filesz ph - page_offset) 4096 in
    let src_offset := p_offset ph + page_offset in
    if zlen image <? src_offset + copy_len then Panic else
    let m := write_frame m frame 0 (zslice image src_offset copy_len) in
    Ok (if copy_len <? 4096 then write_frame m frame copy_len (replicate (Z.to_nat (4096 - copy_len)) 0) else m)
  else Ok (write_frame m frame 0 (replicate 4096 0)).

Section Load.
Context {P : Type} `{PageTableHelper P}.
Implicit Type st : Loader P.

Fixpoint check_unmapped (n : nat) (page_idx vaddr : Z) (p : P) : result LoadError unit :=
  match n with
  | O => Ok tt
  | S n =>
    let? page_vaddr := page_address vaddr page_idx in
    match pth_translate p page_vaddr with
    | Some _ => Err AddressAlreadyMapped
    | None => check_unmapped n (page_idx + 1) vaddr p
    end
  end.

Definition load_page (image : list Z) (ph : ProgramHeader) (page_idx : Z) st : result LoadError unit * Loader P :=
  match page_address (p_vaddr ph) page_idx, ld_heap st with
  | Ok page_vaddr, Some b =>
    match allocate_frame b with
    | (Ok (Some frame), b) =>
      match ld_global st with
      | None => (Panic, mkLoader (ld_pt st) (Some b) None (ld_mem st))
      | Some g =>
        match pth_map_page (ld_pt st) page_vaddr frame (segment_flags ph) g with
        | (false, p, g) => (Err LoadOutOfMemory, mkLoader p (Some b) (Some g) (ld_mem st))
        | (true, p, g) =>
          match fill_page image ph page_idx frame (ld_mem st) with
          | Ok m => (Ok tt, mkLoader p (Some b) (Some g) m)
          | Err e => (Err e, mkLoader p (Some b) (Some g) (ld_mem st))
          | Panic => (Panic, mkLoader p (Some b) (Some g) (ld_mem st))
          end
        end
      end
    | (Ok None, b) => (Err LoadOutOfMemory, mkLoader (ld_pt st) (Some b) (ld_global st) (ld_mem st))
    | (_, b) => (Panic, st)
    end
  | Ok _, None => (Err LoadOutOfMemory, st)
  | _, _ => (Panic, st)
  end.

Fixpoint load_pages (n : nat) (image : list Z) (ph : ProgramHeader) (page_idx : Z) st : result LoadError unit * Loader P :=
  match n with
  | O => (Ok tt, st)
  | S n =>
    match load_page image ph page_idx st with
    | (Ok _, st) => load_pages n image ph (page_idx + 1) st
    | r => r
    end
  end.

(** The checks of a header; the number of its pages. *)
Definition check_segment (image : list Z) (ph : ProgramHeader) : result LoadError Z :=
  match u64_checked_add (p_offset ph) (p_filesz ph) with
  | None => Err InvalidFormat
  | Some file_end =>
    if zlen image <? file_end then Err InvalidFormat else
    if p_memsz ph <? p_filesz ph then Err InvalidFormat else
    match u64_checked_add (p_vaddr ph) (p_memsz ph) with
    | None => Err InvalidFormat
    | Some vaddr_end =>
      if p_memsz ph =? 0 then Err InvalidFormat else
      let? start_addr := virt_addr_new (p_vaddr ph) in
      let? end_addr := virt_addr_new (vaddr_end - 1) in
      if negb (is_user_address start_addr) || negb (is_user_address end_addr) then Err UnsupportedArchitecture
      else Ok (calculate_pages (p_memsz ph))
    end
  end.

Definition load_segment (image : list Z) (ph : ProgramHeader) st : result LoadError unit * Loader P :=
  match check_segment image ph with
  | Ok num_pages =>
    match check_unmapped (Z.to_nat num_pages) 0 (p_vaddr ph) (ld_pt st) with
    | Ok _ => load_pages (Z.to_nat num_pages) image ph 0 st
    | Err e => (Err e, st)
    | Panic => (Panic, st)
    end
  | Err e => (Err e, st)
  | Panic => (Panic, st)
  end.

Fixpoint load_segments (image : list Z) (phs : list ProgramHeader) st : result LoadError unit * Loader P :=
  match phs with
  | [] => (Ok tt, st)
  | ph :: phs =>
    if negb (p_type ph =? PT_LOAD) then load_segments image phs st else
    match load_segment image ph st with
    | (Ok _, st) => load_segments image phs st
    | r => r
    end
  end.

(** The start of [UnifiedMemoryManager::init]: the kernel's allocator is taken and becomes the
    one of [petroleum]; [expect] of a missing one panics. *)
Definition transfer_frames st : result unit (Loader P) :=
  match ld_heap st with
  | Some b => Ok (mkLoader (ld_pt st) None (Some b) (ld_mem st))
  | None => Panic
  end.
End Load.

(** ** The checks *)
Definition header_u64 (ph : ProgramHeader) : Prop :=
  u64_range (p_offset ph) /\ u64_range (p_vaddr ph) /\ u64_range (p_filesz ph) /\ u64_range (p_memsz ph).

(** The bytes lie in the image and the pages in user space. *)
Definition segment_ok (image : list Z) (ph : ProgramHeader) : Prop :=
  p_offset ph + p_filesz ph <= zlen image /\ p_filesz ph <= p_memsz ph /\ 0 < p_memsz ph /\
  p_vaddr ph + p_memsz ph <= USER_ADDRESS_LIMIT.

Lemma user_canonical a : 0 <= a < USER_ADDRESS_LIMIT -> canonical_new a = Some a.
Proof.
  intros Ha. unfold canonical_new, as_i64. unfold USER_ADDRESS_LIMIT in Ha.
  rewrite (proj2 (Z.ltb_lt a (2 ^ 63))) by lia. rewrite Z.shiftr_div_pow2, Z.div_small by lia. done.
Qed.

Lemma virt_addr_new_cases a r : virt_addr_new a = r -> r = Ok a \/ r = Panic.
Proof. unfold virt_addr_new, canonical_new. intros <-. case_match; [|by right]. case_match; simplify_eq. by left. Qed.

Lemma checked_add_cases a b : u64_checked_add a b = if a + b <=? u64_max then Some (a + b) else None.
Proof. done. Qed.

Lemma check_segment_ok image ph : header_u64 ph -> zlen image <= u64_max -> segment_ok image ph ->
  check_segment image ph = Ok (calculate_pages (p_memsz ph)).
Proof.
  intros ((Ho & _) & (Hv & _) & (Hf & _) & Hm & _) Hi (H1 & H2 & H3 & H4). unfold check_segment. rewrite !checked_add_cases.
  assert (USER_ADDRESS_LIMIT <= u64_max) by done.
  rewrite !(proj2 (Z.leb_le _ _)), (proj2 (Z.ltb_ge _ _)), (proj2 (Z.ltb_ge (p_memsz ph) _)), (proj2 (Z.eqb_neq _ _)) by lia.
  unfold virt_addr_new. rewrite !user_canonical by lia. unfold is_user_address, USER_ADDRESS_LIMIT in *.
  by rewrite !(proj2 (Z.ltb_lt _ _)) by lia.
Qed.

Lemma check_segment_inv image ph n : header_u64 ph -> check_segment image ph = Ok n ->
  segment_ok image ph /\ n = calculate_pages (p_memsz ph).
Proof.
  intros ((Ho & _) & (Hv & _) & (Hf & _) & Hm & _). unfold check_segment. rewrite !checked_add_cases.
  destruct (Z.leb_spec (p_offset ph + p_filesz ph) u64_max); [|done].
  destruct (Z.ltb_spec (zlen image) (p_offset ph + p_filesz ph)); [done|].
  destruct (Z.ltb_spec (p_memsz ph) (p_filesz ph)); [done|].
  destruct (Z.leb_spec (p_vaddr ph + p_memsz ph) u64_max); [|done].
  destruct (Z.eqb_spec (p_memsz ph) 0); [done|].
  destruct (virt_addr_new_cases _ _ eq_refl : virt_addr_new (p_vaddr ph) = _ \/ _) as [->| ->]; [|done].
  destruct (virt_addr_new_cases _ _ eq_refl : virt_addr_new (p_vaddr ph + p_memsz ph - 1) = _ \/ _) as [->| ->]; [|done].
  unfold is_user_address. destruct (Z.ltb_spec (p_vaddr ph) 0x0000800000000000); [|done].
  destruct (Z.ltb_spec (p_vaddr ph + p_memsz ph - 1) 0x0000800000000000); [|done]. cbn. intros [= <-].
  unfold segment_ok, USER_ADDRESS_LIMIT. split; [lia|done].
Qed.

Lemma check_segment_errors image ph e : check_segment image ph = Err e -> e = InvalidFormat \/ e = UnsupportedArchitecture.
Proof.
  unfold check_segment. repeat case_match; intros; simplify_eq; auto;
    match goal with E : virt_addr_new _ = Err _ |- _ => by destruct (virt_addr_new_cases _ _ E) end.
Qed.

Lemma check_segment_err image ph : check_segment image ph <> Err LoadOutOfMemory.
Proof. by intros [|]%check_segment_errors. Qed.

Lemma calculate_pages_bounds m : 0 < m -> 1 <= calculate_pages m /\ m <= calculate_pages m * 4096 < m + 4096.
Proof.
  intros Hm. unfold calculate_pages. pose proof (Z.div_mod (m + 4095) 4096 ltac:(lia)).
  pose proof (Z.mod_pos_bound (m + 4095) 4096 ltac:(lia)). lia.
Qed.

(** ** Pages of memory *)
Definition segment_page (image : list Z) (ph : ProgramHeader) (i : Z) : list Z :=
  let len := Z.max 0 (Z.min (p_filesz ph - i * 4096) 4096) in
  zslice image (p_offset ph + i * 4096) len ++ replicate (Z.to_nat (4096 - len)) 0.

Definition mem_wf (m : gmap Z (list Z)) : Prop := forall f l, m !! f = Some l -> zlen l = 4096.
Lemma frame_bytes_len m f : mem_wf m -> zlen (frame_bytes m f) = 4096.
Proof. intros Hm. unfold frame_bytes. destruct (m !! f) eqn:E; [by apply (Hm f)|]. cbn [default]. unfold zlen. by rewrite length_replicate. Qed.

Lemma zsplice_all {A} (l data : list A) : zlen data = zlen l -> zsplice l 0 data = data.
Proof. unfold zlen, zsplice. intros Hl. cbn. by rewrite drop_ge, app_nil_r by lia. Qed.

Lemma zsplice_two {A} (l a b : list A) : zlen a + zlen b = zlen l -> zsplice (zsplice l 0 a) (zlen a) b = a ++ b.
Proof.
  unfold zlen, zsplice. intros Hl. rewrite Nat2Z.id. change (Z.to_nat 0) with 0%nat. rewrite take_0. cbn [app Nat.add].
  rewrite take_app_length, drop_ge, app_nil_r; [done|]. rewrite length_app, length_drop. lia.
Qed.

(** The whole frame is overwritten: nothing of its previous contents remains. *)
Lemma fill_page_ok image ph i f m : mem_wf m -> header_u64 ph -> segment_ok image ph -> 0 <= i ->
  fill_page image ph i f m = Ok (<[f := segment_page image ph i]> m) /\ zlen (segment_page image ph i) = 4096.
Proof.
  intros Hm ((Ho & _) & _ & (Hf & _) & _) (H1 & _) Hi. unfold fill_page, segment_page, write_frame.
  pose proof (frame_bytes_len m f Hm) as Hl.
  destruct (Z.ltb_spec (i * 4096) (p_filesz ph)) as [Hlt|Hge].
  - rewrite (Z.max_r 0) by lia. set (len := Z.min (p_filesz ph - i * 4096) 4096).
    assert (zlen (zslice image (p_offset ph + i * 4096) len) = len) as Hz by (apply zlen_zslice; lia).
    assert (zlen (replicate (Z.to_nat (4096 - len)) 0) = 4096 - len) as Hr by (unfold zlen; rewrite length_replicate; lia).
    rewrite zlen_app, Hz, Hr. split; [|lia]. rewrite (proj2 (Z.ltb_ge _ _)) by lia. f_equal.
    destruct (Z.ltb_spec len 4096) as [H4|H4].
    + unfold frame_bytes at 1. rewrite lookup_insert_eq. cbn [default]. rewrite insert_insert_eq.
      pose proof (zsplice_two (frame_bytes m f) _ _ ltac:(rewrite Hz, Hr, Hl; lia)) as E. rewrite Hz in E. unfold id. by rewrite E.
    + assert (len = 4096) as E by lia. rewrite E in *. rewrite zsplice_all by lia. by rewrite app_nil_r.
  - rewrite (Z.max_l 0) by lia. change (Z.to_nat (4096 - 0)) with 4096%nat.
    rewrite zsplice_all by (unfold zlen at 1; by rewrite length_replicate, Hl).
    unfold zslice. rewrite take_0. cbn [app]. split; [done|]. unfold zlen. by rewrite length_replicate.
Qed.

Lemma segment_page_nth image ph i x : header_u64 ph -> segment_ok image ph -> 0 <= i -> 0 <= x < 4096 ->
  znth 0 (segment_page image ph i) x = if i * 4096 + x <? p_filesz ph then znth 0 image (p_offset ph + i * 4096 + x) else 0.
Proof.
  intros ((Ho & _) & _ & (Hf & _) & _) (H1 & _) Hi Hx. unfold segment_page. set (len := Z.max 0 _).
  assert (zlen (zslice image (p_offset ph + i * 4096) len) = len) as Hz.
  { destruct (Z.eq_dec len 0) as [E|E]; [rewrite E; unfold zslice; by rewrite take_0|]. apply zlen_zslice; lia. }
  rewrite znth_app, Hz by lia. destruct (Z.ltb_spec x len), (Z.ltb_spec (i * 4096 + x) (p_filesz ph)); try lia.
  - by rewrite znth_zslice by lia.
  - unfold znth. rewrite nth_lookup, lookup_replicate_2 by lia. done.
Qed.

(** ** What a process sees *)
Section Correct.
Context {P : Type} `{LawfulHelper P}.
Implicit Type st : Loader P.

(** The byte at a user address and the flags of its page. *)
Definition user_view st (a : Z) : option (Z * Z) :=
  match pages (ld_pt st) !! (a - a mod 4096) with
  | Some (f, fl) => Some (znth 0 (frame_bytes (ld_mem st) f) (a mod 4096), fl)
  | None => None
  end.

(** A mapped frame is not free in the allocator the loader takes frames from. *)
Definition loader_inv st (b : BitmapFrameAllocator) : Prop :=
  pt_ok (ld_pt st) /\ ld_heap st = Some b /\ bm_inv b /\ mem_wf (ld_mem st) /\
  (exists g, ld_global st = Some g /\ bm_inv g) /\
  forall v q fl, pages (ld_pt st) !! v = Some (q * 4096, fl) -> ~ free b q.

Definition aligned_frames st : Prop := forall v f fl, pages (ld_pt st) !! v = Some (f, fl) -> exists q, f = q * 4096.

(** The frames refused: none is left, or the page table takes none. *)
Definition exhausted st : Prop :=
  (exists b, ld_heap st = Some b /\ forall q, 0 < q -> ~ free b q) \/
  (exists p v f fl g, (pth_map_page (P := P) p v f fl g).1.1 = false).

Section Segment.
Context (image : list Z) (ph : ProgramHeader).
Context (Hph : header_u64 ph) (Hok : segment_ok image ph) (Hal : p_vaddr ph mod 4096 = 0).

Let vaddr := p_vaddr ph.
Let fl := segment_flags ph.

Lemma segment_flags_ok : has_flag fl PRESENT = true /\ has_flag fl HUGE_PAGE = false.
Proof. unfold fl, segment_flags. by repeat case_match. Qed.

Lemma page_of_segment j : 0 <= j < calculate_pages (p_memsz ph) ->
  page_address vaddr j = Ok (vaddr + j * 4096) /\ 0 <= vaddr + j * 4096 < USER_ADDRESS_LIMIT /\ (vaddr + j * 4096) mod 4096 = 0.
Proof.
  intros Hj. destruct Hph as (_ & (Hv & _) & _). destruct Hok as (_ & _ & Hm & Hu).
  pose proof (calculate_pages_bounds _ Hm) as [_ Hb]. unfold vaddr in *.
  assert (0 <= p_vaddr ph + j * 4096 < USER_ADDRESS_LIMIT) as Hr by nia.
  split_and!; try lia.
  - unfold page_address, calculate_offset_address, virt_addr_new.
    rewrite (proj2 (Z.leb_le _ _)) by (assert (USER_ADDRESS_LIMIT <= u64_max) by done; lia). by rewrite user_canonical.
  - by rewrite Z.mod_add.
Qed.

Lemma check_unmapped_spec p n : pt_ok p -> forall k, 0 <= k -> k + Z.of_nat n <= calculate_pages (p_memsz ph) ->
  check_unmapped n k vaddr p = Ok tt /\ (forall j, k <= j < k + Z.of_nat n -> pages p !! (vaddr + j * 4096) = None)
  \/ check_unmapped n k vaddr p = Err AddressAlreadyMapped.
Proof.
  intros Hp. induction n as [|n IH]; intros k Hk Hn; cbn [check_unmapped]; [left; split; [done|lia]|].
  destruct (page_of_segment k) as (-> & Hr & Ha); [lia|]. pose proof (translate_law p _ Hp Hr Ha) as Ht.
  destruct (pth_translate p (vaddr + k * 4096)) as [x|] eqn:E; [by right|].
  destruct (IH (k + 1)) as [[-> Hj]| ->]; [lia|lia| |by right]. left. split; [done|].
  intros j Hjr. destruct (Z.eq_dec j k) as [->|Hne]; [|apply Hj; lia].
  destruct (pages p !! (vaddr + k * 4096)) eqn:Ep; [|done]. by destruct (proj2 Ht ltac:(eauto)).
Qed.

(** The state after [k] pages. *)
Definition loaded st0 (b0 : BitmapFrameAllocator) (k : Z) st : Prop :=
  exists b, loader_inv st b /\ aligned_frames st /\ (forall q, free b q -> free b0 q) /\
    (forall v, (forall j, 0 <= j < k -> v <> vaddr + j * 4096) -> pages (ld_pt st) !! v = pages (ld_pt st0) !! v) /\
    (forall j, 0 <= j < k -> exists q, pages (ld_pt st) !! (vaddr + j * 4096) = Some (q * 4096, fl) /\
       ld_mem st !! (q * 4096) = Some (segment_page image ph j)) /\
    (forall q, ~ free b0 q -> ld_mem st !! (q * 4096) = ld_mem st0 !! (q * 4096)).

Lemma load_page_step st0 b0 k st : 0 <= k < calculate_pages (p_memsz ph) ->
  pages (ld_pt st0) !! (vaddr + k * 4096) = None -> loaded st0 b0 k st ->
  match load_page image ph k st with
  | (Ok _, st') => loaded st0 b0 (k + 1) st'
  | (Err e, st') => e = LoadOutOfMemory /\ loaded st0 b0 k st' /\ exhausted st'
  | (Panic, _) => False
  end.
Proof.
  intros Hk Hnone (b & (Hp & Hh & Hb & Hm & (g & Hg & Hgi) & Hown) & Hal' & Hsub & Hout & Hin & Hmem).
  unfold load_page. fold vaddr. destruct (page_of_segment k Hk) as (-> & Hr & Ha). rewrite Hh.
  destruct (allocate_spec b Hb) as [(q & b1 & _ & Hb1 & Ht & -> & Hq & Hfree & _ & _ & Hused)|(_ & -> & Hno)].
  2:{ split; [done|]. split; [|left; by exists b]. exists b. split_and!; try done. by split_and!; [..|exists g|]. }
  rewrite Hg. assert (Hfr : forall i, free b1 i -> free b i /\ i <> q).
  { intros i [Hi Hu]. rewrite Hused in Hu by lia. apply orb_false_iff in Hu as [Hne%Z.eqb_neq Hu].
    split; [|done]. split; [by rewrite <- Ht|done]. }
  assert (Hnq : ~ free b1 q) by (intros Hq1; by apply Hfr in Hq1 as [_ ?]).
  assert (Hcur : pages (ld_pt st) !! (vaddr + k * 4096) = None) by (rewrite Hout by lia; done).
  destruct segment_flags_ok as [Hpres Hhuge].
  pose proof (map_page_law (ld_pt st) (vaddr + k * 4096) (q * 4096) fl g Hp Hgi Hr Ha ltac:(lia) (Z_mod_mult _ _) Hpres Hhuge Hcur) as Hlaw.
  fold fl. destruct (pth_map_page _ _ _ _ _) as [[[] p'] g'] eqn:Emap; destruct Hlaw as (Hp' & Hg' & _ & Hpg).
  2:{ split; [done|]. split; [|right; exists (ld_pt st), (vaddr + k * 4096), (q * 4096), fl, g; by rewrite Emap].
      exists b1. unfold loader_inv, aligned_frames. cbn [ld_pt ld_heap ld_global ld_mem]. rewrite Hpg.
      split_and!; try done; [by exists g'| |intros i Hi; by apply Hsub, Hfr].
      intros v q' f' Hv Hf'. by apply (Hown v q' f' Hv), Hfr. }
  destruct (fill_page_ok image ph k (q * 4096) (ld_mem st) Hm Hph Hok ltac:(lia)) as [-> Hlen].
  exists b1. unfold loader_inv, aligned_frames. cbn [ld_pt ld_heap ld_global ld_mem]. rewrite Hpg. split_and!; try done.
  - intros f l [[_ <-]|[_ Hl]]%lookup_insert_Some; [done|by apply (Hm f)].
  - by exists g'.
  - intros v q' f' [[_ [= Hq' _]]|[_ Hv]]%lookup_insert_Some Hf'.
    + assert (q' = q) as -> by lia. done.
    + by apply (Hown v q' f' Hv), Hfr.
  - intros v f f' [[_ [= <- _]]|[_ Hv]]%lookup_insert_Some; [by exists q|by apply (Hal' v f f')].
  - intros i Hi. by apply Hsub, Hfr.
  - intros v Hv. rewrite lookup_insert_ne by (apply not_eq_sym, Hv; lia). apply Hout. intros j Hj. apply Hv. lia.
  - intros j Hj. destruct (Z.eq_dec j k) as [->|Hne]; [exists q; by rewrite !lookup_insert_eq|].
    destruct (Hin j) as (q' & Hq' & Hc); [lia|]. exists q'. rewrite lookup_insert_ne by lia. split; [done|].
    rewrite lookup_insert_ne; [done|]. intros E. assert (q = q') as <- by lia. by apply (Hown _ _ _ Hq').
  - intros q' Hq'. rewrite lookup_insert_ne; [by apply Hmem|]. intros E. assert (q = q') as <- by lia. by apply Hq', Hsub.
Qed.

Lemma load_pages_spec st0 b0 n : forall k st, 0 <= k -> k + Z.of_nat n = calculate_pages (p_memsz ph) ->
  (forall j, 0 <= j < calculate_pages (p_memsz ph) -> pages (ld_pt st0) !! (vaddr + j * 4096) = None) ->
  loaded st0 b0 k st ->
  match load_pages n image ph k st with
  | (Ok _, st') => loaded st0 b0 (calculate_pages (p_memsz ph)) st'
  | (Err e, st') => e = LoadOutOfMemory /\ (exists k', k' <= calculate_pages (p_memsz ph) /\ loaded st0 b0 k' st') /\ exhausted st'
  | (Panic, _) => False
  end.
Proof.
  induction n as [|n IH]; intros k st Hk Hn Hnone Hl; cbn [load_pages]; [by replace (calculate_pages _) with k by lia|].
  pose proof (load_page_step st0 b0 k st ltac:(lia) (Hnone k ltac:(lia)) Hl) as Hs.
  destruct (load_page image ph k st) as [[u|e|] st']; [|destruct Hs as (-> & Hl' & Hx); split_and!; try done; exists k; split; [lia|done]|done].
  apply (IH (k + 1) st'); [lia|lia|done|done].
Qed.

Definition in_segment (a : Z) : Prop := vaddr <= a < vaddr + calculate_pages (p_memsz ph) * 4096.
(** The byte of the program at distance [j] from the start of the segment. *)
Definition segment_byte (j : Z) : Z := if j <? p_filesz ph then znth 0 image (p_offset ph + j) else 0.

Lemma page_index a : vaddr <= a -> a - a mod 4096 = vaddr + (a - vaddr) / 4096 * 4096 /\ a mod 4096 = (a - vaddr) mod 4096.
Proof.
  intros Ha. fold vaddr in Hal. pose proof (Z.div_mod vaddr 4096 ltac:(lia)). pose proof (Z.div_mod (a - vaddr) 4096 ltac:(lia)).
  pose proof (Z.mod_pos_bound (a - vaddr) 4096 ltac:(lia)).
  assert (a mod 4096 = (a - vaddr) mod 4096) as E.
  { symmetry. apply (Z.mod_unique_pos a 4096 (vaddr / 4096 + (a - vaddr) / 4096)); lia. }
  split; [lia|done].
Qed.

Lemma loaded_inside st0 b0 st j : loaded st0 b0 (calculate_pages (p_memsz ph)) st ->
  0 <= j < calculate_pages (p_memsz ph) * 4096 -> user_view st (vaddr + j) = Some (segment_byte j, fl).
Proof.
  intros (b & _ & _ & _ & _ & Hin & _) Hj. unfold user_view.
  destruct (page_index (vaddr + j)) as [E1 E2]; [lia|]. replace (vaddr + j - vaddr) with j in * by lia.
  pose proof (Z.mod_pos_bound j 4096 ltac:(lia)). pose proof (Z.div_mod j 4096 ltac:(lia)).
  assert (0 <= j / 4096 < calculate_pages (p_memsz ph)) as Hi by (split; [apply Z.div_pos; lia|apply Z.div_lt_upper_bound; lia]).
  destruct (Hin _ Hi) as (q & Hq & Hm). rewrite E1, Hq, E2. unfold frame_bytes. rewrite Hm. cbn [default]. unfold id.
  rewrite segment_page_nth by (done || lia). unfold segment_byte.
  replace (j / 4096 * 4096 + j mod 4096) with j by lia. by replace (p_offset ph + j / 4096 * 4096 + j mod 4096) with (p_offset ph + j) by lia.
Qed.

Lemma loaded_outside st0 b0 k st a : loader_inv st0 b0 -> aligned_frames st0 -> loaded st0 b0 k st ->
  k <= calculate_pages (p_memsz ph) -> ~ in_segment a -> user_view st a = user_view st0 a.
Proof.
  intros (_ & _ & _ & _ & _ & Hown) Hal0 (b & _ & _ & _ & Hout & _ & Hmem) Hk Ha. unfold user_view.
  pose proof (Z.mod_pos_bound a 4096 ltac:(lia)) as Hr. rewrite Hout.
  - destruct (pages (ld_pt st0) !! (a - a mod 4096)) as [[f f']|] eqn:E; [|done].
    destruct (Hal0 _ _ _ E) as [q ->]. unfold frame_bytes. by rewrite (Hmem q (Hown _ _ _ E)).
  - intros j Hj E. apply Ha. unfold in_segment. nia.
Qed.

Lemma unmapped_view st a : (forall j, 0 <= j < calculate_pages (p_memsz ph) -> pages (ld_pt st) !! (vaddr + j * 4096) = None) ->
  in_segment a -> user_view st a = None.
Proof.
  intros Hn [H1 H2]. unfold user_view. destruct (page_index a H1) as [-> _]. rewrite Hn; [done|].
  split; [apply Z.div_pos; lia|apply Z.div_lt_upper_bound; lia].
Qed.
End Segment.

Definition loader_ok st : Prop := exists b, loader_inv st b /\ aligned_frames st.
Definition keeps st st' : Prop := forall a x, user_view st a = Some x -> user_view st' a = Some x.

Lemma view_kept_refl st : keeps st st.
Proof. by intros a x. Qed.
Lemma view_kept_trans st1 st2 st3 : keeps st1 st2 -> keeps st2 st3 -> keeps st1 st3.
Proof. intros H1 H2 a x Hx. by apply H2, H1. Qed.

Lemma loaded_start image ph st b : loader_inv st b -> aligned_frames st -> loaded image ph st b 0 st.
Proof. intros Hi Ha. exists b. split_and!; try done; lia. Qed.

Lemma load_segment_spec image ph st : header_u64 ph -> p_vaddr ph mod 4096 = 0 -> zlen image <= u64_max -> loader_ok st ->
  keeps st (load_segment image ph st).2 /\
  (forall a, ~ in_segment ph a -> user_view (load_segment image ph st).2 a = user_view st a) /\
  match load_segment image ph st with
  | (Ok _, st') => loader_ok st' /\ segment_ok image ph /\
      forall j, 0 <= j < calculate_pages (p_memsz ph) * 4096 -> user_view st' (p_vaddr ph + j) = Some (segment_byte image ph j, segment_flags ph)
  | (Err e, st') => e = LoadOutOfMemory -> exhausted st'
  | (Panic, st') => ~ segment_ok image ph
  end.
Proof.
  intros Hph Hal Hi (b & Hinv & Hfr). unfold load_segment. destruct (check_segment image ph) as [n|e|] eqn:Ec.
  - destruct (check_segment_inv _ _ _ Hph Ec) as [Hok ->]. pose proof Hok as (_ & _ & Hm & _).
    pose proof (calculate_pages_bounds _ Hm) as [Hn1 _].
    assert (Z.of_nat (Z.to_nat (calculate_pages (p_memsz ph))) = calculate_pages (p_memsz ph)) as Hz by lia.
    destruct (check_unmapped_spec image ph Hph Hok Hal (ld_pt st) (Z.to_nat (calculate_pages (p_memsz ph))) ltac:(apply Hinv) 0) as [[-> Hnone]| ->]; [lia|lia| |split_and!; [apply view_kept_refl|done|done]].
    rewrite Hz, Z.add_0_l in Hnone.
    pose proof (load_pages_spec image ph Hph Hok Hal st b _ 0 st ltac:(lia) (eq_trans (Z.add_0_l _) Hz) Hnone (loaded_start image ph st b Hinv Hfr)) as Hl.
    assert (Hkeep : forall st', (forall a, ~ in_segment ph a -> user_view st' a = user_view st a) -> keeps st st').
    { intros st' Ho a x Hx. rewrite Ho; [done|]. intros Ha. by rewrite (unmapped_view ph Hal st a Hnone Ha) in Hx. }
    destruct (load_pages _ image ph 0 st) as [[u|e|] st']; [| |done]; cbn [snd].
    + assert (Ho : forall a, ~ in_segment ph a -> user_view st' a = user_view st a) by (intros a Ha; by eapply loaded_outside).
      split_and!; [by apply Hkeep|done| |done|].
      * destruct Hl as (b' & Hb' & Ha' & _). by exists b'.
      * intros j Hj. by apply (loaded_inside image ph Hph Hok Hal st b).
    + destruct Hl as (-> & (k & Hk & Hl) & Hx).
      assert (Ho : forall a, ~ in_segment ph a -> user_view st' a = user_view st a) by (intros a Ha; by eapply loaded_outside).
      split_and!; [by apply Hkeep|done|done].
  - split_and!; [apply view_kept_refl|done|]. cbn. intros ->. by apply check_segment_err in Ec.
  - split_and!; [apply view_kept_refl|done|]. intros Hok. by rewrite (check_segment_ok image ph Hph Hi Hok) in Ec.
Qed.

Definition is_load (ph : ProgramHeader) : Prop := p_type ph = PT_LOAD.

End Correct.

(** A header whose segment reaches outside the image or outside user space, or is empty, is
    refused before anything is read, allocated or mapped; it never loads. *)
Theorem load_segment_refuses {P : Type} `{PageTableHelper P} (image : list Z) (ph : ProgramHeader) (st : Loader P) :
  header_u64 ph -> ~ segment_ok image ph ->
  (load_segment image ph st).2 = st /\ (load_segment image ph st).1 ∈ [Err InvalidFormat; Err UnsupportedArchitecture; Panic].
Proof.
  intros Hph Hbad. unfold load_segment. destruct (check_segment image ph) as [n|e|] eqn:Ec.
  - by destruct (check_segment_inv _ _ _ Hph Ec) as [Hok _].
  - split; [done|]. cbn [fst]. destruct (check_segment_errors _ _ _ Ec) as [->| ->]; set_solver.
  - split; [done|]. set_solver.
Qed.

(** ** Departures *)

(** From the moment the memory manager has taken over the frame allocator, no segment is ever
    loaded, whatever the program: the loader takes its frames from the allocator that was given
    away. *)
Theorem load_starved {P : Type} `{PageTableHelper P} (st st' : Loader P) (image : list Z) (ph : ProgramHeader) :
  transfer_frames st = Ok st' -> header_u64 ph -> (load_segment image ph st').1 <> Ok tt.
Proof.
  unfold transfer_frames. destruct (ld_heap st) as [b|]; [|done]. intros [= <-] Hph. unfold load_segment.
  destruct (check_segment image ph) as [n|e|] eqn:Ec; [|done..].
  destruct (check_segment_inv _ _ _ Hph Ec) as [(_ & _ & Hm & _) ->].
  pose proof (calculate_pages_bounds _ Hm) as [Hn _]. case_match; [|done..].
  destruct (Z.to_nat (calculate_pages (p_memsz ph))) as [|k] eqn:Ek; [lia|]. cbn [load_pages]. unfold load_page. cbn [ld_heap].
  by destruct (page_address _ _).
Qed.

(** Before that, the allocator for page tables is missing, and the first page panics. *)
Theorem load_before_transfer {P : Type} `{PageTableHelper P} (st : Loader P) (image : list Z) (ph : ProgramHeader) :
  ld_global st = None -> header_u64 ph -> (load_segment image ph st).1 <> Ok tt.
Proof.
  intros Hg Hph. unfold load_segment. destruct (check_segment image ph) as [n|e|] eqn:Ec; [|done..].
  destruct (check_segment_inv _ _ _ Hph Ec) as [(_ & _ & Hm & _) ->].
  pose proof (calculate_pages_bounds _ Hm) as [Hn _]. case_match; [|done..].
  destruct (Z.to_nat (calculate_pages (p_memsz ph))) as [|k] eqn:Ek; [lia|]. cbn [load_pages]. unfold load_page. rewrite Hg.
  destruct (page_address _ _); [|done..]. destruct (ld_heap st) as [b|]; [|done]. by destruct (allocate_frame b) as [[[]| |] ?].
Qed.

(** A page table that, as [ProcessPageTable] does, acts on the page containing an address. *)
Record PagedTable := mkPaged { paged : gmap Z (Z * Z) }.
#[local] Instance PagedTable_helper : PageTableHelper PagedTable := {|
  pth_map_page p v f fl b :=
    match paged p !! page_down v with Some _ => (true, p, b) | None => (true, mkPaged (<[page_down v := (f, fl)]> (paged p)), b) end;
  pth_unmap_page p v := match paged p !! page_down v with Some (f, _) => (Some f, mkPaged (delete (page_down v) (paged p))) | None => (None, p) end;
  pth_translate p v := (fun x => x.1 + v mod 4096) <$> paged p !! page_down v;
  pth_set_flags p v fl := match paged p !! page_down v with Some (f, _) => (true, mkPaged (<[page_down v := (f, fl)]> (paged p))) | None => (false, p) end;
  pth_get_flags p v := Some (match paged p !! page_down v with Some (_, fl) => fl | None => 0 end)
|}.

Definition paged_loader : Loader PagedTable := mkLoader (mkPaged ∅) (Some demo_bitmap) (Some demo_bitmap) ∅.
Definition physical_byte (m : gmap Z (list Z)) (a : Z) : Z := znth 0 (frame_bytes m (a - a mod 4096)) (a mod 4096).

(** A segment that does not start on a page boundary is copied to the start of its frame instead of
    to its address: the byte at its address is not the one of the file, and a segment of two bytes
    that crosses into the next page leaves the second unmapped. *)
Theorem unaligned_segment_misplaced :
  (let '(r, st) := load_segment [7; 8] (mkHeader PT_LOAD 4 0 0x401010 2 2) paged_loader in
    r = Ok tt /\ pth_translate (ld_pt st) 0x401010 = Some 0x41010 /\ physical_byte (ld_mem st) 0x41010 = 0
    /\ pth_translate (ld_pt st) 0x401000 = Some 0x41000 /\ physical_byte (ld_mem st) 0x41000 = 7)
  /\ (let '(r, st) := load_segment [7; 8] (mkHeader PT_LOAD 4 0 0x401FFF 2 2) paged_loader in
    r = Ok tt /\ pth_translate (ld_pt st) 0x402000 = None).
Proof. vm_compute. split_and!; reflexivity. Qed.

(** A header with an address that is not canonical stops the kernel. *)
Theorem noncanonical_segment_panics :
  (load_segment [7] (mkHeader PT_LOAD 4 0 0x800000000000 1 1) paged_loader).1 = Panic.
Proof. reflexivity. Qed.

(** ** Witnesses *)
Definition demo_loader : Loader FlatTable := mkLoader (∅ : FlatTable) (Some demo_bitmap) (Some demo_bitmap) ∅.
Definition demo_header : ProgramHeader := mkHeader PT_LOAD 5 1 0x400000 2 5000.

Lemma demo_loader_ok : loader_ok demo_loader.
Proof.
  assert (He : forall v (x : Z * Z), (∅ : gmap Z (Z * Z)) !! v = Some x -> False) by (intros v x Hx; by rewrite lookup_empty in Hx).
  exists demo_bitmap. split; [|intros v f fl Hv; by apply He in Hv]. split_and!.
  - intros v f fl Hv. by apply He in Hv.
  - done.
  - exact demo_bitmap_inv.
  - intros f l Hl. cbn [demo_loader ld_mem] in Hl. by rewrite lookup_empty in Hl.
  - exists demo_bitmap. split; [done|exact demo_bitmap_inv].
  - intros v q fl Hv. by apply He in Hv.
Qed.

Lemma demo_header_u64 : header_u64 demo_header.
Proof. unfold header_u64, u64_range. vm_compute. intuition discriminate. Qed.


Lemma load_segment_refuses_witness : (load_segment [9; 7] demo_header demo_loader).2 = demo_loader.
Proof.
  apply (load_segment_refuses [9; 7] demo_header demo_loader); [exact demo_header_u64|]. intros (Hb & _). revert Hb. vm_compute. intros Hb. apply Hb. reflexivity.
Defined.

Lemma load_starved_witness : exists st, transfer_frames demo_loader = Ok st /\ (load_segment [9; 7; 8] demo_header st).1 <> Ok tt.
Proof. eexists. split; [reflexivity|]. apply (load_starved demo_loader); [reflexivity|exact demo_header_u64]. Defined.
