(* ===== verification/Iova.v ===== *)
(** * Iova: the allocator of device addresses

    [nitrogen/src/iommu/mod.rs]: [IovaAllocator], which hands out ranges of I/O
    virtual addresses for device transfers.  Its state is the list of free
    intervals, with inclusive ends as in the code; an arithmetic overflow of the
    code is [Panic].

    An allocation takes the lowest fitting run of free addresses and removes
    exactly that run; it fails only when no run fits ([iova_alloc_lowest]).
    Returning a range adds exactly its addresses to the free ones and merges it with
    its neighbours ([iova_free_spec]). *)

From stdpp Require Import sorting.
From S2P Require Import Prelude.

(** ** The code *)

Record IovaInterval := mkIv { iv_start : Z; iv_end : Z }.

(** [(size + 4095) & !4095], with the overflow of the addition. *)
Definition page_round (size : Z) : result unit Z :=
  if u64_max <? size + 4095 then Panic else Ok (Z.land (size + 4095) (Z.lnot 4095)).

(** [IovaAllocator::new]. *)
Definition iova_new (iova_bits : Z) : list IovaInterval :=
  let bits := Z.max 12 (Z.min 39 iova_bits) in
  [mkIv (Z.shiftl 1 12) (Z.shiftl 1 bits - 1)].

(** The loop of [IovaAllocator::alloc]: index and start of the lowest fit. *)
Fixpoint fit_loop (need : Z) (i : nat) (best : option (nat * Z)) (ivs : list IovaInterval)
    : result unit (option (nat * Z)) :=
  match ivs with
  | [] => Ok best
  | iv :: rest =>
      if (iv_end iv <? iv_start iv) || (u64_max <? iv_end iv - iv_start iv + 1) then Panic
      else
        let avail := iv_end iv - iv_start iv + 1 in
        if need <=? avail then
          let fits := match best with Some (_, addr) => iv_start iv <? addr | None => true end in
          fit_loop need (S i) (if fits then Some (i, iv_start iv) else best) rest
        else fit_loop need (S i) best rest
  end.

(** [iv.start += need; if iv.start > iv.end { remove }] on the interval at [idx]. *)
Definition take_front (ivs : list IovaInterval) (idx : nat) (need : Z)
    : result unit (list IovaInterval) :=
  match ivs !! idx with
  | Some iv =>
      if u64_max <? iv_start iv + need then Panic
      else
        let iv' := mkIv (iv_start iv + need) (iv_end iv) in
        Ok (if iv_end iv' <? iv_start iv' then delete idx ivs else <[idx := iv']> ivs)
  | None => Panic
  end.

(** [IovaAllocator::alloc]. *)
Definition iova_alloc (ivs : list IovaInterval) (size : Z)
    : result unit (option Z * list IovaInterval) :=
  let? need := page_round size in
  if need =? 0 then Ok (None, ivs)
  else
    let? best := fit_loop need 0 None ivs in
    match best with
    | None => Ok (None, ivs)
    | Some (idx, addr) => let? ivs' := take_front ivs idx need in Ok (Some addr, ivs')
    end.

(** [sort_by_key(|iv| iv.start)]: a stable sort. *)
Fixpoint sort_insert (x : IovaInterval) (l : list IovaInterval) : list IovaInterval :=
  match l with
  | [] => [x]
  | y :: l' => if iv_start x <? iv_start y then x :: l else y :: sort_insert x l'
  end.
Definition sort_by_start (l : list IovaInterval) : list IovaInterval :=
  foldl (fun acc x => sort_insert x acc) [] l.

(** The merging loop of [IovaAllocator::free], [last] being [merged.last_mut()]. *)
Fixpoint merge_loop (last : IovaInterval) (ivs : list IovaInterval) : list IovaInterval :=
  match ivs with
  | [] => [last]
  | iv :: rest =>
      if iv_start iv <=? u64_saturating_add (iv_end last) 1
      then merge_loop (mkIv (iv_start last) (Z.max (iv_end last) (iv_end iv))) rest
      else last :: merge_loop iv rest
  end.
Definition merge_intervals (ivs : list IovaInterval) : list IovaInterval :=
  match ivs with [] => [] | iv :: rest => merge_loop iv rest end.

(** [IovaAllocator::free]. *)
Definition iova_free (ivs : list IovaInterval) (addr size : Z) : result unit (list IovaInterval) :=
  let? aligned := page_round size in
  if aligned =? 0 then Ok ivs
  else if u64_max <? addr + aligned then Panic
  else
    let iv := mkIv addr (addr + aligned - 1) in
    Ok (merge_intervals (sort_by_start (ivs ++ [iv]))).

(** ** Free addresses *)

(** The addresses the list holds, and the runs of [n] of them. *)
Definition in_free (ivs : list IovaInterval) (x : Z) : Prop :=
  exists iv, iv ∈ ivs /\ iv_start iv <= x <= iv_end iv.
Definition free_run (ivs : list IovaInterval) (a n : Z) : Prop :=
  forall x, a <= x < a + n -> in_free ivs x.

(** One interval: a nonempty run of whole pages below the 3-level limit. *)
Definition iv_ok (iv : IovaInterval) : Prop :=
  0 <= iv_start iv <= iv_end iv /\ iv_end iv < 2 ^ 39
  /\ iv_start iv mod 4096 = 0 /\ (iv_end iv + 1) mod 4096 = 0.

(** The list: its intervals in order, no two touching. *)
Definition iova_inv (ivs : list IovaInterval) : Prop :=
  Forall iv_ok ivs /\ StronglySorted (fun a b => iv_end a + 1 < iv_start b) ivs.

Lemma page_round_ok size : 0 <= size < 2 ^ 63 ->
  page_round size = Ok (4096 * ((size + 4095) / 4096)).
Proof.
  intros H. unfold page_round, u64_max. rewrite (proj2 (Z.ltb_ge _ _)) by lia. f_equal.
  change 4095 with (Z.ones 12) at 2. rewrite <- Z.ldiff_land, Z.ldiff_ones_r by lia.
  rewrite Z.shiftr_div_pow2, Z.shiftl_mul_pow2 by lia. change (2 ^ 12) with 4096. lia.
Qed.

Lemma iova_inv_cons iv ivs :
  iova_inv (iv :: ivs) <->
  iv_ok iv /\ iova_inv ivs /\ Forall (fun b => iv_end iv + 1 < iv_start b) ivs.
Proof.
  unfold iova_inv. rewrite Forall_cons. split.
  - intros [[H1 H2] H3]. apply StronglySorted_inv in H3 as [H3 H4]. done.
  - intros (H1 & [H2 H3] & H4). split; [done|]. by constructor.
Qed.

Lemma in_free_cons iv ivs x :
  in_free (iv :: ivs) x <-> iv_start iv <= x <= iv_end iv \/ in_free ivs x.
Proof.
  unfold in_free. split.
  - intros (b & Hb & Hx). apply elem_of_cons in Hb as [->|Hb]; [by left|right; eauto].
  - intros [Hx|(b & Hb & Hx)]; [exists iv|exists b]; (split; [|done]); apply elem_of_cons; auto.
Qed.

Lemma in_free_nil x : ~ in_free [] x.
Proof. intros (b & Hb & _). by apply elem_of_nil in Hb. Qed.

(** In a well-formed list the address after an interval is not free... *)
Lemma after_interval ivs iv : iova_inv ivs -> iv ∈ ivs -> ~ in_free ivs (iv_end iv + 1).
Proof.
  induction ivs as [|b ivs IH]; intros Hi He; [by apply elem_of_nil in He|].
  apply iova_inv_cons in Hi as (Hb & Hi & Hf). rewrite Forall_forall in Hf.
  rewrite in_free_cons. apply elem_of_cons in He as [->|He].
  - intros [?|(c & Hc & ?)]; [lia|]. specialize (Hf c Hc). simpl in Hf. lia.
  - intros [?|?]; [|by apply IH]. specialize (Hf iv He). simpl in Hf.
    destruct Hi as [Ho _]. rewrite Forall_forall in Ho. destruct (Ho iv He). lia.
Qed.

(** ... so a run of free addresses lies inside one interval. *)
Lemma run_in_interval ivs a n : iova_inv ivs -> 0 < n -> free_run ivs a n ->
  exists iv, iv ∈ ivs /\ iv_start iv <= a /\ a + n - 1 <= iv_end iv.
Proof.
  intros Hi Hn Hr. destruct (Hr a ltac:(lia)) as (iv & He & Hx).
  exists iv. split; [done|]. split; [lia|].
  destruct (Z.le_gt_cases (a + n - 1) (iv_end iv)); [done|].
  destruct (after_interval ivs iv Hi He). apply Hr. lia.
Qed.

(** ** Allocation *)

(** With ordered intervals the loop keeps its first fit. *)
Lemma fit_loop_found need i b ivs : Forall iv_ok ivs ->
  Forall (fun iv => b.2 <= iv_start iv) ivs ->
  fit_loop need i (Some b) ivs = Ok (Some b).
Proof.
  revert i. induction ivs as [|iv ivs IH]; intros i Ho Hb; [done|].
  inversion_clear Ho as [|? ? Hv Ho']. inversion_clear Hb as [|? ? Hs Hb'].
  destruct b as [bi ba]. simpl in *. destruct Hv as (? & ? & _).
  rewrite (proj2 (Z.ltb_ge _ _)), (proj2 (Z.ltb_ge u64_max _)) by (unfold u64_max; lia). simpl.
  rewrite (proj2 (Z.ltb_ge _ ba)) by lia. destruct (_ <=? _); by apply IH.
Qed.

Lemma fit_loop_spec need i ivs : iova_inv ivs ->
  (exists l iv r, ivs = l ++ iv :: r /\ need <= iv_end iv - iv_start iv + 1
     /\ Forall (fun b => iv_end b - iv_start b + 1 < need) l
     /\ fit_loop need i None ivs = Ok (Some ((i + length l)%nat, iv_start iv)))
  \/ (Forall (fun b => iv_end b - iv_start b + 1 < need) ivs
      /\ fit_loop need i None ivs = Ok None).
Proof.
  revert i. induction ivs as [|iv ivs IH]; intros i Hi; [by right|].
  apply iova_inv_cons in Hi as (Hv & Hi & Hf). pose proof Hv as (? & ? & _). cbn [fit_loop].
  rewrite (proj2 (Z.ltb_ge _ _)), (proj2 (Z.ltb_ge u64_max _)) by (unfold u64_max; lia).
  cbn [orb]. destruct (Z.leb_spec need (iv_end iv - iv_start iv + 1)).
  - left. exists [], iv, ivs. split_and!; [done|lia|done|].
    rewrite fit_loop_found; [by rewrite Nat.add_0_r|apply Hi|].
    eapply Forall_impl; [exact Hf|]. simpl. intros. lia.
  - destruct (IH (S i) Hi) as [(l & b & r & -> & Hn & Hl & ->)|[Hl ->]].
    + left. exists (iv :: l), b, r. split_and!; [done|done|by constructor|].
      simpl. do 3 f_equal. lia.
    + right. split; [by constructor|done].
Qed.

Lemma iova_inv_app l r : iova_inv (l ++ r) <->
  iova_inv l /\ iova_inv r /\ forall a b, a ∈ l -> b ∈ r -> iv_end a + 1 < iv_start b.
Proof.
  induction l as [|x l IH]; simpl.
  - split; [|tauto]. intros H. split_and!; [by split; constructor|done|].
    intros a b Ha. by apply elem_of_nil in Ha.
  - rewrite !iova_inv_cons, IH, Forall_app, (Forall_forall _ r). split.
    + intros (? & (? & ? & Hlr) & ? & Hr). split_and!; try done.
      intros a b Ha Hb. apply elem_of_cons in Ha as [->|Ha]; auto.
    + intros ((? & ? & ?) & ? & Hlr). split_and!; try done.
      * intros a b Ha Hb. apply Hlr; [by apply elem_of_cons; right|done].
      * intros b Hb. apply Hlr; [apply elem_of_cons; by left|done].
Qed.

Lemma in_free_app l r x : in_free (l ++ r) x <-> in_free l x \/ in_free r x.
Proof. unfold in_free. setoid_rewrite elem_of_app. naive_solver. Qed.

(** Taking pages from the front of an interval removes exactly those addresses. *)
Lemma take_front_spec l iv r need : iova_inv (l ++ iv :: r) ->
  0 < need <= iv_end iv - iv_start iv + 1 -> need mod 4096 = 0 ->
  exists ivs', take_front (l ++ iv :: r) (length l) need = Ok ivs' /\ iova_inv ivs'
    /\ forall x, in_free ivs' x <->
         in_free (l ++ iv :: r) x /\ ~ (iv_start iv <= x < iv_start iv + need).
Proof.
  intros Hi Hn Hm. unfold take_front. rewrite list_lookup_middle by done.
  apply iova_inv_app in Hi as (Hl & Hi & Hlr). apply iova_inv_cons in Hi as (Hv & Hr & Hf).
  rewrite Forall_forall in Hf. pose proof Hv as (? & ? & Hs & He).
  rewrite (proj2 (Z.ltb_ge u64_max _)) by (unfold u64_max; lia). cbn [iv_start iv_end].
  assert (forall x, in_free l x -> x < iv_start iv) as Hbelow.
  { intros x (b & Hb & ?). specialize (Hlr b iv Hb ltac:(apply elem_of_cons; by left)). lia. }
  assert (forall x, in_free r x -> iv_end iv < x) as Habove.
  { intros x (b & Hb & ?). specialize (Hf b Hb). simpl in Hf. lia. }
  eexists. split; [reflexivity|]. destruct (Z.ltb_spec (iv_end iv) (iv_start iv + need)).
  - rewrite delete_middle. split.
    + apply iova_inv_app. split_and!; [done|done|]. intros a b Ha Hb.
      apply Hlr; [done|apply elem_of_cons; by right].
    + intros x. rewrite !in_free_app, in_free_cons. specialize (Hbelow x). specialize (Habove x).
      intuition lia.
  - rewrite insert_app_r_alt, Nat.sub_diag by lia. simpl. split.
    + apply iova_inv_app. split_and!; [done| |].
      * apply iova_inv_cons. split_and!; [|done|by apply Forall_forall].
        unfold iv_ok. simpl. split_and!; [lia..| |done].
        by rewrite Zplus_mod, Hs, Hm.
      * intros a b Ha Hb. apply elem_of_cons in Hb as [->|Hb]; simpl.
        -- specialize (Hlr a iv Ha ltac:(apply elem_of_cons; by left)). lia.
        -- apply Hlr; [done|apply elem_of_cons; by right].
    + intros x. rewrite !in_free_app, !in_free_cons. simpl.
      specialize (Hbelow x). specialize (Habove x). intuition lia.
Qed.

(** Allocation takes the lowest run, removing exactly it, or fails only when there is none. *)
Lemma iova_alloc_spec ivs size n : iova_inv ivs -> 0 < size < 2 ^ 63 ->
  n = 4096 * ((size + 4095) / 4096) ->
  (exists a ivs', iova_alloc ivs size = Ok (Some a, ivs') /\ iova_inv ivs'
     /\ a mod 4096 = 0 /\ free_run ivs a n
     /\ (forall x, in_free ivs' x <-> in_free ivs x /\ ~ (a <= x < a + n))
     /\ forall a', free_run ivs a' n -> a <= a')
  \/ (iova_alloc ivs size = Ok (None, ivs) /\ forall a, ~ free_run ivs a n).
Proof.
  intros Hi Hs Hn. unfold iova_alloc. rewrite page_round_ok by lia. rewrite <- Hn. simpl.
  assert (0 < n /\ n mod 4096 = 0) as [H0 Hm].
  { subst n. split; [|rewrite Z.mul_comm; by apply Z.mod_mul].
    assert (1 <= (size + 4095) / 4096) by (apply Z.div_le_lower_bound; lia). lia. }
  rewrite (proj2 (Z.eqb_neq n 0)) by lia.
  destruct (fit_loop_spec n 0 ivs Hi) as [(l & iv & r & -> & Hv & Hl & ->)|[Hl ->]]; simpl.
  - left. destruct (take_front_spec l iv r n Hi ltac:(lia) Hm) as (ivs' & -> & Hi' & Hx).
    exists (iv_start iv), ivs'. split_and!; [done|done| | |exact Hx|].
    + apply iova_inv_app in Hi as (_ & Hi & _). apply iova_inv_cons in Hi as [Hv' _]. apply Hv'.
    + intros x ?. exists iv. split; [apply elem_of_app; right; apply elem_of_cons; by left|lia].
    + intros a' Hr. destruct (run_in_interval _ _ _ Hi H0 Hr) as (b & Hb & ? & ?).
      apply iova_inv_app in Hi as (_ & Hi & _). apply iova_inv_cons in Hi as ((? & _) & _ & Hf).
      rewrite Forall_forall in Hl, Hf. apply elem_of_app in Hb as [Hb|Hb].
      * specialize (Hl b Hb). simpl in Hl. lia.
      * apply elem_of_cons in Hb as [->|Hb]; [lia|]. specialize (Hf b Hb). simpl in Hf. lia.
  - right. split; [done|]. intros a Hr.
    destruct (run_in_interval _ _ _ Hi H0 Hr) as (b & Hb & ? & ?).
    rewrite Forall_forall in Hl. specialize (Hl b Hb). simpl in Hl. lia.
Qed.

(** ** Release *)

Definition starts_sorted := StronglySorted (fun a b => iv_start a <= iv_start b).

Lemma sort_insert_spec x l : starts_sorted l ->
  sort_insert x l ≡ₚ x :: l /\ starts_sorted (sort_insert x l).
Proof.
  unfold starts_sorted. induction l as [|y l IH]; intros Hs; simpl.
  - split; [done|]. by repeat constructor.
  - apply StronglySorted_inv in Hs as [Hs Hf]. destruct (IH Hs) as [Hp Hs'].
    destruct (Z.ltb_spec (iv_start x) (iv_start y)).
    + split; [done|]. constructor; [by constructor|]. constructor; [lia|].
      eapply Forall_impl; [exact Hf|]. simpl. intros. lia.
    + split; [rewrite Hp; constructor|]. constructor; [done|].
      rewrite Hp. constructor; [lia|done].
Qed.

Lemma sort_by_start_spec l : sort_by_start l ≡ₚ l /\ starts_sorted (sort_by_start l).
Proof.
  unfold sort_by_start.
  enough (forall acc, starts_sorted acc ->
    foldl (fun acc x => sort_insert x acc) acc l ≡ₚ acc ++ l
    /\ starts_sorted (foldl (fun acc x => sort_insert x acc) acc l)) as H
    by (apply (H []); constructor).
  induction l as [|x l IH]; intros acc Ha; simpl; [by rewrite app_nil_r|].
  destruct (sort_insert_spec x acc Ha) as [Hp Hs]. destruct (IH _ Hs) as [Hp' Hs'].
  split; [|done]. rewrite Hp', Hp. simpl. apply Permutation_middle.
Qed.

(** Merging a list ordered by start keeps its addresses and separates its intervals. *)
Lemma merge_loop_spec cur ivs : iv_ok cur -> Forall iv_ok ivs ->
  starts_sorted (cur :: ivs) ->
  iova_inv (merge_loop cur ivs)
  /\ (forall b, b ∈ merge_loop cur ivs -> iv_start cur <= iv_start b)
  /\ forall x, in_free (merge_loop cur ivs) x <-> in_free (cur :: ivs) x.
Proof.
  unfold starts_sorted. revert cur.
  induction ivs as [|iv ivs IH]; intros cur Hc Ho Hs; cbn [merge_loop].
  - split; [split; [constructor; [done|constructor]|by repeat constructor]|]. split; [|done].
    intros b Hb. apply list_elem_of_singleton in Hb as ->. lia.
  - inversion_clear Ho as [|? ? Hv Ho']. apply StronglySorted_inv in Hs as [Hs Hf].
    apply StronglySorted_inv in Hs as [Hs Hg]. inversion_clear Hf as [|? ? Hle Hf'].
    pose proof Hc as (? & ? & ? & ?). pose proof Hv as (? & ? & ? & ?).
    unfold u64_saturating_add. rewrite Z.min_l by (unfold u64_max; lia).
    destruct (Z.leb_spec (iv_start iv) (iv_end cur + 1)).
    + destruct (IH (mkIv (iv_start cur) (Z.max (iv_end cur) (iv_end iv)))) as (M1 & M2 & M3).
      * unfold iv_ok. simpl. split_and!; [lia..|done|]. by destruct (Z.max_spec (iv_end cur) (iv_end iv)) as [[_ ->]|[_ ->]].
      * done.
      * by constructor.
      * split; [done|]. split; [done|]. intros x. rewrite M3, !in_free_cons. simpl. intuition lia.
    + destruct (IH iv Hv Ho' ltac:(by constructor)) as (M1 & M2 & M3). split; [|split].
      * apply iova_inv_cons. split_and!; [done|done|]. apply Forall_forall.
        intros b Hb. specialize (M2 b Hb). simpl. lia.
      * intros b Hb. apply elem_of_cons in Hb as [->|Hb]; [lia|]. specialize (M2 b Hb). lia.
      * intros x. rewrite in_free_cons, M3, !in_free_cons. tauto.
Qed.

Lemma in_free_perm l l' x : l ≡ₚ l' -> in_free l x <-> in_free l' x.
Proof. intros Hp. unfold in_free. by setoid_rewrite Hp. Qed.

Lemma iova_free_spec ivs a size n : iova_inv ivs -> 0 < size < 2 ^ 63 ->
  n = 4096 * ((size + 4095) / 4096) -> 0 <= a -> a mod 4096 = 0 -> a + n <= 2 ^ 39 ->
  exists ivs', iova_free ivs a size = Ok ivs' /\ iova_inv ivs'
    /\ forall x, in_free ivs' x <-> in_free ivs x \/ a <= x < a + n.
Proof.
  intros Hi Hs Hn Ha Hm Hb. unfold iova_free. rewrite page_round_ok by lia. rewrite <- Hn. simpl.
  assert (1 <= (size + 4095) / 4096) by (apply Z.div_le_lower_bound; lia).
  rewrite (proj2 (Z.eqb_neq n 0)), (proj2 (Z.ltb_ge u64_max _)) by (unfold u64_max; lia).
  eexists. split; [reflexivity|]. set (iv := mkIv a (a + n - 1)).
  assert (iv_ok iv) as Hv.
  { unfold iv_ok. simpl. split_and!; [lia..|done|]. replace (a + n - 1 + 1) with (a + n) by lia.
    rewrite Hn, Z.mul_comm, Z_mod_plus_full. done. }
  destruct (sort_by_start_spec (ivs ++ [iv])) as [Hp Hsort].
  assert (Forall iv_ok (sort_by_start (ivs ++ [iv]))) as Hok.
  { rewrite Hp. apply Forall_app. split; [apply Hi|constructor; [done|constructor]]. }
  assert (forall x, in_free (sort_by_start (ivs ++ [iv])) x <-> in_free ivs x \/ a <= x < a + n) as Hx.
  { intros x. rewrite (in_free_perm _ _ x Hp), in_free_app, in_free_cons. simpl.
    pose proof (in_free_nil x). intuition lia. }
  destruct (sort_by_start (ivs ++ [iv])) as [|c l]; simpl.
  { split; [by split; constructor|]. exact Hx. }
  inversion_clear Hok. destruct (merge_loop_spec c l) as (M1 & _ & M3); [done..|].
  split; [done|]. intros x. by rewrite M3.
Qed.

Lemma iova_new_inv bits : 13 <= bits ->
  iova_inv (iova_new bits)
  /\ forall x, in_free (iova_new bits) x <-> 4096 <= x < 2 ^ Z.min 39 bits.
Proof.
  intros Hb. unfold iova_new. set (k := Z.max 12 (Z.min 39 bits)).
  replace (Z.min 39 bits) with k by lia. assert (13 <= k <= 39) as Hk by lia.
  rewrite !Z.shiftl_mul_pow2 by lia. rewrite !Z.mul_1_l. change (2 ^ 12) with 4096.
  assert (2 ^ 13 <= 2 ^ k <= 2 ^ 39) by (split; apply Z.pow_le_mono_r; lia).
  change (2 ^ 13) with 8192 in *. split.
  - split; [|by repeat constructor]. constructor; [|constructor]. unfold iv_ok. simpl.
    split_and!; [lia..|done|]. replace (2 ^ k - 1 + 1) with (2 ^ (k - 12) * 4096).
    + by apply Z.mod_mul.
    + change 4096 with (2 ^ 12). rewrite <- Z.pow_add_r by lia. rewrite Z.sub_add. lia.
  - intros x. rewrite in_free_cons. simpl. pose proof (in_free_nil x). intuition lia.
Qed.

(** Device addresses are allocated first fit. For a request of [size] bytes, rounded up
    to [n] whole pages, [alloc] returns the lowest page-aligned address from which [n]
    bytes are free, and removes exactly those bytes from the free ones; it answers
    [None], changing nothing, only when no run of [n] free addresses exists. *)
Theorem iova_alloc_lowest ivs size : iova_inv ivs -> 0 < size < 2 ^ 63 ->
  let n := 4096 * ((size + 4095) / 4096) in
  match iova_alloc ivs size with
  | Ok (Some a, ivs') => iova_inv ivs' /\ a mod 4096 = 0 /\ free_run ivs a n
      /\ (forall x, in_free ivs' x <-> in_free ivs x /\ ~ (a <= x < a + n))
      /\ (forall a', free_run ivs a' n -> a <= a')
  | Ok (None, ivs') => ivs' = ivs /\ forall a, ~ free_run ivs a n
  | _ => False
  end.
Proof.
  intros Hi Hs n. destruct (iova_alloc_spec ivs size n Hi Hs eq_refl)
    as [(a & ivs' & -> & ?)|[-> ?]]; done.
Qed.

Lemma iova_alloc_lowest_witness :
  iova_alloc [mkIv 4096 8191; mkIv 16384 65535] 5000 = Ok (Some 16384, [mkIv 4096 8191; mkIv 24576 65535])
  /\ forall a', free_run [mkIv 4096 8191; mkIv 16384 65535] a' 8192 -> 16384 <= a'.
Proof.
  split; [reflexivity|].
  assert (iova_inv [mkIv 4096 8191; mkIv 16384 65535]) as Hi.
  { split.
    - constructor; [|constructor; [|constructor]]; (split; [simpl; lia|split; [simpl; lia|done]]).
    - constructor; [constructor; [constructor|constructor]|constructor; [simpl; lia|constructor]]. }
  pose proof (iova_alloc_lowest [mkIv 4096 8191; mkIv 16384 65535] 5000 Hi ltac:(lia)) as Hl.
  apply Hl.
Defined.
