(* ===== verification/Iommu.v ===== *)
(** * Iommu: device address translation

    [nitrogen/src/iommu/table.rs] and [mod.rs]: the context and root entries, the
    3-level second-level page table, and [IommuEngine], which maps memory for device
    transfers.  Memory is the word map of [PageTable], frames come from any allocator
    with the interface of [PageTable] ([MemCallbacks::alloc_frame], which the kernel
    installs with its memory manager), and device addresses from [Iova].

    [sl_translate] is the walk the tables are for.  The engine's promise is stated
    against the list of live mappings, those mapped and not yet unmapped: for any
    sequence of calls, a device address translates exactly when a live mapping covers
    it, and then to the memory it was mapped to; live mappings are disjoint; a call
    that fails leaves every translation as it was ([dma_run_isolated]).

    The cache invalidations and the other register accesses of [vtd.rs] are not
    modelled: they act on the hardware only. *)

From stdpp Require Import sorting.
From S2P Require Import Prelude Frames PageTable Iova.

(** ** Entries: [table.rs] *)

Definition IOPTE_R : Z := Z.shiftl 1 0.
Definition IOPTE_W : Z := Z.shiftl 1 1.
Definition IOPTE_ADDR_MASK : Z := 0x000ffffffffff000.
Definition iopte_addr (entry : Z) : Z := Z.land entry IOPTE_ADDR_MASK.

Definition TT_HOST_WITH_STRUCTURES : Z := Z.shiftl 0 2.
Definition TT_PASS_THROUGH : Z := Z.shiftl 2 2.
Definition CTX_AW_3LEVEL : Z := Z.shiftl 2 8.
Definition CTX_FPD : Z := Z.shiftl 1 1.
Definition CTX_TT_MASK : Z := Z.shiftl 3 2.

(** [ContextEntry], two words. *)
Record ContextEntry := mkCtx { ce_lo : Z; ce_hi : Z }.

Definition ce_is_present (c : ContextEntry) : bool := negb (Z.land (ce_lo c) 1 =? 0).
Definition translation_type (c : ContextEntry) : Z := Z.land (ce_lo c) CTX_TT_MASK.
Definition is_pass_through (c : ContextEntry) : bool :=
  ce_is_present c && (translation_type c =? TT_PASS_THROUGH).
Definition is_blocked (c : ContextEntry) : bool :=
  ce_is_present c && (translation_type c =? TT_HOST_WITH_STRUCTURES) && (ce_hi c =? 0).
Definition new_host (second_level_pt_phys address_width : Z) : ContextEntry :=
  mkCtx (Z.lor (Z.lor (Z.lor (Z.land second_level_pt_phys 0x000ffffffffff000) 1)
           TT_HOST_WITH_STRUCTURES) CTX_FPD)
        (Z.shiftr address_width 8).
Definition new_blocked : ContextEntry := mkCtx 1 0.
Definition new_pass_through : ContextEntry := mkCtx (Z.lor 1 TT_PASS_THROUGH) 0.

(** [RootEntry], one word. *)
Definition re_is_present (e : Z) : bool := negb (Z.land e 1 =? 0).
Definition re_new (ctx_table_phys : Z) : Z := Z.lor ctx_table_phys 1.
Definition context_table_phys (e : Z) : Z := Z.land e 0xfffffffffffff000.

(** [write_bytes(virt, 0, 4096)]. *)
Definition zero_frame (m : Mem) (f : Z) : Mem :=
  foldr (fun i m => <[entry_address f i := 0]> m) m (seqZ 0 512).

Record IommuPageTable := mkSl { sl_root : Z; sl_pages : list Z }.

Section Code.
Context {A : Type} `{FrameAllocator A}.

(** [alloc_frame()], [phys_to_virt] and [write_bytes], common to all tables. *)
Definition new_table (m : Mem) (a : A) : result unit Z * Mem * A :=
  match fa_allocate a with
  | (Ok p, a') => (Ok p, zero_frame m p, a')
  | (Err _, a') => (Err tt, m, a')
  | (Panic, a') => (Panic, m, a')
  end.

(** [IommuPageTable::new]. *)
Definition sl_new (m : Mem) (a : A) : result unit IommuPageTable * Mem * A :=
  match new_table m a with
  | (Ok p, m', a') => (Ok (mkSl p [p]), m', a')
  | (Err e, m', a') => (Err e, m', a')
  | (Panic, m', a') => (Panic, m', a')
  end.

(** [IommuPageTable::alloc_sl_table]. *)
Definition alloc_sl_table (t : IommuPageTable) (m : Mem) (a : A)
    : result unit Z * IommuPageTable * Mem * A :=
  match new_table m a with
  | (Ok p, m', a') => (Ok p, mkSl (sl_root t) (sl_pages t ++ [p]), m', a')
  | (r, m', a') => (r, t, m', a')
  end.

(** One level of [map_page]: the table below the entry at [ea], allocated when the
    entry is not readable. *)
Definition sl_descend (t : IommuPageTable) (m : Mem) (a : A) (ea : Z)
    : result unit Z * IommuPageTable * Mem * A :=
  if Z.land (read_word m ea) IOPTE_R =? 0 then
    match alloc_sl_table t m a with
    | (Ok p, t', m', a') => (Ok p, t', <[ea := Z.lor (Z.lor p IOPTE_R) IOPTE_W]> m', a')
    | r => r
    end
  else (Ok (iopte_addr (read_word m ea)), t, m, a).

Definition sl2_idx (iova : Z) : Z := Z.land (Z.shiftr iova 30) 0x1ff.
Definition sl1_idx (iova : Z) : Z := Z.land (Z.shiftr iova 21) 0x1ff.
Definition sl0_idx (iova : Z) : Z := Z.land (Z.shiftr iova 12) 0x1ff.

(** [IommuPageTable::map_page]. *)
Definition sl_map_page (t : IommuPageTable) (m : Mem) (a : A) (iova phys : Z)
    : result unit unit * IommuPageTable * Mem * A :=
  if negb (Z.land iova 0xfff =? 0) || negb (Z.land phys 0xfff =? 0)
     || negb (Z.shiftr iova 39 =? 0) then (Err tt, t, m, a)
  else
    match sl_descend t m a (entry_address (sl_root t) (sl2_idx iova)) with
    | (Ok sl1, t1, m1, a1) =>
        match sl_descend t1 m1 a1 (entry_address sl1 (sl1_idx iova)) with
        | (Ok sl0, t2, m2, a2) =>
            (Ok tt, t2,
             <[entry_address sl0 (sl0_idx iova) := Z.lor (Z.lor phys IOPTE_R) IOPTE_W]> m2, a2)
        | (Err e, t2, m2, a2) => (Err e, t2, m2, a2)
        | (Panic, t2, m2, a2) => (Panic, t2, m2, a2)
        end
    | (Err e, t1, m1, a1) => (Err e, t1, m1, a1)
    | (Panic, t1, m1, a1) => (Panic, t1, m1, a1)
    end.

(** [IommuPageTable::unmap_page]. *)
Definition sl_unmap_page (t : IommuPageTable) (m : Mem) (iova : Z) : Mem :=
  if negb (Z.land iova 0xfff =? 0) || negb (Z.shiftr iova 39 =? 0) then m
  else
    let sl2_entry := read_word m (entry_address (sl_root t) (sl2_idx iova)) in
    if Z.land sl2_entry IOPTE_R =? 0 then m
    else
      let sl1_entry := read_word m (entry_address (iopte_addr sl2_entry) (sl1_idx iova)) in
      if Z.land sl1_entry IOPTE_R =? 0 then m
      else <[entry_address (iopte_addr sl1_entry) (sl0_idx iova) := 0]> m.

(** [IommuEngine]: root table, page table and device addresses, with the memory and
    the allocator they live in. *)
Record IommuEngine := mkEngine {
  en_mem : Mem;
  en_frames : A;
  en_root_table : Z;
  en_context_pages : list Z;
  en_page_table : IommuPageTable;
  en_iova : list IovaInterval
}.

(** [IommuRootTable::get_context_entry]: the address of the device's entry. *)
Definition get_context_entry (e : IommuEngine) (bus device function : Z)
    : result unit Z * IommuEngine :=
  let ea := entry_address (en_root_table e) bus in
  let idx := Z.lor (Z.shiftl device 3) function in
  if re_is_present (read_word (en_mem e) ea)
  then (Ok (context_table_phys (read_word (en_mem e) ea) + 16 * idx), e)
  else
    match new_table (en_mem e) (en_frames e) with
    | (Ok p, m', a') =>
        (Ok (p + 16 * idx),
         mkEngine (<[ea := re_new p]> m') a' (en_root_table e) (en_context_pages e ++ [p])
           (en_page_table e) (en_iova e))
    | (Err x, m', a') =>
        (Err x, mkEngine m' a' (en_root_table e) (en_context_pages e) (en_page_table e) (en_iova e))
    | (Panic, m', a') =>
        (Panic, mkEngine m' a' (en_root_table e) (en_context_pages e) (en_page_table e) (en_iova e))
    end.

(** [*entry] and [*entry = c]. *)
Definition read_context (m : Mem) (ea : Z) : ContextEntry :=
  mkCtx (read_word m ea) (read_word m (ea + 8)).
Definition set_context (e : IommuEngine) (ea : Z) (c : ContextEntry) : IommuEngine :=
  mkEngine (<[ea + 8 := ce_hi c]> (<[ea := ce_lo c]> (en_mem e))) (en_frames e)
    (en_root_table e) (en_context_pages e) (en_page_table e) (en_iova e).

(** [IommuEngine::new], with [IommuRootTable::new]; the callbacks are installed. *)
Definition engine_new (m : Mem) (a : A) (iova_bits : Z) : result unit IommuEngine :=
  match new_table m a with
  | (Ok rt, m1, a1) =>
      match sl_new m1 a1 with
      | (Ok t, m2, a2) => Ok (mkEngine m2 a2 rt [] t (iova_new iova_bits))
      | (Err e, _, _) => Err e
      | (Panic, _, _) => Panic
      end
  | (Err e, _, _) => Err e
  | (Panic, _, _) => Panic
  end.

(** [setup_pass_through_all], on the devices the bus scan found. *)
Fixpoint setup_pass_through (e : IommuEngine) (devices : list (Z * Z * Z))
    : result unit unit * IommuEngine :=
  match devices with
  | [] => (Ok tt, e)
  | (bus, device, function) :: rest =>
      match get_context_entry e bus device function with
      | (Ok ea, e1) => setup_pass_through (set_context e1 ea new_pass_through) rest
      | (Err x, e1) => (Err x, e1)
      | (Panic, e1) => (Panic, e1)
      end
  end.

Definition set_tables (e : IommuEngine) (t : IommuPageTable) (m : Mem) (a : A) : IommuEngine :=
  mkEngine m a (en_root_table e) (en_context_pages e) t (en_iova e).
Definition set_iova (e : IommuEngine) (ivs : list IovaInterval) : IommuEngine :=
  mkEngine (en_mem e) (en_frames e) (en_root_table e) (en_context_pages e) (en_page_table e) ivs.

(** The mapping loop of [dma_map] from page [i] on: [Err i] when page [i] fails. *)
Fixpoint map_loop (n : nat) (i : Z) (e : IommuEngine) (iova phys : Z)
    : result Z unit * IommuEngine :=
  match n with
  | O => (Ok tt, e)
  | S n' =>
      if (u64_max <? iova + i * 4096) || (u64_max <? phys + i * 4096) then (Panic, e)
      else
        match sl_map_page (en_page_table e) (en_mem e) (en_frames e)
                (iova + i * 4096) (phys + i * 4096) with
        | (Ok _, t, m, a) => map_loop n' (i + 1) (set_tables e t m a) iova phys
        | (Err _, t, m, a) => (Err i, set_tables e t m a)
        | (Panic, t, m, a) => (Panic, set_tables e t m a)
        end
  end.

(** [for i in 0..n { unmap_page(iova + i * 4096) }], from page [i] on. *)
Fixpoint unmap_loop (n : nat) (i : Z) (e : IommuEngine) (iova : Z) : result unit IommuEngine :=
  match n with
  | O => Ok e
  | S n' =>
      if u64_max <? iova + i * 4096 then Panic
      else
        unmap_loop n' (i + 1)
          (set_tables e (en_page_table e)
             (sl_unmap_page (en_page_table e) (en_mem e) (iova + i * 4096)) (en_frames e)) iova
  end.

(** The body of [dma_unmap] and the rollback of [dma_map]: unmap [pages], free the range. *)
Definition release (e : IommuEngine) (iova : Z) (pages : nat) (size : Z)
    : result unit IommuEngine :=
  let? e1 := unmap_loop pages 0 e iova in
  let? ivs := iova_free (en_iova e1) iova size in
  Ok (set_iova e1 ivs).

(** [IommuEngine::dma_unmap]. *)
Definition engine_dma_unmap (e : IommuEngine) (iova size : Z) : result unit IommuEngine :=
  if u64_max <? size + 4095 then Panic
  else release e iova (Z.to_nat ((size + 4095) / 4096)) size.

(** [IommuEngine::dma_map] after the context entry is set. *)
Definition dma_map_pages (e : IommuEngine) (phys size : Z) : result unit Z * IommuEngine :=
  match iova_alloc (en_iova e) size with
  | Ok (Some iova, ivs) =>
      match map_loop (Z.to_nat ((size + 4095) / 4096)) 0 (set_iova e ivs) iova phys with
      | (Ok _, e') => (Ok iova, e')
      | (Err i, e') =>
          match release e' iova (Z.to_nat i) size with
          | Ok e'' => (Err tt, e'')
          | _ => (Panic, e')
          end
      | (Panic, e') => (Panic, e')
      end
  | Ok (None, ivs) => (Err tt, set_iova e ivs)
  | _ => (Panic, e)
  end.

(** The context part of [dma_map]: point the device at the page table unless blocked. *)
Definition dma_set_context (e : IommuEngine) (device_id : Z) : result unit unit * IommuEngine :=
  let bus := Z.shiftr device_id 8 in
  let device := Z.land (Z.shiftr device_id 3) 0x1f in
  let function := Z.land device_id 0x7 in
  match get_context_entry e bus device function with
  | (Ok ea, e1) =>
      (Ok tt, if is_blocked (read_context (en_mem e1) ea) then e1
              else set_context e1 ea (new_host (sl_root (en_page_table e1)) CTX_AW_3LEVEL))
  | (Err x, e1) => (Err x, e1)
  | (Panic, e1) => (Panic, e1)
  end.

(** [IommuEngine::dma_map]. *)
Definition engine_dma_map (e : IommuEngine) (device_id phys size : Z)
    : result unit Z * IommuEngine :=
  match dma_set_context e device_id with
  | (Ok _, e1) => dma_map_pages e1 phys size
  | (Err x, e1) => (Err x, e1)
  | (Panic, e1) => (Panic, e1)
  end.

(** The global [dma_map] and [dma_unmap]: the identity without an engine. *)
Definition dma_map (g : option IommuEngine) (device_id phys size : Z)
    : result unit Z * option IommuEngine :=
  match g with
  | Some e => let '(r, e') := engine_dma_map e device_id phys size in (r, Some e')
  | None => (Ok phys, None)
  end.
Definition dma_unmap (g : option IommuEngine) (iova size : Z) : result unit (option IommuEngine) :=
  match g with
  | Some e => let? e' := engine_dma_unmap e iova size in Ok (Some e')
  | None => Ok None
  end.
End Code.
Arguments IommuEngine : clear implicits.

(** ** The walk of a second-level table *)

(** The table or page an entry points to, when readable. *)
Definition sl_slot (m : Mem) (t i : Z) : option Z :=
  let e := read_word m (entry_address t i) in
  if Z.land e IOPTE_R =? 0 then None else Some (iopte_addr e).
Definition sl_walk (m : Mem) (root : Z) (p : list Z) : option Z :=
  foldl (fun o i => o ≫= fun t => sl_slot m t i) (Some root) p.

Definition sl_indices (iova : Z) : list Z := [sl2_idx iova; sl1_idx iova; sl0_idx iova].
Definition sl_translate (m : Mem) (root iova : Z) : option Z :=
  (fun page => page + iova mod 4096) <$> sl_walk m root (sl_indices iova).

(** Paths of at most [n] indices. *)
Definition sl_path (n : nat) (p : list Z) : Prop :=
  (length p <= n)%nat /\ Forall (fun i => 0 <= i < 512) p.

Lemma sl_walk_snoc m root p i :
  sl_walk m root (p ++ [i]) = sl_walk m root p ≫= fun t => sl_slot m t i.
Proof. unfold sl_walk. by rewrite foldl_app. Qed.

Lemma sl_path_snoc n p i : sl_path (S n) (p ++ [i]) <-> sl_path n p /\ 0 <= i < 512.
Proof.
  unfold sl_path. rewrite length_app, Forall_app, Forall_singleton. simpl.
  intuition lia.
Qed.

Lemma sl_path_le n k p : (n <= k)%nat -> sl_path n p -> sl_path k p.
Proof. intros Hn [Hl Hf]. split; [lia|done]. Qed.

Lemma low9_range x k : 0 <= Z.land (Z.shiftr x k) 0x1ff < 512.
Proof. change 0x1ff with (Z.ones 9). rewrite Z.land_ones by lia. apply Z.mod_pos_bound. lia. Qed.

Lemma sl_indices_path iova : sl_path 3 (sl_indices iova).
Proof. split; [done|]. repeat constructor; apply low9_range. Qed.

(** Below the 39-bit limit the indices name the page. *)
Lemma sl_indices_inj x y : 0 <= x < 2 ^ 39 -> 0 <= y < 2 ^ 39 ->
  sl_indices x = sl_indices y <-> x / 4096 = y / 4096.
Proof.
  intros Hx Hy. unfold sl_indices, sl2_idx, sl1_idx, sl0_idx. change 0x1ff with (Z.ones 9).
  rewrite !Z.land_ones, !Z.shiftr_div_pow2 by lia.
  change (2 ^ 30) with (4096 * (512 * 512)). change (2 ^ 21) with (4096 * 512).
  change (2 ^ 12) with 4096. change (2 ^ 9) with 512.
  rewrite <- !(Z.div_div _ 4096), <- !(Z.div_div _ 512) by lia.
  assert (forall z, 0 <= z < 2 ^ 39 -> 0 <= z / 4096 < 512 * 512 * 512) as Hq.
  { intros z Hz. split; [apply Z.div_pos; lia|apply Z.div_lt_upper_bound; lia]. }
  specialize (Hq x Hx) as Hqx. specialize (Hq y Hy) as Hqy.
  set (p := x / 4096) in *. set (q := y / 4096) in *.
  split; [|by intros ->]. intros [= E1 E2 E3].
  pose proof (Z.div_mod p 512 ltac:(lia)). pose proof (Z.div_mod q 512 ltac:(lia)).
  pose proof (Z.div_mod (p / 512) 512 ltac:(lia)). pose proof (Z.div_mod (q / 512) 512 ltac:(lia)).
  assert (forall z, 0 <= z < 512 * 512 * 512 -> (z / 512 / 512) mod 512 = z / 512 / 512) as Hs.
  { intros z Hz. apply Z.mod_small. split; [repeat apply Z.div_pos; lia|].
    do 2 (apply Z.div_lt_upper_bound; [lia|]). lia. }
  rewrite !Hs in E1 by done. lia.
Qed.

(** ** Writes and entries *)

Lemma zero_frame_other m f g i : f mod 4096 = 0 -> g mod 4096 = 0 -> 0 <= i < 512 -> g <> f ->
  read_word (zero_frame m f) (entry_address g i) = read_word m (entry_address g i).
Proof.
  intros Hf Hg Hi Hne. unfold zero_frame.
  assert (Forall (fun k => 0 <= k < 512) (seqZ 0 512)) as Hall.
  { apply Forall_forall. intros k Hk. apply elem_of_seqZ in Hk. lia. }
  induction Hall as [|k l Hk _ IH]; [done|]. simpl. rewrite read_insert, IH.
  destruct (Z.eqb_spec (entry_address g i) (entry_address f k)) as [E|]; [|done].
  by apply entry_address_inj in E as [? _].
Qed.

Lemma zero_frame_same m f i : 0 <= i < 512 -> read_word (zero_frame m f) (entry_address f i) = 0.
Proof.
  intros Hi. unfold zero_frame. assert (i ∈ seqZ 0 512) as He by (apply elem_of_seqZ; lia).
  revert He. generalize (seqZ 0 512). induction l as [|k l IH]; intros He; [by apply elem_of_nil in He|].
  simpl. rewrite read_insert. destruct (Z.eqb_spec (entry_address f i) (entry_address f k)) as [E|Hne]; [done|].
  apply IH. apply elem_of_cons in He as [->|]; done.
Qed.

Lemma insert_other m f i g j w : f mod 4096 = 0 -> g mod 4096 = 0 -> 0 <= i < 512 -> 0 <= j < 512 ->
  (g, j) <> (f, i) ->
  read_word (<[entry_address f i := w]> m) (entry_address g j) = read_word m (entry_address g j).
Proof.
  intros Hf Hg Hi Hj Hne. rewrite read_insert.
  destruct (Z.eqb_spec (entry_address g j) (entry_address f i)) as [E|]; [|done].
  apply entry_address_inj in E as [-> ->]; done.
Qed.

Lemma slot_insert m t i p : frame_ok p ->
  sl_slot (<[entry_address t i := Z.lor (Z.lor p IOPTE_R) IOPTE_W]> m) t i = Some p.
Proof.
  intros Hp. unfold sl_slot. rewrite read_insert, Z.eqb_refl, <- Z.lor_assoc.
  replace (Z.land _ IOPTE_R) with 1.
  - change (1 =? 0) with false. cbv iota. f_equal.
    apply (pte_addr_new p (Z.lor IOPTE_R IOPTE_W) Hp). by split.
  - rewrite Z.land_lor_distr_l.
    by rewrite (land_low_flag p 0 Hp ltac:(lia) : Z.land p IOPTE_R = 0).
Qed.

Lemma slot_zeroed m t i : 0 <= i < 512 -> sl_slot (zero_frame m t) t i = None.
Proof. intros Hi. unfold sl_slot. by rewrite zero_frame_same. Qed.

Lemma root_entry_new p : frame_ok p ->
  re_is_present (re_new p) = true /\ context_table_phys (re_new p) = p.
Proof.
  intros Hp. unfold re_is_present, context_table_phys, re_new. rewrite !Z.land_lor_distr_l.
  rewrite (land_low_flag p 0 Hp ltac:(lia) : Z.land p 1 = 0). split; [done|].
  rewrite <- (frame_masked p Hp) at 1. rewrite <- Z.land_assoc, Z.lor_0_r. apply (frame_masked p Hp).
Qed.

(** ** The second-level table *)

Section Tables.
Context {A : Type} `{FrameAllocator A}.
Context (fok : A -> Prop) (avail : A -> Z -> Prop) `{!LawfulFrames fok avail}.

(** The tables are frames the allocator does not hold, and no table is reached twice. *)
Record sl_inv (t : IommuPageTable) (m : Mem) (a : A) : Prop := {
  sli_frames f : f ∈ sl_pages t -> frame_ok f /\ ~ avail a f;
  sli_table p u : sl_path 2 p -> sl_walk m (sl_root t) p = Some u -> u ∈ sl_pages t;
  sli_inj p q u : sl_path 2 p -> sl_path 2 q ->
    sl_walk m (sl_root t) p = Some u -> sl_walk m (sl_root t) q = Some u -> p = q
}.

(** What any step of the table code does: tables come from the allocator, and frames
    of others keep their words. *)
Record sl_step (t : IommuPageTable) (m : Mem) (a : A) (t' : IommuPageTable) (m' : Mem) (a' : A)
    : Prop := {
  sls_fok : fok a';
  sls_inv : sl_inv t' m' a';
  sls_root : sl_root t' = sl_root t;
  sls_avail f : avail a' f -> avail a f;
  sls_pages f : f ∈ sl_pages t' -> f ∈ sl_pages t \/ avail a f;
  sls_foreign g i : frame_ok g -> g ∉ sl_pages t -> ~ avail a g -> 0 <= i < 512 ->
    read_word m' (entry_address g i) = read_word m (entry_address g i)
}.

Lemma sl_step_refl t m a : fok a -> sl_inv t m a -> sl_step t m a t m a.
Proof. intros. split; auto. Qed.

Lemma sl_step_trans t m a t1 m1 a1 t2 m2 a2 :
  sl_step t m a t1 m1 a1 -> sl_step t1 m1 a1 t2 m2 a2 -> sl_step t m a t2 m2 a2.
Proof.
  intros S1 S2. split.
  - apply (sls_fok _ _ _ _ _ _ S2).
  - apply (sls_inv _ _ _ _ _ _ S2).
  - rewrite (sls_root _ _ _ _ _ _ S2). apply (sls_root _ _ _ _ _ _ S1).
  - intros f Hf. by apply (sls_avail _ _ _ _ _ _ S1), (sls_avail _ _ _ _ _ _ S2).
  - intros f Hf. destruct (sls_pages _ _ _ _ _ _ S2 f Hf) as [Hp|Hv].
    + by apply (sls_pages _ _ _ _ _ _ S1).
    + right. by apply (sls_avail _ _ _ _ _ _ S1).
  - intros g i Hg Hn Hv Hi. rewrite (sls_foreign _ _ _ _ _ _ S2); [|done| | |done].
    + by apply (sls_foreign _ _ _ _ _ _ S1).
    + intros Hin. destruct (sls_pages _ _ _ _ _ _ S1 g Hin); done.
    + intros Hav. by apply Hv, (sls_avail _ _ _ _ _ _ S1).
Qed.

(** Memory that agrees on the tables has the same walks. *)
Lemma sl_walk_ext t m a m' p : sl_inv t m a -> sl_path 3 p ->
  (forall u i, u ∈ sl_pages t -> 0 <= i < 512 ->
     read_word m' (entry_address u i) = read_word m (entry_address u i)) ->
  sl_walk m' (sl_root t) p = sl_walk m (sl_root t) p.
Proof.
  intros Hinv Hp Hm. induction p as [|i p IH] using rev_ind; [done|].
  apply sl_path_snoc in Hp as [Hp Hi]. rewrite !sl_walk_snoc, IH by (by eapply sl_path_le; [|exact Hp]; lia).
  destruct (sl_walk m (sl_root t) p) as [u|] eqn:E; [|done]. simpl. unfold sl_slot.
  by rewrite Hm by (by try eapply sli_table).
Qed.

Lemma sl_inv_ext t m a m' a' : sl_inv t m a -> (forall f, avail a' f -> avail a f) ->
  (forall u i, u ∈ sl_pages t -> 0 <= i < 512 ->
     read_word m' (entry_address u i) = read_word m (entry_address u i)) ->
  sl_inv t m' a'.
Proof.
  intros Hinv Ha Hm.
  assert (forall p, sl_path 2 p -> sl_walk m' (sl_root t) p = sl_walk m (sl_root t) p) as Hw.
  { intros p Hp. eapply sl_walk_ext; [done| |done]. by apply (sl_path_le 2); [lia|]. }
  split.
  - intros f Hf. destruct (sli_frames _ _ _ Hinv f Hf) as [? Hv]. split; [done|].
    intros ?. by apply Hv, Ha.
  - intros p u Hp. rewrite Hw by done. by apply Hinv.
  - intros p q u Hp Hq. rewrite !Hw by done. by apply Hinv.
Qed.

Lemma sl_table_frame t m a p u : sl_inv t m a -> sl_path 2 p -> sl_walk m (sl_root t) p = Some u ->
  u ∈ sl_pages t /\ frame_ok u /\ ~ avail a u.
Proof.
  intros Hinv Hp Hu. pose proof (sli_table _ _ _ Hinv p u Hp Hu) as Hin.
  split; [done|]. by apply (sli_frames _ _ _ Hinv).
Qed.

(** Writing one entry changes only the walks through it. *)
Lemma sl_write_elsewhere t m a p u i w q :
  sl_inv t m a -> sl_path 2 p -> sl_walk m (sl_root t) p = Some u -> 0 <= i < 512 ->
  sl_path 3 q -> ~ p ++ [i] `prefix_of` q ->
  sl_walk (<[entry_address u i := w]> m) (sl_root t) q = sl_walk m (sl_root t) q.
Proof.
  intros Hinv Hp Hu Hi Hq Hn. induction q as [|j q IH] using rev_ind; [done|].
  apply sl_path_snoc in Hq as [Hq Hj]. rewrite !sl_walk_snoc, IH.
  2: { by apply (sl_path_le 2); [lia|]. }
  2: { intros Hpre. apply Hn. by apply prefix_app_r. }
  destruct (sl_walk m (sl_root t) q) as [v|] eqn:Ev; [|done]. simpl. unfold sl_slot.
  destruct (sl_table_frame t m a p u) as (_ & [_ ?] & _); [done..|].
  destruct (sl_table_frame t m a q v) as (_ & [_ ?] & _); [done..|].
  rewrite insert_other; [done..|].
  intros [= -> ->]. apply Hn. by rewrite (sli_inj _ _ _ Hinv p q u).
Qed.

(** Writing a last-level entry is a step, and changes one page's walk. *)
Lemma sl_write_leaf t m a p u i w :
  fok a -> sl_inv t m a -> length p = 2%nat -> sl_path 2 p -> 0 <= i < 512 ->
  sl_walk m (sl_root t) p = Some u ->
  let m' := <[entry_address u i := w]> m in
  sl_step t m a t m' a
  /\ sl_walk m' (sl_root t) (p ++ [i]) = sl_slot m' u i
  /\ forall q, length q = 3%nat -> sl_path 3 q -> q <> p ++ [i] ->
       sl_walk m' (sl_root t) q = sl_walk m (sl_root t) q.
Proof.
  intros Hok Hinv Hlen Hp Hi Hu m'.
  assert (forall q, sl_path 2 q -> sl_walk m' (sl_root t) q = sl_walk m (sl_root t) q) as Hw.
  { intros q Hq. apply (sl_write_elsewhere t m a p); try done; [by apply (sl_path_le 2); [lia|]|].
    intros Hpre. apply prefix_length in Hpre. rewrite length_app in Hpre. simpl in Hpre.
    destruct Hq. lia. }
  split; [split; try done; try by left|split; [by rewrite sl_walk_snoc, Hw, Hu|]].
  - split; [apply Hinv| |].
    + intros q v Hq. rewrite Hw by done. by apply Hinv.
    + intros q r v Hq Hr. rewrite !Hw by done. by apply Hinv.
  - intros g j Hg Hng _ Hj. pose proof (sli_table _ _ _ Hinv p u Hp Hu) as Hin.
    apply insert_other; [apply (sli_frames _ _ _ Hinv u Hin)|apply Hg|done|done|].
    intros [= -> _]. done.
  - intros q Hl Hq Hne. apply (sl_write_elsewhere t m a p); try done.
    intros [k Hk]. subst q. rewrite length_app, length_app in Hl. simpl in Hl.
    destruct k; [|simpl in Hl; lia]. by rewrite app_nil_r in Hne.
Qed.

(** A fresh table, zeroed, leaves every table as it was. *)
Lemma new_table_spec m a : fok a ->
  match new_table m a with
  | (Ok f, m', a') => m' = zero_frame m f /\ fok a' /\ avail a f /\ frame_ok f
      /\ forall g, avail a' g <-> avail a g /\ g <> f
  | (Err _, m', a') => m' = m /\ a' = a /\ forall g, ~ avail a g
  | (Panic, _, _) => False
  end.
Proof.
  intros Hok. unfold new_table. pose proof (fa_step a Hok) as Hs.
  destruct (fa_allocate a) as [[f|e|] a']; [|by destruct Hs|done].
  destruct Hs as (? & ? & ?). split_and!; try done. by apply (fa_avail a).
Qed.

Lemma zero_keeps t m a f : sl_inv t m a -> avail a f -> frame_ok f ->
  forall u i, u ∈ sl_pages t -> 0 <= i < 512 ->
    read_word (zero_frame m f) (entry_address u i) = read_word m (entry_address u i).
Proof.
  intros Hinv Hav Hf u i Hu Hi. destruct (sli_frames _ _ _ Hinv u Hu) as [Hfu Hnu].
  apply zero_frame_other; [apply Hf|apply Hfu|done|]. by intros ->.
Qed.

Lemma sl_walk_stuck m root p r : sl_walk m root p = None -> sl_walk m root (p ++ r) = None.
Proof.
  intros Hp. induction r as [|i r IH] using rev_ind; [by rewrite app_nil_r|].
  by rewrite app_assoc, sl_walk_snoc, IH.
Qed.

(** Linking a fresh table below an empty entry of [p] adds the one path to it... *)
Lemma sl_link_walks t m a p u i f :
  sl_inv t m a -> sl_path 1 p -> sl_walk m (sl_root t) p = Some u ->
  0 <= i < 512 -> sl_slot m u i = None -> avail a f -> frame_ok f ->
  let m' := <[entry_address u i := Z.lor (Z.lor f IOPTE_R) IOPTE_W]> (zero_frame m f) in
  sl_walk m' (sl_root t) (p ++ [i]) = Some f
  /\ forall q, sl_path 3 q -> q <> p ++ [i] ->
       sl_walk m' (sl_root t) q = sl_walk m (sl_root t) q.
Proof.
  intros Hinv Hp1 Hu Hi Hnone Hav Hf m'.
  assert (sl_path 2 p) as Hp by (by apply (sl_path_le 1); [lia|]).
  pose proof (zero_keeps t m a f Hinv Hav Hf) as Hz.
  pose proof (sl_inv_ext t m a _ a Hinv ltac:(done) Hz) as Hinv0.
  assert (forall q, sl_path 3 q ->
    sl_walk (zero_frame m f) (sl_root t) q = sl_walk m (sl_root t) q) as Hw0
    by (intros; by eapply sl_walk_ext).
  destruct (sl_table_frame t m a p u) as (Hin & Hfu & Hnu); [done..|].
  assert (forall q, sl_path 3 q -> ~ p ++ [i] `prefix_of` q ->
    sl_walk m' (sl_root t) q = sl_walk m (sl_root t) q) as Hother.
  { intros q Hq Hn. unfold m'. rewrite <- Hw0 by done. apply (sl_write_elsewhere t _ a p); try done.
    rewrite Hw0; [done|]. by apply (sl_path_le 2); [lia|]. }
  assert (sl_walk m' (sl_root t) (p ++ [i]) = Some f) as Hlink.
  { rewrite sl_walk_snoc, Hother; [|by apply (sl_path_le 2); [lia|]|].
    - rewrite Hu. simpl. by apply slot_insert.
    - intros Hpre. apply prefix_length in Hpre. rewrite length_app in Hpre. simpl in Hpre. lia. }
  split; [done|]. intros q Hq Hne.
  destruct (decide (p ++ [i] `prefix_of` q)) as [[r ->]|]; [|by apply Hother].
  rewrite (sl_walk_stuck m _ (p ++ [i])) by (by rewrite sl_walk_snoc, Hu).
  destruct r as [|j r]; [by rewrite app_nil_r in Hne|].
  rewrite (cons_middle j (p ++ [i]) r), app_assoc. apply sl_walk_stuck.
  rewrite sl_walk_snoc, Hlink. simpl. destruct Hq as [_ Hq].
  assert (0 <= j < 512) as Hj by (by apply Forall_app in Hq as [_ Hq]; inversion Hq).
  unfold sl_slot, m'. rewrite insert_other; [by rewrite zero_frame_same|apply Hfu|apply Hf|done|done|].
  intros [= -> _]. done.
Qed.

(** ... and is a step. *)
Lemma sl_link_step t m a a' p u i f :
  sl_inv t m a -> sl_path 1 p -> sl_walk m (sl_root t) p = Some u ->
  0 <= i < 512 -> sl_slot m u i = None -> fok a' -> avail a f -> frame_ok f ->
  (forall g, avail a' g <-> avail a g /\ g <> f) ->
  sl_step t m a (mkSl (sl_root t) (sl_pages t ++ [f]))
    (<[entry_address u i := Z.lor (Z.lor f IOPTE_R) IOPTE_W]> (zero_frame m f)) a'.
Proof.
  intros Hinv Hp Hu Hi Hnone Hok' Hav Hf Ha'.
  destruct (sl_link_walks t m a p u i f) as [Hl Hw]; [done..|].
  destruct (sl_table_frame t m a p u) as (Hin & Hfu & Hnu);
    [done|by apply (sl_path_le 1); [lia|]|done|].
  assert (f ∉ sl_pages t) as Hnf by (intros Hx; by apply (sli_frames _ _ _ Hinv) in Hx as [_ ?]).
  assert (forall q v, sl_path 2 q -> sl_walk (<[entry_address u i := Z.lor (Z.lor f IOPTE_R) IOPTE_W]>
    (zero_frame m f)) (sl_root t) q = Some v ->
    q = p ++ [i] /\ v = f \/ v ∈ sl_pages t /\ sl_walk m (sl_root t) q = Some v) as Hcase.
  { intros q v Hq E. destruct (decide (q = p ++ [i])) as [->|Hne]; [left; split; congruence|].
    rewrite Hw in E; [|by apply (sl_path_le 2); [lia|]|done]. right. split; [|done].
    by eapply sli_table. }
  split; simpl; try done.
  - split; simpl.
    + intros g Hg. apply elem_of_app in Hg as [Hg|Hg%list_elem_of_singleton].
      * destruct (sli_frames _ _ _ Hinv g Hg). split; [done|]. rewrite Ha'. tauto.
      * subst g. split; [done|]. rewrite Ha'. tauto.
    + intros q v Hq E. apply elem_of_app. destruct (Hcase q v Hq E) as [[_ ->]|[? _]]; [|by left].
      right. by apply list_elem_of_singleton.
    + intros q r v Hq Hr E1 E2.
      destruct (Hcase q v Hq E1) as [[-> ->]|[? ?]], (Hcase r _ Hr E2) as [[-> ?]|[? ?]];
        try done; [by subst|]. by apply (sli_inj _ _ _ Hinv q r v).
  - intros g Hg. by apply Ha'.
  - intros g Hg. apply elem_of_app in Hg as [Hg|Hg%list_elem_of_singleton]; [by left|right; by subst].
  - intros g j Hg Hng Hna Hj. rewrite insert_other; [|apply Hfu|apply Hg|done|done|by intros [= -> _]].
    apply zero_frame_other; [apply Hf|apply Hg|done|]. by intros ->.
Qed.

(** One level of [map_page]. *)
Lemma sl_descend_spec t m a p u i :
  fok a -> sl_inv t m a -> sl_path 1 p -> sl_walk m (sl_root t) p = Some u -> 0 <= i < 512 ->
  match sl_descend t m a (entry_address u i) with
  | (r, t', m', a') =>
      sl_step t m a t' m' a'
      /\ (forall q, sl_path 3 q -> q <> p ++ [i] ->
            sl_walk m' (sl_root t) q = sl_walk m (sl_root t) q)
      /\ match r with
         | Ok v => sl_walk m' (sl_root t) (p ++ [i]) = Some v
         | Err _ => forall g, ~ avail a' g
         | Panic => False
         end
  end.
Proof.
  intros Hok Hinv Hp Hu Hi. unfold sl_descend, alloc_sl_table.
  destruct (Z.land (read_word m (entry_address u i)) IOPTE_R =? 0) eqn:E.
  - assert (sl_slot m u i = None) as Hnone by (unfold sl_slot; by rewrite E).
    pose proof (new_table_spec m a Hok) as Hn.
    destruct (new_table m a) as [[[f|e|] m1] a1]; [|destruct Hn as (-> & -> & Hno)|done].
    + destruct Hn as (-> & Hok' & Hav & Hf & Ha').
      destruct (sl_link_walks t m a p u i f) as [Hl Hw]; [done..|].
      split; [by eapply sl_link_step|]. by split.
    + split; [by apply sl_step_refl|]. by split.
  - split; [by apply sl_step_refl|]. split; [done|].
    rewrite sl_walk_snoc, Hu. simpl. unfold sl_slot. by rewrite E.
Qed.

Lemma aligned_land x : x mod 4096 = 0 -> Z.land x 0xfff = 0.
Proof. intros Hx. change 0xfff with (Z.ones 12). by rewrite Z.land_ones. Qed.

Lemma below_limit x : 0 <= x < 2 ^ 39 -> Z.shiftr x 39 = 0.
Proof. intros Hx. rewrite Z.shiftr_div_pow2 by lia. by apply Z.div_small. Qed.

(** Walks that agree except at one page. *)
Lemma translate_update m m' root iova v : 0 <= iova < 2 ^ 39 ->
  sl_walk m' root (sl_indices iova) = v ->
  (forall q, length q = 3%nat -> sl_path 3 q -> q <> sl_indices iova ->
     sl_walk m' root q = sl_walk m root q) ->
  forall x, 0 <= x < 2 ^ 39 ->
    sl_translate m' root x = if x / 4096 =? iova / 4096 then (fun p => p + x mod 4096) <$> v
                             else sl_translate m root x.
Proof.
  intros Hi Hv Hw x Hx. unfold sl_translate. destruct (Z.eqb_spec (x / 4096) (iova / 4096)) as [E|Hne].
  - apply sl_indices_inj in E; [|done..]. by rewrite E, Hv.
  - rewrite Hw; [done|done|apply sl_indices_path|]. intros E. by apply sl_indices_inj in E.
Qed.

(** [map_page] makes one page translate to [phys]; failing, it changes no translation. *)
Lemma sl_map_page_spec t m a iova phys :
  fok a -> sl_inv t m a -> 0 <= iova < 2 ^ 39 -> iova mod 4096 = 0 -> frame_ok phys ->
  match sl_map_page t m a iova phys with
  | (r, t', m', a') =>
      sl_step t m a t' m' a'
      /\ match r with
         | Ok _ => forall x, 0 <= x < 2 ^ 39 -> sl_translate m' (sl_root t) x =
             if x / 4096 =? iova / 4096 then Some (phys + x mod 4096)
             else sl_translate m (sl_root t) x
         | Err _ => (forall x, sl_translate m' (sl_root t) x = sl_translate m (sl_root t) x)
             /\ forall g, ~ avail a' g
         | Panic => False
         end
  end.
Proof.
  intros Hok Hinv Hi Hm Hf. unfold sl_map_page.
  rewrite (aligned_land iova Hm), (aligned_land phys (proj2 Hf)), below_limit by done. simpl.
  assert (0 <= sl2_idx iova < 512) as H2 by apply low9_range.
  assert (0 <= sl1_idx iova < 512) as H1 by apply low9_range.
  assert (0 <= sl0_idx iova < 512) as H0 by apply low9_range.
  assert (forall n, sl_path n []) as Hnil by (intros; split; [simpl; lia|constructor]).
  assert (sl_path 1 [sl2_idx iova]) as Hp1 by (by apply (sl_path_snoc 0 [])).
  assert (sl_path 2 [sl2_idx iova; sl1_idx iova]) as Hp2 by (by apply (sl_path_snoc 1 [_])).
  pose proof (sl_descend_spec t m a [] (sl_root t) (sl2_idx iova)) as D1.
  destruct (sl_descend t m a _) as [[[r1 t1] m1] a1].
  destruct D1 as (S1 & W1 & R1); [done..|]. simpl in W1, R1.
  assert (forall x, sl_translate m1 (sl_root t) x = sl_translate m (sl_root t) x) as T1.
  { intros x. unfold sl_translate. rewrite W1; [done|apply sl_indices_path|done]. }
  destruct r1 as [u1|[]|]; [|done|done].
  pose proof (sls_root _ _ _ _ _ _ S1) as E1. rewrite <- E1 in R1.
  pose proof (sl_descend_spec t1 m1 a1 [sl2_idx iova] u1 (sl1_idx iova)) as D2.
  destruct (sl_descend t1 m1 a1 _) as [[[r2 t2] m2] a2].
  destruct D2 as (S2 & W2 & R2); [apply S1|apply S1|done..|]. simpl in W2, R2. rewrite E1 in W2, R2.
  pose proof (sl_step_trans _ _ _ _ _ _ _ _ _ S1 S2) as S12.
  assert (forall x, sl_translate m2 (sl_root t) x = sl_translate m (sl_root t) x) as T2.
  { intros x. rewrite <- T1. unfold sl_translate. rewrite W2; [done|apply sl_indices_path|done]. }
  destruct r2 as [u2|[]|]; [|done|done].
  pose proof (sls_root _ _ _ _ _ _ S12) as E2. rewrite <- E2 in R2.
  destruct (sl_write_leaf t2 m2 a2 [sl2_idx iova; sl1_idx iova] u2 (sl0_idx iova)
    (Z.lor (Z.lor phys IOPTE_R) IOPTE_W)) as (S3 & L3 & W3); [apply S12|apply S12|done..|].
  split; [by eapply sl_step_trans|]. intros x Hx. rewrite <- T2, <- E2.
  rewrite (translate_update m2 _ (sl_root t2) iova (Some phys)); [done|done| |exact W3|done].
  etransitivity; [exact L3|]. by apply slot_insert.
Qed.

(** [unmap_page] makes one page translate no more. *)
Lemma sl_unmap_page_spec t m a iova :
  fok a -> sl_inv t m a -> 0 <= iova < 2 ^ 39 -> iova mod 4096 = 0 ->
  let m' := sl_unmap_page t m iova in
  sl_step t m a t m' a
  /\ forall x, 0 <= x < 2 ^ 39 -> sl_translate m' (sl_root t) x =
       if x / 4096 =? iova / 4096 then None else sl_translate m (sl_root t) x.
Proof.
  intros Hok Hinv Hi Hm. unfold sl_unmap_page. rewrite (aligned_land iova Hm), below_limit by done.
  simpl. assert (0 <= sl2_idx iova < 512) as H2 by apply low9_range.
  assert (0 <= sl1_idx iova < 512) as H1 by apply low9_range.
  assert (0 <= sl0_idx iova < 512) as H0 by apply low9_range.
  assert (forall x, 0 <= x < 2 ^ 39 -> sl_walk m (sl_root t) (sl_indices iova) = None ->
    sl_translate m (sl_root t) x =
      if x / 4096 =? iova / 4096 then None else sl_translate m (sl_root t) x) as Hnone.
  { intros x Hx Hn. destruct (Z.eqb_spec (x / 4096) (iova / 4096)) as [E|]; [|done].
    apply sl_indices_inj in E; [|done..]. unfold sl_translate. by rewrite E, Hn. }
  assert (sl_walk m (sl_root t) [sl2_idx iova] = sl_slot m (sl_root t) (sl2_idx iova)) as W1 by done.
  unfold sl_slot in W1.
  destruct (Z.land (read_word m (entry_address (sl_root t) (sl2_idx iova))) IOPTE_R =? 0).
  { split; [by apply sl_step_refl|]. intros x Hx. apply Hnone; [done|].
    by apply (sl_walk_stuck m _ [_] [_; _]). }
  assert (sl_walk m (sl_root t) [sl2_idx iova; sl1_idx iova] =
    sl_slot m (iopte_addr (read_word m (entry_address (sl_root t) (sl2_idx iova)))) (sl1_idx iova))
    as W2 by (change [sl2_idx iova; sl1_idx iova] with ([sl2_idx iova] ++ [sl1_idx iova]); by rewrite sl_walk_snoc, W1).
  unfold sl_slot in W2. destruct (Z.land (read_word m (entry_address (iopte_addr _) _)) IOPTE_R =? 0).
  { split; [by apply sl_step_refl|]. intros x Hx. apply Hnone; [done|].
    by apply (sl_walk_stuck m _ [_; _] [_]). }
  set (u := iopte_addr _) in W2 |- *.
  assert (sl_path 2 [sl2_idx iova; sl1_idx iova]) as Hp2 by (by split; [simpl; lia|repeat constructor; lia]).
  destruct (sl_write_leaf t m a [sl2_idx iova; sl1_idx iova] u (sl0_idx iova) 0) as (S3 & L3 & W3); [done..|].
  split; [done|]. intros x Hx. rewrite (translate_update m _ (sl_root t) iova None); try done.
  etransitivity; [exact L3|]. unfold sl_slot. by rewrite read_insert, Z.eqb_refl.
Qed.
End Tables.

(** ** The engine *)

(** The context entry of requester [rid] (bus in the high byte, device and function in
    the low one), absent entries reading as zero. *)
Definition context_of {A} (e : IommuEngine A) (rid : Z) : ContextEntry :=
  let re := read_word (en_mem e) (entry_address (en_root_table e) (rid / 256)) in
  if re_is_present re
  then read_context (en_mem e) (context_table_phys re + 16 * (rid mod 256))
  else mkCtx 0 0.

Definition engine_translate {A} (e : IommuEngine A) (x : Z) : option Z :=
  sl_translate (en_mem e) (sl_root (en_page_table e)) x.

(** [x] lies in pages [i .. j) from [a] on. *)
Definition in_pages (a i j x : Z) : bool := (a + i * 4096 <=? x) && (x <? a + j * 4096).

(** A mapping [dma_map] returned and [dma_unmap] has not released. *)
Record Mapping := mkMapping { mp_iova : Z; mp_phys : Z; mp_size : Z }.
Definition page_count (size : Z) : Z := (size + 4095) / 4096.
Definition mp_covers (mp : Mapping) (x : Z) : bool := in_pages (mp_iova mp) 0 (page_count (mp_size mp)) x.

(** Where the live mappings send device address [x]. *)
Fixpoint live_at (live : list Mapping) (x : Z) : option Z :=
  match live with
  | [] => None
  | mp :: rest => if mp_covers mp x then Some (mp_phys mp + (x - mp_iova mp)) else live_at rest x
  end.
Fixpoint live_disjoint (live : list Mapping) : Prop :=
  match live with
  | [] => True
  | mp :: rest => (forall x, mp_covers mp x = true -> live_at rest x = None) /\ live_disjoint rest
  end.

Section Engine.
Context {A : Type} `{FrameAllocator A}.
Context (fok : A -> Prop) (avail : A -> Z -> Prop) `{!LawfulFrames fok avail}.

(** A frame of the engine's that is neither a page table nor the allocator's. *)
Definition own_frame (e : IommuEngine A) (g : Z) : Prop :=
  frame_ok g /\ ~ avail (en_frames e) g /\ g ∉ sl_pages (en_page_table e).

Record eng_ok (e : IommuEngine A) : Prop := {
  eo_fok : fok (en_frames e);
  eo_sl : sl_inv avail (en_page_table e) (en_mem e) (en_frames e);
  eo_rt : own_frame e (en_root_table e);
  eo_ctx g : g ∈ en_context_pages e -> own_frame e g /\ g <> en_root_table e;
  eo_root bus : 0 <= bus < 256 ->
    let re := read_word (en_mem e) (entry_address (en_root_table e) bus) in
    re_is_present re = true -> context_table_phys re ∈ en_context_pages e;
  eo_inj bus bus' : 0 <= bus < 256 -> 0 <= bus' < 256 ->
    let re := read_word (en_mem e) (entry_address (en_root_table e) bus) in
    let re' := read_word (en_mem e) (entry_address (en_root_table e) bus') in
    re_is_present re = true -> re_is_present re' = true ->
    context_table_phys re = context_table_phys re' -> bus = bus'
}.

(** Same contexts, device addresses and roots, whatever the tables did. *)
Record same_devices (e e' : IommuEngine A) : Prop := {
  sd_context rid : 0 <= rid < 2 ^ 16 -> context_of e' rid = context_of e rid;
  sd_iova : en_iova e' = en_iova e;
  sd_root : sl_root (en_page_table e') = sl_root (en_page_table e)
}.

Lemma same_devices_refl e : same_devices e e.
Proof. by split. Qed.

Lemma same_devices_trans e e1 e2 : same_devices e e1 -> same_devices e1 e2 -> same_devices e e2.
Proof.
  intros [C1 I1 R1] [C2 I2 R2]. split; [|congruence..]. intros rid Hr. by rewrite C2, C1.
Qed.

Lemma context_words p i : p + 16 * i = entry_address p (2 * i)
  /\ p + 16 * i + 8 = entry_address p (2 * i + 1).
Proof. unfold entry_address. lia. Qed.

Lemma half_even k : 2 * k / 2 = k.
Proof. rewrite Z.mul_comm. by apply Z.div_mul. Qed.

Lemma half_odd k : (2 * k + 1) / 2 = k.
Proof. rewrite Z.mul_comm, Z.div_add_l by lia. change (1 / 2) with 0. lia. Qed.

Lemma rid_range rid : 0 <= rid < 2 ^ 16 -> 0 <= rid / 256 < 256 /\ 0 <= rid mod 256 < 256.
Proof.
  intros Hr. split; [|by apply Z.mod_pos_bound].
  split; [apply Z.div_pos; lia|apply Z.div_lt_upper_bound; lia].
Qed.

(** A context depends only on its root entry and the words of the context tables. *)
Lemma context_of_ext (e e' : IommuEngine A) rid : eng_ok e -> 0 <= rid < 2 ^ 16 ->
  read_word (en_mem e') (entry_address (en_root_table e') (rid / 256))
    = read_word (en_mem e) (entry_address (en_root_table e) (rid / 256)) ->
  (forall g i, g ∈ en_context_pages e -> 0 <= i < 512 ->
     read_word (en_mem e') (entry_address g i) = read_word (en_mem e) (entry_address g i)) ->
  context_of e' rid = context_of e rid.
Proof.
  intros Hok Hr Hrt Hm. destruct (rid_range rid Hr) as [Hb Hd]. unfold context_of. rewrite Hrt.
  destruct (re_is_present _) eqn:Ep; [|done]. pose proof (eo_root e Hok _ Hb Ep) as Hin.
  unfold read_context. destruct (context_words (context_table_phys (read_word (en_mem e)
    (entry_address (en_root_table e) (rid / 256)))) (rid mod 256)) as [-> ->].
  by rewrite !Hm by (done || lia).
Qed.

(** A step of the page table keeps the engine. *)
Lemma eng_sl_step e t m a : eng_ok e ->
  sl_step fok avail (en_page_table e) (en_mem e) (en_frames e) t m a ->
  eng_ok (set_tables e t m a) /\ same_devices e (set_tables e t m a).
Proof.
  intros Hok Hs.
  assert (forall g, own_frame e g -> own_frame (set_tables e t m a) g) as Hown.
  { intros g (Hg & Hn & Hp). split_and!; [done| |].
    - intros ?. by apply Hn, (sls_avail _ _ _ _ _ _ _ _ Hs).
    - intros Hin. by destruct (sls_pages _ _ _ _ _ _ _ _ Hs g Hin). }
  assert (forall g i, own_frame e g -> 0 <= i < 512 ->
    read_word m (entry_address g i) = read_word (en_mem e) (entry_address g i)) as Hw.
  { intros g i (? & ? & ?) Hi. by apply (sls_foreign _ _ _ _ _ _ _ _ Hs). }
  split.
  - split; simpl.
    + apply Hs.
    + apply Hs.
    + apply Hown, Hok.
    + intros g Hg. destruct (eo_ctx e Hok g Hg). auto.
    + intros bus Hb. rewrite Hw by (apply Hok || lia). by apply (eo_root e Hok).
    + intros bus bus' Hb Hb'. rewrite !Hw by (apply Hok || lia). by apply (eo_inj e Hok).
  - split; [|done|apply (sls_root _ _ _ _ _ _ _ _ Hs)]. intros rid Hr.
    destruct (rid_range rid Hr). apply context_of_ext; [done..| |].
    + apply Hw; [apply Hok|lia].
    + intros g i Hg Hi. apply Hw; [|done]. by destruct (eo_ctx e Hok g Hg).
Qed.

(** ** Context entries *)

(** The requester a bus, device and function name. *)
Definition rid_of (bus device function : Z) : Z := 256 * bus + (8 * device + function).

Lemma devfn device function : 0 <= device -> 0 <= function < 8 ->
  Z.lor (Z.shiftl device 3) function = 8 * device + function.
Proof.
  intros Hd Hf. pose proof (Z.add_lor_land (Z.shiftl device 3) function) as Hadd.
  replace (Z.land (Z.shiftl device 3) function) with 0 in Hadd.
  - rewrite Z.shiftl_mul_pow2 in Hadd |- * by lia. lia.
  - symmetry. apply Z.bits_inj'. intros k Hk. rewrite Z.land_spec, Z.bits_0.
    destruct (Z.lt_ge_cases k 3).
    + by rewrite Z.shiftl_spec_low.
    + replace function with (function mod 2 ^ 3) by (by apply Z.mod_small).
      rewrite Z.mod_pow2_bits_high by lia. apply andb_false_r.
Qed.

(** Linking a fresh context table [p] below the absent root entry of [bus]. *)
Section Link.
Context (e : IommuEngine A) (bus p : Z) (a' : A).
Context (Hok : eng_ok e) (Hb : 0 <= bus < 256).
Context (Hab : re_is_present (read_word (en_mem e) (entry_address (en_root_table e) bus)) = false).
Context (Hok' : fok a') (Hav : avail (en_frames e) p) (Hp : frame_ok p).
Context (Ha' : forall g, avail a' g <-> avail (en_frames e) g /\ g <> p).

Definition linked : IommuEngine A :=
  mkEngine (<[entry_address (en_root_table e) bus := re_new p]> (zero_frame (en_mem e) p))
    a' (en_root_table e) (en_context_pages e ++ [p]) (en_page_table e) (en_iova e).

Lemma linked_word g i : frame_ok g -> ~ avail (en_frames e) g -> 0 <= i < 512 ->
  (g, i) <> (en_root_table e, bus) ->
  read_word (en_mem linked) (entry_address g i) = read_word (en_mem e) (entry_address g i).
Proof.
  intros Hg Hn Hi Hne. destruct (eo_rt e Hok) as (Hfr & _). simpl.
  rewrite insert_other; [|apply Hfr|apply Hg|lia|done|done].
  apply zero_frame_other; [apply Hp|apply Hg|done|]. by intros ->.
Qed.

Lemma linked_entry : read_word (en_mem linked) (entry_address (en_root_table e) bus) = re_new p.
Proof. simpl. by rewrite read_insert, Z.eqb_refl. Qed.

Lemma linked_root b : 0 <= b < 256 -> b <> bus ->
  read_word (en_mem linked) (entry_address (en_root_table e) b)
    = read_word (en_mem e) (entry_address (en_root_table e) b).
Proof. intros ? ?. destruct (eo_rt e Hok) as (? & ? & _). apply linked_word; [done|done|lia|congruence]. Qed.

Lemma linked_pages u i : u ∈ sl_pages (en_page_table e) -> 0 <= i < 512 ->
  read_word (en_mem linked) (entry_address u i) = read_word (en_mem e) (entry_address u i).
Proof.
  intros Hu Hi. destruct (sli_frames _ _ _ _ (eo_sl e Hok) u Hu) as [Hfu Hnu].
  apply linked_word; [done..|]. intros [= -> _]. by destruct (eo_rt e Hok) as (_ & _ & ?).
Qed.

Lemma linked_own g : own_frame e g -> own_frame linked g.
Proof. intros (? & ? & ?). split_and!; [done| |done]. simpl. rewrite Ha'. tauto. Qed.

Lemma linked_fresh : own_frame linked p /\ p <> en_root_table e /\ p ∉ en_context_pages e.
Proof.
  split; [|split].
  - split_and!; [done|simpl; rewrite Ha'; tauto|]. intros Hx.
    by apply (sli_frames _ _ _ _ (eo_sl e Hok)) in Hx as [_ ?].
  - intros E. destruct (eo_rt e Hok) as (_ & Hn & _). by rewrite E in Hav.
  - intros Hx. by destruct (eo_ctx e Hok p Hx) as [(_ & ? & _) _].
Qed.

Lemma linked_ok : eng_ok linked.
Proof.
  destruct (root_entry_new p Hp) as [Hpres Hphys], linked_fresh as (Hfo & Hfr & Hpc).
  split.
  - done.
  - eapply sl_inv_ext; [apply Hok| |exact linked_pages]. intros g Hg. by apply Ha'.
  - apply linked_own, Hok.
  - intros g Hg. simpl in Hg. apply elem_of_app in Hg as [Hg|Hg%list_elem_of_singleton].
    + destruct (eo_ctx e Hok g Hg). split; [by apply linked_own|done].
    + by rewrite Hg.
  - intros b Hb'. change (en_root_table linked) with (en_root_table e). cbv zeta.
    intros Hpb. apply elem_of_app. destruct (decide (b = bus)) as [->|Hne].
    + rewrite linked_entry, Hphys. right. by apply list_elem_of_singleton.
    + rewrite linked_root in Hpb |- * by done. left. by apply (eo_root e Hok).
  - intros b b' Hb1 Hb2. change (en_root_table linked) with (en_root_table e). cbv zeta.
    destruct (decide (b = bus)) as [->|H1], (decide (b' = bus)) as [->|H2]; try done;
      rewrite ?linked_entry, ?Hphys, ?linked_root by done.
    + intros _ Hb' E. destruct Hpc. rewrite E. by apply (eo_root e Hok).
    + intros Hb' _ E. destruct Hpc. rewrite <- E. by apply (eo_root e Hok).
    + by apply (eo_inj e Hok).
Qed.

Lemma linked_same : same_devices e linked.
Proof.
  destruct (root_entry_new p Hp) as [Hpres Hphys], linked_fresh as (_ & Hfr & _).
  split; [|done|done]. intros rid Hr. destruct (rid_range rid Hr) as [Hb' Hd'].
  destruct (decide (rid / 256 = bus)) as [Eb|Hne].
  - unfold context_of. rewrite Eb, Hab. change (en_root_table linked) with (en_root_table e).
    rewrite linked_entry, Hpres, Hphys. unfold read_context.
    destruct (context_words p (rid mod 256)) as [-> ->]. simpl.
    pose proof (eo_rt e Hok) as ([_ ?] & _). destruct Hp.
    by rewrite !insert_other, !zero_frame_same by (done || lia || (intros [= ? _]; done)).
  - apply context_of_ext; [done..|by apply linked_root|]. intros g i Hg Hi.
    destruct (eo_ctx e Hok g Hg) as [(? & ? & _) ?]. apply linked_word; [done..|congruence].
Qed.

Lemma linked_translate x : engine_translate linked x = engine_translate e x.
Proof.
  unfold engine_translate, sl_translate. f_equal.
  eapply sl_walk_ext; [apply Hok|apply sl_indices_path|exact linked_pages].
Qed.
End Link.

(** The device's entry: where it is, and that looking it up changes no context and no
    translation. *)
Lemma get_context_entry_spec e bus device function : eng_ok e ->
  0 <= bus < 256 -> 0 <= device < 32 -> 0 <= function < 8 ->
  match get_context_entry e bus device function with
  | (r, e') => eng_ok e' /\ same_devices e e'
      /\ (forall x, engine_translate e' x = engine_translate e x)
      /\ match r with
         | Ok ea =>
             let re := read_word (en_mem e') (entry_address (en_root_table e') bus) in
             re_is_present re = true
             /\ ea = context_table_phys re + 16 * (8 * device + function)
         | Err _ => forall g, ~ avail (en_frames e') g
         | Panic => False
         end
  end.
Proof.
  intros Hok Hb Hd Hf. unfold get_context_entry. rewrite devfn by lia.
  destruct (re_is_present _) eqn:Ep; [by split_and!|].
  pose proof (new_table_spec fok avail (en_mem e) (en_frames e) (eo_fok e Hok)) as Hn.
  destruct (new_table _ _) as [[[p|x|] m1] a1]; [|destruct Hn as (-> & -> & Hno)|done].
  2: { destruct e. by split_and!. }
  destruct Hn as (-> & Hok' & Hav & Hp & Ha'). fold (linked e bus p a1).
  split; [by apply linked_ok|]. split; [by apply linked_same|].
  split; [by intros; apply linked_translate|]. change (en_root_table (linked _ _ _ _)) with (en_root_table e).
  cbv zeta. rewrite linked_entry. by destruct (root_entry_new p Hp) as [-> ->].
Qed.

(** Setting the entry of requester [rid] sets its context and no other. *)
Lemma set_context_spec e rid c : eng_ok e -> 0 <= rid < 2 ^ 16 ->
  let re := read_word (en_mem e) (entry_address (en_root_table e) (rid / 256)) in
  re_is_present re = true ->
  let e' := set_context e (context_table_phys re + 16 * (rid mod 256)) c in
  eng_ok e' /\ context_of e' rid = c
  /\ (forall r, 0 <= r < 2 ^ 16 -> r <> rid -> context_of e' r = context_of e r)
  /\ forall x, engine_translate e' x = engine_translate e x.
Proof.
  intros Hok Hr re Hpres e'. destruct (rid_range rid Hr) as [Hb Hd].
  pose proof (eo_root e Hok _ Hb Hpres) as Hin. fold re in Hin.
  destruct (eo_ctx e Hok _ Hin) as [(Hfc & Hnc & Hpc) Hnr].
  set (ct := context_table_phys re) in *. destruct (context_words ct (rid mod 256)) as [E1 E2].
  assert (forall g i, frame_ok g -> 0 <= i < 512 -> (g, i / 2) <> (ct, rid mod 256) ->
    read_word (en_mem e') (entry_address g i) = read_word (en_mem e) (entry_address g i)) as Hw.
  { intros g i Hg Hi Hne. simpl. rewrite E2, E1. destruct Hfc, Hg.
    rewrite !insert_other; try done; try lia; intros [= -> ->]; apply Hne;
      by rewrite ?half_even, ?half_odd. }
  assert (forall b, 0 <= b < 256 -> read_word (en_mem e') (entry_address (en_root_table e) b)
    = read_word (en_mem e) (entry_address (en_root_table e) b)) as Hrt
    by (intros b ?; apply Hw; [apply (eo_rt e Hok)|lia|intros [= E _]; by apply Hnr]).
  assert (forall u i, u ∈ sl_pages (en_page_table e) -> 0 <= i < 512 ->
    read_word (en_mem e') (entry_address u i) = read_word (en_mem e) (entry_address u i)) as Hsl.
  { intros u i Hu Hi. apply Hw; [by apply (sli_frames _ _ _ _ (eo_sl e Hok))|done|].
    intros [= E _]. by rewrite E in Hu. }
  split; [|split; [|split]].
  - split; try apply Hok.
    + eapply sl_inv_ext; [apply Hok|done|exact Hsl].
    + intros b Hb'. change (en_root_table e') with (en_root_table e). rewrite Hrt by done. by apply Hok.
    + intros b b' H1 H2. change (en_root_table e') with (en_root_table e). rewrite !Hrt by done.
      by apply Hok.
  - unfold context_of. change (en_root_table e') with (en_root_table e). rewrite Hrt by done. fold re.
    rewrite Hpres. unfold read_context. fold ct. simpl.
    rewrite !read_insert, !Z.eqb_refl. rewrite (proj2 (Z.eqb_neq _ _)) by lia. by destruct c.
  - intros r Hrr Hne. destruct (rid_range r Hrr) as [Hb' Hd']. unfold context_of.
    change (en_root_table e') with (en_root_table e). rewrite Hrt by done.
    destruct (re_is_present (read_word (en_mem e) _)) eqn:Ep; [|done].
    pose proof (eo_root e Hok _ Hb' Ep) as Hin'. pose proof (eo_inj e Hok _ _ Hb' Hb Ep Hpres) as Hij.
    set (ct' := context_table_phys _) in Hin', Hij |- *. fold re in Hij. fold ct in Hij.
    assert ((ct', r mod 256) <> (ct, rid mod 256)) as Hd2.
    { intros [= Ec Er]. apply Hne. specialize (Hij Ec).
      rewrite (Z.div_mod r 256), (Z.div_mod rid 256) by lia. congruence. }
    unfold read_context. destruct (context_words ct' (r mod 256)) as [-> ->].
    destruct (eo_ctx e Hok _ Hin') as [(? & _) _].
    rewrite !Hw; [done|done|lia| |done|lia|]; by rewrite ?half_even, ?half_odd.
  - intros x. unfold engine_translate, sl_translate. f_equal.
    eapply sl_walk_ext; [apply Hok|apply sl_indices_path|exact Hsl].
Qed.

(** ** Mapping and unmapping *)

Lemma page_eqb a i x : a mod 4096 = 0 ->
  (x / 4096 =? (a + i * 4096) / 4096) = in_pages a i (i + 1) x.
Proof.
  intros Ha. unfold in_pages. rewrite Z.div_add by lia.
  pose proof (Z.div_mod a 4096 ltac:(lia)). pose proof (Z.div_mod x 4096 ltac:(lia)).
  pose proof (Z.mod_pos_bound x 4096 ltac:(lia)).
  apply eq_true_iff_eq. rewrite andb_true_iff, Z.eqb_eq, Z.leb_le, Z.ltb_lt. lia.
Qed.

Lemma in_pages_cons a i j x : i < j -> in_pages a i j x = in_pages a i (i + 1) x || in_pages a (i + 1) j x.
Proof.
  intros Hij. unfold in_pages. apply eq_true_iff_eq.
  rewrite orb_true_iff, !andb_true_iff, !Z.leb_le, !Z.ltb_lt. lia.
Qed.

Lemma in_pages_empty a i x : in_pages a i i x = false.
Proof. unfold in_pages. apply andb_false_iff. rewrite Z.leb_gt, Z.ltb_ge. lia. Qed.

(** A page's offset in the whole range. *)
Lemma page_offset a i x phys : a mod 4096 = 0 -> in_pages a i (i + 1) x = true ->
  phys + i * 4096 + x mod 4096 = phys + (x - a).
Proof.
  intros Ha Hx. rewrite <- page_eqb in Hx by done. apply Z.eqb_eq in Hx.
  rewrite Z.div_add in Hx by lia.
  pose proof (Z.div_mod a 4096 ltac:(lia)). pose proof (Z.div_mod x 4096 ltac:(lia)). lia.
Qed.

Lemma aligned_plus a i : a mod 4096 = 0 -> (a + i * 4096) mod 4096 = 0.
Proof. intros Ha. by rewrite Z_mod_plus_full. Qed.

Lemma frame_plus phys i : frame_ok phys -> 0 <= i -> phys + i * 4096 < 2 ^ 52 ->
  frame_ok (phys + i * 4096).
Proof. intros [? ?] ? ?. split; [lia|by apply aligned_plus]. Qed.

(** Where a map or unmap loop has got to: pages [i .. j) of [iova] translate as [f]. *)
Definition pages_set (e e' : IommuEngine A) (iova i j : Z) (f : Z -> option Z) : Prop :=
  forall x, 0 <= x < 2 ^ 39 ->
    engine_translate e' x = if in_pages iova i j x then f x else engine_translate e x.

Lemma pages_set_refl e iova i f : pages_set e e iova i i f.
Proof. intros x Hx. by rewrite in_pages_empty. Qed.

Lemma pages_set_step e e1 e2 iova i j f : i < j ->
  pages_set e e1 iova i (i + 1) f -> pages_set e1 e2 iova (i + 1) j f -> pages_set e e2 iova i j f.
Proof.
  intros Hij S1 S2 x Hx. rewrite (S2 x Hx), (S1 x Hx), (in_pages_cons iova i j) by done.
  by destruct (in_pages iova i (i + 1) x), (in_pages iova (i + 1) j x).
Qed.

(** One page of the loop of [dma_map]. *)
Lemma map_one e iova phys i : eng_ok e -> iova mod 4096 = 0 -> 0 <= iova -> 0 <= i ->
  iova + i * 4096 < 2 ^ 39 -> frame_ok phys -> phys + i * 4096 < 2 ^ 52 ->
  match sl_map_page (en_page_table e) (en_mem e) (en_frames e) (iova + i * 4096) (phys + i * 4096) with
  | (r, t, m, a) =>
      let e' := set_tables e t m a in
      eng_ok e' /\ same_devices e e'
      /\ match r with
         | Ok _ => pages_set e e' iova i (i + 1) (fun x => Some (phys + (x - iova)))
         | Err _ => pages_set e e' iova i i (fun x => Some (phys + (x - iova)))
             /\ forall g, ~ avail (en_frames e') g
         | Panic => False
         end
  end.
Proof.
  intros Hok Ha H0 Hi Hl Hf Hp.
  pose proof (sl_map_page_spec fok avail (en_page_table e) (en_mem e) (en_frames e)
    (iova + i * 4096) (phys + i * 4096) (eo_fok e Hok) (eo_sl e Hok) ltac:(lia)
    (aligned_plus _ _ Ha) (frame_plus _ _ Hf Hi Hp)) as Hs.
  destruct (sl_map_page _ _ _ _ _) as [[[r t] m] a]. destruct Hs as [Hstep Hr]. cbv zeta.
  pose proof (sls_root _ _ _ _ _ _ _ _ Hstep) as Ert.
  destruct (eng_sl_step e t m a Hok Hstep) as [Hok' Hsd]. split; [done|]. split; [done|].
  unfold pages_set, engine_translate. simpl. rewrite Ert.
  destruct r as [|[]|]; [|split; [|apply Hr]|done].
  - intros x Hx. rewrite Hr, page_eqb by done.
    destruct (in_pages iova i (i + 1) x) eqn:Ex; [|done]. f_equal. by apply page_offset.
  - intros x Hx. rewrite in_pages_empty. apply Hr.
Qed.

Lemma map_loop_spec n : forall i e iova phys, eng_ok e -> iova mod 4096 = 0 -> 0 <= iova -> 0 <= i ->
  iova + (i + Z.of_nat n) * 4096 <= 2 ^ 39 -> frame_ok phys ->
  phys + (i + Z.of_nat n) * 4096 <= 2 ^ 52 ->
  match map_loop n i e iova phys with
  | (r, e') => eng_ok e' /\ same_devices e e'
      /\ match r with
         | Ok _ => pages_set e e' iova i (i + Z.of_nat n) (fun x => Some (phys + (x - iova)))
         | Err k => i <= k < i + Z.of_nat n
             /\ pages_set e e' iova i k (fun x => Some (phys + (x - iova)))
             /\ forall g, ~ avail (en_frames e') g
         | Panic => False
         end
  end.
Proof.
  induction n as [|n IH]; intros i e iova phys Hok Ha H0 Hi Hl Hf Hp; cbn [map_loop].
  - split; [done|]. split; [apply same_devices_refl|]. rewrite Z.add_0_r. apply pages_set_refl.
  - rewrite (proj2 (Z.ltb_ge u64_max (iova + i * 4096))),
      (proj2 (Z.ltb_ge u64_max (phys + i * 4096))) by (unfold u64_max; lia). cbn [orb].
    pose proof (map_one e iova phys i Hok Ha H0 Hi ltac:(lia) Hf ltac:(lia)) as Hone.
    destruct (sl_map_page _ _ _ _ _) as [[[[u|x|] t] m] a]; destruct Hone as (Hok1 & Hs1 & Hr);
      [|split; [done|split; [done|split; [lia|done]]]|done].
    pose proof (IH (i + 1) (set_tables e t m a) iova phys Hok1 Ha H0 ltac:(lia) ltac:(lia) Hf
      ltac:(lia)) as Hrest.
    destruct (map_loop n (i + 1) _ iova phys) as [[v|k|] e']; destruct Hrest as (Hok2 & Hs2 & Hr2).
    + split; [done|]. split; [by eapply same_devices_trans|].
      eapply pages_set_step; [lia|exact Hr|]. by replace (i + Z.of_nat (S n)) with (i + 1 + Z.of_nat n) by lia.
    + destruct Hr2 as (Hk & Hr2 & Hno). split; [done|]. split; [by eapply same_devices_trans|].
      split; [lia|]. split; [|done]. by eapply pages_set_step; [lia|..].
    + done.
Qed.

Lemma dma_unmap_loop_spec n : forall i e iova, eng_ok e -> iova mod 4096 = 0 -> 0 <= iova -> 0 <= i ->
  iova + (i + Z.of_nat n) * 4096 <= 2 ^ 39 ->
  exists e', unmap_loop n i e iova = Ok e' /\ eng_ok e' /\ same_devices e e'
    /\ pages_set e e' iova i (i + Z.of_nat n) (fun _ => None).
Proof.
  induction n as [|n IH]; intros i e iova Hok Ha H0 Hi Hl; cbn [unmap_loop].
  - exists e. rewrite Z.add_0_r. split; [done|]. split; [done|].
    split; [apply same_devices_refl|apply pages_set_refl].
  - rewrite (proj2 (Z.ltb_ge u64_max _)) by (unfold u64_max; lia).
    destruct (sl_unmap_page_spec fok avail (en_page_table e) (en_mem e) (en_frames e)
      (iova + i * 4096) (eo_fok e Hok) (eo_sl e Hok) ltac:(lia) (aligned_plus _ _ Ha)) as [Hstep Htr].
    destruct (eng_sl_step e _ _ _ Hok Hstep) as [Hok1 Hs1].
    set (e1 := set_tables _ _ _ _) in *.
    destruct (IH (i + 1) e1 iova Hok1 Ha H0 ltac:(lia) ltac:(lia)) as (e' & -> & Hok2 & Hs2 & Hr2).
    exists e'. split; [done|]. split; [done|]. split; [by eapply same_devices_trans|].
    eapply pages_set_step; [lia| |replace (i + Z.of_nat (S n)) with (i + 1 + Z.of_nat n) by lia; exact Hr2].
    intros x Hx. rewrite <- page_eqb by done. by apply Htr.
Qed.

(** ** Live mappings *)

Definition mapping_ok (lim : Z) (mp : Mapping) : Prop :=
  0 < mp_size mp < 2 ^ 63 /\ 4096 <= mp_iova mp /\ mp_iova mp mod 4096 = 0
  /\ mp_iova mp + page_count (mp_size mp) * 4096 <= lim.

(** The engine with its live mappings: translation is what they say, they do not
    overlap, and the free device addresses are exactly the others below [lim]. *)
Record engine_inv (lim : Z) (e : IommuEngine A) (live : list Mapping) : Prop := {
  en_ok : eng_ok e;
  en_iova_inv : iova_inv (en_iova e);
  en_live : Forall (mapping_ok lim) live;
  en_disjoint : live_disjoint live;
  en_translate x : 0 <= x < 2 ^ 39 -> engine_translate e x = live_at live x;
  en_free x : in_free (en_iova e) x <-> 4096 <= x < lim /\ live_at live x = None
}.

Lemma engine_inv_keep lim e e' live : engine_inv lim e live -> eng_ok e' ->
  en_iova e' = en_iova e -> (forall x, engine_translate e' x = engine_translate e x) ->
  engine_inv lim e' live.
Proof.
  intros [_ ? ? ? Htr Hfree] Hok Hi Ht. split; try done; rewrite ?Hi; [done| |done].
  intros. rewrite Ht; auto.
Qed.

Definition same_contexts (e e' : IommuEngine A) : Prop :=
  forall rid, 0 <= rid < 2 ^ 16 -> context_of e' rid = context_of e rid.

Lemma eng_ok_iova e ivs : eng_ok e -> eng_ok (set_iova e ivs).
Proof. intros [? ? ? ? ? ?]. by split. Qed.

Lemma page_count_pos size : 0 < size -> 1 <= page_count size.
Proof. intros Hs. apply Z.div_le_lower_bound; lia. Qed.

Lemma in_pages_range a n x : in_pages a 0 n x = true <-> a <= x < a + n * 4096.
Proof. unfold in_pages. rewrite andb_true_iff, Z.leb_le, Z.ltb_lt. lia. Qed.

Lemma live_remove l1 mp l2 : live_disjoint (l1 ++ mp :: l2) ->
  live_disjoint (l1 ++ l2)
  /\ forall x, live_at (l1 ++ l2) x = if mp_covers mp x then None else live_at (l1 ++ mp :: l2) x.
Proof.
  induction l1 as [|b l1 IH]; simpl.
  - intros [Hd Hr]. split; [done|]. intros x. destruct (mp_covers mp x) eqn:E; [by apply Hd|done].
  - intros [Hd Hr]. destruct (IH Hr) as [Hr' Hx]. split.
    + split; [|done]. intros x Hb. rewrite Hx. destruct (mp_covers mp x); [done|by apply Hd].
    + intros x. rewrite Hx. destruct (mp_covers b x) eqn:Eb; [|done].
      destruct (mp_covers mp x) eqn:E; [|done]. exfalso. specialize (Hd x Eb).
      assert (forall l, live_at (l ++ mp :: l2) x <> None) as Hsome.
      { intros l. induction l as [|c l IHl]; simpl; [by rewrite E|by destruct (mp_covers c x)]. }
      by apply (Hsome l1).
Qed.

Lemma unmap_loop_frames n : forall i (e : IommuEngine A) iova e', unmap_loop n i e iova = Ok e' ->
  en_frames e' = en_frames e.
Proof.
  induction n as [|n IH]; intros i e iova e'; cbn [unmap_loop]; [by intros [= ->]|].
  destruct (u64_max <? _); [done|]. intros E. by apply IH in E.
Qed.

(** Releasing a range: its first [k] pages translate no more, its addresses are free. *)
Lemma release_spec e iova k size : eng_ok e -> iova_inv (en_iova e) -> 0 < size < 2 ^ 63 ->
  0 <= iova -> iova mod 4096 = 0 -> iova + page_count size * 4096 <= 2 ^ 39 ->
  0 <= k <= page_count size ->
  exists e', release e iova (Z.to_nat k) size = Ok e' /\ eng_ok e' /\ iova_inv (en_iova e')
    /\ same_contexts e e' /\ pages_set e e' iova 0 k (fun _ => None)
    /\ en_frames e' = en_frames e
    /\ forall x, in_free (en_iova e') x <->
         in_free (en_iova e) x \/ in_pages iova 0 (page_count size) x = true.
Proof.
  intros Hok Hiv Hs H0 Ha Hl Hk. unfold release.
  destruct (dma_unmap_loop_spec (Z.to_nat k) 0 e iova) as (e1 & E1 & Hok1 & Hs1 & Hp1); [done..|lia|lia|].
  rewrite E1. simpl. rewrite (sd_iova _ _ Hs1).
  destruct (iova_free_spec (en_iova e) iova size (4096 * page_count size)) as (ivs & -> & Hiv' & Hx);
    [done..|lia|].
  simpl. exists (set_iova e1 ivs). split; [done|]. split; [by apply eng_ok_iova|]. split; [done|].
  split; [exact (sd_context _ _ Hs1)|]. split; [by rewrite Z.add_0_l, Z2Nat.id in Hp1 by lia|].
  split; [by apply unmap_loop_frames in E1|].
  intros x. simpl. rewrite Hx, in_pages_range. intuition lia.
Qed.

(** No frame is left, or no run of [size] bytes of unmapped device addresses. *)
Definition dma_exhausted (lim : Z) (e : IommuEngine A) (live : list Mapping) (size : Z) : Prop :=
  (forall g, ~ avail (en_frames e) g)
  \/ (forall a, ~ forall x, a <= x < a + page_count size * 4096 ->
       4096 <= x < lim /\ live_at live x = None).

(** The allocated range: below the limit, and not mapped. *)
Lemma run_bounds lim e live a n : lim <= 2 ^ 39 -> engine_inv lim e live -> 1 <= n ->
  free_run (en_iova e) a (4096 * n) ->
  4096 <= a /\ a + n * 4096 <= lim
  /\ forall x, in_pages a 0 n x = true -> 4096 <= x < lim /\ live_at live x = None.
Proof.
  intros Hlim Hinv Hn Hrun.
  assert (forall x, a <= x < a + n * 4096 -> 4096 <= x < lim /\ live_at live x = None) as Hr
    by (intros x Hx; apply (en_free _ _ _ Hinv), Hrun; lia).
  destruct (Hr a ltac:(lia)), (Hr (a + n * 4096 - 1) ltac:(lia)).
  split_and!; [lia..|]. intros x Hx. by apply Hr, in_pages_range.
Qed.

(** Once every page is mapped, the new mapping is live. *)
Lemma mapped_inv lim e e' live a phys size ivs : lim <= 2 ^ 39 -> engine_inv lim e live ->
  0 < size < 2 ^ 63 -> a mod 4096 = 0 -> free_run (en_iova e) a (4096 * page_count size) ->
  eng_ok e' -> iova_inv ivs -> en_iova e' = ivs ->
  (forall x, in_free ivs x <-> in_free (en_iova e) x /\ ~ a <= x < a + 4096 * page_count size) ->
  pages_set e e' a 0 (page_count size) (fun x => Some (phys + (x - a))) ->
  engine_inv lim e' (mkMapping a phys size :: live).
Proof.
  intros Hlim Hinv Hs Ha Hrun Hok Hiv Eiv Hx Hset.
  destruct (run_bounds lim e live a (page_count size)) as (Hl & Hu & Hr);
    [done|done|apply page_count_pos; lia|done|].
  split; simpl.
  - done.
  - by rewrite Eiv.
  - constructor; [|apply Hinv]. unfold mapping_ok. simpl. split_and!; (done || lia).
  - split; [|apply Hinv]. intros x Hc. by apply Hr.
  - intros x Hb. rewrite (Hset x Hb). unfold mp_covers. simpl.
    destruct (in_pages a 0 (page_count size) x); [done|by apply Hinv].
  - intros x. rewrite Eiv, Hx, (en_free _ _ _ Hinv). unfold mp_covers. simpl.
    destruct (in_pages a 0 (page_count size) x) eqn:E.
    + apply in_pages_range in E. split; [lia|]. by intros [_ ?].
    + assert (~ a <= x < a + page_count size * 4096) by (rewrite <- in_pages_range; congruence).
      rewrite (Z.mul_comm 4096). tauto.
Qed.

(** After the rollback, everything is as before the call. *)
Lemma rollback_inv lim e e1 e2 live a phys size ivs k : lim <= 2 ^ 39 -> engine_inv lim e live ->
  0 < size < 2 ^ 63 -> free_run (en_iova e) a (4096 * page_count size) ->
  (forall x, in_free ivs x <-> in_free (en_iova e) x /\ ~ a <= x < a + 4096 * page_count size) ->
  0 <= k < page_count size -> eng_ok e2 -> iova_inv (en_iova e2) ->
  pages_set e e1 a 0 k (fun x => Some (phys + (x - a))) -> pages_set e1 e2 a 0 k (fun _ => None) ->
  (forall x, in_free (en_iova e2) x <-> in_free ivs x \/ in_pages a 0 (page_count size) x = true) ->
  engine_inv lim e2 live.
Proof.
  intros Hlim Hinv Hs Hrun Hx Hk Hok Hiv Hset Hclr Hx2.
  destruct (run_bounds lim e live a (page_count size)) as (_ & _ & Hr);
    [done|done|apply page_count_pos; lia|done|].
  split; [done|done|apply Hinv|apply Hinv| |].
  - intros x Hb. rewrite (Hclr x Hb), (Hset x Hb). destruct (in_pages a 0 k x) eqn:E.
    + symmetry. apply Hr. rewrite in_pages_range in *. lia.
    + by apply Hinv.
  - intros x. rewrite Hx2, Hx, <- (en_free _ _ _ Hinv).
    destruct (in_pages a 0 (page_count size) x) eqn:E.
    + pose proof (proj2 (en_free _ _ _ Hinv x) (Hr x E)). tauto.
    + assert (~ a <= x < a + page_count size * 4096) by (rewrite <- in_pages_range; congruence).
      rewrite (Z.mul_comm 4096). intuition congruence.
Qed.

Lemma dma_map_pages_spec lim e live phys size : lim <= 2 ^ 39 -> engine_inv lim e live ->
  0 < size < 2 ^ 63 -> frame_ok phys -> phys + page_count size * 4096 <= 2 ^ 52 ->
  match dma_map_pages e phys size with
  | (Ok iova, e') => engine_inv lim e' (mkMapping iova phys size :: live) /\ same_contexts e e'
  | (Err _, e') => engine_inv lim e' live /\ same_contexts e e' /\ dma_exhausted lim e' live size
  | (Panic, _) => False
  end.
Proof.
  intros Hlim Hinv Hs Hf Hp. unfold dma_map_pages. fold (page_count size).
  pose proof (page_count_pos size ltac:(lia)) as Hpc.
  destruct (iova_alloc_spec (en_iova e) size (4096 * page_count size)) as
    [(a & ivs & -> & Hiv & Ha & Hrun & Hx & _)|[-> Hno]]; [apply Hinv|done..| |].
  - destruct (run_bounds lim e live a (page_count size)) as (Hl & Hu & Hr); [done..|].
    pose proof (map_loop_spec (Z.to_nat (page_count size)) 0 (set_iova e ivs) a phys
      (eng_ok_iova _ _ (en_ok _ _ _ Hinv)) Ha ltac:(lia) ltac:(lia) ltac:(lia) Hf ltac:(lia)) as Hm.
    rewrite Z.add_0_l, Z2Nat.id in Hm by lia.
    destruct (map_loop _ 0 (set_iova e ivs) a phys) as [[u|k|] e1];
      destruct Hm as (Hok1 & [Hc1 Hi1 _] & Hset); [| |done].
    + split; [|exact Hc1]. by eapply mapped_inv.
    + destruct Hset as (Hk & Hset & Hfr).
      destruct (release_spec e1 a k size) as (e2 & -> & Hok2 & Hiv2 & Hc2 & Hclr & Ef & Hx2);
        [done|by rewrite Hi1|done|lia|done|lia|lia|].
      rewrite Hi1 in Hx2. split; [by eapply rollback_inv|]. split.
      * intros rid Hrid. by rewrite Hc2, Hc1.
      * left. by rewrite Ef.
  - split; [destruct e; apply Hinv|]. split; [by intros ? ?|]. right. intros a Hall.
    apply (Hno a). intros x Hx. apply (en_free _ _ _ Hinv), Hall. lia.
Qed.

(** Releasing a live mapping leaves the others. *)
Lemma engine_dma_unmap_spec lim e l1 mp l2 : lim <= 2 ^ 39 -> engine_inv lim e (l1 ++ mp :: l2) ->
  exists e', engine_dma_unmap e (mp_iova mp) (mp_size mp) = Ok e'
    /\ engine_inv lim e' (l1 ++ l2) /\ same_contexts e e'.
Proof.
  intros Hlim Hinv. destruct (live_remove l1 mp l2 (en_disjoint _ _ _ Hinv)) as [Hd Hrm].
  pose proof (en_live _ _ _ Hinv) as Hlive.
  apply Forall_app in Hlive as [Hl1 Hl2]. inversion_clear Hl2 as [|? ? Hmp Hl2'].
  destruct Hmp as (Hs & H0 & Ha & Hl). pose proof (page_count_pos (mp_size mp) ltac:(lia)).
  unfold engine_dma_unmap. fold (page_count (mp_size mp)).
  rewrite (proj2 (Z.ltb_ge u64_max _)) by (unfold u64_max; lia).
  destruct (release_spec e (mp_iova mp) (page_count (mp_size mp)) (mp_size mp))
    as (e' & -> & Hok & Hiv & Hc & Hclr & _ & Hx); [apply Hinv|apply Hinv|done|lia|done|lia|lia|].
  exists e'. split; [done|]. split; [|done]. split.
  - done.
  - done.
  - by apply Forall_app.
  - done.
  - intros x Hb. rewrite (Hclr x Hb), Hrm. fold (mp_covers mp x).
    destruct (mp_covers mp x); [done|by apply Hinv].
  - intros x. rewrite Hx, (en_free _ _ _ Hinv), Hrm. fold (mp_covers mp x).
    destruct (mp_covers mp x) eqn:E; [|intuition congruence].
    unfold mp_covers in E. apply in_pages_range in E. intuition lia.
Qed.

(** The device's context after [dma_map]: the engine's page table, unless blocked. *)
Definition mapped_context (root : Z) (c : ContextEntry) : ContextEntry :=
  if is_blocked c then c else new_host root CTX_AW_3LEVEL.

Lemma device_fields d : 0 <= d < 2 ^ 16 ->
  Z.shiftr d 8 = d / 256 /\ 0 <= Z.land (Z.shiftr d 3) 0x1f < 32 /\ 0 <= Z.land d 7 < 8
  /\ 8 * Z.land (Z.shiftr d 3) 0x1f + Z.land d 7 = d mod 256.
Proof.
  intros Hd. change 0x1f with (Z.ones 5). change 7 with (Z.ones 3).
  rewrite !Z.land_ones, !Z.shiftr_div_pow2 by lia.
  change (2 ^ 8) with 256. change (2 ^ 5) with 32. change (2 ^ 3) with 8.
  split_and!; [done|apply Z.mod_pos_bound; lia..|].
  change 256 with (8 * 32). rewrite (Z.rem_mul_r d 8 32) by lia. lia.
Qed.

Lemma dma_set_context_spec lim e live d : engine_inv lim e live -> 0 <= d < 2 ^ 16 ->
  match dma_set_context e d with
  | (r, e') => engine_inv lim e' live
      /\ (forall rid, 0 <= rid < 2 ^ 16 -> rid <> d -> context_of e' rid = context_of e rid)
      /\ sl_root (en_page_table e') = sl_root (en_page_table e)
      /\ match r with
         | Ok _ => context_of e' d = mapped_context (sl_root (en_page_table e)) (context_of e d)
         | Err _ => context_of e' d = context_of e d /\ forall g, ~ avail (en_frames e') g
         | Panic => False
         end
  end.
Proof.
  intros Hinv Hd. unfold dma_set_context.
  destruct (device_fields d Hd) as (-> & Hdev & Hfn & Ed), (rid_range d Hd) as [Hb _].
  pose proof (get_context_entry_spec e (d / 256) _ _ (en_ok _ _ _ Hinv) Hb Hdev Hfn) as Hg.
  destruct (get_context_entry _ _ _ _) as [r e1]. destruct Hg as (Hok1 & [Hc1 Hi1 Hr1] & Ht1 & Hres).
  pose proof (engine_inv_keep lim e e1 live Hinv Hok1 Hi1 Ht1) as Hinv1.
  destruct r as [ea|[]|]; [|split; [done|split; [auto|split; [done|auto]]]|done].
  destruct Hres as [Hpres ->]. rewrite Ed.
  assert (context_of e1 d = read_context (en_mem e1) (context_table_phys (read_word (en_mem e1)
    (entry_address (en_root_table e1) (d / 256))) + 16 * (d mod 256))) as Ec
    by (unfold context_of; by rewrite Hpres).
  unfold mapped_context. rewrite <- Ec, <- (Hc1 d Hd).
  destruct (is_blocked (context_of e1 d)); [split; [done|split; [auto|done]]|].
  destruct (set_context_spec e1 d (new_host (sl_root (en_page_table e1)) CTX_AW_3LEVEL) Hok1 Hd Hpres)
    as (Hok2 & Hc2 & Ho2 & Ht2).
  split; [by eapply engine_inv_keep|]. split; [intros; rewrite Ho2 by done; auto|].
  split; [exact Hr1|]. by rewrite Hc2, Hr1.
Qed.

(** One [dma_map]: on success the mapping is live and the device's context set; on
    failure the live mappings are as before, and frames or device addresses ran out. *)
Lemma engine_dma_map_spec lim e live d phys size : lim <= 2 ^ 39 -> engine_inv lim e live ->
  0 <= d < 2 ^ 16 -> 0 < size < 2 ^ 63 -> frame_ok phys -> phys + page_count size * 4096 <= 2 ^ 52 ->
  match engine_dma_map e d phys size with
  | (r, e') =>
      (forall rid, 0 <= rid < 2 ^ 16 -> rid <> d -> context_of e' rid = context_of e rid)
      /\ match r with
         | Ok iova => engine_inv lim e' (mkMapping iova phys size :: live)
             /\ context_of e' d = mapped_context (sl_root (en_page_table e)) (context_of e d)
         | Err _ => engine_inv lim e' live /\ dma_exhausted lim e' live size
         | Panic => False
         end
  end.
Proof.
  intros Hlim Hinv Hd Hs Hf Hp. unfold engine_dma_map.
  pose proof (dma_set_context_spec lim e live d Hinv Hd) as Hc.
  destruct (dma_set_context e d) as [[[]|[]|] e1]; destruct Hc as (Hinv1 & Ho1 & Hr1 & Hres); [| |done].
  - pose proof (dma_map_pages_spec lim e1 live phys size Hlim Hinv1 Hs Hf Hp) as Hm.
    destruct (dma_map_pages e1 phys size) as [[iova|[]|] e2]; [| |done].
    + destruct Hm as [Hinv2 Hc2]. split; [|split; [done|]].
      * intros rid Hr Hne. rewrite Hc2; auto.
      * by rewrite Hc2.
    + destruct Hm as (Hinv2 & Hc2 & Hex). split; [|done]. intros rid Hr Hne. rewrite Hc2; auto.
  - split; [done|]. split; [done|]. left. apply Hres.
Qed.

(** ** Start-up *)

Definition device_ok (d : Z * Z * Z) : Prop :=
  0 <= d.1.1 < 256 /\ 0 <= d.1.2 < 32 /\ 0 <= d.2 < 8.
Definition device_rid (d : Z * Z * Z) : Z := rid_of d.1.1 d.1.2 d.2.

Lemma rid_fields d : device_ok d -> 0 <= device_rid d < 2 ^ 16
  /\ device_rid d / 256 = d.1.1 /\ device_rid d mod 256 = 8 * d.1.2 + d.2.
Proof.
  intros (? & ? & ?). unfold device_rid, rid_of. split; [lia|].
  split; symmetry; [apply (Z.div_unique_pos _ _ _ (8 * d.1.2 + d.2))|apply (Z.mod_unique_pos _ _ d.1.1)]; lia.
Qed.

(** After the set-up the scanned devices, and only they, have changed context. *)
Lemma setup_pass_through_spec lim devices : forall e live, engine_inv lim e live ->
  Forall device_ok devices ->
  match setup_pass_through e devices with
  | (r, e') => engine_inv lim e' live
      /\ match r with
         | Ok _ => forall rid, 0 <= rid < 2 ^ 16 -> context_of e' rid =
             if decide (rid ∈ device_rid <$> devices) then new_pass_through else context_of e rid
         | Err _ => forall g, ~ avail (en_frames e') g
         | Panic => False
         end
  end.
Proof.
  induction devices as [|[[b dv] fn] devices IH]; intros e live Hinv Hall; cbn [setup_pass_through].
  { split; [done|]. intros rid Hr. rewrite decide_False; [done|]. by apply not_elem_of_nil. }
  inversion_clear Hall as [|? ? Hd Hall']. destruct (rid_fields _ Hd) as (Hrr & Eb & Ed).
  destruct Hd as (Hb & Hdv & Hfn). simpl in Hb, Hdv, Hfn, Eb, Ed. set (d0 := device_rid (b, dv, fn)) in *.
  pose proof (get_context_entry_spec e b dv fn (en_ok _ _ _ Hinv) Hb Hdv Hfn) as Hg.
  destruct (get_context_entry e b dv fn) as [r e1]. destruct Hg as (Hok1 & [Hc1 Hi1 _] & Ht1 & Hres).
  pose proof (engine_inv_keep lim e e1 live Hinv Hok1 Hi1 Ht1) as Hinv1.
  destruct r as [ea|[]|]; [|done|done].
  destruct Hres as [Hpres ->].
  pose proof (set_context_spec e1 d0 new_pass_through Hok1 Hrr) as Hsc. rewrite Eb, Ed in Hsc.
  destruct (Hsc Hpres) as (Hok2 & Hc2 & Ho2 & Ht2). clear Hsc.
  set (e2 := set_context _ _ _) in *.
  pose proof (IH e2 live (engine_inv_keep lim e1 e2 live Hinv1 Hok2 eq_refl Ht2) Hall') as Hrest.
  destruct (setup_pass_through e2 devices) as [[[]|[]|] e3]; try done.
  destruct Hrest as [Hinv3 Hc3]. split; [done|]. intros rid Hr. rewrite (Hc3 rid Hr), fmap_cons. fold d0.
  destruct (decide (rid ∈ device_rid <$> devices)) as [Hin|Hn].
  - rewrite decide_True; [done|]. apply elem_of_cons. by right.
  - destruct (decide (rid = d0)) as [->|Hne].
    + rewrite decide_True; [done|]. apply elem_of_cons. by left.
    + rewrite decide_False, Ho2 by (done || by rewrite elem_of_cons; intros [?|?]). by apply Hc1.
Qed.

(** A table just zeroed reaches nothing. *)
Lemma sl_fresh_walk m root i p : 0 <= i < 512 -> sl_walk (zero_frame m root) root (i :: p) = None.
Proof. intros Hi. apply (sl_walk_stuck _ _ [i] p). simpl. by apply slot_zeroed. Qed.

Lemma sl_fresh_inv m root a : frame_ok root -> ~ avail a root ->
  sl_inv avail (mkSl root [root]) (zero_frame m root) a.
Proof.
  intros Hf Hn.
  assert (forall p u, sl_path 2 p -> sl_walk (zero_frame m root) root p = Some u -> p = [] /\ u = root) as Hw.
  { intros [|i p] u [_ Hp] E; [by injection E|]. inversion_clear Hp. by rewrite sl_fresh_walk in E. }
  split; simpl.
  - intros f ->%list_elem_of_singleton. done.
  - intros p u Hp E. apply Hw in E as [_ ->]; [|done]. by apply list_elem_of_singleton.
  - intros p q u Hp Hq E1 E2. apply Hw in E1 as [-> _], E2 as [-> _]; done.
Qed.

(** [IommuEngine::new] starts with no mapping and no context. *)
Lemma engine_new_spec m a bits : fok a -> 13 <= bits ->
  match engine_new m a bits with
  | Ok e => engine_inv (2 ^ Z.min 39 bits) e []
      /\ forall rid, 0 <= rid < 2 ^ 16 -> context_of e rid = mkCtx 0 0
  | Err _ => True
  | Panic => False
  end.
Proof.
  intros Hok Hb. unfold engine_new, sl_new.
  pose proof (new_table_spec fok avail m a Hok) as H1.
  destruct (new_table m a) as [[[rt|e|] m1] a1]; [|done|done].
  destruct H1 as (-> & Hok1 & Hav1 & Hf1 & Ha1).
  pose proof (new_table_spec fok avail (zero_frame m rt) a1 Hok1) as H2.
  destruct (new_table (zero_frame m rt) a1) as [[[p|e|] m2] a2]; [|done|done].
  destruct H2 as (-> & Hok2 & Hav2 & Hf2 & Ha2).
  assert (rt <> p) as Hne by (apply Ha1 in Hav2; intros ->; tauto).
  destruct (iova_new_inv bits Hb) as [Hiv Hfree].
  assert (forall b, 0 <= b < 256 ->
    read_word (zero_frame (zero_frame m rt) p) (entry_address rt b) = 0) as Hz.
  { intros b ?. rewrite zero_frame_other, zero_frame_same by (apply Hf1 || apply Hf2 || done || lia). done. }
  split.
  - split; simpl; try done.
    + split; simpl; try done.
      * apply sl_fresh_inv; [done|]. rewrite Ha2. tauto.
      * split_and!; [done|simpl; rewrite Ha2, Ha1; tauto|]. simpl. by intros ?%list_elem_of_singleton.
      * intros g Hg. by apply elem_of_nil in Hg.
      * intros b Hb'. by rewrite Hz.
      * intros b b' Hb1 Hb2. by rewrite Hz.
    + intros x Hx. unfold engine_translate, sl_translate, sl_indices.
      cbn [en_mem en_page_table sl_root].
      rewrite sl_fresh_walk; [done|apply low9_range].
    + intros x. rewrite Hfree. tauto.
  - intros rid Hr. destruct (rid_range rid Hr). unfold context_of.
    cbn [en_mem en_root_table]. by rewrite Hz.
Qed.

(** ** Runs *)

(** What the drivers ask for: a mapping, or the release of the [n]-th live one. *)
Inductive dma_op :=
  | DmaMap (device_id phys size : Z)
  | DmaUnmap (n : nat).

Definition dma_op_ok (o : dma_op) : Prop :=
  match o with
  | DmaMap d phys size =>
      0 <= d < 2 ^ 16 /\ 0 < size < 2 ^ 63 /\ frame_ok phys
      /\ phys + page_count size * 4096 <= 2 ^ 52
  | DmaUnmap _ => True
  end.

Definition dma_apply (st : IommuEngine A * list Mapping) (o : dma_op)
    : result unit (IommuEngine A * list Mapping) :=
  let '(e, live) := st in
  match o with
  | DmaMap d phys size =>
      match engine_dma_map e d phys size with
      | (Ok iova, e') => Ok (e', mkMapping iova phys size :: live)
      | (Err _, e') => Ok (e', live)
      | (Panic, _) => Panic
      end
  | DmaUnmap n =>
      match live !! n with
      | Some mp => let? e' := engine_dma_unmap e (mp_iova mp) (mp_size mp) in Ok (e', delete n live)
      | None => Ok st
      end
  end.

Fixpoint dma_run (st : IommuEngine A * list Mapping) (ops : list dma_op)
    : result unit (IommuEngine A * list Mapping) :=
  match ops with
  | [] => Ok st
  | o :: rest => let? st' := dma_apply st o in dma_run st' rest
  end.

Lemma dma_run_inv lim ops : forall e live, lim <= 2 ^ 39 -> engine_inv lim e live ->
  Forall dma_op_ok ops ->
  exists e' live', dma_run (e, live) ops = Ok (e', live') /\ engine_inv lim e' live'.
Proof.
  induction ops as [|o ops IH]; intros e live Hlim Hinv Hops; [by exists e, live|].
  inversion_clear Hops as [|? ? Ho Hops']. cbn [dma_run].
  enough (exists e1 live1, dma_apply (e, live) o = Ok (e1, live1) /\ engine_inv lim e1 live1)
    as (e1 & live1 & -> & Hinv1) by (by apply IH).
  destruct o as [d phys size|n]; simpl.
  - destruct Ho as (Hd & Hs & Hf & Hp).
    pose proof (engine_dma_map_spec lim e live d phys size Hlim Hinv Hd Hs Hf Hp) as Hm.
    destruct (engine_dma_map e d phys size) as [[iova|[]|] e']; destruct Hm as (_ & Hm); [| |done].
    + eexists _, _. split; [done|]. apply Hm.
    + eexists _, _. split; [done|]. apply Hm.
  - destruct (live !! n) as [mp|] eqn:E; [|by exists e, live].
    rewrite <- (take_drop_middle live n mp E) in Hinv.
    destruct (engine_dma_unmap_spec lim e _ mp _ Hlim Hinv) as (e' & -> & Hinv' & _).
    eexists _, _. split; [done|]. by rewrite delete_take_drop.
Qed.

(** Two live mappings share no address. *)
Lemma live_covered live i mp x : live !! i = Some mp -> mp_covers mp x = true -> live_at live x <> None.
Proof.
  revert i. induction live as [|b live IH]; intros [|i] Hi Hc; simpl in *; try done.
  - injection Hi as ->. by rewrite Hc.
  - destruct (mp_covers b x); [done|by apply (IH i)].
Qed.

Lemma live_disjoint_lookup live i j mp mp' x : live_disjoint live ->
  live !! i = Some mp -> live !! j = Some mp' ->
  mp_covers mp x = true -> mp_covers mp' x = true -> i = j.
Proof.
  revert i j. induction live as [|b live IH]; [done|].
  intros [|i] [|j] [Hd Hr] Hi Hj Hc Hc'; simpl in *; [done| | |f_equal; by apply IH].
  - injection Hi as ->. by destruct (live_covered live j mp' x Hj Hc' (Hd x Hc)).
  - injection Hj as ->. by destruct (live_covered live i mp x Hi Hc (Hd x Hc')).
Qed.
End Engine.

(** ** The engine's promises *)



(** At start-up exactly the scanned devices bypass translation, and nothing translates. *)
Lemma iommu_start_up {A} `{FrameAllocator A} (fok : A -> Prop) (avail : A -> Z -> Prop)
    `{!LawfulFrames fok avail} m a bits devices (e e1 : IommuEngine A) rid :
  fok a -> 13 <= bits -> Forall device_ok devices -> 0 <= rid < 2 ^ 16 ->
  engine_new m a bits = Ok e -> setup_pass_through e devices = (Ok tt, e1) ->
  is_pass_through (context_of e1 rid) = bool_decide (rid ∈ device_rid <$> devices)
  /\ forall x, 0 <= x < 2 ^ 39 -> engine_translate e1 x = None.
Proof.
  intros Hok Hb Hdev Hr Hn Hs.
  pose proof (engine_new_spec fok avail m a bits Hok Hb) as Hnew. rewrite Hn in Hnew.
  destruct Hnew as [Hinv Hc].
  pose proof (setup_pass_through_spec fok avail _ devices e [] Hinv Hdev) as Hset.
  rewrite Hs in Hset. destruct Hset as [Hinv1 Hc1]. split; [|apply Hinv1].
  rewrite Hc1 by done. case_decide; [by rewrite bool_decide_true|].
  by rewrite Hc, bool_decide_false by done.
Qed.

(** ** A small machine *)

Definition demo_base : IommuEngine BitmapFrameAllocator :=
  match engine_new ∅ demo_bitmap 39 with
  | Ok e => e
  | _ => mkEngine ∅ demo_bitmap 0 [] (mkSl 0 []) []
  end.
Definition demo_devices : list (Z * Z * Z) := [(0, 1, 0); (2, 0, 0)].
Definition demo_engine : IommuEngine BitmapFrameAllocator :=
  (setup_pass_through demo_base demo_devices).2.

Lemma ok_value {E B} (r : result E B) d :
  match r with Ok _ => true | _ => false end = true -> r = Ok (match r with Ok b => b | _ => d end).
Proof. by destruct r. Qed.

Lemma demo_base_new : engine_new ∅ demo_bitmap 39 = Ok demo_base.
Proof. apply ok_value. vm_compute. reflexivity. Qed.

Lemma demo_engine_setup : setup_pass_through demo_base demo_devices = (Ok tt, demo_engine).
Proof.
  assert ((setup_pass_through demo_base demo_devices).1 = Ok tt) as E by (vm_compute; reflexivity).
  unfold demo_engine. by rewrite <- E, <- surjective_pairing.
Qed.

Definition demo_ops : list dma_op :=
  [DmaMap 8 0x200000 5000; DmaMap 512 0x400000 4096; DmaUnmap 1; DmaMap 8 0x600000 100].

Lemma demo_devices_ok : Forall device_ok demo_devices.
Proof. unfold device_ok. repeat constructor; simpl; lia. Qed.

Lemma dma_demo_ops_ok : Forall dma_op_ok demo_ops.
Proof. repeat constructor; (done || lia). Qed.

(** The run: the second mapping's pages stay, the first one's are reused. *)
Example demo_run :
  match dma_run (demo_engine, []) demo_ops with
  | Ok (e', live) => live = [mkMapping 4096 0x600000 100; mkMapping 12288 0x400000 4096]
      /\ map (engine_translate e') [0; 4096; 4200; 8192; 12290; 16384]
         = [None; Some 0x600000; Some (0x600000 + 104); None; Some (0x400000 + 2); None]
  | _ => False
  end.
Proof. vm_compute. by split. Qed.


Lemma demo_engine_inv : engine_inv bm_inv bitmap_avail (2 ^ 39) demo_engine [].
Proof.
  pose proof (engine_new_spec bm_inv bitmap_avail ∅ demo_bitmap 39 demo_bitmap_inv ltac:(lia)) as Hn.
  rewrite demo_base_new in Hn. destruct Hn as [Hinv _].
  pose proof (setup_pass_through_spec bm_inv bitmap_avail _ demo_devices demo_base [] Hinv
    demo_devices_ok) as Hs.
  rewrite demo_engine_setup in Hs. apply Hs.
Qed.


(** ** Departures *)

(** A failed call is not without effect: [dma_map] sets the device's context before it
    looks for addresses, so a device that bypassed translation is left translated, with
    no mapping, when the call fails. *)
Example failed_map_switches_context :
  let '(r, e') := engine_dma_map demo_engine 8 0x200000 (2 ^ 39) in
  r = Err tt /\ is_pass_through (context_of demo_engine 8) = true
  /\ context_of e' 8 = new_host (sl_root (en_page_table e')) CTX_AW_3LEVEL
  /\ engine_translate e' 0x200000 = None.
Proof. vm_compute. split_and!; reflexivity. Qed.

(** A host width of 12 bits or less makes an interval that ends before it starts, and the
    first allocation panics on its length. *)
Lemma narrow_host_panics size : 0 < size < 2 ^ 63 -> iova_alloc (iova_new 12) size = Panic.
Proof.
  intros Hs. unfold iova_alloc. rewrite page_round_ok by lia. simpl.
  fold (page_count size). pose proof (page_count_pos size ltac:(lia)).
  by rewrite (proj2 (Z.eqb_neq _ 0)) by lia.
Qed.
