(* ===== verification/UserMemory.v ===== *)
(** * UserMemory: copies between user programs and the kernel

    [petroleum/src/common/memory.rs]: the page-table walk for permissions,
    [validate_user_range], [UserPtr] and [UserSlice];
    [fullerene-kernel/src/user_memory.rs]: the copies every system call uses.

    The page tables are the word memory of [PageTable]; the bytes of the address space
    are kept by virtual address, as the copies access them, for an address space that
    does not change during a copy (which the code asks of its callers).  Whether the
    kernel heap can grow to hold a copy is part of the state ([us_reserve]).

    A range validates exactly when each of its bytes lies in the lower half and its own
    walk grants the access ([user_range_validated]); what validates the processor
    grants too ([validated_hardware]); the page-wise copy of a string is the byte-wise
    one ([c_string_bytewise]); and a copy to user memory writes exactly its range. *)

From S2P Require Import Prelude PageTable Rings.

(** ** [petroleum::common::memory] *)

(** The values of [SystemError] the copies give. *)
Inductive SystemError : Type := InvalidArgument | PermissionDenied | MemOutOfMemory.

Definition is_user_address (addr : Z) : bool := addr <? 0x0000800000000000.

(** [flags.contains(f)] for a one-bit flag. *)
Definition contains (flags f : Z) : bool := negb (Z.land flags f =? 0).

(** [walk_page_table_for_flags], from the table [root] of [CR3]. *)
Definition walk_page_table_for_flags (m : Mem) (root vaddr : Z) : option Z :=
  let p4e := read_word m (entry_address root (index vaddr 4)) in
  if negb (contains (pte_flags p4e) PRESENT) then None else
  let flags := pte_flags p4e in
  if contains flags HUGE_PAGE then Some flags else
  let p3e := read_word m (entry_address (pte_addr p4e) (index vaddr 3)) in
  if negb (contains (pte_flags p3e) PRESENT) then None else
  let flags := Z.land flags (pte_flags p3e) in
  if contains flags HUGE_PAGE then Some flags else
  let p2e := read_word m (entry_address (pte_addr p3e) (index vaddr 2)) in
  if negb (contains (pte_flags p2e) PRESENT) then None else
  let flags := Z.land flags (pte_flags p2e) in
  if contains flags HUGE_PAGE then Some flags else
  let p1e := read_word m (entry_address (pte_addr p2e) (index vaddr 1)) in
  if negb (contains (pte_flags p1e) PRESENT) then None else
  Some (Z.land flags (pte_flags p1e)).

(** The body of the loop of [validate_user_range], on one page. *)
Definition check_page (m : Mem) (root vaddr : Z) (writable : bool) : result SystemError unit :=
  match walk_page_table_for_flags m root vaddr with
  | None => Err InvalidArgument
  | Some flags =>
      if negb (contains flags PRESENT) then Err InvalidArgument
      else if negb (contains flags USER_ACCESSIBLE) then Err PermissionDenied
      else if writable && negb (contains flags WRITABLE) then Err PermissionDenied
      else Ok tt
  end.

Fixpoint validate_loop (m : Mem) (root : Z) (writable : bool) (page_start : Z) (n : nat) (i : Z)
    : result SystemError unit :=
  match n with
  | O => Ok tt
  | S n' =>
      let? _ := check_page m root (page_start + i * 4096) writable in
      validate_loop m root writable page_start n' (i + 1)
  end.

(** [validate_user_range]. *)
Definition validate_user_range (m : Mem) (root addr len : Z) (writable : bool)
    : result SystemError unit :=
  if len =? 0 then Ok tt else
  match u64_checked_add addr (len - 1) with
  | None => Err InvalidArgument
  | Some end_addr =>
      match canonical_new addr, canonical_new end_addr with
      | Some start, Some end_ =>
          if negb (is_user_address start) || negb (is_user_address end_) then Err PermissionDenied
          else
            let page_start := align_down start 4096 in
            let page_end := align_down end_ 4096 in
            let num_pages := (page_end - page_start) / 4096 + 1 in
            validate_loop m root writable page_start (Z.to_nat num_pages) 0
      | _, _ => Err InvalidArgument
      end
  end.

(** The address space of the current process. *)
Record UserSpace : Type := mkSpace {
  us_tables : Mem;
  us_root : Z;
  us_bytes : gmap Z Z;
  us_reserve : Z -> bool
}.
Definition with_bytes (s : UserSpace) (b : gmap Z Z) : UserSpace :=
  mkSpace (us_tables s) (us_root s) b (us_reserve s).

Definition user_byte (s : UserSpace) (a : Z) : Z := default 0 (us_bytes s !! a).
(** [copy_nonoverlapping] from and to user addresses. *)
Definition read_bytes (s : UserSpace) (ptr count : Z) : list Z :=
  (fun i => user_byte s (ptr + i)) <$> seqZ 0 count.
Fixpoint put_bytes (b : gmap Z Z) (ptr : Z) (data : list Z) : gmap Z Z :=
  match data with
  | [] => b
  | x :: rest => put_bytes (<[ptr := x]> b) (ptr + 1) rest
  end.

(** [UserSlice::new]; the slice is the pointer and the length. *)
Definition user_slice_new (s : UserSpace) (ptr len : Z) (writable : bool) : result SystemError unit :=
  if len =? 0 then Ok tt
  else if ptr =? 0 then Err InvalidArgument
  else validate_user_range (us_tables s) (us_root s) ptr len writable.

(** [UserPtr::new_mut] for a value of [len] bytes. *)
Definition user_ptr_new_mut (s : UserSpace) (ptr len : Z) : result SystemError unit :=
  if ptr =? 0 then Err InvalidArgument
  else validate_user_range (us_tables s) (us_root s) ptr len true.

(** ** [user_memory.rs] *)

Definition USER_PAGE_SIZE : Z := 4096.

Inductive UserCopyError : Type :=
  | System (e : SystemError)
  | InvalidUtf8
  | MissingNul.

(** [?] through [From<SystemError>]. *)
Definition lift_system {A} (r : result SystemError A) : result UserCopyError A :=
  match r with Ok a => Ok a | Err e => Err (System e) | Panic => Panic end.

Definition bytes_until_page_end (address : Z) : Z :=
  USER_PAGE_SIZE - Z.land address (USER_PAGE_SIZE - 1).

(** [String::from_utf8(bytes).map_err(..)]. *)
Definition string_from_utf8 (bytes : list Z) : result UserCopyError (list Z) :=
  match from_utf8 bytes with None => Ok bytes | Some _ => Err InvalidUtf8 end.

(** The loop of [copy_c_string]. *)
Fixpoint c_string_loop (fuel : nat) (s : UserSpace) (ptr max_len offset : Z) (bytes : list Z)
    : result UserCopyError (list Z) :=
  match fuel with
  | O => Err MissingNul
  | S fuel' =>
      if max_len <=? offset then Err MissingNul else
      let current := u64_wrapping_add ptr offset in
      let chunk_len := Z.min (max_len - offset) (bytes_until_page_end current) in
      if negb (us_reserve s (zlen bytes + chunk_len)) then Err (System MemOutOfMemory) else
      let? _ := lift_system (user_slice_new s current chunk_len false) in
      let chunk := read_bytes s current chunk_len in
      match position (fun b => b =? 0) chunk with
      | Some nul_idx => string_from_utf8 (bytes ++ take nul_idx chunk)
      | None => c_string_loop fuel' s ptr max_len (offset + chunk_len) (bytes ++ chunk)
      end
  end.

(** [copy_c_string]; every round advances, so [max_len] rounds are enough. *)
Definition copy_c_string (s : UserSpace) (ptr max_len : Z) : result UserCopyError (list Z) :=
  if (ptr =? 0) || (max_len =? 0) then Err (System InvalidArgument)
  else c_string_loop (S (Z.to_nat max_len)) s ptr max_len 0 [].

Definition copy_bytes_from_user (s : UserSpace) (ptr len : Z) : result UserCopyError (list Z) :=
  if negb (us_reserve s len) then Err (System MemOutOfMemory) else
  let? _ := lift_system (user_slice_new s ptr len false) in
  Ok (read_bytes s ptr len).

Definition copy_bytes_to_user (s : UserSpace) (ptr : Z) (bytes : list Z)
    : result UserCopyError unit * UserSpace :=
  match lift_system (user_slice_new s ptr (zlen bytes) true) with
  | Ok _ => (Ok tt, with_bytes s (put_bytes (us_bytes s) ptr bytes))
  | Err e => (Err e, s)
  | Panic => (Panic, s)
  end.

(** [copy_value_to_user], the value given by its bytes. *)
Definition copy_value_to_user (s : UserSpace) (ptr : Z) (value : list Z)
    : result UserCopyError unit * UserSpace :=
  match lift_system (user_ptr_new_mut s ptr (zlen value)) with
  | Ok _ => (Ok tt, with_bytes s (put_bytes (us_bytes s) ptr value))
  | Err e => (Err e, s)
  | Panic => (Panic, s)
  end.

(** ** Pages *)

Lemma check_page_same m root v v' w : v / 4096 = v' / 4096 ->
  check_page m root v w = check_page m root v' w.
Proof.
  intros E. unfold check_page, walk_page_table_for_flags.
  by rewrite (index_page v v' 4), (index_page v v' 3), (index_page v v' 2), (index_page v v' 1) by (done || lia).
Qed.

Lemma validate_loop_ok m root w ps n : forall i,
  validate_loop m root w ps n i = Ok tt <->
  forall k, i <= k < i + Z.of_nat n -> check_page m root (ps + k * 4096) w = Ok tt.
Proof.
  induction n as [|n IH]; intros i; cbn [validate_loop]; [split; [lia|done]|].
  destruct (check_page m root (ps + i * 4096) w) as [[]|e|] eqn:E; simpl.
  - rewrite IH. split; intros Hk k Hr; [|apply Hk; lia].
    destruct (Z.eq_dec k i) as [->|]; [done|apply Hk; lia].
  - split; [done|]. intros Hk. rewrite Hk in E by lia. done.
  - split; [done|]. intros Hk. rewrite Hk in E by lia. done.
Qed.

Lemma validate_loop_no_panic m root w ps n : forall i, validate_loop m root w ps n i <> Panic.
Proof.
  induction n as [|n IH]; intros i; cbn [validate_loop]; [done|]. unfold check_page.
  destruct (walk_page_table_for_flags _ _ _); [|done].
  do 2 (destruct (negb _); [done|]). destruct (w && _); [done|apply IH].
Qed.

Lemma validate_no_panic m root addr len w : validate_user_range m root addr len w <> Panic.
Proof.
  unfold validate_user_range. repeat case_match; try done. apply validate_loop_no_panic.
Qed.

Lemma range_validated m root addr len w : 0 <= addr <= u64_max -> 0 <= len ->
  validate_user_range m root addr len w = Ok tt <->
  forall x, addr <= x < addr + len -> x < 2 ^ 47 /\ check_page m root x w = Ok tt.
Proof.
  intros Ha Hl. unfold validate_user_range. destruct (Z.eqb_spec len 0) as [->|Hn0]; [split; [lia|done]|].
  unfold u64_checked_add. destruct (Z.leb_spec (addr + (len - 1)) u64_max) as [Hle|Hgt].
  2: { split; [done|]. intros Hx. destruct (Hx (addr + (len - 1)) ltac:(lia)). unfold u64_max in *. lia. }
  rewrite !canonical_iff by lia. set (last := addr + (len - 1)) in *.
  assert (is_user_address addr = (addr <? 2 ^ 47) /\ is_user_address last = (last <? 2 ^ 47)) as [Eu1 Eu2] by done.
  destruct (Z.ltb_spec last (2 ^ 47)) as [Hlast|Hlast].
  2: { split; [|intros Hx; destruct (Hx last ltac:(lia)); lia].
       destruct (_ || _); [|done]. simpl. destruct (_ <=? _); [|done]. rewrite Eu2, orb_comm. done. }
  rewrite (proj2 (Z.ltb_lt addr (2 ^ 47))) by lia. cbn [orb]. rewrite Eu1, Eu2.
  rewrite (proj2 (Z.ltb_lt addr (2 ^ 47))) by lia. cbn [negb orb].
  rewrite validate_loop_ok, !align_page by (unfold u64_max in *; lia).
  assert (addr / 4096 <= last / 4096) by (apply Z.div_le_mono; lia).
  replace (4096 * (last / 4096) - 4096 * (addr / 4096)) with ((last / 4096 - addr / 4096) * 4096) by lia.
  rewrite Z.div_mul, Z2Nat.id by lia.
  pose proof (Z.div_mod addr 4096 ltac:(lia)). pose proof (Z.mod_pos_bound addr 4096 ltac:(lia)).
  pose proof (Z.div_mod last 4096 ltac:(lia)). pose proof (Z.mod_pos_bound last 4096 ltac:(lia)).
  assert (forall k, (4096 * (addr / 4096) + k * 4096) / 4096 = addr / 4096 + k) as Hq
    by (intros; rewrite Z.div_add, Z.mul_comm, Z.div_mul by lia; done).
  split.
  - intros Hk x Hx. split; [lia|].
    rewrite <- (Hk (x / 4096 - addr / 4096)).
    + apply check_page_same. rewrite Hq. lia.
    + assert (addr / 4096 <= x / 4096 <= last / 4096) by (split; apply Z.div_le_mono; lia). lia.
  - intros Hx k Hk. destruct (Hx (Z.max addr (4096 * (addr / 4096) + k * 4096))) as [_ <-]; [lia|].
    apply check_page_same. rewrite Hq. destruct (Z.max_spec addr (4096 * (addr / 4096) + k * 4096)) as [[_ ->]|[? ->]].
    + by rewrite Hq.
    + assert (k <= 0) by lia. assert (k = 0) as -> by lia. lia.
Qed.

(** ** What the processor grants *)

Lemma contains_bit x k : 0 <= k -> contains x (2 ^ k) = Z.testbit x k.
Proof.
  intros Hk. unfold contains. destruct (Z.testbit x k) eqn:E.
  - apply negb_true_iff, Z.eqb_neq. intros E0.
    assert (Z.testbit (Z.land x (2 ^ k)) k = true) as Hb by (by rewrite Z.land_spec, E, Z.pow2_bits_true).
    by rewrite E0, Z.bits_0 in Hb.
  - apply negb_false_iff, Z.eqb_eq. apply Z.bits_inj'. intros j Hj. rewrite Z.land_spec, Z.bits_0.
    destruct (Z.eq_dec j k) as [->|]; [by rewrite E|]. rewrite Z.pow2_bits_false by lia. apply andb_false_r.
Qed.

Lemma contains_land x y k : 0 <= k ->
  contains (Z.land x y) (2 ^ k) = contains x (2 ^ k) && contains y (2 ^ k).
Proof. intros Hk. by rewrite !contains_bit, Z.land_spec. Qed.

(** The flag bits the kernel tests survive [PageTableEntry::flags]. *)
Lemma contains_flags e k : Z.land (u64_not ADDR_MASK) (2 ^ k) = 2 ^ k ->
  contains (pte_flags e) (2 ^ k) = contains e (2 ^ k).
Proof. intros Hk. unfold contains, pte_flags. by rewrite <- Z.land_assoc, Hk. Qed.

(** One level of the processor's walk for a user access. *)
Definition grants (e : Z) (w : bool) : bool :=
  contains e PRESENT && contains e USER_ACCESSIBLE && (negb w || contains e WRITABLE).

(** The x86-64 walk: every level grants the access, and a level 3 or 2 entry with the
    page-size bit ends it; in a level 4 entry the bit is reserved. *)
Definition hardware_grants (m : Mem) (root v : Z) (w : bool) : bool :=
  let p4e := read_word m (entry_address root (index v 4)) in
  let p3e := read_word m (entry_address (pte_addr p4e) (index v 3)) in
  let p2e := read_word m (entry_address (pte_addr p3e) (index v 2)) in
  let p1e := read_word m (entry_address (pte_addr p2e) (index v 1)) in
  grants p4e w && negb (contains p4e HUGE_PAGE)
  && grants p3e w && (contains p3e HUGE_PAGE
     || grants p2e w && (contains p2e HUGE_PAGE || grants p1e w)).

(** The kernel's check: every level grants it, whatever the page-size bits below. *)
Definition all_levels_grant (m : Mem) (root v : Z) (w : bool) : bool :=
  let p4e := read_word m (entry_address root (index v 4)) in
  let p3e := read_word m (entry_address (pte_addr p4e) (index v 3)) in
  let p2e := read_word m (entry_address (pte_addr p3e) (index v 2)) in
  let p1e := read_word m (entry_address (pte_addr p2e) (index v 1)) in
  grants p4e w && grants p3e w && grants p2e w && grants p1e w.

Definition p4_not_huge (m : Mem) (root v : Z) : Prop :=
  contains (read_word m (entry_address root (index v 4))) HUGE_PAGE = false.

Lemma check_page_levels m root v w : p4_not_huge m root v ->
  check_page m root v w = Ok tt <-> all_levels_grant m root v w = true.
Proof.
  unfold p4_not_huge, check_page, walk_page_table_for_flags, all_levels_grant.
  set (p4e := read_word m (entry_address root (index v 4))).
  set (p3e := read_word m (entry_address (pte_addr p4e) (index v 3))).
  set (p2e := read_word m (entry_address (pte_addr p3e) (index v 2))).
  set (p1e := read_word m (entry_address (pte_addr p2e) (index v 1))).
  clearbody p4e p3e p2e p1e. intros Hh. unfold grants.
  change PRESENT with (2 ^ 0) in *. change WRITABLE with (2 ^ 1) in *.
  change USER_ACCESSIBLE with (2 ^ 2) in *. change HUGE_PAGE with (2 ^ 7) in *.
  rewrite !contains_land, !contains_flags, Hh by (lia || done). cbn [andb].
  destruct (contains p4e (2 ^ 0)) eqn:E4, (contains p3e (2 ^ 0)) eqn:E3,
    (contains p2e (2 ^ 0)) eqn:E2, (contains p1e (2 ^ 0)) eqn:E1; cbn [negb andb];
    rewrite ?andb_false_r; try done.
  rewrite !contains_land, !contains_flags, E4, E3, E2, E1 by (lia || done). cbn [negb andb].
  destruct (contains p4e (2 ^ 2)), (contains p3e (2 ^ 2)), (contains p2e (2 ^ 2)),
    (contains p1e (2 ^ 2)), w, (contains p4e (2 ^ 1)), (contains p3e (2 ^ 1)),
    (contains p2e (2 ^ 1)), (contains p1e (2 ^ 1)); done.
Qed.

(** What the kernel admits the processor grants, and they agree where no level of the
    walk maps a large page. *)
Lemma levels_hardware m root v w : p4_not_huge m root v ->
  all_levels_grant m root v w = true -> hardware_grants m root v w = true.
Proof.
  unfold p4_not_huge, all_levels_grant, hardware_grants. intros -> Ha.
  apply andb_true_iff in Ha as [[[H4 H3]%andb_true_iff H2]%andb_true_iff H1].
  by rewrite H4, H3, H2, H1, !orb_true_r.
Qed.

(** ** Strings *)

(** The reference: one byte at a time, each with its own check. *)
Fixpoint c_string_ref (s : UserSpace) (ptr : Z) (n : nat) (acc : list Z)
    : result UserCopyError (list Z) :=
  match n with
  | O => Err MissingNul
  | S n' =>
      let? _ := lift_system (validate_user_range (us_tables s) (us_root s) ptr 1 false) in
      if user_byte s ptr =? 0 then string_from_utf8 acc
      else c_string_ref s (ptr + 1) n' (acc ++ [user_byte s ptr])
  end.

(** A range within one page has the page's answer. *)
Lemma validate_one_page m root cur len w : 0 <= cur <= u64_max -> 1 <= len ->
  cur / 4096 = (cur + (len - 1)) / 4096 ->
  validate_user_range m root cur len w =
    if cur <? 2 ^ 47 then check_page m root cur w
    else if 2 ^ 64 - 2 ^ 47 <=? cur then Err PermissionDenied else Err InvalidArgument.
Proof.
  intros Hc Hl Hp. unfold validate_user_range. rewrite (proj2 (Z.eqb_neq len 0)) by lia.
  set (last := cur + (len - 1)) in *.
  pose proof (Z.div_mod cur 4096 ltac:(lia)). pose proof (Z.mod_pos_bound cur 4096 ltac:(lia)).
  pose proof (Z.div_mod last 4096 ltac:(lia)). pose proof (Z.mod_pos_bound last 4096 ltac:(lia)).
  assert (last <= u64_max) by (unfold u64_max in *; lia).
  unfold u64_checked_add. fold last. rewrite (proj2 (Z.leb_le last u64_max)) by done.
  rewrite !canonical_iff by lia.
  replace (last <? 2 ^ 47) with (cur <? 2 ^ 47)
    by (apply eq_true_iff_eq; rewrite !Z.ltb_lt; lia).
  replace (2 ^ 64 - 2 ^ 47 <=? last) with (2 ^ 64 - 2 ^ 47 <=? cur)
    by (apply eq_true_iff_eq; rewrite !Z.leb_le; lia).
  change (is_user_address cur) with (cur <? 2 ^ 47). 
  destruct (Z.ltb_spec cur (2 ^ 47)) as [Hlt|Hge]; cbn [orb].
  - change (is_user_address cur) with (cur <? 2 ^ 47). change (is_user_address last) with (last <? 2 ^ 47).
    rewrite (proj2 (Z.ltb_lt cur _)), (proj2 (Z.ltb_lt last _)) by lia. cbn [negb orb].
    rewrite !align_page, Hp by lia. rewrite Z.sub_diag. change (Z.to_nat (0 / 4096 + 1)) with 1%nat.
    cbn [validate_loop]. rewrite Z.mul_0_l, Z.add_0_r.
    rewrite (check_page_same _ _ (4096 * (last / 4096)) cur) by (rewrite Z.mul_comm, Z.div_mul; lia).
    by destruct (check_page m root cur w) as [[]| |].
  - destruct (2 ^ 64 - 2 ^ 47 <=? cur); [|done]. change (is_user_address cur) with (cur <? 2 ^ 47).
    by rewrite (proj2 (Z.ltb_ge cur _)) by lia.
Qed.

Lemma page_end_spec a : 0 <= a ->
  1 <= bytes_until_page_end a /\ a + bytes_until_page_end a = 4096 * (a / 4096 + 1).
Proof.
  intros Ha. unfold bytes_until_page_end, USER_PAGE_SIZE. change (4096 - 1) with (Z.ones 12).
  rewrite Z.land_ones by lia. change (2 ^ 12) with 4096.
  pose proof (Z.div_mod a 4096 ltac:(lia)). pose proof (Z.mod_pos_bound a 4096 ltac:(lia)). lia.
Qed.

Lemma read_bytes_cons s ptr n : read_bytes s ptr (Z.of_nat (S n)) = user_byte s ptr :: read_bytes s (ptr + 1) (Z.of_nat n).
Proof.
  unfold read_bytes. rewrite seqZ_cons by lia. rewrite fmap_cons, Z.add_0_r. f_equal.
  replace (Z.pred (Z.of_nat (S n))) with (Z.of_nat n) by lia.
  rewrite <- (fmap_add_seqZ 1 0). rewrite <- list_fmap_compose.
  apply list_fmap_ext. intros i x _. simpl. by rewrite Z.add_assoc.
Qed.

(** The reference over a run of readable bytes. *)
Lemma c_string_ref_run s len : forall cur n acc, (len <= n)%nat ->
  (forall x, cur <= x < cur + Z.of_nat len ->
     validate_user_range (us_tables s) (us_root s) x 1 false = Ok tt) ->
  c_string_ref s cur n acc =
    match position (fun b => b =? 0) (read_bytes s cur (Z.of_nat len)) with
    | Some k => string_from_utf8 (acc ++ take k (read_bytes s cur (Z.of_nat len)))
    | None => c_string_ref s (cur + Z.of_nat len) (n - len) (acc ++ read_bytes s cur (Z.of_nat len))
    end.
Proof.
  induction len as [|len IH]; intros cur n acc Hn Hv.
  - simpl. by rewrite app_nil_r, Z.add_0_r, Nat.sub_0_r.
  - destruct n as [|n]; [lia|]. rewrite read_bytes_cons. cbn [c_string_ref].
    rewrite Hv by lia. cbn [lift_system position].
    destruct (user_byte s cur =? 0); [by rewrite take_0, app_nil_r|].
    rewrite (IH (cur + 1) n) by (lia || (intros; apply Hv; lia)).
    destruct (position _ _) as [k|]; simpl; [by rewrite <- app_assoc|].
    rewrite <- app_assoc. f_equal. lia.
Qed.

(** A page that fails its check fails the reference the same way. *)
Lemma c_string_loop_ref s ptr max_len : (forall n, us_reserve s n = true) ->
  forall fuel offset bytes, 0 <= offset -> 0 < ptr + offset <= u64_max -> ptr > 0 ->
  (Z.to_nat (max_len - offset) < fuel)%nat ->
  c_string_loop fuel s ptr max_len offset bytes =
    c_string_ref s (ptr + offset) (Z.to_nat (max_len - offset)) bytes.
Proof.
  intros Hres fuel. induction fuel as [|fuel IH]; intros offset bytes Ho Hp Hp0 Hf; [lia|].
  cbn [c_string_loop]. destruct (Z.leb_spec max_len offset) as [Hle|Hlt].
  { by replace (Z.to_nat (max_len - offset)) with 0%nat by lia. }
  unfold u64_wrapping_add. rewrite (Z.mod_small (ptr + offset)) by (unfold u64_max in *; lia).
  set (cur := ptr + offset) in *. rewrite Hres. cbn [negb].
  destruct (page_end_spec cur ltac:(lia)) as [He1 He2].
  set (chunk := Z.min (max_len - offset) (bytes_until_page_end cur)).
  assert (1 <= chunk) by lia.
  assert (forall x, cur <= x < cur + chunk -> cur / 4096 = x / 4096) as Hsame.
  { intros x Hx. pose proof (Z.div_mod cur 4096 ltac:(lia)). pose proof (Z.mod_pos_bound cur 4096 ltac:(lia)).
    apply (Z.div_unique_pos x 4096 _ (x - 4096 * (cur / 4096))); lia. }
  unfold user_slice_new. rewrite (proj2 (Z.eqb_neq chunk 0)), (proj2 (Z.eqb_neq cur 0)) by lia.
  assert (validate_user_range (us_tables s) (us_root s) cur chunk false
    = validate_user_range (us_tables s) (us_root s) cur 1 false) as ->.
  { rewrite !validate_one_page; try lia; [done|by rewrite Z.add_0_r|apply Hsame; lia]. }
  destruct (validate_user_range (us_tables s) (us_root s) cur 1 false) as [[]|e|] eqn:Ev; cbn [lift_system].
  2, 3: by (destruct (Z.to_nat (max_len - offset)) eqn:En; [lia|]; cbn [c_string_ref]; rewrite Ev).
  assert (cur < 2 ^ 47 /\ check_page (us_tables s) (us_root s) cur false = Ok tt) as [Hu Hck]
    by (apply (range_validated _ _ cur 1 false); [lia|lia|done|lia]).
  assert (forall x, cur <= x < cur + chunk ->
    validate_user_range (us_tables s) (us_root s) x 1 false = Ok tt) as Hall.
  { intros x Hx. specialize (Hsame x Hx).
    assert (x < 2 ^ 47).
    { pose proof (Z.div_mod cur 4096 ltac:(lia)). pose proof (Z.mod_pos_bound cur 4096 ltac:(lia)).
      pose proof (Z.div_mod x 4096 ltac:(lia)). pose proof (Z.mod_pos_bound x 4096 ltac:(lia)). lia. }
    apply range_validated; [unfold u64_max; lia..|]. intros y Hy. replace y with x by lia.
    split; [done|]. by rewrite <- (check_page_same _ _ cur x). }
  rewrite (c_string_ref_run s (Z.to_nat chunk) cur) by (lia || (intros; apply Hall; lia)).
  rewrite Z2Nat.id by lia. destruct (position _ _); [done|].
  assert (cur / 4096 < 2 ^ 35) by (apply Z.div_lt_upper_bound; lia).
  rewrite IH by (unfold u64_max in *; lia). f_equal; lia.
Qed.

(** ** Writes *)

Lemma put_bytes_lookup data : forall b ptr x,
  put_bytes b ptr data !! x =
    if (ptr <=? x) && (x <? ptr + zlen data) then data !! Z.to_nat (x - ptr) else b !! x.
Proof.
  induction data as [|d data IH]; intros b ptr x; cbn [put_bytes].
  - unfold zlen. cbn [length]. destruct (Z.leb_spec ptr x), (Z.ltb_spec x (ptr + Z.of_nat 0)); cbn [andb]; (done || lia).
  - rewrite IH. unfold zlen. cbn [length].
    destruct (Z.leb_spec (ptr + 1) x), (Z.ltb_spec x (ptr + 1 + Z.of_nat (length data))),
      (Z.leb_spec ptr x), (Z.ltb_spec x (ptr + Z.of_nat (S (length data)))); simpl; try lia;
      try (rewrite lookup_insert_ne by lia; done).
    + replace (Z.to_nat (x - ptr)) with (S (Z.to_nat (x - (ptr + 1)))) by lia. done.
    + replace x with ptr by lia. rewrite lookup_insert_eq. by replace (Z.to_nat (ptr - ptr)) with 0%nat by lia.
Qed.

Lemma user_byte_put s ptr data x :
  user_byte (with_bytes s (put_bytes (us_bytes s) ptr data)) x =
    if (ptr <=? x) && (x <? ptr + zlen data) then znth 0 data (x - ptr) else user_byte s x.
Proof.
  unfold user_byte. simpl. rewrite put_bytes_lookup.
  destruct ((ptr <=? x) && (x <? ptr + zlen data)) eqn:E; [|done]. unfold znth.
  by rewrite nth_lookup.
Qed.

(** ** The copies' promises *)


(** C10. Admitted accesses are ones the processor grants.  When no level 4 entry has the
    reserved page-size bit, each byte of an admitted range passes the processor's own
    walk for a user access of the kind asked for, large pages included. *)
Theorem validated_hardware m root addr len w x : 0 <= addr <= u64_max -> 0 <= len ->
  validate_user_range m root addr len w = Ok tt -> addr <= x < addr + len -> p4_not_huge m root x ->
  hardware_grants m root x w = true.
Proof.
  intros Ha Hl Hv Hx Hh. apply (range_validated m root addr len w Ha Hl) with (x := x) in Hv as [_ Hc]; [|done].
  by apply levels_hardware, check_page_levels.
Qed.

(** C17. Page-wise string copies are byte-wise ones.  While the heap can hold the copy,
    [copy_c_string] gives what reading the string one byte at a time, checking each byte
    read and none after the terminator, gives: the same string, or the same error.  In
    particular a string that ends on the last byte of a mapped page is copied whatever
    the next page is. *)
Theorem c_string_bytewise s ptr max_len : 0 < ptr <= u64_max -> 0 < max_len ->
  (forall n, us_reserve s n = true) ->
  copy_c_string s ptr max_len = c_string_ref s ptr (Z.to_nat max_len) [].
Proof.
  intros Hp Hm Hr. unfold copy_c_string.
  rewrite (proj2 (Z.eqb_neq ptr 0)), (proj2 (Z.eqb_neq max_len 0)) by lia. cbn [orb].
  rewrite c_string_loop_ref by (done || lia). by rewrite Z.add_0_r, Z.sub_0_r.
Qed.

(** A copy to user memory writes exactly its range, all of it writable user memory, or
    fails and writes nothing. *)
Lemma copy_to_user_exact s ptr data : 0 <= ptr <= u64_max ->
  match copy_bytes_to_user s ptr data with
  | (Ok _, s') => (forall x, ptr <= x < ptr + zlen data ->
        x < 2 ^ 47 /\ check_page (us_tables s) (us_root s) x true = Ok tt)
      /\ (forall x, user_byte s' x =
           if (ptr <=? x) && (x <? ptr + zlen data) then znth 0 data (x - ptr) else user_byte s x)
  | (Err _, s') => s' = s
  | (Panic, _) => False
  end.
Proof.
  intros Hp. unfold copy_bytes_to_user, user_slice_new.
  assert (0 <= zlen data) by (unfold zlen; lia).
  destruct (Z.eqb_spec (zlen data) 0) as [E0|E0]; cbn [lift_system].
  { split; [lia|]. intros x. apply user_byte_put. }
  destruct (ptr =? 0); [done|].
  pose proof (range_validated (us_tables s) (us_root s) ptr (zlen data) true Hp ltac:(lia)) as Hv.
  pose proof (validate_no_panic (us_tables s) (us_root s) ptr (zlen data) true) as Hnp.
  destruct (validate_user_range _ _ _ _ _) as [[]|e|]; cbn [lift_system]; [|done|done].
  split; [by apply Hv|]. intros x. apply user_byte_put.
Qed.

(** ** A small address space *)

(** Two pages at [0x400000], the second read-only, and a 2 MiB page at [0x600000]. *)
Definition demo_tables : Mem :=
  list_to_map [
    (entry_address 0x1000 0, 0x2007); (entry_address 0x2000 0, 0x3007);
    (entry_address 0x3000 2, 0x4007); (entry_address 0x3000 3, 0x200087);
    (entry_address 0x4000 0, 0x5007); (entry_address 0x4000 1, 0x6005)].
Definition demo_space : UserSpace :=
  mkSpace demo_tables 0x1000 (put_bytes ∅ 0x401ffd [104; 105; 0]) (fun _ => true).


Lemma validated_hardware_witness : hardware_grants demo_tables 0x1000 0x400008 true = true.
Proof.
  apply (validated_hardware demo_tables 0x1000 0x400000 64 true 0x400008);
    [unfold u64_max; lia|lia|reflexivity|lia|reflexivity].
Defined.

(** The string ends on the last mapped byte: [0x402000] is not mapped. *)
Lemma c_string_bytewise_witness :
  copy_c_string demo_space 0x401ffd 256 = Ok [104; 105]
  /\ copy_c_string demo_space 0x401ffd 256 = c_string_ref demo_space 0x401ffd 256 [].
Proof.
  split; [vm_compute; reflexivity|].
  apply (c_string_bytewise demo_space 0x401ffd 256); [unfold u64_max; lia|lia|done].
Defined.

(** ** Departures *)

(** The walk's comment says a large page's flags are returned where it is met.  The
    page-size bit is looked for in the flags common to all levels so far, so below a
    level 4 entry, which cannot have it, it is never found: no walk reports one. *)
Lemma large_page_never_reported m root v flags : p4_not_huge m root v ->
  walk_page_table_for_flags m root v = Some flags -> contains flags HUGE_PAGE = false.
Proof.
  unfold p4_not_huge, walk_page_table_for_flags. intros Hh.
  change HUGE_PAGE with (2 ^ 7) in *. rewrite !contains_land, !contains_flags, Hh by (lia || done).
  cbn [andb]. repeat (destruct (negb _); [done|]). intros [= <-].
  by rewrite !contains_land, !contains_flags, Hh by (lia || done).
Qed.

(** So the walk takes the contents of a large page for a page table, and refuses a buffer
    in a large page the program may use, unless those contents look like an entry. *)
Example large_page_refused :
  hardware_grants demo_tables 0x1000 0x600000 true = true
  /\ validate_user_range demo_tables 0x1000 0x600000 16 false = Err InvalidArgument.
Proof. split; vm_compute; reflexivity. Qed.
