(* ===== verification/Keyboard.v ===== *)
(** * Keyboard: scancodes, modifiers and the input buffers

    [nitrogen/src/ps2/keyboard.rs]: the driver's state (the buffers of characters, of the
    line and of raw events, the modifiers, the extended prefix and the repeated key) and
    every function of it but the one that polls the controller's port.  The statics of the
    code are the fields of one record.

    Whatever bytes the controller sends, the buffers stay bounded and hold ASCII
    ([scancodes_bounded]); text typed on the keys of its characters is what programs read,
    and the line holds it as edited with the backspace key ([typed_text_read]). *)

From S2P Require Import Prelude.

(** ** Data *)
Record KeyboardModifiers : Type := mkMods {
  lshift : bool; rshift : bool; lctrl : bool; rctrl : bool; lalt : bool; ralt : bool;
  lsuper : bool; rsuper : bool; caps_lock : bool; num_lock : bool; scroll_lock : bool
}.
Definition no_modifiers : KeyboardModifiers :=
  mkMods false false false false false false false false false false false.

Record KeyRepeatState : Type := mkRepeat { last_scancode : Z; press_tick : Z; repeating : bool }.
Definition repeat_new : KeyRepeatState := mkRepeat 0 0 false.

(** [TERMINAL_INPUT_ALLOWED], [INPUT_BUFFER] and [INPUT_STRING_BUFFER], whose string
    holds ASCII. *)
Record Keyboard : Type := mkKeyboard {
  kb_allowed : bool;
  kb_input : list Z;
  kb_line : list Z
}.

(** With [MODIFIERS], [EXTENDED_SCANCODE], [RAW_KEY_QUEUE], [KEY_REPEAT] and [SYS_TICK]. *)
Record Driver : Type := mkDriver {
  kd_buffers : Keyboard;
  kd_mods : KeyboardModifiers;
  kd_extended : bool;
  kd_raw : list (Z * bool);
  kd_repeat : KeyRepeatState;
  kd_tick : Z
}.
Definition driver_new : Driver := mkDriver (mkKeyboard true [] []) no_modifiers false [] repeat_new 0.

Definition KEY_REPEAT_DELAY_MS : Z := 500.
Definition KEY_REPEAT_RATE_MS : Z := 33.

(** ** From scancodes to characters *)

(** The tables, as the bytes of the literals of the code. *)
Definition ascii_codes (s : string) : list Z := (fun c => Z.of_N (Ascii.N_of_ascii c)) <$> String.list_ascii_of_string s.
Definition NUMBERS_BASE : list Z := ascii_codes "1234567890".
Definition NUMBERS_SHIFT : list Z := ascii_codes "!@#$%^&*()".
Definition QWERTY_BASE : list Z := ascii_codes "qwertyuiop".
Definition ASDF_BASE : list Z := ascii_codes "asdfghjkl".
Definition ZXCV_BASE : list Z := ascii_codes "zxcvbnm".
Definition PUNCTUATION : list (Z * Z * Z) :=
  [(0x0C, 45, 95); (0x0D, 61, 43); (0x1A, 91, 123); (0x1B, 93, 125); (0x27, 59, 58); (0x28, 39, 34);
   (0x29, 96, 126); (0x2B, 92, 124); (0x33, 44, 60); (0x34, 46, 62); (0x35, 47, 63)].
Definition SPECIAL_KEYS : list (Z * Z) := [(0x1C, 10); (0x0E, 8); (0x0F, 9); (0x01, 27); (0x39, 32)].
Definition SC_LSUPER : Z := 0x5B.
Definition SC_RSUPER : Z := 0x5C.

(** [u8::to_ascii_uppercase]. *)
Definition to_ascii_uppercase (c : Z) : Z := if (97 <=? c) && (c <=? 122) then c - 32 else c.

Definition process_alphabetic (base : Z) (m : KeyboardModifiers) : Z :=
  let shift_pressed := lshift m || rshift m in
  let ctrl_pressed := lctrl m || rctrl m in
  let ch := if xorb shift_pressed (caps_lock m) then to_ascii_uppercase base else base in
  if ctrl_pressed then Z.land ch 0x1F else ch.

Definition scancode_to_ascii (scancode : Z) (m : KeyboardModifiers) : option Z :=
  let shift := lshift m || rshift m in
  let within lo hi := (lo <=? scancode) && (scancode <=? hi) in
  if within 0x02 0x0B then Some (znth 0 (if shift then NUMBERS_SHIFT else NUMBERS_BASE) (scancode - 0x02))
  else if within 0x10 0x19 then Some (process_alphabetic (znth 0 QWERTY_BASE (scancode - 0x10)) m)
  else if within 0x1E 0x26 then Some (process_alphabetic (znth 0 ASDF_BASE (scancode - 0x1E)) m)
  else if within 0x2C 0x32 then Some (process_alphabetic (znth 0 ZXCV_BASE (scancode - 0x2C)) m)
  else
    match List.find (fun x => x.1.1 =? scancode) PUNCTUATION with
    | Some (_, b, s) => Some (if shift then s else b)
    | None => snd <$> List.find (fun x => x.1 =? scancode) SPECIAL_KEYS
    end.

Definition is_super_scancode (scancode : Z) (extended : bool) : bool :=
  extended && ((scancode =? SC_LSUPER) || (scancode =? SC_RSUPER)).
Definition super_held (d : Driver) : bool := lsuper (kd_mods d) || rsuper (kd_mods d).

(** ** The buffers *)

(** The characters of a press or of a repetition: both buffers stop at 256; a backspace
    takes back the last character of the line. *)
Definition push_ascii (k : Keyboard) (ascii : Z) : Keyboard :=
  let input := if zlen (kb_input k) <? 256 then kb_input k ++ [ascii] else kb_input k in
  let line := if ascii =? 0x08 then take (length (kb_line k) - 1) (kb_line k)
              else if zlen (kb_line k) <? 256 then kb_line k ++ [ascii] else kb_line k in
  mkKeyboard (kb_allowed k) input line.

Definition set_terminal_input_allowed (k : Keyboard) (allowed : bool) : Keyboard :=
  if allowed then mkKeyboard true (kb_input k) (kb_line k) else mkKeyboard false [] [].

Definition read_char (k : Keyboard) : option Z * Keyboard :=
  if kb_allowed k then
    match kb_input k with
    | [] => (None, k)
    | c :: rest => (Some c, mkKeyboard true rest (kb_line k))
    end
  else (None, mkKeyboard false [] (kb_line k)).

Definition input_available (k : Keyboard) : bool * Keyboard :=
  if kb_allowed k then (negb (bool_decide (kb_input k = [])), k)
  else (false, mkKeyboard false [] (kb_line k)).

(** The bytes put into a buffer of [n] bytes; the line holds ASCII, so no character is cut. *)
Definition drain_line_buffer (k : Keyboard) (n : Z) : list Z * Keyboard :=
  if kb_allowed k then
    let n := Z.to_nat (Z.min (zlen (kb_line k)) n) in
    (take n (kb_line k), mkKeyboard true (kb_input k) (drop n (kb_line k)))
  else ([], mkKeyboard false (kb_input k) []).

Definition set_buffers (d : Driver) (k : Keyboard) : Driver :=
  mkDriver k (kd_mods d) (kd_extended d) (kd_raw d) (kd_repeat d) (kd_tick d).
Definition set_mods (d : Driver) (m : KeyboardModifiers) : Driver :=
  mkDriver (kd_buffers d) m (kd_extended d) (kd_raw d) (kd_repeat d) (kd_tick d).
Definition set_repeat (d : Driver) (r : KeyRepeatState) : Driver :=
  mkDriver (kd_buffers d) (kd_mods d) (kd_extended d) (kd_raw d) r (kd_tick d).

Definition flush_input (d : Driver) : Driver :=
  mkDriver (mkKeyboard (kb_allowed (kd_buffers d)) [] []) (kd_mods d) (kd_extended d) [] (kd_repeat d) (kd_tick d).

Definition pop_raw_key (d : Driver) : option (Z * bool) * Driver :=
  match kd_raw d with
  | [] => (None, d)
  | e :: rest => (Some e, mkDriver (kd_buffers d) (kd_mods d) (kd_extended d) rest (kd_repeat d) (kd_tick d))
  end.

(** ** Presses and releases *)
Definition track_repeat (scancode tick : Z) (r : KeyRepeatState) : KeyRepeatState :=
  if (scancode =? 0x3A) || (scancode =? 0x45) || (scancode =? 0x46) then r
  else mkRepeat scancode tick false.

Definition clear_repeat (scancode : Z) (r : KeyRepeatState) : KeyRepeatState :=
  if last_scancode r =? scancode then mkRepeat 0 (press_tick r) false else r.

Definition with_lshift b m := mkMods b (rshift m) (lctrl m) (rctrl m) (lalt m) (ralt m) (lsuper m) (rsuper m) (caps_lock m) (num_lock m) (scroll_lock m).
Definition with_rshift b m := mkMods (lshift m) b (lctrl m) (rctrl m) (lalt m) (ralt m) (lsuper m) (rsuper m) (caps_lock m) (num_lock m) (scroll_lock m).
Definition with_lctrl b m := mkMods (lshift m) (rshift m) b (rctrl m) (lalt m) (ralt m) (lsuper m) (rsuper m) (caps_lock m) (num_lock m) (scroll_lock m).
Definition with_rctrl b m := mkMods (lshift m) (rshift m) (lctrl m) b (lalt m) (ralt m) (lsuper m) (rsuper m) (caps_lock m) (num_lock m) (scroll_lock m).
Definition with_lalt b m := mkMods (lshift m) (rshift m) (lctrl m) (rctrl m) b (ralt m) (lsuper m) (rsuper m) (caps_lock m) (num_lock m) (scroll_lock m).
Definition with_ralt b m := mkMods (lshift m) (rshift m) (lctrl m) (rctrl m) (lalt m) b (lsuper m) (rsuper m) (caps_lock m) (num_lock m) (scroll_lock m).
Definition with_lsuper b m := mkMods (lshift m) (rshift m) (lctrl m) (rctrl m) (lalt m) (ralt m) b (rsuper m) (caps_lock m) (num_lock m) (scroll_lock m).
Definition with_rsuper b m := mkMods (lshift m) (rshift m) (lctrl m) (rctrl m) (lalt m) (ralt m) (lsuper m) b (caps_lock m) (num_lock m) (scroll_lock m).
Definition toggle_caps m := mkMods (lshift m) (rshift m) (lctrl m) (rctrl m) (lalt m) (ralt m) (lsuper m) (rsuper m) (negb (caps_lock m)) (num_lock m) (scroll_lock m).
Definition toggle_num m := mkMods (lshift m) (rshift m) (lctrl m) (rctrl m) (lalt m) (ralt m) (lsuper m) (rsuper m) (caps_lock m) (negb (num_lock m)) (scroll_lock m).
Definition toggle_scroll m := mkMods (lshift m) (rshift m) (lctrl m) (rctrl m) (lalt m) (ralt m) (lsuper m) (rsuper m) (caps_lock m) (num_lock m) (negb (scroll_lock m)).

Definition handle_press (scancode : Z) (d : Driver) : Driver :=
  let m := kd_mods d in
  if scancode =? 0x2A then set_mods d (with_lshift true m)
  else if scancode =? 0x36 then set_mods d (with_rshift true m)
  else if scancode =? 0x1D then set_mods d (with_lctrl true m)
  else if scancode =? 0x38 then set_mods d (with_lalt true m)
  else if scancode =? 0x3A then set_mods d (toggle_caps m)
  else if scancode =? 0x45 then set_mods d (toggle_num m)
  else if scancode =? 0x46 then set_mods d (toggle_scroll m)
  else
    let d := set_repeat d (track_repeat scancode (kd_tick d) (kd_repeat d)) in
    match scancode_to_ascii scancode m with
    | Some ascii => set_buffers d (push_ascii (kd_buffers d) ascii)
    | None => d
    end.

Definition handle_release (scancode : Z) (d : Driver) : Driver :=
  let m := kd_mods d in
  let m := if scancode =? 0x2A then with_lshift false m
           else if scancode =? 0x36 then with_rshift false m
           else if scancode =? 0x1D then with_lctrl false m
           else if scancode =? 0x38 then with_lalt false m
           else m in
  set_repeat (set_mods d m) (clear_repeat scancode (kd_repeat d)).

(** [handle_ext_press] and [handle_ext_release]. *)
Definition handle_ext (pressed : bool) (scancode : Z) (m : KeyboardModifiers) : KeyboardModifiers :=
  if scancode =? 0x1D then with_rctrl pressed m
  else if scancode =? 0x38 then with_ralt pressed m
  else if scancode =? SC_LSUPER then with_lsuper pressed m
  else if scancode =? SC_RSUPER then with_rsuper pressed m
  else m.

Definition handle_keyboard_scancode (scancode : Z) (d : Driver) : Driver :=
  if scancode =? 0xE0 then mkDriver (kd_buffers d) (kd_mods d) true (kd_raw d) (kd_repeat d) (kd_tick d) else
  let is_ext := kd_extended d in
  let pressed := Z.land scancode 0x80 =? 0 in
  let base := Z.land scancode 0x7F in
  let raw := if zlen (kd_raw d) <? 64
             then kd_raw d ++ [(if is_ext then Z.lor base 0x80 else base, pressed)] else kd_raw d in
  let d := mkDriver (kd_buffers d) (kd_mods d) false raw (kd_repeat d) (kd_tick d) in
  if is_ext then set_mods d (handle_ext pressed base (kd_mods d))
  else if pressed then handle_press base d else handle_release base d.

(** ** Repetition *)
Definition keyboard_tick (now : Z) (d : Driver) : Driver :=
  mkDriver (kd_buffers d) (kd_mods d) (kd_extended d) (kd_raw d) (kd_repeat d) now.

Definition process_key_repeat (d : Driver) : Driver :=
  let now := kd_tick d in
  let r := kd_repeat d in
  if last_scancode r =? 0 then d else
  let elapsed := u64_saturating_sub now (press_tick r) in
  if negb (repeating r) && (elapsed <? KEY_REPEAT_DELAY_MS) then d else
  if repeating r && (elapsed <? KEY_REPEAT_RATE_MS) then d else
  let d := set_repeat d (mkRepeat (last_scancode r) now true) in
  match scancode_to_ascii (last_scancode r) (kd_mods d) with
  | Some ascii => set_buffers d (push_ascii (kd_buffers d) ascii)
  | None => d
  end.

(** ** Bounds *)
Definition is_ascii (c : Z) : Prop := 0 <= c < 128.

Record driver_ok (d : Driver) : Prop := {
  do_input : zlen (kb_input (kd_buffers d)) <= 256 /\ Forall is_ascii (kb_input (kd_buffers d));
  do_line : zlen (kb_line (kd_buffers d)) <= 256 /\ Forall is_ascii (kb_line (kd_buffers d));
  do_raw : zlen (kd_raw d) <= 64 /\ Forall (fun e => 0 <= e.1 < 256) (kd_raw d)
}.

(** What the drivers and programs may do: a byte from the controller, the passing of time,
    a repetition, and every way of taking input. *)
Inductive key_op : Type :=
| KByte (b : Z) | KTick (now : Z) | KRepeat | KRead | KDrain (n : Z) | KPopRaw | KAvailable
| KAllow (allowed : bool) | KFlush.

Definition key_step (d : Driver) (op : key_op) : Driver :=
  match op with
  | KByte b => handle_keyboard_scancode b d
  | KTick now => keyboard_tick now d
  | KRepeat => process_key_repeat d
  | KRead => set_buffers d (read_char (kd_buffers d)).2
  | KDrain n => set_buffers d (drain_line_buffer (kd_buffers d) n).2
  | KPopRaw => (pop_raw_key d).2
  | KAvailable => set_buffers d (input_available (kd_buffers d)).2
  | KAllow allowed => set_buffers d (set_terminal_input_allowed (kd_buffers d) allowed)
  | KFlush => flush_input d
  end.

Lemma push_ascii_ok k c : is_ascii c ->
  zlen (kb_input k) <= 256 /\ Forall is_ascii (kb_input k) -> zlen (kb_line k) <= 256 /\ Forall is_ascii (kb_line k) ->
  let k' := push_ascii k c in
  (zlen (kb_input k') <= 256 /\ Forall is_ascii (kb_input k')) /\ (zlen (kb_line k') <= 256 /\ Forall is_ascii (kb_line k')).
Proof.
  intros Hc [I1 I2] [L1 L2]. unfold push_ascii. cbn [kb_input kb_line].
  assert (forall l, zlen l <= 256 -> Forall is_ascii l ->
    zlen (if zlen l <? 256 then l ++ [c] else l) <= 256 /\ Forall is_ascii (if zlen l <? 256 then l ++ [c] else l)) as Hpush.
  { intros l Hl Ha. destruct (Z.ltb_spec (zlen l) 256); [|done]. rewrite zlen_app. change (zlen [c]) with 1.
    split; [lia|]. apply Forall_app. by split; [|apply Forall_singleton]. }
  split; [by apply Hpush|]. destruct (c =? 8); [|by apply Hpush]. split.
  - unfold zlen in *. rewrite length_take. lia.
  - by apply Forall_take.
Qed.

(** Every key gives an ASCII character, whatever the modifiers. *)
Lemma scancode_ascii s m c : scancode_to_ascii s m = Some c -> is_ascii c.
Proof.
  destruct m as [ls rs lc rc la ra lu ru cl nl sl]. unfold scancode_to_ascii, process_alphabetic. cbn [lshift rshift lctrl rctrl caps_lock].
  assert (forall l i, Forall (fun c => 0 <= c < 128) l -> is_ascii (znth 0 l i)) as Hn.
  { intros l i Hl. unfold znth. destruct (nth_in_or_default (Z.to_nat i) l 0) as [Hin|E]; [|rewrite E; unfold is_ascii; lia].
    rewrite Forall_forall in Hl. by apply Hl, list_elem_of_In. }
  assert (forall x (up ctrl : bool), is_ascii x ->
    is_ascii (let ch := if up then to_ascii_uppercase x else x in if ctrl then Z.land ch 31 else ch)) as Hp.
  { intros x up ctrl Hx. cbv zeta. assert (is_ascii (if up then to_ascii_uppercase x else x)) as Hu.
    { unfold to_ascii_uppercase, is_ascii in *. destruct up; [|done]. repeat case_match; bool_to_prop; lia. }
    destruct ctrl; [|done]. change 31 with (Z.ones 5). rewrite Z.land_ones by lia.
    unfold is_ascii in *. pose proof (Z.mod_pos_bound (if up then to_ascii_uppercase x else x) (2 ^ 5) ltac:(lia)). lia. }
  destruct (_ && _); [intros [= <-]; apply Hn; by destruct (ls || rs); repeat constructor|].
  do 3 (destruct (_ && _); [intros [= <-]; apply Hp, Hn; by repeat constructor|]).
  destruct (List.find (fun x => x.1.1 =? s) PUNCTUATION) as [[[a b] sh]|] eqn:E.
  - intros [= <-]. apply List.find_some in E as [E _]. cbn [In PUNCTUATION] in E. unfold is_ascii.
    repeat (destruct E as [[= <- <- <-]|E]; [destruct (ls || rs); lia|]). done.
  - destruct (List.find _ SPECIAL_KEYS) as [[a b]|] eqn:E2; [|done]. intros [= <-].
    apply List.find_some in E2 as [E2 _]. cbn [In SPECIAL_KEYS] in E2. unfold is_ascii. simpl.
    repeat (destruct E2 as [[= <- <-]|E2]; [lia|]). done.
Qed.

Lemma raw_code (b : Z) (ext : bool) : 0 <= (if ext then Z.lor (Z.land b 127) 128 else Z.land b 127) < 256.
Proof.
  assert (0 <= Z.land b 127 < 128) as Hb.
  { change 127 with (Z.ones 7). rewrite Z.land_ones by lia. apply Z.mod_pos_bound. lia. }
  destruct ext; [|lia]. split; [apply Z.lor_nonneg; lia|].
  destruct (Z.eq_dec (Z.lor (Z.land b 127) 128) 0) as [->|]; [lia|].
  apply Z.log2_lt_pow2 with (b := 8); [pose proof (Z.lor_nonneg (Z.land b 127) 128); lia|].
  rewrite Z.log2_lor by lia. change (Z.log2 128) with 7.
  apply Z.max_lub_lt; [|lia]. destruct (Z.eq_dec (Z.land b 127) 0) as [->|]; [done|].
  apply Z.log2_lt_pow2; lia.
Qed.

Lemma push_ok d d' c : driver_ok d -> kd_raw d' = kd_raw d -> kd_buffers d' = kd_buffers d -> is_ascii c ->
  driver_ok (set_buffers d' (push_ascii (kd_buffers d') c)).
Proof.
  intros [I L R] Hr Hb Hc. destruct (push_ascii_ok (kd_buffers d) c Hc I L). split; cbn; rewrite ?Hb, ?Hr; done.
Qed.

(** Only the buffers and the raw queue matter. *)
Lemma driver_ok_same d d' : driver_ok d -> kd_raw d' = kd_raw d -> kd_buffers d' = kd_buffers d -> driver_ok d'.
Proof. intros [I L R] Hr Hb. split; by rewrite ?Hr, ?Hb. Qed.

Lemma scancode_ok b d : driver_ok d -> driver_ok (handle_keyboard_scancode b d).
Proof.
  intros Hd. unfold handle_keyboard_scancode. destruct (b =? 0xE0); [by eapply driver_ok_same|]. cbv zeta.
  set (raw := if zlen (kd_raw d) <? 64 then _ else _). set (d1 := mkDriver _ _ _ raw _ _).
  assert (driver_ok d1) as Hd1.
  { destruct Hd as [I L [R1 R2]]. split; [done|done|]. cbn. unfold raw. destruct (Z.ltb_spec (zlen (kd_raw d)) 64); [|done].
    rewrite zlen_app. split; [by rewrite zlen_cons, zlen_nil; lia|]. apply Forall_app. split; [done|].
    apply Forall_singleton. apply raw_code. }
  destruct (kd_extended d); [by eapply driver_ok_same|]. destruct (_ =? 0); [|by eapply driver_ok_same].
  unfold handle_press. repeat (case_match; [by eapply driver_ok_same|]).
  case_match; [|by eapply driver_ok_same]. apply (push_ok d1); [done..|]. by eapply scancode_ascii.
Qed.

Lemma key_step_ok d op : driver_ok d -> driver_ok (key_step d op).
Proof.
  intros Hd. pose proof Hd as [[I1 I2] [L1 L2] [R1 R2]].
  destruct op as [b|now| | |n| | |al|]; cbn [key_step].
  - by apply scancode_ok.
  - by eapply driver_ok_same.
  - unfold process_key_repeat. repeat (case_match; [done|]). case_match; [|by eapply driver_ok_same].
    apply (push_ok d); [done..|]. by eapply scancode_ascii.
  - unfold read_char. destruct (kd_buffers d) as [[] [|c rest] line]; cbn in *; split; cbn; try done.
    apply Forall_cons in I2 as [_ I2]. split; [rewrite zlen_cons in I1; lia|done].
  - unfold drain_line_buffer. case_match; split; cbn; try done.
    split; [unfold zlen in *; rewrite length_drop; lia|by apply Forall_drop].
  - unfold pop_raw_key. destruct (kd_raw d) as [|e rest] eqn:E; split; cbn; rewrite ?E; try done.
    apply Forall_cons in R2 as [_ R2]. split; [rewrite zlen_cons in R1; lia|done].
  - unfold input_available. by case_match; split.
  - by destruct al; split.
  - by split.
Qed.

(** The keyboard's buffers stay within bounds.  Whatever bytes the controller sends,
    and however time passes and programs take input, the character and line buffers hold
    at most 256 ASCII characters and the queue of raw events at most 64 bytes with their
    direction. *)
Theorem scancodes_bounded (ops : list key_op) : driver_ok (foldl key_step driver_new ops).
Proof.
  assert (forall d, driver_ok d -> driver_ok (foldl key_step d ops)) as Hr.
  { induction ops as [|op ops IH]; intros d Hd; cbn [foldl]; [done|]. by apply IH, key_step_ok. }
  apply Hr. by split.
Qed.

(** ** Typing

    A key is pressed and released, with the left shift key around it where the character
    asks for it. *)
Record key : Type := mkKey { key_code : Z; key_shift : bool }.

Definition key_bytes (x : key) : list Z :=
  let stroke := [key_code x; Z.lor (key_code x) 0x80] in
  if key_shift x then 0x2A :: stroke ++ [0xAA] else stroke.

(** Keys that are no modifiers, locks or prefixes. *)
Definition plain_key (x : key) : Prop := 0 < key_code x < 0x80 /\ key_code x ∉ [0x2A; 0x36; 0x1D; 0x38; 0x3A; 0x45; 0x46; 0x60].

Definition key_char (x : key) : option Z :=
  scancode_to_ascii (key_code x) (with_lshift (key_shift x) no_modifiers).

Definition type_keys (d : Driver) (ks : list key) : Driver :=
  foldl (fun d b => handle_keyboard_scancode b d) d (concat (key_bytes <$> ks)).

Definition type_key (d : Driver) (x : key) : Driver := foldl (fun d b => handle_keyboard_scancode b d) d (key_bytes x).

Lemma type_keys_cons d x ks : type_keys d (x :: ks) = type_keys (type_key d x) ks.
Proof. unfold type_keys, type_key. cbn [fmap list_fmap concat]. by rewrite foldl_app. Qed.

(** Codes and their releases, over all codes. *)
Lemma key_code_bits c : 0 < c < 0x80 -> c <> 0x60 ->
  (c =? 0xE0) = false /\ (Z.land c 0x80 =? 0) = true /\ Z.land c 0x7F = c
  /\ (Z.lor c 0x80 =? 0xE0) = false /\ (Z.land (Z.lor c 0x80) 0x80 =? 0) = false /\ Z.land (Z.lor c 0x80) 0x7F = c.
Proof.
  intros Hc Hn.
  assert (forall c, c ∈ seqZ 1 127 -> c <> 0x60 ->
    (c =? 0xE0) = false /\ (Z.land c 0x80 =? 0) = true /\ Z.land c 0x7F = c
    /\ (Z.lor c 0x80 =? 0xE0) = false /\ (Z.land (Z.lor c 0x80) 0x80 =? 0) = false /\ Z.land (Z.lor c 0x80) 0x7F = c) as Hall.
  { intros x Hx Hx6. assert (Forall (fun c => c = 0x60 \/ (c =? 0xE0) = false /\ (Z.land c 0x80 =? 0) = true /\ Z.land c 0x7F = c
      /\ (Z.lor c 0x80 =? 0xE0) = false /\ (Z.land (Z.lor c 0x80) 0x80 =? 0) = false /\ Z.land (Z.lor c 0x80) 0x7F = c) (seqZ 1 127)) as Hf
      by (apply (bool_decide_unpack _); vm_compute; exact I).
    rewrite Forall_forall in Hf. by destruct (Hf x Hx). }
  apply Hall; [|done]. apply elem_of_seqZ. lia.
Qed.

(** The state between two keys. *)
Definition idle (d : Driver) : Prop := kd_mods d = no_modifiers /\ kd_extended d = false.

Lemma plain_key_ne x c : plain_key x -> c ∈ [0x2A; 0x36; 0x1D; 0x38; 0x3A; 0x45; 0x46; 0x60] -> (key_code x =? c) = false.
Proof. intros [_ Hn] Hin. apply Z.eqb_neq. by intros <-. Qed.

Lemma press_effect d x : kd_extended d = false -> plain_key x ->
  let d' := handle_keyboard_scancode (key_code x) d in
  kd_mods d' = kd_mods d /\ kd_extended d' = false
  /\ kd_buffers d' = match scancode_to_ascii (key_code x) (kd_mods d) with
                     | Some c => push_ascii (kd_buffers d) c | None => kd_buffers d end.
Proof.
  intros He Hx. pose proof Hx as [Hc _].
  destruct (key_code_bits (key_code x) Hc) as (B1 & B2 & B3 & _); [apply Z.eqb_neq, plain_key_ne; [done|set_solver]|].
  unfold handle_keyboard_scancode. rewrite B1, He, B2, B3. cbv zeta. unfold handle_press. cbn [kd_mods].
  rewrite !(plain_key_ne x) by (done || set_solver). by destruct (scancode_to_ascii (key_code x) (kd_mods d)).
Qed.

Lemma release_effect d x : kd_extended d = false -> plain_key x ->
  let d' := handle_keyboard_scancode (Z.lor (key_code x) 0x80) d in
  kd_mods d' = kd_mods d /\ kd_extended d' = false /\ kd_buffers d' = kd_buffers d.
Proof.
  intros He Hx. pose proof Hx as [Hc _].
  destruct (key_code_bits (key_code x) Hc) as (_ & _ & _ & B4 & B5 & B6); [apply Z.eqb_neq, plain_key_ne; [done|set_solver]|].
  unfold handle_keyboard_scancode. rewrite B4, He, B5, B6. cbv zeta. unfold handle_release. cbn [kd_mods].
  rewrite !(plain_key_ne x) by (done || set_solver). done.
Qed.

Lemma stroke_effect d x m : kd_mods d = m -> kd_extended d = false -> plain_key x ->
  let d' := foldl (fun d b => handle_keyboard_scancode b d) d [key_code x; Z.lor (key_code x) 0x80] in
  kd_mods d' = m /\ kd_extended d' = false
  /\ kd_buffers d' = match scancode_to_ascii (key_code x) m with
                     | Some c => push_ascii (kd_buffers d) c | None => kd_buffers d end.
Proof.
  intros <- He Hx. cbn [foldl]. destruct (press_effect d x He Hx) as (P1 & P2 & P3).
  destruct (release_effect _ x P2 Hx) as (R1 & R2 & R3). by rewrite R1, R3, P1, P3.
Qed.

Lemma type_key_effect d x c : idle d -> plain_key x -> key_char x = Some c ->
  idle (type_key d x) /\ kd_buffers (type_key d x) = push_ascii (kd_buffers d) c.
Proof.
  intros [Hm He] Hx Hc. unfold key_char in Hc. unfold type_key, key_bytes. destruct (key_shift x).
  - change (0x2A :: [key_code x; Z.lor (key_code x) 0x80] ++ [0xAA])
      with ([0x2A] ++ [key_code x; Z.lor (key_code x) 0x80] ++ [0xAA]).
    rewrite !foldl_app. set (d1 := foldl _ d [0x2A]).
    assert (kd_mods d1 = with_lshift true no_modifiers /\ kd_extended d1 = false /\ kd_buffers d1 = kd_buffers d) as (M1 & E1 & B1).
    { unfold d1. cbn [foldl]. unfold handle_keyboard_scancode. rewrite He. simpl. by rewrite Hm. }
    destruct (stroke_effect d1 x _ M1 E1 Hx) as (M2 & E2 & B2). rewrite Hc, B1 in B2.
    set (d2 := foldl _ d1 _) in *. cbn [foldl]. unfold handle_keyboard_scancode. rewrite E2. simpl. unfold idle. simpl. by rewrite M2.
  - destruct (stroke_effect d x no_modifiers Hm He Hx) as (M2 & E2 & B2).
    change (with_lshift false no_modifiers) with no_modifiers in Hc. by rewrite Hc in B2.
Qed.

(** The key of a character: the first plain key that gives it. *)
Definition all_keys : list key := (fun c => mkKey c false) <$> seqZ 1 0x39.
Definition all_shifted : list key := (fun c => mkKey c true) <$> seqZ 1 0x39.
Definition key_of (c : Z) : key :=
  default (mkKey 0 false) (List.find (fun x => bool_decide (key_char x = Some c)) (all_keys ++ all_shifted)).

(** The characters on the keys: printable ASCII, tab, newline, escape and backspace. *)
Definition typeable : list Z := [8; 9; 10; 27] ++ seqZ 32 95.

Lemma key_of_ok c : c ∈ typeable -> plain_key (key_of c) /\ key_char (key_of c) = Some c.
Proof.
  intros Hc. assert (Forall (fun c => plain_key (key_of c) /\ key_char (key_of c) = Some c) typeable) as Hf.
  { assert (Forall (fun c => ((0 < key_code (key_of c) /\ key_code (key_of c) < 0x80)
      /\ key_code (key_of c) ∉ [0x2A; 0x36; 0x1D; 0x38; 0x3A; 0x45; 0x46; 0x60]) /\ key_char (key_of c) = Some c) typeable) as H
      by (apply (bool_decide_unpack _); vm_compute; exact I). exact H. }
  rewrite Forall_forall in Hf. by apply Hf.
Qed.

(** What a line of text becomes when it is edited with backspaces. *)
Definition edit (l : list Z) (c : Z) : list Z := if c =? 8 then take (length l - 1) l else l ++ [c].
Definition edited (text : list Z) : list Z := foldl edit [] text.

Fixpoint read_chars (n : nat) (k : Keyboard) : list (option Z) * Keyboard :=
  match n with
  | O => ([], k)
  | S n => let '(c, k) := read_char k in let '(cs, k) := read_chars n k in (c :: cs, k)
  end.

Lemma read_chars_spec l : forall line,
  (read_chars (length l + 1) (mkKeyboard true l line)).1 = (Some <$> l) ++ [None].
Proof.
  induction l as [|c l IH]; intros line; [done|]. cbn [length read_chars Nat.add]. unfold read_char at 1. cbn [kb_allowed kb_input kb_line].
  specialize (IH line). rewrite Nat.add_comm in IH |- *. cbn [Nat.add] in IH |- *.
  destruct (read_chars (S (length l)) (mkKeyboard true l line)) as [cs k]. simpl in *. by rewrite IH.
Qed.

Lemma edit_length l c : zlen (edit l c) <= zlen l + 1.
Proof.
  unfold edit. destruct (c =? 8); [unfold zlen; rewrite length_take; lia|]. rewrite zlen_app. change (zlen [c]) with 1. lia.
Qed.

Lemma type_text text : forall d, idle d -> Forall (fun c => c ∈ typeable) text -> kb_allowed (kd_buffers d) = true ->
  zlen (kb_input (kd_buffers d)) + zlen text <= 256 -> zlen (kb_line (kd_buffers d)) + zlen text <= 256 ->
  let d' := type_keys d (key_of <$> text) in
  idle d' /\ kd_buffers d' = mkKeyboard true (kb_input (kd_buffers d) ++ text) (foldl edit (kb_line (kd_buffers d)) text).
Proof.
  induction text as [|c text IH]; intros d Hd Ht Ha Hi Hl.
  - split; [done|]. cbn. rewrite app_nil_r, <- Ha. by destruct (kd_buffers d).
  - apply Forall_cons in Ht as [Hc Ht]. destruct (key_of_ok c Hc) as [Hk1 Hk2]. rewrite zlen_cons in Hi, Hl.
    pose proof (zlen_nonneg text). destruct (type_key_effect d (key_of c) c Hd Hk1 Hk2) as [Hd1 Hb1].
    cbn [fmap list_fmap]. rewrite type_keys_cons.
    assert (kd_buffers (type_key d (key_of c)) = mkKeyboard true (kb_input (kd_buffers d) ++ [c]) (edit (kb_line (kd_buffers d)) c)) as Hb2.
    { rewrite Hb1. unfold push_ascii, edit. rewrite Ha, !(proj2 (Z.ltb_lt _ 256)) by lia. done. }
    pose proof (edit_length (kb_line (kd_buffers d)) c).
    specialize (IH (type_key d (key_of c)) Hd1 Ht). rewrite Hb2 in IH. cbn [kb_allowed kb_input kb_line] in IH.
    rewrite zlen_app in IH. change (zlen [c]) with 1 in IH. destruct IH as [IH1 IH2]; [done|lia|lia|].
    split; [done|]. by rewrite IH2, <- app_assoc.
Qed.

Lemma edited_length text : zlen (edited text) <= zlen text.
Proof.
  assert (forall l, zlen (foldl edit l text) <= zlen l + zlen text) as Hlen.
  { induction text as [|c text IH]; intros l; cbn [foldl]; [rewrite zlen_nil; lia|].
    rewrite zlen_cons. pose proof (IH (edit l c)). pose proof (edit_length l c). lia. }
  exact (Hlen []).
Qed.

(** The buffers after typing a text on a fresh keyboard. *)
Lemma typed_buffers text : Forall (fun c => c ∈ typeable) text -> zlen text <= 256 ->
  kd_buffers (type_keys driver_new (key_of <$> text)) = mkKeyboard true text (edited text).
Proof. intros Ht Hl. by destruct (type_text text driver_new) as [_ ->]. Qed.

(** Typed text arrives.  When the keys of up to 256 characters are pressed and
    released one after the other, each with shift where it needs it, programs that read
    characters get exactly those characters and then none, and the line buffer delivers
    the text as edited with its backspaces. *)
Theorem typed_text_read (text : list Z) : Forall (fun c => c ∈ typeable) text -> zlen text <= 256 ->
  let k := kd_buffers (type_keys driver_new (key_of <$> text)) in
  (read_chars (length text + 1) k).1 = (Some <$> text) ++ [None]
  /\ (drain_line_buffer k 256).1 = edited text.
Proof.
  intros Ht Hl. cbv zeta. rewrite typed_buffers by done. split; [apply read_chars_spec|].
  unfold drain_line_buffer. cbn [kb_allowed kb_line kb_input fst]. pose proof (edited_length text).
  apply take_ge. unfold zlen in *. lia.
Qed.

Lemma typed_text_read_witness :
  let text := ascii_codes "Hi, ~you" ++ [8; 8] ++ ascii_codes "U!" ++ [10] in
  (drain_line_buffer (kd_buffers (type_keys driver_new (key_of <$> text))) 256).1 = edited text.
Proof.
  apply typed_text_read.
  - apply (bool_decide_unpack _). vm_compute. exact I.
  - vm_compute. discriminate.
Defined.

(** ** Departures *)

(** The keys with the extended prefix other than the modifiers give no character: the
    enter and the slash of the keypad are ignored. *)
Example keypad_enter_ignored :
  let d := foldl (fun d b => handle_keyboard_scancode b d) driver_new [0xE0; 0x1C; 0xE0; 0x9C] in
  kb_input (kd_buffers d) = [] /\ key_char (mkKey 0x1C false) = Some 10.
Proof. by vm_compute. Qed.

(** A held key is repeated by the driver after half a second, beside the repetition the
    keyboard itself sends as further presses, which start the wait again. *)
Example held_key_repeats :
  let d := process_key_repeat (keyboard_tick 500 (handle_keyboard_scancode 0x1E driver_new)) in
  let d' := process_key_repeat (keyboard_tick 500 (handle_keyboard_scancode 0x1E (keyboard_tick 100 (handle_keyboard_scancode 0x1E driver_new)))) in
  kb_input (kd_buffers d) = [97; 97] /\ kb_input (kd_buffers d') = [97; 97].
Proof. by vm_compute. Qed.

(** Every character goes to both buffers, and taking it from one leaves it in the other: a
    line that one program has read character by character is still there for the next. *)
Example text_delivered_twice :
  let k := kd_buffers (type_keys driver_new (key_of <$> ascii_codes "ls")) in
  let '(cs, k') := read_chars 2 k in
  cs = Some <$> ascii_codes "ls" /\ (drain_line_buffer k' 256).1 = ascii_codes "ls".
Proof. by vm_compute. Qed.
