(* ===== verification/LinuxFiles.v ===== *)
(** * LinuxFiles: the Linux file calls

    [fullerene-kernel/src/linux/fs.rs], with the descriptor table, the error numbers and
    the user copies of [linux/runtime.rs], and the mode bits and records of
    [linux/types.rs]; standard input reads the buffers of [Keyboard].

    A call runs in a small monad over the state it can touch: the process's descriptor
    table, the VFS context of [VfsContext] (over any file system), the user memory of
    [UserMemory], the keyboard buffers and the serial port.  [Err code] is an early
    [return code], [Panic] a panic of the kernel.

    Every call keeps the invariants of the VFS and of the table, never changes the page
    tables, and writes only user memory the program may write ([file_calls_safe]).
    The departures at the end show where the calls differ from what they mean to do. *)

From S2P Require Import Prelude PageTable Rings UserMemory Keyboard.
From S2P Require Import Block Path FileSystem MemFs Vfs VfsContext LinuxMemory.

(** ** Numbers: [linux/numbers.rs], [linux/types.rs] *)

Definition ENOENT : Z := 2.
Definition EIO : Z := 5.
Definition E2BIG : Z := 7.
Definition EBADF : Z := 9.
Definition EACCES : Z := 13.
Definition EFAULT : Z := 14.
Definition EEXIST : Z := 17.
Definition ENOTDIR : Z := 20.
Definition EISDIR : Z := 21.
Definition ENOTTY : Z := 25.
Definition ENOSPC : Z := 28.
Definition ESPIPE : Z := 29.
Definition ERANGE : Z := 34.
Definition ENOTEMPTY : Z := 39.
Definition ENOTSUP : Z := 95.

Definition O_RDONLY : Z := 0.
Definition O_WRONLY : Z := 1.
Definition O_RDWR : Z := 2.
Definition O_CREAT : Z := 0x40.
Definition O_TRUNC : Z := 0x200.
Definition O_APPEND : Z := 0x400.

Definition F_DUPFD : Z := 0.
Definition F_GETFD : Z := 1.
Definition F_SETFD : Z := 2.
Definition F_GETFL : Z := 3.
Definition F_SETFL : Z := 4.
Definition TCGETS : Z := 0x5401.
Definition TIOCGWINSZ : Z := 0x5413.
Definition TIOCSPGRP : Z := 0x5410.
Definition TIOCGPGRP : Z := 0x540F.
Definition FIONREAD : Z := 0x541B.
Definition DT_DIR : Z := 4.
Definition DT_REG : Z := 8.
(** [S_IFREG | 0o644], [S_IFDIR | 0o755] and [S_IFCHR | 0o666]. *)
Definition S_IFREG : Z := 0x8000.
Definition S_IFDIR : Z := 0x4000.
Definition S_IFCHR : Z := 0x2000.
Definition mode_from_type (is_dir : bool) : Z :=
  if is_dir then Z.lor S_IFDIR 0x1ed else Z.lor S_IFREG 0x1a4.

(** [LinuxErrno::from(FsError)], [fs_errno_result]. *)
Definition fs_errno (e : FsError) : Z :=
  match e with
  | FileNotFound => ENOENT
  | FileExists => EEXIST
  | PermissionDenied => EACCES
  | InvalidFileDescriptor => EBADF
  | InvalidSeek | InvalidPath | InvalidInput => EINVAL
  | DiskFull => ENOSPC
  | NotADirectory => ENOTDIR
  | DirectoryNotEmpty => ENOTEMPTY
  | IsADirectory => EISDIR
  | NotSupported => ENOTSUP
  | UnexpectedEof => EIO
  | Io => EIO
  end.
Definition fs_errno_result (e : FsError) : Z := errno_code (fs_errno e).

(** ** User copies: [linux/runtime.rs] *)

Definition linux_user_copy_error (e : UserCopyError) : Z :=
  match e with
  | System MemOutOfMemory => ENOMEM
  | InvalidUtf8 | MissingNul => EINVAL
  | System _ => EFAULT
  end.

(** [map_err(linux_user_copy_error)]. *)
Definition map_copy_err {A} (r : result UserCopyError A) : result Z A :=
  match r with Ok a => Ok a | Err e => Err (linux_user_copy_error e) | Panic => Panic end.

Definition copy_user_string (s : UserSpace) (ptr max_len : Z) : result Z (list Z) :=
  map_copy_err (copy_c_string s ptr max_len).

Definition MAX_USER_COPY : Z := 64 * 1024.
Definition checked_user_copy_len (count : Z) : result Z Z :=
  if MAX_USER_COPY <? count then Err E2BIG else Ok count.

Definition copy_from_user (s : UserSpace) (buf count : Z) : result Z (list Z) :=
  if buf =? 0 then Err EFAULT else
  let? len := checked_user_copy_len count in
  map_copy_err (copy_bytes_from_user s buf len).

Definition copy_to_user (s : UserSpace) (buf : Z) (data : list Z) : result Z unit * UserSpace :=
  if buf =? 0 then (Err EFAULT, s) else
  let '(r, s') := copy_bytes_to_user s buf data in (map_copy_err r, s').

(** [copy_val_to_user], the value given by its bytes. *)
Definition copy_val_to_user (s : UserSpace) (buf : Z) (value : list Z) : result Z unit * UserSpace :=
  if buf =? 0 then (Err EFAULT, s) else
  let '(r, s') := copy_value_to_user s buf value in (map_copy_err r, s').

(** The bytes of an integer field of [n] bytes. *)
Fixpoint le_bytes (n : nat) (x : Z) : list Z :=
  match n with O => [] | S n' => x mod 256 :: le_bytes n' (x / 256) end.
Fixpoint le_value (l : list Z) : Z :=
  match l with [] => 0 | b :: rest => b mod 256 + 256 * le_value rest end.

(** [LinuxStat]: the fields the calls set, the others zero. *)
Definition stat_bytes (ino nlink mode rdev size blksize blocks : Z) : list Z :=
  le_bytes 8 0 ++ le_bytes 8 ino ++ le_bytes 8 nlink ++ le_bytes 4 mode ++ le_bytes 4 0
  ++ le_bytes 4 0 ++ le_bytes 4 0 ++ le_bytes 8 rdev ++ le_bytes 8 size ++ le_bytes 8 blksize
  ++ le_bytes 8 blocks ++ replicate 72 0.

(** [LinuxDirent64]: the five bytes of padding after the name hold [pad]. *)
Definition DIRENT_SIZE : Z := 280.
Definition dirent_bytes (pad : list Z) (off typ : Z) (name : list Z) : list Z :=
  let name_len := Z.min (zlen name) 255 in
  le_bytes 8 1 ++ le_bytes 8 off ++ le_bytes 2 DIRENT_SIZE ++ le_bytes 1 typ
  ++ zslice name 0 name_len ++ replicate (Z.to_nat (256 - name_len)) 0 ++ pad.

(** ** The descriptor table: [linux/runtime.rs] *)

Record LinuxFileDesc : Type := mkDesc {
  ld_vfs_fd : Z;
  ld_mount_index : Z;
  ld_flags : Z;
  ld_offset : Z;
  ld_dir_path : option path
}.
Record LinuxFdTable : Type := mkFdTable {
  ft_entries : gmap Z LinuxFileDesc;
  ft_next_fd : Z
}.
Definition fdtable_new : LinuxFdTable := mkFdTable ∅ 3.

(** [alloc]: [next_fd += 1] overflows after [i32::MAX]. *)
Definition fdtable_alloc (t : LinuxFdTable) (vfs_fd mount_index flags : Z)
    : result unit Z * LinuxFdTable :=
  let fd := ft_next_fd t in
  if 2 ^ 31 - 1 <? fd + 1 then (Panic, t)
  else (Ok fd, mkFdTable (<[fd := mkDesc vfs_fd mount_index flags 0 None]> (ft_entries t)) (fd + 1)).
Definition fdtable_get (t : LinuxFdTable) (fd : Z) : option LinuxFileDesc := ft_entries t !! fd.
(** [if let Some(d) = get_mut(fd) { *d = f d }]. *)
Definition fdtable_update (t : LinuxFdTable) (fd : Z) (f : LinuxFileDesc -> LinuxFileDesc)
    : LinuxFdTable := mkFdTable (alter f fd (ft_entries t)) (ft_next_fd t).
Definition fdtable_remove (t : LinuxFdTable) (fd : Z) : LinuxFdTable :=
  mkFdTable (delete fd (ft_entries t)) (ft_next_fd t).
Definition fdtable_contains (t : LinuxFdTable) (fd : Z) : bool := bool_decide (is_Some (ft_entries t !! fd)).
Definition fdtable_insert (t : LinuxFdTable) (fd : Z) (d : LinuxFileDesc) : LinuxFdTable :=
  mkFdTable (<[fd := d]> (ft_entries t)) (ft_next_fd t).

Definition with_offset (o : Z) (d : LinuxFileDesc) : LinuxFileDesc :=
  mkDesc (ld_vfs_fd d) (ld_mount_index d) (ld_flags d) o (ld_dir_path d).
Definition with_dir_path (p : path) (d : LinuxFileDesc) : LinuxFileDesc :=
  mkDesc (ld_vfs_fd d) (ld_mount_index d) (ld_flags d) (ld_offset d) (Some p).
Definition with_flags (f : Z) (d : LinuxFileDesc) : LinuxFileDesc :=
  mkDesc (ld_vfs_fd d) (ld_mount_index d) f (ld_offset d) (ld_dir_path d).

Definition is_std_fd (fd : Z) : bool := (0 <=? fd) && (fd <=? 2).

(** Strings of the user's bytes. *)
Definition path_of_bytes (l : list Z) : path := (fun b => Ascii.ascii_of_N (Z.to_N b)) <$> l.
Definition bytes_of_path (p : path) : list Z := (fun c => Z.of_N (Ascii.N_of_ascii c)) <$> p.

(** ** The state of a call *)

Record Lx (F : Type) : Type := mkLx {
  lx_fds : LinuxFdTable;
  lx_vfs : VfsContext F;
  lx_user : UserSpace;
  lx_kbd : Keyboard;
  lx_serial : list Z
}.
Arguments mkLx {F} _ _ _ _ _.
Arguments lx_fds {F} _.
Arguments lx_vfs {F} _.
Arguments lx_user {F} _.
Arguments lx_kbd {F} _.
Arguments lx_serial {F} _.

Section Calls.
Context {F : Type} `{FileSystem F}.

Definition set_fds (s : Lx F) t : Lx F := mkLx t (lx_vfs s) (lx_user s) (lx_kbd s) (lx_serial s).
Definition set_vfs (s : Lx F) c : Lx F := mkLx (lx_fds s) c (lx_user s) (lx_kbd s) (lx_serial s).
Definition set_user (s : Lx F) u : Lx F := mkLx (lx_fds s) (lx_vfs s) u (lx_kbd s) (lx_serial s).
Definition set_kbd (s : Lx F) k : Lx F := mkLx (lx_fds s) (lx_vfs s) (lx_user s) k (lx_serial s).
Definition set_serial (s : Lx F) o : Lx F := mkLx (lx_fds s) (lx_vfs s) (lx_user s) (lx_kbd s) o.

(** A computation; [Err code] returns [code] from the call. *)
Definition M (A : Type) : Type := Lx F -> result Z A * Lx F.
Definition ret {A} (a : A) : M A := fun s => (Ok a, s).
Definition stop {A} (code : Z) : M A := fun s => (Err code, s).
Definition panic {A} : M A := fun s => (Panic, s).
Definition bind {A B} (m : M A) (k : A -> M B) : M B := fun s =>
  match m s with
  | (Ok a, s') => k a s'
  | (Err e, s') => (Err e, s')
  | (Panic, s') => (Panic, s')
  end.

(** The call's value, early returns included. *)
Definition run_call (m : M Z) (s : Lx F) : result unit Z * Lx F :=
  match m s with
  | (Ok v, s') | (Err v, s') => (Ok v, s')
  | (Panic, s') => (Panic, s')
  end.
End Calls.

Declare Scope call_scope.
Delimit Scope call_scope with call.
Notation "'do' x '<-' e ; k" := (bind e (fun x => k))
  (at level 10, x pattern, e at level 100, k at level 200) : call_scope.
Local Open Scope call_scope.

Section Ops.
Context {F : Type} `{FileSystem F}.

(** Parts of the state, updated in place. *)
Definition get_desc (fd : Z) : M (F := F) (option LinuxFileDesc) :=
  fun s => (Ok (fdtable_get (lx_fds s) fd), s).
Definition update_desc (fd : Z) (f : LinuxFileDesc -> LinuxFileDesc) : M (F := F) unit :=
  fun s => (Ok tt, set_fds s (fdtable_update (lx_fds s) fd f)).
Definition alloc_desc (vfs_fd mount_index flags : Z) : M (F := F) Z := fun s =>
  match fdtable_alloc (lx_fds s) vfs_fd mount_index flags with
  | (Ok fd, t) => (Ok fd, set_fds s t)
  | (_, t) => (Panic, set_fds s t)
  end.
Definition remove_desc (fd : Z) : M (F := F) unit :=
  fun s => (Ok tt, set_fds s (fdtable_remove (lx_fds s) fd)).
Definition insert_desc (fd : Z) (d : LinuxFileDesc) : M (F := F) unit :=
  fun s => (Ok tt, set_fds s (fdtable_insert (lx_fds s) fd d)).

(** [d.offset += n] on the descriptor, when it is there. *)
Definition advance (fd n : Z) : M (F := F) unit := fun s =>
  match fdtable_get (lx_fds s) fd with
  | Some d =>
      if u64_max <? ld_offset d + n then (Panic, s)
      else update_desc fd (with_offset (ld_offset d + n)) s
  | None => (Ok tt, s)
  end.

(** The VFS functions of [contexts/vfs.rs], with the kernel context set up. *)
Definition vfs_call {A} (op : VfsContext F -> result FsError A * VfsContext F)
    : M (F := F) (result FsError A) := fun s =>
  let '(r, c) := op (lx_vfs s) in
  (match r with Panic => Panic | _ => Ok r end, set_vfs s c).
Definition v_open (p : path) : M (F := F) (result FsError FileDescriptor) :=
  vfs_call (fun c => let '(o, c') := ctx_open c p 0 in (ok_or o FileNotFound, c')).
Definition v_create (p : path) := vfs_call (fun c => ctx_create c p).
Definition v_close (fd : Z) := vfs_call (fun c => ctx_close c fd).
Definition v_write (fd : Z) (data : list Z) := vfs_call (fun c => ctx_write c fd data).
Definition v_unlink (p : path) := vfs_call (fun c => ctx_unlink c p).
Definition v_mkdir (p : path) := vfs_call (fun c => ctx_mkdir c p).
Definition v_readdir (p : path) := vfs_call (fun c => ctx_readdir c p).
Definition v_chdir (p : path) := vfs_call (fun c => ctx_change_directory c p).
(** [read] into a zeroed buffer of [n] bytes: the count and the buffer. *)
Definition v_read (fd n : Z) : M (F := F) (result FsError (Z * list Z)) :=
  vfs_call (fun c => let '(r, buf, c') := ctx_read c fd (replicate (Z.to_nat n) 0) in
                     (let? k := r in Ok (k, buf), c')).
Definition v_exists (p : path) : M (F := F) bool := fun s =>
  let '(b, c) := ctx_exists (lx_vfs s) p in (Ok b, set_vfs s c).

(** User copies. *)
Definition user_string (ptr : Z) : M (F := F) path := fun s =>
  match copy_user_string (lx_user s) ptr 256 with
  | Ok bytes => (Ok (path_of_bytes bytes), s)
  | Err e => (Err (errno_code e), s)
  | Panic => (Panic, s)
  end.
Definition from_user (buf count : Z) : M (F := F) (result Z (list Z)) :=
  fun s => (Ok (copy_from_user (lx_user s) buf count), s).
Definition to_user (buf : Z) (data : list Z) : M (F := F) (result Z unit) := fun s =>
  let '(r, u) := copy_to_user (lx_user s) buf data in (Ok r, set_user s u).
Definition val_to_user (buf : Z) (value : list Z) : M (F := F) (result Z unit) := fun s =>
  let '(r, u) := copy_val_to_user (lx_user s) buf value in (Ok r, set_user s u).

Definition kbd_read_char : M (F := F) (option Z) := fun s =>
  let '(c, k) := read_char (lx_kbd s) in (Ok c, set_kbd s k).
Definition kbd_drain (n : Z) : M (F := F) (list Z) := fun s =>
  let '(l, k) := drain_line_buffer (lx_kbd s) n in (Ok l, set_kbd s k).
Definition serial_out (data : list Z) : M (F := F) unit :=
  fun s => (Ok tt, set_serial s (lx_serial s ++ data)).

Definition is_ok {E A} (r : result E A) : bool := match r with Ok _ => true | _ => false end.
Definition to_u64 (x : Z) : Z := x mod 2 ^ 64.

(** ** The calls: [linux/fs.rs] *)

(** Standard input. *)
Definition read_stdin (buf count : Z) : M (F := F) Z :=
  if buf =? 0 then ret (errno_code EFAULT)
  else if count =? 1 then
    do ch <- kbd_read_char;
    match ch with
    | Some c => do w <- to_user buf [c]; ret (if is_ok w then 1 else errno_code EFAULT)
    | None => ret 0
    end
  else
    do bytes <- kbd_drain (Z.min count 512);
    if 0 <? zlen bytes then
      do w <- to_user buf bytes; ret (if is_ok w then zlen bytes else errno_code EFAULT)
    else ret 0.

Definition sys_read (a0 buf count : Z) : M (F := F) Z :=
  let fd := as_i32 a0 in
  if count =? 0 then ret 0
  else if fd =? 0 then read_stdin buf count
  else if (fd =? 1) || (fd =? 2) then ret (errno_code EBADF)
  else
    do od <- get_desc fd;
    match od with
    | None => ret (errno_code EBADF)
    | Some desc =>
        let limit := Z.min count 65536 in
        do r <- v_read (ld_vfs_fd desc) limit;
        match r with
        | Ok (n, kernel_buf) =>
            if 0 <? n then
              if limit <? n then panic
              else
                do w <- to_user buf (zslice kernel_buf 0 n);
                if is_ok w then do _ <- advance fd n; ret n else ret (errno_code EFAULT)
            else ret (errno_code EFAULT)
        | Err e => ret (fs_errno_result e)
        | Panic => panic
        end
    end.

Definition sys_write (a0 buf count : Z) : M (F := F) Z :=
  let fd := as_i32 a0 in
  if count =? 0 then ret 0
  else if (fd =? 1) || (fd =? 2) then
    do d <- from_user buf (Z.min count 4096);
    match d with
    | Ok data => do _ <- serial_out data; ret (zlen data)
    | _ => ret (errno_code EFAULT)
    end
  else if fd =? 0 then ret (errno_code EBADF)
  else
    do od <- get_desc fd;
    match od with
    | None => ret (errno_code EBADF)
    | Some desc =>
        do d <- from_user buf (Z.min count 65536);
        match d with
        | Ok data =>
            do r <- v_write (ld_vfs_fd desc) data;
            match r with
            | Ok n => do _ <- advance fd n; ret n
            | Err e => ret (fs_errno_result e)
            | Panic => panic
            end
        | _ => ret (errno_code EFAULT)
        end
    end.

(** The path kept for [getdents64]. *)
Definition dir_path_of (p : path) : path :=
  let trimmed := trim_end p in match trimmed with [] => P "/" | _ => trimmed end.

(** [alloc_ret] of [open_common], and the tail of its read-only branch. *)
Definition alloc_ret (d : FileDescriptor) (p : path) (flags : Z) : M (F := F) Z :=
  do fd <- alloc_desc (fd_fd d) 0 flags;
  do _ <- update_desc fd (with_dir_path (dir_path_of p));
  ret (to_u64 fd).

Definition open_common (p : path) (flags : Z) : M (F := F) Z :=
  let read_only := Z.land flags 3 =? O_RDONLY in
  let write_only := Z.land flags 3 =? O_WRONLY in
  let read_write := Z.land flags 3 =? O_RDWR in
  let create := negb (Z.land flags O_CREAT =? 0) in
  let truncate := negb (Z.land flags O_TRUNC =? 0) in
  let append := negb (Z.land flags O_APPEND =? 0) in
  if create || truncate || write_only || read_write || append then
    if create then
      do r <- v_create p;
      match r with
      | Ok d => alloc_ret d p flags
      | Err e =>
          if truncate && (write_only || read_write) then
            do _ <- v_unlink p;
            do r2 <- v_create p;
            match r2 with
            | Ok d => alloc_ret d p flags
            | Err e2 => ret (fs_errno_result e2)
            | Panic => panic
            end
          else
            do o <- v_open p;
            match o with Ok d => alloc_ret d p flags | _ => ret (fs_errno_result e) end
      | Panic => panic
      end
    else
      do o <- v_open p;
      match o with Ok d => alloc_ret d p flags | _ => ret (errno_code ENOENT) end
  else if read_only then
    do o <- v_open p;
    match o with
    | Ok d => alloc_ret d p flags
    | Err e => ret (fs_errno_result e)
    | Panic => panic
    end
  else ret (errno_code EINVAL).

Definition sys_open (path_ptr a1 : Z) : M (F := F) Z :=
  do p <- user_string path_ptr; open_common p (as_i32 a1).
Definition sys_openat (path_ptr a2 : Z) : M (F := F) Z :=
  do p <- user_string path_ptr; open_common p (as_i32 a2).

Definition sys_creat (path_ptr : Z) : M (F := F) Z :=
  do p <- user_string path_ptr;
  do r <- v_create p;
  match r with
  | Ok d => do fd <- alloc_desc (fd_fd d) 0 (Z.lor (Z.lor O_WRONLY O_CREAT) O_TRUNC); ret (to_u64 fd)
  | Err e => ret (fs_errno_result e)
  | Panic => panic
  end.

Definition sys_close (a0 : Z) : M (F := F) Z :=
  let fd := as_i32 a0 in
  if is_std_fd fd then ret 0
  else
    do od <- get_desc fd;
    match od with
    | Some desc => do _ <- remove_desc fd; do _ <- v_close (ld_vfs_fd desc); ret 0
    | None => ret (errno_code EBADF)
    end.

(** The loop that counts the bytes left to read, 512 at a time; it ends at the first
    empty read or error.  [fuel] bounds its rounds. *)
Fixpoint count_loop (fuel : nat) (vfs_fd total : Z) : M (F := F) Z :=
  match fuel with
  | O => panic
  | S fuel' =>
      do r <- v_read vfs_fd 512;
      match r with
      | Ok (n, _) => if n =? 0 then ret total else count_loop fuel' vfs_fd (total + n)
      | Err _ => ret total
      | Panic => panic
      end
  end.

Definition fill_stat_from_path (fuel : nat) (p : path) (statbuf : Z) : M (F := F) (result Z unit) :=
  do o <- v_open p;
  match o with
  | Ok d =>
      do rd <- v_readdir p;
      let is_dir := is_ok rd in
      do size <- (if is_dir then ret 0 else count_loop fuel (fd_fd d) 0);
      do _ <- v_close (fd_fd d);
      do _ <- val_to_user statbuf
               (stat_bytes (fd_fd d) 1 (mode_from_type is_dir) 0 size 4096 ((size + 511) / 512));
      ret (Ok tt)
  | _ => ret (Err ENOENT)
  end.

Definition sys_stat (fuel : nat) (path_ptr statbuf : Z) : M (F := F) Z :=
  do p <- user_string path_ptr;
  do r <- fill_stat_from_path fuel p statbuf;
  match r with Ok _ => ret 0 | Err e => ret (errno_code e) | Panic => panic end.
Definition sys_newfstatat (fuel : nat) (path_ptr statbuf : Z) : M (F := F) Z :=
  do p <- user_string path_ptr;
  do r <- fill_stat_from_path fuel p statbuf;
  match r with Ok _ => ret 0 | Err e => ret (errno_code e) | Panic => panic end.

Definition sys_fstat (fuel : nat) (a0 statbuf : Z) : M (F := F) Z :=
  let fd := as_i32 a0 in
  if is_std_fd fd then
    do _ <- val_to_user statbuf (stat_bytes fd 1 (Z.lor S_IFCHR 0x1b6) 0x8803 0 4096 0); ret 0
  else
    do od <- get_desc fd;
    match od with
    | None => ret (errno_code EBADF)
    | Some desc =>
        do size <- count_loop fuel (ld_vfs_fd desc) 0;
        do _ <- val_to_user statbuf
                 (stat_bytes (ld_vfs_fd desc) 1 (Z.lor S_IFREG 0x1a4) 0 size 4096 ((size + 511) / 512));
        ret 0
    end.

Definition sys_lseek (a0 a1 a2 : Z) : M (F := F) Z :=
  let fd := as_i32 a0 in
  let offset := as_i64 a1 in
  let whence := as_i32 a2 in
  if is_std_fd fd then ret (errno_code ESPIPE)
  else
    do od <- get_desc fd;
    match od with
    | None => ret (errno_code EBADF)
    | Some desc =>
        do new_offset <-
          (if whence =? 0 then ret offset
           else if whence =? 1 then
             let v := as_i64 (ld_offset desc) + offset in
             if (v <? - 2 ^ 63) || (2 ^ 63 - 1 <? v) then panic else ret v
           else if whence =? 2 then ret (- EINVAL)
           else stop (errno_code EINVAL));
        if new_offset <? 0 then ret (errno_code EINVAL)
        else do _ <- update_desc fd (with_offset new_offset); ret new_offset
    end.

(** [pread64] and [pwrite64]: [transfer] between setting and restoring the offset. *)
Definition at_offset (a0 a3 : Z) (transfer : M (F := F) Z) : M (F := F) Z :=
  let fd := as_i32 a0 in
  let offset := as_i64 a3 in
  if offset <? 0 then ret (errno_code EINVAL)
  else
    do od <- get_desc fd;
    match od with
    | None => ret (errno_code EBADF)
    | Some desc =>
        do _ <- update_desc fd (with_offset offset);
        do result <- transfer;
        do _ <- update_desc fd (with_offset (ld_offset desc));
        ret result
    end.
Definition sys_pread64 (a0 buf count a3 : Z) : M (F := F) Z :=
  at_offset a0 a3 (sys_read (to_u64 (as_i32 a0)) buf count).
Definition sys_pwrite64 (a0 buf count a3 : Z) : M (F := F) Z :=
  at_offset a0 a3 (sys_write (to_u64 (as_i32 a0)) buf count).

(** The loops of [readv] and [writev], at vector [i] with [n] to go. *)
Fixpoint iov_loop (transfer : Z -> Z -> M (F := F) Z) (stop_short : bool) (n : nat) (i iov total : Z)
    : M (F := F) Z :=
  match n with
  | O => ret total
  | S n' =>
      if u64_max <? iov + i * 16 then panic else
      do d <- from_user (iov + i * 16) 16;
      match d with
      | Ok data =>
          let iov_base := le_value (zslice data 0 8) in
          let iov_len := le_value (zslice data 8 8) in
          if iov_base =? 0 then iov_loop transfer stop_short n' (i + 1) iov total
          else
            do k <- transfer iov_base iov_len;
            if as_i64 k <? 0 then (if 0 <? total then ret total else ret k)
            else if u64_max <? total + k then panic
            else if stop_short && (k <? iov_len) then ret (total + k)
            else iov_loop transfer stop_short n' (i + 1) iov (total + k)
      | _ => ret (if 0 <? total then total else errno_code EFAULT)
      end
  end.
Definition sys_readv (a0 iov iovcnt : Z) : M (F := F) Z :=
  iov_loop (sys_read (to_u64 (as_i32 a0))) true (Z.to_nat iovcnt) 0 iov 0.
Definition sys_writev (a0 iov iovcnt : Z) : M (F := F) Z :=
  iov_loop (sys_write (to_u64 (as_i32 a0))) false (Z.to_nat iovcnt) 0 iov 0.

Definition sys_access (path_ptr : Z) : M (F := F) Z :=
  do p <- user_string path_ptr;
  do b <- v_exists p; ret (if b : bool then 0 else errno_code ENOENT).
Definition sys_faccessat (path_ptr : Z) : M (F := F) Z :=
  do p <- user_string path_ptr;
  do b <- v_exists p; ret (if b : bool then 0 else errno_code ENOENT).

(** The entries of [getdents64] from index [i] on: the bytes written and the next index. *)
Fixpoint dents_loop (pad : list Z) (buf count : Z) (entries : list VNode) (i written : Z)
    : M (F := F) (Z * Z) :=
  match entries with
  | [] => ret (written, i)
  | entry :: rest =>
      if 2 ^ 32 - 1 <? written + DIRENT_SIZE then panic
      else if count <? written + DIRENT_SIZE then ret (written, i)
      else if u64_max <? buf + written then panic
      else
        do w <- val_to_user (buf + written)
                 (dirent_bytes pad (i + 1) (if vn_is_dir entry then DT_DIR else DT_REG)
                    (bytes_of_path (vn_name entry)));
        if is_ok w then dents_loop pad buf count rest (i + 1) (written + DIRENT_SIZE)
        else stop (errno_code EFAULT)
  end.

Definition sys_getdents64 (pad : list Z) (a0 buf a2 : Z) : M (F := F) Z :=
  let fd := as_i32 a0 in
  let count := a2 mod 2 ^ 32 in
  if is_std_fd fd then ret (errno_code ENOTDIR)
  else
    do od <- get_desc fd;
    match od with
    | None => ret (errno_code EBADF)
    | Some d =>
        match ld_dir_path d with
        | None => ret (errno_code ENOTDIR)
        | Some dir_path =>
            let start_idx := ld_offset d in
            do r <- v_readdir dir_path;
            match r with
            | Ok entries =>
                do wr <- dents_loop pad buf count (drop (Z.to_nat start_idx) entries) start_idx 0;
                let '(written, reached) := wr in
                do _ <- update_desc fd (with_offset reached);
                if (written =? 0) && (start_idx <? zlen entries) then ret (errno_code EINVAL)
                else ret written
            | _ => ret (errno_code ENOTDIR)
            end
        end
    end.

Definition sys_readlink : M (F := F) Z := ret (errno_code EINVAL).
Definition sys_readlinkat : M (F := F) Z := ret (errno_code EINVAL).

(** [Ok(_) => 0, Err(e) => fs_errno_result(&e)]. *)
Definition unit_result (r : result FsError unit) : M (F := F) Z :=
  match r with Ok _ => ret 0 | Err e => ret (fs_errno_result e) | Panic => panic end.

Definition sys_unlink (path_ptr : Z) : M (F := F) Z :=
  do p <- user_string path_ptr; do r <- v_unlink p; unit_result r.
Definition sys_unlinkat (path_ptr : Z) : M (F := F) Z :=
  do p <- user_string path_ptr; do r <- v_unlink p; unit_result r.
Definition sys_mkdir (path_ptr : Z) : M (F := F) Z :=
  do p <- user_string path_ptr; do r <- v_mkdir p; unit_result r.
Definition sys_mkdirat (path_ptr : Z) : M (F := F) Z :=
  do p <- user_string path_ptr; do r <- v_mkdir p; unit_result r.
Definition sys_rmdir (path_ptr : Z) : M (F := F) Z :=
  do p <- user_string path_ptr; do r <- v_unlink p; unit_result r.
Definition sys_chdir (path_ptr : Z) : M (F := F) Z :=
  do p <- user_string path_ptr; do r <- v_chdir p; unit_result r.

Definition v_cwd : M (F := F) path := fun s => (Ok (wd (cx_inner (lx_vfs s))), s).

Definition sys_getcwd (buf size : Z) : M (F := F) Z :=
  do cwd <- v_cwd;
  let bytes := bytes_of_path cwd in
  if size <? zlen bytes + 1 then ret (errno_code ERANGE)
  else
    do w <- to_user buf bytes;
    if negb (is_ok w) then ret (errno_code EFAULT)
    else
      match u64_checked_add buf (zlen bytes) with
      | None => ret (errno_code EFAULT)
      | Some nul =>
          do w2 <- to_user nul [0];
          if is_ok w2 then ret buf else ret (errno_code EFAULT)
      end.

Definition sys_dup (a0 : Z) : M (F := F) Z :=
  let oldfd := as_i32 a0 in
  if is_std_fd oldfd then ret (to_u64 oldfd)
  else
    do od <- get_desc oldfd;
    match od with
    | None => ret (errno_code EBADF)
    | Some desc =>
        do newfd <- alloc_desc (ld_vfs_fd desc) (ld_mount_index desc) (ld_flags desc);
        ret (to_u64 newfd)
    end.

Definition sys_dup2 (a0 a1 : Z) : M (F := F) Z :=
  let oldfd := as_i32 a0 in
  let newfd := as_i32 a1 in
  if is_std_fd oldfd && is_std_fd newfd then ret (to_u64 newfd)
  else if oldfd =? newfd then ret (to_u64 newfd)
  else
    do od <- get_desc oldfd;
    match od with
    | None => ret (errno_code EBADF)
    | Some desc =>
        do _ <- remove_desc newfd;
        do _ <- insert_desc newfd (mkDesc (ld_vfs_fd desc) (ld_mount_index desc) (ld_flags desc)
                                    (ld_offset desc) (ld_dir_path desc));
        ret (to_u64 newfd)
    end.
Definition sys_dup3 (a0 a1 : Z) : M (F := F) Z :=
  sys_dup2 (to_u64 (as_i32 a0)) (to_u64 (as_i32 a1)).

Definition sys_fcntl (a0 a1 arg : Z) : M (F := F) Z :=
  let fd := as_i32 a0 in
  let cmd := as_i32 a1 in
  if cmd =? F_DUPFD then sys_dup (to_u64 fd)
  else if cmd =? F_GETFD then
    do od <- get_desc fd;
    ret (if is_std_fd fd then 0 else match od with Some _ => 0 | None => errno_code EBADF end)
  else if cmd =? F_SETFD then ret 0
  else if cmd =? F_GETFL then
    do od <- get_desc fd;
    ret (match od with Some d => to_u64 (ld_flags d) | None => 0 end)
  else if cmd =? F_SETFL then
    do od <- get_desc fd;
    match od with
    | Some _ => do _ <- update_desc fd (with_flags (as_i32 arg)); ret 0
    | None => ret (errno_code EBADF)
    end
  else ret 0.

(** [LinuxWinsize] of the console. *)
Definition winsize_bytes : list Z :=
  le_bytes 2 25 ++ le_bytes 2 80 ++ le_bytes 2 800 ++ le_bytes 2 600.

Definition sys_ioctl (a0 request arg : Z) : M (F := F) Z :=
  let fd := as_i32 a0 in
  if (0 <=? fd) && (fd <=? 2) then
    if request =? TCGETS then do _ <- to_user arg (replicate 36 0); ret 0
    else if request =? TIOCGWINSZ then do _ <- val_to_user arg winsize_bytes; ret 0
    else if request =? TIOCGPGRP then
      do w <- val_to_user arg (le_bytes 4 0); ret (if is_ok w then 0 else errno_code EFAULT)
    else if request =? TIOCSPGRP then ret 0
    else if request =? FIONREAD then
      do w <- val_to_user arg (le_bytes 4 0); ret (if is_ok w then 0 else errno_code EFAULT)
    else ret (errno_code ENOTTY)
  else ret (errno_code ENOTTY).

Definition sys_pipe (pipefd : Z) : M (F := F) Z :=
  do read_fd <- alloc_desc 1 0 O_RDONLY;
  do write_fd <- alloc_desc 2 0 O_WRONLY;
  do w <- val_to_user pipefd (le_bytes 4 read_fd ++ le_bytes 4 write_fd);
  if is_ok w then ret 0
  else do _ <- remove_desc read_fd; do _ <- remove_desc write_fd; ret (errno_code EFAULT).
Definition sys_pipe2 (a0 : Z) : M (F := F) Z := sys_pipe a0.

(** [linux_stub_errno!] of the calls not there. *)
Definition stub : M (F := F) Z := ret (errno_code ENOSYS).

(** ** The file part of [LinuxRuntime::dispatch] *)

Inductive file_call : Type :=
  | Read | Write | Open | Close | Stat | Fstat | Lstat | Lseek | Pread64 | Pwrite64 | Readv | Writev
  | Access | Getdents | Getdents64 | Openat | Newfstatat | Faccessat | Readlink | Readlinkat
  | Unlink | Unlinkat | Mkdir | Mkdirat | Rmdir | SymlinkCall | Rename | Chdir | Getcwd | MountCall
  | Umount2 | Dup | Dup2 | Dup3 | Fcntl | Ioctl | Pipe | Pipe2 | Truncate | Ftruncate | Fsync
  | Fdatasync | Chmod | Fchmod | Creat.

Definition dispatch_file (fuel : nat) (pad : list Z) (call : file_call) (args : Z -> Z) : M (F := F) Z :=
  match call with
  | Read => sys_read (args 0) (args 1) (args 2)
  | Write => sys_write (args 0) (args 1) (args 2)
  | Open => sys_open (args 0) (args 1)
  | Close => sys_close (args 0)
  | Stat | Lstat => sys_stat fuel (args 0) (args 1)
  | Fstat => sys_fstat fuel (args 0) (args 1)
  | Lseek => sys_lseek (args 0) (args 1) (args 2)
  | Pread64 => sys_pread64 (args 0) (args 1) (args 2) (args 3)
  | Pwrite64 => sys_pwrite64 (args 0) (args 1) (args 2) (args 3)
  | Readv => sys_readv (args 0) (args 1) (args 2)
  | Writev => sys_writev (args 0) (args 1) (args 2)
  | Access => sys_access (args 0)
  | Getdents | Getdents64 => sys_getdents64 pad (args 0) (args 1) (args 2)
  | Openat => sys_openat (args 1) (args 2)
  | Newfstatat => sys_newfstatat fuel (args 1) (args 2)
  | Faccessat => sys_faccessat (args 1)
  | Readlink => sys_readlink
  | Readlinkat => sys_readlinkat
  | Unlink => sys_unlink (args 0)
  | Unlinkat => sys_unlinkat (args 1)
  | Mkdir => sys_mkdir (args 0)
  | Mkdirat => sys_mkdirat (args 1)
  | Rmdir => sys_rmdir (args 0)
  | Chdir => sys_chdir (args 0)
  | Getcwd => sys_getcwd (args 0) (args 1)
  | Dup => sys_dup (args 0)
  | Dup2 => sys_dup2 (args 0) (args 1)
  | Dup3 => sys_dup3 (args 0) (args 1)
  | Fcntl => sys_fcntl (args 0) (args 1) (args 2)
  | Ioctl => sys_ioctl (args 0) (args 1) (args 2)
  | Pipe => sys_pipe (args 0)
  | Pipe2 => sys_pipe2 (args 0)
  | Creat => sys_creat (args 0)
  | SymlinkCall | Rename | MountCall | Umount2 | Truncate | Ftruncate | Fsync | Fdatasync
  | Chmod | Fchmod => stub
  end.
End Ops.

(** ** What every call keeps *)

Definition fds_ok (t : LinuxFdTable) : Prop :=
  3 <= ft_next_fd t < 2 ^ 31 /\ forall fd, is_Some (ft_entries t !! fd) -> - 2 ^ 31 <= fd < 2 ^ 31.

(** User code may write [x]. *)
Definition user_writable (u : UserSpace) (x : Z) : Prop :=
  x < 2 ^ 47 /\ check_page (us_tables u) (us_root u) x true = Ok tt.

Record lx_keeps {F} `{FileSystem F} (s s' : Lx F) : Prop := {
  lk_vfs : ctx_inv (lx_vfs s) -> ctx_inv (lx_vfs s');
  lk_fds : fds_ok (lx_fds s) -> fds_ok (lx_fds s');
  lk_tables : us_tables (lx_user s') = us_tables (lx_user s);
  lk_root : us_root (lx_user s') = us_root (lx_user s);
  lk_bytes x : ~ user_writable (lx_user s) x -> user_byte (lx_user s') x = user_byte (lx_user s) x
}.

Create HintDb keeps.

Section Keeps.
Context {F : Type} `{FileSystem F}.

Lemma ctx_inv_exists (c : VfsContext F) p : ctx_inv c -> ctx_inv (ctx_exists c p).2.
Proof.
  intros Hc. unfold ctx_exists, vfs_exists. destruct (resolve_and_find _ _) as [[i q]|]; [|by destruct c].
  destruct (mounts _ !! i) as [e|]; [|by destruct c]. destruct (fs_exists (me_fs e) q) as [r f].
  apply ctx_inv_inner; [done|by apply vfs_inv_set_fs, Hc|by rewrite set_fs_length].
Qed.

Definition keeps {A} (m : M (F := F) A) : Prop := forall s, lx_keeps s (m s).2.

Lemma lx_keeps_refl (s : Lx F) : lx_keeps s s.
Proof. by split. Qed.

Lemma lx_keeps_trans (s s1 s2 : Lx F) : lx_keeps s s1 -> lx_keeps s1 s2 -> lx_keeps s s2.
Proof.
  intros [V1 D1 T1 R1 B1] [V2 D2 T2 R2 B2]. split; [auto|auto|congruence|congruence|].
  intros x Hx. rewrite B2, B1; [done|done|]. unfold user_writable in *. by rewrite T1, R1.
Qed.

Lemma keeps_ret {A} (a : A) : keeps (ret a).
Proof. intros s. apply lx_keeps_refl. Qed.
Lemma keeps_stop {A} code : keeps (stop (A := A) code).
Proof. intros s. apply lx_keeps_refl. Qed.
Lemma keeps_panic {A} : keeps (panic (A := A)).
Proof. intros s. apply lx_keeps_refl. Qed.

Lemma keeps_bind {A B} (m : M A) (k : A -> M B) : keeps m -> (forall a, keeps (k a)) -> keeps (bind m k).
Proof.
  intros Hm Hk s. unfold bind. specialize (Hm s). destruct (m s) as [[a|e|] s']; [|done|done].
  eapply lx_keeps_trans; [exact Hm|apply Hk].
Qed.

Lemma keeps_get_desc fd : keeps (get_desc fd).
Proof. intros s. apply lx_keeps_refl. Qed.

Lemma keeps_fds (s : Lx F) t : (fds_ok (lx_fds s) -> fds_ok t) -> lx_keeps s (set_fds s t).
Proof. intros Ht. by split. Qed.

Lemma keeps_update_desc fd f : keeps (update_desc fd f).
Proof.
  intros s. apply keeps_fds. intros [Hn Hk]. split; [done|]. intros g Hg. apply Hk.
  unfold fdtable_update in Hg. simpl in Hg. by rewrite lookup_alter_is_Some in Hg.
Qed.

Lemma keeps_remove_desc fd : keeps (remove_desc fd).
Proof.
  intros s. apply keeps_fds. intros [Hn Hk]. split; [done|]. intros g [d Hg]. apply Hk.
  simpl in Hg. apply lookup_delete_Some in Hg as [_ Hg]. by eexists.
Qed.

Lemma keeps_insert_desc fd d : - 2 ^ 31 <= fd < 2 ^ 31 -> keeps (insert_desc fd d).
Proof.
  intros Hr s. apply keeps_fds. intros [Hn Hk]. split; [done|]. intros g [e Hg].
  simpl in Hg. apply lookup_insert_Some in Hg as [[<- _]|[_ Hg]]; [done|]. apply Hk. by eexists.
Qed.

Lemma keeps_alloc_desc vfs_fd i flags : keeps (alloc_desc vfs_fd i flags).
Proof.
  intros s. unfold alloc_desc, fdtable_alloc. destruct (Z.ltb_spec (2 ^ 31 - 1) (ft_next_fd (lx_fds s) + 1)).
  { by apply keeps_fds. }
  apply keeps_fds. intros [Hn Hk]. split; simpl; [lia|]. intros g [e Hg].
  apply lookup_insert_Some in Hg as [[<- _]|[_ Hg]]; [lia|]. apply Hk. by eexists.
Qed.

Lemma keeps_advance fd n : keeps (advance fd n).
Proof.
  intros s. unfold advance. destruct (fdtable_get _ fd); [|apply lx_keeps_refl].
  destruct (_ <? _); [apply lx_keeps_refl|apply keeps_update_desc].
Qed.

Lemma keeps_vfs_call {A} (op : VfsContext F -> result FsError A * VfsContext F) :
  (forall c, ctx_inv c -> ctx_inv (op c).2) -> keeps (vfs_call op).
Proof.
  intros Hop s. unfold vfs_call. specialize (Hop (lx_vfs s)). destruct (op (lx_vfs s)) as [r c].
  by split.
Qed.

Lemma keeps_v_open p : keeps (v_open p).
Proof.
  apply keeps_vfs_call. intros c Hc. pose proof (ctx_inv_open c p 0 Hc).
  by destruct (ctx_open c p 0).
Qed.
Lemma keeps_v_create p : keeps (v_create p).
Proof. apply keeps_vfs_call. intros c. apply (ctx_inv_step c (CCreate p)). Qed.
Lemma keeps_v_close fd : keeps (v_close fd).
Proof. apply keeps_vfs_call. intros c. apply (ctx_inv_step c (CClose fd)). Qed.
Lemma keeps_v_write fd data : keeps (v_write fd data).
Proof. apply keeps_vfs_call. intros c. apply (ctx_inv_step c (CWrite fd data)). Qed.
Lemma keeps_v_unlink p : keeps (v_unlink p).
Proof. apply keeps_vfs_call. intros c. apply (ctx_inv_step c (CUnlink p)). Qed.
Lemma keeps_v_mkdir p : keeps (v_mkdir p).
Proof. apply keeps_vfs_call. intros c. apply (ctx_inv_step c (CMkdir p)). Qed.
Lemma keeps_v_readdir p : keeps (v_readdir p).
Proof. apply keeps_vfs_call. intros c. apply (ctx_inv_step c (CReaddir p)). Qed.
Lemma keeps_v_chdir p : keeps (v_chdir p).
Proof. apply keeps_vfs_call. intros c. apply (ctx_inv_step c (CChdir p)). Qed.
Lemma keeps_v_read fd n : keeps (v_read fd n).
Proof.
  apply keeps_vfs_call. intros c Hc. pose proof (ctx_inv_step c (CRead fd (replicate (Z.to_nat n) 0)) Hc).
  simpl in *. by destruct (ctx_read c fd _) as [[r b] c'].
Qed.
Lemma keeps_v_exists p : keeps (v_exists p).
Proof.
  intros s. unfold v_exists. pose proof (ctx_inv_exists (lx_vfs s) p) as Hk.
  destruct (ctx_exists (lx_vfs s) p) as [b c]. by split.
Qed.

Lemma keeps_user_string ptr : keeps (user_string ptr).
Proof. intros s. unfold user_string. destruct (copy_user_string _ _ _); apply lx_keeps_refl. Qed.
Lemma keeps_from_user buf count : keeps (from_user buf count).
Proof. intros s. apply lx_keeps_refl. Qed.
Lemma keeps_v_cwd : keeps v_cwd.
Proof. intros s. apply lx_keeps_refl. Qed.
Lemma keeps_kbd_read_char : keeps kbd_read_char.
Proof. intros s. unfold kbd_read_char. destruct (read_char _). by split. Qed.
Lemma keeps_kbd_drain n : keeps (kbd_drain n).
Proof. intros s. unfold kbd_drain. destruct (drain_line_buffer _ _). by split. Qed.
Lemma keeps_serial_out data : keeps (serial_out data).
Proof. intros s. by split. Qed.

(** A validated write changes only memory the program may write. *)
Lemma put_user_keeps (s : Lx F) buf data : 0 <= buf <= u64_max ->
  validate_user_range (us_tables (lx_user s)) (us_root (lx_user s)) buf (zlen data) true = Ok tt ->
  lx_keeps s (set_user s (with_bytes (lx_user s) (put_bytes (us_bytes (lx_user s)) buf data))).
Proof.
  intros Hb Hv. split; try done. intros x Hx. cbn [lx_user set_user]. rewrite user_byte_put.
  destruct ((buf <=? x) && (x <? buf + zlen data)) eqn:E; [|done]. destruct Hx.
  apply andb_true_iff in E as [?%Z.leb_le ?%Z.ltb_lt].
  apply (range_validated _ _ buf (zlen data) true); [done|unfold zlen; lia|done|lia].
Qed.

Lemma keeps_to_user buf data : 0 <= buf <= u64_max -> keeps (to_user buf data).
Proof.
  intros Hb s. unfold to_user, copy_to_user. destruct (buf =? 0); [by split|].
  unfold copy_bytes_to_user, user_slice_new.
  destruct (Z.eqb_spec (zlen data) 0) as [E|E]; cbn [lift_system].
  { apply put_user_keeps; [done|]. unfold validate_user_range. by rewrite E. }
  destruct (buf =? 0); [by split|].
  destruct (validate_user_range _ _ _ _ _) as [[]|e|] eqn:Ev; cbn [lift_system]; [|by split..].
  by apply put_user_keeps.
Qed.

Lemma keeps_val_to_user buf value : 0 <= buf <= u64_max -> keeps (val_to_user buf value).
Proof.
  intros Hb s. unfold val_to_user, copy_val_to_user. destruct (buf =? 0) eqn:E0; [by split|].
  unfold copy_value_to_user, user_ptr_new_mut. rewrite E0.
  destruct (validate_user_range _ _ _ _ _) as [[]|e|] eqn:Ev; cbn [lift_system]; [|by split..].
  by apply put_user_keeps.
Qed.
End Keeps.

#[export] Hint Resolve keeps_ret keeps_stop keeps_panic keeps_get_desc keeps_update_desc
  keeps_remove_desc keeps_alloc_desc keeps_advance keeps_v_open keeps_v_create keeps_v_close
  keeps_v_write keeps_v_unlink keeps_v_mkdir keeps_v_readdir keeps_v_chdir keeps_v_read
  keeps_v_exists keeps_user_string keeps_from_user keeps_v_cwd keeps_kbd_read_char keeps_kbd_drain
  keeps_serial_out keeps_to_user keeps_val_to_user : keeps.

(** Walk through a call: its steps one by one, its branches apart. *)
Ltac keep_walk :=
  repeat first
    [ progress eauto with keeps
    | match goal with
      | |- keeps (bind _ _) => apply keeps_bind; [|intros ?]
      | |- keeps (if ?b then _ else _) => destruct b eqn:?
      | |- keeps (match ?x with _ => _ end) => destruct x eqn:?
      end ].

Section CallsKeep.
Context {F : Type} `{FileSystem F}.
Implicit Types buf : Z.
Abbreviation u64 x := (0 <= x <= u64_max).

Lemma keeps_read a0 buf count : u64 buf -> keeps (F := F) (sys_read a0 buf count).
Proof. intros Hb. unfold sys_read, read_stdin. keep_walk. Qed.
Lemma keeps_write a0 buf count : keeps (F := F) (sys_write a0 buf count).
Proof. unfold sys_write. keep_walk. Qed.
Lemma keeps_alloc_ret d p flags : keeps (F := F) (alloc_ret d p flags).
Proof. unfold alloc_ret. keep_walk. Qed.
#[local] Hint Resolve keeps_read keeps_write keeps_alloc_ret : keeps.
Lemma keeps_open_common p flags : keeps (F := F) (open_common p flags).
Proof. unfold open_common. keep_walk. Qed.
#[local] Hint Resolve keeps_open_common : keeps.
Lemma keeps_count_loop fuel : forall fd total, keeps (F := F) (count_loop fuel fd total).
Proof. induction fuel; intros; cbn [count_loop]; keep_walk. Qed.
#[local] Hint Resolve keeps_count_loop : keeps.
Lemma keeps_fill_stat fuel p buf : u64 buf -> keeps (F := F) (fill_stat_from_path fuel p buf).
Proof. intros Hb. unfold fill_stat_from_path. keep_walk. Qed.
#[local] Hint Resolve keeps_fill_stat : keeps.
Lemma keeps_fstat fuel a0 buf : u64 buf -> keeps (F := F) (sys_fstat fuel a0 buf).
Proof. intros Hb. unfold sys_fstat. keep_walk. Qed.
Lemma keeps_lseek a0 a1 a2 : keeps (F := F) (sys_lseek a0 a1 a2).
Proof. unfold sys_lseek. keep_walk. Qed.
Lemma keeps_at_offset a0 a3 (m : M (F := F) Z) : keeps m -> keeps (at_offset a0 a3 m).
Proof. intros Hm. unfold at_offset. keep_walk. Qed.
#[local] Hint Resolve keeps_at_offset : keeps.

Lemma le_value_range l : 0 <= le_value l < 256 ^ Z.of_nat (length l).
Proof.
  induction l as [|b l IH]; cbn [le_value length]; [simpl; lia|].
  rewrite Nat2Z.inj_succ, Z.pow_succ_r by lia. pose proof (Z.mod_pos_bound b 256 ltac:(lia)). lia.
Qed.

Lemma le_value_u64 (data : list Z) off : u64 (le_value (zslice data off 8)).
Proof.
  pose proof (le_value_range (zslice data off 8)) as Hr.
  assert (length (zslice data off 8) <= 8)%nat by (unfold zslice; rewrite length_take; lia).
  assert (256 ^ Z.of_nat (length (zslice data off 8)) <= 256 ^ 8) by (apply Z.pow_le_mono_r; lia).
  change (256 ^ 8) with (u64_max + 1) in *. lia.
Qed.

Lemma keeps_iov_loop (tr : Z -> Z -> M (F := F) Z) b n :
  (forall base len, u64 base -> keeps (tr base len)) ->
  forall i iov total, keeps (iov_loop tr b n i iov total).
Proof.
  intros Ht. induction n; intros; cbn [iov_loop]; keep_walk. apply Ht, le_value_u64.
Qed.

Lemma keeps_dents_loop pad buf count entries : forall i written, 0 <= buf -> 0 <= written ->
  keeps (F := F) (dents_loop pad buf count entries i written).
Proof.
  induction entries as [|entry entries IH]; intros i written Hb Hw; cbn [dents_loop]; [keep_walk|].
  destruct (_ <? _); [keep_walk|]. destruct (_ <? _); [keep_walk|].
  destruct (Z.ltb_spec u64_max (buf + written)); [keep_walk|].
  apply keeps_bind; [apply keeps_val_to_user; lia|]. intros w.
  destruct (is_ok w); [|keep_walk]. apply IH; [done|unfold DIRENT_SIZE; lia].
Qed.

Lemma keeps_getdents64 pad a0 buf a2 : u64 buf -> keeps (F := F) (sys_getdents64 pad a0 buf a2).
Proof.
  intros Hb. unfold sys_getdents64. keep_walk. apply keeps_dents_loop; lia.
Qed.

Lemma keeps_unit_result r : keeps (F := F) (unit_result r).
Proof. unfold unit_result. keep_walk. Qed.

Lemma keeps_getcwd buf size : u64 buf -> keeps (F := F) (sys_getcwd buf size).
Proof.
  intros Hb. unfold sys_getcwd. keep_walk. apply keeps_to_user.
  unfold u64_checked_add, zlen in *. destruct (_ <=? _) eqn:E; [|done].
  apply Z.leb_le in E. simplify_eq. lia.
Qed.

Lemma as_i32_range x : - 2 ^ 31 <= as_i32 x < 2 ^ 31.
Proof.
  unfold as_i32. pose proof (Z.mod_pos_bound x (2 ^ 32) ltac:(lia)).
  destruct (Z.ltb_spec (x mod 2 ^ 32) (2 ^ 31)); lia.
Qed.

Lemma keeps_dup2 a0 a1 : keeps (F := F) (sys_dup2 a0 a1).
Proof. unfold sys_dup2. keep_walk. apply keeps_insert_desc, as_i32_range. Qed.

Lemma keeps_dup a0 : keeps (F := F) (sys_dup a0).
Proof. unfold sys_dup. keep_walk. Qed.
#[local] Hint Resolve keeps_dup keeps_dup2 keeps_unit_result keeps_getcwd keeps_getdents64
  keeps_fstat keeps_lseek : keeps.

Lemma keeps_dispatch fuel pad call args : (forall i, u64 (args i)) ->
  keeps (F := F) (dispatch_file fuel pad call args).
Proof.
  intros Ha. destruct call; cbn [dispatch_file];
    unfold sys_open, sys_openat, sys_creat, sys_close, sys_stat, sys_newfstatat, sys_pread64,
      sys_pwrite64, sys_access, sys_faccessat, sys_readlink, sys_readlinkat, sys_unlink, sys_unlinkat,
      sys_mkdir, sys_mkdirat, sys_rmdir, sys_chdir, sys_dup3, sys_fcntl, sys_ioctl, sys_pipe2, sys_pipe, stub;
    keep_walk.
  all: apply keeps_iov_loop; auto with keeps.
Qed.
End CallsKeep.

(** ** Transfers on an open file *)

Section Transfers.
Context {F : Type} `{FileSystem F}.
Context (s : Lx F) (a0 : Z) (d : LinuxFileDesc).
Context (Hfile : is_std_fd (as_i32 a0) = false) (Hd : fdtable_get (lx_fds s) (as_i32 a0) = Some d).

Lemma file_fd : (as_i32 a0 =? 0) = false /\ (as_i32 a0 =? 1) = false /\ (as_i32 a0 =? 2) = false.
Proof.
  unfold is_std_fd in Hfile. apply andb_false_iff in Hfile. rewrite Z.leb_gt, Z.leb_gt in Hfile.
  rewrite !Z.eqb_neq. lia.
Qed.

Definition moved (n : Z) : LinuxFdTable :=
  fdtable_update (lx_fds s) (as_i32 a0) (with_offset (ld_offset d + n)).

Lemma advance_open c u n : ld_offset d + n <= u64_max ->
  advance (as_i32 a0) n (set_user (set_vfs s c) u)
    = (Ok tt, set_fds (set_user (set_vfs s c) u) (moved n)).
Proof.
  intros Hn. unfold advance. cbn [lx_fds set_user set_vfs]. rewrite Hd.
  by rewrite (proj2 (Z.ltb_ge _ _)) by done.
Qed.

Lemma sys_write_file buf count data n c : 0 < count ->
  copy_from_user (lx_user s) buf (Z.min count 65536) = Ok data ->
  ctx_write (lx_vfs s) (ld_vfs_fd d) data = (Ok n, c) -> ld_offset d + n <= u64_max ->
  sys_write a0 buf count s = (Ok n, set_fds (set_vfs s c) (moved n)).
Proof.
  intros Hc Hu Hw Hn. destruct file_fd as (E0 & E1 & E2). unfold sys_write.
  rewrite (proj2 (Z.eqb_neq count 0)), E1, E2, E0 by lia. cbn [orb]. unfold bind at 1, get_desc. rewrite Hd.
  unfold bind at 1, from_user. rewrite Hu. unfold bind at 1, v_write, vfs_call. rewrite Hw.
  unfold bind. pose proof (advance_open c (lx_user s) n Hn) as Ha. unfold set_user, set_vfs in *.
  simpl in *. by rewrite Ha.
Qed.

Lemma sys_read_file buf count n kbuf c u : 0 < count -> 0 < n <= Z.min count 65536 ->
  ctx_read (lx_vfs s) (ld_vfs_fd d) (replicate (Z.to_nat (Z.min count 65536)) 0) = (Ok n, kbuf, c) ->
  copy_to_user (lx_user s) buf (zslice kbuf 0 n) = (Ok tt, u) -> ld_offset d + n <= u64_max ->
  sys_read a0 buf count s = (Ok n, set_fds (set_user (set_vfs s c) u) (moved n)).
Proof.
  intros Hc Hn Hr Hu Hm. destruct file_fd as (E0 & E1 & E2). unfold sys_read.
  rewrite (proj2 (Z.eqb_neq count 0)), E0, E1, E2 by lia. cbn [orb]. unfold bind at 1, get_desc. rewrite Hd.
  unfold bind at 1, v_read, vfs_call. rewrite Hr. cbv beta iota.
  rewrite (proj2 (Z.ltb_lt 0 n)), (proj2 (Z.ltb_ge _ n)) by lia.
  unfold bind at 1, to_user. cbn [lx_user set_vfs]. rewrite Hu. cbn [is_ok].
  unfold bind. change (set_user (mkLx _ c _ _ _) u) with (set_user (set_vfs s c) u).
  by rewrite advance_open.
Qed.

(** At the end of the file, [read] answers [EFAULT]. *)
Lemma sys_read_end buf count kbuf c : 0 < count ->
  ctx_read (lx_vfs s) (ld_vfs_fd d) (replicate (Z.to_nat (Z.min count 65536)) 0) = (Ok 0, kbuf, c) ->
  sys_read a0 buf count s = (Ok (errno_code EFAULT), set_vfs s c).
Proof.
  intros Hc Hr. destruct file_fd as (E0 & E1 & E2). unfold sys_read.
  rewrite (proj2 (Z.eqb_neq count 0)), E0, E1, E2 by lia. cbn [orb]. unfold bind at 1, get_desc. rewrite Hd.
  unfold bind at 1, v_read, vfs_call. by rewrite Hr.
Qed.

Lemma sys_read_error buf count e kbuf c : 0 < count ->
  ctx_read (lx_vfs s) (ld_vfs_fd d) (replicate (Z.to_nat (Z.min count 65536)) 0) = (Err e, kbuf, c) ->
  sys_read a0 buf count s = (Ok (fs_errno_result e), set_vfs s c).
Proof.
  intros Hc Hr. destruct file_fd as (E0 & E1 & E2). unfold sys_read.
  rewrite (proj2 (Z.eqb_neq count 0)), E0, E1, E2 by lia. cbn [orb]. unfold bind at 1, get_desc. rewrite Hd.
  unfold bind at 1, v_read, vfs_call. by rewrite Hr.
Qed.

Lemma sys_close_file r c : ctx_close (lx_vfs s) (ld_vfs_fd d) = (r, c) -> r <> Panic ->
  sys_close a0 s = (Ok 0, set_vfs (set_fds s (fdtable_remove (lx_fds s) (as_i32 a0))) c).
Proof.
  intros Hc Hr. unfold sys_close. rewrite Hfile. unfold bind at 1, get_desc. rewrite Hd.
  unfold bind, remove_desc, v_close, vfs_call. cbn [lx_vfs set_fds]. rewrite Hc. by destruct r.
Qed.
End Transfers.

(** ** A file written and read back *)

Lemma copy_to_user_ok u buf data : buf <> 0 -> zlen data <> 0 ->
  validate_user_range (us_tables u) (us_root u) buf (zlen data) true = Ok tt ->
  copy_to_user u buf data = (Ok tt, with_bytes u (put_bytes (us_bytes u) buf data)).
Proof.
  intros Hb Hl Hv. unfold copy_to_user, copy_bytes_to_user, user_slice_new.
  rewrite (proj2 (Z.eqb_neq buf 0)), (proj2 (Z.eqb_neq (zlen data) 0)) by done. by rewrite Hv.
Qed.

Section RoundTrip.
Abbreviation Mm := (M (F := MemFileSystem)).

(** A program: create a file, write [n] bytes of [src], close it, open it for reading and
    read up to [count] bytes to [dst]. *)
Definition save_and_load (name src n dst count : Z) : Mm Z :=
  do fd <- sys_open name (Z.lor O_CREAT O_WRONLY);
  do _ <- sys_write fd src n;
  do _ <- sys_close fd;
  do fd2 <- sys_open name O_RDONLY;
  sys_read fd2 dst count.

(** The state of a process on a fresh system. *)
Definition fresh (u : UserSpace) (k : Keyboard) (o : list Z) : Lx MemFileSystem :=
  mkLx fdtable_new (ctx_new mem_new) u k o.

(** The contexts after the creation, the write of [data], the close and the second open. *)
Definition file_name : path := P "/f".
Definition first_fs (c : VfsContext MemFileSystem) : MemFileSystem :=
  match mounts (cx_inner c) with e :: _ => me_fs e | [] => mem_new end.
Definition ctx1 : VfsContext MemFileSystem := (ctx_create (ctx_new mem_new) file_name).2.
Definition written_fs (data : list Z) : MemFileSystem :=
  let f := first_fs ctx1 in
  mkMem (alter (fun i => set_data i data) 2 (inodes f)) (next_ino f)
    (alter (fun d => set_offset d (zlen data)) 0 (fds f)) (next_fd f).
Definition ctx2 (data : list Z) : VfsContext MemFileSystem :=
  with_inner ctx1 (set_fs (cx_inner ctx1) 0 (written_fs data)).
Definition ctx3 (data : list Z) : VfsContext MemFileSystem := (ctx_close (ctx2 data) 0).2.
Definition ctx4 (data : list Z) : VfsContext MemFileSystem := (ctx_open (ctx3 data) file_name 0).2.

Lemma pair_eta {A B} (p : A * B) a : p.1 = a -> p = (a, p.2).
Proof. by intros <-; destruct p. Qed.

Lemma created_inv : mem_inv (first_fs ctx1).
Proof.
  change (first_fs ctx1) with (mem_open (mem_create mem_new file_name File).2 file_name 0).2.
  apply (mem_inv_step _ (OpOpen file_name 0)); [|done].
  apply (mem_inv_step _ (OpCreate file_name File)); [apply mem_new_inv|done].
Qed.

Lemma write_step data : zlen data <= u64_max -> ctx_write ctx1 0 data = (Ok (zlen data), ctx2 data).
Proof.
  intros Hl. unfold ctx_write, with_handle. change (ht_find (cx_handles ctx1) 0) with (Some (0%nat, 0)).
  cbv iota beta. unfold vfs_write_at, at_mount.
  change (mounts (cx_inner ctx1) !! 0%nat) with (Some (mkMount (P "/") (first_fs ctx1))).
  cbn [me_fs]. change (fs_write (first_fs ctx1) 0 data) with (mem_write (first_fs ctx1) 0 data).
  destruct (mem_write_spec (first_fs ctx1) 0 data (mkFd 0 2 0 0) (inode_new (P "f") File 1)
    created_inv) as (bytes & [Hbl Hbk] & ->); [vm_compute; reflexivity..|done|simpl; lia|].
  assert (bytes = data) as ->.
  { pose proof (zlen_nonneg data). cbn [inode_new ino_data fd_offset] in Hbl, Hbk.
    change (zlen []) with 0 in Hbl, Hbk. apply (znth_ext 0); [lia|]. intros k Hk.
    rewrite Hbk by lia. rewrite (proj2 (Z.leb_le 0 k)), (proj2 (Z.ltb_lt k _)) by lia. simpl. f_equal. lia. }
  vm_compute. reflexivity.
Qed.

Lemma close_step data : ctx_close (ctx2 data) 0 = (Ok tt, ctx3 data).
Proof. apply pair_eta. vm_compute. reflexivity. Qed.

Lemma read_step data n : 0 < zlen data <= n -> zlen data <= u64_max ->
  exists c buf, ctx_read (ctx4 data) 1 (replicate (Z.to_nat n) 0) = (Ok (zlen data), buf, c)
    /\ zslice buf 0 (zlen data) = data.
Proof.
  intros Hn Hm. unfold ctx_read.
  assert (ht_find (cx_handles (ctx4 data)) 1 = Some (0%nat, 1)) as -> by (vm_compute; reflexivity).
  unfold vfs_read_at.
  assert (mounts (cx_inner (ctx4 data)) !! 0%nat = Some (mkMount (P "/") (first_fs (ctx4 data)))) as ->
    by (vm_compute; reflexivity).
  cbn [me_fs]. change (fs_read (first_fs (ctx4 data))) with (mem_read (first_fs (ctx4 data))).
  unfold mem_read.
  assert (fds (first_fs (ctx4 data)) !! 1 = Some (mkFd 1 2 0 0)) as -> by (vm_compute; reflexivity).
  cbn [fd_ino fd_offset].
  assert (inodes (first_fs (ctx4 data)) !! 2 = Some (set_data (inode_new (P "f") File 1) data)) as ->
    by (vm_compute; reflexivity).
  cbn [set_data ino_kind inode_new ino_data]. rewrite bool_decide_true by done. cbn [negb].
  rewrite (proj2 (Z.leb_gt (zlen data) 0)) by lia. rewrite Z.sub_0_r.
  rewrite (zslice_full data (zlen data)) by lia. rewrite zlen_replicate by lia.
  rewrite Z.min_l by lia. rewrite zslice_full by lia.
  rewrite copy_from_slice_Some by (rewrite ?zlen_replicate; lia).
  rewrite u64_checked_add_fit by lia. eexists _, _. split; [reflexivity|].
  assert (zlen (replicate (Z.to_nat n) 0) = n) as Hr by (rewrite zlen_replicate; lia).
  set (zs := replicate (Z.to_nat n) 0) in *.
  assert (zlen (zsplice zs 0 data) = n) as Hz by (rewrite zlen_zsplice; lia).
  assert (zlen (zslice (zsplice zs 0 data) 0 (zlen data)) = zlen data) as Hs by (apply zlen_zslice; lia).
  apply (znth_ext 0); [done|]. intros k Hk. rewrite Hs in Hk. rewrite znth_zslice, znth_zsplice by lia.
  rewrite (proj2 (Z.leb_le 0 _)), (proj2 (Z.ltb_lt _ _)) by lia. simpl. f_equal. lia.
Qed.

(** The program's steps. *)
Definition table1 : LinuxFdTable :=
  mkFdTable {[3 := mkDesc 0 0 (Z.lor O_CREAT O_WRONLY) 0 (Some file_name)]} 4.
Definition table4 : LinuxFdTable := mkFdTable {[4 := mkDesc 1 0 O_RDONLY 0 (Some file_name)]} 5.

Section Steps.
Context (u : UserSpace) (k : Keyboard) (o : list Z) (name : Z).
Context (Hname : copy_user_string u name 256 = Ok (bytes_of_path file_name)).

Lemma user_name s : lx_user s = u -> user_string (F := MemFileSystem) name s = (Ok file_name, s).
Proof. intros Hu. unfold user_string. by rewrite Hu, Hname. Qed.

Lemma open_new_step : sys_open name (Z.lor O_CREAT O_WRONLY) (fresh u k o)
  = (Ok 3, mkLx table1 ctx1 u k o).
Proof.
  unfold sys_open, bind at 1. rewrite user_name by done. vm_compute. reflexivity.
Qed.

Lemma open_again_step data : sys_open name O_RDONLY (mkLx (mkFdTable ∅ 4) (ctx3 data) u k o)
  = (Ok 4, mkLx table4 (ctx4 data) u k o).
Proof.
  unfold sys_open, bind at 1. rewrite user_name by done. vm_compute. reflexivity.
Qed.

(** The whole program. *)
Lemma save_and_load_steps src dst count data : copy_from_user u src (zlen data) = Ok data ->
  0 < zlen data <= 65536 -> 0 < dst <= u64_max -> zlen data <= count ->
  validate_user_range (us_tables u) (us_root u) dst (zlen data) true = Ok tt ->
  exists s', save_and_load name src (zlen data) dst count (fresh u k o) = (Ok (zlen data), s')
    /\ lx_user s' = with_bytes u (put_bytes (us_bytes u) dst data).
Proof.
  intros Hsrc Hl Hd Hc Hv. unfold save_and_load. unfold bind at 1. rewrite open_new_step.
  unfold bind at 1. rewrite (sys_write_file (mkLx table1 ctx1 u k o) 3 (mkDesc 0 0 (Z.lor O_CREAT O_WRONLY) 0 (Some file_name))
    eq_refl eq_refl src (zlen data) data (zlen data) (ctx2 data));
    [|lia|cbn [lx_user]; rewrite Z.min_l by lia; done|apply write_step; unfold u64_max; lia
     |simpl; unfold u64_max; lia].
  set (s2 := set_fds _ _).
  unfold bind at 1. rewrite (sys_close_file s2 3 (mkDesc 0 0 (Z.lor O_CREAT O_WRONLY) (zlen data) (Some file_name))
    eq_refl eq_refl (Ok tt) (ctx3 data)); [|apply close_step|done].
  unfold bind at 1. change (set_vfs _ _) with (mkLx (mkFdTable ∅ 4) (ctx3 data) u k o).
  rewrite open_again_step.
  destruct (read_step data (Z.min count 65536)) as (c & buf & Hr & Hb); [lia|unfold u64_max; lia|].
  rewrite (sys_read_file (mkLx table4 (ctx4 data) u k o) 4 (mkDesc 1 0 O_RDONLY 0 (Some file_name)) eq_refl eq_refl dst count
    (zlen data) buf c (with_bytes u (put_bytes (us_bytes u) dst data)));
    [|lia|lia|exact Hr| |simpl; unfold u64_max; lia].
  - eexists. split; reflexivity.
  - cbn [lx_user]. rewrite Hb. apply copy_to_user_ok; [lia|lia|done].
Qed.
End Steps.
End RoundTrip.

(** ** The calls' promises *)

(** A sequence of file calls, each with its six arguments; a call that panics still leaves
    the state it reached. *)
Definition run_calls {F} `{FileSystem F} (fuel : nat) (pad : list Z)
    (calls : list (file_call * (Z -> Z))) (s : Lx F) : Lx F :=
  foldl (fun s '(call, args) => (run_call (dispatch_file fuel pad call args) s).2) s calls.

Lemma run_calls_keep {F} `{FileSystem F} fuel pad calls : forall s : Lx F,
  Forall (fun c => forall i, 0 <= c.2 i <= u64_max) calls -> lx_keeps s (run_calls fuel pad calls s).
Proof.
  induction calls as [|[call args] calls IH]; intros s Hc; [apply lx_keeps_refl|].
  inversion_clear Hc as [|? ? Ha Hc']. eapply lx_keeps_trans; [|by apply IH].
  pose proof (keeps_dispatch fuel pad call args Ha s) as Hk. unfold run_call.
  by destruct (dispatch_file fuel pad call args s) as [[v|v|] s'].
Qed.

(** C6. File calls are confined.  Whatever file calls a Linux program makes, with whatever
    arguments, over whatever file systems: the page tables stay as they are, memory the
    program may not write keeps its contents, the handles of the VFS stay distinct and
    routed to existing mounts, and the descriptor table stays well formed. *)
Theorem file_calls_safe {F} `{FileSystem F} fuel pad calls (s : Lx F) :
  ctx_inv (lx_vfs s) -> fds_ok (lx_fds s) ->
  Forall (fun c => forall i, 0 <= c.2 i <= u64_max) calls ->
  let s' := run_calls fuel pad calls s in
  ctx_inv (lx_vfs s') /\ fds_ok (lx_fds s')
  /\ us_tables (lx_user s') = us_tables (lx_user s) /\ us_root (lx_user s') = us_root (lx_user s)
  /\ forall x, ~ user_writable (lx_user s) x -> user_byte (lx_user s') x = user_byte (lx_user s) x.
Proof.
  intros Hv Hf Hc. destruct (run_calls_keep fuel pad calls s Hc) as [V D T R B].
  split; [auto|]. split; [auto|]. by split.
Qed.



(** ** Departures *)

Section Departures.
Context {F : Type} `{FileSystem F}.

(** The next transfer on any descriptor takes place at the same place of the same file. *)
Definition same_positions (s s' : Lx F) : Prop :=
  lx_vfs s' = lx_vfs s /\ lx_user s' = lx_user s
  /\ forall fd, ld_vfs_fd <$> fdtable_get (lx_fds s') fd = ld_vfs_fd <$> fdtable_get (lx_fds s) fd.

Lemma same_positions_offset (s : Lx F) fd o :
  same_positions s (set_fds s (fdtable_update (lx_fds s) fd (with_offset o))).
Proof.
  split; [done|]. split; [done|]. intros g. unfold fdtable_get, fdtable_update. simpl.
  destruct (decide (fd = g)) as [->|]; [rewrite lookup_alter_eq|by rewrite lookup_alter_ne].
  by destruct (ft_entries (lx_fds s) !! g).
Qed.

(** [lseek] moves no file: it sets the descriptor's own offset, which no transfer uses. *)
Lemma lseek_does_not_seek (s : Lx F) a0 a1 a2 : same_positions s (sys_lseek a0 a1 a2 s).2.
Proof.
  assert (same_positions s s) as Hr by done.
  unfold sys_lseek. destruct (is_std_fd _); [done|]. unfold bind at 1, get_desc.
  destruct (fdtable_get (lx_fds s) (as_i32 a0)) as [d|]; [|done]. unfold bind, ret, stop, panic.
  destruct (as_i32 a2 =? 0); [|destruct (as_i32 a2 =? 1); [destruct (_ || _); [done|]|
    destruct (as_i32 a2 =? 2); [|done]]].
  all: match goal with |- context [?v <? 0] => destruct (v <? 0); [done|] end.
  all: apply same_positions_offset.
Qed.

(** A closed handle is gone for every descriptor that had it. *)
Lemma closed_handle_gone (c : VfsContext F) v : ctx_inv c -> ht_find (cx_handles (ctx_close c v).2) v = None.
Proof.
  intros [_ (Hnd & _)].
  assert (ht_find (ht_take (cx_handles c) v).2 v = None) as Ht.
  { unfold ht_take. destruct (position _ _) as [pos|] eqn:Ep.
    - pose proof (position_Some _ _ _ Ep) as (e & He & Hv & _). rewrite He. simpl.
      apply Z.eqb_eq in Hv. apply ht_find_None. unfold ht_fds in *. simpl.
      rewrite <- (take_drop_middle _ _ _ He), map_app in Hnd. simpl in Hnd. rewrite map_app, Hv in *.
      apply NoDup_app in Hnd as (_ & Hd & Hnd). apply NoDup_cons in Hnd as [Hn _].
      intros [Hx|Hx]%elem_of_app; [|done]. apply (Hd v Hx). apply elem_of_cons. by left.
    - apply ht_find_None. intros Hin. apply list_elem_of_In, in_map_iff in Hin as (e & <- & He).
      apply list_elem_of_In, list_elem_of_lookup in He as [i Hi].
      pose proof (position_None _ _ Ep i e Hi) as Hf. simpl in Hf. by rewrite Z.eqb_refl in Hf. }
  unfold ctx_close. destruct (ht_take (cx_handles c) v) as [[[i l]|] t]; [|done].
  unfold vfs_close_at. by destruct (at_mount _ _ _).
Qed.

(** A duplicate does not keep its file open: after [close] on one descriptor, [read] on the
    other fails with [EBADF]. *)
Lemma close_closes_duplicate (s : Lx F) a0 a1 d d1 buf count :
  ctx_inv (lx_vfs s) -> is_std_fd (as_i32 a0) = false -> is_std_fd (as_i32 a1) = false ->
  as_i32 a0 <> as_i32 a1 -> fdtable_get (lx_fds s) (as_i32 a0) = Some d ->
  fdtable_get (lx_fds s) (as_i32 a1) = Some d1 -> ld_vfs_fd d1 = ld_vfs_fd d ->
  (ctx_close (lx_vfs s) (ld_vfs_fd d)).1 <> Panic -> 0 < count ->
  (sys_read a1 buf count (sys_close a0 s).2).1 = Ok (errno_code EBADF).
Proof.
  intros Hc H0 H1 Hne Hd Hd1 Hv Hp Hn.
  pose proof (closed_handle_gone (lx_vfs s) (ld_vfs_fd d) Hc) as Hg.
  destruct (ctx_close (lx_vfs s) (ld_vfs_fd d)) as [r c] eqn:E. simpl in Hp, Hg.
  rewrite (sys_close_file s a0 d H0 Hd r c E Hp). cbn [snd].
  set (s1 := set_vfs _ c).
  assert (fdtable_get (lx_fds s1) (as_i32 a1) = Some d1) as Hd2
    by (unfold fdtable_get; simpl; by rewrite lookup_delete_ne).
  rewrite (sys_read_error s1 a1 d1 H1 Hd2 buf count InvalidFileDescriptor
    (replicate (Z.to_nat (Z.min count 65536)) 0) c Hn); [done|].
  change (lx_vfs s1) with c. unfold ctx_read. by rewrite Hv, Hg.
Qed.

(** [dup2] to the number the table gives out next does not keep it: the next [open] takes
    the same number. *)
Lemma dup2_number_reused (t : LinuxFdTable) d vfs_fd i flags fd t' :
  fdtable_alloc (fdtable_insert t (ft_next_fd t) d) vfs_fd i flags = (Ok fd, t') ->
  fd = ft_next_fd t /\ fdtable_get t' fd = Some (mkDesc vfs_fd i flags 0 None).
Proof.
  unfold fdtable_alloc. simpl. destruct (_ <? _); [done|]. intros [= <- <-].
  split; [done|]. unfold fdtable_get. simpl. by rewrite lookup_insert_eq.
Qed.
End Departures.

(** ** A small process *)

(** The page at [0x400000] holds the name at [0x400100] and five bytes at [0x400200]. *)
Definition demo_user : UserSpace :=
  mkSpace demo_tables 0x1000
    (put_bytes (put_bytes ∅ 0x400100 [47; 102; 0]) 0x400200 [104; 101; 108; 108; 111]) (fun _ => true).
Definition demo_process : Lx MemFileSystem := fresh demo_user (mkKeyboard true [] []) [].
Definition args_of (l : list Z) (i : Z) : Z := znth 0 l i.
Definition demo_calls : list (file_call * (Z -> Z)) :=
  [(Open, args_of [0x400100; 0x41]); (Write, args_of [3; 0x400200; 5]); (Lseek, args_of [3; 0; 0]);
   (Read, args_of [3; 0x400300; 5]); (Dup, args_of [3]); (Close, args_of [3])].

Lemma demo_calls_ok : Forall (fun c => forall i, 0 <= c.2 i <= u64_max) demo_calls.
Proof.
  assert (forall l, Forall (fun x => 0 <= x <= u64_max) l -> forall i, 0 <= args_of l i <= u64_max) as Ha.
  { intros l Hl i. unfold args_of, znth. rewrite nth_lookup.
    destruct (l !! Z.to_nat i) as [x|] eqn:E; simpl; [|unfold u64_max; lia].
    rewrite Forall_forall in Hl. apply Hl. by apply list_elem_of_lookup_2 in E. }
  unfold demo_calls. repeat (apply Forall_cons_2; [apply Ha; simpl; repeat constructor; unfold u64_max; lia|]).
  constructor.
Qed.

Lemma file_calls_safe_witness :
  user_byte (lx_user (run_calls 10 [] demo_calls demo_process)) 0x401000 = user_byte demo_user 0x401000.
Proof.
  apply (file_calls_safe 10 [] demo_calls demo_process).
  - apply ctx_new_inv.
  - split; [simpl; lia|]. intros fd [d Hd]. cbn in Hd. by rewrite lookup_empty in Hd.
  - exact demo_calls_ok.
  - intros [_ Hc]. vm_compute in Hc. discriminate.
Defined.


(** The keys of "lss", backspace and return. *)
Definition typed_demo : list Z := ascii_codes "lss" ++ [8; 10].

Definition typed_process : Lx MemFileSystem :=
  fresh demo_user (kd_buffers (type_keys driver_new (key_of <$> typed_demo))) [].

Lemma typed_demo_typeable : Forall (fun c => c ∈ typeable) typed_demo.
Proof. apply (bool_decide_unpack _). vm_compute. exact I. Qed.
Lemma typed_demo_buffers : lx_kbd typed_process = kd_buffers (type_keys driver_new (key_of <$> typed_demo)).
Proof. by vm_compute. Qed.
Lemma typed_demo_edited : edited typed_demo = [108; 115; 10].
Proof. by vm_compute. Qed.


(** Reading back without closing: [lseek] to the start answers 0, but the read that follows
    is at the end of the file, where [read] answers [EFAULT] instead of 0. *)
Example seek_then_read :
  let s := run_calls 10 [] (take 2 demo_calls) demo_process in
  (run_call (sys_lseek 3 0 0) s).1 = Ok 0
  /\ (run_call (sys_read 3 0x400300 5) (run_call (sys_lseek 3 0 0) s).2).1 = Ok (errno_code EFAULT).
Proof. vm_compute. split; reflexivity. Qed.

(** [fstat] reads the file to its end to learn its size, so the next read finds nothing. *)
Example fstat_consumes :
  let s := run_calls 10 [] (take 2 demo_calls ++ [(Close, args_of [3]); (Open, args_of [0x400100; 0])])
             demo_process in
  (run_call (sys_read 4 0x400300 5) s).1 = Ok 5
  /\ (run_call (sys_read 4 0x400300 5) (run_call (sys_fstat 10 4 0x400400) s).2).1
     = Ok (errno_code EFAULT).
Proof. vm_compute. split; reflexivity. Qed.

(** Opening an existing file with [O_CREAT | O_TRUNC] leaves its contents. *)
Example truncate_keeps_contents :
  let s := run_calls 10 [] (take 2 demo_calls ++ [(Close, args_of [3]); (Open, args_of [0x400100; 0x241])])
             demo_process in
  (run_call (sys_read 4 0x400300 5) s).1 = Ok 5.
Proof. vm_compute. reflexivity. Qed.
