(* ===== verification/Tasks.v ===== *)
(** * Asynchronous tasks

    The runtime of [fullerene-kernel/src/task.rs]: a future driven by a kernel
    process, which polls it and blocks while it is pending, and a waker that
    unblocks the process.  The process list and the CPU are those of
    [Scheduler]; the future is the caller's, a parameter: [poll] returns whether
    it is ready, whether it called its waker while it was polled, and its next
    state; [notify] is what the event it waits for does to it.  The steps of the
    task interleave with those of the other processes, which give up the CPU of
    their own accord, and with wakes, which come from interrupt handlers. *)

From S2P Require Import Prelude Handles Scheduler.

(** ** The waker *)
Record ProcessWaker := mkWaker { pw_pid : Z; pw_woken : bool }.

Definition create_waker (pid : Z) : ProcessWaker := mkWaker pid false.
Definition waker_clone (w : ProcessWaker) : ProcessWaker := mkWaker (pw_pid w) (pw_woken w).

(** [waker_wake_by_ref]; [waker_wake] also frees the waker. *)
Definition waker_wake (w : ProcessWaker) (c : SchedulerContext) : ProcessWaker * SchedulerContext :=
  (mkWaker (pw_pid w) true, unblock_process c (pw_pid w)).

(** ** Giving up the CPU, and waiting for a task *)
Definition process_current_pid (c : SchedulerContext) : option Z :=
  if current_pid c =? 0 then None else Some (current_pid c).

(** [process::yield_current]; both [expect]s panic. *)
Definition process_yield (c : SchedulerContext) (cpu : Cpu) : result unit unit * SchedulerContext * Cpu :=
  match process_current_pid c with
  | None => (Panic, c, cpu)
  | Some old_pid =>
    match schedule_next c with
    | (Ok _, c') =>
      match process_current_pid c' with
      | None => (Panic, c', cpu)
      | Some new_pid => (Ok tt, c', context_switch c' cpu (Some old_pid) new_pid)
      end
    | (_, c') => (Panic, c', cpu)
    end
  end.

(** One round of [join]: [Ok true] when it returns, [Ok false] when it yielded. *)
Definition join_round (c : SchedulerContext) (cpu : Cpu) (pid : Z) : result unit bool * SchedulerContext * Cpu :=
  let terminated := (fun p => bool_decide (pr_state p = Terminated)) <$> find_process c pid in
  if default true terminated then (Ok true, c, cpu) else
  match process_yield c cpu with
  | (Ok _, c', cpu') => (Ok false, c', cpu')
  | (_, c', cpu') => (Panic, c', cpu')
  end.

(** ** The task manager *)
Module Manager.

Record TrackedTask := mkTracked { tt_pid : Z; tt_name : string; tt_state : string; tt_user : bool }.

Definition register (l : list TrackedTask) (pid : Z) (name : string) (is_user : bool) : list TrackedTask :=
  l ++ [mkTracked pid name "ready" is_user].

Definition is_task (pid : Z) (e : TrackedTask) : bool := tt_pid e =? pid.

(** The first entry of the task only. *)
Definition update_state (l : list TrackedTask) (pid : Z) (state : string) : list TrackedTask :=
  match position (is_task pid) l with
  | Some i => alter (fun e => mkTracked (tt_pid e) (tt_name e) state (tt_user e)) i l
  | None => l
  end.

Definition remove (l : list TrackedTask) (pid : Z) : list TrackedTask :=
  List.filter (fun e => negb (is_task pid e)) l.

End Manager.

(** ** The task *)
Section Task.
Context {F : Type} (poll : F -> bool * bool * F) (notify : F -> F) (secret pid : Z).

(** Where the process is in the loop of [task_entry]. *)
Inductive TaskPc : Type := AtPoll | AtBlock | Finished.

(** The kernel, the position in the loop, the future, and how often it has been
    polled, which the code does not count. *)
Record TaskSys := mkTask {
  ts_sched : SchedulerContext;
  ts_shared : Shared;
  ts_cpu : Cpu;
  ts_pc : TaskPc;
  ts_future : F;
  ts_polls : nat
}.

(** [create_waker] and [poll], which may call the waker; a ready future ends
    the loop and the process. *)
Definition poll_round (s : TaskSys) : TaskSys :=
  let waker := create_waker pid in
  let '(ready, woke, f) := poll (ts_future s) in
  let c := if woke then (waker_wake waker (ts_sched s)).2 else ts_sched s in
  if ready then
    match terminate_process secret c (ts_shared s) pid 0 with
    | (Ok c', sh', _) => mkTask c' sh' (ts_cpu s) Finished f (S (ts_polls s))
    | (_, sh', _) => mkTask c sh' (ts_cpu s) Finished f (S (ts_polls s))
    end
  else mkTask c (ts_shared s) (ts_cpu s) AtBlock f (S (ts_polls s)).

Definition set_kernel (s : TaskSys) (r : result unit unit * SchedulerContext * Cpu) (pc : TaskPc) : TaskSys :=
  mkTask r.1.2 (ts_shared s) r.2 pc (ts_future s) (ts_polls s).

(** [process::block_current]; the process goes on behind it, at the next poll. *)
Definition block_round (s : TaskSys) : TaskSys :=
  set_kernel s (block_current (ts_sched s) (ts_cpu s)) AtPoll.

(** The next step of [task_entry]. *)
Definition task_round (s : TaskSys) : TaskSys :=
  match ts_pc s with AtPoll => poll_round s | AtBlock => block_round s | Finished => s end.

(** The event the future waits for: it is recorded and the waker is called. *)
Definition wake_event (s : TaskSys) : TaskSys :=
  mkTask (waker_wake (create_waker pid) (ts_sched s)).2 (ts_shared s) (ts_cpu s) (ts_pc s)
    (notify (ts_future s)) (ts_polls s).

Inductive task_op : Type :=
| TRun                 (** the task, when it has the CPU *)
| TEvent
| TYield               (** another process yields *)
| TBlock               (** another process blocks *)
| TUnblock (q : Z).    (** another process is unblocked *)

Definition on_cpu (s : TaskSys) : bool := bool_decide (running (ts_cpu s) = Some pid).

Definition task_step (s : TaskSys) (op : task_op) : TaskSys :=
  match op with
  | TRun => if on_cpu s then task_round s else s
  | TEvent => wake_event s
  | TYield => if on_cpu s then s else set_kernel s (process_yield (ts_sched s) (ts_cpu s)) (ts_pc s)
  | TBlock => if on_cpu s then s else set_kernel s (block_current (ts_sched s) (ts_cpu s)) (ts_pc s)
  | TUnblock q => if q =? pid then s
                  else mkTask (unblock_process (ts_sched s) q) (ts_shared s) (ts_cpu s) (ts_pc s)
                         (ts_future s) (ts_polls s)
  end.

End Task.
Arguments mkTask {F}.
Arguments TaskSys : clear implicits.

(** ** The kernel under a task

    The invariant of the process list, with the CPU running the current process. *)
Record kernel_ok (c : SchedulerContext) (cpu : Cpu) : Prop := {
  ko_inv : sched_inv c;
  ko_pids : Forall (fun z => 0 < z) (map fst (processes c));
  ko_cpu : running cpu = Some (current_pid c)
}.

Lemma current_listed c : sched_inv c -> current_pid c ∈ map fst (processes c).
Proof.
  intros [_ _ _ H _]. rewrite <- list_lookup_fmap in H. by apply list_elem_of_lookup_2 in H.
Qed.

Lemma current_positive c cpu : kernel_ok c cpu -> 0 < current_pid c.
Proof.
  intros [H1 H2 _]. rewrite Forall_forall in H2. by apply H2, current_listed.
Qed.

Lemma find_listed c q : q ∈ map fst (processes c) -> is_Some (find_process c q).
Proof.
  unfold find_process. rewrite position_same_pid. intros Hin.
  destruct (position _ (map fst (processes c))) as [i|] eqn:Ei.
  - destruct (position_Some _ _ _ Ei) as (x & Hx & _). change (map fst ?l) with (fst <$> l) in Hx.
    rewrite list_lookup_fmap in Hx. destruct (processes c !! i); [by eexists|done].
  - exfalso. apply list_elem_of_lookup_1 in Hin as [k Hk].
    pose proof (position_None _ _ Ei _ _ Hk) as Hn. simpl in Hn. by rewrite Z.eqb_refl in Hn.
Qed.

Lemma schedule_fst c : map fst (processes (schedule_step c)) = map fst (processes c).
Proof.
  destruct (decide (processes c = [])) as [E|Hne]; unfold schedule_step.
  - unfold schedule_next. rewrite E. cbn [snd]. by rewrite E.
  - rewrite schedule_next_nonempty by done. cbv zeta. repeat case_match; try done. apply switch_states_fst.
Qed.

(** Both ways to give up the CPU take the scheduler's decision and leave the CPU
    with the process it chose. *)
Lemma switched_cpu c cpu : kernel_ok c cpu ->
  running (context_switch (schedule_step c) cpu (Some (current_pid c)) (current_pid (schedule_step c))) =
  Some (current_pid (schedule_step c)).
Proof.
  intros Hk. unfold context_switch. case_bool_decide as Hb; [rewrite (ko_cpu _ _ Hk); congruence|].
  destruct (inv_schedule c (ko_inv _ _ Hk)) as [Hi _].
  destruct (find_listed _ _ (current_listed _ Hi)) as [p ->]. done.
Qed.

Lemma kernel_ok_switched c cpu cpu' : kernel_ok c cpu ->
  running cpu' = Some (current_pid (schedule_step c)) -> kernel_ok (schedule_step c) cpu'.
Proof.
  intros [H1 H2 _] Hr. split; [by apply inv_schedule|by rewrite schedule_fst|done].
Qed.

Lemma process_yield_ok c cpu : kernel_ok c cpu ->
  exists cpu', process_yield c cpu = (Ok tt, schedule_step c, cpu') /\ kernel_ok (schedule_step c) cpu'.
Proof.
  intros Hk. pose proof (kernel_ok_switched c cpu _ Hk (switched_cpu c cpu Hk)) as Hk'.
  pose proof (current_positive _ _ Hk). pose proof (current_positive _ _ Hk').
  destruct (inv_schedule c (ko_inv _ _ Hk)) as [_ Hp].
  destruct (schedule_next_spec c (inv_nonempty c (ko_inv _ _ Hk)) (proj1 (si_index _ (ko_inv _ _ Hk))))
    as (i & old & new & _ & _ & _ & _ & E).
  unfold process_yield, process_current_pid, schedule_step in *. rewrite E in *. cbn [snd] in *.
  rewrite !(proj2 (Z.eqb_neq _ 0)) by lia. by eexists.
Qed.

Lemma kernel_ok_update c cpu q f : kernel_ok c cpu ->
  (forall p, pr_state (f p) = Running -> pr_state p = Running) -> kernel_ok (update_process c q f) cpu.
Proof.
  intros [H1 H2 H3] Hf. split; [by apply inv_update; [|auto]| |by rewrite current_pid_update].
  unfold update_process. case_match; [|done]. cbn [processes set_processes]. by rewrite alter_fst.
Qed.

Lemma kernel_ok_unblock c cpu q : kernel_ok c cpu -> kernel_ok (unblock_process c q) cpu.
Proof.
  intros Hk. apply kernel_ok_update; [done|]. intros p. rewrite unblock_state. by destruct (pr_state p).
Qed.

Lemma reschedule_ok c cpu : kernel_ok c cpu ->
  exists cpu', reschedule c cpu = (Ok tt, schedule_step c, cpu') /\ kernel_ok (schedule_step c) cpu'.
Proof.
  intros Hk. pose proof (switched_cpu c cpu Hk) as Hr. pose proof Hk as [Hi _ Hcpu].
  destruct (schedule_next_spec c (inv_nonempty c Hi) (proj1 (si_index _ Hi)))
    as (i & old & new & Eo & _ & _ & _ & E).
  pose proof (si_current _ Hi) as Hc. rewrite Z.min_l in Eo by (pose proof (si_index _ Hi); lia).
  rewrite Eo in Hc. injection Hc as Hc. unfold reschedule. set (c' := set_schedule _ _ _ _) in E.
  assert (schedule_step c = c') as Es by (unfold schedule_step; by rewrite E).
  rewrite Es, E, Hc in *. change (current_pid c') with new.1 in Hr.
  eexists. split; [done|]. rewrite <- Es. apply (kernel_ok_switched c cpu); [done|]. rewrite Es.
  destruct (Z.eqb_spec (current_pid c) new.1) as [Heq|]; [by rewrite Hcpu, Heq|done].
Qed.

Lemma block_current_ok c cpu : kernel_ok c cpu ->
  let c' := schedule_step (update_process c (current_pid c) (set_state Blocked)) in
  exists cpu', block_current c cpu = (Ok tt, c', cpu') /\ kernel_ok c' cpu'.
Proof.
  intros Hk. pose proof (current_positive _ _ Hk). unfold block_current.
  rewrite (proj2 (Z.eqb_neq _ 0)) by lia. apply reschedule_ok. by apply kernel_ok_update.
Qed.

(** ** A wake that finds the task blocked

    The process is in the list once it is found there. *)
Lemma find_position c q p : find_process c q = Some p ->
  exists i, position (same_pid q) (processes c) = Some i /\ processes c !! i = Some (q, p).
Proof.
  unfold find_process. destruct (position _ _) as [i|] eqn:Ei; [|done]. intros Hp.
  destruct (position_Some _ _ _ Ei) as ([z p'] & Hx & Hq & _). rewrite Hx in Hp. injection Hp as ->.
  unfold same_pid in Hq. simpl in Hq. apply Z.eqb_eq in Hq as ->. by exists i.
Qed.

(** The names of the processes, which no step changes. *)
Definition names (c : SchedulerContext) : list string := map (fun x => pr_name x.2) (processes c).

Lemma names_alter f i (l : list (Z * Process)) : (forall p, pr_name (f p) = pr_name p) ->
  map (fun x => pr_name x.2) (alter (fun x => (x.1, f x.2)) i l) = map (fun x => pr_name x.2) l.
Proof.
  intros Hf. apply list_eq. intros k. change (map ?g ?x) with (g <$> x).
  rewrite !list_lookup_fmap, list_lookup_alter. case_decide as Hd; [|done].
  subst. destruct (l !! k); [|done]. simpl. by rewrite Hf.
Qed.

Lemma names_update c q f : (forall p, pr_name (f p) = pr_name p) -> names (update_process c q f) = names c.
Proof. intros Hf. unfold names, update_process. case_match; [|done]. by apply names_alter. Qed.

Lemma names_schedule c : processes c <> [] -> names (schedule_step c) = names c.
Proof.
  intros Hne. unfold names, schedule_step. rewrite schedule_next_nonempty by done. cbv zeta.
  repeat case_match; try done. cbn [snd processes set_schedule]. unfold switch_states, set_state_at.
  repeat case_match; try done; by rewrite ?names_alter.
Qed.

Lemma idle_position c : "idle"%string ∈ names c -> exists k, position is_idle (processes c) = Some k.
Proof.
  intros Hin. destruct (position is_idle (processes c)) as [k|] eqn:Ek; [by exists k|]. exfalso.
  apply list_elem_of_fmap in Hin as (x & Hx & Hin). apply list_elem_of_lookup_1 in Hin as [k Hk].
  pose proof (position_None _ _ Ek _ _ Hk) as Hn. unfold is_idle in Hn. apply bool_decide_eq_false in Hn. done.
Qed.

(** With an idle process in the list, a blocked process is not chosen. *)
Lemma schedule_skips c q p : sched_inv c -> find_process c q = Some p -> pr_state p = Blocked ->
  pr_name p <> "idle"%string -> "idle"%string ∈ names c ->
  current_pid (schedule_step c) <> q /\ find_process (schedule_step c) q = Some p.
Proof.
  intros Hc Hp Hb Hni Hidle. destruct (find_position _ _ _ Hp) as (k & Ek & Hk).
  destruct (schedule_next_spec c (inv_nonempty c Hc) (proj1 (si_index _ Hc)))
    as (i & old & new & _ & En & Hi & Hch & E). set (cur := Z.min _ _) in *.
  assert (state_at (processes c) (Z.of_nat k) = Some Blocked) as Hst
    by (unfold state_at; rewrite Nat2Z.id, Hk; simpl; by rewrite Hb).
  assert (i <> Z.of_nat k) as Hik.
  { intros ->. destruct Hch as [(_ & _ & _ & Hr & _)|[_ Hid]]; [congruence|].
    destruct (idle_position c Hidle) as [m Hm]. rewrite Hm in Hid.
    destruct (position_Some _ _ _ Hm) as (x & Hx & Hix & _). assert (m = k) as -> by lia.
    rewrite Hk in Hx. injection Hx as <-. by apply bool_decide_eq_true in Hix. }
  destruct (find_schedule c q p (proj1 (si_index _ Hc)) Hp) as (s & _ & Hf & _).
  destruct (find_position _ _ _ Hf) as (k' & Ek' & Hk').
  assert (k' = k) as -> by (rewrite position_same_pid, schedule_fst, <- position_same_pid in Ek'; congruence).
  split.
  - unfold schedule_step. rewrite E. simpl. intros <-. apply Hik.
    assert (Z.to_nat i = k) as <-; [|lia]. eapply (NoDup_lookup (map fst (processes c))); [by apply si_pids| |].
    + change (map ?g ?x) with (g <$> x). by rewrite list_lookup_fmap, En.
    + change (map ?g ?x) with (g <$> x). by rewrite list_lookup_fmap, Hk.
  - rewrite Hf. f_equal. rewrite <- (set_state_same p) at 2. f_equal. rewrite Hb.
    assert (state_at (processes (schedule_step c)) (Z.of_nat k) = Some s) as Hs
      by (unfold state_at; by rewrite Nat2Z.id, Hk').
    unfold schedule_step in Hs. rewrite E in Hs. cbn [snd processes set_schedule] in Hs.
    rewrite switch_states_at in Hs by (pose proof (si_index _ Hc); lia).
    rewrite Hst, (proj2 (Z.eqb_neq (Z.of_nat k) i)) in Hs by lia. destruct (cur =? i); [congruence|].
    destruct (Z.eqb_spec (Z.of_nat k) cur) as [<-|]; simpl in Hs; [|congruence].
    rewrite Hst in Hs. simpl in Hs. congruence.
Qed.

Section Proofs.
Context {F : Type} (poll : F -> bool * bool * F) (notify : F -> F) (secret pid : Z).
Abbreviation step := (task_step poll notify secret pid).
Abbreviation run ops s := (foldl step s ops).

Definition sys_ok (s : TaskSys F) : Prop := kernel_ok (ts_sched s) (ts_cpu s).

Lemma poll_round_polls (s : TaskSys F) : let s' := poll_round poll secret pid s in
  ts_polls s' = S (ts_polls s) /\ ts_future s' = (poll (ts_future s)).2.
Proof.
  unfold poll_round. destruct (poll (ts_future s)) as [[[] woke] f]; [|done].
  by destruct (terminate_process _ _ _ _ _) as [[[]]].
Qed.

(** While other processes yield, the task reaches the CPU as soon as the
    scheduler makes it current. *)
Lemma yields_reach n : forall s, sys_ok s -> current_pid (Nat.iter n schedule_step (ts_sched s)) = pid ->
  exists m, (m <= n)%nat /\ let s' := run (repeat TYield m) s in
  on_cpu pid s' = true /\ ts_pc s' = ts_pc s /\ ts_future s' = ts_future s /\ ts_polls s' = ts_polls s.
Proof.
  induction n as [|n IH]; intros s Hs Hc.
  - exists 0%nat. split; [done|]. simpl in *. split_and!; try done. unfold on_cpu.
    rewrite (ko_cpu _ _ Hs), Hc. by apply bool_decide_eq_true.
  - destruct (on_cpu pid s) eqn:Eon; [by exists 0%nat; split; [lia|]|].
    destruct (process_yield_ok _ _ Hs) as (cpu' & E & Hk).
    destruct (IH (step s TYield)) as (m & Hm & H1 & H2 & H3 & H4).
    + unfold sys_ok. simpl. by rewrite Eon, E.
    + simpl. rewrite Eon, E. by rewrite Nat.iter_succ_r in Hc.
    + exists (S m). split; [lia|]. cbn [repeat foldl]. cbv zeta. rewrite H1, H2, H3, H4. simpl. by rewrite Eon.
Qed.

(** C37. A wake is followed by a poll: when the event a future waits for comes
    while its task is blocked, the task gets the CPU after at most as many
    yields of other processes as there are processes, and its next step polls
    the future in the state the event left it in. *)
Theorem woken_task_polls (s : TaskSys F) (p : Process) :
  sys_ok s -> find_process (ts_sched s) pid = Some p -> pr_state p = Blocked -> ts_pc s = AtPoll ->
  exists m, (m <= length (processes (ts_sched s)))%nat
  /\ let s' := run (TEvent :: repeat TYield m ++ [TRun]) s in
     ts_polls s' = S (ts_polls s) /\ ts_future s' = (poll (notify (ts_future s))).2.
Proof.
  intros Hs Hp Hb Hpc. pose proof (kernel_ok_unblock _ _ pid Hs) as Hs1. set (s1 := step s TEvent).
  pose proof (find_unblock _ pid pid p Hp) as Hp1. rewrite Z.eqb_refl in Hp1.
  destruct (find_position _ _ _ Hp1) as (i & _ & Hi).
  destruct (ready_scheduled (ts_sched s1) (Z.of_nat i) (pid, unblock p)) as (n & Hn & _ & Hcur);
    [by apply (ko_inv _ _ Hs1)|lia|by rewrite Nat2Z.id|simpl; by rewrite unblock_state, Hb|].
  destruct (yields_reach n s1 Hs1 Hcur) as (m & Hm & H1 & H2 & H3 & H4). exists m. split.
  - etransitivity; [exact Hm|]. etransitivity; [exact Hn|]. simpl. unfold unblock_process, update_process.
    case_match; [|done]. cbn [processes set_processes]. by rewrite length_alter.
  - cbn [foldl]. fold s1. rewrite foldl_app. set (s2 := run (repeat TYield m) s1) in *. cbn [foldl task_step].
    rewrite H1. unfold task_round. rewrite H2. cbn [s1 task_step wake_event ts_pc]. rewrite Hpc.
    destruct (poll_round_polls s2) as [-> ->]. by rewrite H3, H4.
Qed.

(** ** A wake before the block

    The task is off the CPU and blocked. *)
Definition parked (p : Process) (s : TaskSys F) : Prop :=
  sys_ok s /\ current_pid (ts_sched s) <> pid /\ find_process (ts_sched s) pid = Some p
  /\ "idle"%string ∈ names (ts_sched s).

Lemma parked_scheduled p c cpu sh pc f n : pr_state p = Blocked -> pr_name p <> "idle"%string ->
  kernel_ok c cpu -> find_process c pid = Some p -> "idle"%string ∈ names c ->
  forall cpu', kernel_ok (schedule_step c) cpu' -> parked p (mkTask (schedule_step c) sh cpu' pc f n).
Proof.
  intros Hb Hni Hk Hp Hid cpu' Hk'. destruct (schedule_skips c pid p (ko_inv _ _ Hk) Hp Hb Hni Hid) as [H1 H2].
  unfold parked. cbn [ts_sched]. split_and!; try done.
  rewrite names_schedule; [done|by apply inv_nonempty, (ko_inv _ _ Hk)].
Qed.

(** Only the event can unblock it. *)
Lemma parked_step p s op : pr_state p = Blocked -> pr_name p <> "idle"%string -> parked p s -> op <> TEvent ->
  parked p (step s op) /\ ts_polls (step s op) = ts_polls s.
Proof.
  intros Hb Hni (Hs & Hcur & Hp & Hid) Hop.
  assert (on_cpu pid s = false) as Hoff.
  { unfold on_cpu. rewrite (ko_cpu _ _ Hs). apply bool_decide_eq_false. congruence. }
  destruct op as [| | | |q]; [|done|..]; cbn [task_step]; rewrite ?Hoff.
  - done.
  - destruct (process_yield_ok _ _ Hs) as (cpu' & E & Hk). rewrite E. split; [|done].
    by apply (parked_scheduled p _ (ts_cpu s)).
  - destruct (block_current_ok _ _ Hs) as (cpu' & E & Hk). rewrite E. split; [|done].
    apply (parked_scheduled p _ (ts_cpu s)); try done.
    + by apply kernel_ok_update.
    + by rewrite find_update, (proj2 (Z.eqb_neq _ _)) by done.
    + by rewrite names_update.
  - destruct (Z.eqb_spec q pid) as [|Hq]; [done|]. split; [|done]. unfold parked. cbn [ts_sched].
    split_and!; [by apply kernel_ok_unblock|by unfold unblock_process; rewrite current_pid_update| |].
    + by rewrite (find_unblock _ q pid p Hp), (proj2 (Z.eqb_neq _ _)) by congruence.
    + unfold unblock_process. rewrite names_update; [done|]. intros p0. unfold unblock. by case_match.
Qed.

Lemma parked_run p ops : forall s, pr_state p = Blocked -> pr_name p <> "idle"%string -> parked p s ->
  TEvent ∉ ops -> parked p (run ops s) /\ ts_polls (run ops s) = ts_polls s.
Proof.
  induction ops as [|op ops IH]; intros s Hb Hni Hs Hops; [done|]. cbn [foldl].
  apply not_elem_of_cons in Hops as [Hop Hops]. destruct (parked_step p s op Hb Hni Hs) as [H1 H2]; [done|].
  rewrite <- H2. by apply IH.
Qed.

Lemma block_parks (s : TaskSys F) (p : Process) : sys_ok s -> on_cpu pid s = true -> ts_pc s = AtBlock ->
  find_process (ts_sched s) pid = Some p -> pr_name p <> "idle"%string -> "idle"%string ∈ names (ts_sched s) ->
  parked (set_state Blocked p) (step s TRun) /\ ts_polls (step s TRun) = ts_polls s.
Proof.
  intros Hs Hon Hpc Hp Hni Hid. cbn [task_step]. rewrite Hon. unfold task_round, block_round. rewrite Hpc.
  apply bool_decide_eq_true in Hon. rewrite (ko_cpu _ _ Hs) in Hon. injection Hon as Hcur.
  destruct (block_current_ok _ _ Hs) as (cpu' & E & Hk). rewrite E, Hcur in *. split; [|done].
  apply (parked_scheduled _ _ (ts_cpu s)); try done.
  - by apply kernel_ok_update.
  - by rewrite find_update, Z.eqb_refl, Hp.
  - by rewrite names_update.
Qed.

(** A wake is lost between the poll and the block: when the event comes
    after the future has reported that it is pending and before the process has
    blocked, the process blocks all the same, and without a second event it is
    never polled again, whatever the other processes do. *)
Theorem early_wake_lost (s : TaskSys F) (p : Process) (ops : list task_op) :
  sys_ok s -> on_cpu pid s = true -> ts_pc s = AtBlock ->
  find_process (ts_sched s) pid = Some p -> pr_name p <> "idle"%string -> "idle"%string ∈ names (ts_sched s) ->
  TEvent ∉ ops ->
  let s' := run (TEvent :: TRun :: ops) s in
  pr_state <$> find_process (ts_sched s') pid = Some Blocked /\ ts_polls s' = ts_polls s.
Proof.
  intros Hs Hon Hpc Hp Hni Hid Hops. cbn [foldl]. set (s1 := step s TEvent).
  assert (pr_name (unblock p) = pr_name p) as Hn by (unfold unblock; by case_match).
  destruct (block_parks s1 (unblock p)) as [Hpark Hpolls]; try done.
  - by apply kernel_ok_unblock.
  - simpl. by rewrite (find_unblock _ pid pid p Hp), Z.eqb_refl.
  - by rewrite Hn.
  - simpl. unfold unblock_process. rewrite names_update; [done|]. intros p0. unfold unblock. by case_match.
  - destruct (parked_run (set_state Blocked (unblock p)) ops (step s1 TRun)) as [(_ & _ & -> & _) ->]; try done.
    simpl. by rewrite Hn.
Qed.
End Proofs.

(** ** Waiting for a task *)

(** A round of [join] never panics: it returns exactly when the task is
    terminated or no longer listed, and otherwise lets the scheduler choose. *)
Lemma join_round_outcome c cpu q : kernel_ok c cpu ->
  (forall p, find_process c q = Some p -> pr_state p = Terminated) /\ join_round c cpu q = (Ok true, c, cpu)
  \/ (exists p cpu', find_process c q = Some p /\ pr_state p <> Terminated
      /\ join_round c cpu q = (Ok false, schedule_step c, cpu') /\ kernel_ok (schedule_step c) cpu').
Proof.
  intros Hk. unfold join_round. destruct (find_process c q) as [p|]; simpl; [|by left].
  case_bool_decide as Hd; [left; split; [by intros ? [= <-]|done]|right].
  destruct (process_yield_ok c cpu Hk) as (cpu' & -> & Hk'). by exists p, cpu'.
Qed.

(** A removed task is not listed, and registering and removing a new one leaves
    the list as it was. *)
Lemma register_remove l pid name is_user : Forall (fun e => Manager.tt_pid e <> pid) l ->
  Manager.remove (Manager.register l pid name is_user) pid = l.
Proof.
  intros Hl. unfold Manager.remove, Manager.register. rewrite List.filter_app. simpl.
  unfold Manager.is_task at 2. simpl. rewrite Z.eqb_refl, app_nil_r.
  induction Hl as [|e l He Hl IH]; simpl; [done|]. unfold Manager.is_task at 1.
  rewrite (proj2 (Z.eqb_neq _ _)) by done. simpl. by rewrite IH.
Qed.

(** ** A small system

    The idle process (1) and the task (2); the future is ready once its event
    has come. *)
Definition demo_poll (arrived : bool) : bool * bool * bool := (arrived, false, arrived).
Definition demo_notify (_ : bool) : bool := true.
Definition task_sched : SchedulerContext :=
  mkSched [demo_process 1 "idle" Ready None; demo_process 2 "async-task" Running None] 3 1 2 0 0 0.
Definition task_start : TaskSys bool := mkTask task_sched no_shared (mkCpu 0 (Some 2)) AtPoll false 0.
Definition demo_step := task_step demo_poll demo_notify 0 2.

Lemma kernel_ok_pair (a b : ProcessState) (i : Z) (cpu : Cpu) :
  (i = 0 /\ b <> Running \/ i = 1 /\ a <> Running) -> running cpu = Some (i + 1) ->
  kernel_ok (mkSched [demo_process 1 "idle" a None; demo_process 2 "async-task" b None] 3 i (i + 1) 0 0 0) cpu.
Proof.
  intros Hi Hr. split; [split|by repeat constructor|done].
  - by apply (bool_decide_unpack _).
  - repeat constructor.
  - destruct Hi as [[-> _]|[-> _]]; vm_compute; split; (reflexivity || discriminate).
  - by destruct Hi as [[-> _]|[-> _]].
  - intros k Hk. unfold state_at. cbn [processes].
    destruct (Z.to_nat k) as [|[|m]] eqn:Ek; simpl; [..|done]; intros [= Hs];
      destruct Hi as [[-> Hn]|[-> Hn]]; simpl; (congruence || lia).
Qed.

(** The event in time: the task ends after two polls. *)
Example task_finishes :
  let s := foldl demo_step task_start [TRun; TRun; TEvent; TYield; TRun] in
  ts_pc s = Finished /\ ts_polls s = 2%nat
  /\ pr_state <$> find_process (ts_sched s) 2 = Some Terminated.
Proof. by vm_compute. Qed.

(** A future that calls its waker while it is polled, to be polled again, is
    blocked for good after its first poll. *)
Definition self_waking (n : nat) : bool * bool * nat :=
  match n with O => (true, false, O) | S n => (false, true, n) end.

Example self_wake_blocks :
  let s := foldl (task_step self_waking (fun n => n) 0 2)
             (mkTask task_sched no_shared (mkCpu 0 (Some 2)) AtPoll 1%nat 0) [TRun; TRun; TYield; TYield] in
  pr_state <$> find_process (ts_sched s) 2 = Some Blocked /\ ts_polls s = 1%nat
  /\ running (ts_cpu s) = Some 1.
Proof. by vm_compute. Qed.

Lemma woken_task_polls_witness :
  exists m, (m <= 2)%nat
  /\ ts_polls (foldl demo_step (foldl demo_step task_start [TRun; TRun]) (TEvent :: repeat TYield m ++ [TRun])) = 2%nat.
Proof.
  destruct (woken_task_polls demo_poll demo_notify 0 2 (foldl demo_step task_start [TRun; TRun])
              (mkProcess 2 "async-task" Blocked 0 None 0 None None resources_new)) as (m & H1 & H2 & _).
  - apply (kernel_ok_pair Running Blocked 0); [left; split; [reflexivity|discriminate]|reflexivity].
  - reflexivity.
  - reflexivity.
  - reflexivity.
  - exists m. split; [exact H1|exact H2].
Defined.

Lemma early_wake_lost_witness :
  let s := foldl demo_step (demo_step task_start TRun) [TEvent; TRun; TYield; TYield] in
  pr_state <$> find_process (ts_sched s) 2 = Some Blocked /\ ts_polls s = 1%nat.
Proof.
  apply (early_wake_lost demo_poll demo_notify 0 2 (demo_step task_start TRun)
           (mkProcess 2 "async-task" Running 0 None 0 None None resources_new) [TYield; TYield]).
  - apply (kernel_ok_pair Ready Running 1); [right; split; [reflexivity|discriminate]|reflexivity].
  - reflexivity.
  - reflexivity.
  - reflexivity.
  - discriminate.
  - left.
  - intros H. repeat (apply elem_of_cons in H as [H|H]; [discriminate|]). by apply not_elem_of_nil in H.
Defined.
