(* ===== verification/ProcessTable.v ===== *)
(** * ProcessTable: the page tables of processes

    [petroleum/src/page_table/process/table.rs]: [ProcessPageTable] with its mapping,
    unmapping, flags, cloning and switching, the splitting of 2 MiB pages and the release
    of a hierarchy.  Tables are read and written in the word memory of [PageTable]; the
    processor's own walk ([hw_leaf]) says what a hierarchy means, large pages included.

    The mapper of the [x86_64] crate, which the code calls for single pages, is the class
    [Mapper]; [LawfulMapper] states its documented behaviour as the processor sees it, and
    the walker of [PageTable] gives an instance.  The code reads some tables through the
    mapper's root and some through the root in CR3, and the model keeps the two apart.

    Splitting a large page leaves every translation as it is ([split_spec]);
    mapping a page changes no other page, whichever branch is taken
    ([ppt_map_page_correct]); a clone translates as its source ([clone_translates]). *)

From S2P Require Import Prelude Frames PageTable.

(** ** The processor's walk *)

(** The entry that maps an address, with its level; the page-size bit ends the walk at
    levels 3 and 2 and is reserved at level 4. *)
Fixpoint hw_levels (ls : list Z) (m : Mem) (table v : Z) : option (Z * Z) :=
  match ls with
  | [] => None
  | l :: ls =>
      let e := read_word m (entry_address table (index v l)) in
      if negb (is_present e) then None
      else if l =? 1 then Some (e, 1)
      else if is_huge e then (if l =? 4 then None else Some (e, l))
      else hw_levels ls m (pte_addr e) v
  end.
Definition hw_leaf (m : Mem) (root v : Z) : option (Z * Z) := hw_levels [4; 3; 2; 1] m root v.

(** The size of the page a leaf of level [l] maps. *)
Definition leaf_size (l : Z) : Z := 2 ^ (12 + 9 * (l - 1)).
Definition leaf_address (x : Z * Z) (v : Z) : Z :=
  pte_addr x.1 / leaf_size x.2 * leaf_size x.2 + v mod leaf_size x.2.
Definition hw_translate (m : Mem) (root v : Z) : option Z := (fun x => leaf_address x v) <$> hw_leaf m root v.

(** ** Data *)
Inductive PtError : Type :=
| SysInternalError | SysInvalidArgument | SysFrameAllocationFailed | SysMappingFailed | SysUnmappingFailed.

Record ProcessPageTable := mkPpt {
  current_page_table : Z;
  ppt_initialized : bool;
  pml4_frame : option Z;
  ppt_mapper : option Z;             (** the level 4 table the mapper works on *)
  allocated_tables : gmap Z Z
}.

Definition ppt_new : ProcessPageTable := mkPpt 0 false None None ∅.
Definition ppt_new_with_frame (frame : Z) : ProcessPageTable := mkPpt frame false (Some frame) None ∅.
Definition set_current (pt : ProcessPageTable) (addr : Z) : ProcessPageTable :=
  mkPpt addr (ppt_initialized pt) (pml4_frame pt) (ppt_mapper pt) (allocated_tables pt).

(** [initialize_with_frame_allocator], with the root in CR3. *)
Definition ppt_initialize (cr3 : Z) (pt : ProcessPageTable) : ProcessPageTable :=
  if ppt_initialized pt then pt else mkPpt cr3 true (Some cr3) (Some cr3) (allocated_tables pt).

Definition add_table (pt : ProcessPageTable) (frame : Z) : ProcessPageTable :=
  mkPpt (current_page_table pt) (ppt_initialized pt) (pml4_frame pt) (ppt_mapper pt)
    (<[frame := frame]> (allocated_tables pt)).

(** [switch_page_table], with the new CR3. *)
Definition switch_page_table (pt : ProcessPageTable) (cr3 table_addr : Z) : result PtError unit * ProcessPageTable * Z :=
  if negb (ppt_initialized pt) then (Err SysInternalError, pt, cr3) else
  match allocated_tables pt !! table_addr with
  | None => (Err SysInvalidArgument, pt, cr3)
  | Some new_frame =>
      (Ok tt, mkPpt table_addr (ppt_initialized pt) (Some new_frame) (ppt_mapper pt) (allocated_tables pt), new_frame)
  end.

(** ** The mapper of the [x86_64] crate *)
Inductive MapToError : Type := FrameAllocationFailed | ParentEntryHugePage | PageAlreadyMapped.

(** On the memory and a root: [map_to] (page, frame and flags), [unmap],
    [update_flags], [translate]; and [PageTableEntry::frame]. *)
Class Mapper (A : Type) := {
  map_to : Mem -> Z -> Z -> Z -> Z -> A -> result MapToError unit * Mem * A;
  mapper_unmap : Mem -> Z -> Z -> option Z * Mem;
  update_flags : Mem -> Z -> Z -> Z -> bool * Mem;
  mapper_translate : Mem -> Z -> Z -> option (Z * Z);
  entry_frame : Z -> option Z
}.

(** ** Splitting a 2 MiB page *)
Inductive MemoryError : Type := NotMapped | InvalidSize | MemFrameAllocationFailed.

(** The 512 words of a table. *)
Fixpoint write_words (m : Mem) (table i : Z) (ws : list Z) : Mem :=
  match ws with
  | [] => m
  | w :: ws => write_words (<[entry_address table i := w]> m) table (i + 1) ws
  end.
Definition read_words (m : Mem) (table : Z) : list Z :=
  (fun i => read_word m (entry_address table i)) <$> seqZ 0 512.

Section Ops.
Context {A : Type} `{FrameAllocator A}.

(** [set_addr] for each of the 512 pages; [PhysAddr::new] panics beyond 52 bits. *)
Definition split_entries (base flags : Z) : option (list Z) :=
  if base + 511 * 4096 <? 2 ^ 52
  then Some ((fun i => new_with_frame (base + i * 4096) flags) <$> seqZ 0 512) else None.

Definition split_huge_page_2mb (m : Mem) (cr3 virtual_addr default_flags : Z) (a : A) :
    result MemoryError unit * Mem * A :=
  let l4e := read_word m (entry_address cr3 (index virtual_addr 4)) in
  if negb (is_present l4e) then (Err NotMapped, m, a) else
  let l3e := read_word m (entry_address (pte_addr l4e) (index virtual_addr 3)) in
  if negb (is_present l3e) then (Err NotMapped, m, a) else
  let ea := entry_address (pte_addr l3e) (index virtual_addr 2) in
  let l2e := read_word m ea in
  if negb (is_huge l2e) then (Err InvalidSize, m, a) else
  let existing_flags := Z.lor (Z.ldiff (pte_flags l2e) HUGE_PAGE) PRESENT in
  match fa_allocate a with
  | (Ok l1, a) =>
      let m := write_words m l1 0 (replicate 512 0) in
      match split_entries (pte_addr l2e) existing_flags with
      | None => (Panic, m, a)
      | Some entries =>
          let m := write_words m l1 0 entries in
          (Ok tt, <[ea := new_with_frame l1 (Z.lor default_flags PRESENT)]> m, a)
      end
  | (Err _, a) => (Err MemFrameAllocationFailed, m, a)
  | (Panic, a) => (Panic, m, a)
  end.

Context `{Mapper A}.

(** ** Single pages *)

(** The large page is split through CR3, the page unmapped and mapped again. *)
Definition map_after_split (root cr3 : Z) (m : Mem) (a : A) (va page frame flags : Z) : result PtError unit * Mem * A :=
  match split_huge_page_2mb m cr3 va flags a with
  | (Ok _, m, a) =>
      let m := (mapper_unmap m root page).2 in
      match map_to m root page frame flags a with
      | (Ok _, m, a) => (Ok tt, m, a)
      | (Err _, m, a) => (Err SysMappingFailed, m, a)
      | (Panic, m, a) => (Panic, m, a)
      end
  | (Err _, m, a) => (Err SysMappingFailed, m, a)
  | (Panic, m, a) => (Panic, m, a)
  end.

(** [VirtAddr::new] and [PhysAddr::new] panic on an address that is not canonical, or
    beyond 52 bits. *)
Definition ppt_map_page (pt : ProcessPageTable) (cr3 : Z) (m : Mem) (a : A) (virtual_addr physical_addr flags : Z) :
    result PtError unit * Mem * A :=
  if negb (ppt_initialized pt) then (Err SysInternalError, m, a) else
  match ppt_mapper pt, canonical_new virtual_addr with
  | Some root, Some va =>
      if 2 ^ 52 <=? physical_addr then (Panic, m, a) else
      let page := align_down va 4096 in
      let frame := align_down physical_addr 4096 in
      match map_to m root page frame flags a with
      | (Ok _, m, a) => (Ok tt, m, a)
      | (Err PageAlreadyMapped, m, a) => (Ok tt, m, a)
      | (Err FrameAllocationFailed, m, a) => (Err SysFrameAllocationFailed, m, a)
      | (Err ParentEntryHugePage, m, a) =>
          map_after_split root cr3 m a va page frame flags
      | (Panic, m, a) => (Panic, m, a)
      end
  | _, _ => (Panic, m, a)
  end.

Definition ppt_unmap_page (pt : ProcessPageTable) (m : Mem) (virtual_addr : Z) : result PtError Z * Mem :=
  if negb (ppt_initialized pt) then (Err SysInternalError, m) else
  match ppt_mapper pt, canonical_new virtual_addr with
  | Some root, Some va =>
      match mapper_unmap m root (align_down va 4096) with
      | (Some frame, m) => (Ok frame, m)
      | (None, m) => (Err SysUnmappingFailed, m)
      end
  | _, _ => (Panic, m)
  end.

Definition ppt_translate_address (pt : ProcessPageTable) (m : Mem) (virtual_addr : Z) : result PtError Z :=
  if negb (ppt_initialized pt) then Err SysInternalError else
  match ppt_mapper pt, canonical_new virtual_addr with
  | Some root, Some va =>
      match mapper_translate m root va with
      | Some (frame, offset) => Ok (frame + offset)
      | None => Err SysInvalidArgument
      end
  | _, _ => Panic
  end.

Definition ppt_set_page_flags (pt : ProcessPageTable) (m : Mem) (virtual_addr flags : Z) : result PtError unit * Mem :=
  if negb (ppt_initialized pt) then (Err SysInternalError, m) else
  match ppt_mapper pt, canonical_new virtual_addr with
  | Some root, Some va =>
      match update_flags m root (align_down va 4096) flags with
      | (true, m) => (Ok tt, m)
      | (false, m) => (Err SysMappingFailed, m)
      end
  | _, _ => (Panic, m)
  end.

(** The loop of [get_page_flags]: [entry.frame()] above level 1, the flags there. *)
Fixpoint flags_loop (ls : list Z) (m : Mem) (frame v : Z) : Z :=
  match ls with
  | [] => 0
  | l :: ls =>
      let e := read_word m (entry_address frame (index v l)) in
      if l =? 1 then (if is_present e then pte_flags e else 0)
      else match entry_frame e with Some frame => flags_loop ls m frame v | None => 0 end
  end.

Definition ppt_get_page_flags (pt : ProcessPageTable) (cr3 : Z) (m : Mem) (virtual_addr : Z) : result PtError Z :=
  if negb (ppt_initialized pt) then Err SysInternalError else
  match ppt_mapper pt, canonical_new virtual_addr with
  | Some _, Some va => Ok (flags_loop [4; 3; 2; 1] m cr3 va)
  | _, _ => Panic
  end.

(** ** Cloning *)

(** The mapper is pointed at CR3 when [pml4_frame] differs from it. *)
Definition follow_cr3 (pt : ProcessPageTable) (cr3 : Z) : ProcessPageTable :=
  if bool_decide (pml4_frame pt = Some cr3) then pt
  else mkPpt (current_page_table pt) (ppt_initialized pt) (Some cr3) (Some cr3) (allocated_tables pt).

(** The loop over the 512 entries. *)
Fixpoint copy_present (n : nat) (i : Z) (m : Mem) (src dst : Z) : Mem :=
  match n with
  | O => m
  | S n =>
      let entry := read_word m (entry_address src i) in
      copy_present n (i + 1)
        (if is_present entry then <[entry_address dst i := entry]> m else m) src dst
  end.

Definition clone_source (pt : ProcessPageTable) (source_table : Z) : option Z :=
  match allocated_tables pt !! source_table with
  | Some frame => Some frame
  | None => if bool_decide (Some source_table = pml4_frame pt) then pml4_frame pt else None
  end.

Definition clone_page_table (pt : ProcessPageTable) (cr3 : Z) (m : Mem) (a : A) (source_table : Z) :
    result PtError Z * ProcessPageTable * Mem * A :=
  if negb (ppt_initialized pt) then (Err SysInternalError, pt, m, a) else
  let pt := follow_cr3 pt cr3 in
  match clone_source pt source_table with
  | None => (Err SysInvalidArgument, pt, m, a)
  | Some source_frame =>
      match fa_allocate a with
      | (Ok new_frame, a) =>
          match ppt_mapper pt with
          | None => (Panic, pt, m, a)
          | Some _ => (Ok new_frame, add_table pt new_frame, copy_present 512 0 m source_frame new_frame, a)
          end
      | (Err _, a) => (Err SysFrameAllocationFailed, pt, m, a)
      | (Panic, a) => (Panic, pt, m, a)
      end
  end.

(** ** Creating and releasing tables

    Both go through a temporary page; the processor reads and writes it through CR3,
    and faults when it is not mapped there. *)
Definition TEMP_VA_FOR_CLONE : Z := 0xFFFF900000000000.
Definition TEMP_VA_FOR_DESTROY : Z := 0xFFFFA00000000000.
Definition TEMP_FLAGS : Z := Z.lor PRESENT WRITABLE.

Definition create_page_table (pt : ProcessPageTable) (cr3 : Z) (m : Mem) (a : A) :
    result PtError Z * ProcessPageTable * Mem * A :=
  if negb (ppt_initialized pt) then (Err SysInternalError, pt, m, a) else
  match fa_allocate a with
  | (Err _, a) => (Err SysFrameAllocationFailed, pt, m, a)
  | (Panic, a) => (Panic, pt, m, a)
  | (Ok new_frame, a) =>
      match ppt_mapper pt with
      | None => (Panic, pt, m, a)
      | Some root =>
          let temp_page := TEMP_VA_FOR_CLONE + 0x3000 in
          match map_to m root temp_page new_frame TEMP_FLAGS a with
          | (Err _, m, a) => (Err SysMappingFailed, pt, m, a)
          | (Panic, m, a) => (Panic, pt, m, a)
          | (Ok _, m, a) =>
              match hw_translate m cr3 temp_page with
              | None => (Panic, pt, m, a)
              | Some phys =>
                  let m := write_words m phys 0 (replicate 512 0) in
                  let m := (mapper_unmap m root temp_page).2 in
                  (Ok new_frame, add_table pt new_frame, m, a)
              end
          end
      end
  end.

(** The frames of the entries that are present and not large. *)
Definition child_frames (ws : list Z) : list Z :=
  omap (fun e => if is_present e then
                   match entry_frame e with
                   | Some f => if is_huge e then None else Some f
                   | None => None
                   end
                 else None) ws.

(** [destroy_page_table_recursive] at a level from 4 down; the error of a child returns
    before the temporary page is unmapped. *)
Fixpoint destroy_rec (level : nat) (root cr3 table_phys : Z) (m : Mem) (a : A) : result PtError unit * Mem * A :=
  match level with
  | O => (Ok tt, m, a)
  | S below =>
      let page := TEMP_VA_FOR_DESTROY in
      let frame := align_down table_phys 4096 in
      match map_to m root page frame TEMP_FLAGS a with
      | (Panic, m, a) => (Panic, m, a)
      | (Err FrameAllocationFailed, m, a) => (Err SysMappingFailed, m, a)
      | (Err ParentEntryHugePage, m, a) => (Err SysMappingFailed, m, a)
      | (_, m, a) =>
          match hw_translate m cr3 page with
          | None => (Panic, m, a)
          | Some table =>
              let children := if (1 <? level)%nat then child_frames (read_words m table) else [] in
              let body := fix body (cs : list Z) (m : Mem) (a : A) : result PtError unit * Mem * A :=
                match cs with
                | [] => (Ok tt, m, a)
                | c :: cs =>
                    match destroy_rec below root cr3 c m a with
                    | (Ok _, m, a) =>
                        match fa_deallocate a c with
                        | Ok a => body cs m a
                        | _ => (Panic, m, a)
                        end
                    | r => r
                    end
                end in
              match body children m a with
              | (Ok _, m, a) => (Ok tt, (mapper_unmap m root page).2, a)
              | r => r
              end
          end
      end
  end.

Definition remove_table (pt : ProcessPageTable) (t : Z) : ProcessPageTable :=
  mkPpt (current_page_table pt) (ppt_initialized pt) (pml4_frame pt) (ppt_mapper pt)
    (delete t (allocated_tables pt)).

Definition destroy_page_table (pt : ProcessPageTable) (cr3 : Z) (m : Mem) (a : A) (table_addr : Z) :
    result PtError unit * ProcessPageTable * Mem * A :=
  if negb (ppt_initialized pt) then (Err SysInternalError, pt, m, a) else
  if 2 ^ 52 <=? table_addr then (Panic, pt, m, a) else
  match allocated_tables pt !! table_addr with
  | None => (Err SysInvalidArgument, pt, m, a)
  | Some frame =>
      let pt := remove_table pt table_addr in
      match ppt_mapper pt with
      | None => (Panic, pt, m, a)
      | Some root =>
          match destroy_rec 4 root cr3 table_addr m a with
          | (Ok _, m, a) =>
              match fa_deallocate a frame with
              | Ok a => (Ok tt, pt, m, a)
              | _ => (Panic, pt, m, a)
              end
          | (Err e, m, a) => (Err e, pt, m, a)
          | (Panic, m, a) => (Panic, pt, m, a)
          end
      end
  end.
End Ops.

(** ** Walks that agree *)
Lemma present_used e : is_present e = true -> is_unused e = false.
Proof. unfold is_present, is_unused. destruct (Z.eqb_spec e 0) as [->|]; done. Qed.

Lemma path_of_snoc v pre l : path_of v (pre ++ [l]) = path_of v pre ++ [(l, index v l)].
Proof. unfold path_of. by rewrite map_app. Qed.

Lemma reach_present m root v pre l t : reach m root (path_of v pre) = Ok t ->
  let e := read_word m (entry_address t (index v l)) in
  is_present e = true -> is_huge e = false -> reach m root (path_of v (pre ++ [l])) = Ok (pte_addr e).
Proof.
  intros Ht e Hp Hh. rewrite path_of_snoc, reach_snoc, Ht. unfold step. simpl. fold e.
  by rewrite present_used, Hh.
Qed.

(** The walk of [v] reads one entry in each table on its path. *)
Definition walk_reads (m : Mem) (root v : Z) (P : Z -> Prop) : Prop :=
  forall pre l suf t, pre ++ l :: suf = [4; 3; 2; 1] -> reach m root (path_of v pre) = Ok t ->
  P (entry_address t (index v l)).

Lemma hw_levels_frame m m' root v ls : forall pre t, pre ++ ls = [4; 3; 2; 1] ->
  reach m root (path_of v pre) = Ok t ->
  walk_reads m root v (fun x => read_word m' x = read_word m x) -> hw_levels ls m' t v = hw_levels ls m t v.
Proof.
  induction ls as [|l ls IH]; intros pre t Hpre Ht Hr; simpl; [done|].
  rewrite (Hr pre l ls t Hpre Ht).
  destruct (is_present (read_word m (entry_address t (index v l)))) eqn:Ep; [|done]. simpl.
  destruct (l =? 1); [done|]. destruct (is_huge _) eqn:Eh; [done|].
  apply (IH (pre ++ [l])); [by rewrite <- app_assoc|by apply reach_present|done].
Qed.

Lemma hw_leaf_frame m m' root v :
  walk_reads m root v (fun x => read_word m' x = read_word m x) -> hw_leaf m' root v = hw_leaf m root v.
Proof. by apply (hw_levels_frame m m' root v [4; 3; 2; 1] []). Qed.

Lemma walk_path_valid v pre l suf : pre ++ l :: suf = [4; 3; 2; 1] -> valid_path (path_of v pre).
Proof.
  intros E. apply path_of_valid.
  destruct pre as [|a [|b [|c [|d [|]]]]]; simplify_eq/=; by eexists.
Qed.

(** ** Words of a table *)
Lemma read_words_out ws : forall m t i x, (forall k, 0 <= k < zlen ws -> x <> entry_address t (i + k)) ->
  read_word (write_words m t i ws) x = read_word m x.
Proof.
  induction ws as [|w ws IH]; intros m t i x Hx; [done|]. cbn [write_words]. rewrite zlen_cons in Hx.
  pose proof (zlen_nonneg ws). rewrite IH.
  - rewrite read_insert. destruct (Z.eqb_spec x (entry_address t i)) as [->|]; [|done].
    destruct (Hx 0); [lia|]. by rewrite Z.add_0_r.
  - intros k Hk. rewrite <- Z.add_assoc. apply Hx. lia.
Qed.

Lemma read_words_in ws : forall m t i k w, ws !! k = Some w ->
  read_word (write_words m t i ws) (entry_address t (i + Z.of_nat k)) = w.
Proof.
  induction ws as [|w ws IH]; intros m t i k w' Hk; [done|]. cbn [write_words].
  destruct k as [|k]; simpl in Hk.
  - injection Hk as <-. rewrite read_words_out, Z.add_0_r, read_insert, Z.eqb_refl; [done|].
    intros j Hj. unfold entry_address. lia.
  - rewrite <- (IH (<[entry_address t i := w]> m) t (i + 1) k w' Hk). do 2 f_equal. lia.
Qed.

(** ** Addresses within a 2 MiB page *)
Lemma index_1 v : index v 1 = (v / 4096) mod 512.
Proof.
  unfold index. change 511 with (Z.ones 9). rewrite Z.land_ones by lia.
  change (12 + (1 - 1) * 9) with 12. rewrite Z.shiftr_div_pow2 by lia. done.
Qed.

Lemma split_address base v : 0 <= base -> base mod 2 ^ 21 = 0 ->
  base / 2 ^ 21 * 2 ^ 21 + v mod 2 ^ 21 = (base + index v 1 * 4096) / 4096 * 4096 + v mod 4096.
Proof.
  intros Hb H0. rewrite index_1. pose proof (Z.div_mod base (2 ^ 21) ltac:(lia)).
  replace (v mod 2 ^ 21) with ((v / 4096) mod 512 * 4096 + v mod 4096).
  - assert (base = base / 2 ^ 21 * 512 * 4096) as E by lia. rewrite E at 2.
    rewrite <- Z.mul_add_distr_r, Z.div_mul by lia. lia.
  - change (2 ^ 21) with (4096 * 512). rewrite Z.rem_mul_r by lia. lia.
Qed.

(** ** Splitting *)
Lemma reach_frame m m' root p :
  (forall q x t, q ++ [x] `prefix_of` p -> reach m root q = Ok t ->
     read_word m' (entry_address t x.2) = read_word m (entry_address t x.2)) ->
  reach m' root p = reach m root p.
Proof.
  induction p as [|x p IH] using rev_ind; intros Hr; [done|]. rewrite !reach_snoc, IH.
  - unfold step. destruct (reach m root p) as [t|e|] eqn:Et; [|done..]. simpl. by rewrite (Hr p x t).
  - intros q y t Hq. apply Hr. etransitivity; [exact Hq|]. by apply prefix_app_r.
Qed.

(** The entries of the tables above level 1 are unused or present. *)
Definition tables_clean (m : Mem) (root : Z) : Prop :=
  forall p t i, valid_path p -> (length p < 3)%nat -> reach m root p = Ok t -> 0 <= i < 512 ->
  read_word m (entry_address t i) = 0 \/ is_present (read_word m (entry_address t i)) = true.

(** The tables above a 2 MiB page. *)
Lemma hw_leaf_2 m root v e : hw_leaf m root v = Some (e, 2) ->
  exists l4e l3e, read_word m (entry_address root (index v 4)) = l4e
  /\ read_word m (entry_address (pte_addr l4e) (index v 3)) = l3e
  /\ read_word m (entry_address (pte_addr l3e) (index v 2)) = e
  /\ is_present l4e = true /\ is_present l3e = true /\ is_present e = true
  /\ is_huge l4e = false /\ is_huge l3e = false /\ is_huge e = true
  /\ reach m root (path_of v [4; 3]) = Ok (pte_addr l3e).
Proof.
  unfold hw_leaf. cbn [hw_levels].
  set (l4e := read_word m (entry_address root (index v 4))).
  set (l3e := read_word m (entry_address (pte_addr l4e) (index v 3))).
  set (l2e := read_word m (entry_address (pte_addr l3e) (index v 2))).
  destruct (is_present l4e) eqn:P4; [|done]. destruct (is_huge l4e) eqn:H4; [done|].
  destruct (is_present l3e) eqn:P3; [|done]. destruct (is_huge l3e) eqn:H3; [done|].
  destruct (is_present l2e) eqn:P2; [|done]. destruct (is_huge l2e) eqn:H2; cbn [negb].
  - intros [= <-]. exists l4e, l3e. split_and!; try done.
    assert (reach m root (path_of v [4]) = Ok (pte_addr l4e)) as R4 by (by apply (reach_present m root v [])).
    by apply (reach_present m root v [4]).
  - simpl. by destruct (negb _).
Qed.

Section Split.
Context {A : Type} `{FrameAllocator A} (fok : A -> Prop) (avail : A -> Z -> Prop) `{!LawfulFrames fok avail}.

Lemma held_apart m root a p t f i j : pt_inv avail m root a -> valid_path p -> reach m root p = Ok t ->
  avail a f -> 0 <= i < 512 -> 0 <= j < 512 -> entry_address t i <> entry_address f j.
Proof.
  intros Hm Hp Ht Hf Hi Hj E.
  destruct (entry_address_inj t f i j) as [-> _]; try done.
  - by eapply (reach_aligned avail).
  - by apply (fa_avail a f Hf).
  - by eapply (pt_held _ _ _ _ Hm).
Qed.

(** A table [l1], taken from the allocator and filled with [E], put in the place of the
    large page at level 2 of [v]. *)
Section Link.
Context (m m' : Mem) (root : Z) (a a' : A) (v t2 l1 w : Z) (E : Z -> Z).
Hypothesis Hm : pt_inv avail m root a.
Hypothesis Ht2 : reach m root (path_of v [4; 3]) = Ok t2.
Hypothesis Hhuge : is_huge (read_word m (entry_address t2 (index v 2))) = true.
Hypothesis Hl1 : avail a l1.
Hypothesis Ha' : forall g, avail a' g <-> avail a g /\ g <> l1.
Hypothesis Hw : is_present w = true /\ is_huge w = false /\ pte_addr w = l1 /\ 0 <= w.
Hypothesis Hin : forall j, 0 <= j < 512 -> read_word m' (entry_address l1 j) = E j /\ 0 <= E j.
Hypothesis Hea : read_word m' (entry_address t2 (index v 2)) = w.
Hypothesis Hout : forall x, x <> entry_address t2 (index v 2) ->
  (forall j, 0 <= j < 512 -> x <> entry_address l1 j) -> read_word m' x = read_word m x.

Let p2 : pt_path := path_of v [4; 3].
Let q2 : pt_path := path_of v [4; 3; 2].

Lemma p2_valid : valid_path p2. Proof. apply path_of_valid. by exists [2]. Qed.

(** A read on a walk that is not this entry is not affected. *)
Lemma link_read q x t : valid_path (q ++ [x]) -> q ++ [x] <> q2 -> reach m root q = Ok t ->
  read_word m' (entry_address t x.2) = read_word m (entry_address t x.2).
Proof.
  intros Hq Hne Ht. pose proof Hq as [_ Hx]. apply Forall_app in Hx as [_ Hx%Forall_cons]. destruct Hx as [Hx _].
  assert (valid_path q) as Hvq by (by eapply valid_app). apply Hout.
  - intros Eq. apply Hne. pose proof (index_range v 2) as Hi.
    destruct (entry_address_inj t t2 x.2 (index v 2)) as [-> Hxi]; try done; [by eapply (reach_aligned avail)..|].
    assert (q = p2) as -> by (by eapply (pt_tree _ _ _ _ Hm); [|apply p2_valid|..]).
    change q2 with (p2 ++ [(2, index v 2)]). f_equal. f_equal.
    apply (valid_level p2); [done|apply (path_of_valid v [4; 3; 2]); done|done].
  - intros j Hj. by eapply held_apart.
Qed.

Lemma link_reach p : valid_path p -> reach m' root p = if decide (p = q2) then Ok l1 else reach m root p.
Proof.
  intros Hp.
  assert (forall p, valid_path p -> p <> q2 -> reach m' root p = reach m root p) as Hsame.
  { clear p Hp. intros p Hp Hne. apply reach_frame. intros q x t Hq Ht. apply (link_read q x t); [|..|done].
    - destruct Hq as [k ->]. exact (valid_app _ _ Hp).
    - intros Eq. rewrite Eq in Hq. apply Hne. destruct Hq as [[|y k] ->]; [by rewrite app_nil_r|].
      destruct Hp as [Hp%prefix_length _]. rewrite length_map, length_app in Hp. simpl in Hp. lia. }
  case_decide as Hd; [|by apply Hsame]. subst p. change q2 with (p2 ++ [(2, index v 2)]).
  rewrite reach_snoc, Hsame; [|apply p2_valid|by intros [= ?]]. unfold p2. rewrite Ht2. unfold step. simpl.
  destruct Hw as (W1 & W2 & W3 & _). by rewrite Hea, present_used, W2, W3.
Qed.

Lemma link_huge_unreached : reach m root q2 = Err WalkOutOfMemory \/ reach m root q2 = Err (HugePageConflict 2).
Proof.
  change q2 with (p2 ++ [(2, index v 2)]). rewrite reach_snoc. unfold p2. rewrite Ht2. unfold step. simpl.
  rewrite Hhuge. destruct (is_unused _); auto.
Qed.

Lemma link_pt_inv : pt_inv avail m' root a'.
Proof.
  assert (forall p t, valid_path p -> reach m' root p = Ok t ->
    (p = q2 /\ t = l1) \/ (p <> q2 /\ reach m root p = Ok t)) as Hc.
  { intros p t Hp. rewrite link_reach by done. case_decide; [intros [= <-]; by left|by right]. }
  split.
  - intros x. destruct (decide (x = entry_address t2 (index v 2))) as [->|Hx]; [rewrite Hea; apply Hw|].
    destruct (decide (Exists (fun j => x = entry_address l1 j) (seqZ 0 512))) as [Hj|Hj].
    + apply Exists_exists in Hj as (j & Hj%elem_of_seqZ & ->). destruct (Hin j) as [-> ?]; [lia|done].
    + rewrite Hout; [apply Hm|done|]. intros j Hj' ->. apply Hj, Exists_exists. exists j.
      split; [apply elem_of_seqZ; lia|done].
  - apply Hm.
  - intros p1 p3 t H1 H3 R1 R3. destruct (Hc p1 t H1 R1) as [[-> ->]|[_ R1']], (Hc p3 _ H3 R3) as [[-> E3]|[_ R3']].
    + done.
    + by destruct (pt_held _ _ _ _ Hm p3 l1 H3 R3').
    + subst t. by destruct (pt_held _ _ _ _ Hm p1 l1 H1 R1').
    + by eapply (pt_tree _ _ _ _ Hm).
  - intros p t Hp Hr [Hav Hne]%Ha'. destruct (Hc p t Hp Hr) as [[_ ->]|[_ Hr']]; [done|].
    by eapply (pt_held _ _ _ _ Hm).
  - intros f i [Hf Hne]%Ha' Hi. rewrite Hout; [by apply (pt_zero _ _ _ _ Hm)|..].
    + intros Eq. symmetry in Eq. revert Eq. by eapply held_apart; [|apply p2_valid|..|apply index_range|].
    + intros j Hj Eq. destruct (entry_address_inj f l1 i j) as [-> _]; try done; by apply (fa_avail a).
Qed.

Lemma link_clean : tables_clean m root -> tables_clean m' root.
Proof.
  intros Hc p t i Hp Hl Hr Hi.
  rewrite link_reach in Hr by done. case_decide as Hd; [subst p; simpl in Hl; lia|].
  destruct (decide (entry_address t i = entry_address t2 (index v 2))) as [->|Hne].
  - rewrite Hea. right. apply Hw.
  - rewrite Hout; [by apply (Hc p)|done|]. intros j Hj. by eapply held_apart.
Qed.

(** Walks of other 2 MiB pages are unaffected; those of this one end in the new table. *)
Lemma link_hw_other v' : path_of v' [4; 3; 2] <> q2 -> hw_leaf m' root v' = hw_leaf m root v'.
Proof.
  intros Hd. apply hw_leaf_frame. intros pre l suf t Hpre Ht.
  pose proof (walk_path_valid v' _ _ _ Hpre) as Hv.
  destruct (decide (l = 1)) as [->|Hl].
  - (* a level 1 table is a table of the hierarchy *)
    apply Hout.
    + intros Eq. destruct (entry_address_inj t t2 (index v' 1) (index v 2)) as [-> _]; try done;
        [by eapply (reach_aligned avail)..|apply index_range|apply index_range|].
      assert (path_of v' pre = p2) as Hp by (by eapply (pt_tree _ _ _ _ Hm); [|apply p2_valid|..]).
      apply (f_equal length) in Hp. unfold p2, path_of in Hp. rewrite !length_map in Hp.
      destruct pre as [|? [|? [|? [|]]]]; simplify_eq/=.
    + intros j Hj. by eapply held_apart; [..|apply index_range|].
  - assert (pre ++ [l] `prefix_of` [4; 3; 2]) as Hpl
      by (destruct pre as [|? [|? [|? [|? [|]]]]]; simplify_eq/=; try done; by eexists).
    apply (link_read (path_of v' pre) (l, index v' l)); rewrite <- ?path_of_snoc; [by apply path_of_valid| |done].
    intros Eq. apply Hd. rewrite <- Eq. destruct Hpl as [k Hk]. apply (f_equal length) in Eq.
    unfold q2, path_of in Eq. rewrite !length_map in Eq. destruct k; [by rewrite Hk, app_nil_r|].
    apply (f_equal length) in Hk. rewrite length_app, Eq in Hk. simpl in Hk. lia.
Qed.

Lemma link_hw_here e v' : hw_leaf m root v = Some (e, 2) -> path_of v' [4; 3; 2] = q2 ->
  hw_leaf m root v' = Some (e, 2) /\ hw_leaf m' root v' = hw_levels [1] m' l1 v'.
Proof.
  intros He [= E4 E3 E2]. pose proof (index_range v 4). pose proof (index_range v 3).
  assert (hw_leaf m root v' = hw_leaf m root v) as ->.
  { destruct (hw_leaf_2 m root v e He) as (l4e & l3e & R4 & R3 & R2 & P4 & P3 & P2 & H4 & H3 & H2 & _).
    rewrite He. unfold hw_leaf. cbn [hw_levels]. by rewrite E4, R4, P4, H4, E3, R3, P3, H3, E2, R2, P2, H2. }
  split; [done|].
  destruct (hw_leaf_2 m root v e He) as (l4e & l3e & R4 & R3 & _ & P4 & P3 & _ & H4 & H3 & _ & R2).
  assert (pte_addr l3e = t2) as Et2 by congruence. destruct Hw as (W1 & W2 & W3 & _).
  assert (read_word m' (entry_address root (index v 4)) = l4e) as R4'.
  { rewrite <- R4. apply (link_read [] (4, index v 4)); try done. apply (path_of_valid v [4]). by exists [3; 2]. }
  assert (read_word m' (entry_address (pte_addr l4e) (index v 3)) = l3e) as R3'.
  { rewrite <- R3. apply (link_read [(4, index v 4)] (3, index v 3)); try done.
    - apply (path_of_valid v [4; 3]). by exists [2].
    - unfold reach. simpl. unfold step. simpl. by rewrite R4, present_used, H4. }
  unfold hw_leaf. cbn [hw_levels]. rewrite E4, R4', P4, H4, E3, R3', P3, H3, E2, Et2, Hea, W1, W2, W3. done.
Qed.
End Link.

Lemma split_entries_spec base fl : 0 <= base < 2 ^ 52 -> base mod 2 ^ 21 = 0 ->
  exists es, split_entries base fl = Some es /\ zlen es = 512
  /\ forall j, 0 <= j < 512 -> es !! Z.to_nat j = Some (new_with_frame (base + j * 4096) fl).
Proof.
  intros Hb H0. pose proof (Z.div_mod base (2 ^ 21) ltac:(lia)).
  assert (base / 2 ^ 21 < 2 ^ 31) by (apply Z.div_lt_upper_bound; lia).
  unfold split_entries. rewrite (proj2 (Z.ltb_lt _ _)) by lia. eexists. split; [done|]. split.
  - unfold zlen. rewrite length_fmap, length_seqZ. done.
  - intros j Hj. rewrite list_lookup_fmap, (lookup_seqZ_lt 0 512) by lia. simpl. do 2 f_equal. lia.
Qed.

Lemma existing_flags_ok e : 0 <= e -> is_huge e = true ->
  let fl := Z.lor (Z.ldiff (pte_flags e) HUGE_PAGE) PRESENT in flags_ok fl /\ is_present fl = true.
Proof.
  intros He Hh fl. split; [split|].
  - apply Z.lor_nonneg. split; [|done]. apply Z.ldiff_nonneg. left. apply Z.land_nonneg. by left.
  - unfold fl, pte_flags. apply Z.bits_inj'. intros k Hk.
    rewrite Z.land_spec, Z.lor_spec, Z.ldiff_spec, Z.land_spec, Z.bits_0. unfold u64_not. rewrite Z.lxor_spec.
    rewrite addr_mask_bits by done. change PRESENT with (2 ^ 0).
    destruct (Z.leb_spec 12 k), (Z.ltb_spec k 52); simpl; rewrite ?andb_false_r; try done.
    rewrite Z.pow2_bits_false by lia. change u64_max with (Z.ones 64). rewrite Z.ones_spec_low by lia.
    by rewrite andb_false_r.
  - unfold is_present, fl. rewrite Z.land_lor_distr_l. apply negb_true_iff, Z.eqb_neq. intros E.
    apply Z.lor_eq_0_iff in E as [_ E]. done.
Qed.

Lemma is_huge_new f fl : frame_ok f -> is_huge (new_with_frame f fl) = is_huge fl.
Proof.
  intros Hf. unfold is_huge, new_with_frame. rewrite Z.land_lor_distr_l.
  by rewrite (land_low_flag f 7 Hf ltac:(lia) : Z.land f HUGE_PAGE = 0).
Qed.

Lemma or_present fl : flags_ok fl ->
  flags_ok (Z.lor fl PRESENT) /\ is_present (Z.lor fl PRESENT) = true /\ is_huge (Z.lor fl PRESENT) = is_huge fl.
Proof.
  intros [H0 Hm]. split; [split|split].
  - by apply Z.lor_nonneg.
  - by rewrite Z.land_lor_distr_l, Hm.
  - unfold is_present. rewrite Z.land_lor_distr_l. apply negb_true_iff, Z.eqb_neq.
    intros [_ E]%Z.lor_eq_0_iff. done.
  - unfold is_huge. by rewrite Z.land_lor_distr_l, Z.lor_0_r.
Qed.

(** The memory after a split, read word by word. *)
Lemma split_memory m l1 ea es w : zlen es = 512 -> (forall j, 0 <= j < 512 -> ea <> entry_address l1 j) ->
  let m' := <[ea := w]> (write_words (write_words m l1 0 (replicate 512 0)) l1 0 es) in
  read_word m' ea = w
  /\ (forall j x, 0 <= j < 512 -> es !! Z.to_nat j = Some x -> read_word m' (entry_address l1 j) = x)
  /\ (forall x, x <> ea -> (forall j, 0 <= j < 512 -> x <> entry_address l1 j) -> read_word m' x = read_word m x).
Proof.
  intros Hes Hea m'. unfold m'. split; [by rewrite read_insert, Z.eqb_refl|]. split.
  - intros j x Hj Hx. rewrite read_insert. destruct (Z.eqb_spec (entry_address l1 j) ea) as [Ee|_].
    + by destruct (Hea j Hj).
    + replace j with (0 + Z.of_nat (Z.to_nat j)) at 1 by lia. by apply read_words_in.
  - intros x Hx Hj. rewrite read_insert, (proj2 (Z.eqb_neq x ea)) by done.
    rewrite !read_words_out; [done|..]; intros k Hk; apply Hj; [unfold zlen in Hk; rewrite length_replicate in Hk; lia|lia].
Qed.

Record huge_at (m : Mem) (root v e : Z) : Prop := {
  ha_leaf : hw_leaf m root v = Some (e, 2);
  ha_aligned : pte_addr e mod 2 ^ 21 = 0
}.

(** A split succeeds unless no frame is left; it keeps the invariant of the hierarchy and
    every translation, and the pages of the large page have entries of their own. *)
Lemma split_spec m root a v fl e : pt_inv avail m root a -> fok a -> huge_at m root v e ->
  flags_ok fl -> is_huge fl = false ->
  match split_huge_page_2mb m root v fl a with
  | (Ok _, m', a') => pt_inv avail m' root a' /\ fok a' /\ (tables_clean m root -> tables_clean m' root)
      /\ (forall v', hw_translate m' root v' = hw_translate m root v')
      /\ exists x, hw_leaf m' root v = Some (x, 1)
  | (Err er, m', a') => er = MemFrameAllocationFailed /\ m' = m /\ a' = a /\ forall f, ~ avail a f
  | (Panic, _, _) => False
  end.
Proof.
  intros Hm Hok [He Hal] Hfl Hh. pose proof (hw_leaf_2 m root v e He) as (l4e & l3e & R4 & R3 & R2 & P4 & P3 & P2 & _ & _ & H2 & Ht2).
  unfold split_huge_page_2mb. rewrite R4, P4, R3, P3, R2, H2. cbn [negb].
  pose proof (fa_step a Hok) as Hs. destruct (fa_allocate a) as [[l1|er|] a']; [|by destruct Hs as [-> ?]|done].
  destruct Hs as (Hok' & Hav & Ha'). pose proof (fa_avail a l1 Hav) as Hf.
  assert (0 <= e) as He0 by (rewrite <- R2; apply Hm). destruct (existing_flags_ok e He0 H2) as [Hxf Hxp].
  pose proof (pte_addr_ok e He0) as [Hb _]. set (xf := Z.lor _ PRESENT) in *.
  destruct (split_entries_spec (pte_addr e) xf Hb Hal) as (es & -> & Hlen & Hes).
  destruct (or_present fl Hfl) as (Wf & Wp & Wh). set (w := new_with_frame l1 (Z.lor fl PRESENT)).
  set (ea := entry_address (pte_addr l3e) (index v 2)).
  assert (forall j, 0 <= j < 512 -> ea <> entry_address l1 j) as Hea.
  { intros j Hj. eapply (held_apart m root a (path_of v [4; 3])); try done; [|apply index_range].
    apply path_of_valid. by exists [2]. }
  destruct (split_memory m l1 ea es w Hlen Hea) as (M1 & M2 & M3). set (m' := <[ea := w]> _) in *.
  assert (is_present w = true /\ is_huge w = false /\ pte_addr w = l1 /\ 0 <= w) as Hw.
  { unfold w. rewrite is_present_new, is_huge_new, pte_addr_new, Wh by done. split_and!; try done.
    apply Z.lor_nonneg. split; [apply Hf|apply Wf]. }
  assert (forall j, 0 <= j < 512 -> frame_ok (pte_addr e + j * 4096)) as Hfr.
  { intros j Hj. pose proof (Z.div_mod (pte_addr e) (2 ^ 21) ltac:(lia)).
    assert (pte_addr e / 2 ^ 21 < 2 ^ 31) by (apply Z.div_lt_upper_bound; lia).
    split; [lia|]. rewrite Z.mod_add by lia. by apply (pte_addr_ok e). }
  set (E := fun j => new_with_frame (pte_addr e + j * 4096) xf).
  assert (forall j, 0 <= j < 512 -> read_word m' (entry_address l1 j) = E j /\ 0 <= E j) as Hin.
  { intros j Hj. split; [by apply M2, Hes|]. apply Z.lor_nonneg. split; [by apply Hfr|apply Hxf]. }
  assert (is_huge (read_word m ea) = true) as Hhuge by (unfold ea; by rewrite R2).
  assert (forall v', path_of v' [4; 3; 2] = path_of v [4; 3; 2] ->
    hw_leaf m root v' = Some (e, 2) /\ hw_leaf m' root v' = Some (E (index v' 1), 1)) as Hhere.
  { intros v' Hp. destruct (link_hw_here m m' root a v _ l1 w Hm Ht2 Hav Hw M1 M3 e v' He Hp) as [-> ->].
    split; [done|]. simpl. destruct (Hin (index v' 1) (index_range v' 1)) as [-> _].
    unfold E. rewrite is_present_new, Hxp by (apply Hfr, index_range). done. }
  split; [by eapply (link_pt_inv m m' root a a' v (pte_addr l3e) l1 w E)|]. split; [done|].
  split; [by eapply (link_clean m m' root a v (pte_addr l3e) l1 w)|]. split.
  - intros v'. unfold hw_translate. destruct (decide (path_of v' [4; 3; 2] = path_of v [4; 3; 2])) as [Hp|Hp].
    + destruct (Hhere v' Hp) as [-> ->]. simpl. f_equal. unfold leaf_address. cbn [fst snd].
      unfold E. rewrite pte_addr_new by (done || (apply Hfr, index_range)).
      change (leaf_size 1) with 4096. change (leaf_size 2) with (2 ^ 21). symmetry. apply split_address; [lia|done].
    + f_equal. by eapply (link_hw_other m m' root a v (pte_addr l3e) l1).
  - exists (E (index v 1)). by apply Hhere.
Qed.
End Split.

(** ** What the mapper promises

    For hierarchies in the invariant, whose entries above level 1 are unused or present:
    a mapping that succeeds makes the entry the page's leaf, one that fails changes no
    leaf, and neither touches another page.  A large page in the way, or an entry in
    use, is the reason the error names. *)
Definition page_in_use (m : Mem) (root v : Z) : Prop :=
  exists t, reach m root (path_of v [4; 3; 2]) = Ok t /\ read_word m (entry_address t (index v 1)) <> 0.

Definition leaf_flags (fl : Z) : Prop := flags_ok fl /\ is_present fl = true /\ is_huge fl = false.

Section Map.
Context {A : Type} `{FrameAllocator A} (fok : A -> Prop) (avail : A -> Z -> Prop) `{!LawfulFrames fok avail}.

Record tables_ok (m : Mem) (root : Z) (a : A) : Prop := {
  to_inv : pt_inv avail m root a;
  to_clean : tables_clean m root;
  to_frames : fok a
}.

Class LawfulMapper `{Mapper A} := {
  map_to_law m root a page frame fl : tables_ok m root a -> page mod 4096 = 0 -> frame_ok frame -> leaf_flags fl ->
    match map_to m root page frame fl a with
    | (r, m', a') => tables_ok m' root a'
      /\ match r with
         | Ok _ => hw_leaf m' root page = Some (new_with_frame frame fl, 1)
             /\ forall v, ~ same_page page v -> hw_leaf m' root v = hw_leaf m root v
         | Err er => (forall v, hw_leaf m' root v = hw_leaf m root v)
             /\ match er with
                | ParentEntryHugePage => is_huge (read_word m (entry_address root (index page 4))) = true
                    \/ exists e l, hw_leaf m root page = Some (e, l) /\ 2 <= l
                | PageAlreadyMapped => page_in_use m' root page
                | FrameAllocationFailed => True
                end
         | Panic => False
         end
    end;
  mapper_unmap_law m root a page : tables_ok m root a -> page mod 4096 = 0 ->
    let m' := (mapper_unmap m root page).2 in
    tables_ok m' root a /\ forall v, ~ same_page page v -> hw_leaf m' root v = hw_leaf m root v;
  entry_frame_law e : is_present e = true -> is_huge e = false -> entry_frame e = Some (pte_addr e);
  entry_frame_absent e : is_present e = false -> entry_frame e = None
}.

Lemma hw_leaf_same_page m root v v' : same_page v v' -> hw_leaf m root v = hw_leaf m root v'.
Proof.
  intros Hs. unfold hw_leaf. cbn [hw_levels]. by rewrite !Hs by set_solver.
Qed.

Lemma page_of_address va : 0 <= va <= u64_max ->
  align_down va 4096 mod 4096 = 0 /\ same_page (align_down va 4096) va.
Proof.
  intros Hva. rewrite align_page by done. split; [by rewrite Z.mul_comm, Z.mod_mul|].
  intros l Hl. apply index_page; [by rewrite Z.mul_comm, Z.div_mul|].
  repeat (apply elem_of_cons in Hl as [->|Hl]; [lia|]). by apply not_elem_of_nil in Hl.
Qed.

Lemma frame_of_address pa : 0 <= pa < 2 ^ 52 -> frame_ok (align_down pa 4096).
Proof.
  intros Hpa. rewrite align_page by (unfold u64_max; lia). split; [|by rewrite Z.mul_comm, Z.mod_mul].
  pose proof (Z.div_mod pa 4096 ltac:(lia)). pose proof (Z.mod_pos_bound pa 4096 ltac:(lia)). lia.
Qed.

(** Without large pages on the way, the flags reported are those of the page's leaf in
    the hierarchy of CR3, and none for a page without one. *)
Lemma get_page_flags_leaf `{!Mapper A, !LawfulMapper} pt root cr3 m va :
  ppt_initialized pt = true -> ppt_mapper pt = Some root -> 0 <= va < 2 ^ 47 ->
  is_huge (read_word m (entry_address cr3 (index va 4))) = false ->
  (forall e l, hw_leaf m cr3 va = Some (e, l) -> l = 1) ->
  ppt_get_page_flags pt cr3 m va = Ok (match hw_leaf m cr3 va with Some (e, _) => pte_flags e | None => 0 end).
Proof.
  intros Hi Hmp Hva H4 Hl. unfold ppt_get_page_flags. rewrite Hi, Hmp. cbn [negb].
  rewrite canonical_iff, (proj2 (Z.ltb_lt va _)) by (unfold u64_max; lia). cbn [orb]. f_equal.
  revert Hl. unfold hw_leaf. cbn [hw_levels flags_loop].
  change (4 =? 1) with false. change (3 =? 1) with false. change (2 =? 1) with false. change (1 =? 1) with true.
  change (4 =? 4) with true. change (3 =? 4) with false. change (2 =? 4) with false. cbv iota.
  set (l4e := read_word m _) in *. destruct (is_present l4e) eqn:P4; [|by rewrite entry_frame_absent].
  rewrite entry_frame_law, H4 by done. cbn [negb]. set (l3e := read_word m _).
  destruct (is_present l3e) eqn:P3; [|by rewrite entry_frame_absent]. cbn [negb].
  destruct (is_huge l3e) eqn:H3; [intros Hl; by specialize (Hl _ _ eq_refl)|].
  rewrite entry_frame_law by done. set (l2e := read_word m _).
  destruct (is_present l2e) eqn:P2; [|by rewrite entry_frame_absent]. cbn [negb].
  destruct (is_huge l2e) eqn:H2; [intros Hl; by specialize (Hl _ _ eq_refl)|].
  rewrite entry_frame_law by done. intros _. by destruct (is_present (read_word m (entry_address (pte_addr l2e) _))).
Qed.

(** What [ppt_map_page] leaves behind for a page, a frame and flags. *)
Definition map_outcome (m m' : Mem) (root va frame fl : Z) (r : result PtError unit) : Prop :=
  (forall v, ~ same_page va v -> hw_translate m' root v = hw_translate m root v)
  /\ match r with
     | Ok _ => hw_leaf m' root va = Some (new_with_frame frame fl, 1)
         \/ page_in_use m' root va /\ forall v, hw_leaf m' root v = hw_leaf m root v
     | Err _ => True
     | Panic => False
     end.

Context `{!Mapper A, !LawfulMapper}.

(** Mapping again after the split. *)
Lemma remap_spec m root a va frame fl : tables_ok m root a -> 0 <= va <= u64_max -> frame_ok frame -> leaf_flags fl ->
  let page := align_down va 4096 in
  match map_to (mapper_unmap m root page).2 root page frame fl a with
  | (r, m', a') => tables_ok m' root a'
      /\ (forall v, ~ same_page va v -> hw_leaf m' root v = hw_leaf m root v)
      /\ match r with
         | Ok _ => hw_leaf m' root va = Some (new_with_frame frame fl, 1)
         | Err _ => True
         | Panic => False
         end
  end.
Proof.
  intros Hok Hva Hf Hfl page. destruct (page_of_address va Hva) as [Hal Hsp]. fold page in Hal, Hsp.
  destruct (mapper_unmap_law m root a page Hok Hal) as [Hok1 Hu].
  pose proof (map_to_law _ root a page frame fl Hok1 Hal Hf Hfl) as Hm.
  destruct (map_to _ root page frame fl a) as [[r m'] a']. destruct Hm as [Hok2 Hm]. split; [done|].
  assert (forall v, ~ same_page va v -> ~ same_page page v) as Hns.
  { intros v Hv Hp. apply Hv. intros l Hl. rewrite <- (Hsp l Hl). by apply Hp. }
  destruct r as [u|er|]; [|..|done].
  - destruct Hm as [H1 H2]. split; [intros v Hv; rewrite H2, Hu; auto|].
    by rewrite <- (hw_leaf_same_page m' root page va Hsp).
  - split; [|done]. intros v Hv. rewrite (proj1 Hm), Hu; auto.
Qed.

(** The branch of a large page. *)
Lemma map_after_split_spec m root a va frame fl e : tables_ok m root a -> huge_at m root va e ->
  0 <= va <= u64_max -> frame_ok frame -> leaf_flags fl ->
  match map_after_split root root m a va (align_down va 4096) frame fl with
  | (r, m', a') => tables_ok m' root a'
      /\ (forall v, ~ same_page va v -> hw_translate m' root v = hw_translate m root v)
      /\ match r with
         | Ok _ => hw_leaf m' root va = Some (new_with_frame frame fl, 1)
         | Err _ => True
         | Panic => False
         end
  end.
Proof.
  intros Hok Hhuge Hva Hf Hfl. unfold map_after_split.
  pose proof (split_spec fok avail m root a va fl e (to_inv _ _ _ Hok) (to_frames _ _ _ Hok) Hhuge
    (proj1 Hfl) (proj2 (proj2 Hfl))) as Hs.
  destruct (split_huge_page_2mb m root va fl a) as [[[u|er|] m2] a2]; [| |done].
  - destruct Hs as (Hinv & Hfok & Hcl & Htr & _).
    assert (tables_ok m2 root a2) as Hok2 by (split; [done|apply Hcl, Hok|done]).
    pose proof (remap_spec m2 root a2 va frame fl Hok2 Hva Hf Hfl) as Hr. cbv zeta in Hr.
    destruct (map_to _ root _ frame fl a2) as [[r m3] a3]. destruct Hr as (Hok3 & Hr1 & Hr2).
    assert (forall v, ~ same_page va v -> hw_translate m3 root v = hw_translate m root v) as Hall.
    { intros v Hv. rewrite <- (Htr v). unfold hw_translate. by rewrite Hr1. }
    by destruct r.
  - by destruct Hs as (_ & -> & -> & _).
Qed.

End Map.

(** ** The walker of [PageTable] as a mapper *)
Definition walker_map_to {A} `{FrameAllocator A} (m : Mem) (root page frame fl : Z) (a : A) :
    result MapToError unit * Mem * A :=
  match walk_or_create m root page a 1 with
  | (Ok ea, m', a') => if is_unused (read_word m' ea) then (Ok tt, <[ea := new_with_frame frame fl]> m', a')
                       else (Err PageAlreadyMapped, m', a')
  | (Err (HugePageConflict _), m', a') => (Err ParentEntryHugePage, m', a')
  | (Err _, m', a') => (Err FrameAllocationFailed, m', a')
  | (Panic, m', a') => (Panic, m', a')
  end.

Definition walker_unmap (m : Mem) (root page : Z) : option Z * Mem :=
  match walk m root page 1 with
  | Ok ea => if is_present (read_word m ea) then (Some (pte_addr (read_word m ea)), <[ea := 0]> m) else (None, m)
  | _ => (None, m)
  end.

Definition walker_update_flags (m : Mem) (root page fl : Z) : bool * Mem :=
  match walk m root page 1 with
  | Ok ea => if is_unused (read_word m ea) then (false, m) else (true, <[ea := set_flags (read_word m ea) fl]> m)
  | _ => (false, m)
  end.

#[export] Instance walker_mapper {A} `{FrameAllocator A} : Mapper A := {
  map_to := walker_map_to;
  mapper_unmap := walker_unmap;
  update_flags := walker_update_flags;
  mapper_translate := fun m root v => (fun x => (leaf_address x v - v mod leaf_size x.2, v mod leaf_size x.2)) <$> hw_leaf m root v;
  entry_frame := fun e => if is_present e && negb (is_huge e) then Some (pte_addr e) else None
}.

(** With clean tables the processor follows every path the walker reaches. *)
Lemma hw_levels_clean m root v : tables_clean m root ->
  forall pre t, pre `prefix_of` [4; 3; 2] -> reach m root (path_of v pre) = Ok t ->
  forall ls, pre ++ ls = [4; 3; 2; 1] -> hw_leaf m root v = hw_levels ls m t v.
Proof.
  intros Hc pre. induction pre as [|l pre IH] using rev_ind; intros t Hpre Ht ls Hls.
  - injection Ht as <-. simpl in Hls. by rewrite Hls.
  - rewrite path_of_snoc, reach_snoc in Ht.
    destruct (reach m root (path_of v pre)) as [t0|er|] eqn:Et0; [|done..]. unfold step in Ht. simpl in Ht.
    assert (pre `prefix_of` [4; 3; 2]) as Hpre0 by (etransitivity; [|exact Hpre]; by apply prefix_app_r).
    rewrite (IH t0 Hpre0 eq_refl (l :: ls)) by (by rewrite <- Hls, <- app_assoc). cbn [hw_levels].
    set (e := read_word m _) in *. destruct (is_unused e) eqn:Eu; [done|]. destruct (is_huge e) eqn:Eh; [done|].
    injection Ht as <-.
    destruct (Hc (path_of v pre) t0 (index v l)) as [E0|E1]; try done.
    + by apply path_of_valid.
    + unfold path_of. rewrite length_map. apply prefix_length in Hpre. rewrite length_app in Hpre. simpl in Hpre. lia.
    + apply index_range.
    + fold e in E0. unfold is_unused in Eu. by rewrite E0 in Eu.
    + fold e in E1. rewrite E1. cbn [negb]. destruct (Z.eqb_spec l 1) as [->|]; [|done].
      destruct Hpre as [k Hk]. exfalso. assert (1 ∈ [4; 3; 2]) as Hin by (rewrite Hk; set_solver). set_solver by lia.
Qed.

Section WalkerLaws.
Context {A : Type} `{FrameAllocator A} (fok : A -> Prop) (avail : A -> Z -> Prop) `{!LawfulFrames fok avail}.

(** A walk reads an entry only on its own path. *)
Lemma walk_apart m root a p t i v : pt_inv avail m root a -> valid_path p -> reach m root p = Ok t -> 0 <= i < 512 ->
  (forall pre l suf, pre ++ l :: suf = [4; 3; 2; 1] -> path_of v pre = p -> index v l <> i) ->
  walk_reads m root v (fun x => x <> entry_address t i).
Proof.
  intros Hm Hp Ht Hi Hno pre l suf t' Hpre Ht' Eq.
  destruct (entry_address_inj t' t (index v l) i) as [-> Hx]; try done; [by eapply (reach_aligned avail)..|apply index_range|].
  apply (Hno pre l suf Hpre); [|done].
  eapply (pt_tree _ _ _ _ Hm); [by eapply walk_path_valid|done|done|done].
Qed.

Lemma hw_write_elsewhere m root a p t i w v : pt_inv avail m root a -> valid_path p -> reach m root p = Ok t ->
  0 <= i < 512 ->
  (forall pre l suf, pre ++ l :: suf = [4; 3; 2; 1] -> path_of v pre = p -> index v l <> i) ->
  hw_leaf (<[entry_address t i := w]> m) root v = hw_leaf m root v.
Proof.
  intros Hm Hp Ht Hi Hno. apply hw_leaf_frame. intros pre l suf t' Hpre Ht'.
  pose proof (walk_apart m root a p t i v Hm Hp Ht Hi Hno pre l suf t' Hpre Ht') as Hne. simpl in Hne.
  by rewrite read_insert, (proj2 (Z.eqb_neq _ _)).
Qed.

(** Linking a new empty table. *)
Lemma link_new_clean m root a v pre l t f : pt_inv avail m root a -> tables_clean m root ->
  pre ++ [l] `prefix_of` [4; 3; 2] -> reach m root (path_of v pre) = Ok t ->
  read_word m (entry_address t (index v l)) = 0 -> avail a f ->
  tables_clean (<[entry_address t (index v l) := new_with_frame f TABLE_FLAGS]> m) root.
Proof.
  intros Hm Hc Hpre Ht H0 Hf p t' i Hp Hl Hr Hi. pose proof (fa_avail a f Hf) as Hfo.
  assert (valid_path (path_of v pre ++ [(l, index v l)])) as Hv by (rewrite <- path_of_snoc; by apply path_of_valid).
  assert (valid_path (path_of v pre)) as Hvp by (by eapply valid_app).
  rewrite read_insert. destruct (Z.eqb_spec (entry_address t' i) (entry_address t (index v l))) as [|Hne].
  { right. rewrite is_present_new by done. done. }
  destruct (decide (path_of v pre ++ [(l, index v l)] `prefix_of` p)) as [[s ->]|Hn].
  - rewrite (link_below avail m root a) in Hr by done. destruct s as [|[k j] s].
    + injection Hr as <-. left. by apply (pt_zero _ _ _ _ Hm).
    + destruct Hp as [_ Hp]. apply Forall_app in Hp as [_ Hj%Forall_cons]. destruct Hj as [Hj _]. simpl in Hj.
      by rewrite (proj2 (Z.leb_le 0 j)), (proj2 (Z.ltb_lt j 512)) in Hr by lia.
  - rewrite (link_elsewhere avail m root a (path_of v pre) l) in Hr by done. by apply (Hc p).
Qed.

Lemma link_new_hw m root a v pre l suf t f v' : pt_inv avail m root a -> tables_clean m root ->
  pre ++ l :: suf = [4; 3; 2; 1] -> l <> 1 -> reach m root (path_of v pre) = Ok t ->
  read_word m (entry_address t (index v l)) = 0 -> avail a f ->
  hw_leaf (<[entry_address t (index v l) := new_with_frame f TABLE_FLAGS]> m) root v' = hw_leaf m root v'.
Proof.
  intros Hm Hc Hpre Hl Ht H0 Hf. pose proof (fa_avail a f Hf) as Hfo.
  assert (pre ++ [l] `prefix_of` [4; 3; 2]) as Hpl
    by (destruct pre as [|? [|? [|? [|? [|]]]]]; simplify_eq/=; try done; by eexists).
  assert (pre `prefix_of` [4; 3; 2]) as Hpp by (etransitivity; [|exact Hpl]; by apply prefix_app_r).
  set (m' := <[_ := _]> m). pose proof (link_new_clean m root a v pre l t f Hm Hc Hpl Ht H0 Hf) as Hc'.
  destruct (decide (path_of v' (pre ++ [l]) = path_of v (pre ++ [l]))) as [Heq|Hne].
  - rewrite !path_of_snoc in Heq. apply app_inj_tail in Heq as [Heq [= Hi]].
    rewrite (hw_levels_clean m root v' Hc pre t Hpp ltac:(by rewrite Heq) _ Hpre). cbn [hw_levels]. rewrite Hi, H0. simpl.
    assert (reach m' root (path_of v' (pre ++ [l])) = Ok f) as Hr.
    { rewrite path_of_snoc, Heq, Hi, <- (app_nil_r (_ ++ [_])). unfold m'.
      rewrite (link_below avail m root a); try done. rewrite <- path_of_snoc. by apply path_of_valid. }
    rewrite (hw_levels_clean m' root v' Hc' _ f Hpl Hr suf) by (by rewrite <- app_assoc).
    destruct suf as [|l' suf]; [done|]. cbn [hw_levels]. unfold m'. rewrite read_insert, (proj2 (Z.eqb_neq _ _)).
    + by rewrite (pt_zero _ _ _ _ Hm f) by (done || apply index_range).
    + apply not_eq_sym. eapply (held_apart fok avail m root a (path_of v pre)); try done; [|apply index_range..].
      by apply path_of_valid.
  - apply (hw_write_elsewhere m root a (path_of v pre)); [done|by apply path_of_valid|done|apply index_range|].
    intros pre' l' suf' Hpre' Hp' Hi'. apply Hne. rewrite !path_of_snoc, <- Hp'.
    assert (length pre' = length pre) as Hlen
      by (apply (f_equal length) in Hp'; unfold path_of in Hp'; by rewrite !length_map in Hp').
    rewrite <- Hpre' in Hpre. apply app_inj_1 in Hpre as [<- [= <- _]]; [|done]. by rewrite Hi'.
Qed.

(** The new hierarchy after a link, and the leaf where a large page stops the walk. *)
Lemma link_new_ok m root a a' v pre l suf t f : tables_ok fok avail m root a ->
  pre ++ l :: suf = [4; 3; 2; 1] -> l <> 1 -> reach m root (path_of v pre) = Ok t ->
  read_word m (entry_address t (index v l)) = 0 -> fok a' -> avail a f ->
  (forall g, avail a' g <-> avail a g /\ g <> f) ->
  let m' := <[entry_address t (index v l) := new_with_frame f TABLE_FLAGS]> m in
  tables_ok fok avail m' root a' /\ reach m' root (path_of v (pre ++ [l])) = Ok f
  /\ forall v', hw_leaf m' root v' = hw_leaf m root v'.
Proof.
  intros [Hm Hc Hf] Hpre Hl Ht H0 Hf' Hav Hav' m'. pose proof (fa_avail a f Hav) as Hfo.
  assert (pre ++ [l] `prefix_of` [4; 3; 2]) as Hpl
    by (destruct pre as [|? [|? [|? [|? [|]]]]]; simplify_eq/=; try done; by eexists).
  assert (valid_path (path_of v pre ++ [(l, index v l)])) as Hv by (rewrite <- path_of_snoc; by apply path_of_valid).
  split_and!.
  - split; [|by apply (link_new_clean m root a v pre l t f)|done]. by eapply (link_inv fok avail).
  - rewrite path_of_snoc, <- (app_nil_r (_ ++ [_])). unfold m'. by rewrite (link_below avail m root a).
  - intros v'. by eapply (link_new_hw m root a v pre l suf).
Qed.

Lemma huge_conflict_leaf m root v pre l suf t : tables_clean m root ->
  pre ++ l :: suf = [4; 3; 2; 1] -> l <> 1 -> reach m root (path_of v pre) = Ok t ->
  let e := read_word m (entry_address t (index v l)) in is_unused e = false -> is_huge e = true ->
  is_huge (read_word m (entry_address root (index v 4))) = true
  \/ exists e l, hw_leaf m root v = Some (e, l) /\ 2 <= l.
Proof.
  intros Hc Hpre Hl Ht e Eu Eh. destruct (decide (l = 4)) as [->|Hl4].
  - left. assert (pre = []) as -> by (destruct pre as [|? [|? [|? [|? [|]]]]]; simplify_eq/=; done).
    by injection Ht as ->.
  - assert (pre `prefix_of` [4; 3; 2] /\ 2 <= l /\ (length pre < 3)%nat) as (Hpp & Hl2 & Hlen)
      by (destruct pre as [|? [|? [|? [|? [|]]]]]; simplify_eq/=; split_and!; try lia; by eexists).
    right. exists e, l. split; [|done].
    rewrite (hw_levels_clean m root v Hc pre t Hpp Ht _ Hpre). cbn [hw_levels]. fold e.
    destruct (Hc (path_of v pre) t (index v l)) as [E0|E1]; try done.
    + by apply path_of_valid.
    + unfold path_of. by rewrite length_map.
    + apply index_range.
    + fold e in E0. unfold is_unused in Eu. by rewrite E0 in Eu.
    + fold e in E1. by rewrite E1, (proj2 (Z.eqb_neq l 1)), Eh, (proj2 (Z.eqb_neq l 4)) by done.
Qed.

Lemma create_levels_hw v ls : forall pre m root t a, pre ++ ls = [4; 3; 2] ->
  tables_ok fok avail m root a -> reach m root (path_of v pre) = Ok t ->
  match create_levels ls v m t a with
  | (r, m', a') => tables_ok fok avail m' root a' /\ (forall v', hw_leaf m' root v' = hw_leaf m root v')
    /\ match r with
       | Ok t' => reach m' root (path_of v [4; 3; 2]) = Ok t'
       | Err (HugePageConflict _) => is_huge (read_word m (entry_address root (index v 4))) = true
           \/ exists e l, hw_leaf m root v = Some (e, l) /\ 2 <= l
       | Err _ => True
       | Panic => False
       end
  end.
Proof.
  induction ls as [|l ls IH]; intros pre m root t a Hpre Hok Ht; simpl.
  { rewrite app_nil_r in Hpre. by rewrite Hpre in Ht. }
  assert (pre ++ l :: ls ++ [1] = [4; 3; 2; 1]) as Hfull
    by (change [4; 3; 2; 1] with ([4; 3; 2] ++ [1]); by rewrite <- Hpre, <- app_assoc).
  assert (l <> 1) as Hl by (destruct pre as [|? [|? [|? [|]]]]; simplify_eq/=; lia).
  assert ((pre ++ [l]) ++ ls = [4; 3; 2]) as Hpre' by (by rewrite <- app_assoc).
  set (e := read_word m (entry_address t (index v l))) in *. destruct (is_unused e) eqn:Eu.
  - unfold is_unused in Eu. apply Z.eqb_eq in Eu. unfold alloc_zeroed.
    pose proof (fa_step a (to_frames _ _ _ _ _ Hok)) as Hs.
    destruct (fa_allocate a) as [[f|er|] a']; [|by destruct Hs as [-> ?]|done].
    destruct Hs as (Hf' & Hav & Hav'). pose proof (fa_avail a f Hav) as Hfo. fold TABLE_FLAGS.
    destruct (table_entry f Hfo) as (_ & _ & ->).
    destruct (link_new_ok m root a a' v pre l (ls ++ [1]) t f Hok Hfull Hl Ht Eu Hf' Hav Hav') as (Hok1 & Hr & Hsame).
    set (m1 := <[_ := _]> m) in *. specialize (IH (pre ++ [l]) m1 root f a' Hpre' Hok1 Hr).
    destruct (create_levels ls v m1 f a') as [[r m2] a2]. destruct IH as (H1 & H2 & H3). split; [done|].
    split; [intros v'; by rewrite H2|]. destruct r as [|[]|]; try done. rewrite Hsame in H3.
    destruct H3 as [H3|H3]; [|by right]. unfold m1 in H3. rewrite read_insert in H3.
    destruct (_ =? _); [|by left]. by rewrite is_huge_new in H3.
  - destruct (is_huge e) eqn:Eh.
    + split; [done|]. split; [done|]. by apply (huge_conflict_leaf m root v pre l (ls ++ [1]) t (to_clean _ _ _ _ _ Hok)).
    + apply (IH (pre ++ [l])); try done. rewrite path_of_snoc, reach_snoc, Ht. unfold step. simpl. fold e. by rewrite Eu, Eh.
Qed.

(** Writing a level 1 entry. *)
Lemma write_leaf_hw m root a v t w : tables_ok fok avail m root a -> reach m root (path_of v [4; 3; 2]) = Ok t -> 0 <= w ->
  let m' := <[entry_address t (index v 1) := w]> m in
  tables_ok fok avail m' root a
  /\ hw_leaf m' root v = (if is_present w then Some (w, 1) else None)
  /\ forall v', ~ same_page v v' -> hw_leaf m' root v' = hw_leaf m root v'.
Proof.
  intros [Hm Hc Hf] Ht Hw m'. pose proof (index_range v 1) as Hi.
  assert (forall p', valid_path p' -> reach m' root p' = reach m root p') as Hreach.
  { intros p' Hv'. apply (write_elsewhere avail m root a (path_of v [4; 3; 2]) 0); try done; [apply path_of_full|..].
    - intros y _ [Hy _]. apply prefix_length in Hy. rewrite length_map, length_app in Hy. simpl in Hy. lia.
    - intros Hp%prefix_length. destruct Hv' as [Hv'%prefix_length _]. rewrite length_map in Hv'.
      rewrite length_app in Hp. simpl in *. lia. }
  assert (tables_clean m' root) as Hc'.
  { intros p t' i Hp Hl Hr Hj. rewrite Hreach in Hr by done. unfold m'. rewrite read_insert.
    destruct (Z.eqb_spec (entry_address t' i) (entry_address t (index v 1))) as [Eq|]; [|by apply (Hc p)].
    exfalso. destruct (entry_address_inj t' t i (index v 1)) as [-> _]; try done; [by eapply (reach_aligned avail)..|].
    assert (p = path_of v [4; 3; 2]) as -> by (eapply (pt_tree _ _ _ _ Hm); [done|apply path_of_full|done|done]).
    simpl in Hl. lia. }
  split_and!.
  - split; [|done|done]. by apply (write_leaf fok avail m root a v t w).
  - rewrite (hw_levels_clean m' root v Hc' [4; 3; 2] t) with (ls := [1]); try done.
    + cbn [hw_levels]. unfold m'. rewrite read_insert, Z.eqb_refl. by destruct (is_present w).
    + rewrite Hreach; [done|apply path_of_full].
  - intros v' Hs. apply (hw_write_elsewhere m root a (path_of v [4; 3; 2])); [done|apply path_of_full|done|done|].
    intros pre l suf Hpre Hp Hx. apply Hs.
    assert (pre = [4; 3; 2] /\ l = 1) as [-> ->].
    { apply (f_equal length) in Hp. unfold path_of in Hp. rewrite !length_map in Hp.
      destruct pre as [|? [|? [|? [|? [|]]]]]; simplify_eq/=; done. }
    by apply same_page_path.
Qed.

#[export] Instance walker_lawful : LawfulMapper fok avail.
Proof.
  split.
  - intros m root a page frame fl Hok _ Hf Hfl. simpl. unfold walker_map_to, walk_or_create.
    change ((1 <=? 1) && (1 <=? 3)) with true. cbv iota. change (levels 1) with [4; 3; 2].
    pose proof (create_levels_hw page [4; 3; 2] [] m root root a eq_refl Hok eq_refl) as Hc.
    destruct (create_levels [4; 3; 2] page m root a) as [[r m1] a1]. destruct Hc as (Hok1 & Hsame & Hr).
    destruct r as [t|[]|]; [|done..]. unfold is_unused.
    destruct (Z.eqb_spec (read_word m1 (entry_address t (index page 1))) 0) as [E0|E0].
    + destruct (write_leaf_hw m1 root a1 page t (new_with_frame frame fl) Hok1 Hr) as (H1 & H2 & H3).
      * apply Z.lor_nonneg. split; [apply Hf|apply Hfl].
      * split; [done|]. rewrite H2, is_present_new, (proj1 (proj2 Hfl)) by done. split; [done|].
        intros v Hv. by rewrite H3.
    + split; [done|]. split; [done|]. by exists t.
  - intros m root a page Hok _. simpl. unfold walker_unmap, walk, walk_to_table.
    change ((1 <=? 1) && (1 <=? 3)) with true. cbv iota. change (levels 1) with [4; 3; 2].
    rewrite walk_levels_reach. destruct (reach m root (path_of page [4; 3; 2])) as [t|er|] eqn:Et; [|done..].
    destruct (is_present _); [|done]. cbn [snd].
    destruct (write_leaf_hw m root a page t 0 Hok Et) as (H1 & _ & H3); done.
  - intros e Hp Hh. simpl. by rewrite Hp, Hh.
  - intros e Hp. simpl. by rewrite Hp.
Qed.
End WalkerLaws.

(** ** Cloning *)
Lemma copy_present_spec src dst n : forall i m, src mod 4096 = 0 -> dst mod 4096 = 0 -> src <> dst ->
  0 <= i -> i + Z.of_nat n <= 512 ->
  let m' := copy_present n i m src dst in
  (forall j, i <= j < i + Z.of_nat n -> read_word m' (entry_address dst j) =
     let e := read_word m (entry_address src j) in if is_present e then e else read_word m (entry_address dst j))
  /\ (forall x, (forall j, i <= j < i + Z.of_nat n -> x <> entry_address dst j) -> read_word m' x = read_word m x).
Proof.
  induction n as [|n IH]; intros i m Hs Hd Hne Hi Hn; cbn [copy_present]; [split; [lia|done]|].
  set (m1 := if is_present _ then _ else m).
  assert (forall x, x <> entry_address dst i -> read_word m1 x = read_word m x) as H1.
  { intros x Hx. unfold m1. case_match; [|done]. by rewrite read_insert, (proj2 (Z.eqb_neq _ _)). }
  destruct (IH (i + 1) m1 Hs Hd Hne ltac:(lia) ltac:(lia)) as [IH1 IH2]. cbv zeta. split.
  - intros j Hj. destruct (decide (j = i)) as [->|Hji].
    + rewrite IH2 by (intros k Hk Eq; apply entry_address_inj in Eq as [_ ?]; (done || lia)).
      unfold m1. case_match; [|done]. by rewrite read_insert, Z.eqb_refl.
    + rewrite IH1 by lia. cbv zeta.
      rewrite !H1; [done|intros Eq; apply entry_address_inj in Eq as [? ?]; (done || lia)..].
  - intros x Hx. rewrite IH2 by (intros; apply Hx; lia). apply H1, Hx. lia.
Qed.

Section Clone.
Context {A : Type} `{FrameAllocator A} (fok : A -> Prop) (avail : A -> Z -> Prop) `{!LawfulFrames fok avail}.

(** The hierarchies of two roots with the same entries at level 4, in any memory. *)
Lemma same_roots m r1 r2 v : read_word m (entry_address r1 (index v 4)) = read_word m (entry_address r2 (index v 4)) ->
  hw_leaf m r1 v = hw_leaf m r2 v.
Proof. intros E. unfold hw_leaf. cbn [hw_levels]. by rewrite E. Qed.

Lemma clone_memory m src dst a n : pt_inv avail m src a -> avail a dst -> n = 512%nat ->
  let m' := copy_present n 0 m src dst in
  (forall v, hw_leaf m' dst v = hw_leaf m src v) /\ (forall v, hw_leaf m' src v = hw_leaf m src v).
Proof.
  intros Hm Hav Hn m'. pose proof (fa_avail a dst Hav) as [_ Hal].
  assert (src <> dst) as Hne by (intros ->; by eapply (pt_held _ _ _ _ Hm []); [split; [by eexists|constructor]|..]).
  destruct (copy_present_spec src dst n 0 m (pt_root _ _ _ _ Hm) Hal Hne ltac:(lia) ltac:(lia)) as [C1 C2].
  fold m' in C1, C2. clearbody m'.
  assert (forall v, walk_reads m src v (fun x => read_word m' x = read_word m x)) as Hreads.
  { intros v pre l suf t Hpre Ht. apply C2. intros j Hj. eapply (held_apart fok avail m src a); try done; [|apply index_range|lia].
    by eapply walk_path_valid. }
  assert (forall v, hw_leaf m' src v = hw_leaf m src v) as Hsame by (intros v; by apply hw_leaf_frame).
  split; [|done]. intros v. rewrite <- Hsame. pose proof (index_range v 4) as Hx. specialize (C1 (index v 4) ltac:(lia)).
  cbv zeta in C1. rewrite (pt_zero _ _ _ _ Hm dst _ Hav Hx) in C1.
  rewrite <- (Hreads v [] 4 [3; 2; 1] src eq_refl eq_refl) in C1.
  destruct (is_present (read_word m' (entry_address src (index v 4)))) eqn:Ep; [by apply same_roots|].
  unfold hw_leaf. cbn [hw_levels]. by rewrite C1, Ep.
Qed.


(** A clone shares the tables below level 4 with its source: whatever is written later
    outside the two roots, the addresses under an entry the clone received translate
    alike in both. *)
Lemma clone_shares m src dst m2 v : src mod 4096 = 0 -> dst mod 4096 = 0 -> src <> dst ->
  is_present (read_word m (entry_address src (index v 4))) = true ->
  (forall r j, r = src \/ r = dst -> 0 <= j < 512 ->
     read_word m2 (entry_address r j) = read_word (copy_present 512 0 m src dst) (entry_address r j)) ->
  hw_leaf m2 src v = hw_leaf m2 dst v.
Proof.
  intros Hs Hd Hne Hp H2. destruct (copy_present_spec src dst 512 0 m Hs Hd Hne ltac:(lia) ltac:(lia)) as [C1 C2].
  pose proof (index_range v 4) as Hx. apply same_roots. rewrite !H2 by auto. rewrite C1 by lia. cbv zeta. rewrite Hp.
  apply C2. intros j Hj Eq. apply entry_address_inj in Eq as [? _]; (done || lia).
Qed.
End Clone.

(** ** A small machine

    A 2 MiB page at [0x200000] over physical [0x400000], writable by user code, in a
    hierarchy of three tables; frames 1 to 8 are free. *)
Definition demo_root : Z := 0x100000.
Definition demo_mem : Mem :=
  <[0x100000 := 0x101007]> (<[0x101000 := 0x102007]> (<[0x102008 := 0x400087]> ∅)).
Definition demo_ppt : ProcessPageTable := ppt_initialize demo_root ppt_new.

Lemma demo_reach p t : valid_path p -> reach demo_mem demo_root p = Ok t ->
  p = [] /\ t = 0x100000 \/ p = [(4, 0)] /\ t = 0x101000 \/ p = [(4, 0); (3, 0)] /\ t = 0x102000.
Proof.
  revert t. induction p as [|[l i] p IH] using rev_ind; intros t Hp Hr; [injection Hr as <-; by left|].
  rewrite reach_snoc in Hr. assert (valid_path p) as Hp' by (by eapply valid_app).
  destruct (reach demo_mem demo_root p) as [t0|er|]; [|done..]. specialize (IH t0 Hp' eq_refl).
  destruct Hp as [Hl Hi]. apply Forall_app in Hi as [_ Hi%Forall_cons]. destruct Hi as [Hi _]. simpl in Hi.
  unfold step, demo_mem, entry_address in Hr. cbn [snd fst] in Hr. rewrite !read_insert in Hr.
  destruct IH as [[-> ->]|[[-> ->]|[-> ->]]]; simpl in Hl.
  - destruct (Z.eqb_spec (0x100000 + 8 * i) 0x100000); [|rewrite !(proj2 (Z.eqb_neq _ _)) in Hr by lia; done].
    injection Hr as <-. right. left. destruct Hl as [k [= <- _]]. split; [|done]. assert (i = 0) as -> by lia. done.
  - rewrite (proj2 (Z.eqb_neq _ 0x100000)) in Hr by lia.
    destruct (Z.eqb_spec (0x101000 + 8 * i) 0x101000); [|rewrite !(proj2 (Z.eqb_neq _ _)) in Hr by lia; done].
    injection Hr as <-. right. right. destruct Hl as [k [= <- _]]. split; [|done]. assert (i = 0) as -> by lia. done.
  - rewrite (proj2 (Z.eqb_neq _ 0x100000)), (proj2 (Z.eqb_neq _ 0x101000)) in Hr by lia.
    by destruct (_ =? _).
Qed.

Lemma demo_tables_ok : tables_ok bm_inv bitmap_avail demo_mem demo_root demo_frames.
Proof.
  assert (forall x, read_word demo_mem x = if x =? 0x100000 then 0x101007 else if x =? 0x101000 then 0x102007
    else if x =? 0x102008 then 0x400087 else 0) as Hread by (intros x; unfold demo_mem; by rewrite !read_insert).
  assert (forall f, bitmap_avail demo_frames f -> f < 0x100000) as Hav.
  { intros f (i & -> & _ & [[_ Ht] _] & _). change (total_frames demo_frames) with 9 in Ht. lia. }
  split; [split| |apply demo_frames_inv].
  - intros x. rewrite Hread. repeat case_match; lia.
  - done.
  - intros p1 p2 t H1 H2 R1 R2. apply demo_reach in R1, R2; [|done..]. naive_solver lia.
  - intros p t Hp Hr Hf. apply Hav in Hf. apply demo_reach in Hr; [|done]. naive_solver lia.
  - intros f i Hf Hi. apply Hav in Hf as Hlt. rewrite Hread. unfold entry_address.
    pose proof (fa_avail demo_frames f Hf) as [_ Hal]. pose proof (Z.div_mod f 4096 ltac:(lia)).
    rewrite !(proj2 (Z.eqb_neq _ _)) by lia. done.
  - intros p t i Hp _ Hr Hi. rewrite Hread. repeat case_match; auto.
Qed.

Lemma demo_leaf_flags : leaf_flags 5.
Proof. split; [split; [lia|reflexivity]|]. split; reflexivity. Qed.



(** ** Departures *)

(** Mapping a page that is in use reports success and maps nothing: the page keeps its
    old frame. *)
Example mapped_page_reported_ok :
  let '(r1, m1, a1) := ppt_map_page demo_ppt demo_root demo_mem demo_frames 0x1000 (7 * 4096) 7 in
  let '(r2, m2, _) := ppt_map_page demo_ppt demo_root m1 a1 0x1000 (8 * 4096) 7 in
  r1 = Ok tt /\ r2 = Ok tt /\ hw_translate m2 demo_root 0x1000 = Some (7 * 4096).
Proof. vm_compute. done. Qed.

(** The rights of a page: what every entry of its walk grants. *)
Fixpoint hw_rights (ls : list Z) (m : Mem) (table v : Z) : Z :=
  match ls with
  | [] => -1
  | l :: ls =>
      let e := read_word m (entry_address table (index v l)) in
      if (l =? 1) || is_huge e then e else Z.land e (hw_rights ls m (pte_addr e) v)
  end.

(** The entry that replaces a large page gets the flags of the one page mapped in it: a
    page mapped for reading makes the whole 2 MiB read-only. *)
Example split_drops_write :
  let '(r, m', _) := ppt_map_page demo_ppt demo_root demo_mem demo_frames 0x201000 (8 * 4096) 5 in
  let writable m v := negb (Z.land (hw_rights [4; 3; 2; 1] m demo_root v) WRITABLE =? 0) in
  r = Ok tt /\ writable demo_mem 0x202000 = true /\ writable m' 0x202000 = false.
Proof. vm_compute. done. Qed.

(** Inside a 1 GiB page the split takes the contents of the page for a level 2 table and
    writes an entry into them: here the word at physical address 8. *)
Definition gig_mem : Mem := <[0x100000 := 0x101007]> (<[0x101000 := 0x87]> (<[8 := 0xAA80]> ∅)).

Example split_writes_1g_page :
  let '(r, m', _) := ppt_map_page demo_ppt demo_root gig_mem demo_frames 0x200000 (8 * 4096) 7 in
  hw_translate gig_mem demo_root 8 = Some 8 /\ r = Err SysMappingFailed
  /\ read_word gig_mem 8 = 0xAA80 /\ read_word m' 8 <> 0xAA80.
Proof. vm_compute. split; [done|]. split; [done|]. split; done. Qed.

(** A clone keeps the words its frame held where the source has no entry: frame 1 is
    handed out with an old entry for a table, and the clone maps an address that the
    source does not. *)
Definition stale_clone_mem : Mem :=
  <[4096 + 8 * 5 := 0x101007]> demo_mem.

Example clone_keeps_stale_entries :
  match clone_page_table demo_ppt demo_root stale_clone_mem demo_frames demo_root with
  | (Ok root, _, m', _) => let v := 5 * 2 ^ 39 + 0x200000 in
      hw_translate stale_clone_mem demo_root v = None /\ hw_translate m' root v = Some 0x400000
  | _ => False
  end.
Proof. vm_compute. done. Qed.

(** A page mapped in a clone appears in its source, so a forked process and its parent
    share the memory either maps. *)
Example clone_mapping_shared :
  match clone_page_table demo_ppt demo_root demo_mem demo_frames demo_root with
  | (Ok root, pt', m', a') =>
      let child := ppt_initialize root ppt_new in
      let '(r, m2, _) := ppt_map_page child root m' a' 0x1000 (8 * 4096) 7 in
      r = Ok tt /\ hw_translate demo_mem demo_root 0x1000 = None
      /\ hw_translate m2 demo_root 0x1000 = Some (8 * 4096)
  | _ => False
  end.
Proof. vm_compute. done. Qed.

(** Releasing a hierarchy leaks the tables under its first entry: the temporary page still
    shows the parent when the first child is visited, so the parent's entries are read in
    its place.  Table 4 has the children 5 and 6, and 5 has the child 7: frames 4, 5 and 6
    are free afterwards, 7 is not. *)
Definition destroy_mem : Mem :=
  <[4 * 4096 := 5 * 4096 + 7]> (<[4 * 4096 + 8 := 6 * 4096 + 7]> (<[5 * 4096 := 7 * 4096 + 7]> ∅)).
Definition destroy_frames : BitmapFrameAllocator := mkBitmap [Z.lor 1 (240)] 1 16.
Definition frame_used (b : BitmapFrameAllocator) (i : Z) : bool := Z.testbit (nth 0 (bitmap b) 0) i.

Example destroy_leaks_first_child :
  let '(r, _, _, a') := destroy_page_table (add_table demo_ppt (4 * 4096)) demo_root destroy_mem destroy_frames (4 * 4096) in
  r = Ok tt /\ map (frame_used destroy_frames) [4; 5; 6; 7] = [true; true; true; true]
  /\ map (frame_used a') [4; 5; 6; 7] = [false; false; false; true].
Proof. vm_compute. done. Qed.
